(* ===== verification/_CoqProject ===== *)
-Q . S2P
Prelude.v
Bytes.v
Sid.v
Acl.v
Token.v
Rights.v
Integrity.v
AccessCheck.v
Pte.v
CellAllocator.v
FileLocks.v
Fragmentation.v
Ipv4.v
Routing.v
SysPte.v
Vad.v
VadSpec.v
VadRemove.v
Heap.v
Frame.v
Pool.v
NetNat.v
Wfp.v
TcpCongestion.v
Lznt1.v
RefsBtree.v
Cache.v
Text.v
Hive.v
HiveWriter.v
HiveLayout.v
HiveRoundtrip.v
Aes.v
CipherModes.v
Hash.v
BigNum.v
NumTheory.v
Rsa.v
Udp.v
Sockets.v
Tcp.v
TcpSession.v
SocketApi.v
