(* ===== verification/Prelude.v ===== *)
(** * Verification of the NT 6.1 kernel: security, memory, registry, files, network, cryptography

    The program under [src/nt61/src] is an NT 6.1 kernel in Rust. This library models
    thirty-four of its components, function by function, and proves them correct where they
    are; where the code does something else than its comments or its purpose say, the
    deviation is proved as well.

    ** Semantics

    - Machine integers are [Z]. [u_ty w x] says that [x] fits [w] bits, and
      [x +[w] y], [x -[w] y], [x *[w] y] are the wrapping operations of a release build.
    - Code that can fail at run time has type [outcome]: [Ret] for a value, [Panic] for an
      index, slice or division panic. [OutOfFuel] marks a loop that was given too few
      iterations; theorems about results show [Ret], so they exclude both.
    - A static behind a lock is a record ([World]) passed to and returned by the functions
      that take the lock; a lock makes each call atomic, so a history is a sequence of
      calls.
    - A raw pointer that may be null is an [option], and where the code computes with
      addresses a [Z] with 0 for null. Code that keeps its structures in raw memory ([Vad],
      [Heap], [Pool], [Frame]) works on an explicit memory, so that aliasing is part of the
      model. Answers of other subsystems (clock reads, [map_page], the pool for the other
      files) are arguments of the definitions.
    - A [BTreeMap] is a [gmap]; where the code iterates over one in key order, [btree_iter]
      gives the sorted association list.

    ** Files

    - [Prelude]: outcomes, wrapping arithmetic and its notations ([rust_scope]), the hint
      database [nt], byte encodings, positions, stable sorting, sums, sorted maps.
    - [Sid] ([se/sid.rs]): SIDs, well-known SIDs, wire parser, printer.
    - [Acl] ([se/acl.rs]): the ACL buffer at the byte level; [acl_repr a es] relates it to
      the list of entries it encodes.
    - [Token] ([se/token.rs]): users, groups and privileges in fixed tables.
    - [Rights] ([se/seaccess.rs]): access masks, generic mappings, security descriptors.
    - [Integrity] ([se/integrity.rs]): integrity levels of tokens and objects.
    - [AccessCheck] ([se/seaccess.rs]): the DACL walk, privileges, the mandatory check, the
      default policy and [se_access_check].
    - [Pte] ([mm/pte.rs]): encodings of page-table entries.
    - [SysPte] ([mm/syspte.rs]): the system PTE pool on x86-64.
    - [Vad] ([mm/vad.rs]): the tree of virtual address descriptors, its nodes in a memory of
      entries, with its lock. [VadSpec]: insertion and lookup against a sorted list of
      ranges. [VadRemove]: removal, merging and the searches for gaps.
    - [Heap] ([mm/heap.rs]): the kernel heap; its headers and its free list live in the
      memory it hands out.
    - [Frame] ([mm/frame.rs]): the buddy allocator of physical pages; composes with [Heap],
      which takes its region from it.
    - [Pool] ([mm/pool.rs]): tagged allocations over [Heap].
    - [CellAllocator] ([registry/cell_allocator.rs]): the allocator of hive cells.
    - [Text]: the string conversions of the Rust library that the registry uses (ASCII,
      UTF-8, UTF-16).
    - [Hive] ([registry/hive.rs]): the reader of hive files, on arbitrary bytes.
    - [HiveWriter] ([registry/hive_writer.rs]): the serialiser of a key tree.
    - [HiveLayout], [HiveRoundtrip]: what the writer leaves in the file, and what the
      reader finds there. They compose [HiveWriter] with [Hive].
    - [Lznt1] ([fs/ntfs/compression.rs]): the LZNT1 compressor and decompressor.
    - [RefsBtree] ([fs/refs/btree.rs]): pages of ReFS B+ trees, their bytes and their
      operations.
    - [Cache] ([fs/cache.rs]): the block cache, over the class [DiskBackend] of
      [drivers/storage/disk.rs]; [DiskLaws] is a disk that does not fail.
    - [FileLocks] ([fs/locking.rs]): byte-range locks and oplocks.
    - [Fragmentation] ([netstack/fragmentation.rs]): cutting and reassembling payloads.
    - [Ipv4] ([netstack/ipv4.rs]): headers, checksum, the fragment loop of [send_ipv4] and
      the reassembly branch of [ipv4_input]; calls [Fragmentation].
    - [Routing] ([netstack/routing.rs]), [NetNat] ([netstack/nat.rs]), [Wfp]
      ([netstack/wfp.rs]): routing table, address translation, packet filter.
    - [TcpCongestion] ([netstack/tcp_congestion.rs]): Reno and CUBIC windows, retransmission
      timer, send window. [f64] is binary64 of [SpecFloat].
    - [Udp] ([netstack/udp.rs]): datagrams, the UDP table and its receive queues.
    - [Tcp] ([netstack/tcp.rs]): segments, control blocks, the connection table, the state
      machine, retransmission. [World] holds the statics of the module.
    - [Sockets] ([netstack/socket.rs]): the socket table and the accept queues, called by
      [Tcp] for connections that arrive.
    - [TcpSession]: two endpoints of [Tcp] joined by the packets of [Ipv4].
    - [SocketApi] ([netstack/socket.rs]): the socket calls over [Sockets], [Tcp] and [Udp];
      [Net] holds the three tables, [step] is one call or one received datagram.
    - [Bytes]: byte strings, their exclusive or, chunks, functions that are linear in bits.
    - [Aes] ([crypto/cipher.rs]): the block cipher, both key sizes, with the specification
      of FIPS 197 for its field, its tables and its key schedule.
    - [CipherModes] ([crypto/cipher.rs]): ECB, CBC, CTR and GCM over the class
      [BlockCipher], whose laws AES discharges; RC4; triple DES in CBC mode over the cipher
      of the [des] crate, a parameter.
    - [Hash] ([crypto/hash.rs]): MD5, SHA-1 and the SHA-2 functions as streaming objects, a
      record [Digest] each over one model of the buffer; HMAC.
    - [BigNum] ([crypto/rsa.rs]): [BigUint], limb by limb; [value] is the number it stands
      for.
    - [NumTheory]: Fermat, the Chinese remainder theorem, the identity behind RSA, a
      primality certificate for the keys of the examples.
    - [Rsa] ([crypto/rsa.rs]): encryption, signatures, key generation. The bytes of the random
      number generator are an argument.

    Each file has one module: data and operations first, then a specification, lemmas, and
    the properties with their witnesses.

    ** Properties

    - Access check: the walk over bytes refines a specification on the list of entries,
      returns on arbitrary bytes, grants explicit requests exactly when the entries and
      privileges allow every bit, and does not write up through named rights. A request
      for GENERIC_ALL escapes the mandatory check on a NULL DACL; the default policy fails
      open without memory, and denies its owner object-specific rights.
    - Buffers and parsers: SID and IPv4 parsing are safe on every input and invert the
      encoders; appending an ACE refines appending to the list of entries; object labels
      read back.
    - Allocators: in every reachable state hive cells tile the arena, allocation returns
      fresh cells, free accepts exactly the cells handed out, and freeing everything
      leaves one free cell. The PTE pool is first fit, and release inverts reservation.
    - Kernel memory: whatever is asked of the heap, live allocations are aligned, inside
      the region, disjoint and keep their contents, no two free blocks touch, and a request
      fails exactly when nothing is large enough. A new pool block is aligned, zeroed and
      tagged, and a second release is caught. Reserved frames are never handed out. But the
      frame allocator hands out the first page of the heap again, and a pool block that is
      split escapes its bounds.
    - Address descriptors: after any insertions the tree is a search tree of the ranges
      inserted, and lookups find exactly the range that contains a page; a removal that
      needs no rotation removes its range and keeps the others, one that does need it
      deadlocks, and so does every search for a gap.
    - Registry hives: reading is safe on every file except for an index that contains
      itself, on which it does not return; every key tree that fits is read back as it was
      written, and path lookup in the file is path lookup in the tree.
    - Compression: decompression is safe on every input, and decompressing what was
      compressed gives the data back, up to a last block of one byte.
    - ReFS pages: until a page overflows it is a sorted map under insertion, deletion, search
      and iteration, and what is written is read back; a full page splits, and keeps the
      order only for a key below the separator or above every key.
    - Block cache: calls for one file are answered as by a flat memory, and a flush leaves that
      memory on the disk; flushing a file whose blocks fill the cache makes it refuse every
      later transfer.
    - Locks: no two processes hold conflicting bytes, a lock is granted exactly when no
      conflicting lock exists, oplocks follow their protocol.
    - Network: a datagram sent is the datagram received, whatever the order in which its
      fragments arrive; routing is longest-prefix match; the heaviest filter decides; the
      two NAT maps stay inverse and replies reach their client; the send window delivers
      the stream in order until sequence numbers wrap. The UDP checksum is the one of the
      RFC; a UDP datagram sent arrives, and a queue holds the newest 64.
    - Sockets: every sequence of socket calls and received datagrams returns and keeps the
      tables bounded and typed; a handshake ends with both ends established and in step,
      and reaches [accept] exactly when two id counters agree.
    - Cryptography: AES decryption inverts encryption and the key schedules are those of
      FIPS 197; CBC and CTR invert; GCM encryption is that of SP 800-38D and decryption
      accepts exactly what it produced; feeding a hash in pieces gives the padded and
      chained digest of the whole, and HMAC is RFC 2104 over it. Big-number arithmetic is
      exact; with a valid key decryption inverts encryption and signatures verify; the
      primality test is Miller and Rabin's and accepts primes; generated keys have the
      stated size and are valid under conditions that the code does not check.
    - Deviations: panics on hostile fragments, on an exhausted PTE pool and after sequence
      wrap-around; partial overlaps that lock checks let through; free cells the bucket
      order hides; a released heap block that never serves its own size again, a buddy merged
      while in use; an AVL tree that does not balance, gaps that overlap ranges;
      entries lost when a full ReFS page refuses a key, values changed by writing a split page;
      bytes that a partial write to an uncached block destroys, files that share disk blocks;
      TCP data that is delivered twice, connections that never finish closing and blocks that
      never leave the table; datagram sockets that are never ready and that read the queue of
      another after a close.

    ** Bounds and fuel

    Loops over data are structural. The others carry fuel, with a proof that it is enough:
    the ACE walk gets one step more than the limit of the buffer, since it advances
    by at least sixteen bytes; [log_loop] 33 for a 32-bit size; [carry_loop] 4, as a 32-bit sum folds
    to 16 bits in three rounds; [allocate_loop] 16384, the size of the port range;
    [digit_loop] is the twenty-digit bound of the code itself, as is the 64 of [newton].
    The decompressor and the hive reader get one step more than the length of their input,
    which every round shortens; the search in a ReFS page one step more than there are entries;
    transfers through the cache one step for each byte, the queue of invalidations one for each
    notification and each cached block;
    [match_loop] 19, one more than the longest match. The
    ports of [Tcp] and [Udp] are searched in 16384 steps, the size of the dynamic range.
    [read_ri] takes the depth of its recursion as an argument: results need no more than
    the depth of the index, and an index that contains itself exhausts every depth.
    Modular powers and inverses get the bit lengths of their operands, which bound their
    rounds. The searches for a prime and for a padding byte take their fuel as an argument:
    they end when the random numbers allow it, and the theorems say so.
    Walks down the descriptor tree get the number of entries in memory, and walks along the
    heap's free list one step more than the 16-byte blocks that fit below the bump pointer; both are
    proved enough. The frame lists get one step more than there are frames, so that a walk that
    exhausts it runs in a ring.
    [fragment_packet] takes its fuel as an argument: one more than the payload length is
    enough when a fragment has room for eight bytes, and no fuel is enough otherwise.

    ** Not modelled

    Hardware access, drivers, the architecture layers, user-mode libraries and programs,
    boot code and logging: effects on devices without a functional contract. The scheduler and
    the object manager are code about raw memory, processors and interrupts whose contract is
    concurrency; the interleavings inside a locked region and the memory ordering of atomics
    are outside the model, so they could only be stated trivially. The file systems and the PFN
    database would need a model of the disk and of page tables beside their own tables. Security
    descriptors, ACL management, the registry key tree, ARP, ICMP, DNS and two more file-system
    caches could be modelled with the means of this library and are left out. A waiting
    [connect] lets other threads run; of what they do, only the datagrams that arrive are
    modelled. *)

From Stdlib Require Import ZArith Lia.
From stdpp Require Export base tactics numbers list option gmap sorting.

Global Open Scope Z_scope.

(** ** Outcomes of Rust code *)

(** [Panic] is an index, slice or division panic of the Rust run time;
    [OutOfFuel] is the model's own marker for a loop that was not given enough
    iterations.  Every theorem that says that code returns excludes both. *)
Inductive outcome (A : Type) : Type :=
| Ret (a : A)
| Panic
| OutOfFuel.
Arguments Ret {A} a.
Arguments Panic {A}.
Arguments OutOfFuel {A}.

#[export] Instance outcome_ret : MRet outcome := fun A a => Ret a.
#[export] Instance outcome_bind : MBind outcome := fun A B f m =>
  match m with Ret a => f a | Panic => Panic | OutOfFuel => OutOfFuel end.

Lemma outcome_bind_ret {A B} (a : A) (f : A -> outcome B) : (Ret a ≫= f) = f a.
Proof. reflexivity. Qed.

Lemma outcome_bind_Ret {A B} (m : outcome A) (f : A -> outcome B) b :
  m ≫= f = Ret b -> exists a, m = Ret a /\ f a = Ret b.
Proof. destruct m as [a | |]; [| done ..]. by exists a. Qed.

(** Indexing: [v[i]] panics out of range. *)
Definition rd {A} (l : list A) (i : nat) : outcome A :=
  match l !! i with Some x => Ret x | None => Panic end.

(** [v[i] = x] panics out of range. *)
Definition wr {A} (l : list A) (i : nat) (x : A) : outcome (list A) :=
  if decide (i < length l)%nat then Ret (<[i := x]> l) else Panic.

(** [&v[a..b]] panics unless [a <= b <= v.len()]. *)
Definition slice {A} (l : list A) (a b : nat) : outcome (list A) :=
  if decide (a <= b <= length l)%nat then Ret (take (b - a) (drop a l)) else Panic.

(** [v[a..a+xs.len()].copy_from_slice(xs)]. *)
Definition copy_at {A} (l : list A) (a : nat) (xs : list A) : outcome (list A) :=
  if decide (a + length xs <= length l)%nat
  then Ret (take a l ++ xs ++ drop (a + length xs) l) else Panic.

Lemma rd_lookup {A} (l : list A) i x : l !! i = Some x -> rd l i = Ret x.
Proof. unfold rd. by intros ->. Qed.

Lemma wr_in {A} (l : list A) i x : (i < length l)%nat -> wr l i x = Ret (<[i := x]> l).
Proof. intros. unfold wr. by rewrite decide_True. Qed.

Lemma slice_in {A} (l : list A) a b :
  (a <= b <= length l)%nat -> slice l a b = Ret (take (b - a) (drop a l)).
Proof. intros. unfold slice. by rewrite decide_True. Qed.

Lemma copy_at_in {A} (l : list A) a xs :
  (a + length xs <= length l)%nat ->
  copy_at l a xs = Ret (take a l ++ xs ++ drop (a + length xs) l).
Proof. intros. unfold copy_at. by rewrite decide_True. Qed.

(** ** Machine integers *)

(** A [w]-bit unsigned value. *)
Definition u_ty (w x : Z) : Prop := 0 <= x < 2 ^ w.

#[export] Instance u_ty_dec w x : Decision (u_ty w x).
Proof. unfold u_ty. apply _. Defined.

(** Wrap-around of a [w]-bit operation (the release profile of the build). *)
Definition wrap (w x : Z) : Z := x mod 2 ^ w.

(** [!x] on [w] bits, [saturating_add], [saturating_sub]. *)
Definition wnot (w x : Z) : Z := Z.ldiff (Z.ones w) x.
Definition sat_add (w x y : Z) : Z := Z.min (x + y) (2 ^ w - 1).
Definition sat_sub (x y : Z) : Z := Z.max 0 (x - y).

(** [x & m != 0], the idiom the sources use for flag tests. *)
Definition has_bits (x m : Z) : bool := negb (Z.land x m =? 0).

Declare Scope rust_scope.
Delimit Scope rust_scope with rust.
Notation "x +[ w ] y" := (wrap w (x + y)) (at level 50, left associativity) : rust_scope.
Notation "x -[ w ] y" := (wrap w (x - y)) (at level 50, left associativity) : rust_scope.
Notation "x *[ w ] y" := (wrap w (x * y)) (at level 40, left associativity) : rust_scope.
Global Open Scope rust_scope.

Lemma wrap_small w x : u_ty w x -> wrap w x = x.
Proof. apply Z.mod_small. Qed.

Lemma wrap_ty w x : 0 <= w -> u_ty w (wrap w x).
Proof. intros. apply Z.mod_pos_bound, Z.pow_pos_nonneg; lia. Qed.

Lemma u_ty_testbit w x i : u_ty w x -> w <= i -> Z.testbit x i = false.
Proof.
  intros [Hx Hw] Hi. destruct (decide (x = 0)) as [-> | Hne]; [apply Z.testbit_0_l |].
  apply Z.bits_above_log2; [lia |]. apply Z.lt_le_trans with w; [| lia].
  apply Z.log2_lt_pow2; lia.
Qed.

Lemma u_ty_of_bits w x :
  0 <= w -> 0 <= x -> (forall i, w <= i -> Z.testbit x i = false) -> u_ty w x.
Proof.
  intros Hw Hx Hb. split; [done |].
  assert (x = x mod 2 ^ w) as ->.
  { rewrite <- Z.land_ones by done. apply Z.bits_inj'. intros i Hi.
    rewrite Z.land_spec, Z.testbit_ones_nonneg by lia.
    destruct (Z.ltb_spec i w); [by rewrite andb_true_r |]. by rewrite Hb by lia. }
  apply Z.mod_pos_bound, Z.pow_pos_nonneg; lia.
Qed.

Lemma u_ty_land w x y : 0 <= w -> u_ty w x -> 0 <= y -> u_ty w (Z.land x y).
Proof.
  intros Hw Hx Hy. apply u_ty_of_bits; [done | apply Z.land_nonneg; unfold u_ty in Hx; lia |].
  intros i Hi. by rewrite Z.land_spec, (u_ty_testbit w x).
Qed.

Lemma u_ty_lor w x y : 0 <= w -> u_ty w x -> u_ty w y -> u_ty w (Z.lor x y).
Proof.
  intros Hw Hx Hy. apply u_ty_of_bits; [done | apply Z.lor_nonneg; unfold u_ty in *; lia |].
  intros i Hi. by rewrite Z.lor_spec, (u_ty_testbit w x), (u_ty_testbit w y).
Qed.

Lemma u_ty_lxor w x y : 0 <= w -> u_ty w x -> u_ty w y -> u_ty w (Z.lxor x y).
Proof.
  intros Hw Hx Hy. apply u_ty_of_bits; [done | apply Z.lxor_nonneg; unfold u_ty in *; lia |].
  intros i Hi. by rewrite Z.lxor_spec, (u_ty_testbit w x), (u_ty_testbit w y).
Qed.

Lemma u_ty_wnot w x : 0 <= w -> 0 <= x -> u_ty w (wnot w x).
Proof.
  intros Hw Hx. unfold wnot. apply u_ty_of_bits; [done | |].
  - apply Z.ldiff_nonneg. left. rewrite Z.ones_equiv. pose proof (Z.pow_pos_nonneg 2 w). lia.
  - intros i Hi. rewrite Z.ldiff_spec, Z.testbit_ones_nonneg by lia.
    by destruct (Z.ltb_spec i w); [lia |].
Qed.

Lemma wnot_testbit w x i :
  0 <= w -> 0 <= i -> Z.testbit (wnot w x) i = (i <? w) && negb (Z.testbit x i).
Proof. intros. unfold wnot. by rewrite Z.ldiff_spec, Z.testbit_ones_nonneg by lia. Qed.

(** Clearing the low [k] bits rounds down. *)
Lemma land_wnot_pow2 x k : 0 <= k -> u_ty 64 x -> Z.land x (wnot 64 (2 ^ k - 1)) = x / 2 ^ k * 2 ^ k.
Proof.
  intros Hk Hx. rewrite <- Z.shiftr_div_pow2, <- Z.shiftl_mul_pow2 by done.
  assert (Ho : 2 ^ k - 1 = Z.ones k) by (rewrite Z.ones_equiv; lia). rewrite Ho. apply Z.bits_inj'. intros i Hi.
  rewrite Z.land_spec, wnot_testbit, Z.testbit_ones_nonneg by lia. destruct (Z.ltb_spec i k).
  - rewrite Z.shiftl_spec_low by lia. by rewrite !andb_false_r.
  - rewrite Z.shiftl_spec, Z.shiftr_spec by lia. replace (i - k + k) with i by lia.
    destruct (Z.ltb_spec i 64); [by rewrite !andb_true_r |]. by rewrite (u_ty_testbit 64 x).
Qed.

Lemma land_0_bits x m :
  Z.land x m = 0 <-> forall i, 0 <= i -> Z.testbit x i && Z.testbit m i = false.
Proof.
  split.
  - intros H i Hi. by rewrite <- Z.land_spec, H, Z.testbit_0_l.
  - intros H. apply Z.bits_inj'. intros i Hi. by rewrite Z.land_spec, Z.testbit_0_l, H.
Qed.

Lemma has_bits_false x m : has_bits x m = false <-> Z.land x m = 0.
Proof. unfold has_bits. by rewrite negb_false_iff, Z.eqb_eq. Qed.

Lemma has_bits_true x m : has_bits x m = true <-> Z.land x m <> 0.
Proof. unfold has_bits. by rewrite negb_true_iff, Z.eqb_neq. Qed.

(** A non-zero mask has a set bit. *)
Lemma nonzero_bit x : 0 <= x -> x <> 0 -> exists i, 0 <= i /\ Z.testbit x i = true.
Proof.
  intros. exists (Z.log2 x). split; [apply Z.log2_nonneg | apply Z.bit_log2; lia].
Qed.

(** ** Little-endian byte strings *)

Definition byte_ty (b : Z) : Prop := u_ty 8 b.

Fixpoint to_le (n : nat) (x : Z) : list Z :=
  match n with
  | O => []
  | S n => x mod 256 :: to_le n (x / 256)
  end.

Fixpoint from_le (l : list Z) : Z :=
  match l with
  | [] => 0
  | b :: l => b + 256 * from_le l
  end.

Lemma length_to_le n x : length (to_le n x) = n.
Proof. revert x. induction n as [|n IH]; intros x; simpl; [done | by rewrite IH]. Qed.

Lemma to_le_bytes n x : Forall byte_ty (to_le n x).
Proof.
  revert x. induction n as [|n IH]; intros x; simpl; constructor; [| done].
  apply (Z.mod_pos_bound x 256). lia.
Qed.

Lemma from_to_le n x : u_ty (8 * Z.of_nat n) x -> from_le (to_le n x) = x.
Proof.
  revert x. induction n as [|n IH]; intros x Hx; unfold u_ty in Hx.
  - simpl in *. lia.
  - cbn [to_le from_le]. rewrite IH; [rewrite (Z.div_mod x 256) at 3; lia |].
    replace (8 * Z.of_nat (S n)) with (8 + 8 * Z.of_nat n) in Hx by lia.
    rewrite Z.pow_add_r in Hx by lia. change (2 ^ 8) with 256 in Hx.
    split; [apply Z.div_pos; lia | apply Z.div_lt_upper_bound; lia].
Qed.

Lemma from_le_ty l : Forall byte_ty l -> u_ty (8 * Z.of_nat (length l)) (from_le l).
Proof.
  induction 1 as [|b l Hb Hl IH]; [by unfold u_ty |].
  cbn [from_le length]. unfold byte_ty, u_ty in *.
  replace (8 * Z.of_nat (S (length l))) with (8 + 8 * Z.of_nat (length l)) by lia.
  rewrite Z.pow_add_r by lia. change (2 ^ 8) with 256 in *. lia.
Qed.

Lemma to_from_le l : Forall byte_ty l -> to_le (length l) (from_le l) = l.
Proof.
  induction 1 as [|b l Hb Hl IH]; [done |]. cbn [to_le from_le length].
  unfold byte_ty, u_ty in Hb. change (2 ^ 8) with 256 in Hb.
  replace (b + 256 * from_le l) with (b + from_le l * 256) by lia.
  rewrite Z.mod_add, Z.div_add by lia. rewrite (Z.mod_small b), (Z.div_small b) by lia.
  by rewrite Z.add_0_l, IH.
Qed.

(** Disjoint fields: [|] is addition. *)
(** Big-endian, [to_be_bytes] and [from_be_bytes]. *)
Definition to_be (n : nat) (x : Z) : list Z := rev (to_le n x).
Definition from_be (l : list Z) : Z := from_le (rev l).

Lemma from_to_be n x : u_ty (8 * Z.of_nat n) x -> from_be (to_be n x) = x.
Proof. intros H. unfold from_be, to_be. rewrite rev_involutive. by apply from_to_le. Qed.

Lemma length_to_be n x : length (to_be n x) = n.
Proof. unfold to_be. by rewrite length_rev, length_to_le. Qed.

Lemma to_be_bytes n x : Forall byte_ty (to_be n x).
Proof. unfold to_be. apply Forall_rev, to_le_bytes. Qed.

Lemma from_be_ty l : Forall byte_ty l -> u_ty (8 * Z.of_nat (length l)) (from_be l).
Proof. intros H. unfold from_be. rewrite <- length_rev. apply from_le_ty. by apply Forall_rev. Qed.

Lemma lor_mul_add k a b : 0 <= k -> u_ty k b -> Z.lor (a * 2 ^ k) b = a * 2 ^ k + b.
Proof.
  intros Hk Hb. rewrite <- Z.shiftl_mul_pow2 by done.
  rewrite Z.add_nocarry_lxor, Z.lxor_lor; [done | |]; apply Z.bits_inj'; intros i Hi;
    rewrite Z.land_spec, Z.testbit_0_l, Z.shiftl_spec by done;
    (destruct (Z.lt_ge_cases i k);
     [by rewrite Z.testbit_neg_r by lia | by rewrite (u_ty_testbit k b), andb_false_r]).
Qed.

Lemma lor_shiftl_add k a b : 0 <= k -> u_ty k b -> Z.lor (Z.shiftl a k) b = a * 2 ^ k + b.
Proof. intros. rewrite Z.shiftl_mul_pow2 by done. by apply lor_mul_add. Qed.

(** Appending one byte field below a big-endian prefix. *)
Lemma lor_byte_step x b k k' :
  0 <= k -> k' = 8 + k -> byte_ty b ->
  Z.lor (Z.shiftl x k') (Z.shiftl b k) = Z.shiftl (x * 256 + b) k.
Proof.
  intros ? -> ?. rewrite <- Z.shiftl_shiftl, <- Z.shiftl_lor by lia. f_equal. by apply lor_shiftl_add.
Qed.

Lemma lookup_nth {A} (l : list A) i d : (i < length l)%nat -> l !! i = Some (nth i l d).
Proof.
  revert i. induction l as [|x l IH]; intros [|i] Hi; simpl in *; try lia; [done |].
  apply IH. lia.
Qed.

Lemma forallb_seq_nth (l k : list Z) n :
  (n <= length l)%nat -> (n <= length k)%nat ->
  forallb (fun i => nth i l 0 =? nth i k 0) (seq 0 n) = true <-> take n l = take n k.
Proof.
  intros Hl Hk. rewrite forallb_forall. split.
  - intros H. apply list_eq. intros i. destruct (decide (i < n)%nat).
    + rewrite !lookup_take_lt, !(lookup_nth _ _ 0) by lia. f_equal. apply Z.eqb_eq, H.
      apply in_seq. lia.
    + by rewrite !lookup_take_ge by lia.
  - intros H i Hi%in_seq. apply Z.eqb_eq. apply (f_equal (lookup i)) in H.
    rewrite !lookup_take_lt, !(lookup_nth _ _ 0) in H by lia. congruence.
Qed.

(** Reading past a known prefix. *)
Lemma rd_app {A} (pre l : list A) n k :
  n = length pre -> rd (pre ++ l) (n + k) = rd l k.
Proof. intros ->. unfold rd. by rewrite lookup_app_r, Nat.add_comm, Nat.add_sub by lia. Qed.

Lemma rd_app_0 {A} (pre l : list A) n : n = length pre -> rd (pre ++ l) n = rd l 0.
Proof. intros ->. rewrite <- (Nat.add_0_r (length pre)). by apply rd_app. Qed.

Lemma slice_app {A} (pre l rest : list A) a b :
  a = length pre -> b = (length pre + length l)%nat -> slice (pre ++ l ++ rest) a b = Ret l.
Proof.
  intros -> ->. rewrite slice_in by (rewrite !length_app; lia).
  rewrite drop_app_length. replace (length pre + length l - length pre)%nat with (length l) by lia.
  by rewrite take_app_length.
Qed.

Lemma rd_total {A} (P : A -> Prop) (l : list A) i :
  (i < length l)%nat -> Forall P l -> exists x, rd l i = Ret x /\ P x.
Proof.
  intros Hi Hl. destruct (lookup_lt_is_Some_2 l i Hi) as [x Hx]. exists x.
  split; [by apply rd_lookup | by eapply Forall_lookup_1].
Qed.

Lemma slice_total {A} (P : A -> Prop) (l : list A) a b :
  (a <= b <= length l)%nat -> Forall P l -> exists k, slice l a b = Ret k /\ Forall P k.
Proof.
  intros. eexists. split; [by apply slice_in |]. by apply Forall_take, Forall_drop.
Qed.

(** Sequential writes with a cursor: what is written so far is a prefix. *)
Lemma wr_cursor {A} (P R : list A) n x :
  n = length P -> (0 < length R)%nat -> wr (P ++ R) n x = Ret ((P ++ [x]) ++ drop 1 R).
Proof.
  intros -> HR. rewrite wr_in by (rewrite length_app; lia). f_equal.
  destruct R as [|r R]; [simpl in HR; lia |].
  rewrite <- (Nat.add_0_r (length P)), insert_app_r, <- app_assoc. done.
Qed.

Lemma copy_cursor {A} (P R xs : list A) n :
  n = length P -> (length xs <= length R)%nat ->
  copy_at (P ++ R) n xs = Ret ((P ++ xs) ++ drop (length xs) R).
Proof.
  intros -> HR. rewrite copy_at_in by (rewrite length_app; lia). f_equal.
  rewrite take_app_length, <- app_assoc, drop_app, drop_ge by lia. do 2 f_equal.
  by replace (length P + length xs - length P)%nat with (length xs) by lia.
Qed.

(** [for j in i..i + n { if f(l[j]) { return true } } false] *)
Fixpoint any_loop {A} (f : A -> bool) (l : list A) (i n : nat) : outcome bool :=
  match n with
  | O => Ret false
  | S n => x ← rd l i; if f x then Ret true else any_loop f l (S i) n
  end.

Lemma any_loop_drop {A} (f : A -> bool) (l : list A) i n :
  (i + n <= length l)%nat -> any_loop f l i n = Ret (existsb f (take n (drop i l))).
Proof.
  revert i. induction n as [|n IH]; intros i Hin; cbn [any_loop]; [by rewrite take_0 |].
  destruct (lookup_lt_is_Some_2 l i) as [x Hx]; [lia |].
  rewrite (rd_lookup _ _ _ Hx), outcome_bind_ret, (drop_S _ _ _ Hx). cbn [take firstn existsb].
  destruct (f x); [done |]. rewrite IH by lia. done.
Qed.

Lemma any_loop_take {A} (f : A -> bool) (l : list A) n :
  (n <= length l)%nat -> any_loop f l 0 n = Ret (existsb f (take n l)).
Proof. intros. by rewrite any_loop_drop, drop_0 by lia. Qed.

(** Casts to a signed [w]-bit integer. *)
Definition to_signed (w x : Z) : Z :=
  let y := wrap w x in if y <? 2 ^ (w - 1) then y else y - 2 ^ w.

(** [b2 | b3 << 8] reads a little-endian [u16]. *)
Lemma lor_le16 b2 b3 : byte_ty b2 -> Z.lor b2 (Z.shiftl b3 8) = from_le [b2; b3].
Proof. intros. rewrite Z.lor_comm, lor_shiftl_add by (done || lia). cbn [from_le]. lia. Qed.

(** The union of a list of masks. *)
Definition lor_all (l : list Z) : Z := foldr Z.lor 0 l.

Lemma lor_all_bit l i : Z.testbit (lor_all l) i = existsb (fun m => Z.testbit m i) l.
Proof.
  unfold lor_all. induction l as [|m l IH]; cbn; [apply Z.testbit_0_l |].
  by rewrite Z.lor_spec, IH.
Qed.

Lemma lor_all_ty w l : 0 <= w -> Forall (u_ty w) l -> u_ty w (lor_all l).
Proof.
  intros Hw. induction 1; cbn; [unfold u_ty; split; [lia | apply Z.pow_pos_nonneg; lia] |].
  by apply u_ty_lor.
Qed.

Lemma existsb_ext_in {A} (f g : A -> bool) l :
  (forall x, x ∈ l -> f x = g x) -> existsb f l = existsb g l.
Proof.
  induction l as [|x l IH]; intros H; cbn; [done |].
  rewrite H by set_solver. f_equal. apply IH. set_solver.
Qed.

(** ** Bit blasting *)

Lemma has_bits_pow2 x k : 0 <= k -> has_bits x (2 ^ k) = Z.testbit x k.
Proof.
  intros Hk. apply eq_true_iff_eq. rewrite has_bits_true. rewrite land_0_bits. split.
  - intros H. destruct (Z.testbit x k) eqn:E; [done |]. exfalso. apply H. intros i Hi.
    rewrite Z.pow2_bits_eqb by done. destruct (Z.eqb_spec k i); [subst; by rewrite E |].
    by rewrite andb_false_r.
  - intros E H. specialize (H k Hk). by rewrite E, Z.pow2_bits_true in H.
Qed.

(** Turn the bits of a word expression into bits of its variables. *)
Ltac bit_spec :=
  repeat first
    [ rewrite Z.land_spec | rewrite Z.lor_spec
    | rewrite Z.shiftl_spec by lia | rewrite Z.shiftr_spec by lia
    | rewrite Z.testbit_ones by lia | rewrite wnot_testbit by lia
    | rewrite Z.testbit_0_l ].

(** Decide the comparisons that [bit_spec] leaves. *)
Ltac bit_cmp :=
  repeat match goal with
    | |- context [?a <=? ?b] => destruct (Z.leb_spec a b); try lia
    | |- context [?a <? ?b] => destruct (Z.ltb_spec a b); try lia
    end.

Ltac bit_simp :=
  cbn [andb orb negb]; rewrite ?andb_true_r, ?andb_false_r, ?orb_false_r, ?orb_true_r;
  cbn [andb orb negb].

Ltac bit_close :=
  first [ done | lia
        | match goal with |- Z.testbit ?x ?i = Z.testbit ?x ?j => f_equal; lia end ].

(** Equality of two word expressions, bit by bit. *)
Ltac bits_eq :=
  apply Z.bits_inj'; let i := fresh "i" in intros i ?; bit_spec; bit_cmp; bit_simp; bit_close.

Lemma wrap_land w x : 0 <= w -> wrap w x = Z.land x (Z.ones w).
Proof. intros. unfold wrap. by rewrite Z.land_ones. Qed.

(** ** Vectors: [iter().position(f)] and [remove(pos)] *)

Fixpoint position {A} (f : A -> bool) (l : list A) : option nat :=
  match l with
  | [] => None
  | x :: l' => if f x then Some 0%nat else S <$> position f l'
  end.

Lemma position_Some {A} (f : A -> bool) l i :
  position f l = Some i ->
  exists x, l !! i = Some x /\ f x = true /\ Forall (fun y => f y = false) (take i l).
Proof.
  revert i. induction l as [| x l IH]; intros i; cbn [position]; [done |].
  destruct (f x) eqn:Hx.
  - intros [= <-]. exists x. by rewrite take_0.
  - destruct (position f l) as [j |]; cbn; [| done]. intros [= <-].
    destruct (IH j) as (y & Hy & Hfy & Hall); [done |]. exists y.
    rewrite firstn_cons, Forall_cons. done.
Qed.

Lemma position_None {A} (f : A -> bool) l :
  position f l = None <-> Forall (fun y => f y = false) l.
Proof.
  induction l as [| x l IH]; cbn [position]; [by split |].
  rewrite Forall_cons. destruct (f x) eqn:Hx; [naive_solver |].
  destruct (position f l); cbn; naive_solver.
Qed.

Lemma position_snoc {A} (f : A -> bool) l x :
  Forall (fun y => f y = false) l -> f x = true ->
  position f (l ++ [x]) = Some (length l) /\ delete (length l) (l ++ [x]) = l.
Proof.
  intros Hl Hx. split; [| by rewrite delete_middle, app_nil_r].
  induction Hl as [| y l Hy Hl IH]; cbn [position app length]; [by rewrite Hx |].
  by rewrite Hy, IH.
Qed.

Lemma position_insert {A} (f : A -> bool) l i x x' :
  l !! i = Some x -> f x' = f x -> position f (<[i := x']> l) = position f l.
Proof.
  intros Hi Hf. revert i Hi. induction l as [| y l IH]; intros i Hi; [done |].
  destruct i as [| i]; cbn in *; [injection Hi as ->; by rewrite Hf |]. by rewrite IH.
Qed.

(** A removed element and the vector that is left are the old vector, reordered. *)
Lemma delete_perm {A} (l : list A) i x : l !! i = Some x -> l ≡ₚ x :: delete i l.
Proof.
  intros H. rewrite <- (take_drop_middle l i x H) at 1. rewrite delete_take_drop.
  by rewrite Permutation_middle.
Qed.

(** [retain] keeps a subsequence. *)
Lemma filter_sublist {A} (f : A -> bool) l : List.filter f l `sublist_of` l.
Proof. induction l as [| x l IH]; cbn; [constructor |]. destruct (f x); by constructor. Qed.

Lemma filter_elem {A} (f : A -> bool) l x : x ∈ List.filter f l <-> x ∈ l /\ f x = true.
Proof. rewrite !list_elem_of_In. apply List.filter_In. Qed.

Lemma filter_all {A} (f : A -> bool) l : (forall x, x ∈ l -> f x = true) -> List.filter f l = l.
Proof.
  induction l as [| x l IH]; cbn; [done |]. intros H. rewrite H by (by apply elem_of_cons; left).
  f_equal. apply IH. intros y Hy. apply H. by apply elem_of_cons; right.
Qed.

Lemma filter_length_all {A} (f : A -> bool) l :
  length (List.filter f l) = length l -> Forall (fun x => f x = true) l.
Proof.
  intros H. pose proof (filter_sublist f l) as Hs. induction l as [| x l IH]; [constructor |].
  cbn in H. destruct (f x) eqn:E.
  - constructor; [done |]. apply IH; [cbn in H; lia | apply filter_sublist].
  - pose proof (sublist_length _ _ (filter_sublist f l)). cbn in H. lia.
Qed.

(** ** [sort_by]: a stable sort, [le] being "compares less or equal" *)

Fixpoint sort_insert {A} (le : A -> A -> bool) (x : A) (l : list A) : list A :=
  match l with
  | [] => [x]
  | y :: l' => if le x y then x :: l else y :: sort_insert le x l'
  end.

Definition sort_by {A} (le : A -> A -> bool) (l : list A) : list A := foldr (sort_insert le) [] l.

Lemma sort_insert_perm {A} (le : A -> A -> bool) x l : sort_insert le x l ≡ₚ x :: l.
Proof.
  induction l as [| y l IH]; cbn [sort_insert]; [done |]. destruct (le x y); [done |].
  rewrite IH. apply perm_swap.
Qed.

Lemma sort_by_perm {A} (le : A -> A -> bool) l : sort_by le l ≡ₚ l.
Proof. induction l as [| x l IH]; cbn; [done |]. by rewrite sort_insert_perm, IH. Qed.

Section Sorting.
Context {A : Type} (le : A -> A -> bool).
Context (le_total : forall x y, le x y = false -> le y x = true)
  (le_trans : forall x y z, le x y = true -> le y z = true -> le x z = true).

Lemma sort_insert_sorted x l :
  StronglySorted (fun a b => le a b = true) l ->
  StronglySorted (fun a b => le a b = true) (sort_insert le x l).
Proof.
  induction 1 as [| y l Hs IH Hall]; cbn [sort_insert]; [by repeat constructor |].
  destruct (le x y) eqn:E.
  - constructor; [by constructor |]. rewrite Forall_cons. split; [done |].
    eapply Forall_impl; [exact Hall |]. cbn. eauto.
  - constructor; [done |]. rewrite sort_insert_perm, Forall_cons. auto.
Qed.

Lemma sort_by_sorted l : StronglySorted (fun a b => le a b = true) (sort_by le l).
Proof. induction l as [| x l IH]; cbn; [constructor | by apply sort_insert_sorted]. Qed.

End Sorting.

(** Insertion keeps a list sorted for an order [R] that refines [le] against [x]. *)
Lemma sort_insert_refines {A} (le : A -> A -> bool) (R : A -> A -> Prop) x l :
  (forall a b c, R a b -> R b c -> R a c) ->
  (forall y, y ∈ l -> if le x y then R x y else R y x) ->
  StronglySorted R l -> StronglySorted R (sort_insert le x l).
Proof.
  intros Htr Hx. induction 1 as [| y l Hs IH Hall]; cbn [sort_insert]; [by repeat constructor |].
  pose proof (Hx y ltac:(by apply elem_of_cons; left)) as Hy. destruct (le x y).
  - constructor; [by constructor |]. rewrite Forall_cons. split; [done |].
    eapply Forall_impl; [exact Hall |]. cbn. eauto.
  - constructor; [apply IH; intros z Hz; apply Hx; by apply elem_of_cons; right |].
    rewrite sort_insert_perm, Forall_cons. done.
Qed.

(** The first match in a sorted list is a least one. *)
Lemma find_sorted {A} (le : A -> A -> bool) (f : A -> bool) l x :
  (forall y, le y y = true) -> StronglySorted (fun a b => le a b = true) l ->
  List.find f l = Some x -> forall y, y ∈ l -> f y = true -> le x y = true.
Proof.
  intros Hrefl. induction 1 as [| z l Hs IH Hall]; cbn [List.find]; [done |].
  rewrite Forall_forall in Hall. destruct (f z) eqn:Ez.
  - intros [= ->] y [-> | Hy]%elem_of_cons _; [done | by apply Hall].
  - intros Hf y [-> | Hy]%elem_of_cons Hfy; [congruence | by apply IH].
Qed.

(** ** Sums over lists *)

Definition msum {A} (f : A -> Z) (l : list A) : Z := foldr (fun x a => f x + a) 0 l.

Lemma msum_nil {A} (f : A -> Z) : msum f [] = 0.
Proof. done. Qed.

Lemma msum_cons {A} (f : A -> Z) x l : msum f (x :: l) = f x + msum f l.
Proof. done. Qed.

Lemma msum_app {A} (f : A -> Z) l k : msum f (l ++ k) = msum f l + msum f k.
Proof. induction l as [| x l IH]; cbn [msum foldr app]; [done | unfold msum in *; lia]. Qed.

#[export] Instance msum_perm {A} (f : A -> Z) : Proper ((≡ₚ) ==> (=)) (msum f).
Proof. induction 1; rewrite ?msum_cons; lia. Qed.

Lemma msum_nonneg {A} (f : A -> Z) l : Forall (fun x => 0 <= f x) l -> 0 <= msum f l.
Proof. induction 1; rewrite ?msum_nil, ?msum_cons; lia. Qed.

Lemma msum_elem {A} (f : A -> Z) l x :
  Forall (fun y => 0 <= f y) l -> x ∈ l -> f x <= msum f l.
Proof.
  intros Hf [i Hi]%list_elem_of_lookup. rewrite (delete_perm _ _ _ Hi), msum_cons.
  pose proof (msum_nonneg f (delete i l)) as Hn. rewrite (delete_perm _ _ _ Hi) in Hf.
  rewrite Forall_cons in Hf. destruct Hf as [_ Hf]. specialize (Hn Hf). lia.
Qed.

Lemma wrap_add_l w x y : wrap w x +[w] y = wrap w (x + y).
Proof. apply Zplus_mod_idemp_l. Qed.

Lemma wrap_sub_l w x y : wrap w x -[w] y = wrap w (x - y).
Proof. apply Zminus_mod_idemp_l. Qed.

(** ** [BTreeMap<u64, A>]: iteration is in key order *)

Definition key_le {A} (p q : Z * A) : Prop := p.1 <= q.1.

#[export] Instance key_le_dec {A} : RelDecision (@key_le A).
Proof. intros p q. unfold key_le. apply _. Defined.

Definition btree_iter {A} (m : gmap Z A) : list (Z * A) := merge_sort key_le (map_to_list m).

Lemma btree_iter_elem {A} (m : gmap Z A) k x : (k, x) ∈ btree_iter m <-> m !! k = Some x.
Proof. unfold btree_iter. rewrite merge_sort_Permutation. apply elem_of_map_to_list. Qed.

#[export] Instance key_le_trans {A} : Transitive (@key_le A).
Proof. intros p q r. unfold key_le. lia. Qed.

#[export] Instance key_le_total {A} : Total (@key_le A).
Proof. intros p q. unfold key_le. lia. Qed.

Lemma btree_iter_sorted {A} (m : gmap Z A) : StronglySorted key_le (btree_iter m).
Proof. apply (StronglySorted_merge_sort key_le). Qed.

(** [iter().find(f)] *)
Lemma find_Some_elem {A} (f : A -> bool) l x : List.find f l = Some x -> x ∈ l /\ f x = true.
Proof. intros H. apply List.find_some in H. by rewrite list_elem_of_In. Qed.

Lemma find_None_elem {A} (f : A -> bool) l x : List.find f l = None -> x ∈ l -> f x = false.
Proof. intros H Hx%list_elem_of_In. by apply (List.find_none f l H). Qed.

(** Removing a list of keys one after the other. *)
Definition remove_all `{Countable K} {A} (ks : list K) (m : gmap K A) : gmap K A :=
  fold_left (fun m k => delete k m) ks m.

Lemma remove_all_lookup `{Countable K} {A} ks (m : gmap K A) k :
  remove_all ks m !! k = if decide (k ∈ ks) then None else m !! k.
Proof.
  revert m. induction ks as [| j ks IH]; intros m; cbn [remove_all fold_left].
  - by rewrite decide_False by (by apply not_elem_of_nil).
  - fold (remove_all ks (delete j m)). rewrite IH.
    destruct (decide (k ∈ ks)); [by rewrite decide_True by (by apply elem_of_cons; right) |].
    destruct (decide (k = j)) as [-> | Hne].
    + by rewrite lookup_delete_eq, decide_True by (by apply elem_of_cons; left).
    + rewrite lookup_delete_ne by done. rewrite decide_False; [done |].
      by intros [? | ?]%elem_of_cons.
Qed.

(** ** Automation *)

Create HintDb nt.
#[export] Hint Resolve wrap_ty u_ty_land u_ty_lor u_ty_lxor u_ty_wnot to_le_bytes : nt.
#[export] Hint Extern 1 (u_ty _ _) => (unfold u_ty; lia) : nt.
#[export] Hint Extern 1 (_ <= _) => lia : nt.
#[export] Hint Extern 1 (_ < _) => lia : nt.
#[export] Hint Rewrite @outcome_bind_ret @msum_nil @msum_cons @msum_app
  @length_app @length_to_le : nt.
