(* ===== verification/Bytes.v ===== *)
(** * Exclusive or, byte strings and blocks

    What the ciphers and digests share: exclusive or of words and of byte strings, functions
    that are additive for it, [chunks] of the Rust library, and statements about all bytes
    that are decided by evaluation. *)

From Stdlib Require Import ZArith Lia Ring.
From S2P Require Import Prelude.

(** ** Words under exclusive or *)

(** Equations between exclusive ors hold bit by bit, in the field of two elements. *)
Ltac xor_ring :=
  apply Z.bits_inj'; let i := fresh "i" in intros i _; rewrite !Z.lxor_spec, ?Z.bits_0; ring.

Lemma lxor_cancel_r x y : Z.lxor (Z.lxor x y) y = x.
Proof. by rewrite Z.lxor_assoc, Z.lxor_nilpotent, Z.lxor_0_r. Qed.

Lemma wrap_lxor w x y : 0 <= w -> wrap w (Z.lxor x y) = Z.lxor (wrap w x) (wrap w y).
Proof.
  intros Hw. rewrite !wrap_land by done. apply Z.bits_inj'. intros i Hi.
  rewrite !Z.land_spec, !Z.lxor_spec, !Z.land_spec. ring.
Qed.

(** Additive functions on words, determined by their values on the powers of two. *)
Definition additive (f : Z -> Z) : Prop := forall x y, f (Z.lxor x y) = Z.lxor (f x) (f y).

Lemma additive_0 f : additive f -> f 0 = 0.
Proof. intros H. rewrite <- (Z.lxor_nilpotent 0) at 1. by rewrite H, Z.lxor_nilpotent. Qed.

Lemma additive_id : additive (fun x => x).
Proof. done. Qed.

Lemma additive_const0 : additive (fun _ => 0).
Proof. done. Qed.

Lemma additive_lxor f g : additive f -> additive g -> additive (fun x => Z.lxor (f x) (g x)).
Proof. intros Hf Hg x y. rewrite Hf, Hg. xor_ring. Qed.

Lemma additive_comp f g : additive f -> additive g -> additive (fun x => f (g x)).
Proof. intros Hf Hg x y. by rewrite Hg, Hf. Qed.

Lemma additive_shiftl n : 0 <= n -> additive (fun x => Z.shiftl x n).
Proof. intros _ x y. apply Z.shiftl_lxor. Qed.

Lemma additive_wrap w : 0 <= w -> additive (wrap w).
Proof. intros Hw x y. by apply wrap_lxor. Qed.

Lemma testbit_pow2_land x k : 0 <= k -> negb (Z.land x (2 ^ k) =? 0) = Z.testbit x k.
Proof. intros Hk. by apply has_bits_pow2. Qed.

(** A conditional constant is additive in the bit it depends on. *)
Lemma additive_bit k c : 0 <= k -> additive (fun x => if Z.testbit x k then c else 0).
Proof.
  intros Hk x y. rewrite Z.lxor_spec.
  destruct (Z.testbit x k), (Z.testbit y k); simpl;
    rewrite ?Z.lxor_nilpotent, ?Z.lxor_0_r, ?Z.lxor_0_l; done.
Qed.

(** The top bit of a word and the rest. *)
Lemma word_split n x :
  u_ty (Z.of_nat (S n)) x ->
  x = Z.lxor (x mod 2 ^ Z.of_nat n) (if Z.testbit x (Z.of_nat n) then 2 ^ Z.of_nat n else 0).
Proof.
  intros Hx. apply Z.bits_inj'. intros i Hi. rewrite Z.lxor_spec.
  destruct (Z.lt_trichotomy i (Z.of_nat n)) as [Hlt | [-> | Hgt]].
  - rewrite Z.mod_pow2_bits_low by lia.
    destruct (Z.testbit x (Z.of_nat n)); rewrite ?Z.pow2_bits_false, ?Z.bits_0 by lia;
      by rewrite xorb_false_r.
  - rewrite Z.mod_pow2_bits_high by lia.
    destruct (Z.testbit x (Z.of_nat n)) eqn:E; by rewrite ?Z.pow2_bits_true, ?Z.bits_0 by lia.
  - rewrite Z.mod_pow2_bits_high by lia. rewrite (u_ty_testbit _ _ i Hx) by lia.
    destruct (Z.testbit x (Z.of_nat n)); by rewrite ?Z.pow2_bits_false, ?Z.bits_0 by lia.
Qed.

Lemma additive_ext n f g x :
  additive f -> additive g ->
  (forall i, (i < n)%nat -> f (2 ^ Z.of_nat i) = g (2 ^ Z.of_nat i)) ->
  u_ty (Z.of_nat n) x -> f x = g x.
Proof.
  intros Hf Hg. revert x. induction n as [| n IH]; intros x Hb Hx.
  - unfold u_ty in Hx. assert (x = 0) as -> by lia. by rewrite !additive_0.
  - rewrite (word_split n x Hx), Hf, Hg, (IH (x mod 2 ^ Z.of_nat n)).
    + f_equal. destruct (Z.testbit _ _); [apply Hb; lia |]. by rewrite !additive_0.
    + intros i Hi. apply Hb. lia.
    + apply Z.mod_pos_bound. lia.
Qed.

(** ** Statements about all bytes *)

Definition bytes : list Z := Z.of_nat <$> seq 0 256.

Lemma elem_of_bytes b : byte_ty b -> b ∈ bytes.
Proof.
  intros [H0 H]. apply list_elem_of_fmap. exists (Z.to_nat b).
  split; [lia | apply elem_of_seq; change (2 ^ 8) with 256 in H; lia].
Qed.

Lemma byte_forall (P : Z -> bool) : forallb P bytes = true -> forall b, byte_ty b -> P b = true.
Proof.
  intros H b Hb. rewrite forallb_forall in H. apply H, list_elem_of_In. by apply elem_of_bytes.
Qed.

(** ** Exclusive or of byte strings: [for i in .. { a[i] ^= b[i]; }] *)

Definition xor_bytes (a b : list Z) : list Z := zip_with Z.lxor a b.

Lemma length_xor_bytes a b : (length a <= length b)%nat -> length (xor_bytes a b) = length a.
Proof. intros H. unfold xor_bytes. rewrite length_zip_with. lia. Qed.

Lemma xor_bytes_ty a b : Forall byte_ty a -> Forall byte_ty b -> Forall byte_ty (xor_bytes a b).
Proof.
  intros Ha Hb. apply Forall_lookup. intros i x Hx.
  apply lookup_zip_with_Some in Hx as (u & v & -> & Hu & Hv).
  apply u_ty_lxor; [lia | by apply (Forall_lookup_1 _ _ _ _ Ha Hu) |
    by apply (Forall_lookup_1 _ _ _ _ Hb Hv)].
Qed.

Lemma xor_bytes_cancel a b : (length a <= length b)%nat -> xor_bytes (xor_bytes a b) b = a.
Proof.
  revert b. induction a as [| x a IH]; intros [| y b] H; simpl in *; try done; [lia |].
  f_equal; [apply lxor_cancel_r | apply IH; lia].
Qed.

Lemma xor_bytes_comm a b : xor_bytes a b = xor_bytes b a.
Proof. revert b. induction a as [| x a IH]; intros [| y b]; simpl; try done. by rewrite IH, Z.lxor_comm. Qed.

Lemma xor_bytes_app a a' b b' :
  length a = length b -> xor_bytes (a ++ a') (b ++ b') = xor_bytes a b ++ xor_bytes a' b'.
Proof. intros H. unfold xor_bytes. by rewrite zip_with_app. Qed.

(** Fixed-size arrays of bytes. *)
Definition block_ty (n : nat) (b : list Z) : Prop := length b = n /\ Forall byte_ty b.

#[export] Instance block_ty_dec n b : Decision (block_ty n b).
Proof. unfold block_ty, byte_ty. apply _. Defined.

Lemma xor_block_ty n a b : block_ty n a -> block_ty n b -> block_ty n (xor_bytes a b).
Proof.
  intros [La Ha] [Lb Hb]. split; [rewrite length_xor_bytes; lia | by apply xor_bytes_ty].
Qed.

Lemma xor_block_cancel n a b : block_ty n a -> block_ty n b -> xor_bytes (xor_bytes a b) b = a.
Proof. intros [La _] [Lb _]. apply xor_bytes_cancel. lia. Qed.

(** Indexing an array of fixed size at an index its type keeps in range. *)
Definition idx (l : list Z) (i : nat) : Z := nth i l 0.

Lemma idx_ty l i : Forall byte_ty l -> byte_ty (idx l i).
Proof.
  intros H. unfold idx. destruct (nth_in_or_default i l 0) as [Hin | ->]; [| done].
  rewrite Forall_forall in H. by apply H, list_elem_of_In.
Qed.

(** ** Concatenation of big-endian and little-endian strings *)

Lemma from_le_app a b : from_le (a ++ b) = from_le a + 2 ^ (8 * Z.of_nat (length a)) * from_le b.
Proof.
  induction a as [| x a IH]; cbn [app from_le length]; [rewrite Z.mul_0_r; lia |].
  rewrite IH. replace (8 * Z.of_nat (S (length a))) with (8 + 8 * Z.of_nat (length a)) by lia.
  rewrite Z.pow_add_r by lia. change (2 ^ 8) with 256. lia.
Qed.

Lemma from_be_app a b : from_be (a ++ b) = from_be a * 2 ^ (8 * Z.of_nat (length b)) + from_be b.
Proof. unfold from_be. rewrite rev_app_distr, from_le_app, length_rev. lia. Qed.

Lemma to_le_app m n a b : u_ty (8 * Z.of_nat m) b ->
  to_le (m + n) (a * 2 ^ (8 * Z.of_nat m) + b) = to_le m b ++ to_le n a.
Proof.
  revert b. induction m as [| m IH]; intros b Hb.
  - unfold u_ty in Hb. simpl in *. f_equal. lia.
  - cbn [Nat.add to_le app]. unfold u_ty in Hb.
    replace (8 * Z.of_nat (S m)) with (8 * Z.of_nat m + 8) in * by lia.
    rewrite Z.pow_add_r in * by lia. change (2 ^ 8) with 256 in *.
    assert (E : a * (2 ^ (8 * Z.of_nat m) * 256) + b = b + (a * 2 ^ (8 * Z.of_nat m)) * 256) by lia.
    rewrite E, Z.mod_add, Z.div_add by lia. f_equal.
    rewrite Z.add_comm. apply IH. split; [apply Z.div_pos; lia | apply Z.div_lt_upper_bound; lia].
Qed.

Lemma to_be_app n m a b : u_ty (8 * Z.of_nat m) b ->
  to_be (n + m) (a * 2 ^ (8 * Z.of_nat m) + b) = to_be n a ++ to_be m b.
Proof. intros H. unfold to_be. by rewrite Nat.add_comm, to_le_app, rev_app_distr. Qed.

Lemma to_from_be l : Forall byte_ty l -> to_be (length l) (from_be l) = l.
Proof.
  intros H. unfold to_be, from_be. rewrite <- (length_rev l), to_from_le by (by apply Forall_rev).
  apply rev_involutive.
Qed.

Lemma to_be_block n x : block_ty n (to_be n x).
Proof. split; [unfold to_be; by rewrite length_rev, length_to_le | apply to_be_bytes]. Qed.

(** ** [slice.chunks(n)] *)

Fixpoint chunks_fuel (fuel : nat) (n : nat) (l : list Z) : list (list Z) :=
  match fuel with
  | O => []
  | S fuel => match l with [] => [] | _ => take n l :: chunks_fuel fuel n (drop n l) end
  end.

Definition chunks (n : nat) (l : list Z) : list (list Z) := chunks_fuel (length l) n l.

Lemma chunks_fuel_agree f f' n l :
  (0 < n)%nat -> (length l <= f)%nat -> (length l <= f')%nat ->
  chunks_fuel f n l = chunks_fuel f' n l.
Proof.
  intros Hn. revert f' l. induction f as [| f IH]; intros [| f'] [| x l] H H'; try done;
    cbn [length] in *; [lia .. |].
  cbn [chunks_fuel]. f_equal. apply IH; rewrite length_drop; cbn [length]; lia.
Qed.

Lemma chunks_fuel_enough f n l :
  (0 < n)%nat -> (length l <= f)%nat -> chunks_fuel f n l = chunks n l.
Proof. intros. by apply chunks_fuel_agree. Qed.

Lemma chunks_nil n : chunks n [] = [].
Proof. done. Qed.

Lemma chunks_cons n l :
  (0 < n)%nat -> l <> [] -> chunks n l = take n l :: chunks n (drop n l).
Proof.
  intros Hn Hl. destruct l as [| x l]; [done |]. unfold chunks at 1. cbn [length chunks_fuel].
  f_equal. apply chunks_fuel_enough; [done |]. rewrite length_drop. simpl. lia.
Qed.

Lemma chunks_app n a l :
  (0 < n)%nat -> length a = n -> chunks n (a ++ l) = a :: chunks n l.
Proof.
  intros Hn Ha. rewrite chunks_cons by (done || (destruct a; simpl in *; [lia | done])).
  by rewrite take_app_length', drop_app_length' by lia.
Qed.

Lemma chunks_short n l : l <> [] -> (length l <= n)%nat -> chunks n l = [l].
Proof.
  intros Hl Hn. assert (0 < length l)%nat by (destruct l; simpl; [done | lia]).
  rewrite chunks_cons by (done || lia).
  by rewrite take_ge, drop_ge, chunks_nil by lia.
Qed.

Lemma concat_chunks n l : (0 < n)%nat -> concat (chunks n l) = l.
Proof.
  intros Hn. unfold chunks. assert (H : (length l <= length l)%nat) by lia.
  revert H. generalize (length l) at 2 3. intros f. revert l.
  induction f as [| f IH]; intros l Hl; [destruct l; [done | simpl in Hl; lia] |].
  destruct l as [| x l]; [done |]. cbn [chunks_fuel concat].
  rewrite IH by (rewrite length_drop; cbn [length] in *; lia). apply take_drop.
Qed.

(** Induction along the chunks: a shorter tail, or a full chunk and the rest. *)
Lemma chunks_ind n (P : list Z -> Prop) :
  (0 < n)%nat -> P [] -> (forall l, l <> [] -> (length l < n)%nat -> P l) ->
  (forall a l, length a = n -> P l -> P (a ++ l)) -> forall l, P l.
Proof.
  intros Hn H0 Hshort Hstep l. remember (length l) as m eqn:E. revert l E.
  induction (lt_wf m) as [m _ IH]. intros l ->.
  destruct (decide (length l < n)%nat) as [Hlt | Hge].
  - destruct l as [| x l]; [done |]. by apply Hshort.
  - rewrite <- (take_drop n l). apply Hstep; [rewrite length_take; lia |].
    apply (IH (length (drop n l))); [rewrite length_drop; lia | done].
Qed.

(** The same for strings that are a whole number of chunks. *)
Lemma aligned_ind n (P : list Z -> Prop) :
  (0 < n)%nat -> P [] ->
  (forall a l, length a = n -> (n | length l)%nat -> P l -> P (a ++ l)) ->
  forall l, (n | length l)%nat -> P l.
Proof.
  intros Hn H0 Hstep. apply (chunks_ind n (fun l => (n | length l)%nat -> P l)); [done ..| |].
  - intros l Hne Hlt [k Hk]. destruct l; [done |]. simpl in *. destruct k; simpl in *; lia.
  - intros a l Ha IH [k Hk]. rewrite length_app in Hk.
    assert ((n | length l)%nat) by (exists (k - 1)%nat; rewrite Nat.mul_sub_distr_r; lia).
    apply Hstep; [done | done | by apply IH].
Qed.

Lemma chunks_app_aligned n a b :
  (0 < n)%nat -> (n | length a)%nat -> chunks n (a ++ b) = chunks n a ++ chunks n b.
Proof.
  intros Hn Ha. revert a Ha. apply (aligned_ind n); [done | done |].
  intros c a Hc _ IH. rewrite <- app_assoc, !(chunks_app n c) by done. by rewrite IH.
Qed.

(** Every string is a whole number of chunks and a rest. *)
Lemma aligned_split n (l : list Z) : (0 < n)%nat ->
  exists a b : list Z, l = a ++ b /\ (n | length a)%nat /\ (length b < n)%nat.
Proof.
  intros Hn. revert l. apply (chunks_ind n); [done | | |].
  - exists [], []. split; [done |]. split; [by exists 0%nat | done].
  - intros l _ Hl. exists [], l. split; [done |]. split; [by exists 0%nat | done].
  - intros a l Ha (b & c & -> & [k Hk] & Hc). exists (a ++ b), c. split; [by rewrite app_assoc |].
    split; [exists (S k); rewrite length_app; lia | done].
Qed.

#[export] Hint Resolve xor_bytes_ty xor_block_ty idx_ty : nt.
