(* ===== verification/Sid.v ===== *)
(** * Security identifiers ([src/nt61/src/se/sid.rs])

    The [sid] structure with its constructors, the well-known SIDs, comparison,
    the parser of the on-the-wire form and the fixed-buffer printer. *)

From S2P Require Import Prelude.

Module Sid.

Definition SID_REVISION : Z := 1.
Definition SID_MAX_SUB_AUTHORITIES : nat := 8.
Definition SID_STRING_MAX : nat := 30.

(** [struct sid]: two bytes, [[u8; 6]] and [[u32; 8]]. *)
Record sid := mk_sid {
  revision : Z;
  sub_authority_count : Z;
  authority : list Z;
  sub_authority : list Z;
}.

(** What the Rust type of the structure guarantees. *)
Definition sid_ty (s : sid) : Prop :=
  byte_ty (revision s) /\ byte_ty (sub_authority_count s) /\
  length (authority s) = 6%nat /\ Forall byte_ty (authority s) /\
  length (sub_authority s) = SID_MAX_SUB_AUTHORITIES /\ Forall (u_ty 32) (sub_authority s).

Definition new : sid := mk_sid SID_REVISION 0 (replicate 6 0) (replicate 8 0).

Definition with_subs (auth : list Z) (s0 s1 s2 s3 s4 s5 s6 s7 : Z) : sid :=
  mk_sid SID_REVISION 1 auth [s0; s1; s2; s3; s4; s5; s6; s7].

Definition with_2subs (auth : list Z) (s0 s1 : Z) : sid :=
  mk_sid SID_REVISION 2 auth [s0; s1; 0; 0; 0; 0; 0; 0].

Definition with_authority_and_subs_arr (auth : list Z) (count : Z)
    (s0 s1 s2 s3 s4 s5 s6 s7 : Z) : sid :=
  mk_sid SID_REVISION
    (if bool_decide (SID_MAX_SUB_AUTHORITIES < Z.to_nat count)%nat
     then Z.of_nat SID_MAX_SUB_AUTHORITIES else count)
    auth [s0; s1; s2; s3; s4; s5; s6; s7].

Inductive WellKnownSid :=
| Null | World | Local | CreatorOwner | CreatorGroup | Dialup | Network | Batch
| Interactive | Service | AnonymousLogon | AuthenticatedUser | LocalSystem
| LocalService | NetworkService | Administrators | Users | Guests | PowerUsers
| AccountOperators | ServerOperators | PrintOperators | BackupOperators
| Replicator | NtVersion | RestrictedCode.

#[export] Instance WellKnownSid_eq_dec : EqDecision WellKnownSid.
Proof. solve_decision. Defined.

(** One literal structure per name, as in the source. *)
Definition well_known (name : WellKnownSid) : sid :=
  let one a s := mk_sid SID_REVISION 1 [0; 0; 0; 0; 0; a] [s; 0; 0; 0; 0; 0; 0; 0] in
  let two s t := mk_sid SID_REVISION 2 [0; 0; 0; 0; 0; 5] [s; t; 0; 0; 0; 0; 0; 0] in
  match name with
  | Null => one 0 0
  | World => one 1 0
  | Local => one 2 0
  | CreatorOwner => one 3 0
  | CreatorGroup => one 3 1
  | Dialup => one 5 1
  | Network => one 5 2
  | Batch => one 5 3
  | Interactive => one 5 4
  | Service => one 5 6
  | AnonymousLogon => one 5 7
  | AuthenticatedUser => one 5 11
  | LocalSystem => one 5 18
  | LocalService => one 5 19
  | NetworkService => one 5 20
  | Administrators => two 32 544
  | Users => two 32 545
  | Guests => two 32 546
  | PowerUsers => two 32 547
  | AccountOperators => two 32 548
  | ServerOperators => two 32 549
  | PrintOperators => two 32 550
  | BackupOperators => two 32 551
  | Replicator => two 32 552
  | NtVersion => two 32 554
  | RestrictedCode => one 5 12
  end.

Definition subauthority_count (s : sid) : nat :=
  Nat.min (Z.to_nat (sub_authority_count s)) SID_MAX_SUB_AUTHORITIES.

Definition subauthority (s : sid) (i : nat) : Z :=
  if bool_decide (i < SID_MAX_SUB_AUTHORITIES)%nat then nth i (sub_authority s) 0 else 0.

(** The big-endian [u48] value of the authority bytes. *)
Definition identifier_authority (s : sid) : Z :=
  let b i := nth i (authority s) 0 in
  Z.lor (Z.lor (Z.lor (Z.lor (Z.lor (Z.shiftl (b 0%nat) 40) (Z.shiftl (b 1%nat) 32))
    (Z.shiftl (b 2%nat) 24)) (Z.shiftl (b 3%nat) 16)) (Z.shiftl (b 4%nat) 8)) (b 5%nat).

(** Field-by-field comparison with its early returns. *)
Definition equals (s other : sid) : bool :=
  if negb (revision s =? revision other) then false
  else if negb (sub_authority_count s =? sub_authority_count other) then false
  else if negb (identifier_authority s =? identifier_authority other) then false
  else forallb (fun i => nth i (sub_authority s) 0 =? nth i (sub_authority other) 0)
         (seq 0 (subauthority_count s)).

Definition size (s : sid) : nat := 8 + subauthority_count s * 4.

Definition is_valid (s : sid) : bool :=
  (revision s =? SID_REVISION) &&
  bool_decide (Z.to_nat (sub_authority_count s) <= SID_MAX_SUB_AUTHORITIES)%nat.

(** The loop of [from_bytes] that fills [sub_authority[index..index + n]]. *)
Fixpoint read_subs (bytes : list Z) (index n : nat) : outcome (list Z) :=
  match n with
  | O => Ret []
  | S n =>
      let offset := (8 + index * 4)%nat in
      b0 ← rd bytes offset;
      b1 ← rd bytes (offset + 1)%nat;
      b2 ← rd bytes (offset + 2)%nat;
      b3 ← rd bytes (offset + 3)%nat;
      rest ← read_subs bytes (S index) n;
      Ret (from_le [b0; b1; b2; b3] :: rest)
  end.

Definition from_bytes (bytes : list Z) : outcome (option sid) :=
  if decide (length bytes < 8)%nat then Ret None else
  b0 ← rd bytes 0;
  if negb (b0 =? SID_REVISION) then Ret None else
  b1 ← rd bytes 1;
  let count := Z.to_nat b1 in
  if decide (SID_MAX_SUB_AUTHORITIES < count)%nat then Ret None else
  let required := (8 + count * 4)%nat in
  if decide (length bytes < required)%nat then Ret None else
  auth ← slice bytes 2 8;
  subs ← read_subs bytes 0 count;
  Ret (Some (mk_sid SID_REVISION (Z.of_nat count) auth
               (subs ++ replicate (SID_MAX_SUB_AUTHORITIES - count) 0))).

(** ** Printing *)

(** The digit loop of [write_u64]: least significant digit first, at most
    twenty digits. *)
Fixpoint digit_loop (fuel : nat) (val : Z) : list Z :=
  match fuel with
  | O => []
  | S fuel => if 0 <? val then (48 + val mod 10) :: digit_loop fuel (val / 10) else []
  end.

(** [write_u64(buf, val)]: the updated slice and the number of units written. *)
Definition write_u64 (buf : list Z) (val : Z) : list Z * nat :=
  if val =? 0 then
    (match buf with [] => [] | _ :: buf => 48 :: buf end, 1%nat)
  else
    let digits := digit_loop 20 val in
    let written := Nat.min (length digits) (length buf) in
    (take written (rev digits) ++ drop written buf, written).

(** [if pos < SID_STRING_MAX { buf[pos] = c; pos += 1; }] *)
Definition put_char (c : Z) (st : list Z * nat) : list Z * nat :=
  let '(buf, pos) := st in
  if decide (pos < SID_STRING_MAX)%nat then (<[pos := c]> buf, S pos) else (buf, pos).

(** [if pos < SID_STRING_MAX { pos += write_u64(&mut buf[pos..], val); }] *)
Definition put_u64 (val : Z) (st : list Z * nat) : list Z * nat :=
  let '(buf, pos) := st in
  if decide (pos < SID_STRING_MAX)%nat then
    let '(tail, n) := write_u64 (drop pos buf) val in (take pos buf ++ tail, (pos + n)%nat)
  else (buf, pos).

Definition to_string (s : sid) : list Z :=
  let st := (replicate SID_STRING_MAX 0, 0%nat) in
  let st := put_char 83 st in
  let st := put_char 45 st in
  let st := put_u64 (revision s) st in
  let st := put_char 45 st in
  let st := put_u64 (identifier_authority s) st in
  fst (foldl (fun st i => put_u64 (nth i (sub_authority s) 0) (put_char 45 st)) st
         (seq 0 (subauthority_count s))).

(** ** Comparison *)

Lemma length_6 {A} (l : list A) : length l = 6%nat ->
  exists a b c d e f, l = [a; b; c; d; e; f].
Proof.
  intros H. do 6 (destruct l as [|? l]; [done |]). destruct l; [| done]. by do 6 eexists.
Qed.

(** The [u48] value is the big-endian number of the six bytes. *)
Lemma identifier_authority_value s :
  length (authority s) = 6%nat -> Forall byte_ty (authority s) ->
  identifier_authority s = foldl (fun acc b => acc * 256 + b) 0 (authority s).
Proof.
  intros Hl Hb. unfold identifier_authority.
  destruct (length_6 _ Hl) as (a & b & c & d & e & f & Heq). rewrite Heq in *. cbn [nth foldl].
  rewrite !Forall_cons in Hb. destruct Hb as (? & ? & ? & ? & ? & ? & _).
  rewrite (lor_byte_step a b 32 40), (lor_byte_step _ c 24 32), (lor_byte_step _ d 16 24),
    (lor_byte_step _ e 8 16), lor_shiftl_add by (done || lia).
  lia.
Qed.

Lemma be_value_inj l k acc acc' :
  length l = length k -> Forall byte_ty l -> Forall byte_ty k ->
  foldl (fun a b => a * 256 + b) acc l = foldl (fun a b => a * 256 + b) acc' k ->
  acc = acc' /\ l = k.
Proof.
  revert k acc acc'. induction l as [|x l IH]; intros [|y k] acc acc' Hlen Hl Hk H;
    simplify_eq/=; [done |].
  apply Forall_cons in Hl as [Hx Hl]. apply Forall_cons in Hk as [Hy Hk].
  destruct (IH _ _ _ Hlen Hl Hk H) as [Heq ->].
  unfold byte_ty, u_ty in *. change (2 ^ 8) with 256 in *.
  assert (x = y) by lia. subst. split; [lia | done].
Qed.

Lemma subauthority_count_le s : (subauthority_count s <= 8)%nat.
Proof. unfold subauthority_count, SID_MAX_SUB_AUTHORITIES. lia. Qed.

(** The meaningful part of a SID: what [equals] compares. *)
Definition same_sid (s t : sid) : Prop :=
  revision s = revision t /\ sub_authority_count s = sub_authority_count t /\
  authority s = authority t /\
  take (subauthority_count s) (sub_authority s) = take (subauthority_count t) (sub_authority t).

#[export] Instance same_sid_equiv : Equivalence same_sid.
Proof.
  split; unfold same_sid; [done | by intros s t (-> & -> & -> & ->) |].
  intros s t u (-> & -> & -> & ->) (-> & -> & -> & ->). done.
Qed.

Lemma equals_spec s t : sid_ty s -> sid_ty t -> equals s t = true <-> same_sid s t.
Proof.
  intros (_ & _ & Hal & Hab & Hsl & _) (_ & _ & Hal' & Hab' & Hsl' & _).
  pose proof (subauthority_count_le s) as Hle. unfold SID_MAX_SUB_AUTHORITIES in *.
  unfold equals, same_sid. rewrite !identifier_authority_value by done.
  destruct (Z.eqb_spec (revision s) (revision t)); simpl; [| intuition congruence].
  destruct (Z.eqb_spec (sub_authority_count s) (sub_authority_count t)) as [Hc |]; simpl;
    [| intuition congruence].
  assert (subauthority_count s = subauthority_count t) as Hn
    by (unfold subauthority_count; by rewrite Hc).
  destruct (Z.eqb_spec (foldl (fun acc b => acc * 256 + b) 0 (authority s))
              (foldl (fun acc b => acc * 256 + b) 0 (authority t))) as [Hv | Hv]; simpl.
  - apply be_value_inj in Hv as [_ Hv]; [| congruence | done | done].
    rewrite forallb_seq_nth, Hn by lia. intuition congruence.
  - split; [done |]. intros (_ & _ & Ha & _). by rewrite Ha in Hv.
Qed.

(** ** The wire form *)

(** Revision, count, authority and the first [count] sub-authorities. *)
Definition sid_bytes (s : sid) : list Z :=
  revision s :: sub_authority_count s :: authority s ++
  concat (map (to_le 4) (take (subauthority_count s) (sub_authority s))).

(** The SID with its unused sub-authorities cleared. *)
Definition canonical (s : sid) : sid :=
  mk_sid (revision s) (sub_authority_count s) (authority s)
    (take (subauthority_count s) (sub_authority s) ++
     replicate (SID_MAX_SUB_AUTHORITIES - subauthority_count s) 0).

Lemma length_concat_le4 l : length (concat (map (to_le 4) l)) = (4 * length l)%nat.
Proof. induction l as [|x l IH]; cbn [map concat length]; [done |]. rewrite length_app, length_to_le. lia. Qed.

Lemma length_sid_bytes s : sid_ty s -> length (sid_bytes s) = size s.
Proof.
  intros (_ & _ & Hal & _ & Hsl & _). pose proof (subauthority_count_le s).
  unfold sid_bytes, size, SID_MAX_SUB_AUTHORITIES in *. cbn [length].
  rewrite length_app, length_concat_le4, length_take. lia.
Qed.

Lemma is_valid_count s :
  is_valid s = true -> subauthority_count s = Z.to_nat (sub_authority_count s).
Proof.
  unfold is_valid, subauthority_count. rewrite andb_true_iff, bool_decide_eq_true. lia.
Qed.

(** What the parsing loop returns: the sub-authorities it was asked for. *)
Lemma read_subs_spec pre subs rest index :
  length pre = (8 + 4 * index)%nat -> Forall (u_ty 32) subs ->
  read_subs (pre ++ concat (map (to_le 4) subs) ++ rest) index (length subs) = Ret subs.
Proof.
  revert pre index. induction subs as [|x subs IH]; intros pre index Hpre Hty; [done |].
  apply Forall_cons in Hty as [Hx Hty]. cbn [length map concat].
  destruct (to_le 4 x) as [|b0 [|b1 [|b2 [|b3 [|]]]]] eqn:E; try done.
  pose proof (from_to_le 4 x Hx) as Hval. rewrite E in Hval.
  cbn [read_subs]. rewrite <- app_assoc.
  set (tl := concat (map (to_le 4) subs) ++ rest).
  assert (forall k b, [b0; b1; b2; b3] !! k = Some b ->
    rd (pre ++ [b0; b1; b2; b3] ++ tl) (8 + index * 4 + k) = Ret b) as Hrd.
  { intros k b Hk. apply rd_lookup. rewrite lookup_app_r by lia.
    rewrite lookup_app_l by (apply lookup_lt_Some in Hk; lia).
    by replace (8 + index * 4 + k - length pre)%nat with k by lia. }
  pose proof (Hrd 0%nat b0 eq_refl) as H0. rewrite Nat.add_0_r in H0. rewrite H0.
  rewrite (Hrd 1%nat b1 eq_refl), (Hrd 2%nat b2 eq_refl), (Hrd 3%nat b3 eq_refl).
  rewrite !outcome_bind_ret. unfold tl. rewrite (app_assoc pre), IH; [| | done].
  - cbn [from_le] in *. rewrite outcome_bind_ret. by rewrite Hval.
  - rewrite length_app, Hpre. simpl. lia.
Qed.

Lemma from_bytes_sid_bytes s rest :
  sid_ty s -> is_valid s = true ->
  from_bytes (sid_bytes s ++ rest) = Ret (Some (canonical s)).
Proof.
  intros Hty Hv. pose proof (length_sid_bytes s Hty) as Hlen.
  pose proof (is_valid_count s Hv) as Hc. pose proof (subauthority_count_le s) as Hle.
  destruct Hty as (_ & Hcty & Hal & _ & Hsl & Hsb). unfold byte_ty, u_ty in Hcty.
  unfold is_valid in Hv. rewrite andb_true_iff, Z.eqb_eq, bool_decide_eq_true in Hv.
  destruct Hv as [Hrev Hcnt]. unfold size in Hlen.
  unfold from_bytes. rewrite length_app, Hlen, decide_False by lia.
  unfold sid_bytes, SID_MAX_SUB_AUTHORITIES in *. cbn [app].
  rewrite (rd_lookup _ 0 (revision s)) by done. rewrite outcome_bind_ret, Hrev.
  cbn [Z.eqb SID_REVISION negb Pos.eqb].
  rewrite (rd_lookup _ 1 (sub_authority_count s)) by done. rewrite outcome_bind_ret.
  rewrite decide_False, decide_False by lia. rewrite <- app_assoc.
  rewrite slice_in by (cbn [length]; rewrite !length_app; lia).
  rewrite outcome_bind_ret, !skipn_cons, drop_0, take_app_le, take_ge by lia.
  change (SID_REVISION :: sub_authority_count s :: authority s ++
    concat (map (to_le 4) (take (subauthority_count s) (sub_authority s))) ++ rest)
    with ((SID_REVISION :: sub_authority_count s :: authority s) ++
    concat (map (to_le 4) (take (subauthority_count s) (sub_authority s))) ++ rest).
  replace (Z.to_nat (sub_authority_count s))
    with (length (take (subauthority_count s) (sub_authority s))) at 1
    by (rewrite length_take; lia).
  rewrite read_subs_spec; [| cbn [length]; lia | by apply Forall_take].
  rewrite outcome_bind_ret. unfold canonical, SID_MAX_SUB_AUTHORITIES.
  by rewrite Hrev, Hc, Z2Nat.id by lia.
Qed.

Lemma canonical_ty s : sid_ty s -> sid_ty (canonical s).
Proof.
  intros (Hr & Hc & Hal & Hab & Hsl & Hsb). pose proof (subauthority_count_le s) as Hle.
  unfold canonical, sid_ty, SID_MAX_SUB_AUTHORITIES in *. cbn. split_and!; try done.
  - rewrite length_app, length_take, length_replicate. lia.
  - apply Forall_app. split; [by apply Forall_take |]. apply Forall_replicate. by unfold u_ty.
Qed.

Lemma canonical_same s : sid_ty s -> same_sid s (canonical s).
Proof.
  intros (_ & _ & _ & _ & Hsl & _). pose proof (subauthority_count_le s) as Hle.
  unfold SID_MAX_SUB_AUTHORITIES in Hsl. unfold same_sid. split_and!; try done.
  change (subauthority_count (canonical s)) with (subauthority_count s).
  cbn [canonical sub_authority]. rewrite take_app_le by (rewrite length_take; lia).
  by rewrite take_take, Nat.min_id.
Qed.

Lemma equals_canonical s u : sid_ty s -> sid_ty u -> equals (canonical s) u = equals s u.
Proof.
  intros Hs Hu. apply eq_true_iff_eq.
  rewrite !equals_spec by (try apply canonical_ty; done).
  pose proof (canonical_same s Hs) as Hc. split; intros H; [by rewrite Hc | by rewrite <- Hc].
Qed.

(** Four bytes at a time, a byte string is a sequence of sub-authorities. *)
Lemma chunk_le4 n l :
  length l = (4 * n)%nat -> Forall byte_ty l ->
  exists subs, length subs = n /\ Forall (u_ty 32) subs /\ l = concat (map (to_le 4) subs).
Proof.
  revert l. induction n as [|n IH]; intros l Hl Hb.
  - exists []. destruct l; [done | simpl in Hl; lia].
  - destruct l as [|b0 [|b1 [|b2 [|b3 l]]]]; try (simpl in Hl; lia).
    rewrite !Forall_cons in Hb. destruct Hb as (H0 & H1 & H2 & H3 & Hb).
    destruct (IH l) as (subs & Hlen & Hty & ->); [simpl in Hl; lia | done |].
    exists (from_le [b0; b1; b2; b3] :: subs).
    assert (Forall byte_ty [b0; b1; b2; b3]) as H4 by (by rewrite !Forall_cons).
    split_and!; [simpl; lia | constructor; [apply (from_le_ty [b0; b1; b2; b3] H4) | done] |].
    pose proof (to_from_le [b0; b1; b2; b3] H4) as E. cbn [length] in E.
    cbn [map concat]. by rewrite E.
Qed.

(** Every byte string that passes the parser's checks is the wire form of a valid
    SID followed by ignored bytes. *)
Lemma from_bytes_shape bytes :
  Forall byte_ty bytes ->
  from_bytes bytes = Ret None \/
  exists s rest, sid_ty s /\ is_valid s = true /\ bytes = sid_bytes s ++ rest.
Proof.
  intros Hb. unfold from_bytes. case_decide as Hlen; [by left |].
  destruct bytes as [|b0 [|b1 tl]]; try (simpl in Hlen; lia).
  cbn [rd lookup list_lookup]. rewrite !outcome_bind_ret.
  destruct (Z.eqb_spec b0 SID_REVISION) as [-> |]; [| by left]. cbn [negb].
  case_decide as Hc; [by left |]. case_decide as Hreq; [by left |]. right.
  rewrite !Forall_cons in Hb. destruct Hb as (Hb0 & Hb1 & Htl).
  unfold SID_MAX_SUB_AUTHORITIES in Hc. cbn [length] in Hlen, Hreq.
  set (cnt := Z.to_nat b1) in *.
  destruct (chunk_le4 cnt (take (4 * cnt) (drop 6 tl))) as (subs & Hsl & Hst & Heq).
  { rewrite length_take, length_drop. lia. }
  { by apply Forall_take, Forall_drop. }
  exists (mk_sid SID_REVISION b1 (take 6 tl) (subs ++ replicate (8 - cnt) 0)),
    (drop (4 * cnt) (drop 6 tl)).
  unfold byte_ty, u_ty in Hb1. split_and!.
  - unfold sid_ty, SID_MAX_SUB_AUTHORITIES. cbn. split_and!; try done.
    + rewrite length_take. lia.
    + by apply Forall_take.
    + rewrite length_app, length_replicate. lia.
    + apply Forall_app. split; [done |]. apply Forall_replicate. by unfold u_ty.
  - unfold is_valid, SID_MAX_SUB_AUTHORITIES. cbn. apply bool_decide_eq_true. lia.
  - unfold sid_bytes, subauthority_count, SID_MAX_SUB_AUTHORITIES.
    cbn [revision sub_authority_count authority sub_authority app].
    rewrite (Nat.min_l (Z.to_nat b1) 8) by lia.
    rewrite take_app_le, (take_ge subs), <- Heq by lia.
    by rewrite <- app_assoc, take_drop, take_drop.
Qed.

Lemma from_bytes_total bytes : Forall byte_ty bytes -> exists r, from_bytes bytes = Ret r.
Proof.
  intros Hb. destruct (from_bytes_shape bytes Hb) as [? | (s & rest & ? & ? & ->)]; [eauto |].
  eexists. by apply from_bytes_sid_bytes.
Qed.

(** ** The printed form *)

(** The decimal digits of a number, most significant first. *)
Definition dec (v : Z) : list Z := if v =? 0 then [48] else rev (digit_loop 20 v).

(** The full text of a SID, of whatever length. *)
Definition render (s : sid) : list Z :=
  [83; 45] ++ dec (revision s) ++ [45] ++ dec (identifier_authority s) ++
  concat (map (fun x => 45 :: dec x) (take (subauthority_count s) (sub_authority s))).

(** A buffer of [SID_STRING_MAX] units that holds a prefix of [out], zero padded. *)
Definition pad (out : list Z) : list Z := take SID_STRING_MAX (out ++ replicate SID_STRING_MAX 0).

Lemma digit_loop_value fuel v :
  0 <= v < 10 ^ Z.of_nat fuel ->
  foldr (fun d acc => (d - 48) + 10 * acc) 0 (digit_loop fuel v) = v.
Proof.
  revert v. induction fuel as [|fuel IH]; intros v Hv; [simpl in *; lia |].
  cbn [digit_loop]. destruct (Z.ltb_spec 0 v); [| simpl; lia].
  cbn [foldr]. rewrite IH; [rewrite (Z.div_mod v 10) at 3; lia |].
  rewrite Nat2Z.inj_succ, Z.pow_succ_r in Hv by lia.
  split; [apply Z.div_pos; lia | apply Z.div_lt_upper_bound; lia].
Qed.

(** [dec] is the decimal representation of any [u64]. *)
Lemma dec_value v : u_ty 64 v -> foldr (fun d acc => (d - 48) + 10 * acc) 0 (rev (dec v)) = v.
Proof.
  unfold u_ty, dec. intros Hv. destruct (Z.eqb_spec v 0) as [-> |]; [done |].
  rewrite rev_involutive. apply digit_loop_value.
  assert (2 ^ 64 < 10 ^ Z.of_nat 20) by done. lia.
Qed.

Lemma pad_short out : (length out <= 30)%nat -> pad out = out ++ replicate (30 - length out) 0.
Proof.
  intros. unfold pad, SID_STRING_MAX. rewrite take_app, take_ge by lia. f_equal.
  rewrite take_replicate. f_equal. lia.
Qed.

Lemma pad_long out more : (30 <= length out)%nat -> pad (out ++ more) = pad out.
Proof.
  intros. unfold pad, SID_STRING_MAX. rewrite <- app_assoc, !take_app_le by lia. done.
Qed.

Definition printed (out : list Z) (st : list Z * nat) : Prop :=
  st = (pad out, Nat.min 30 (length out)).

Lemma put_char_printed c out st : printed out st -> printed (out ++ [c]) (put_char c st).
Proof.
  unfold printed. intros ->. unfold put_char, SID_STRING_MAX. case_decide as H.
  - rewrite Nat.min_r by lia. rewrite !pad_short by (rewrite ?length_app; simpl; lia).
    rewrite <- (Nat.add_0_r (length out)) at 1. rewrite insert_app_r, length_app.
    destruct (30 - length out)%nat as [|k] eqn:E; [lia |]. cbn [replicate length].
    replace (30 - (length out + 1))%nat with k by lia. rewrite <- app_assoc.
    f_equal. lia.
  - rewrite pad_long, length_app by lia. f_equal. cbn [length]. lia.
Qed.

Lemma put_u64_printed v out st : printed out st -> printed (out ++ dec v) (put_u64 v st).
Proof.
  unfold printed. intros ->. unfold put_u64, SID_STRING_MAX. case_decide as H; cycle 1.
  { rewrite pad_long, length_app by lia. f_equal. lia. }
  rewrite Nat.min_r by lia. rewrite (pad_short out) by lia.
  rewrite drop_app_length, take_app_length. remember (30 - length out)%nat as room eqn:Hr.
  unfold write_u64, dec. destruct (v =? 0).
  - destruct room as [|k]; [lia |]. cbn [replicate].
    rewrite pad_short, length_app by (rewrite length_app; simpl; lia). cbn [length].
    rewrite <- app_assoc. replace (30 - (length out + 1))%nat with k by lia. f_equal. lia.
  - set (digits := digit_loop 20 v). rewrite length_replicate, drop_replicate.
    rewrite <- (length_rev digits). generalize (rev digits); intros ds; clear digits.
    rewrite length_app. destruct (decide (length ds <= room)%nat).
    + rewrite Nat.min_l by lia. rewrite take_ge by lia.
      rewrite pad_short, length_app, <- app_assoc by (rewrite length_app; lia).
      f_equal; [| lia]. do 3 f_equal. lia.
    + rewrite Nat.min_r by lia. unfold pad, SID_STRING_MAX.
      rewrite take_app_le, take_app, (take_ge out), Nat.sub_diag, app_nil_r
        by (rewrite ?length_app; lia).
      rewrite Hr. f_equal. lia.
Qed.

Lemma fold_printed s l st out :
  (forall i, i ∈ l -> (i < length (sub_authority s))%nat) -> printed out st ->
  printed (out ++ concat (map (fun i => 45 :: dec (nth i (sub_authority s) 0)) l))
    (foldl (fun st i => put_u64 (nth i (sub_authority s) 0) (put_char 45 st)) st l).
Proof.
  revert st out. induction l as [|i l IH]; intros st out Hl Hst; cbn.
  - by rewrite app_nil_r.
  - replace (out ++ 45 :: dec (nth i (sub_authority s) 0) ++ concat (map _ l))
      with ((((out ++ [45]) ++ dec (nth i (sub_authority s) 0))) ++
            concat (map (fun i => 45 :: dec (nth i (sub_authority s) 0)) l))
      by (by rewrite <- !app_assoc).
    apply IH; [set_solver |]. by apply put_u64_printed, put_char_printed.
Qed.

Lemma map_nth_seq (l : list Z) n :
  (n <= length l)%nat -> map (fun i => nth i l 0) (seq 0 n) = take n l.
Proof.
  intros Hn. apply list_eq. intros i. destruct (decide (i < n)%nat).
  - rewrite lookup_take_lt, (lookup_nth l i 0) by lia.
    rewrite list_lookup_fmap, lookup_seq_lt by lia. done.
  - rewrite lookup_take_ge, list_lookup_fmap, lookup_seq_ge by lia. done.
Qed.

Lemma to_string_render s :
  length (sub_authority s) = 8%nat -> to_string s = pad (render s).
Proof.
  intros Hsl. pose proof (subauthority_count_le s) as Hle.
  unfold to_string. set (st0 := (replicate SID_STRING_MAX 0, 0%nat)).
  assert (printed [] st0) as H0 by done.
  apply (put_char_printed 83) in H0. apply (put_char_printed 45) in H0.
  apply (put_u64_printed (revision s)) in H0. apply (put_char_printed 45) in H0.
  apply (put_u64_printed (identifier_authority s)) in H0.
  apply (fold_printed s (seq 0 (subauthority_count s))) in H0;
    [| intros i Hi%elem_of_seq; lia].
  unfold printed in H0. rewrite H0. cbn [fst]. f_equal. unfold render.
  rewrite <- !app_assoc. cbn [app]. do 5 f_equal.
  rewrite <- map_nth_seq, map_map by lia. done.
Qed.

(** ** Properties *)

(** The parser is total and safe: on any byte string it returns without
    panicking, and what it accepts is a well-typed valid SID whose wire form is a
    prefix of the input. *)
Theorem from_bytes_sound (bytes : list Z) (Hb : Forall byte_ty bytes) :
  from_bytes bytes = Ret None \/
  exists s rest, from_bytes bytes = Ret (Some s) /\ sid_ty s /\ is_valid s = true /\
    bytes = sid_bytes s ++ rest.
Proof.
  destruct (from_bytes_shape bytes Hb) as [? | (s & rest & Hty & Hv & ->)]; [by left | right].
  exists (canonical s), rest. split; [by apply from_bytes_sid_bytes |].
  split; [by apply canonical_ty |]. split; [done |]. f_equal.
  destruct (canonical_same s Hty) as (Hr & Hc & Ha & Hs). unfold sid_bytes.
  by rewrite Hr, Hc, Ha, Hs.
Qed.

Lemma from_bytes_sound_witness :
  Forall byte_ty [1; 1; 0; 0; 0; 0; 0; 5; 18; 0; 0; 0; 77] /\
  (from_bytes [1; 1; 0; 0; 0; 0; 0; 5; 18; 0; 0; 0; 77] = Ret None \/
   exists s rest, from_bytes [1; 1; 0; 0; 0; 0; 0; 5; 18; 0; 0; 0; 77] = Ret (Some s) /\
     sid_ty s /\ is_valid s = true /\
     [1; 1; 0; 0; 0; 0; 0; 5; 18; 0; 0; 0; 77] = sid_bytes s ++ rest).
Proof.
  assert (Forall byte_ty [1; 1; 0; 0; 0; 0; 0; 5; 18; 0; 0; 0; 77]) as H
    by (repeat constructor; done).
  split; [exact H | exact (from_bytes_sound _ H)].
Defined.

(** Parsing the wire form of a valid SID gives back a SID that [equals] it, and
    whatever follows the wire form is ignored. *)
Theorem from_bytes_roundtrip (s : sid) (rest : list Z)
    (Hty : sid_ty s) (Hv : is_valid s = true) :
  exists t, from_bytes (sid_bytes s ++ rest) = Ret (Some t) /\ equals s t = true.
Proof.
  exists (canonical s). split; [by apply from_bytes_sid_bytes |].
  apply equals_spec; [done | by apply canonical_ty | by apply canonical_same].
Qed.

Lemma from_bytes_roundtrip_witness :
  exists t, from_bytes (sid_bytes (well_known Administrators) ++ [9; 9]) = Ret (Some t) /\
    equals (well_known Administrators) t = true.
Proof.
  apply (from_bytes_roundtrip (well_known Administrators) [9; 9]); [| reflexivity].
  unfold sid_ty. split_and!; try done; repeat constructor; done.
Defined.

(** On values of the Rust type, [equals] decides equality of revision, count,
    authority bytes and the first [count] sub-authorities; unused sub-authority slots
    do not matter. *)
Theorem equals_correct (s t : sid) (Hs : sid_ty s) (Ht : sid_ty t) :
  equals s t = true <-> same_sid s t.
Proof. by apply equals_spec. Qed.

Lemma equals_correct_witness :
  sid_ty (well_known LocalSystem) /\
  (equals (well_known LocalSystem) (with_subs [0; 0; 0; 0; 0; 5] 18 7 7 7 7 7 7 7) = true <->
   same_sid (well_known LocalSystem) (with_subs [0; 0; 0; 0; 0; 5] 18 7 7 7 7 7 7 7)).
Proof.
  assert (sid_ty (well_known LocalSystem)) as H
    by (unfold sid_ty; split_and!; try done; repeat constructor; done).
  split; [exact H |]. apply equals_correct; [exact H |].
  unfold sid_ty. split_and!; try done; repeat constructor; done.
Defined.

(** The well-known SIDs are valid and pairwise distinct under [equals]. *)
Theorem well_known_distinct (a b : WellKnownSid) :
  is_valid (well_known a) = true /\ (equals (well_known a) (well_known b) = true <-> a = b).
Proof.
  split; [by destruct a |]. destruct a, b; vm_compute; split; intros H; congruence.
Qed.

(** The printer fills its thirty-unit buffer with the textual SID, truncated when
    it is longer and zero padded when it is shorter. *)
Theorem to_string_prefix (s : sid) (Hty : sid_ty s) :
  to_string s = take SID_STRING_MAX (render s ++ replicate SID_STRING_MAX 0).
Proof. destruct Hty as (_ & _ & _ & _ & Hsl & _). by apply to_string_render. Qed.

Lemma to_string_prefix_witness :
  to_string (well_known Users) =
  take SID_STRING_MAX (render (well_known Users) ++ replicate SID_STRING_MAX 0).
Proof.
  apply (to_string_prefix (well_known Users)).
  unfold sid_ty. split_and!; try done; repeat constructor; done.
Defined.

End Sid.
