(* ===== verification/Acl.v ===== *)
(** * Access control lists ([src/nt61/src/se/acl.rs])

    The byte-level ACL of the security subsystem: ACE types, the statically
    allocated buffer, its validator and the append operation. *)

From S2P Require Import Prelude Sid.
Import Sid(sid).

Module Acl.

Definition ACL_REVISION : Z := 2.
Definition ACL_REVISION_DS : Z := 4.
Definition MAX_ACES : nat := 16.
Definition ACE_HEADER_SIZE : nat := 4.

Inductive AceType :=
| AccessAllowed | AccessDenied | SystemAudit | SystemAlarm | AccessAllowedCompound
| AccessAllowedObject | AccessDeniedObject | SystemAuditObject | SystemAlarmObject
| AccessAllowedCallback | AccessDeniedCallback | AccessAllowedCallbackObject
| AccessDeniedCallbackObject | SystemAuditCallback | SystemAlarmCallback
| SystemAuditCallbackObject | SystemAlarmCallbackObject | SystemMandatoryLabel
| SystemResourceAttribute | SystemScopedPolicy | SystemProcessTrustLabel.

#[export] Instance AceType_eq_dec : EqDecision AceType.
Proof. solve_decision. Defined.

(** [ace_type as u8]. *)
Definition ace_type_u8 (t : AceType) : Z :=
  match t with
  | AccessAllowed => 0x00 | AccessDenied => 0x01 | SystemAudit => 0x02
  | SystemAlarm => 0x03 | AccessAllowedCompound => 0x04 | AccessAllowedObject => 0x05
  | AccessDeniedObject => 0x06 | SystemAuditObject => 0x07 | SystemAlarmObject => 0x08
  | AccessAllowedCallback => 0x09 | AccessDeniedCallback => 0x0A
  | AccessAllowedCallbackObject => 0x0B | AccessDeniedCallbackObject => 0x0C
  | SystemAuditCallback => 0x0D | SystemAlarmCallback => 0x0E
  | SystemAuditCallbackObject => 0x0F | SystemAlarmCallbackObject => 0x10
  | SystemMandatoryLabel => 0x11 | SystemResourceAttribute => 0x12
  | SystemScopedPolicy => 0x13 | SystemProcessTrustLabel => 0x14
  end.

Definition from_u8 (v : Z) : option AceType :=
  if v =? 0x00 then Some AccessAllowed
  else if v =? 0x01 then Some AccessDenied
  else if v =? 0x02 then Some SystemAudit
  else if v =? 0x03 then Some SystemAlarm
  else if v =? 0x04 then Some AccessAllowedCompound
  else if v =? 0x05 then Some AccessAllowedObject
  else if v =? 0x06 then Some AccessDeniedObject
  else if v =? 0x07 then Some SystemAuditObject
  else if v =? 0x08 then Some SystemAlarmObject
  else if v =? 0x09 then Some AccessAllowedCallback
  else if v =? 0x0A then Some AccessDeniedCallback
  else if v =? 0x0B then Some AccessAllowedCallbackObject
  else if v =? 0x0C then Some AccessDeniedCallbackObject
  else if v =? 0x0D then Some SystemAuditCallback
  else if v =? 0x0E then Some SystemAlarmCallback
  else if v =? 0x0F then Some SystemAuditCallbackObject
  else if v =? 0x10 then Some SystemAlarmCallbackObject
  else if v =? 0x11 then Some SystemMandatoryLabel
  else if v =? 0x12 then Some SystemResourceAttribute
  else if v =? 0x13 then Some SystemScopedPolicy
  else if v =? 0x14 then Some SystemProcessTrustLabel
  else None.

Definition is_allowed (t : AceType) : bool :=
  match t with
  | AccessAllowed | AccessAllowedCallback | AccessAllowedCallbackObject
  | AccessAllowedObject => true
  | _ => false
  end.

Definition is_denied (t : AceType) : bool :=
  match t with
  | AccessDenied | AccessDeniedCallback | AccessDeniedCallbackObject => true
  | _ => false
  end.

(** [AceHeader::mask]: the access mask of a raw ACE, zero when it is too short. *)
Definition header_mask (ace : list Z) : outcome Z :=
  let offset := ACE_HEADER_SIZE in
  if decide (length ace < offset + 4)%nat then Ret 0 else
  b0 ← rd ace offset;
  b1 ← rd ace (offset + 1)%nat;
  b2 ← rd ace (offset + 2)%nat;
  b3 ← rd ace (offset + 3)%nat;
  Ret (from_le [b0; b1; b2; b3]).

(** ACE inheritance flags ([AceFlags]). *)
Definition FLAGS_NONE : Z := 0.
Definition OBJECT_INHERIT : Z := 0x01.
Definition CONTAINER_INHERIT : Z := 0x02.
Definition NO_PROPAGATE_INHERIT : Z := 0x04.
Definition INHERIT_ONLY : Z := 0x08.

(** [struct Acl]: a header and [MAX_ACES * 32] bytes of inline storage. *)
Record Acl := mk_acl {
  revision : Z;
  sbz1 : Z;
  acl_size : Z;
  ace_count : Z;
  sbz2 : Z;
  data : list Z;
}.

Definition CAPACITY : nat := 512.

Definition acl_ty (a : Acl) : Prop :=
  byte_ty (revision a) /\ u_ty 16 (acl_size a) /\ u_ty 16 (ace_count a) /\
  length (data a) = CAPACITY /\ Forall byte_ty (data a).

Definition new : Acl := mk_acl ACL_REVISION 0 8 0 0 (replicate (MAX_ACES * 32) 0).

(** The ACE types whose SID the validator checks. *)
Definition sid_checked (t : Z) : bool :=
  existsb (Z.eqb t) [0x00; 0x01; 0x02; 0x09; 0x0A; 0x0D; 0x0E; 0x11; 0x14].

(** The [for _ in 0..self.ace_count] loop of [used_size]. *)
Fixpoint used_size_loop (data : list Z) (limit n offset : nat) : outcome (option nat) :=
  match n with
  | O => Ret (if decide (offset = limit) then Some offset else None)
  | S n =>
      let header_end := (offset + ACE_HEADER_SIZE)%nat in
      if decide (limit < header_end)%nat then Ret None else
      b2 ← rd data (offset + 2)%nat;
      b3 ← rd data (offset + 3)%nat;
      let ace_size := Z.to_nat (from_le [b2; b3]) in
      if decide (ace_size < ACE_HEADER_SIZE + 4)%nat then Ret None else
      let ace_end := (offset + ace_size)%nat in
      if decide (limit < ace_end)%nat then Ret None else
      t ← rd data offset;
      match from_u8 t with
      | None => Ret None
      | Some _ =>
          reject ← (if sid_checked t then
                      if decide (ace_size < 16)%nat then Ret true else
                      bytes ← slice data (offset + 8) ace_end;
                      r ← Sid.from_bytes bytes;
                      Ret (match r with None => true | Some _ => false end)
                    else Ret false);
          if (reject : bool) then Ret None else used_size_loop data limit n ace_end
      end
  end.

Definition used_size (a : Acl) : outcome (option nat) :=
  if (acl_size a <? 8) || bool_decide (length (data a) < Z.to_nat (acl_size a))%nat
     || (negb (revision a =? ACL_REVISION) && negb (revision a =? ACL_REVISION_DS))
     || bool_decide (MAX_ACES < Z.to_nat (ace_count a))%nat
  then Ret None
  else used_size_loop (data a) (Z.to_nat (acl_size a)) (Z.to_nat (ace_count a)) 8.

Definition is_valid (a : Acl) : outcome bool :=
  r ← used_size a; Ret (match r with Some _ => true | None => false end).

(** The loop that copies the sub-authorities [index..index + n]. *)
Fixpoint copy_subs (data subs : list Z) (sid_offset index n : nat) : outcome (list Z) :=
  match n with
  | O => Ret data
  | S n =>
      data ← copy_at data (sid_offset + 8 + index * 4) (to_le 4 (nth index subs 0));
      copy_subs data subs sid_offset (S index) n
  end.

(** The writes of [add_ace]: header, mask, then the SID. *)
Definition write_ace (d : list Z) (offset : nat) (ace_size : Z) (ace_type : AceType)
    (flags mask : Z) (s : sid) : outcome (list Z) :=
  d ← wr d offset (ace_type_u8 ace_type);
  d ← wr d (offset + 1)%nat flags;
  d ← wr d (offset + 2)%nat (Z.land ace_size 0xFF);
  d ← wr d (offset + 3)%nat (wrap 8 (Z.shiftr ace_size 8));
  d ← wr d (offset + 4)%nat (Z.land mask 0xFF);
  d ← wr d (offset + 5)%nat (Z.land (Z.shiftr mask 8) 0xFF);
  d ← wr d (offset + 6)%nat (Z.land (Z.shiftr mask 16) 0xFF);
  d ← wr d (offset + 7)%nat (Z.land (Z.shiftr mask 24) 0xFF);
  let sid_offset := (offset + ACE_HEADER_SIZE + 4)%nat in
  d ← wr d sid_offset (Sid.revision s);
  d ← wr d (sid_offset + 1)%nat (Sid.sub_authority_count s);
  d ← copy_at d (sid_offset + 2) (Sid.authority s);
  copy_subs d (Sid.sub_authority s) sid_offset 0 (Sid.subauthority_count s).

Definition add_ace (a : Acl) (ace_type : AceType) (flags mask : Z) (s : sid)
    : outcome (Acl * bool) :=
  if negb (Sid.is_valid s) || bool_decide (MAX_ACES <= Z.to_nat (ace_count a))%nat
  then Ret (a, false) else
  let sid_bytes := Sid.size s in
  let ace_size := wrap 16 (Z.of_nat (ACE_HEADER_SIZE + 4 + sid_bytes)) in
  used ← used_size a;
  match used with
  | None => Ret (a, false)
  | Some offset =>
      if decide (length (data a) < offset + Z.to_nat ace_size)%nat then Ret (a, false) else
      d ← write_ace (data a) offset ace_size ace_type flags mask s;
      Ret (mk_acl (revision a) (sbz1 a)
             (wrap 16 (Z.of_nat (offset + Z.to_nat ace_size)))
             (wrap 16 (ace_count a + 1)) (sbz2 a) d, true)
  end.

Definition add_access_allowed (a : Acl) (s : sid) (mask flags : Z) : outcome (Acl * bool) :=
  add_ace a AccessAllowed flags mask s.

Definition add_access_denied (a : Acl) (s : sid) (mask flags : Z) : outcome (Acl * bool) :=
  add_ace a AccessDenied flags mask s.

(** [is_null_dacl]; the pointer is [None] when null. *)
Definition is_null_dacl (acl : option Acl) : bool :=
  match acl with
  | None => true
  | Some a => (acl_size a =? 0) && (ace_count a =? 0)
  end.

(** ** The abstract view: a list of entries *)

Record ace := mk_ace {
  entry_type : AceType;
  entry_flags : Z;
  entry_mask : Z;
  entry_sid : sid;
}.

Definition ace_ok (e : ace) : Prop :=
  byte_ty (entry_flags e) /\ u_ty 32 (entry_mask e) /\
  Sid.sid_ty (entry_sid e) /\ Sid.is_valid (entry_sid e) = true.

Definition ace_len (e : ace) : nat := 8 + Sid.size (entry_sid e).

(** The encoding of one entry: header, mask, SID. *)
Definition ace_bytes (e : ace) : list Z :=
  ace_type_u8 (entry_type e) :: entry_flags e :: to_le 2 (Z.of_nat (ace_len e)) ++
  to_le 4 (entry_mask e) ++ Sid.sid_bytes (entry_sid e).

Definition aces_bytes (es : list ace) : list Z := concat (map ace_bytes es).

(** [acl_repr a es]: the buffer [a] encodes exactly the entries [es]. *)
Definition acl_repr (a : Acl) (es : list ace) : Prop :=
  acl_ty a /\ (revision a = ACL_REVISION \/ revision a = ACL_REVISION_DS) /\
  ace_count a = Z.of_nat (length es) /\ (length es <= MAX_ACES)%nat /\
  acl_size a = Z.of_nat (8 + length (aces_bytes es)) /\
  (8 + length (aces_bytes es) <= CAPACITY)%nat /\ Forall ace_ok es /\
  exists pre rest, length pre = 8%nat /\ data a = pre ++ aces_bytes es ++ rest.

Lemma from_to_u8 t : from_u8 (ace_type_u8 t) = Some t.
Proof. by destruct t. Qed.

Lemma ace_type_u8_byte t : byte_ty (ace_type_u8 t).
Proof. by destruct t. Qed.

Lemma sid_size_bounds s : (8 <= Sid.size s <= 40)%nat.
Proof. pose proof (Sid.subauthority_count_le s). unfold Sid.size. lia. Qed.

Lemma length_ace_bytes e : Sid.sid_ty (entry_sid e) -> length (ace_bytes e) = ace_len e.
Proof.
  intros Hty. unfold ace_bytes, ace_len. cbn [length].
  rewrite !length_app, !length_to_le, Sid.length_sid_bytes by done. lia.
Qed.

Lemma aces_bytes_app es e : aces_bytes (es ++ [e]) = aces_bytes es ++ ace_bytes e.
Proof. unfold aces_bytes. rewrite map_app, concat_app. cbn. by rewrite app_nil_r. Qed.

(** ** Writing one entry *)

Lemma copy_subs_cursor subs sid_offset n index P R :
  length P = (sid_offset + 8 + index * 4)%nat -> (4 * n <= length R)%nat ->
  (index + n <= length subs)%nat ->
  copy_subs (P ++ R) subs sid_offset index n =
  Ret ((P ++ concat (map (to_le 4) (take n (drop index subs)))) ++ drop (4 * n) R).
Proof.
  revert index P R. induction n as [|n IH]; intros index P R HP HR Hs.
  { cbn [copy_subs]. by rewrite take_0, drop_0, app_nil_r. }
  cbn [copy_subs]. rewrite copy_cursor by (rewrite ?length_to_le; lia).
  rewrite outcome_bind_ret, length_to_le, IH;
    [| rewrite length_app, length_to_le; lia | rewrite length_drop; lia | lia].
  rewrite drop_drop. rewrite (drop_S subs (nth index subs 0) index)
    by (apply lookup_nth; lia).
  cbn [take firstn map concat]. rewrite <- !app_assoc. replace (4 * S n)%nat with (4 + 4 * n)%nat by lia. done.
Qed.

Lemma land_255 x : Z.land x 0xFF = x mod 256.
Proof. change 0xFF with (Z.ones 8). by rewrite Z.land_ones. Qed.

Lemma mask_bytes m :
  [Z.land m 0xFF; Z.land (Z.shiftr m 8) 0xFF; Z.land (Z.shiftr m 16) 0xFF;
   Z.land (Z.shiftr m 24) 0xFF] = to_le 4 m.
Proof.
  rewrite !land_255, !Z.shiftr_div_pow2 by lia. cbn [to_le].
  rewrite !Z.div_div by lia. done.
Qed.

Lemma size_bytes n :
  [Z.land (Z.of_nat n) 0xFF; wrap 8 (Z.shiftr (Z.of_nat n) 8)] = to_le 2 (Z.of_nat n).
Proof. rewrite land_255, Z.shiftr_div_pow2 by lia. done. Qed.

(** ** Reading one entry *)

(** The header and mask fields at the start of an encoded entry. *)
Lemma ace_fields e tl :
  rd (ace_bytes e ++ tl) 0 = Ret (ace_type_u8 (entry_type e)) /\
  (exists b2 b3, rd (ace_bytes e ++ tl) 2 = Ret b2 /\ rd (ace_bytes e ++ tl) 3 = Ret b3 /\
    byte_ty b2 /\ from_le [b2; b3] = Z.of_nat (ace_len e)) /\
  (ace_ok e -> exists b4 b5 b6 b7,
    rd (ace_bytes e ++ tl) 4 = Ret b4 /\ rd (ace_bytes e ++ tl) 5 = Ret b5 /\
    rd (ace_bytes e ++ tl) 6 = Ret b6 /\ rd (ace_bytes e ++ tl) 7 = Ret b7 /\
    from_le [b4; b5; b6; b7] = entry_mask e).
Proof.
  split; [done |]. split.
  - do 2 eexists. split; [done |]. split; [done |]. split; [apply (Z.mod_pos_bound _ 256); lia |].
    apply (from_to_le 2). unfold ace_len, u_ty. pose proof (sid_size_bounds (entry_sid e)).
    change (2 ^ (8 * Z.of_nat 2)) with 65536. lia.
  - intros (_ & Hm & _). do 4 eexists. do 4 (split; [done |]). by apply (from_to_le 4).
Qed.

(** The SID field of an encoded entry parses to the entry's SID. *)
Lemma ace_sid_field P e tl :
  ace_ok e ->
  slice (P ++ ace_bytes e ++ tl) (length P + 8) (length P + ace_len e) =
    Ret (Sid.sid_bytes (entry_sid e)) /\
  Sid.from_bytes (Sid.sid_bytes (entry_sid e)) = Ret (Some (Sid.canonical (entry_sid e))).
Proof.
  intros (_ & _ & Hty & Hv). split; cycle 1.
  { rewrite <- (app_nil_r (Sid.sid_bytes _)). by apply Sid.from_bytes_sid_bytes. }
  replace (P ++ ace_bytes e ++ tl) with
    ((P ++ ace_type_u8 (entry_type e) :: entry_flags e :: to_le 2 (Z.of_nat (ace_len e)) ++
      to_le 4 (entry_mask e)) ++ Sid.sid_bytes (entry_sid e) ++ tl)
    by (unfold ace_bytes; cbn [app]; by rewrite <- !app_assoc; cbn [app]; rewrite <- !app_assoc).
  apply slice_app;
    [rewrite length_app; cbn [length]; rewrite length_app, !length_to_le; lia
     | rewrite !length_app; cbn [length];
       rewrite length_app, !length_to_le, Sid.length_sid_bytes by done;
       unfold ace_len; lia].
Qed.

Lemma used_size_loop_repr es P rest limit :
  Forall ace_ok es -> limit = (length P + length (aces_bytes es))%nat ->
  used_size_loop (P ++ aces_bytes es ++ rest) limit (length es) (length P) = Ret (Some limit).
Proof.
  intros Hok. revert P. induction Hok as [|e es He Hes IH]; intros P Hlim.
  { cbn [length used_size_loop]. rewrite decide_True by (rewrite Hlim; cbn; lia).
    by rewrite Hlim, Nat.add_0_r. }
  assert (Sid.sid_ty (entry_sid e)) as Hty by apply He.
  assert (aces_bytes (e :: es) = ace_bytes e ++ aces_bytes es) as Hcons by done.
  rewrite Hcons, length_app, length_ace_bytes in Hlim by done.
  rewrite Hcons, <- app_assoc. cbn [length used_size_loop].
  set (tl := aces_bytes es ++ rest).
  destruct (ace_fields e tl) as (H0 & (b2 & b3 & H2 & H3 & _ & Hn) & _).
  pose proof (sid_size_bounds (entry_sid e)) as Hsz.
  assert (16 <= ace_len e)%nat by (unfold ace_len; lia).
  unfold ACE_HEADER_SIZE. rewrite decide_False by lia.
  rewrite !rd_app, (rd_app_0 P) by done. rewrite H0, H2, H3, !outcome_bind_ret, Hn, Nat2Z.id.
  rewrite decide_False, decide_False by lia. rewrite ?outcome_bind_ret, from_to_u8.
  destruct (ace_sid_field P e tl He) as [Hslice Hsid].
  rewrite (decide_False (P := (ace_len e < 16)%nat)) by lia.
  rewrite Hslice, outcome_bind_ret, Hsid, outcome_bind_ret.
  destruct (sid_checked _); rewrite outcome_bind_ret.
  all: replace (length P + ace_len e)%nat with (length (P ++ ace_bytes e))
    by (rewrite length_app, length_ace_bytes by done; done).
  all: unfold tl; rewrite (app_assoc P); apply IH; rewrite length_app, length_ace_bytes by done; lia.
Qed.

Lemma used_size_repr a es :
  acl_repr a es -> used_size a = Ret (Some (8 + length (aces_bytes es))%nat).
Proof.
  intros (Hty & Hrev & Hcnt & Hmax & Hsz & Hcap & Hok & pre & rest & Hpre & Hdata).
  destruct Hty as (_ & _ & _ & Hlen & _). unfold used_size, MAX_ACES, CAPACITY in *.
  rewrite Hsz, Hcnt, !Nat2Z.id, Hlen.
  rewrite (proj2 (Z.ltb_ge _ _)), !bool_decide_false by lia.
  replace (negb (revision a =? ACL_REVISION) && negb (revision a =? ACL_REVISION_DS)) with false
    by (destruct Hrev as [-> | ->]; done).
  cbn [orb]. rewrite Hdata. pose proof (used_size_loop_repr es pre rest _ Hok eq_refl) as Hloop.
  by rewrite Hpre in Hloop.
Qed.

(** The buffer [add_ace] leaves behind when it accepts an entry. *)
Definition appended (a : Acl) (es : list ace) (e : ace) (pre rest : list Z) : Acl :=
  mk_acl (revision a) (sbz1 a) (Z.of_nat (8 + length (aces_bytes es) + ace_len e))
    (Z.of_nat (S (length es))) (sbz2 a)
    (pre ++ aces_bytes (es ++ [e]) ++ drop (ace_len e) rest).

(** With [P] before the insertion point, the bytes that follow become the encoding
    of the entry. *)
Lemma write_ace_spec P R t flags mask s (e := mk_ace t flags mask s) :
  ace_ok e -> (ace_len e <= length R)%nat ->
  write_ace (P ++ R) (length P) (Z.of_nat (ace_len e)) t flags mask s =
  Ret ((P ++ ace_bytes e) ++ drop (ace_len e) R).
Proof.
  unfold write_ace. set (ace_size := Z.of_nat (ace_len e)). set (offset := length P).
  intros (_ & _ & Hty & _) HR. cbn [entry_sid e] in Hty.
  pose proof (Sid.subauthority_count_le s) as Hle. pose proof Hty as (_ & _ & Hal & _ & Hsl & _).
  unfold Sid.SID_MAX_SUB_AUTHORITIES in Hsl. unfold ACE_HEADER_SIZE.
  assert (ace_len e = 16 + 4 * Sid.subauthority_count s)%nat as Hn
    by (unfold ace_len, Sid.size; cbn [entry_sid e]; lia).
  do 10 (rewrite wr_cursor;
    [rewrite outcome_bind_ret | rewrite ?length_app; cbn [length]; lia
     | rewrite ?length_drop; lia]; rewrite ?drop_drop).
  rewrite copy_cursor;
    [rewrite outcome_bind_ret | rewrite !length_app; cbn [length]; lia | rewrite length_drop; lia].
  rewrite copy_subs_cursor;
    [| rewrite !length_app; cbn [length]; lia | rewrite !length_drop; lia | lia].
  rewrite drop_0, drop_drop, Hal. f_equal.
  rewrite drop_drop, Hn. f_equal.
  unfold ace_bytes, Sid.sid_bytes. cbn [entry_type entry_flags entry_mask entry_sid e].
  rewrite <- (size_bytes (ace_len e)), <- (mask_bytes mask).
  rewrite <- !app_assoc. done.
Qed.

Lemma sid_bytes_byte s : Sid.sid_ty s -> Forall byte_ty (Sid.sid_bytes s).
Proof.
  intros (Hr & Hc & _ & Ha & _ & _). unfold Sid.sid_bytes.
  rewrite !Forall_cons, Forall_app. split_and!; try done.
  apply Forall_concat, Forall_fmap, Forall_true. intros x. apply to_le_bytes.
Qed.

Lemma ace_bytes_byte e : ace_ok e -> Forall byte_ty (ace_bytes e).
Proof.
  intros (Hf & _ & Hty & _). unfold ace_bytes. rewrite !Forall_cons, !Forall_app.
  split_and!; auto using ace_type_u8_byte, to_le_bytes, sid_bytes_byte.
Qed.

Lemma appended_repr a es e pre rest :
  acl_repr a es -> ace_ok e -> length pre = 8%nat -> data a = pre ++ aces_bytes es ++ rest ->
  (length es < MAX_ACES)%nat -> (8 + length (aces_bytes es) + ace_len e <= CAPACITY)%nat ->
  acl_repr (appended a es e pre rest) (es ++ [e]).
Proof.
  intros (Hty & Hrev & _ & _ & _ & _ & Hok & _) He Hpre Hdata Hmax Hcap.
  pose proof He as (_ & _ & Hsty & _). destruct Hty as (Hr & _ & _ & Hlen & Hbytes).
  assert (length (aces_bytes (es ++ [e])) = length (aces_bytes es) + ace_len e)%nat as Hl
    by (rewrite aces_bytes_app, length_app, length_ace_bytes by done; done).
  rewrite Hdata, !length_app in Hlen. rewrite Hdata, !Forall_app in Hbytes.
  destruct Hbytes as (Hb1 & Hb2 & Hb3). unfold CAPACITY, MAX_ACES in *.
  unfold acl_repr, acl_ty, appended, CAPACITY, MAX_ACES, u_ty.
  cbn [revision acl_size ace_count data].
  rewrite Hl, !length_app, Hl, length_drop. cbn [length].
  split_and!; try done; try lia.
  - rewrite aces_bytes_app, !Forall_app. split_and!; auto using ace_bytes_byte, Forall_drop.
  - apply Forall_app. split; [done |]. by apply Forall_singleton.
  - exists pre, (drop (ace_len e) rest). done.
Qed.

(** [add_ace] on an encoded list appends the entry exactly when the SID is valid and
    both the entry count and the byte capacity allow it, and otherwise changes nothing. *)
Lemma add_ace_spec a es t flags mask s (e := mk_ace t flags mask s) :
  acl_repr a es -> byte_ty flags -> u_ty 32 mask -> Sid.sid_ty s ->
  if Sid.is_valid s && bool_decide (length es < MAX_ACES)%nat &&
     bool_decide (8 + length (aces_bytes es) + ace_len e <= CAPACITY)%nat
  then exists a', add_ace a t flags mask s = Ret (a', true) /\ acl_repr a' (es ++ [e])
  else add_ace a t flags mask s = Ret (a, false).
Proof.
  intros Hrepr Hf Hm Hs. pose proof (used_size_repr a es Hrepr) as Hused.
  pose proof Hrepr as (Hty & _ & Hcnt & _ & _ & Hcap & _ & pre & rest & Hpre & Hdata).
  pose proof Hty as (_ & _ & _ & Hlen & _). pose proof (sid_size_bounds s) as Hsz.
  unfold add_ace. rewrite Hcnt, Nat2Z.id, Hused, Hlen, outcome_bind_ret.
  destruct (Sid.is_valid s) eqn:Hv; cbn [negb orb andb]; [| done].
  assert (ace_ok e) as He by done.
  assert (wrap 16 (Z.of_nat (ACE_HEADER_SIZE + 4 + Sid.size s)) = Z.of_nat (ace_len e)) as ->
    by (rewrite wrap_small; [done | unfold u_ty, ACE_HEADER_SIZE; lia]).
  rewrite Nat2Z.id. unfold MAX_ACES, CAPACITY in *.
  destruct (decide (length es < 16)%nat); cycle 1.
  { by rewrite (bool_decide_true (16 <= length es)%nat), (bool_decide_false (length es < 16)%nat)
      by lia. }
  rewrite (bool_decide_false (16 <= length es)%nat), (bool_decide_true (length es < 16)%nat) by lia.
  cbn [andb].
  destruct (decide (8 + length (aces_bytes es) + ace_len e <= 512)%nat) as [Hfit |]; cycle 1.
  { by rewrite decide_True, bool_decide_false by lia. }
  rewrite decide_False, bool_decide_true by lia.
  exists (appended a es e pre rest).
  split; [| by apply appended_repr].
  pose proof (write_ace_spec (pre ++ aces_bytes es) rest t flags mask s He) as Hw.
  fold e in Hw. rewrite length_app, Hpre, <- app_assoc, <- Hdata in Hw.
  rewrite Hdata, !length_app in Hlen. rewrite Hw, outcome_bind_ret by lia.
  unfold appended. rewrite aces_bytes_app, !wrap_small by (unfold u_ty; lia).
  by rewrite <- !app_assoc, Z.add_1_r, Nat2Z.inj_succ.
Qed.

(** ** Arbitrary buffers *)

Lemma used_size_loop_total data limit n offset :
  (limit <= length data)%nat -> Forall byte_ty data ->
  exists r, used_size_loop data limit n offset = Ret r /\ (forall k, r = Some k -> k = limit).
Proof.
  intros Hlim Hb. revert offset. induction n as [|n IH]; intros offset; cbn [used_size_loop].
  { eexists. split; [done |]. intros k. case_decide; naive_solver. }
  case_decide; [by exists None |]. unfold ACE_HEADER_SIZE in *.
  destruct (rd_total byte_ty data (offset + 2)) as (b2 & -> & _); [lia | done |].
  destruct (rd_total byte_ty data (offset + 3)) as (b3 & -> & _); [lia | done |].
  rewrite !outcome_bind_ret. case_decide; [by exists None |]. case_decide; [by exists None |].
  destruct (rd_total byte_ty data offset) as (t & -> & _); [lia | done |].
  rewrite outcome_bind_ret. destruct (from_u8 t); [| by exists None].
  destruct (sid_checked t); [| apply IH]. case_decide; [by exists None |].
  destruct (slice_total byte_ty data (offset + 8) (offset + Z.to_nat (from_le [b2; b3])))
    as (bytes & -> & Hbytes); [lia | done |].
  destruct (Sid.from_bytes_total bytes Hbytes) as [r Hr]. rewrite outcome_bind_ret, Hr.
  destruct r; rewrite !outcome_bind_ret; [apply IH | by exists None].
Qed.

Lemma used_size_total a :
  acl_ty a -> exists r, used_size a = Ret r /\
    (forall k, r = Some k -> k = Z.to_nat (acl_size a) /\ (8 <= k <= CAPACITY)%nat).
Proof.
  intros (_ & _ & _ & Hlen & Hb). unfold used_size.
  destruct ((acl_size a <? 8) || bool_decide (length (data a) < Z.to_nat (acl_size a))%nat) eqn:E;
    [by exists None |].
  rewrite orb_false_iff, Z.ltb_ge, bool_decide_eq_false in E. destruct E as [E1 E2].
  cbn [orb]. destruct (_ || _); [by exists None |].
  destruct (used_size_loop_total (data a) (Z.to_nat (acl_size a)) (Z.to_nat (ace_count a)) 8)
    as (r & -> & Hr); [lia | done |].
  exists r. split; [done |]. intros k Hk. rewrite (Hr k Hk). unfold CAPACITY in *. lia.
Qed.

Lemma new_repr : acl_repr new [].
Proof.
  unfold acl_repr, acl_ty. split_and!; try done; try (by left);
    try (cbn; unfold CAPACITY, MAX_ACES; lia).
  - by apply Forall_replicate.
  - exists (replicate 8 0), (replicate 504 0). done.
Qed.

(** Every list of entries within the limits has an encoding. *)
Definition encode_acl (es : list ace) : Acl :=
  mk_acl ACL_REVISION 0 (Z.of_nat (8 + length (aces_bytes es))) (Z.of_nat (length es)) 0
    (replicate 8 0 ++ aces_bytes es ++ replicate (CAPACITY - 8 - length (aces_bytes es)) 0).

Lemma encode_repr es :
  Forall ace_ok es -> (length es <= MAX_ACES)%nat ->
  (8 + length (aces_bytes es) <= CAPACITY)%nat -> acl_repr (encode_acl es) es.
Proof.
  intros Hok Hn Hcap. unfold acl_repr, acl_ty, encode_acl, MAX_ACES, CAPACITY, u_ty in *.
  cbn [revision acl_size ace_count data]. rewrite !length_app, !length_replicate.
  split_and!; try done; try lia; try (by left).
  - rewrite !Forall_app. split_and!; try (by apply Forall_replicate).
    apply Forall_concat, Forall_fmap. eapply Forall_impl; [exact Hok |].
    intros e He. by apply ace_bytes_byte.
  - eexists _, _. split; [| done]. done.
Qed.

(** ** Properties *)

(** The validator is safe on any buffer of the Rust type, whatever its bytes: it
    returns without an out-of-range access, and a size it reports is exactly the
    logical size field, within the 512-byte capacity. *)
Theorem used_size_safe (a : Acl) (Hty : acl_ty a) :
  exists r, used_size a = Ret r /\
    (forall k, r = Some k -> k = Z.to_nat (acl_size a) /\ (8 <= k <= CAPACITY)%nat).
Proof. by apply used_size_total. Qed.

Lemma used_size_safe_witness :
  exists r, used_size (mk_acl 2 0 24 1 0 (replicate 512 255)) = Ret r /\
    (forall k, r = Some k -> k = Z.to_nat 24 /\ (8 <= k <= CAPACITY)%nat).
Proof.
  apply (used_size_safe (mk_acl 2 0 24 1 0 (replicate 512 255))).
  unfold acl_ty. split_and!; try done. cbn [data]. by apply Forall_replicate.
Defined.

(** The byte-level append implements the abstract list append. On a buffer that
    encodes [es], [add_ace] returns true and a buffer that encodes [es ++ [e]] when the
    SID is valid, fewer than 16 entries are stored and the encoding fits in 512 bytes;
    in every other case it returns false and leaves the buffer as it was. *)
Theorem add_ace_refines_append (a : Acl) (es : list ace) (t : AceType) (flags mask : Z) (s : sid)
    (Hrepr : acl_repr a es) (Hf : byte_ty flags) (Hm : u_ty 32 mask) (Hs : Sid.sid_ty s) :
  if Sid.is_valid s && bool_decide (length es < MAX_ACES)%nat &&
     bool_decide (8 + length (aces_bytes es) + ace_len (mk_ace t flags mask s) <= CAPACITY)%nat
  then exists a', add_ace a t flags mask s = Ret (a', true) /\
         acl_repr a' (es ++ [mk_ace t flags mask s])
  else add_ace a t flags mask s = Ret (a, false).
Proof. by apply add_ace_spec. Qed.

Lemma add_ace_refines_append_witness :
  exists a', add_ace new AccessAllowed 0 0x1234 (Sid.well_known Sid.LocalSystem) = Ret (a', true)
    /\ acl_repr a' [mk_ace AccessAllowed 0 0x1234 (Sid.well_known Sid.LocalSystem)].
Proof.
  apply (add_ace_refines_append new [] AccessAllowed 0 0x1234 (Sid.well_known Sid.LocalSystem)
           new_repr); [done | done |].
  unfold Sid.sid_ty. split_and!; try done; repeat constructor; done.
Defined.

End Acl.
