(* ===== verification/Token.v ===== *)
(** * Security tokens ([src/nt61/src/se/token.rs])

    Groups, privileges and the token itself, with its constructors, the bounded
    group and privilege tables, membership queries and the reference count. *)

From S2P Require Import Prelude Sid Acl.
Import Sid(sid).

Module Token.

Inductive TokenTypeEnum := TokenPrimary | TokenImpersonation.

Inductive ImpersonationLevel :=
| SecurityAnonymous | SecurityIdentification | SecurityImpersonation | SecurityDelegation.

Definition SE_GROUP_MANDATORY : Z := 0x00000001.
Definition SE_GROUP_ENABLED_BY_DEFAULT : Z := 0x00000002.
Definition SE_GROUP_ENABLED : Z := 0x00000004.
Definition SE_GROUP_OWNER : Z := 0x00000008.
Definition SE_GROUP_USE_FOR_DENY_ONLY : Z := 0x00000010.
Definition SE_GROUP_INTEGRITY : Z := 0x00000020.
Definition SE_GROUP_INTEGRITY_ENABLED : Z := 0x00000040.
Definition SE_GROUP_LOGON_ID : Z := 0xC0000000.

Definition SE_PRIVILEGE_ENABLED_BY_DEFAULT : Z := 0x00000001.
Definition SE_PRIVILEGE_ENABLED : Z := 0x00000002.
Definition SE_PRIVILEGE_REMOVED : Z := 0x00000004.

Definition TOKEN_MAX_GROUPS : nat := 16.
Definition TOKEN_MAX_PRIVILEGES : nat := 16.

Definition SECURITY_MANDATORY_MEDIUM : Z := 0x2000.

(** A 64-bit identifier: unsigned low half, signed high half. *)
Record luid := mk_luid { low_part : Z; high_part : Z }.

Definition luid_new : luid := mk_luid 0 0.

Definition luid_from_u64 (v : Z) : luid :=
  mk_luid (wrap 32 (Z.land v 0xFFFFFFFF)) (to_signed 32 (Z.shiftr v 32)).

Definition luid_to_u64 (l : luid) : Z :=
  Z.lor (wrap 64 (Z.shiftl (wrap 64 (high_part l)) 32)) (low_part l).

Definition luid_equals (l other : luid) : bool :=
  (low_part l =? low_part other) && (high_part l =? high_part other).

Record TokenGroup := mk_group { group_sid : sid; group_attributes : Z }.

Definition group_is_enabled (g : TokenGroup) : bool := has_bits (group_attributes g) SE_GROUP_ENABLED.
Definition group_is_mandatory (g : TokenGroup) : bool := has_bits (group_attributes g) SE_GROUP_MANDATORY.
Definition group_is_logon_id (g : TokenGroup) : bool := has_bits (group_attributes g) SE_GROUP_LOGON_ID.

Record TokenPrivilege := mk_privilege { privilege_luid : luid; privilege_attributes : Z }.

Definition privilege_is_enabled (p : TokenPrivilege) : bool :=
  has_bits (privilege_attributes p) SE_PRIVILEGE_ENABLED.

Definition privilege_enable (p : TokenPrivilege) : TokenPrivilege :=
  mk_privilege (privilege_luid p) (Z.lor (privilege_attributes p) SE_PRIVILEGE_ENABLED).

(** [struct Token]; the default DACL pointer is [None] when null. *)
Record Token := mk_token {
  token_id : luid;
  authentication_id : luid;
  user : sid;
  primary_group : sid;
  default_dacl : option Acl.Acl;
  session_id : Z;
  flags : Z;
  integrity_level_rid : Z;
  token_type : TokenTypeEnum;
  impersonation_level : ImpersonationLevel;
  groups : list TokenGroup;
  group_count : nat;
  privileges : list TokenPrivilege;
  privilege_count : nat;
  refcount : Z;
}.

Definition new : Token :=
  {| token_id := luid_new; authentication_id := luid_new;
     user := Sid.well_known Sid.Null; primary_group := Sid.well_known Sid.Null;
     default_dacl := None; session_id := 0; flags := 0;
     integrity_level_rid := SECURITY_MANDATORY_MEDIUM;
     token_type := TokenPrimary; impersonation_level := SecurityImpersonation;
     groups := replicate TOKEN_MAX_GROUPS
       (mk_group (Sid.mk_sid 1 0 (replicate 6 0) (replicate 8 0)) 0);
     group_count := 0;
     privileges := replicate TOKEN_MAX_PRIVILEGES (mk_privilege luid_new 0);
     privilege_count := 0; refcount := 0 |}.

Definition new_primary (user_sid : sid) : Token :=
  let t := new in
  {| token_id := luid_new; authentication_id := luid_new;
     user := user_sid; primary_group := Sid.well_known Sid.Users;
     default_dacl := None; session_id := 0; flags := 0;
     integrity_level_rid := SECURITY_MANDATORY_MEDIUM;
     token_type := TokenPrimary; impersonation_level := SecurityImpersonation;
     groups := groups t; group_count := group_count t;
     privileges := privileges t; privilege_count := privilege_count t; refcount := 1 |}.

Definition new_impersonation (user_sid : sid) (level : ImpersonationLevel) : Token :=
  let t := new in
  {| token_id := luid_new; authentication_id := luid_new;
     user := user_sid; primary_group := Sid.well_known Sid.Users;
     default_dacl := None; session_id := session_id t; flags := flags t;
     integrity_level_rid := integrity_level_rid t;
     token_type := TokenImpersonation; impersonation_level := level;
     groups := groups t; group_count := group_count t;
     privileges := privileges t; privilege_count := privilege_count t; refcount := 1 |}.

(** Field updates. *)
Definition set_groups (t : Token) (gs : list TokenGroup) (n : nat) : Token :=
  mk_token (token_id t) (authentication_id t) (user t) (primary_group t) (default_dacl t)
    (session_id t) (flags t) (integrity_level_rid t) (token_type t) (impersonation_level t)
    gs n (privileges t) (privilege_count t) (refcount t).

Definition set_privileges (t : Token) (ps : list TokenPrivilege) (n : nat) : Token :=
  mk_token (token_id t) (authentication_id t) (user t) (primary_group t) (default_dacl t)
    (session_id t) (flags t) (integrity_level_rid t) (token_type t) (impersonation_level t)
    (groups t) (group_count t) ps n (refcount t).

Definition set_refcount (t : Token) (r : Z) : Token :=
  mk_token (token_id t) (authentication_id t) (user t) (primary_group t) (default_dacl t)
    (session_id t) (flags t) (integrity_level_rid t) (token_type t) (impersonation_level t)
    (groups t) (group_count t) (privileges t) (privilege_count t) r.

Definition set_integrity (t : Token) (rid : Z) : Token :=
  mk_token (token_id t) (authentication_id t) (user t) (primary_group t) (default_dacl t)
    (session_id t) (flags t) rid (token_type t) (impersonation_level t)
    (groups t) (group_count t) (privileges t) (privilege_count t) (refcount t).

Definition add_group (t : Token) (g : TokenGroup) : outcome Token :=
  if decide (group_count t < TOKEN_MAX_GROUPS)%nat then
    gs ← wr (groups t) (group_count t) g; Ret (set_groups t gs (S (group_count t)))
  else Ret t.

Definition add_privilege (t : Token) (p : TokenPrivilege) : outcome Token :=
  if decide (privilege_count t < TOKEN_MAX_PRIVILEGES)%nat then
    ps ← wr (privileges t) (privilege_count t) p;
    Ret (set_privileges t ps (S (privilege_count t)))
  else Ret t.

Definition has_privilege (t : Token) (l : luid) : outcome bool :=
  any_loop (fun p => luid_equals (privilege_luid p) l && privilege_is_enabled p)
    (privileges t) 0 (privilege_count t).

Definition is_local_system (t : Token) : bool :=
  Sid.equals (user t) (Sid.well_known Sid.LocalSystem).

Definition is_admin (t : Token) : bool :=
  is_local_system t ||
  existsb (fun g => (Z.land (group_attributes g) SE_GROUP_USE_FOR_DENY_ONLY =? 0) &&
             Sid.equals (group_sid g) (Sid.well_known Sid.Administrators))
    (take (group_count t) (groups t)).

Definition add_ref (t : Token) : Token := set_refcount t (wrap 32 (refcount t + 1)).

Definition release (t : Token) : Token * Z :=
  let t := if 0 <? refcount t then set_refcount t (refcount t - 1) else t in
  (t, refcount t).

(** ** The table invariant *)

(** What the Rust types and the bounded tables guarantee. *)
Definition token_wf (t : Token) : Prop :=
  Sid.sid_ty (user t) /\ length (groups t) = TOKEN_MAX_GROUPS /\
  length (privileges t) = TOKEN_MAX_PRIVILEGES /\
  (group_count t <= TOKEN_MAX_GROUPS)%nat /\ (privilege_count t <= TOKEN_MAX_PRIVILEGES)%nat /\
  Forall (fun g => Sid.sid_ty (group_sid g) /\ u_ty 32 (group_attributes g)) (groups t).

(** The occupied part of the tables. *)
Definition active_groups (t : Token) : list TokenGroup := take (group_count t) (groups t).
Definition active_privileges (t : Token) : list TokenPrivilege :=
  take (privilege_count t) (privileges t).

Lemma take_insert_snoc {A} (l : list A) n x :
  (n < length l)%nat -> take (S n) (<[n := x]> l) = take n l ++ [x].
Proof.
  intros Hn. rewrite (take_S_r _ _ x) by (by apply list_lookup_insert_eq).
  by rewrite take_insert_ge by lia.
Qed.

Lemma add_group_spec t g :
  token_wf t -> Sid.sid_ty (group_sid g) -> u_ty 32 (group_attributes g) ->
  exists t', add_group t g = Ret t' /\ token_wf t' /\ user t' = user t /\
    active_privileges t' = active_privileges t /\
    active_groups t' = active_groups t ++
      (if decide (group_count t < TOKEN_MAX_GROUPS)%nat then [g] else []).
Proof.
  intros Hwf Hg1 Hg2. pose proof Hwf as (Hu & Hgl & Hpl & Hgc & Hpc & Hty). unfold add_group.
  case_decide; cycle 1.
  { exists t. by rewrite app_nil_r. }
  rewrite wr_in, outcome_bind_ret by (unfold TOKEN_MAX_GROUPS in *; lia).
  eexists. split; [done |]. split_and!; try done.
  - unfold token_wf. cbn. rewrite length_insert. split_and!; try done.
    by apply Forall_insert.
  - unfold active_groups. cbn. by rewrite take_insert_snoc by (rewrite Hgl; lia).
Qed.

Lemma add_privilege_spec t p :
  token_wf t ->
  exists t', add_privilege t p = Ret t' /\ token_wf t' /\ user t' = user t /\
    active_groups t' = active_groups t /\
    active_privileges t' = active_privileges t ++
      (if decide (privilege_count t < TOKEN_MAX_PRIVILEGES)%nat then [p] else []).
Proof.
  intros Hwf. pose proof Hwf as (Hu & Hgl & Hpl & Hgc & Hpc & Hty). unfold add_privilege.
  case_decide; cycle 1.
  { exists t. by rewrite app_nil_r. }
  rewrite wr_in, outcome_bind_ret by (unfold TOKEN_MAX_PRIVILEGES in *; lia).
  eexists. split; [done |]. split_and!; try done.
  - unfold token_wf. cbn. rewrite length_insert. by split_and!.
  - unfold active_privileges. cbn. by rewrite take_insert_snoc by (rewrite Hpl; lia).
Qed.

(** Whether the token holds the privilege, enabled. *)
Definition holds (t : Token) (l : luid) : bool :=
  existsb (fun p => luid_equals (privilege_luid p) l && privilege_is_enabled p)
    (active_privileges t).

Lemma has_privilege_spec t l : token_wf t -> has_privilege t l = Ret (holds t l).
Proof.
  intros (_ & _ & Hpl & _ & Hpc & _). unfold has_privilege. rewrite any_loop_take; [done |].
  by rewrite Hpl.
Qed.

Lemma new_wf : token_wf new.
Proof.
  unfold token_wf. split_and!; try done; [| cbn; lia | cbn; lia |].
  - unfold Sid.sid_ty. split_and!; try done; repeat constructor; done.
  - apply Forall_replicate. split; [| done].
    unfold Sid.sid_ty. split_and!; try done; repeat constructor; done.
Qed.

Lemma new_primary_wf s : Sid.sid_ty s -> token_wf (new_primary s).
Proof. intros Hs. destruct new_wf as (_ & ?). by split. Qed.

(** ** Properties *)

(** The fixed tables of a token are bounded lists. Adding a group or a privilege
    never writes out of range, keeps the table invariant, appends the entry while
    fewer than sixteen are stored and drops it silently after that; the privilege
    query sees exactly the stored, enabled entries. *)
Theorem token_tables (t : Token) (g : TokenGroup) (p : TokenPrivilege) (l : luid)
    (Hwf : token_wf t) (Hg : Sid.sid_ty (group_sid g)) (Ha : u_ty 32 (group_attributes g)) :
  (exists t', add_group t g = Ret t' /\ token_wf t' /\
     active_privileges t' = active_privileges t /\
     active_groups t' = active_groups t ++
       (if decide (group_count t < TOKEN_MAX_GROUPS)%nat then [g] else [])) /\
  (exists t', add_privilege t p = Ret t' /\ token_wf t' /\
     active_groups t' = active_groups t /\
     active_privileges t' = active_privileges t ++
       (if decide (privilege_count t < TOKEN_MAX_PRIVILEGES)%nat then [p] else []) /\
     has_privilege t' l = Ret (holds t' l)) /\
  has_privilege t l = Ret (holds t l).
Proof.
  split_and!.
  - destruct (add_group_spec t g Hwf Hg Ha) as (t' & ? & ? & _ & ? & ?). eauto 10.
  - destruct (add_privilege_spec t p Hwf) as (t' & ? & ? & _ & ? & ?).
    exists t'. auto 10 using has_privilege_spec.
  - by apply has_privilege_spec.
Qed.

Lemma token_tables_witness :
  (exists t', add_group (new_primary (Sid.well_known Sid.Users))
       (mk_group (Sid.well_known Sid.Administrators) 4) = Ret t' /\ token_wf t') /\
  has_privilege (new_primary (Sid.well_known Sid.Users)) (mk_luid 9 0) =
    Ret (holds (new_primary (Sid.well_known Sid.Users)) (mk_luid 9 0)).
Proof.
  assert (forall n, Sid.sid_ty (Sid.well_known n)) as Hty.
  { intros n. unfold Sid.sid_ty.
    destruct n; split_and!; try done; repeat constructor; done. }
  destruct (token_tables (new_primary (Sid.well_known Sid.Users))
    (mk_group (Sid.well_known Sid.Administrators) 4) (mk_privilege (mk_luid 9 0) 2)
    (mk_luid 9 0)) as ((t' & ? & ? & _) & _ & ?).
  - apply new_primary_wf, Hty.
  - apply Hty.
  - done.
  - split; [exists t'; split; assumption | assumption].
Defined.

(** A LUID survives the trip through its two halves, including the sign of the
    high one. *)
Theorem luid_roundtrip (v : Z) (Hv : u_ty 64 v) : luid_to_u64 (luid_from_u64 v) = v.
Proof.
  unfold u_ty in Hv. unfold luid_to_u64, luid_from_u64. cbn [low_part high_part].
  change 0xFFFFFFFF with (Z.ones 32). rewrite Z.land_ones, Z.shiftr_div_pow2 by lia.
  assert (0 <= v / 2 ^ 32 < 2 ^ 32)
    by (split; [apply Z.div_pos; lia | apply Z.div_lt_upper_bound; lia]).
  pose proof (Z.mod_pos_bound v (2 ^ 32)). pose proof (Z.div_mod v (2 ^ 32)).
  assert (wrap 64 (Z.shiftl (wrap 64 (to_signed 32 (v / 2 ^ 32))) 32) = v / 2 ^ 32 * 2 ^ 32) as ->.
  { rewrite Z.shiftl_mul_pow2 by lia. unfold to_signed. rewrite (wrap_small 32 (v / 2 ^ 32)) by done.
    destruct (Z.ltb_spec (v / 2 ^ 32) (2 ^ (32 - 1))); unfold wrap.
    - rewrite (Z.mod_small (v / 2 ^ 32) (2 ^ 64)), Z.mod_small by lia. done.
    - rewrite <- (Z.mod_add (v / 2 ^ 32 - 2 ^ 32) 1 (2 ^ 64)) by lia.
      rewrite (Z.mod_small (v / 2 ^ 32 - 2 ^ 32 + 1 * 2 ^ 64)) by lia.
      replace ((v / 2 ^ 32 - 2 ^ 32 + 1 * 2 ^ 64) * 2 ^ 32)
        with (v / 2 ^ 32 * 2 ^ 32 + (2 ^ 32 - 1) * 2 ^ 64) by lia.
      rewrite Z.mod_add, Z.mod_small by lia. done. }
  rewrite (wrap_small 32) by (unfold u_ty; lia).
  rewrite lor_mul_add by (unfold u_ty; lia). lia.
Qed.

Lemma luid_roundtrip_witness : luid_to_u64 (luid_from_u64 0xFFFFFFFE00000011) = 0xFFFFFFFE00000011.
Proof. apply (luid_roundtrip 0xFFFFFFFE00000011). unfold u_ty; lia. Defined.

End Token.
