(* ===== verification/Rights.v ===== *)
(** * Access rights, generic mappings and descriptors
      ([src/nt61/src/se/seaccess.rs], data part)

    The access-mask constants, the generic-to-specific mapping of every object type,
    and the kernel's security descriptor. *)

From S2P Require Import Prelude Sid Acl.
Import Sid(sid).

Module Rights.

Definition ACCESS_GENERIC_READ : Z := 0x80000000.
Definition ACCESS_GENERIC_WRITE : Z := 0x40000000.
Definition ACCESS_GENERIC_EXECUTE : Z := 0x20000000.
Definition ACCESS_GENERIC_ALL : Z := 0x10000000.
Definition ACCESS_MAXIMUM_ALLOWED : Z := 0x02000000.
Definition ACCESS_SYSTEM_SECURITY : Z := 0x01000000.
Definition ACCESS_DELETE : Z := 0x00010000.
Definition ACCESS_READ_CONTROL : Z := 0x00020000.
Definition ACCESS_WRITE_DAC : Z := 0x00040000.
Definition ACCESS_WRITE_OWNER : Z := 0x00080000.
Definition ACCESS_SYNCHRONIZE : Z := 0x00100000.
Definition ACCESS_STANDARD_RIGHTS_READ : Z := ACCESS_READ_CONTROL.
Definition ACCESS_STANDARD_RIGHTS_WRITE : Z := ACCESS_READ_CONTROL.
Definition ACCESS_STANDARD_RIGHTS_EXECUTE : Z := ACCESS_READ_CONTROL.

Definition PROCESS_QUERY_INFORMATION : Z := 0x0400.
Definition PROCESS_QUERY_LIMITED_INFORMATION : Z := 0x1000.
Definition PROCESS_CREATE_PROCESS : Z := 0x0080.
Definition PROCESS_CREATE_THREAD : Z := 0x0002.
Definition PROCESS_DUP_HANDLE : Z := 0x0040.
Definition PROCESS_VM_OPERATION : Z := 0x0008.
Definition PROCESS_VM_READ : Z := 0x0010.
Definition PROCESS_VM_WRITE : Z := 0x0020.
Definition PROCESS_ALL_ACCESS : Z := 0x1F0FFF.

Definition THREAD_QUERY_INFORMATION : Z := 0x0400.
Definition THREAD_QUERY_LIMITED_INFORMATION : Z := 0x0800.
Definition THREAD_GET_CONTEXT : Z := 0x0008.
Definition THREAD_SET_CONTEXT : Z := 0x0010.
Definition THREAD_SET_INFORMATION : Z := 0x0020.
Definition THREAD_ALL_ACCESS : Z := 0x1F03FF.

Definition DIRECTORY_QUERY : Z := 0x0001.
Definition DIRECTORY_TRAVERSE : Z := 0x0008.
Definition DIRECTORY_CREATE_SUBDIRECTORY : Z := 0x0004.
Definition DIRECTORY_ADD_FILE : Z := 0x0002.
Definition DIRECTORY_ALL_ACCESS : Z := 0x000F.

Definition EVENT_QUERY_STATE : Z := 0x0001.
Definition EVENT_MODIFY_STATE : Z := 0x0002.
Definition EVENT_ALL_ACCESS : Z := 0x001F.
Definition SEMAPHORE_QUERY_STATE : Z := 0x0001.
Definition SEMAPHORE_MODIFY_STATE : Z := 0x0002.
Definition SEMAPHORE_ALL_ACCESS : Z := 0x001F.
Definition MUTANT_QUERY_STATE : Z := 0x0001.
Definition MUTANT_ALL_ACCESS : Z := 0x001F.
Definition SECTION_MAP_READ : Z := 0x0004.
Definition SECTION_MAP_WRITE : Z := 0x0002.
Definition SECTION_MAP_EXECUTE : Z := 0x0008.
Definition SECTION_QUERY : Z := 0x0001.
Definition SECTION_ALL_ACCESS : Z := 0x000F.
Definition TOKEN_QUERY : Z := 0x0008.
Definition TOKEN_ADJUST_PRIVILEGES : Z := 0x0020.
Definition TOKEN_ADJUST_GROUPS : Z := 0x0040.
Definition TOKEN_ALL_ACCESS : Z := 0x00F07FF.

Record GenericMapping := mk_mapping {
  generic_read : Z;
  generic_write : Z;
  generic_execute : Z;
  generic_all : Z;
}.

(** [map_generic]: the four tests run in sequence, each on the updated mask. *)
Definition map_generic (gm : GenericMapping) (access : Z) : Z :=
  let step access right mapped :=
    if has_bits access right then Z.lor (Z.land access (wnot 32 right)) mapped else access in
  let access := step access ACCESS_GENERIC_READ (generic_read gm) in
  let access := step access ACCESS_GENERIC_WRITE (generic_write gm) in
  let access := step access ACCESS_GENERIC_EXECUTE (generic_execute gm) in
  step access ACCESS_GENERIC_ALL (generic_all gm).

Definition any_of (l : list Z) : Z := foldl Z.lor 0 l.

Definition FILE_GENERIC_MAPPING : GenericMapping :=
  mk_mapping (any_of [ACCESS_STANDARD_RIGHTS_READ; 0x0001; 0x0002; 0x0004; 0x0008; 0x0010])
    (any_of [ACCESS_STANDARD_RIGHTS_WRITE; 0x0010; 0x0020; ACCESS_DELETE])
    (any_of [ACCESS_STANDARD_RIGHTS_EXECUTE; 0x0020])
    (any_of [ACCESS_DELETE; ACCESS_READ_CONTROL; ACCESS_WRITE_DAC; ACCESS_WRITE_OWNER; 0x01FF]).

Definition REGISTRY_GENERIC_MAPPING : GenericMapping :=
  mk_mapping (any_of [0x00020000; 0x0001; 0x0002; 0x0004; 0x0008; 0x0010])
    (any_of [0x00020000; 0x0002; 0x0004; 0x0010; 0x0020])
    (any_of [0x00020000; 0x0004; 0x0008])
    0xF003F.

Definition PROCESS_GENERIC_MAPPING : GenericMapping :=
  mk_mapping (any_of [PROCESS_QUERY_INFORMATION; PROCESS_VM_READ])
    (any_of [PROCESS_CREATE_PROCESS; PROCESS_CREATE_THREAD; PROCESS_DUP_HANDLE])
    PROCESS_QUERY_LIMITED_INFORMATION PROCESS_ALL_ACCESS.

Definition THREAD_GENERIC_MAPPING : GenericMapping :=
  mk_mapping (any_of [THREAD_QUERY_INFORMATION; THREAD_GET_CONTEXT])
    (any_of [THREAD_SET_INFORMATION; THREAD_SET_CONTEXT])
    THREAD_QUERY_LIMITED_INFORMATION THREAD_ALL_ACCESS.

Definition DIRECTORY_GENERIC_MAPPING : GenericMapping :=
  mk_mapping (any_of [DIRECTORY_QUERY; DIRECTORY_TRAVERSE])
    (any_of [DIRECTORY_CREATE_SUBDIRECTORY; DIRECTORY_ADD_FILE])
    (any_of [DIRECTORY_QUERY; DIRECTORY_TRAVERSE]) DIRECTORY_ALL_ACCESS.

Definition EVENT_GENERIC_MAPPING : GenericMapping :=
  mk_mapping EVENT_QUERY_STATE EVENT_MODIFY_STATE EVENT_QUERY_STATE EVENT_ALL_ACCESS.

Definition SEMAPHORE_GENERIC_MAPPING : GenericMapping :=
  mk_mapping SEMAPHORE_QUERY_STATE SEMAPHORE_MODIFY_STATE SEMAPHORE_QUERY_STATE
    SEMAPHORE_ALL_ACCESS.

Definition MUTANT_GENERIC_MAPPING : GenericMapping :=
  mk_mapping MUTANT_QUERY_STATE MUTANT_QUERY_STATE MUTANT_QUERY_STATE MUTANT_ALL_ACCESS.

Definition SECTION_GENERIC_MAPPING : GenericMapping :=
  mk_mapping (any_of [SECTION_MAP_READ; SECTION_QUERY])
    (any_of [SECTION_MAP_WRITE; SECTION_MAP_EXECUTE]) SECTION_MAP_EXECUTE SECTION_ALL_ACCESS.

Definition TOKEN_GENERIC_MAPPING : GenericMapping :=
  mk_mapping TOKEN_QUERY (any_of [TOKEN_ADJUST_PRIVILEGES; TOKEN_ADJUST_GROUPS]) TOKEN_QUERY
    TOKEN_ALL_ACCESS.

Definition DEFAULT_MAPPING : GenericMapping :=
  mk_mapping ACCESS_READ_CONTROL ACCESS_WRITE_DAC ACCESS_READ_CONTROL
    (any_of [ACCESS_READ_CONTROL; ACCESS_WRITE_DAC; ACCESS_WRITE_OWNER; ACCESS_DELETE]).

Inductive ObTypeIndex :=
| ObNull | ObProcess | ObThread | ObDirectory | ObSymbolicLink | ObToken | ObProcessToken
| ObThreadToken | ObEvent | ObEventPair | ObMutant | ObCallback | ObSection | ObAlias
| ObWindowStation | ObDesktop | ObType | ObObjectDirectory | ObKey | ObFile | ObSemaphore.

(** [ObTypeIndex::from_u8]: unknown indices are [ObNull]. *)
Definition ob_type_from_u8 (value : Z) : ObTypeIndex :=
  nth (Z.to_nat value)
    [ObNull; ObProcess; ObThread; ObDirectory; ObSymbolicLink; ObToken; ObProcessToken;
     ObThreadToken; ObEvent; ObEventPair; ObMutant; ObCallback; ObSection; ObAlias;
     ObWindowStation; ObDesktop; ObType; ObObjectDirectory; ObKey; ObFile; ObSemaphore]
    ObNull.

Definition get_generic_mapping_for_type (object_type : ObTypeIndex) : GenericMapping :=
  match object_type with
  | ObProcess => PROCESS_GENERIC_MAPPING
  | ObThread => THREAD_GENERIC_MAPPING
  | ObFile => FILE_GENERIC_MAPPING
  | ObKey => REGISTRY_GENERIC_MAPPING
  | ObDirectory | ObObjectDirectory => DIRECTORY_GENERIC_MAPPING
  | ObEvent => EVENT_GENERIC_MAPPING
  | ObSemaphore => SEMAPHORE_GENERIC_MAPPING
  | ObMutant => MUTANT_GENERIC_MAPPING
  | ObSection => SECTION_GENERIC_MAPPING
  | ObToken => TOKEN_GENERIC_MAPPING
  | _ => DEFAULT_MAPPING
  end.

(** [SecurityDescriptor]; a null ACL pointer is [None]. *)
Record SecurityDescriptor := mk_sd {
  sd_revision : Z;
  sd_sbz1 : Z;
  control : Z;
  owner : sid;
  group : sid;
  sacl : option Acl.Acl;
  dacl : option Acl.Acl;
}.

Definition SE_DACL_PRESENT : Z := 0x0004.
Definition SE_SACL_PRESENT : Z := 0x0010.

(** [SecurityDescriptor::is_valid]. *)
Definition sd_is_valid (sd : SecurityDescriptor) : outcome bool :=
  if negb (sd_revision sd =? 1) then Ret false else
  let acl_ok flag (p : option Acl.Acl) :=
    if has_bits (control sd) flag
    then match p with None => Ret true | Some a => Acl.is_valid a end
    else Ret true in
  d ← acl_ok SE_DACL_PRESENT (dacl sd);
  if negb d then Ret false else
  s ← acl_ok SE_SACL_PRESENT (sacl sd);
  if negb s then Ret false else Ret true.

(** ** Facts about the mappings *)

Lemma map_generic_step_ty access right mapped :
  u_ty 32 access -> u_ty 32 right -> u_ty 32 mapped ->
  u_ty 32 (if has_bits access right then Z.lor (Z.land access (wnot 32 right)) mapped else access).
Proof.
  intros Ha Hr Hm. destruct (has_bits _ _); [| done].
  assert (0 <= right) by apply Hr. pose proof (u_ty_wnot 32 right ltac:(lia) ltac:(done)) as Hn.
  apply u_ty_lor; [lia | apply u_ty_land; [lia | done | apply Hn] | done].
Qed.

Definition mapping_ty (gm : GenericMapping) : Prop :=
  u_ty 32 (generic_read gm) /\ u_ty 32 (generic_write gm) /\
  u_ty 32 (generic_execute gm) /\ u_ty 32 (generic_all gm).

Lemma map_generic_ty gm access : mapping_ty gm -> u_ty 32 access -> u_ty 32 (map_generic gm access).
Proof.
  intros (? & ? & ? & ?) Ha. unfold map_generic. cbv zeta.
  repeat (apply map_generic_step_ty; try done).
Qed.

Lemma mapping_for_type_ty ty : mapping_ty (get_generic_mapping_for_type ty).
Proof. destruct ty; done. Qed.

End Rights.
