(* ===== verification/Integrity.v ===== *)
(** * Mandatory integrity control ([src/nt61/src/se/integrity.rs])

    The integrity label of tokens and objects and the no-write-up check.  A raw
    pointer argument is [None] when null; the outcome of a pool allocation is a
    boolean argument. *)

From S2P Require Import Prelude Sid Acl Token Rights.
Import Sid(sid).
Import Token(Token).

Module Integrity.

Definition SECURITY_MANDATORY_UNTRUSTED_RID : Z := 0x0000.
Definition SECURITY_MANDATORY_LOW_RID : Z := 0x1000.
Definition SECURITY_MANDATORY_MEDIUM_RID : Z := 0x2000.
Definition SECURITY_MANDATORY_MEDIUM_PLUS_RID : Z := 0x2100.
Definition SECURITY_MANDATORY_HIGH_RID : Z := 0x3000.
Definition SECURITY_MANDATORY_SYSTEM_RID : Z := 0x4000.
Definition SECURITY_MANDATORY_PROTECTED_PROCESS_RID : Z := 0x5000.
Definition SYSTEM_MANDATORY_LABEL_NO_WRITE_UP : Z := 0x1.

Definition create_integrity_level_sid (level_rid : Z) : sid :=
  Sid.with_authority_and_subs_arr [0; 0; 0; 0; 0; 16] 1 level_rid 0 0 0 0 0 0 0.

Definition se_token_integrity_level (token : option Token) : Z :=
  match token with
  | None => SECURITY_MANDATORY_MEDIUM_RID
  | Some t => Token.integrity_level_rid t
  end.

(** The group entry that carries an integrity label. *)
Definition label_group (level_rid : Z) : Token.TokenGroup :=
  Token.mk_group (create_integrity_level_sid level_rid)
    (Z.lor (Z.lor Token.SE_GROUP_INTEGRITY Token.SE_GROUP_INTEGRITY_ENABLED)
       Token.SE_GROUP_ENABLED).

(** [for i in i..i + n]: replace the first group whose authority is 16. *)
Fixpoint replace_label (gs : list Token.TokenGroup) (g : Token.TokenGroup) (i n : nat)
    : outcome (option (list Token.TokenGroup)) :=
  match n with
  | O => Ret None
  | S n =>
      x ← rd gs i;
      if Sid.identifier_authority (Token.group_sid x) =? 16 then
        gs ← wr gs i g; Ret (Some gs)
      else replace_label gs g (S i) n
  end.

Definition se_set_token_integrity_level (token : option Token) (level_rid : Z)
    : outcome (option Token * bool) :=
  match token with
  | None => Ret (None, false)
  | Some t =>
      let t := Token.set_integrity t level_rid in
      let g := label_group level_rid in
      found ← replace_label (Token.groups t) g 0 (Token.group_count t);
      match found with
      | Some gs => Ret (Some (Token.set_groups t gs (Token.group_count t)), true)
      | None => t ← Token.add_group t g; Ret (Some t, true)
      end
  end.

Definition WRITE_ACCESS_MASK : Z :=
  Rights.any_of [0x00000002; 0x00000004; 0x00000010; 0x00000100; 0x00010000;
    Rights.ACCESS_GENERIC_WRITE; Rights.ACCESS_WRITE_DAC; Rights.ACCESS_WRITE_OWNER].

Definition se_check_mandatory_integrity (subject_token : option Token)
    (object_integrity desired_access : Z) : bool :=
  match subject_token with
  | None => false
  | Some _ =>
      let subject_level := se_token_integrity_level subject_token in
      if has_bits desired_access WRITE_ACCESS_MASK && (subject_level <? object_integrity)
      then false else true
  end.

(** The label scan over the SACL. [None] is a [break] or the end of the loop. *)
Fixpoint label_loop (data : list Z) (limit n offset : nat) : outcome (option Z) :=
  match n with
  | O => Ret None
  | S n =>
      if decide (limit < offset + 4)%nat then Ret None else
      ace_type ← rd data offset;
      b2 ← rd data (offset + 2)%nat;
      b3 ← rd data (offset + 3)%nat;
      let ace_size := Z.to_nat (Z.lor b2 (Z.shiftl b3 8)) in
      if decide (ace_size < 16 \/ limit < offset + ace_size)%nat then Ret None else
      hit ← (if ace_type =? 0x11 then
               bytes ← slice data (offset + 8) (offset + ace_size);
               r ← Sid.from_bytes bytes;
               Ret (match r with
                    | Some s =>
                        if (Sid.identifier_authority s =? 16) && (1 <=? Sid.sub_authority_count s)
                        then Some (nth 0 (Sid.sub_authority s) 0) else None
                    | None => None
                    end)
             else Ret None);
      match hit with
      | Some level => Ret (Some level)
      | None => label_loop data limit n (offset + ace_size)
      end
  end.

Definition se_get_object_integrity_level (sd : option Rights.SecurityDescriptor) : outcome Z :=
  match sd with
  | None => Ret SECURITY_MANDATORY_MEDIUM_RID
  | Some sd =>
      match Rights.sacl sd with
      | None => Ret SECURITY_MANDATORY_MEDIUM_RID
      | Some sacl =>
          used ← Acl.used_size sacl;
          match used with
          | None => Ret SECURITY_MANDATORY_MEDIUM_RID
          | Some limit =>
              r ← label_loop (Acl.data sacl) limit (Z.to_nat (Acl.ace_count sacl)) 8;
              Ret (match r with Some level => level | None => SECURITY_MANDATORY_MEDIUM_RID end)
          end
      end
  end.

(** [alloc_ok]: whether the pool allocation of the new SACL succeeds. *)
Definition se_set_object_integrity_level (alloc_ok : bool)
    (sd : option Rights.SecurityDescriptor) (level_rid policy : Z)
    : outcome (option Rights.SecurityDescriptor * bool) :=
  match sd with
  | None => Ret (None, false)
  | Some d =>
      let label_sid := Sid.with_subs [0; 0; 0; 0; 0; 16] level_rid 0 0 0 0 0 0 0 in
      r ← Acl.add_ace Acl.new Acl.SystemMandatoryLabel Acl.FLAGS_NONE policy label_sid;
      let '(sacl, ok) := r in
      if negb ok then Ret (sd, false)
      else if negb alloc_ok then Ret (sd, false)
      else Ret (Some (Rights.mk_sd (Rights.sd_revision d) (Rights.sd_sbz1 d)
                        (Z.lor (Rights.control d) Rights.SE_SACL_PRESENT)
                        (Rights.owner d) (Rights.group d) (Some sacl) (Rights.dacl d)), true)
  end.

Inductive IntegrityComparison := Lower | Equal | Higher.

Definition compare_integrity_levels (level1 level2 : Z) : IntegrityComparison :=
  if level1 <? level2 then Lower else if level2 <? level1 then Higher else Equal.

Definition se_token_is_low_integrity (token : option Token) : bool :=
  se_token_integrity_level token <=? SECURITY_MANDATORY_LOW_RID.

Definition se_token_is_elevated (token : option Token) : bool :=
  SECURITY_MANDATORY_HIGH_RID <=? se_token_integrity_level token.

Definition se_lower_token_integrity (token : option Token) (new_level : Z)
    : outcome (option Token * bool) :=
  let current_level := se_token_integrity_level token in
  if current_level <=? new_level then Ret (token, false)
  else se_set_token_integrity_level token new_level.

Definition se_integrity_access_check (subject_token : option Token)
    (object_sd : option Rights.SecurityDescriptor) (desired_access : Z) : outcome bool :=
  object_integrity ← se_get_object_integrity_level object_sd;
  Ret (se_check_mandatory_integrity subject_token object_integrity desired_access).

(** ** Lemmas *)

Definition label_sid (level : Z) : sid :=
  Sid.with_subs [0; 0; 0; 0; 0; 16] level 0 0 0 0 0 0 0.

Lemma label_sid_ty level : u_ty 32 level -> Sid.sid_ty (label_sid level).
Proof.
  intros H. unfold Sid.sid_ty. split_and!; try done.
  - repeat constructor; done.
  - cbn. rewrite !Forall_cons. split_and!; done.
Qed.

Lemma label_authority level : Sid.identifier_authority (label_sid level) = 16.
Proof. done. Qed.

Lemma replace_label_spec gs g i n :
  (i + n <= length gs)%nat ->
  replace_label gs g i n =
  Ret (match list_find (fun x => Sid.identifier_authority (Token.group_sid x) = 16)
               (take n (drop i gs)) with
       | Some (k, _) => Some (<[(i + k)%nat := g]> gs)
       | None => None
       end).
Proof.
  revert i. induction n as [|n IH]; intros i Hin; cbn [replace_label]; [by rewrite take_0 |].
  destruct (lookup_lt_is_Some_2 gs i) as [x Hx]; [lia |].
  rewrite (rd_lookup _ _ _ Hx), outcome_bind_ret, (drop_S _ _ _ Hx).
  cbn [take firstn list_find]. destruct (Z.eqb_spec (Sid.identifier_authority (Token.group_sid x)) 16).
  - rewrite decide_True, wr_in, outcome_bind_ret, Nat.add_0_r by (done || lia). done.
  - rewrite decide_False, IH by (done || lia). destruct (list_find _ _) as [[k y]|]; [| done].
    cbn. by replace (S (i + k))%nat with (i + S k)%nat by lia.
Qed.

(** The scan finds the label written as the first entry. *)
Lemma label_loop_hit P level policy flags rest n limit
    (e := Acl.mk_ace Acl.SystemMandatoryLabel flags policy (label_sid level)) :
  Acl.ace_ok e -> limit = (length P + Acl.ace_len e)%nat ->
  label_loop (P ++ Acl.ace_bytes e ++ rest) limit (S n) (length P) = Ret (Some level).
Proof.
  intros He Hlim. cbn [label_loop].
  destruct (Acl.ace_fields e rest) as (H0 & (b2 & b3 & H2 & H3 & Hb2 & Hn) & _).
  destruct (Acl.ace_sid_field P e rest He) as [Hslice Hsid].
  assert (Acl.ace_len e = 20)%nat as Hl by done.
  rewrite decide_False by lia. rewrite !rd_app, (rd_app_0 P) by done.
  rewrite H0, H2, H3, !outcome_bind_ret, lor_le16, Hn, Nat2Z.id by done.
  rewrite decide_False by lia. cbn [Acl.entry_type Acl.ace_type_u8 e Z.eqb Pos.eqb].
  fold e. rewrite Hslice, outcome_bind_ret, Hsid. done.
Qed.

Lemma set_object_label sd level policy :
  u_ty 32 level -> u_ty 32 policy ->
  exists sacl, se_set_object_integrity_level true (Some sd) level policy =
    Ret (Some (Rights.mk_sd (Rights.sd_revision sd) (Rights.sd_sbz1 sd)
           (Z.lor (Rights.control sd) Rights.SE_SACL_PRESENT)
           (Rights.owner sd) (Rights.group sd) (Some sacl) (Rights.dacl sd)), true) /\
    Acl.acl_repr sacl
      [Acl.mk_ace Acl.SystemMandatoryLabel Acl.FLAGS_NONE policy (label_sid level)].
Proof.
  intros Hl Hp.
  pose proof (Acl.add_ace_spec Acl.new [] Acl.SystemMandatoryLabel Acl.FLAGS_NONE policy
    (label_sid level) Acl.new_repr ltac:(done) Hp (label_sid_ty level Hl)) as H.
  match type of H with if ?c then _ else _ => change c with true in H end.
  destruct H as (a' & Hadd & Hrepr). exists a'. split; [| done].
  unfold se_set_object_integrity_level. fold (label_sid level). by rewrite Hadd.
Qed.

(** Whatever the allocation does, the call returns and leaves owner and DACL alone. *)
Lemma set_object_frame alloc_ok sd level policy :
  u_ty 32 level -> u_ty 32 policy ->
  exists sd' b, se_set_object_integrity_level alloc_ok (Some sd) level policy = Ret (Some sd', b) /\
    Rights.owner sd' = Rights.owner sd /\ Rights.dacl sd' = Rights.dacl sd.
Proof.
  intros Hl Hp. destruct (set_object_label sd level policy Hl Hp) as (sacl & Hset & _).
  unfold se_set_object_integrity_level in *.
  destruct (Acl.add_ace _ _ _ _ _) as [[a ok] | |]; try done.
  rewrite outcome_bind_ret in *. destruct ok, alloc_ok; try done; eauto 10.
Qed.

Lemma get_object_label sd sacl level policy :
  Rights.sacl sd = Some sacl ->
  Acl.acl_repr sacl
    [Acl.mk_ace Acl.SystemMandatoryLabel Acl.FLAGS_NONE policy (label_sid level)] ->
  se_get_object_integrity_level (Some sd) = Ret level.
Proof.
  intros Hs Hrepr. unfold se_get_object_integrity_level. rewrite Hs.
  rewrite (Acl.used_size_repr _ _ Hrepr), outcome_bind_ret.
  destruct Hrepr as (_ & _ & Hcnt & _ & _ & _ & Hok & pre & rest & Hpre & Hdata).
  apply Forall_cons in Hok as [Hok _]. rewrite Hcnt, Hdata. cbn [length]. rewrite Nat2Z.id, <- Hpre.
  unfold Acl.aces_bytes. cbn [map concat]. rewrite app_nil_r.
  rewrite label_loop_hit; [done | exact Hok |]. rewrite Acl.length_ace_bytes; [done | apply Hok].
Qed.

Lemma label_group_ok level :
  u_ty 32 level -> Sid.sid_ty (Token.group_sid (label_group level)) /\
    u_ty 32 (Token.group_attributes (label_group level)).
Proof. intros H. split; [apply (label_sid_ty level H) | done]. Qed.

(** The groups of a token after its label was set. *)
Definition relabelled (t : Token) (level : Z) : list Token.TokenGroup :=
  match list_find (fun x => Sid.identifier_authority (Token.group_sid x) = 16)
          (Token.active_groups t) with
  | Some (k, _) => <[k := label_group level]> (Token.active_groups t)
  | None => Token.active_groups t ++
      (if decide (Token.group_count t < Token.TOKEN_MAX_GROUPS)%nat
       then [label_group level] else [])
  end.

Lemma set_token_label t level :
  Token.token_wf t -> u_ty 32 level ->
  exists t', se_set_token_integrity_level (Some t) level = Ret (Some t', true) /\
    Token.token_wf t' /\ Token.integrity_level_rid t' = level /\ Token.user t' = Token.user t /\
    Token.active_privileges t' = Token.active_privileges t /\
    Token.active_groups t' = relabelled t level.
Proof.
  intros Hwf Hl. destruct (label_group_ok level Hl) as [Hg Ha].
  pose proof Hwf as (Hu & Hgl & Hpl & Hgc & Hpc & Hty).
  set (t1 := Token.set_integrity t level). assert (Token.token_wf t1) as Hwf1 by done.
  unfold se_set_token_integrity_level. fold t1.
  change (Token.groups t1) with (Token.groups t).
  change (Token.group_count t1) with (Token.group_count t).
  rewrite replace_label_spec, drop_0, outcome_bind_ret by (rewrite Hgl; lia).
  unfold relabelled. fold (Token.active_groups t).
  destruct (list_find _ _) as [[k x]|] eqn:E.
  - apply list_find_Some in E as (Hk & _). unfold Token.active_groups in Hk.
    apply lookup_take_Some in Hk as [Hk Hlt].
    eexists. split; [done |]. cbn. split_and!; try done.
    + unfold Token.token_wf. cbn. rewrite length_insert. split_and!; try done.
      by apply Forall_insert.
    + unfold Token.active_groups. cbn. by rewrite take_insert_lt by lia.
  - destruct (Token.add_group_spec t1 (label_group level) Hwf1 Hg Ha)
      as (t' & Hadd & Hwf' & Hu' & Hp' & Hg').
    exists t'. rewrite Hadd. split_and!; try done.
    unfold Token.add_group in Hadd. case_decide; [| by simplify_eq].
    rewrite wr_in, outcome_bind_ret in Hadd
      by (change (length (Token.groups t1)) with (length (Token.groups t)); by rewrite Hgl).
    by simplify_eq.
Qed.

(** ** Properties *)

(** An object label reads back. When the SACL allocation succeeds, setting the
    integrity level of a descriptor succeeds, and the level then reported is the one
    that was set; owner, group and DACL are untouched. *)
Theorem object_label_roundtrip (sd : Rights.SecurityDescriptor) (level policy : Z)
    (Hl : u_ty 32 level) (Hp : u_ty 32 policy) :
  exists sd', se_set_object_integrity_level true (Some sd) level policy = Ret (Some sd', true) /\
    se_get_object_integrity_level (Some sd') = Ret level /\
    Rights.owner sd' = Rights.owner sd /\ Rights.group sd' = Rights.group sd /\
    Rights.dacl sd' = Rights.dacl sd.
Proof.
  destruct (set_object_label sd level policy Hl Hp) as (sacl & Hset & Hrepr).
  eexists. split; [exact Hset |]. split_and!; try done.
  by apply (get_object_label _ sacl level policy).
Qed.

Lemma object_label_roundtrip_witness :
  exists sd', se_set_object_integrity_level true
      (Some (Rights.mk_sd 1 0 4 Sid.new Sid.new None None)) 0x3000 1 = Ret (Some sd', true) /\
    se_get_object_integrity_level (Some sd') = Ret 0x3000.
Proof.
  destruct (object_label_roundtrip (Rights.mk_sd 1 0 4 Sid.new Sid.new None None) 0x3000 1)
    as (sd' & H1 & H2 & _); [done | done |].
  exists sd'. split; assumption.
Defined.

(** Lowering a token's integrity never raises it. The call succeeds exactly for a
    strictly lower level; then the token carries the new level, its label group is
    replaced in place (or appended while there is room) and its user and privileges
    stay; otherwise the token is unchanged. *)
Theorem lower_token_integrity (t : Token) (new_level : Z)
    (Hwf : Token.token_wf t) (Hl : u_ty 32 new_level) :
  if new_level <? Token.integrity_level_rid t
  then exists t', se_lower_token_integrity (Some t) new_level = Ret (Some t', true) /\
         Token.token_wf t' /\ Token.integrity_level_rid t' = new_level /\
         Token.user t' = Token.user t /\
         Token.active_privileges t' = Token.active_privileges t /\
         Token.active_groups t' = relabelled t new_level
  else se_lower_token_integrity (Some t) new_level = Ret (Some t, false).
Proof.
  unfold se_lower_token_integrity. cbn [se_token_integrity_level].
  destruct (Z.ltb_spec new_level (Token.integrity_level_rid t)).
  - rewrite (proj2 (Z.leb_gt _ _)) by lia. by apply set_token_label.
  - by rewrite (proj2 (Z.leb_le _ _)) by lia.
Qed.

Lemma lower_token_integrity_witness :
  exists t', se_lower_token_integrity (Some Token.new) SECURITY_MANDATORY_LOW_RID =
      Ret (Some t', true) /\ Token.integrity_level_rid t' = SECURITY_MANDATORY_LOW_RID.
Proof.
  destruct (lower_token_integrity Token.new SECURITY_MANDATORY_LOW_RID Token.new_wf)
    as (t' & H1 & _ & H2 & _); [done |].
  exists t'. split; assumption.
Defined.

End Integrity.
