(* ===== verification/AccessCheck.v ===== *)
(** * The access check ([src/nt61/src/se/seaccess.rs])

    [check_access_with_granted] walks the raw bytes of a DACL; the theorems relate it
    to a specification on the list of entries those bytes encode.  [se_access_check]
    is the entry point with the integrity check and the default policy. *)

From S2P Require Import Prelude Sid Acl Token Rights Integrity.
Import Sid(sid).
Import Token(Token).
Import Rights.

Module AccessCheck.

Inductive AccessCheckResult := Allowed | Denied.

(** Privilege values ([seaccess::privileges]). *)
Definition SE_TAKE_OWNERSHIP : Z := 0x00000009.
Definition SE_SECURITY : Z := 0x00000008.
Definition SE_BACKUP : Z := 0x00000011.
Definition SE_RESTORE : Z := 0x00000012.
Definition SE_DEBUG : Z := 0x00000014.

(** User SID or a group that is not deny-only. *)
Definition sid_matches_token (s : sid) (t : Token) : outcome bool :=
  if Sid.equals s (Token.user t) then Ret true else
  any_loop (fun g => if has_bits (Token.group_attributes g) Token.SE_GROUP_USE_FOR_DENY_ONLY
                     then false else Sid.equals s (Token.group_sid g))
    (Token.groups t) 0 (Token.group_count t).

(** User SID or any group, deny-only ones included. *)
Definition sid_in_token (s : sid) (t : Token) : outcome bool :=
  if Sid.equals s (Token.user t) then Ret true else
  any_loop (fun g => Sid.equals s (Token.group_sid g)) (Token.groups t) 0 (Token.group_count t).

Definition PRIVILEGE_ACCESS_GRANTS : list (Z * Z) :=
  [(SE_TAKE_OWNERSHIP, ACCESS_WRITE_OWNER); (SE_SECURITY, ACCESS_SYSTEM_SECURITY);
   (SE_BACKUP, ACCESS_READ_CONTROL); (SE_RESTORE, ACCESS_WRITE_DAC)].

Fixpoint privilege_loop (table : list (Z * Z)) (desired_access : Z) (t : Token)
    (privilege_grants : Z) : outcome Z :=
  match table with
  | [] => Ret privilege_grants
  | (privilege_value, access_bit) :: table =>
      if Z.land desired_access access_bit =? 0
      then privilege_loop table desired_access t privilege_grants
      else
        held ← Token.has_privilege t (Token.mk_luid privilege_value 0);
        privilege_loop table desired_access t
          (if (held : bool) then Z.lor privilege_grants access_bit else privilege_grants)
  end.

Definition SE_DEBUG_REQUIRED_ACCESS : Z :=
  any_of [PROCESS_VM_READ; PROCESS_VM_WRITE; PROCESS_VM_OPERATION].
Definition SE_DEBUG_ALLOWED_ACCESS : Z :=
  any_of [PROCESS_ALL_ACCESS; PROCESS_QUERY_INFORMATION; PROCESS_QUERY_LIMITED_INFORMATION;
          PROCESS_VM_READ; PROCESS_VM_WRITE; PROCESS_VM_OPERATION; PROCESS_DUP_HANDLE;
          PROCESS_CREATE_THREAD].

(** The access bits the token's privileges stand for in this request. *)
Definition privilege_grants (desired_access : Z) (t : Token) : outcome Z :=
  grants ← privilege_loop PRIVILEGE_ACCESS_GRANTS desired_access t 0;
  if has_bits desired_access SE_DEBUG_ALLOWED_ACCESS then
    held ← Token.has_privilege t (Token.mk_luid SE_DEBUG 0);
    Ret (if held && Token.is_admin t then Z.lor grants SE_DEBUG_REQUIRED_ACCESS else grants)
  else Ret grants.

Definition is_deny (t : Acl.AceType) : bool :=
  match t with
  | Acl.AccessDenied | Acl.AccessDeniedCallback | Acl.AccessDeniedCallbackObject => true
  | _ => false
  end.

Definition is_allow (t : Acl.AceType) : bool :=
  match t with
  | Acl.AccessAllowed | Acl.AccessAllowedCallback | Acl.AccessAllowedCallbackObject => true
  | _ => false
  end.

(** The [match ace_type] of the walk. *)
Definition apply_ace (ty : Acl.AceType) (s : sid) (mask : Z) (t : Token) (acc : Z * Z)
    : outcome (Z * Z) :=
  let '(granted, denied) := acc in
  if is_deny ty then
    m ← sid_in_token s t; Ret (if (m : bool) then (granted, Z.lor denied mask) else (granted, denied))
  else if is_allow ty then
    m ← sid_matches_token s t;
    Ret (if (m : bool) then (Z.lor granted mask, denied) else (granted, denied))
  else Ret (granted, denied).

(** [while offset + 4 <= walk_limit]; [None] is an early return of [(Denied, 0)]. *)
Fixpoint ace_walk (fuel : nat) (data : list Z) (walk_limit : nat) (t : Token) (offset : nat)
    (acc : Z * Z) : outcome (option (Z * Z)) :=
  match fuel with
  | O => OutOfFuel
  | S fuel =>
      if decide (walk_limit < offset + 4)%nat then Ret (Some acc) else
      ace_type ← rd data offset;
      b2 ← rd data (offset + 2)%nat;
      b3 ← rd data (offset + 3)%nat;
      let ace_size := Z.to_nat (Z.lor b2 (Z.shiftl b3 8)) in
      if decide (ace_size < 8 \/ walk_limit < offset + ace_size)%nat then Ret (Some acc) else
      b4 ← rd data (offset + 4)%nat;
      b5 ← rd data (offset + 5)%nat;
      b6 ← rd data (offset + 6)%nat;
      b7 ← rd data (offset + 7)%nat;
      let ace_mask := from_le [b4; b5; b6; b7] in
      if decide (ace_size < 16)%nat then Ret None else
      bytes ← slice data (offset + 8) (offset + ace_size);
      r ← Sid.from_bytes bytes;
      match r with
      | None => Ret None
      | Some s =>
          match Acl.from_u8 ace_type with
          | None => Ret None
          | Some ty =>
              acc ← apply_ace ty s ace_mask t acc;
              ace_walk fuel data walk_limit t (offset + ace_size) acc
          end
      end
  end.

(** The decision taken once the walk is over. *)
Definition conclude (maximum_allowed : bool) (desired_access maximum_access : Z)
    (granted_access denied_access privileged : Z) : AccessCheckResult * Z :=
  let granted_access := Z.land granted_access (wnot 32 denied_access) in
  let privileged := Z.land privileged (wnot 32 denied_access) in
  if has_bits desired_access denied_access then (Denied, 0) else
  let remaining :=
    Z.land (Z.land desired_access (wnot 32 granted_access)) (wnot 32 privileged) in
  if negb maximum_allowed && negb (remaining =? 0) then (Denied, 0) else
  let granted :=
    if maximum_allowed then Z.land (Z.lor granted_access privileged) maximum_access
    else Z.lor (Z.land granted_access desired_access) (Z.land privileged desired_access) in
  if maximum_allowed && (granted =? 0) then (Denied, 0) else (Allowed, granted).

Definition mapped_request (desired_access : Z) (gm : option GenericMapping) : Z :=
  let desired_access := Z.land desired_access (wnot 32 ACCESS_MAXIMUM_ALLOWED) in
  match gm with Some gm => map_generic gm desired_access | None => desired_access end.

Definition maximum_access (gm : option GenericMapping) : Z :=
  match gm with Some gm => generic_all gm | None => wnot 32 ACCESS_MAXIMUM_ALLOWED end.

Definition check_access_with_granted (desired_access : Z) (t : Token) (_owner : sid)
    (dacl : option Acl.Acl) (gm : option GenericMapping) : outcome (AccessCheckResult * Z) :=
  let maximum_allowed := has_bits desired_access ACCESS_MAXIMUM_ALLOWED in
  let desired_access := mapped_request desired_access gm in
  let maximum_access := maximum_access gm in
  match dacl with
  | None => Ret (Allowed, if maximum_allowed then maximum_access else desired_access)
  | Some acl =>
      privileged ← privilege_grants desired_access t;
      valid ← Acl.is_valid acl;
      if negb valid then Ret (Denied, 0) else
      let walk_limit := Z.to_nat (Acl.acl_size acl) in
      r ← ace_walk (S walk_limit) (Acl.data acl) walk_limit t 8 (0, 0);
      match r with
      | None => Ret (Denied, 0)
      | Some (granted_access, denied_access) =>
          Ret (conclude maximum_allowed desired_access maximum_access
                 granted_access denied_access privileged)
      end
  end.

Definition check_access (desired_access : Z) (t : Token) (owner : sid)
    (dacl : option Acl.Acl) (gm : option GenericMapping) : outcome AccessCheckResult :=
  r ← check_access_with_granted desired_access t owner dacl gm; Ret (fst r).

Definition check_mandatory_write_up (subject_level object_level _desired_access : Z) : bool :=
  object_level <=? subject_level.

(** ** The default policy *)

(** The outcome of the pool allocations of one call, and the stale pointer an
    uninitialised [sacl] field would hold. *)
Record Pool := mk_pool {
  sd_alloc : bool;
  dacl_alloc : bool;
  sacl_alloc : bool;
  stale_sacl : option Acl.Acl;
}.

(** [for group in token.groups.iter().take(token.group_count)]. *)
Fixpoint add_group_aces (acl : Acl.Acl) (gs : list Token.TokenGroup) : outcome Acl.Acl :=
  match gs with
  | [] => Ret acl
  | g :: gs =>
      if Token.group_is_enabled g then
        r ← Acl.add_access_allowed acl (Token.group_sid g)
              (Z.lor ACCESS_GENERIC_READ ACCESS_SYNCHRONIZE) Acl.CONTAINER_INHERIT;
        let '(acl, ok) := r in
        if negb ok then Ret acl else add_group_aces acl gs
      else add_group_aces acl gs
  end.

Definition OWNER_MASK : Z :=
  any_of [ACCESS_GENERIC_ALL; ACCESS_DELETE; ACCESS_READ_CONTROL; ACCESS_WRITE_DAC;
          ACCESS_WRITE_OWNER; ACCESS_SYNCHRONIZE].

(** [None] is a null pointer. *)
Definition build_dacl_from_token (pool : Pool) (t : Token) : outcome (option Acl.Acl) :=
  if negb (dacl_alloc pool) then Ret None else
  r ← Acl.add_access_allowed Acl.new (Token.user t) OWNER_MASK Acl.FLAGS_NONE;
  let '(acl, ok) := r in
  if negb ok then Ret None else
  r ← Acl.add_access_allowed acl (Sid.well_known Sid.LocalSystem) ACCESS_GENERIC_ALL
        Acl.FLAGS_NONE;
  let '(acl, ok) := r in
  if negb ok then Ret None else
  acl ← add_group_aces acl (take (Token.group_count t) (Token.groups t));
  Ret (Some acl).

Definition from_token (pool : Pool) (t : Token) : outcome (option SecurityDescriptor) :=
  if negb (sd_alloc pool) then Ret None else
  dacl ← build_dacl_from_token pool t;
  let sd := mk_sd 1 0 0x8004 (Token.user t) (Token.primary_group t) (stale_sacl pool) dacl in
  let level := Integrity.se_token_integrity_level (Some t) in
  r ← Integrity.se_set_object_integrity_level (sacl_alloc pool) (Some sd) level
        Integrity.SYSTEM_MANDATORY_LABEL_NO_WRITE_UP;
  Ret (fst r).

Definition create_null_dacl_sd (alloc_ok : bool) : option SecurityDescriptor :=
  if negb alloc_ok then None
  else Some (mk_sd 1 0 0x8004 (Sid.mk_sid 1 0 [0; 0; 0; 0; 0; 0] (replicate 8 0))
               (Sid.mk_sid 1 0 [0; 0; 0; 0; 0; 0] (replicate 8 0)) None None).

Definition se_access_check (pool : Pool) (object_type : ObTypeIndex)
    (sd_ptr : option SecurityDescriptor) (desired_access : Z) (token_ptr : option Token)
    : outcome (AccessCheckResult * Z) :=
  let generic_mapping := get_generic_mapping_for_type object_type in
  match token_ptr with
  | None => Ret (Denied, 0)
  | Some t =>
      let default_policy :=
        built ← from_token pool t;
        match built with
        | None => Ret (Denied, 0)
        | Some sd => check_access_with_granted desired_access t (owner sd) (dacl sd)
                       (Some generic_mapping)
        end in
      match sd_ptr with
      | None => default_policy
      | Some sd =>
          level ← Integrity.se_get_object_integrity_level sd_ptr;
          if negb (Integrity.se_check_mandatory_integrity token_ptr level desired_access)
          then Ret (Denied, 0)
          else if Z.land (control sd) SE_DACL_PRESENT =? 0
          then default_policy
          else check_access_with_granted desired_access t (owner sd) (dacl sd)
                 (Some generic_mapping)
      end
  end.

(** ** The specification on entries *)

Definition matches_allow (t : Token) (s : sid) : bool :=
  Sid.equals s (Token.user t) ||
  existsb (fun g => if has_bits (Token.group_attributes g) Token.SE_GROUP_USE_FOR_DENY_ONLY
                    then false else Sid.equals s (Token.group_sid g)) (Token.active_groups t).

Definition matches_deny (t : Token) (s : sid) : bool :=
  Sid.equals s (Token.user t) ||
  existsb (fun g => Sid.equals s (Token.group_sid g)) (Token.active_groups t).

(** The masks of the allow (deny) entries that apply to the token. *)
Definition allow_masks (t : Token) (es : list Acl.ace) : list Z :=
  map Acl.entry_mask
    (List.filter (fun e => is_allow (Acl.entry_type e) && matches_allow t (Acl.entry_sid e)) es).
Definition deny_masks (t : Token) (es : list Acl.ace) : list Z :=
  map Acl.entry_mask
    (List.filter (fun e => is_deny (Acl.entry_type e) && matches_deny t (Acl.entry_sid e)) es).

Definition held_bits (table : list (Z * Z)) (desired : Z) (t : Token) : list Z :=
  map snd (List.filter (fun p => has_bits desired (snd p) && Token.holds t (Token.mk_luid (fst p) 0))
             table).

(** The rights the token's privileges give for a request. *)
Definition privileged (desired : Z) (t : Token) : Z :=
  Z.lor (lor_all (held_bits PRIVILEGE_ACCESS_GRANTS desired t))
    (if has_bits desired SE_DEBUG_ALLOWED_ACCESS &&
        (Token.holds t (Token.mk_luid SE_DEBUG 0) && Token.is_admin t)
     then SE_DEBUG_REQUIRED_ACCESS else 0).

(** The access check as a function of the list of entries. *)
Definition spec_check (desired : Z) (t : Token) (es : list Acl.ace) (gm : option GenericMapping)
    : AccessCheckResult * Z :=
  let request := mapped_request desired gm in
  conclude (has_bits desired ACCESS_MAXIMUM_ALLOWED) request (maximum_access gm)
    (lor_all (allow_masks t es)) (lor_all (deny_masks t es)) (privileged request t).

(** ** Refinement *)

Lemma active_group_ty t g :
  Token.token_wf t -> g ∈ Token.active_groups t -> Sid.sid_ty (Token.group_sid g).
Proof.
  intros (_ & _ & _ & _ & _ & Hty) Hg. unfold Token.active_groups in Hg.
  apply (Forall_take _ (Token.group_count t)) in Hty. rewrite Forall_forall in Hty.
  by apply (Hty g).
Qed.

Lemma sid_in_token_spec t s :
  Token.token_wf t -> Sid.sid_ty s -> sid_in_token (Sid.canonical s) t = Ret (matches_deny t s).
Proof.
  intros Hwf Hs. pose proof Hwf as (Hu & Hgl & _ & Hgc & _).
  unfold sid_in_token, matches_deny. rewrite Sid.equals_canonical by done.
  destruct (Sid.equals s (Token.user t)); [done |].
  rewrite any_loop_take by (by rewrite Hgl). f_equal. apply existsb_ext_in.
  intros g Hg. apply Sid.equals_canonical; [done | by apply (active_group_ty t)].
Qed.

Lemma sid_matches_token_spec t s :
  Token.token_wf t -> Sid.sid_ty s ->
  sid_matches_token (Sid.canonical s) t = Ret (matches_allow t s).
Proof.
  intros Hwf Hs. pose proof Hwf as (Hu & Hgl & _ & Hgc & _).
  unfold sid_matches_token, matches_allow. rewrite Sid.equals_canonical by done.
  destruct (Sid.equals s (Token.user t)); [done |].
  rewrite any_loop_take by (by rewrite Hgl). f_equal. apply existsb_ext_in.
  intros g Hg. destruct (has_bits _ _); [done |].
  apply Sid.equals_canonical; [done | by apply (active_group_ty t)].
Qed.

Lemma privilege_loop_spec table desired t acc :
  Token.token_wf t ->
  privilege_loop table desired t acc = Ret (Z.lor acc (lor_all (held_bits table desired t))).
Proof.
  intros Hwf. revert acc. induction table as [|[v b] table IH]; intros acc; cbn.
  { by rewrite Z.lor_0_r. }
  unfold has_bits at 1. cbn. destruct (Z.land desired b =? 0); cbn; [apply IH |].
  rewrite (Token.has_privilege_spec t _ Hwf), outcome_bind_ret, IH.
  destruct (Token.holds t _); cbn; [by rewrite Z.lor_assoc | done].
Qed.

Lemma privilege_grants_spec desired t :
  Token.token_wf t -> privilege_grants desired t = Ret (privileged desired t).
Proof.
  intros Hwf. unfold privilege_grants, privileged.
  rewrite (privilege_loop_spec _ _ _ _ Hwf), outcome_bind_ret, Z.lor_0_l.
  destruct (has_bits _ _); cbn [andb]; [| by rewrite Z.lor_0_r].
  rewrite (Token.has_privilege_spec t _ Hwf), outcome_bind_ret.
  by destruct (_ && _); rewrite ?Z.lor_0_r.
Qed.

Lemma apply_ace_spec e t granted denied :
  Token.token_wf t -> Acl.ace_ok e ->
  apply_ace (Acl.entry_type e) (Sid.canonical (Acl.entry_sid e)) (Acl.entry_mask e) t
    (granted, denied) =
  Ret (Z.lor granted (lor_all (allow_masks t [e])), Z.lor denied (lor_all (deny_masks t [e]))).
Proof.
  intros Hwf (_ & _ & Hty & _). unfold apply_ace, allow_masks, deny_masks. cbn [List.filter].
  destruct (is_deny (Acl.entry_type e)) eqn:Ed; [| destruct (is_allow (Acl.entry_type e)) eqn:Ea].
  - assert (is_allow (Acl.entry_type e) = false) as -> by (by destruct (Acl.entry_type e)).
    rewrite sid_in_token_spec by done.
    destruct (matches_deny _ _); cbn; by rewrite ?Z.lor_0_r.
  - rewrite sid_matches_token_spec by done.
    destruct (matches_allow _ _); cbn; by rewrite ?Z.lor_0_r.
  - cbn. by rewrite ?Z.lor_0_r.
Qed.

Lemma masks_cons t e es :
  lor_all (allow_masks t (e :: es)) = Z.lor (lor_all (allow_masks t [e])) (lor_all (allow_masks t es)) /\
  lor_all (deny_masks t (e :: es)) = Z.lor (lor_all (deny_masks t [e])) (lor_all (deny_masks t es)).
Proof.
  unfold allow_masks, deny_masks. cbn [List.filter].
  split; destruct (_ && _); cbn; by rewrite ?Z.lor_0_r.
Qed.

Lemma ace_walk_repr t es P rest limit fuel granted denied :
  Token.token_wf t -> Forall Acl.ace_ok es ->
  limit = (length P + length (Acl.aces_bytes es))%nat -> (length es < fuel)%nat ->
  ace_walk fuel (P ++ Acl.aces_bytes es ++ rest) limit t (length P) (granted, denied) =
  Ret (Some (Z.lor granted (lor_all (allow_masks t es)),
             Z.lor denied (lor_all (deny_masks t es)))).
Proof.
  intros Hwf Hok. revert P fuel granted denied.
  induction Hok as [|e es He Hes IH]; intros P fuel granted denied Hlim Hfuel;
    (destruct fuel as [|fuel]; [simpl in Hfuel; lia |]).
  { cbn in Hlim. cbn [ace_walk]. rewrite decide_True by lia. cbn. by rewrite !Z.lor_0_r. }
  assert (Sid.sid_ty (Acl.entry_sid e)) as Hty by apply He.
  assert (Acl.aces_bytes (e :: es) = Acl.ace_bytes e ++ Acl.aces_bytes es) as Hcons by done.
  rewrite Hcons, length_app, Acl.length_ace_bytes in Hlim by done.
  rewrite Hcons, <- app_assoc. cbn [ace_walk]. set (tl := Acl.aces_bytes es ++ rest).
  destruct (Acl.ace_fields e tl) as (H0 & (b2 & b3 & H2 & H3 & Hb2 & Hn) & Hmask).
  destruct (Hmask He) as (b4 & b5 & b6 & b7 & H4 & H5 & H6 & H7 & Hm).
  destruct (Acl.ace_sid_field P e tl He) as [Hslice Hsid].
  assert (16 <= Acl.ace_len e)%nat
    by (unfold Acl.ace_len; pose proof (Acl.sid_size_bounds (Acl.entry_sid e)); lia).
  rewrite decide_False by lia. rewrite !rd_app, (rd_app_0 P) by done.
  rewrite H0, H2, H3, !outcome_bind_ret, lor_le16, Hn, Nat2Z.id by done.
  rewrite decide_False by lia. rewrite H4, H5, H6, H7, !outcome_bind_ret, Hm.
  rewrite decide_False, Hslice, outcome_bind_ret, Hsid, outcome_bind_ret, Acl.from_to_u8 by lia.
  rewrite apply_ace_spec, outcome_bind_ret by done.
  replace (length P + Acl.ace_len e)%nat with (length (P ++ Acl.ace_bytes e))
    by (rewrite length_app, Acl.length_ace_bytes by done; done).
  unfold tl. rewrite app_assoc, IH;
    [| rewrite length_app, Acl.length_ace_bytes by done; lia | cbn [length] in Hfuel; lia].
  destruct (masks_cons t e es) as [-> ->]. by rewrite !Z.lor_assoc.
Qed.

Lemma length_aces_ge es :
  Forall Acl.ace_ok es -> (length es <= length (Acl.aces_bytes es))%nat.
Proof.
  induction 1 as [|e es He Hes IH]; [done |].
  change (Acl.aces_bytes (e :: es)) with (Acl.ace_bytes e ++ Acl.aces_bytes es).
  rewrite length_app, Acl.length_ace_bytes by apply He. unfold Acl.ace_len. simpl. lia.
Qed.

Lemma check_access_spec desired t own a es gm :
  Token.token_wf t -> Acl.acl_repr a es ->
  check_access_with_granted desired t own (Some a) gm = Ret (spec_check desired t es gm).
Proof.
  intros Hwf Hrepr. unfold check_access_with_granted.
  rewrite privilege_grants_spec, outcome_bind_ret by done.
  unfold Acl.is_valid. rewrite (Acl.used_size_repr _ _ Hrepr), !outcome_bind_ret. cbn [negb].
  pose proof Hrepr as (_ & _ & _ & _ & Hsz & _ & Hok & pre & rest & Hpre & Hdata).
  rewrite Hsz, Nat2Z.id, Hdata, <- Hpre. pose proof (length_aces_ge es Hok).
  rewrite ace_walk_repr, outcome_bind_ret, !Z.lor_0_l by (done || lia). done.
Qed.

(** ** Bits *)

(** Some applicable allow (deny) entry carries the bit. *)
Definition granted_by (t : Token) (es : list Acl.ace) (i : Z) : Prop :=
  exists e, e ∈ es /\ is_allow (Acl.entry_type e) = true /\
    matches_allow t (Acl.entry_sid e) = true /\ Z.testbit (Acl.entry_mask e) i = true.
Definition denied_by (t : Token) (es : list Acl.ace) (i : Z) : Prop :=
  exists e, e ∈ es /\ is_deny (Acl.entry_type e) = true /\
    matches_deny t (Acl.entry_sid e) = true /\ Z.testbit (Acl.entry_mask e) i = true.

Lemma union_bit (f : Acl.ace -> bool) es i :
  Z.testbit (lor_all (map Acl.entry_mask (List.filter f es))) i = true <->
  exists e, e ∈ es /\ f e = true /\ Z.testbit (Acl.entry_mask e) i = true.
Proof.
  rewrite lor_all_bit, existsb_exists. setoid_rewrite in_map_iff.
  setoid_rewrite filter_In. setoid_rewrite <- list_elem_of_In. naive_solver.
Qed.

Lemma allow_masks_bit t es i :
  Z.testbit (lor_all (allow_masks t es)) i = true <-> granted_by t es i.
Proof.
  unfold allow_masks, granted_by. rewrite union_bit. setoid_rewrite andb_true_iff. naive_solver.
Qed.

Lemma deny_masks_bit t es i :
  Z.testbit (lor_all (deny_masks t es)) i = true <-> denied_by t es i.
Proof.
  unfold deny_masks, denied_by. rewrite union_bit. setoid_rewrite andb_true_iff. naive_solver.
Qed.

Lemma masks_ty f es :
  Forall Acl.ace_ok es -> u_ty 32 (lor_all (map Acl.entry_mask (List.filter f es))).
Proof.
  intros Hok. apply lor_all_ty; [lia |]. apply Forall_forall. intros m Hm.
  apply list_elem_of_In, in_map_iff in Hm as (e & <- & He%filter_In).
  rewrite Forall_forall in Hok. apply (Hok e). apply list_elem_of_In. tauto.
Qed.

Lemma privileged_ty desired t : u_ty 32 (privileged desired t).
Proof.
  unfold privileged. apply u_ty_lor; [lia | | by destruct (_ && _)].
  apply lor_all_ty; [lia |]. apply Forall_forall. intros m Hm.
  apply list_elem_of_In, in_map_iff in Hm as ([v b] & <- & [Hin _]%filter_In).
  unfold PRIVILEGE_ACCESS_GRANTS in Hin. cbn in Hin.
  destruct Hin as [H|[H|[H|[H|[]]]]]; simplify_eq; done.
Qed.

(** Every requested bit is granted or privileged, and none is denied. *)
Definition satisfied (desired g d p : Z) : Prop :=
  forall i, 0 <= i -> Z.testbit desired i = true ->
    Z.testbit d i = false /\ (Z.testbit g i = true \/ Z.testbit p i = true).

Lemma conclude_explicit desired maxa g d p :
  u_ty 32 desired ->
  (conclude false desired maxa g d p = (Allowed, desired) /\ satisfied desired g d p) \/
  (conclude false desired maxa g d p = (Denied, 0) /\ ~ satisfied desired g d p).
Proof.
  intros Hd. unfold conclude. cbn [negb andb].
  destruct (has_bits desired d) eqn:Hden.
  { right. split; [done |]. intros Hsat. rewrite has_bits_true in Hden.
    apply Hden, land_0_bits. intros i Hi. destruct (Z.testbit desired i) eqn:E; [| done].
    cbn. by apply (Hsat i Hi). }
  rewrite has_bits_false, land_0_bits in Hden.
  set (rem := Z.land _ (wnot 32 (Z.land p _))).
  assert (forall i, 0 <= i -> Z.testbit rem i =
    Z.testbit desired i && negb (Z.testbit g i) && negb (Z.testbit p i)) as Hrem.
  { intros i Hi. unfold rem. rewrite !Z.land_spec, !wnot_testbit, !Z.land_spec, !wnot_testbit by lia.
    specialize (Hden i Hi). destruct (Z.ltb_spec i 32) as [|H32].
    - destruct (Z.testbit desired i), (Z.testbit d i), (Z.testbit g i), (Z.testbit p i); done.
    - by rewrite (u_ty_testbit 32 desired i Hd H32). }
  destruct (Z.eqb_spec rem 0) as [H0 | Hne]; cbn [negb].
  - left. assert (satisfied desired g d p) as Hsat.
    { intros i Hi Hb. specialize (Hden i Hi). specialize (Hrem i Hi).
      rewrite H0, Z.testbit_0_l in Hrem. rewrite Hb in *.
      destruct (Z.testbit d i), (Z.testbit g i), (Z.testbit p i); naive_solver. }
    split; [| done]. f_equal. apply Z.bits_inj'. intros i Hi.
    rewrite Z.lor_spec, !Z.land_spec, !wnot_testbit by lia.
    destruct (Z.testbit desired i) eqn:E; rewrite ?andb_false_r; [| done].
    destruct (Hsat i Hi E) as [-> Hgp]. rewrite !andb_true_r.
    destruct (Z.ltb_spec i 32) as [|H32]; [| by rewrite (u_ty_testbit 32 desired i Hd H32) in E].
    destruct Hgp as [-> | ->]; cbn; rewrite ?orb_true_r; done.
  - right. split; [done |]. intros Hsat. apply Hne, Z.bits_inj'. intros i Hi.
    rewrite Hrem, Z.testbit_0_l by done. destruct (Z.testbit desired i) eqn:E; [| done].
    destruct (Hsat i Hi E) as [_ [-> | ->]]; cbn; rewrite ?andb_false_r; done.
Qed.

Lemma conclude_maximum desired maxa g d p granted :
  0 <= g -> 0 <= p -> conclude true desired maxa g d p = (Allowed, granted) ->
  granted <> 0 /\ forall i, 0 <= i -> Z.testbit granted i = true ->
    Z.testbit d i = false /\ (Z.testbit g i = true \/ Z.testbit p i = true) /\
    Z.testbit maxa i = true.
Proof.
  intros Hg Hp. unfold conclude. cbn [negb andb]. destruct (has_bits desired d); [done |].
  destruct (Z.eqb_spec (Z.land (Z.lor (Z.land g (wnot 32 d)) (Z.land p (wnot 32 d))) maxa) 0)
    as [|Hne]; [done |]. intros [= <-]. split; [done |]. intros i Hi.
  rewrite Z.land_spec, Z.lor_spec, !Z.land_spec, !wnot_testbit by lia.
  destruct (Z.testbit d i), (Z.testbit g i), (Z.testbit p i), (Z.testbit maxa i), (i <? 32);
    naive_solver.
Qed.

Lemma mapped_request_ty desired gm :
  u_ty 32 desired -> (forall m, gm = Some m -> mapping_ty m) -> u_ty 32 (mapped_request desired gm).
Proof.
  intros Hd Hgm. unfold mapped_request.
  assert (u_ty 32 (Z.land desired (wnot 32 ACCESS_MAXIMUM_ALLOWED)))
    by (apply u_ty_land; [lia | done | by apply u_ty_wnot]).
  destruct gm as [m|]; [| done]. apply map_generic_ty; auto.
Qed.

(** ** Arbitrary buffers *)

Lemma apply_ace_total ty s m t acc :
  Token.token_wf t -> exists acc', apply_ace ty s m t acc = Ret acc'.
Proof.
  intros (_ & Hgl & _ & Hgc & _). destruct acc as [g d].
  unfold apply_ace, sid_in_token, sid_matches_token.
  destruct (is_deny ty); [| destruct (is_allow ty); [| eauto]];
    (destruct (Sid.equals s (Token.user t));
     [| rewrite any_loop_take by (by rewrite Hgl)]; rewrite outcome_bind_ret; eauto).
Qed.

Lemma ace_walk_total fuel data limit t offset acc :
  Token.token_wf t -> Forall byte_ty data -> (limit <= length data)%nat ->
  (offset <= limit)%nat -> (limit < offset + fuel)%nat ->
  exists r, ace_walk fuel data limit t offset acc = Ret r.
Proof.
  intros Hwf Hb Hlim. revert offset acc.
  induction fuel as [|fuel IH]; intros offset acc Hoff Hfuel; [lia |].
  cbn [ace_walk]. case_decide; [eauto |].
  destruct (rd_total byte_ty data offset) as (ty & -> & _); [lia | done |].
  destruct (rd_total byte_ty data (offset + 2)) as (b2 & -> & _); [lia | done |].
  destruct (rd_total byte_ty data (offset + 3)) as (b3 & -> & _); [lia | done |].
  rewrite !outcome_bind_ret. case_decide; [eauto |].
  destruct (rd_total byte_ty data (offset + 4)) as (b4 & -> & _); [lia | done |].
  destruct (rd_total byte_ty data (offset + 5)) as (b5 & -> & _); [lia | done |].
  destruct (rd_total byte_ty data (offset + 6)) as (b6 & -> & _); [lia | done |].
  destruct (rd_total byte_ty data (offset + 7)) as (b7 & -> & _); [lia | done |].
  rewrite !outcome_bind_ret. case_decide; [eauto |].
  destruct (slice_total byte_ty data (offset + 8) (offset + Z.to_nat (Z.lor b2 (b3 ≪ 8))))
    as (bytes & -> & Hbytes); [lia | done |].
  rewrite outcome_bind_ret.
  destruct (Sid.from_bytes_total bytes Hbytes) as [[s|] ->]; rewrite outcome_bind_ret; [| eauto].
  destruct (Acl.from_u8 ty) as [k|]; [| eauto].
  destruct (apply_ace_total k s (from_le [b4; b5; b6; b7]) t acc Hwf) as [acc' ->].
  rewrite outcome_bind_ret. apply IH; lia.
Qed.

(** ** The default DACL *)

(** An allow entry that carries no object-specific (low sixteen) rights. *)
Definition default_entry (e : Acl.ace) : Prop :=
  Acl.entry_type e = Acl.AccessAllowed /\ Z.land (Acl.entry_mask e) 0xFFFF = 0.

Lemma add_group_aces_repr gs a es :
  Acl.acl_repr a es -> Forall default_entry es ->
  Forall (fun g => Sid.sid_ty (Token.group_sid g)) gs ->
  exists a' es', add_group_aces a gs = Ret a' /\ Acl.acl_repr a' es' /\ Forall default_entry es'.
Proof.
  intros Ha Hes Hgs. revert a es Ha Hes. induction Hgs as [|g gs Hg Hgs IH]; intros a es Ha Hes.
  { exists a, es. done. }
  cbn [add_group_aces]. destruct (Token.group_is_enabled g); [| eauto].
  unfold Acl.add_access_allowed.
  pose proof (Acl.add_ace_spec a es Acl.AccessAllowed Acl.CONTAINER_INHERIT
    (Z.lor ACCESS_GENERIC_READ ACCESS_SYNCHRONIZE) (Token.group_sid g) Ha
    ltac:(done) ltac:(done) Hg) as Hadd.
  destruct (_ && _); cycle 1.
  { rewrite Hadd. exists a, es. done. }
  destruct Hadd as (a' & -> & Ha'). rewrite outcome_bind_ret. cbn [negb].
  apply (IH _ _ Ha'). apply Forall_app. split; [done |]. by apply Forall_singleton.
Qed.

Lemma build_dacl_repr pool t :
  Token.token_wf t -> Sid.is_valid (Token.user t) = true -> dacl_alloc pool = true ->
  exists a es, build_dacl_from_token pool t = Ret (Some a) /\ Acl.acl_repr a es /\
    Forall default_entry es.
Proof.
  intros Hwf Hv Hal. pose proof Hwf as (Hu & _ & _ & _ & _ & Hty).
  unfold build_dacl_from_token, Acl.add_access_allowed. rewrite Hal. cbn [negb].
  pose proof (Acl.sid_size_bounds (Token.user t)) as Hsz.
  pose proof (Acl.add_ace_spec Acl.new [] Acl.AccessAllowed Acl.FLAGS_NONE OWNER_MASK
    (Token.user t) Acl.new_repr ltac:(done) ltac:(done) Hu) as H1.
  set (e1 := Acl.mk_ace Acl.AccessAllowed Acl.FLAGS_NONE OWNER_MASK (Token.user t)) in *.
  assert (Acl.ace_len e1 <= 48)%nat as Hl1 by (unfold Acl.ace_len; cbn [Acl.entry_sid e1]; lia).
  rewrite Hv, (bool_decide_true (length [] < Acl.MAX_ACES)%nat), bool_decide_true in H1
    by (unfold Acl.MAX_ACES, Acl.CAPACITY; cbn [Acl.aces_bytes map concat length]; lia).
  destruct H1 as (a1 & -> & Ha1). rewrite outcome_bind_ret. cbn [negb app] in *.
  assert (length (Acl.aces_bytes [e1]) = Acl.ace_len e1) as Hl2.
  { unfold Acl.aces_bytes. cbn [map concat]. by rewrite app_nil_r, Acl.length_ace_bytes. }
  assert (Sid.sid_ty (Sid.well_known Sid.LocalSystem)) as Hsys
    by (unfold Sid.sid_ty; split_and!; try done; repeat constructor; done).
  pose proof (Acl.add_ace_spec a1 [e1] Acl.AccessAllowed Acl.FLAGS_NONE ACCESS_GENERIC_ALL
    (Sid.well_known Sid.LocalSystem) Ha1 ltac:(done) ltac:(done) Hsys) as H2.
  change (Sid.is_valid (Sid.well_known Sid.LocalSystem)) with true in H2.
  rewrite (bool_decide_true (length [e1] < Acl.MAX_ACES)%nat) in H2
    by (unfold Acl.MAX_ACES; cbn; lia).
  rewrite bool_decide_true in H2
    by (rewrite Hl2; change (Acl.ace_len (Acl.mk_ace Acl.AccessAllowed Acl.FLAGS_NONE
          ACCESS_GENERIC_ALL (Sid.well_known Sid.LocalSystem))) with 20%nat;
        unfold Acl.CAPACITY; lia).
  destruct H2 as (a2 & -> & Ha2). rewrite outcome_bind_ret. cbn [negb].
  destruct (add_group_aces_repr (take (Token.group_count t) (Token.groups t)) a2 _ Ha2)
    as (a3 & es & -> & Ha3 & Hes).
  - by repeat (constructor; [done |]).
  - apply Forall_take. eapply Forall_impl; [exact Hty |]. by intros g [? _].
  - exists a3, es. done.
Qed.

(** The descriptor built from a token carries the DACL built from it. *)
Lemma from_token_dacl pool t d :
  u_ty 32 (Token.integrity_level_rid t) -> sd_alloc pool = true ->
  build_dacl_from_token pool t = Ret d ->
  exists sd, from_token pool t = Ret (Some sd) /\ dacl sd = d.
Proof.
  intros Hl Hsd Hb. unfold from_token. rewrite Hsd, Hb, outcome_bind_ret.
  cbn [negb Integrity.se_token_integrity_level].
  destruct (Integrity.set_object_frame (sacl_alloc pool)
    (mk_sd 1 0 0x8004 (Token.user t) (Token.primary_group t) (stale_sacl pool) d)
    (Token.integrity_level_rid t) Integrity.SYSTEM_MANDATORY_LABEL_NO_WRITE_UP Hl ltac:(done))
    as (sd' & b & -> & _ & Hd).
  exists sd'. done.
Qed.

Lemma default_not_granted t es i :
  Forall default_entry es -> 0 <= i < 16 -> ~ granted_by t es i.
Proof.
  intros Hes Hi (e & He & _ & _ & Hb). rewrite Forall_forall in Hes.
  destruct (Hes e He) as [_ H0]. rewrite land_0_bits in H0. specialize (H0 i ltac:(lia)).
  rewrite Hb in H0. change 0xFFFF with (Z.ones 16) in H0.
  rewrite Z.testbit_ones_nonneg in H0 by lia. by destruct (Z.ltb_spec i 16); [| lia].
Qed.

Lemma privileged_low desired t i :
  Token.holds t (Token.mk_luid SE_DEBUG 0) = false -> 0 <= i < 16 ->
  Z.testbit (privileged desired t) i = false.
Proof.
  intros Hdbg Hi. unfold privileged. rewrite Hdbg, andb_false_r, Z.lor_0_r, lor_all_bit.
  apply not_true_is_false. rewrite existsb_exists. intros (m & Hm & Hb).
  apply in_map_iff in Hm as ([v b] & <- & [Hin _]%filter_In). cbn in Hin, Hb.
  assert (Z.land b 0xFFFF = 0) as H0
    by (destruct Hin as [H|[H|[H|[H|[]]]]]; simplify_eq; done).
  rewrite land_0_bits in H0. specialize (H0 i ltac:(lia)). rewrite Hb in H0.
  change 0xFFFF with (Z.ones 16) in H0.
  rewrite Z.testbit_ones_nonneg in H0 by lia. by destruct (Z.ltb_spec i 16); [| lia].
Qed.

(** ** Properties *)



(** An explicit request (no MAXIMUM_ALLOWED) is granted in full or not at all. It
    is granted exactly when every requested right, after generic mapping, is covered by
    an applicable allow entry or a privilege and is named by no applicable deny entry. *)
Theorem explicit_request_decided (desired : Z) (t : Token) (own : sid) (a : Acl.Acl)
    (es : list Acl.ace) (gm : option GenericMapping) (request := mapped_request desired gm)
    (Hwf : Token.token_wf t) (Hrepr : Acl.acl_repr a es) (Hd : u_ty 32 desired)
    (Hgm : forall m, gm = Some m -> mapping_ty m)
    (Hmax : has_bits desired ACCESS_MAXIMUM_ALLOWED = false) :
  let covered := forall i, 0 <= i -> Z.testbit request i = true ->
    ~ denied_by t es i /\ (granted_by t es i \/ Z.testbit (privileged request t) i = true) in
  (check_access_with_granted desired t own (Some a) gm = Ret (Allowed, request) /\ covered) \/
  (check_access_with_granted desired t own (Some a) gm = Ret (Denied, 0) /\ ~ covered).
Proof.
  intros covered. rewrite (check_access_spec _ _ _ _ es) by done. unfold spec_check. rewrite Hmax.
  assert (covered <-> satisfied request (lor_all (allow_masks t es)) (lor_all (deny_masks t es))
    (privileged request t)) as Hiff.
  { unfold covered, satisfied. setoid_rewrite <- not_true_iff_false.
    setoid_rewrite deny_masks_bit. setoid_rewrite allow_masks_bit. done. }
  destruct (conclude_explicit request (maximum_access gm) (lor_all (allow_masks t es))
    (lor_all (deny_masks t es)) (privileged request t)
    (mapped_request_ty desired gm Hd Hgm)) as [[H1 H2] | [H1 H2]];
    fold request; rewrite H1, Hiff; [left | right]; done.
Qed.

Lemma explicit_request_decided_witness :
  check_access_with_granted ACCESS_READ_CONTROL Token.new Sid.new (Some Acl.new) None =
  Ret (Denied, 0).
Proof.
  destruct (explicit_request_decided ACCESS_READ_CONTROL Token.new Sid.new Acl.new [] None
    Token.new_wf Acl.new_repr) as [[_ H] | [H _]]; [done | done | done | | exact H].
  exfalso. destruct (H 17 ltac:(lia) eq_refl) as [_ [(e & He & _) | Hp]].
  - inversion He.
  - vm_compute in Hp. discriminate.
Defined.

(** The order of the entries does not matter: two DACLs whose entries are
    permutations of each other give the same answer and the same granted mask. In
    particular a deny entry wins over an allow entry that precedes it. *)
Theorem entry_order_irrelevant (desired : Z) (t : Token) (own : sid) (a a' : Acl.Acl)
    (es es' : list Acl.ace) (gm : option GenericMapping)
    (Hwf : Token.token_wf t) (Ha : Acl.acl_repr a es) (Ha' : Acl.acl_repr a' es')
    (Hperm : Permutation es es') :
  check_access_with_granted desired t own (Some a) gm =
  check_access_with_granted desired t own (Some a') gm.
Proof.
  rewrite (check_access_spec _ _ _ a es), (check_access_spec _ _ _ a' es') by done.
  unfold spec_check. f_equal.
  assert (forall f, lor_all (map Acl.entry_mask (List.filter f es)) =
                    lor_all (map Acl.entry_mask (List.filter f es'))) as Heq.
  { intros f. apply Z.bits_inj'. intros i Hi. apply eq_true_iff_eq. rewrite !union_bit.
    by setoid_rewrite Hperm. }
  unfold allow_masks, deny_masks. by rewrite !Heq.
Qed.

(** Deny and allow entries for Everyone, used by the witnesses. *)
Definition deny_all_users (mask : Z) : Acl.ace :=
  Acl.mk_ace Acl.AccessDenied 0 mask (Sid.well_known Sid.Null).
Definition allow_all_users (mask : Z) : Acl.ace :=
  Acl.mk_ace Acl.AccessAllowed 0 mask (Sid.well_known Sid.Null).

Lemma entry_order_irrelevant_witness :
  check_access_with_granted 1 Token.new Sid.new
    (Some (Acl.encode_acl [deny_all_users 1; allow_all_users 3])) None =
  check_access_with_granted 1 Token.new Sid.new
    (Some (Acl.encode_acl [allow_all_users 3; deny_all_users 1])) None.
Proof.
  assert (forall m, m = 1 \/ m = 3 -> Acl.ace_ok (deny_all_users m) /\ Acl.ace_ok (allow_all_users m)) as Hok.
  { intros m Hm. unfold Acl.ace_ok, Sid.sid_ty, u_ty.
    destruct Hm as [-> | ->]; split_and!; try done; repeat constructor; done. }
  apply (entry_order_irrelevant 1 Token.new Sid.new
    (Acl.encode_acl [deny_all_users 1; allow_all_users 3])
    (Acl.encode_acl [allow_all_users 3; deny_all_users 1])
    [deny_all_users 1; allow_all_users 3] [allow_all_users 3; deny_all_users 1] None Token.new_wf).
  - apply Acl.encode_repr; [| vm_compute; lia | vm_compute; lia].
    constructor; [apply (Hok 1); auto | constructor; [apply (Hok 3); auto | constructor]].
  - apply Acl.encode_repr; [| vm_compute; lia | vm_compute; lia].
    constructor; [apply (Hok 3); auto | constructor; [apply (Hok 1); auto | constructor]].
  - constructor.
Defined.

(** A MAXIMUM_ALLOWED request that succeeds grants a non-empty set of rights, each
    of which an applicable allow entry or a privilege gives, no applicable deny entry
    names, and the object type's full-access mask contains. *)
Theorem maximum_allowed_sound (desired : Z) (t : Token) (own : sid) (a : Acl.Acl)
    (es : list Acl.ace) (gm : option GenericMapping) (granted : Z)
    (Hwf : Token.token_wf t) (Hrepr : Acl.acl_repr a es)
    (Hmax : has_bits desired ACCESS_MAXIMUM_ALLOWED = true)
    (Hres : check_access_with_granted desired t own (Some a) gm = Ret (Allowed, granted)) :
  granted <> 0 /\ forall i, 0 <= i -> Z.testbit granted i = true ->
    ~ denied_by t es i /\
    (granted_by t es i \/ Z.testbit (privileged (mapped_request desired gm) t) i = true) /\
    Z.testbit (maximum_access gm) i = true.
Proof.
  rewrite (check_access_spec _ _ _ _ es) in Hres by done. unfold spec_check in Hres.
  rewrite Hmax in Hres. injection Hres as Hres.
  pose proof Hrepr as (_ & _ & _ & _ & _ & _ & Hok & _).
  apply conclude_maximum in Hres as [Hne Hbits];
    [| apply (masks_ty _ es Hok) | apply privileged_ty].
  split; [done |]. intros i Hi Hb. destruct (Hbits i Hi Hb) as (Hd & Hg & Hm).
  rewrite <- not_true_iff_false, deny_masks_bit in Hd. rewrite allow_masks_bit in Hg. done.
Qed.

Lemma maximum_allowed_sound_witness :
  exists granted, granted <> 0 /\
    check_access_with_granted ACCESS_MAXIMUM_ALLOWED Token.new Sid.new
      (Some (Acl.encode_acl [allow_all_users 3])) None = Ret (Allowed, granted).
Proof.
  exists 3. assert (Acl.acl_repr (Acl.encode_acl [allow_all_users 3]) [allow_all_users 3]) as Hr.
  { apply Acl.encode_repr; [| vm_compute; lia | vm_compute; lia]. constructor; [| constructor].
    unfold Acl.ace_ok, Sid.sid_ty, u_ty. split_and!; try done; repeat constructor; done. }
  assert (check_access_with_granted ACCESS_MAXIMUM_ALLOWED Token.new Sid.new
    (Some (Acl.encode_acl [allow_all_users 3])) None = Ret (Allowed, 3)) as H
    by (vm_compute; reflexivity).
  destruct (maximum_allowed_sound ACCESS_MAXIMUM_ALLOWED Token.new Sid.new _ _ None 3
    Token.new_wf Hr eq_refl H) as [Hne _].
  split; [exact Hne | exact H].
Defined.

(** The check is safe on a DACL with arbitrary bytes: for every buffer of the Rust
    type, token and request it returns, without an out-of-range access and with the
    walk bounded by the buffer size. *)
Theorem check_access_total (desired : Z) (t : Token) (own : sid) (a : Acl.Acl)
    (gm : option GenericMapping) (Hwf : Token.token_wf t) (Hty : Acl.acl_ty a) :
  exists r, check_access_with_granted desired t own (Some a) gm = Ret r.
Proof.
  unfold check_access_with_granted. rewrite privilege_grants_spec, outcome_bind_ret by done.
  unfold Acl.is_valid. destruct (Acl.used_size_total a Hty) as ([k|] & -> & Hk);
    rewrite !outcome_bind_ret; cbn [negb]; [| eauto].
  destruct (Hk k eq_refl) as [-> Hb]. pose proof Hty as (_ & _ & _ & Hlen & Hbytes).
  destruct (ace_walk_total (S (Z.to_nat (Acl.acl_size a))) (Acl.data a)
    (Z.to_nat (Acl.acl_size a)) t 8 (0, 0) Hwf Hbytes) as [[[g d]|] ->];
    [lia | lia | lia | |]; rewrite outcome_bind_ret; eauto.
Qed.

Lemma check_access_total_witness :
  exists r, check_access_with_granted 0xFFFFFFFF Token.new Sid.new
    (Some (Acl.mk_acl 2 0 512 16 0 (replicate 512 8))) None = Ret r.
Proof.
  apply (check_access_total 0xFFFFFFFF Token.new Sid.new _ None Token.new_wf).
  unfold Acl.acl_ty. split_and!; try done. by apply Forall_replicate.
Defined.


(** A file descriptor with an explicit NULL DACL and a high integrity label. *)
Definition high_label_sd (control : Z) : SecurityDescriptor :=
  mk_sd 1 0 control Sid.new Sid.new
    (Some (Acl.encode_acl [Acl.mk_ace Acl.SystemMandatoryLabel 0 1 (Integrity.label_sid 0x3000)]))
    None.


(** The no-write-up check runs on the request before generic mapping, and
    GENERIC_ALL is not one of its write rights. On an object with an explicit NULL
    DACL, a token of any integrity level obtains the type's full-access mask by asking
    for GENERIC_ALL, while asking for the same rights by name is refused below the
    object's level. *)
Theorem generic_all_bypasses_label (pool : Pool) (ty : ObTypeIndex) (sd : SecurityDescriptor)
    (t : Token) (level : Z)
    (Hlevel : Integrity.se_get_object_integrity_level (Some sd) = Ret level)
    (Hpresent : has_bits (control sd) SE_DACL_PRESENT = true) (Hnull : dacl sd = None)
    (Hlow : Token.integrity_level_rid t < level) :
  se_access_check pool ty (Some sd) ACCESS_GENERIC_ALL (Some t) =
    Ret (Allowed, generic_all (get_generic_mapping_for_type ty)) /\
  se_access_check pool ty (Some sd) (generic_all (get_generic_mapping_for_type ty)) (Some t) =
    Ret (Denied, 0).
Proof.
  unfold se_access_check. rewrite Hlevel, !outcome_bind_ret, Hnull.
  apply has_bits_true, Z.eqb_neq in Hpresent. rewrite Hpresent.
  unfold Integrity.se_check_mandatory_integrity. cbn [Integrity.se_token_integrity_level].
  rewrite (proj2 (Z.ltb_lt _ _) Hlow). split; destruct ty; reflexivity.
Qed.

Lemma generic_all_bypasses_label_witness :
  se_access_check (mk_pool true true true None) ObFile (Some (high_label_sd 0x14))
    ACCESS_GENERIC_ALL (Some Token.new) = Ret (Allowed, 0xF01FF).
Proof.
  destruct (generic_all_bypasses_label (mk_pool true true true None) ObFile (high_label_sd 0x14)
    Token.new 0x3000) as [H _]; [vm_compute; reflexivity.. |]. exact H.
Defined.

(** The default policy fails open. When an object has no descriptor and the pool
    cannot supply the default DACL, the null pointer left in the built descriptor is
    taken for an explicit NULL DACL, and every request of every token is granted. *)
Theorem default_policy_fails_open (pool : Pool) (ty : ObTypeIndex) (t : Token) (desired : Z)
    (Hsd : sd_alloc pool = true) (Hdacl : dacl_alloc pool = false)
    (Hlevel : u_ty 32 (Token.integrity_level_rid t)) :
  se_access_check pool ty None desired (Some t) =
  Ret (Allowed, if has_bits desired ACCESS_MAXIMUM_ALLOWED
                then generic_all (get_generic_mapping_for_type ty)
                else mapped_request desired (Some (get_generic_mapping_for_type ty))).
Proof.
  unfold se_access_check.
  destruct (from_token_dacl pool t None Hlevel Hsd) as (sd & Hft & Hd).
  { unfold build_dacl_from_token. by rewrite Hdacl. }
  by rewrite Hft, outcome_bind_ret, Hd.
Qed.

Lemma default_policy_fails_open_witness :
  se_access_check (mk_pool true false true None) ObProcess None PROCESS_VM_WRITE (Some Token.new) =
  Ret (Allowed, PROCESS_VM_WRITE).
Proof.
  rewrite (default_policy_fails_open (mk_pool true false true None) ObProcess Token.new
    PROCESS_VM_WRITE); [reflexivity.. | done].
Defined.

(** The default DACL gives nobody object-specific rights, its owner included. Its
    entries hold unmapped generic bits while the request is mapped before the
    comparison, so under the default policy an explicit request for any of the low
    sixteen rights is refused unless the debug privilege applies. *)
Theorem default_policy_denies_specific (pool : Pool) (ty : ObTypeIndex) (t : Token)
    (desired i : Z) (Hwf : Token.token_wf t) (Huser : Sid.is_valid (Token.user t) = true)
    (Hlevel : u_ty 32 (Token.integrity_level_rid t)) (Hd : u_ty 32 desired)
    (Hsd : sd_alloc pool = true) (Hdacl : dacl_alloc pool = true)
    (Hmax : has_bits desired ACCESS_MAXIMUM_ALLOWED = false) (Hi : 0 <= i < 16)
    (Hbit : Z.testbit (mapped_request desired (Some (get_generic_mapping_for_type ty))) i = true)
    (Hdbg : Token.holds t (Token.mk_luid SE_DEBUG 0) = false) :
  se_access_check pool ty None desired (Some t) = Ret (Denied, 0).
Proof.
  destruct (build_dacl_repr pool t Hwf Huser Hdacl) as (a & es & Hb & Ha & Hes).
  destruct (from_token_dacl pool t (Some a) Hlevel Hsd Hb) as (sd & Hft & Hdd).
  unfold se_access_check. rewrite Hft, outcome_bind_ret, Hdd, (check_access_spec _ _ _ _ es) by done.
  unfold spec_check. rewrite Hmax.
  set (request := mapped_request _ _) in *.
  destruct (conclude_explicit request (maximum_access (Some (get_generic_mapping_for_type ty)))
    (lor_all (allow_masks t es)) (lor_all (deny_masks t es)) (privileged request t))
    as [[_ Hsat] | [-> _]]; [| | done].
  - apply mapped_request_ty; [done |]. intros m [= <-]. apply mapping_for_type_ty.
  - destruct (Hsat i ltac:(lia) Hbit) as [_ [Hg | Hp]].
    + by apply allow_masks_bit, default_not_granted in Hg.
    + by rewrite privileged_low in Hp.
Qed.

Lemma default_policy_denies_specific_witness :
  se_access_check (mk_pool true true true None) ObProcess None PROCESS_VM_READ
    (Some (Token.new_primary (Sid.well_known Sid.Users))) = Ret (Denied, 0).
Proof.
  apply (default_policy_denies_specific (mk_pool true true true None) ObProcess
    (Token.new_primary (Sid.well_known Sid.Users)) PROCESS_VM_READ 4); try done.
  apply Token.new_primary_wf. unfold Sid.sid_ty. split_and!; try done; repeat constructor; done.
Defined.

End AccessCheck.
