(* ===== verification/Pte.v ===== *)
(** * Page table entries ([src/nt61/src/mm/pte.rs])

    The 64-bit [MMPTE] slot with its hardware, transition, page-file, demand-zero and
    prototype interpretations, and the translation between Win32 and PTE protections.
    A slot is its [u64] value. *)

From S2P Require Import Prelude.

Module Pte.

Definition MMPTE := Z.

Definition empty : MMPTE := 0.
Definition from_raw (v : Z) : MMPTE := v.
Definition raw (p : MMPTE) : Z := p.

(** ** Hardware interpretation *)

Definition is_hardware (p : MMPTE) : bool := has_bits p 1.
Definition is_transition (p : MMPTE) : bool := has_bits p 0x800.
Definition is_prototype (p : MMPTE) : bool := has_bits p 0x400.
Definition is_software (p : MMPTE) : bool :=
  negb (is_hardware p) && negb (is_transition p) && negb (is_prototype p).

Definition set_hardware (pa pte_flags : Z) : MMPTE :=
  Z.lor (Z.land pa (wnot 64 0xFFF)) (Z.land pte_flags 0xFFF).
Definition hardware_page_frame (p : MMPTE) : Z := Z.land p (wnot 64 0xFFF).
Definition hardware_flags (p : MMPTE) : Z := Z.land p 0xFFF.
Definition writable (p : MMPTE) : bool := has_bits p 2.
Definition user (p : MMPTE) : bool := has_bits p 4.
Definition accessed (p : MMPTE) : bool := has_bits p 0x20.
Definition dirty (p : MMPTE) : bool := has_bits p 0x40.
Definition large (p : MMPTE) : bool := has_bits p 0x80.
Definition global (p : MMPTE) : bool := has_bits p 0x100.
Definition no_execute (p : MMPTE) : bool := has_bits p (Z.shiftl 1 63).

Definition set_writable (p : MMPTE) (v : bool) : MMPTE :=
  if v then Z.lor p 2 else Z.land p (wnot 64 2).
Definition set_user (p : MMPTE) (v : bool) : MMPTE :=
  if v then Z.lor p 4 else Z.land p (wnot 64 4).
Definition set_accessed (p : MMPTE) (v : bool) : MMPTE :=
  if v then Z.lor p 0x20 else Z.land p (wnot 64 0x20).
Definition set_dirty (p : MMPTE) (v : bool) : MMPTE :=
  if v then Z.lor p 0x40 else Z.land p (wnot 64 0x40).
Definition set_large (p : MMPTE) (v : bool) : MMPTE :=
  if v then Z.lor p 0x80 else Z.land p (wnot 64 0x80).
Definition set_global (p : MMPTE) (v : bool) : MMPTE :=
  if v then Z.lor p 0x100 else Z.land p (wnot 64 0x100).
Definition set_no_execute (p : MMPTE) (v : bool) : MMPTE :=
  if v then Z.lor p (Z.shiftl 1 63) else Z.land p (wnot 64 (Z.shiftl 1 63)).
Definition clear (_ : MMPTE) : MMPTE := 0.

(** ** Transition interpretation *)

Definition set_transition (pfn protection : Z) : MMPTE :=
  Z.lor (Z.lor (Z.land (wrap 64 (Z.shiftl pfn 12)) 0x000FFFFFFFFFF000) (Z.shiftl 1 11))
    (Z.shiftl (Z.land protection 0x1F) 5).
Definition transition_pfn (p : MMPTE) : Z := Z.land (Z.shiftr p 12) 0x000FFFFF.
Definition transition_protection (p : MMPTE) : Z := Z.land (Z.shiftr p 5) 0x1F.

(** ** Software interpretation *)

Definition set_software_pagefile (page_file offset protection : Z) : MMPTE :=
  Z.lor (Z.lor (Z.lor (Z.shiftl (Z.land page_file 0xF) 12) (Z.shiftl 1 9))
    (Z.shiftl (Z.land protection 0x1F) 5)) (wrap 64 (Z.shiftl (Z.land offset 0xFFFFFFFF) 32)).
Definition set_demand_zero (protection : Z) : MMPTE := Z.shiftl (Z.land protection 0x1F) 5.
Definition software_page_file (p : MMPTE) : Z := Z.land (Z.shiftr p 12) 0xF.
Definition software_offset (p : MMPTE) : Z := Z.land (Z.shiftr p 32) 0xFFFFFFFF.
Definition software_protection (p : MMPTE) : Z := Z.land (Z.shiftr p 5) 0x1F.

(** ** Prototype interpretation *)

Definition set_prototype (pte_addr protection : Z) : MMPTE :=
  Z.lor (Z.lor (Z.land pte_addr 0x000FFFFFFFFFF000) (Z.shiftl 1 10))
    (Z.shiftl (Z.land protection 0x1F) 5).
Definition prototype_address (p : MMPTE) : Z := Z.land p 0x000FFFFFFFFFF000.
Definition prototype_protection (p : MMPTE) : Z := Z.land (Z.shiftr p 5) 0x1F.

Definition set_copy_on_write (p : MMPTE) : MMPTE := Z.lor p (Z.shiftl 1 9).
Definition clear_copy_on_write (p : MMPTE) : MMPTE := Z.land p (wnot 64 (Z.shiftl 1 9)).
Definition is_copy_on_write (p : MMPTE) : bool := has_bits p 0x200.

Definition set_subsection (subsection protection : Z) : MMPTE :=
  Z.lor (Z.lor (Z.land subsection 0x000FFFFFFFFFF000) (Z.shiftl 1 10))
    (Z.shiftl (Z.land protection 0x1F) 5).

(** ** Protection codes *)

Definition PAGE_NOACCESS : Z := 0x01.
Definition PAGE_READONLY : Z := 0x02.
Definition PAGE_READWRITE : Z := 0x04.
Definition PAGE_WRITECOPY : Z := 0x08.
Definition PAGE_EXECUTE : Z := 0x10.
Definition PAGE_EXECUTE_READ : Z := 0x20.
Definition PAGE_EXECUTE_READWRITE : Z := 0x40.
Definition PAGE_EXECUTE_WRITECOPY : Z := 0x80.
Definition PAGE_GUARD : Z := 0x100.
Definition PAGE_NOCACHE : Z := 0x200.
Definition MM_READONLY : Z := 0x0.
Definition MM_EXECUTE : Z := 0x1.
Definition MM_READWRITE : Z := 0x2.
Definition MM_WRITECOPY : Z := 0x3.
Definition MM_EXECUTE_READ : Z := 0x4.
Definition MM_EXECUTE_READWRITE : Z := 0x5.
Definition MM_EXECUTE_WRITECOPY : Z := 0x6.
Definition MM_NOACCESS : Z := 0x18.
Definition MM_GUARD_PAGE : Z := 0x19.

Definition win32_protect_to_mm (code : Z) : Z :=
  let rwx := Z.land code 0xFF in
  if rwx =? PAGE_NOACCESS then MM_NOACCESS
  else if rwx =? PAGE_READONLY then MM_READONLY
  else if rwx =? PAGE_READWRITE then MM_READWRITE
  else if rwx =? PAGE_WRITECOPY then MM_WRITECOPY
  else if rwx =? PAGE_EXECUTE then MM_EXECUTE
  else if rwx =? PAGE_EXECUTE_READ then MM_EXECUTE_READ
  else if rwx =? PAGE_EXECUTE_READWRITE then MM_EXECUTE_READWRITE
  else if rwx =? PAGE_EXECUTE_WRITECOPY then MM_EXECUTE_WRITECOPY
  else MM_NOACCESS.

Definition mm_protect_to_win32 (code : Z) : Z :=
  if code =? MM_NOACCESS then PAGE_NOACCESS
  else if code =? MM_READONLY then PAGE_READONLY
  else if code =? MM_READWRITE then PAGE_READWRITE
  else if code =? MM_WRITECOPY then PAGE_WRITECOPY
  else if code =? MM_EXECUTE then PAGE_EXECUTE
  else if code =? MM_EXECUTE_READ then PAGE_EXECUTE_READ
  else if code =? MM_EXECUTE_READWRITE then PAGE_EXECUTE_READWRITE
  else if code =? MM_EXECUTE_WRITECOPY then PAGE_EXECUTE_WRITECOPY
  else if code =? MM_GUARD_PAGE then PAGE_GUARD
  else PAGE_NOACCESS.

Definition mm_protect_to_pte_bits (code : Z) (user : bool) : Z :=
  let rwx := Z.land code 0xFF in
  let rw :=
    if (rwx =? PAGE_READWRITE) || (rwx =? PAGE_WRITECOPY) || (rwx =? PAGE_EXECUTE_READWRITE)
       || (rwx =? PAGE_EXECUTE_WRITECOPY) then Z.shiftl 1 1 else 0 in
  let us := if user then Z.shiftl 1 2 else 0 in
  let xd :=
    if (rwx =? PAGE_NOACCESS) || (rwx =? PAGE_READONLY) || (rwx =? PAGE_READWRITE)
       || (rwx =? PAGE_WRITECOPY) then Z.shiftl 1 63 else 0 in
  let pwt := if has_bits code PAGE_NOCACHE then Z.shiftl 1 3 else 0 in
  let pcd := if has_bits code PAGE_NOCACHE then Z.shiftl 1 4 else 0 in
  Z.lor (Z.lor (Z.lor (Z.lor (Z.lor 1 rw) us) pwt) pcd) xd.

Definition pfn_from_phys (pa : Z) : Z := Z.shiftr pa 12.
Definition pfn_to_phys (pfn : Z) : Z := wrap 64 (Z.shiftl pfn 12).

(** ** Lemmas *)

(** Write every mask as a shifted run of ones. *)
Ltac masks :=
  change 0x000FFFFFFFFFF000 with (Z.shiftl (Z.ones 40) 12) in *;
  change 0xFFF with (Z.ones 12) in *; change 0x1F with (Z.ones 5) in *;
  change 0xF with (Z.ones 4) in *; change 0x000FFFFF with (Z.ones 20) in *;
  change 0xFFFFFFFF with (Z.ones 32) in *; change (Z.shiftl 1) with (Z.shiftl (Z.ones 1)) in *.

(** Case analysis on the conditions of [mm_protect_to_pte_bits]. *)
Ltac split_ifs :=
  unfold mm_protect_to_pte_bits; rewrite !Z.lor_spec;
  repeat match goal with |- context [if ?b then _ else _] => destruct b end.

(** One bit of a word expression. *)
Ltac one_bit := rewrite ?wrap_land by lia; masks; bit_spec; bit_cmp; bit_simp; bit_close.

Lemma is_hardware_bit p : is_hardware p = Z.testbit p 0.
Proof. apply (has_bits_pow2 p 0). lia. Qed.
Lemma is_transition_bit p : is_transition p = Z.testbit p 11.
Proof. apply (has_bits_pow2 p 11). lia. Qed.
Lemma is_prototype_bit p : is_prototype p = Z.testbit p 10.
Proof. apply (has_bits_pow2 p 10). lia. Qed.
Lemma no_execute_bit p : no_execute p = Z.testbit p 63.
Proof. apply (has_bits_pow2 p 63). lia. Qed.

Lemma user_bit p : user p = Z.testbit p 2.
Proof. apply (has_bits_pow2 p 2). lia. Qed.
Lemma writable_bit p : writable p = Z.testbit p 1.
Proof. apply (has_bits_pow2 p 1). lia. Qed.

(** The hardware flags that have a getter and a setter. *)
Inductive flag := FWritable | FUser | FAccessed | FDirty | FLarge | FGlobal | FNoExecute.

#[export] Instance flag_eq_dec : EqDecision flag.
Proof. solve_decision. Defined.

Definition get_flag (f : flag) : MMPTE -> bool :=
  match f with
  | FWritable => writable | FUser => user | FAccessed => accessed | FDirty => dirty
  | FLarge => large | FGlobal => global | FNoExecute => no_execute
  end.

Definition set_flag (f : flag) : MMPTE -> bool -> MMPTE :=
  match f with
  | FWritable => set_writable | FUser => set_user | FAccessed => set_accessed
  | FDirty => set_dirty | FLarge => set_large | FGlobal => set_global
  | FNoExecute => set_no_execute
  end.

Definition flag_bit (f : flag) : Z :=
  match f with
  | FWritable => 1 | FUser => 2 | FAccessed => 5 | FDirty => 6 | FLarge => 7 | FGlobal => 8
  | FNoExecute => 63
  end.

Lemma get_flag_bit f p : get_flag f p = Z.testbit p (flag_bit f).
Proof.
  destruct f; cbn [get_flag flag_bit];
    [ apply (has_bits_pow2 p 1) | apply (has_bits_pow2 p 2) | apply (has_bits_pow2 p 5)
    | apply (has_bits_pow2 p 6) | apply (has_bits_pow2 p 7) | apply (has_bits_pow2 p 8)
    | apply (has_bits_pow2 p 63) ]; lia.
Qed.

Lemma set_flag_bits f v p i :
  0 <= i < 64 ->
  Z.testbit (set_flag f p v) i = if i =? flag_bit f then v else Z.testbit p i.
Proof.
  intros Hi.
  assert (forall k, 0 <= k -> Z.testbit (if v then Z.lor p (2 ^ k) else Z.land p (wnot 64 (2 ^ k))) i =
    if i =? k then v else Z.testbit p i) as H.
  { intros k Hk. destruct v; [rewrite Z.lor_spec | rewrite Z.land_spec, wnot_testbit by lia];
      rewrite Z.pow2_bits_eqb by lia; destruct (Z.eqb_spec k i), (Z.eqb_spec i k); try lia;
      rewrite ?(proj2 (Z.ltb_lt i 64)) by lia; bit_simp; done. }
  destruct f; cbn [set_flag flag_bit];
    [ apply (H 1) | apply (H 2) | apply (H 5) | apply (H 6) | apply (H 7) | apply (H 8)
    | apply (H 63) ]; lia.
Qed.

(** ** Properties *)

(** A transition entry is recognised as one and only as one, and its protection
    reads back; its frame number reads back modulo 2^20 only, although the entry
    stores forty bits of it. *)
Theorem transition_entry (pfn protection : Z) :
  let p := set_transition pfn protection in
  is_transition p = true /\ is_hardware p = false /\ is_prototype p = false /\
  transition_protection p = Z.land protection 0x1F /\
  transition_pfn p = Z.land pfn 0xFFFFF /\
  Z.land (Z.shiftr p 12) 0xFFFFFFFFFF = Z.land pfn 0xFFFFFFFFFF.
Proof.
  unfold set_transition, transition_protection, transition_pfn. cbv zeta.
  rewrite is_transition_bit, is_hardware_bit, is_prototype_bit.
  split_and!; try one_bit; rewrite ?wrap_land by lia; masks;
    change 0xFFFFFFFFFF with (Z.ones 40); bits_eq.
Qed.

(** Page-file and demand-zero entries are software entries. The page-file number
    and offset read back; so does the protection of a demand-zero entry, but the
    page-file flag (bit 9) is the top bit of the protection field, so a page-file
    entry always reads back with protection bit 4 set. *)
Theorem software_entry (page_file offset protection : Z) :
  let p := set_software_pagefile page_file offset protection in
  let z := set_demand_zero protection in
  is_software p = true /\ software_page_file p = Z.land page_file 0xF /\
  software_offset p = Z.land offset 0xFFFFFFFF /\
  software_protection p = Z.lor (Z.land protection 0x1F) 0x10 /\
  is_software z = true /\ software_protection z = Z.land protection 0x1F.
Proof.
  unfold is_software, set_software_pagefile, set_demand_zero, software_page_file,
    software_offset, software_protection. cbv zeta.
  rewrite !is_transition_bit, !is_hardware_bit, !is_prototype_bit.
  split_and!; try (rewrite !andb_true_iff, !negb_true_iff; split_and!; one_bit);
    rewrite ?wrap_land by lia; masks; try (change 0x10 with (Z.shiftl (Z.ones 1) 4)); bits_eq.
Qed.

(** Installing a hardware entry keeps the frame and the low twelve flag bits, so
    present, write and user bits follow the protection; the no-execute bit the
    protection asks for is bit 63 of the flags and is dropped. *)
Theorem hardware_entry (pa code : Z) (u : bool) (Hpa : u_ty 63 pa) :
  let p := set_hardware pa (mm_protect_to_pte_bits code u) in
  let rwx := Z.land code 0xFF in
  is_hardware p = true /\ hardware_page_frame p = Z.land pa (wnot 64 0xFFF) /\
  user p = u /\
  writable p = ((rwx =? PAGE_READWRITE) || (rwx =? PAGE_WRITECOPY)
                || (rwx =? PAGE_EXECUTE_READWRITE) || (rwx =? PAGE_EXECUTE_WRITECOPY)) /\
  no_execute p = false.
Proof.
  cbv zeta. unfold set_hardware, hardware_page_frame.
  rewrite is_hardware_bit, no_execute_bit, user_bit, writable_bit. split_and!.
  - rewrite Z.lor_spec, !Z.land_spec. unfold mm_protect_to_pte_bits. rewrite !Z.lor_spec.
    bit_simp. done.
  - masks. apply Z.bits_inj'. intros i Hi. bit_spec. bit_cmp; bit_simp; done.
  - rewrite Z.lor_spec, !Z.land_spec, wnot_testbit by lia. bit_simp. by split_ifs.
  - rewrite Z.lor_spec, !Z.land_spec, wnot_testbit by lia. bit_simp. by split_ifs.
  - rewrite Z.lor_spec, !Z.land_spec, (u_ty_testbit 63 pa) by (done || lia).
    change (Z.testbit 0xFFF 63) with false. by rewrite andb_false_r.
Qed.

Lemma hardware_entry_witness :
  no_execute (set_hardware 0x5000 (mm_protect_to_pte_bits PAGE_READWRITE true)) = false.
Proof.
  destruct (hardware_entry 0x5000 PAGE_READWRITE true) as (_ & _ & _ & _ & H);
    [unfold u_ty; lia | exact H].
Defined.

(** Each hardware flag reads back what was set, and setting it changes no other
    bit of the entry. *)
Theorem flags_independent (f : flag) (v : bool) (p : MMPTE) :
  get_flag f (set_flag f p v) = v /\
  (forall g, g <> f -> get_flag g (set_flag f p v) = get_flag g p) /\
  (forall i, 0 <= i < 64 -> i <> flag_bit f ->
     Z.testbit (set_flag f p v) i = Z.testbit p i).
Proof.
  assert (forall g, 0 <= flag_bit g < 64) as Hb by (intros []; cbn; lia).
  split_and!.
  - rewrite get_flag_bit, set_flag_bits, Z.eqb_refl by apply Hb. done.
  - intros g Hg. rewrite !get_flag_bit, set_flag_bits by apply Hb.
    destruct (Z.eqb_spec (flag_bit g) (flag_bit f)) as [E|]; [| done].
    by destruct f, g.
  - intros i Hi Hne. rewrite set_flag_bits by done. by destruct (Z.eqb_spec i (flag_bit f)).
Qed.

(** A prototype entry is recognised as one and only as one and its protection
    reads back. The address reads back with its low twelve and high twelve bits
    cleared, hence unchanged exactly for page-aligned addresses below 2^52. *)
Theorem prototype_entry (addr protection : Z) (Haddr : u_ty 64 addr) :
  let p := set_prototype addr protection in
  is_prototype p = true /\ is_hardware p = false /\ is_transition p = false /\
  prototype_protection p = Z.land protection 0x1F /\
  (prototype_address p = addr <-> addr mod 4096 = 0 /\ addr < 2 ^ 52).
Proof.
  unfold set_prototype, prototype_protection, prototype_address. cbv zeta.
  rewrite is_transition_bit, is_hardware_bit, is_prototype_bit.
  split_and!; try one_bit; try (masks; bits_eq).
  assert (Z.land (Z.lor (Z.lor (Z.land addr 0x000FFFFFFFFFF000) (Z.shiftl 1 10))
    (Z.shiftl (Z.land protection 0x1F) 5)) 0x000FFFFFFFFFF000 =
    (addr / 2 ^ 12) mod 2 ^ 40 * 2 ^ 12) as ->.
  { rewrite <- Z.shiftr_div_pow2, <- Z.land_ones, <- Z.shiftl_mul_pow2 by lia. masks.
    apply Z.bits_inj'. intros i Hi. bit_spec; bit_cmp; bit_simp; try bit_close.
    rewrite Z.shiftr_spec by lia. f_equal; lia. }
  unfold u_ty in Haddr. change (2 ^ 12) with 4096. pose proof (Z.div_mod addr 4096).
  pose proof (Z.mod_pos_bound addr 4096). pose proof (Z.mod_pos_bound (addr / 4096) (2 ^ 40)).
  split.
  - intros H'. split; [rewrite <- H'; apply Z.mod_mul; lia | lia].
  - intros [Hal Hlt]. rewrite Z.mod_small; [lia |].
    split; [apply Z.div_pos; lia | apply Z.div_lt_upper_bound; lia].
Qed.

Lemma prototype_entry_witness :
  prototype_address (set_prototype 0x7000 2) = 0x7000 <-> 0x7000 mod 4096 = 0 /\ 0x7000 < 2 ^ 52.
Proof.
  destruct (prototype_entry 0x7000 2) as (_ & _ & _ & _ & H); [unfold u_ty; lia | exact H].
Defined.

(** The eight basic Win32 protections survive the trip through the five-bit PTE
    code, caching and guard bits aside, and every other code becomes PAGE_NOACCESS. *)
Theorem protection_roundtrip (code : Z) :
  let rwx := Z.land code 0xFF in
  mm_protect_to_win32 (win32_protect_to_mm code) =
    (if existsb (Z.eqb rwx) [0x01; 0x02; 0x04; 0x08; 0x10; 0x20; 0x40; 0x80]
     then rwx else PAGE_NOACCESS) /\
  u_ty 5 (win32_protect_to_mm code).
Proof.
  cbv zeta. unfold win32_protect_to_mm. generalize (Z.land code 0xFF) as rwx. intros rwx.
  unfold PAGE_NOACCESS, PAGE_READONLY, PAGE_READWRITE, PAGE_WRITECOPY, PAGE_EXECUTE,
    PAGE_EXECUTE_READ, PAGE_EXECUTE_READWRITE, PAGE_EXECUTE_WRITECOPY. cbn [existsb].
  repeat (match goal with |- context [rwx =? ?c] =>
    destruct (Z.eqb_spec rwx c) as [-> |]; [split; [done | by unfold u_ty; vm_compute] |] end).
  split; [done | by unfold u_ty; vm_compute].
Qed.

End Pte.
