(* ===== verification/CellAllocator.v ===== *)
(** * Registry cell allocator

    Models [registry/cell_allocator.rs]: segregated free lists over a bump pointer.
    The specification side views the arena as a tiling of the interval between
    the initial offset and the bump pointer by allocated and free cells. *)

From stdpp Require Import sorting.
From S2P Require Import Prelude.

Module CellAllocator.

Definition MIN_CELL_SIZE : Z := 8.
Definition MAX_CELL_SIZE : Z := 512 * 1024.
Definition CELL_ALIGNMENT : Z := 8.
Definition FREE_LIST_BUCKETS : nat := 32.

Inductive HiveError : Type :=
| TooSmall
| BadMagic
| UnsupportedVersion (v : Z)
| BadChecksum
| Truncated
| BadCellKind (k : Z)
| BadUtf16
| OutOfBounds
| InvalidPointer.

Record FreeCell : Type := mk_cell { offset : Z; size : Z }.

#[export] Instance FreeCell_eq_dec : EqDecision FreeCell.
Proof. solve_decision. Defined.

Record CellAllocator : Type := mk {
  free_lists : list (list FreeCell);
  allocated : gmap Z Z;
  total_allocated : Z;
  total_free : Z;
  next_offset : Z;
  max_size : Z }.

Definition new (initial_size max_size : Z) : CellAllocator :=
  mk (replicate FREE_LIST_BUCKETS []) ∅ 0 0 initial_size max_size.

(** [while s > 1 { s >>= 1; log += 1 }] *)
Fixpoint log_loop (fuel : nat) (s : Z) (log : nat) : outcome nat :=
  match fuel with
  | O => OutOfFuel
  | S fuel => if 1 <? s then log_loop fuel (Z.shiftr s 1) (S log) else Ret log
  end.

Definition size_to_bucket (size : Z) : outcome nat :=
  if size <=? 64 then Ret 0%nat
  else if size <=? 128 then Ret 1%nat
  else if size <=? 256 then Ret 2%nat
  else if size <=? 512 then Ret 3%nat
  else log ← log_loop 33 size 0; Ret (Nat.min (log - 9) (FREE_LIST_BUCKETS - 1)).

Definition align_up (value alignment : Z) : Z :=
  Z.land (value +[32] alignment -[32] 1) (wnot 32 (alignment -[32] 1)).

(** The search loops of the allocator: the first bucket that holds a cell with [f]
    loses the first such cell ([position] and [remove]), and the loop stops. *)
Fixpoint take_first (f : FreeCell -> bool) (bs : list (list FreeCell))
    : option (FreeCell * list (list FreeCell)) :=
  match bs with
  | [] => None
  | b :: bs' =>
      match position f b with
      | Some pos =>
          match b !! pos with Some cell => Some (cell, delete pos b :: bs') | None => None end
      | None =>
          match take_first f bs' with Some (cell, bs'') => Some (cell, b :: bs'') | None => None end
      end
  end.

(** The two loops of [coalesce_free_cell]: the free cell that ends where the given
    one starts, then the one that starts where the joined cell ends. *)
Definition absorb_prev (bs : list (list FreeCell)) (tf : Z) (c : FreeCell)
    : FreeCell * list (list FreeCell) * Z :=
  match take_first (fun cell => offset cell +[32] size cell =? offset c) bs with
  | Some (prev, bs) => (mk_cell (offset prev) (size c +[32] size prev), bs, tf -[32] size prev)
  | None => (c, bs, tf)
  end.

Definition absorb_next (bs : list (list FreeCell)) (tf : Z) (c : FreeCell)
    : FreeCell * list (list FreeCell) * Z :=
  let next_offset := offset c +[32] size c in
  match take_first (fun cell => offset cell =? next_offset) bs with
  | Some (next, bs) => (mk_cell (offset c) (size c +[32] size next), bs, tf -[32] size next)
  | None => (c, bs, tf)
  end.

Definition coalesce_free_cell (st : CellAllocator) (off sz : Z) : FreeCell * CellAllocator :=
  let '(c, bs, tf) := absorb_prev (free_lists st) (total_free st) (mk_cell off sz) in
  let '(c, bs, tf) := absorb_next bs tf c in
  (c, mk bs (allocated st) (total_allocated st) tf (next_offset st) (max_size st)).

Definition free_cell_internal (st : CellAllocator) (off sz : Z) : outcome CellAllocator :=
  let '(coalesced, st) := coalesce_free_cell st off sz in
  bucket ← size_to_bucket (size coalesced);
  b ← rd (free_lists st) bucket;
  bs ← wr (free_lists st) bucket (b ++ [coalesced]);
  Ret (mk bs (allocated st) (total_allocated st)
         (total_free st +[32] size coalesced) (next_offset st) (max_size st)).

(** The free-list half of [allocate], from the bucket the size hashes to upwards. *)
Definition allocate_from (st : CellAllocator) (cell : FreeCell) (bs : list (list FreeCell))
    (aligned_size : Z) : outcome CellAllocator :=
  let st := mk bs (allocated st) (total_allocated st) (total_free st) (next_offset st)
              (max_size st) in
  let remainder := size cell -[32] aligned_size in
  st ← (if MIN_CELL_SIZE <=? remainder
        then free_cell_internal st (offset cell +[32] aligned_size) remainder else Ret st);
  Ret (mk (free_lists st) (<[offset cell := aligned_size]> (allocated st))
         (total_allocated st +[32] aligned_size) (total_free st -[32] size cell)
         (next_offset st) (max_size st)).

Definition allocate (st : CellAllocator) (sz : Z) : outcome ((Z + HiveError) * CellAllocator) :=
  if (sz <? MIN_CELL_SIZE) || (MAX_CELL_SIZE <? sz) then Ret (inr OutOfBounds, st)
  else
    let aligned_size := align_up sz CELL_ALIGNMENT in
    bucket ← size_to_bucket aligned_size;
    match take_first (fun cell => aligned_size <=? size cell) (drop bucket (free_lists st)) with
    | Some (cell, bs) =>
        st' ← allocate_from st cell (take bucket (free_lists st) ++ bs) aligned_size;
        Ret (inl (offset cell), st')
    | None =>
        let off := next_offset st in
        let new_next := off +[32] aligned_size in
        if max_size st <? new_next then Ret (inr OutOfBounds, st)
        else Ret (inl off,
          mk (free_lists st) (<[off := aligned_size]> (allocated st))
            (total_allocated st +[32] aligned_size) (total_free st) new_next (max_size st))
    end.

Definition free (st : CellAllocator) (off : Z) : outcome ((unit + HiveError) * CellAllocator) :=
  match allocated st !! off with
  | None => Ret (inr InvalidPointer, st)
  | Some sz =>
      st' ← free_cell_internal
        (mk (free_lists st) (delete off (allocated st)) (total_allocated st -[32] sz)
           (total_free st) (next_offset st) (max_size st)) off sz;
      Ret (inl tt, st')
  end.

Record CellAllocatorStats : Type := mk_stats {
  st_total_allocated : Z; st_total_free : Z; st_allocated_cells : Z; st_next_offset : Z }.

Definition stats (st : CellAllocator) : CellAllocatorStats :=
  mk_stats (total_allocated st) (total_free st) (wrap 32 (Z.of_nat (Datatypes.length (map_to_list (allocated st)))))
    (next_offset st).

(** [allocated.iter().collect()] followed by [sort_by_key]. *)
Definition by_offset (p q : Z * Z) : Prop := p.1 <= q.1.

#[export] Instance by_offset_dec : RelDecision by_offset.
Proof. intros p q. unfold by_offset. apply _. Defined.

Fixpoint validate_loop (sorted : list (Z * Z)) : unit + HiveError :=
  match sorted with
  | (off1, size1) :: (((off2, _) :: _) as rest) =>
      if off2 <? off1 +[32] size1 then inr OutOfBounds else validate_loop rest
  | _ => inl tt
  end.

Definition validate (st : CellAllocator) : unit + HiveError :=
  validate_loop (merge_sort by_offset (map_to_list (allocated st))).

(** ** Specification: the arena as a tiling *)

(** Additive measures of cells: splitting a cell splits its measure. *)
Class Additive (f : FreeCell -> Z) : Prop :=
  additive o s t : 0 <= s -> 0 <= t ->
    f (mk_cell o (s + t)) = f (mk_cell o s) + f (mk_cell (o + s) t).

(** How often address [x] is covered. *)
Definition covers (x : Z) (c : FreeCell) : Z :=
  if (offset c <=? x) && (x <? offset c + size c) then 1 else 0.

Definition alloc_cells (st : CellAllocator) : list FreeCell :=
  (fun p => mk_cell p.1 p.2) <$> map_to_list (allocated st).
Definition free_cells (st : CellAllocator) : list FreeCell := concat (free_lists st).
Definition cells (st : CellAllocator) : list FreeCell := alloc_cells st ++ free_cells st.

Definition cell_ok (lo hi : Z) (c : FreeCell) : Prop :=
  lo <= offset c /\ 8 <= size c /\ size c mod 8 = 0 /\ offset c + size c <= hi.

(** No two cells of [l] touch: the free list is fully coalesced. *)
Definition no_adjacent (l : list FreeCell) : Prop :=
  forall c d, c ∈ l -> d ∈ l -> offset c + size c <> offset d.

Record inv (base : Z) (st : CellAllocator) : Prop := mk_inv {
  inv_buckets : Datatypes.length (free_lists st) = FREE_LIST_BUCKETS;
  inv_base : 0 <= base <= next_offset st;
  inv_max : next_offset st <= max_size st;
  inv_width : max_size st + MAX_CELL_SIZE < 2 ^ 32;
  inv_cells : Forall (cell_ok base (next_offset st)) (cells st);
  inv_tiles f : Additive f -> msum f (cells st) = f (mk_cell base (next_offset st - base));
  inv_alloc : total_allocated st = msum size (alloc_cells st);
  inv_free : total_free st = msum size (free_cells st);
  inv_coalesced : no_adjacent (free_cells st) }.

(** Neither the bump region nor a bucket the search visits has room for [a] bytes. *)
Definition exhausted (st : CellAllocator) (a : Z) : Prop :=
  max_size st < next_offset st + a /\
  forall b, size_to_bucket a = Ret b ->
    Forall (fun c => size c < a) (concat (drop b (free_lists st))).

(** The states the public operations reach. *)
Inductive reachable (base limit : Z) : CellAllocator -> Prop :=
| reach_new : reachable base limit (new base limit)
| reach_allocate st sz r st' :
    reachable base limit st -> allocate st sz = Ret (r, st') -> reachable base limit st'
| reach_free st off r st' :
    reachable base limit st -> free st off = Ret (r, st') -> reachable base limit st'.

(** A run of the repository's own test: two cells allocated, the first one freed. *)
Definition run_allocate (st : CellAllocator) (sz : Z) : CellAllocator :=
  match allocate st sz with Ret (_, st') => st' | _ => st end.
Definition run_free (st : CellAllocator) (off : Z) : CellAllocator :=
  match free st off with Ret (_, st') => st' | _ => st end.
Definition sample : CellAllocator :=
  run_free (run_allocate (run_allocate (new 4096 (1024 * 1024)) 64) 128) 4096.

(** ** Lemmas *)

Lemma reach_run_allocate base limit st sz :
  reachable base limit st -> reachable base limit (run_allocate st sz).
Proof.
  intros H. unfold run_allocate. destruct (allocate st sz) as [[r st'] | |] eqn:E; try done.
  by eapply reach_allocate.
Qed.

Lemma reach_run_free base limit st off :
  reachable base limit st -> reachable base limit (run_free st off).
Proof.
  intros H. unfold run_free. destruct (free st off) as [[r st'] | |] eqn:E; try done.
  by eapply reach_free.
Qed.

Lemma sample_reachable : reachable 4096 (1024 * 1024) sample.
Proof. apply reach_run_free, reach_run_allocate, reach_run_allocate, reach_new. Qed.

#[export] Instance size_additive : Additive size.
Proof. done. Qed.

#[export] Instance covers_additive x : Additive (covers x).
Proof.
  intros o s t Hs Ht. unfold covers. cbn [offset size].
  destruct (Z.leb_spec o x), (Z.leb_spec (o + s) x), (Z.ltb_spec x (o + (s + t))),
    (Z.ltb_spec x (o + s)), (Z.ltb_spec x (o + s + t)); cbn; lia.
Qed.

Lemma take_first_Some f bs c bs' :
  take_first f bs = Some (c, bs') ->
  f c = true /\ concat bs ≡ₚ c :: concat bs' /\ Datatypes.length bs' = Datatypes.length bs.
Proof.
  revert bs'. induction bs as [| b bs IH]; intros bs'; cbn [take_first]; [done |].
  destruct (position f b) as [pos |] eqn:Hpos.
  - apply position_Some in Hpos as (x & Hx & Hf & _). rewrite Hx. intros [= <- <-].
    split_and!; [done | | done]. cbn [concat]. by rewrite (delete_perm b pos x Hx) at 1.
  - destruct (take_first f bs) as [[c' bs''] |] eqn:Ht; [| done]. intros [= <- <-].
    destruct (IH bs'') as (Hf & Hp & Hl); [done |].
    split_and!; [done | | by cbn; rewrite Hl]. cbn [concat].
    rewrite Hp. by rewrite Permutation_middle.
Qed.

Lemma take_first_None f bs :
  take_first f bs = None -> Forall (fun c => f c = false) (concat bs).
Proof.
  induction bs as [| b bs IH]; cbn [take_first concat]; [constructor |].
  destruct (position f b) as [pos |] eqn:Hpos.
  - apply position_Some in Hpos as (x & Hx & _). by rewrite Hx.
  - destruct (take_first f bs) as [[? ?] |]; [done |]. intros _.
    apply Forall_app. split; [by apply position_None | by apply IH].
Qed.

Lemma log_loop_spec fuel s log :
  1 <= s < 2 ^ Z.of_nat fuel ->
  log_loop fuel s log = Ret (log + Z.to_nat (Z.log2 s))%nat.
Proof.
  revert s log. induction fuel as [| fuel IH]; intros s log Hs; [cbn in Hs; lia |].
  cbn [log_loop]. destruct (Z.ltb_spec 1 s) as [H |].
  - rewrite Nat2Z.inj_succ, Z.pow_succ_r in Hs by lia.
    rewrite Z.shiftr_div_pow2 by lia. change (2 ^ 1) with 2.
    assert (1 <= s / 2 < 2 ^ Z.of_nat fuel) by
      (split; [apply Z.div_le_lower_bound; lia | apply Z.div_lt_upper_bound; lia]).
    rewrite IH by lia. f_equal.
    assert (Z.log2 s = Z.succ (Z.log2 (s / 2))) as ->.
    { pose proof (Z.log2_shiftr s 1) as E. rewrite Z.shiftr_div_pow2 in E by lia.
      change (2 ^ 1) with 2 in E. rewrite E by lia.
      pose proof (Z.log2_pos s H). lia. }
    pose proof (Z.log2_nonneg (s / 2)). lia.
  - replace s with 1 by lia. cbn. f_equal. lia.
Qed.

Lemma size_to_bucket_spec sz :
  0 < sz -> u_ty 32 sz ->
  exists b, size_to_bucket sz = Ret b /\ (b < FREE_LIST_BUCKETS)%nat /\
    (512 < sz -> b = Z.to_nat (Z.log2 sz - 9)).
Proof.
  intros Hp [_ Hsz]. unfold size_to_bucket, FREE_LIST_BUCKETS.
  destruct (Z.leb_spec sz 64); [exists 0%nat; split_and!; [done | lia | lia] |].
  destruct (Z.leb_spec sz 128); [exists 1%nat; split_and!; [done | lia | lia] |].
  destruct (Z.leb_spec sz 256); [exists 2%nat; split_and!; [done | lia | lia] |].
  destruct (Z.leb_spec sz 512); [exists 3%nat; split_and!; [done | lia | lia] |].
  rewrite log_loop_spec by (change (Z.of_nat 33) with 33; lia).
  rewrite outcome_bind_ret. eexists. split; [reflexivity |].
  assert (Z.log2 sz < 32) by (apply Z.log2_lt_pow2; lia). lia.
Qed.

Lemma align_up_spec sz :
  0 <= sz <= MAX_CELL_SIZE ->
  align_up sz CELL_ALIGNMENT = (sz + 7) / 8 * 8.
Proof.
  unfold align_up, CELL_ALIGNMENT, MAX_CELL_SIZE. intros H.
  rewrite (wrap_small 32 (8 - 1)) by (unfold u_ty; lia).
  rewrite (wrap_small 32 (sz + 8)), wrap_small by (unfold u_ty; lia).
  change (8 - 1) with (Z.ones 3). replace (sz + 8 - 1) with (sz + 7) by lia.
  change 8 with (2 ^ 3) at 1 2. rewrite <- Z.shiftr_div_pow2, <- Z.shiftl_mul_pow2 by lia.
  assert (u_ty 32 (sz + 7)) as Hty by (unfold u_ty; lia).
  apply Z.bits_inj'. intros i Hi. rewrite Z.land_spec, wnot_testbit by lia.
  rewrite Z.testbit_ones_nonneg by lia.
  destruct (Z.ltb_spec i 3).
  - rewrite Z.shiftl_spec_low by lia. by rewrite andb_false_r, andb_false_r.
  - rewrite Z.shiftl_spec, Z.shiftr_spec by lia. replace (i - 3 + 3) with i by lia.
    destruct (Z.ltb_spec i 32); [by rewrite !andb_true_r |].
    by rewrite (u_ty_testbit 32 (sz + 7)).
Qed.

Lemma align_up_bounds sz :
  MIN_CELL_SIZE <= sz <= MAX_CELL_SIZE ->
  let a := align_up sz CELL_ALIGNMENT in
  sz <= a < sz + 8 /\ 8 <= a <= MAX_CELL_SIZE /\ a mod 8 = 0.
Proof.
  intros H. cbv zeta. unfold MIN_CELL_SIZE in H. rewrite align_up_spec by lia.
  unfold MAX_CELL_SIZE in *. rewrite Z.mod_mul by lia.
  pose proof (Z.div_mod (sz + 7) 8). pose proof (Z.mod_pos_bound (sz + 7) 8).
  split_and!; lia.
Qed.

Lemma cell_ok_join lo hi c d :
  cell_ok lo hi c -> cell_ok lo hi d -> offset c + size c = offset d ->
  cell_ok lo hi (mk_cell (offset c) (size c + size d)).
Proof.
  unfold cell_ok. intros (?&?&E1&?) (?&?&E2&?) ?. cbn [offset size].
  rewrite Z.add_mod, E1, E2 by lia. change ((0 + 0) mod 8) with 0. lia.
Qed.

Lemma no_adjacent_cons r l :
  0 < size r -> no_adjacent l -> Forall (fun c => offset c + size c <> offset r) l ->
  Forall (fun c => offset r + size r <> offset c) l -> no_adjacent (r :: l).
Proof.
  rewrite !Forall_forall. intros Hr Hl Hb Ha c d [-> | Hc]%elem_of_cons [-> | Hd]%elem_of_cons.
  - lia.
  - by apply Ha.
  - by apply Hb.
  - by apply Hl.
Qed.

Lemma no_adjacent_perm l k : l ≡ₚ k -> no_adjacent l -> no_adjacent k.
Proof. intros Hp Hl c d Hc Hd. apply Hl; by rewrite Hp. Qed.

Lemma no_adjacent_tail c l : no_adjacent (c :: l) -> no_adjacent l.
Proof. intros Hl d e Hd He. apply Hl; set_solver. Qed.

Lemma join_measure f c d :
  Additive f -> 0 <= size c -> 0 <= size d -> offset c + size c = offset d ->
  f (mk_cell (offset c) (size c + size d)) = f c + f d.
Proof. destruct c, d. cbn. intros Hf Hc Hd <-. by apply Hf. Qed.

Section Coalesce.
Context (lo hi : Z) (Hlo : 0 <= lo) (Hhi : hi < 2 ^ 32).

(** What a step from cell [c] beside the lists [bs] to [r] beside [bs'] keeps. *)
Record absorbed (bs : list (list FreeCell)) (tf : Z) (c r : FreeCell)
    (bs' : list (list FreeCell)) (tf' : Z) : Prop := mk_absorbed {
  ab_length : Datatypes.length bs' = Datatypes.length bs;
  ab_ok : cell_ok lo hi r;
  ab_free_ok : Forall (cell_ok lo hi) (concat bs');
  ab_measure f : Additive f -> msum f (concat bs') + f r = msum f (concat bs) + f c;
  ab_total k : tf = wrap 32 (msum size (concat bs) + k) ->
    tf' = wrap 32 (msum size (concat bs') + k);
  ab_adjacent : no_adjacent (concat bs') }.

Lemma absorbed_trans bs tf c r bs1 tf1 s bs2 tf2 :
  absorbed bs tf c r bs1 tf1 -> absorbed bs1 tf1 r s bs2 tf2 -> absorbed bs tf c s bs2 tf2.
Proof.
  intros [L1 O1 F1 M1 T1 A1] [L2 O2 F2 M2 T2 A2]. split; auto; [congruence |].
  intros f Hf. rewrite M2 by done. by apply M1.
Qed.

Lemma absorbed_refl bs tf c :
  Forall (cell_ok lo hi) (concat bs) -> cell_ok lo hi c -> no_adjacent (concat bs) ->
  absorbed bs tf c c bs tf.
Proof. by split. Qed.

(** Joining with a cell [d] that leaves the lists. *)
Lemma absorbed_join bs bs' tf c d r :
  Forall (cell_ok lo hi) (concat bs) -> no_adjacent (concat bs) ->
  concat bs ≡ₚ d :: concat bs' -> Datatypes.length bs' = Datatypes.length bs ->
  cell_ok lo hi r -> (forall f, Additive f -> f r = f c + f d) ->
  absorbed bs tf c r bs' (tf -[32] size d).
Proof.
  intros Hok Hadj Hp Hl Hr Hm. rewrite Hp, Forall_cons in Hok. split; [done | done | tauto | | |].
  - intros f Hf. rewrite Hm, Hp, msum_cons by done. lia.
  - intros k ->. rewrite Hp, msum_cons, wrap_sub_l. f_equal. lia.
  - eapply no_adjacent_tail, no_adjacent_perm; [exact Hp | done].
Qed.

Lemma absorb_prev_spec bs tf c :
  Forall (cell_ok lo hi) (concat bs) -> cell_ok lo hi c -> no_adjacent (concat bs) ->
  let '(r, bs', tf') := absorb_prev bs tf c in
  absorbed bs tf c r bs' tf' /\ Forall (fun d => offset d + size d <> offset r) (concat bs').
Proof.
  intros Hok Hc Hadj. unfold absorb_prev. destruct (take_first _ bs) as [[d bs'] |] eqn:Ht.
  - apply take_first_Some in Ht as (Hf & Hp & Hl).
    assert (cell_ok lo hi d) as Hd by (rewrite Hp, Forall_cons in Hok; tauto).
    apply Z.eqb_eq in Hf.
    rewrite wrap_small in Hf by (unfold cell_ok, u_ty in *; lia).
    rewrite (wrap_small 32 (size c + size d)) by (unfold cell_ok, u_ty in *; lia).
    rewrite (Z.add_comm (size c)). split.
    + apply absorbed_join; try done; [by apply cell_ok_join |]. intros f Hadd.
      rewrite join_measure by (done || unfold cell_ok in *; lia). lia.
    + cbn [offset]. apply Forall_forall. intros e He. apply Hadj; rewrite Hp; set_solver.
  - split; [by apply absorbed_refl |]. apply take_first_None in Ht.
    rewrite Forall_forall in Ht, Hok |- *. intros d Hd. specialize (Ht d Hd).
    specialize (Hok d Hd). apply Z.eqb_neq in Ht.
    by rewrite wrap_small in Ht by (unfold cell_ok, u_ty in *; lia).
Qed.

Lemma absorb_next_spec bs tf c :
  Forall (cell_ok lo hi) (concat bs) -> cell_ok lo hi c -> no_adjacent (concat bs) ->
  Forall (fun d => offset d + size d <> offset c) (concat bs) ->
  let '(r, bs', tf') := absorb_next bs tf c in
  absorbed bs tf c r bs' tf' /\ no_adjacent (r :: concat bs').
Proof.
  intros Hok Hc Hadj Hbefore. unfold absorb_next.
  rewrite (wrap_small 32 (offset c + size c)) by (unfold cell_ok, u_ty in *; lia).
  destruct (take_first _ bs) as [[d bs'] |] eqn:Ht.
  - apply take_first_Some in Ht as (Hf & Hp & Hl). apply Z.eqb_eq in Hf.
    assert (cell_ok lo hi d) as Hd by (rewrite Hp, Forall_cons in Hok; tauto).
    rewrite (wrap_small 32 (size c + size d)) by (unfold cell_ok, u_ty in *; lia).
    split.
    + apply absorbed_join; try done; [by apply cell_ok_join |]. intros f Hadd.
      by apply join_measure; [done | unfold cell_ok in *; lia.. | done].
    + apply no_adjacent_cons; cbn [offset size]; [unfold cell_ok in *; lia | | |].
      * eapply no_adjacent_tail, no_adjacent_perm; [exact Hp | done].
      * rewrite Hp, Forall_cons in Hbefore. tauto.
      * apply Forall_forall. intros e He E. apply (Hadj d e); [rewrite Hp; set_solver.. | lia].
  - split; [by apply absorbed_refl |]. apply no_adjacent_cons; [unfold cell_ok in *; lia | done | done |].
    apply take_first_None in Ht. eapply Forall_impl; [exact Ht |]. cbn. intros d Hd%Z.eqb_neq. done.
Qed.

(** [free_cell_internal] returns the cell to the lists: every additive measure of the
    free cells grows by the measure of the cell. *)
Lemma free_cell_internal_spec st c k :
  Datatypes.length (free_lists st) = FREE_LIST_BUCKETS ->
  Forall (cell_ok lo hi) (free_cells st) -> cell_ok lo hi c -> no_adjacent (free_cells st) ->
  total_free st = wrap 32 (msum size (free_cells st) + k) ->
  exists bs tf,
    free_cell_internal st (offset c) (size c) =
      Ret (mk bs (allocated st) (total_allocated st) tf (next_offset st) (max_size st)) /\
    Datatypes.length bs = FREE_LIST_BUCKETS /\ Forall (cell_ok lo hi) (concat bs) /\
    (forall f, Additive f -> msum f (concat bs) = msum f (free_cells st) + f c) /\
    tf = wrap 32 (msum size (concat bs) + k) /\ no_adjacent (concat bs).
Proof.
  intros Hlen Hok Hc Hadj Htf. unfold free_cell_internal, coalesce_free_cell, free_cells in *.
  replace (mk_cell (offset c) (size c)) with c by by destruct c.
  pose proof (absorb_prev_spec (free_lists st) (total_free st) c Hok Hc Hadj) as H1.
  destruct (absorb_prev _ _ _) as [[r1 bs1] tf1]. destruct H1 as [[L1 O1 F1 M1 T1 A1] B1].
  pose proof (absorb_next_spec bs1 tf1 r1 F1 O1 A1 B1) as H2.
  destruct (absorb_next _ _ _) as [[r2 bs2] tf2]. destruct H2 as [[L2 O2 F2 M2 T2 A2] B2].
  destruct (size_to_bucket_spec (size r2)) as (b & -> & Hb & _);
    [unfold cell_ok in *; lia | unfold cell_ok, u_ty in *; lia |].
  rewrite outcome_bind_ret. cbn [free_lists allocated total_allocated total_free next_offset max_size].
  destruct (lookup_lt_is_Some_2 bs2 b) as [l Hl]; [lia |].
  rewrite (rd_lookup _ _ _ Hl), outcome_bind_ret, wr_in, outcome_bind_ret by lia.
  assert (concat (<[b := l ++ [r2]]> bs2) ≡ₚ r2 :: concat bs2) as Hp.
  { rewrite insert_take_drop by lia. rewrite <- (take_drop_middle bs2 b l Hl) at 3.
    rewrite !concat_app. cbn [concat]. solve_Permutation. }
  eexists _, _. split; [reflexivity |]. split_and!.
  - rewrite length_insert. lia.
  - rewrite Hp, Forall_cons. done.
  - intros f Hf. rewrite Hp, msum_cons. specialize (M1 f Hf). specialize (M2 f Hf). lia.
  - rewrite (T2 k (T1 k Htf)), wrap_add_l, Hp, msum_cons. f_equal. lia.
  - eapply no_adjacent_perm; [symmetry; exact Hp | done].
Qed.

End Coalesce.

Lemma alloc_insert m o sz :
  m !! o = None ->
  (fun p => mk_cell p.1 p.2) <$> map_to_list (<[o := sz]> m) ≡ₚ
  mk_cell o sz :: ((fun p => mk_cell p.1 p.2) <$> map_to_list m).
Proof. intros H. by rewrite (map_to_list_insert m o sz H). Qed.

Lemma alloc_elem st o sz : allocated st !! o = Some sz <-> mk_cell o sz ∈ alloc_cells st.
Proof.
  unfold alloc_cells. rewrite list_elem_of_fmap. split.
  - intros H. exists (o, sz). by rewrite elem_of_map_to_list.
  - intros ([o' sz'] & [= -> ->] & H). by rewrite elem_of_map_to_list in H.
Qed.

Lemma covers_bounds x c : 0 <= covers x c <= 1.
Proof. unfold covers. destruct (_ && _); lia. Qed.

Lemma covers_in x c : offset c <= x < offset c + size c -> covers x c = 1.
Proof.
  intros H. unfold covers. by destruct (Z.leb_spec (offset c) x), (Z.ltb_spec x (offset c + size c)); try lia.
Qed.

(** Two cells at different positions of a list that covers nothing twice share no address. *)
Lemma covers_disjoint x l c d k :
  msum (covers x) l <= 1 -> l ≡ₚ c :: d :: k -> covers x c = 1 -> covers x d = 1 -> False.
Proof.
  intros Hm Hp Hc Hd. rewrite Hp, !msum_cons in Hm.
  assert (0 <= msum (covers x) k) by
    (apply msum_nonneg, Forall_forall; intros ? _; apply covers_bounds). lia.
Qed.

Lemma covered_exists x l :
  0 < msum (covers x) l -> exists c, c ∈ l /\ offset c <= x < offset c + size c.
Proof.
  induction l as [| c l IH]; [rewrite msum_nil; lia |]. rewrite msum_cons. intros H.
  destruct (Z.leb_spec (offset c) x), (Z.ltb_spec x (offset c + size c));
    [by exists c; split; [apply elem_of_cons; left | lia] | ..];
    unfold covers at 1 in H.
  all: destruct (Z.leb_spec (offset c) x), (Z.ltb_spec x (offset c + size c)); try lia.
  all: destruct IH as (d & Hd & Hx); [cbn in H; lia |]; exists d; by split; [apply elem_of_cons; right |].
Qed.

(** Assembling the invariant: the counters need only be right modulo [2 ^ 32]. *)
Lemma inv_intro base st :
  Datatypes.length (free_lists st) = FREE_LIST_BUCKETS ->
  0 <= base <= next_offset st -> next_offset st <= max_size st ->
  max_size st + MAX_CELL_SIZE < 2 ^ 32 ->
  Forall (cell_ok base (next_offset st)) (cells st) ->
  (forall f, Additive f -> msum f (cells st) = f (mk_cell base (next_offset st - base))) ->
  total_allocated st = wrap 32 (msum size (alloc_cells st)) ->
  total_free st = wrap 32 (msum size (free_cells st)) ->
  no_adjacent (free_cells st) -> inv base st.
Proof.
  intros ? ? ? Hw Hok Ht Ha Hf ?. unfold MAX_CELL_SIZE in Hw.
  assert (forall l, Forall (cell_ok base (next_offset st)) l -> 0 <= msum size l) as Hnn.
  { intros l Hl. apply msum_nonneg. eapply Forall_impl; [exact Hl |]. unfold cell_ok. intros; lia. }
  pose proof (Ht size _) as Hs. cbn [size] in Hs. unfold cells in Hs, Hok. rewrite msum_app in Hs.
  apply Forall_app in Hok as Hok'. destruct Hok' as [Hok1%Hnn Hok2%Hnn].
  rewrite wrap_small in Ha, Hf by (unfold u_ty; lia). by split.
Qed.

Lemma inv_cover base st x :
  inv base st ->
  msum (covers x) (cells st) = if (base <=? x) && (x <? next_offset st) then 1 else 0.
Proof.
  intros Hi. rewrite (inv_tiles _ _ Hi (covers x) _). unfold covers. cbn [offset size].
  by replace (base + (next_offset st - base)) with (next_offset st) by lia.
Qed.

Lemma inv_cover_le base st x : inv base st -> msum (covers x) (cells st) <= 1.
Proof. intros Hi. rewrite (inv_cover _ _ _ Hi). destruct (_ && _); lia. Qed.

Lemma new_inv base limit :
  0 <= base <= limit -> limit + MAX_CELL_SIZE < 2 ^ 32 -> inv base (new base limit).
Proof.
  intros Hb Hl. assert (free_cells (new base limit) = []) as Hf by done.
  assert (alloc_cells (new base limit) = []) as Ha by done.
  apply inv_intro; unfold cells; rewrite ?Hf, ?Ha; cbn [new next_offset max_size free_lists]; try done.
  - lia.
  - lia.
  - intros f Hadd. replace (base - base) with 0 by lia. pose proof (Hadd base 0 0) as H0.
    rewrite !Z.add_0_r in H0. cbn. lia.
  - intros c d Hc. by apply not_elem_of_nil in Hc.
Qed.

Lemma fresh_of_free base st c :
  inv base st -> c ∈ free_cells st -> allocated st !! offset c = None.
Proof.
  intros Hi Hc. destruct (allocated st !! offset c) as [sz |] eqn:Ho; [| done]. exfalso.
  apply alloc_elem in Ho as [i Hi1]%list_elem_of_lookup.
  apply list_elem_of_lookup in Hc as [j Hj].
  pose proof (inv_cells _ _ Hi) as Hok. unfold cells in Hok.
  rewrite (delete_perm _ _ _ Hi1), (delete_perm _ _ _ Hj) in Hok.
  rewrite Forall_app, !Forall_cons in Hok. destruct Hok as [[Ha _] [Hb _]].
  eapply (covers_disjoint (offset c) (cells st) (mk_cell (offset c) sz) c
    (delete i (alloc_cells st) ++ delete j (free_cells st))); [by eapply inv_cover_le | | |].
  - unfold cells. rewrite (delete_perm _ _ _ Hi1) at 1. rewrite (delete_perm _ _ _ Hj) at 1.
    solve_Permutation.
  - apply covers_in. unfold cell_ok in *. cbn in *. lia.
  - apply covers_in. unfold cell_ok in *. lia.
Qed.

Lemma cell_ok_split lo hi c a :
  cell_ok lo hi c -> 8 <= a <= size c -> a mod 8 = 0 ->
  cell_ok lo hi (mk_cell (offset c) a) /\
  (8 <= size c - a -> cell_ok lo hi (mk_cell (offset c + a) (size c - a))) /\
  (size c - a < 8 -> a = size c).
Proof.
  unfold cell_ok. cbn [offset size]. intros (?&?&E&?) ? Ha.
  assert ((size c - a) mod 8 = 0) as Hr by (rewrite Zminus_mod, E, Ha; done).
  split_and!; try lia.
  intros Hlt. pose proof (Z.div_mod (size c - a) 8). pose proof (Z.div_pos (size c - a) 8). lia.
Qed.

(** The counters read modulo [2 ^ 32]. *)
Lemma inv_wrapped base st :
  inv base st -> total_allocated st = wrap 32 (msum size (alloc_cells st)) /\
  total_free st = wrap 32 (msum size (free_cells st)).
Proof.
  intros Hi. pose proof (inv_tiles _ _ Hi size _) as Hs. cbn [size] in Hs.
  pose proof (inv_cells _ _ Hi) as Hok. unfold cells in Hs, Hok. rewrite msum_app in Hs.
  pose proof (inv_base _ _ Hi). pose proof (inv_max _ _ Hi). pose proof (inv_width _ _ Hi) as Hw.
  unfold MAX_CELL_SIZE in Hw. apply Forall_app in Hok as [Ha Hf].
  assert (forall l, Forall (cell_ok base (next_offset st)) l -> 0 <= msum size l) as Hnn.
  { intros l Hl. apply msum_nonneg. eapply Forall_impl; [exact Hl |]. unfold cell_ok. intros; lia. }
  apply Hnn in Ha, Hf. rewrite (inv_alloc _ _ Hi), (inv_free _ _ Hi).
  rewrite !wrap_small by (unfold u_ty; lia). done.
Qed.

(** Handing out the front [a] bytes of a cell [c] that left the lists. *)
Lemma inv_handed_out base st c bs a bs' tf :
  inv base st -> free_cells st ≡ₚ c :: concat bs -> cell_ok base (next_offset st) (mk_cell (offset c) a) ->
  Datatypes.length bs' = FREE_LIST_BUCKETS ->
  Forall (cell_ok base (next_offset st)) (concat bs') ->
  (forall f, Additive f ->
     msum f (concat bs') + f (mk_cell (offset c) a) = msum f (concat bs) + f c) ->
  tf = wrap 32 (msum size (concat bs') + size c) -> no_adjacent (concat bs') ->
  inv base (mk bs' (<[offset c := a]> (allocated st)) (total_allocated st +[32] a)
    (tf -[32] size c) (next_offset st) (max_size st)).
Proof.
  intros Hi Hp Hfront Hl' Hok' Hm Htf Hadj'.
  assert (allocated st !! offset c = None) as Hnone.
  { eapply fresh_of_free; [done |]. rewrite Hp. set_solver. }
  pose proof (alloc_insert _ _ a Hnone) as Hal.
  apply inv_intro; unfold cells, free_cells, alloc_cells;
    cbn [free_lists allocated total_allocated total_free next_offset max_size]; try by apply Hi.
  - done.
  - rewrite Hal, Forall_app, Forall_cons. pose proof (inv_cells _ _ Hi) as Hok.
    unfold cells in Hok. rewrite Forall_app in Hok. by destruct Hok.
  - intros f Hf. rewrite Hal, msum_app, msum_cons. specialize (Hm f Hf).
    pose proof (inv_tiles _ _ Hi f Hf) as Ht. unfold cells in Ht.
    rewrite msum_app, Hp, msum_cons in Ht. unfold alloc_cells in Ht. lia.
  - rewrite Hal, msum_cons, (inv_alloc _ _ Hi). f_equal. cbn [size]. unfold alloc_cells. lia.
  - rewrite Htf, wrap_sub_l. f_equal. lia.
  - done.
Qed.

(** The free-list half of [allocate]: the front of the chosen cell is handed out and
    the rest goes back to the lists. *)
Lemma allocate_from_spec base st c bs a :
  inv base st -> free_cells st ≡ₚ c :: concat bs ->
  Datatypes.length bs = FREE_LIST_BUCKETS -> 8 <= a <= size c -> a mod 8 = 0 ->
  exists st', allocate_from st c bs a = Ret st' /\ inv base st' /\
    allocated st' = <[offset c := a]> (allocated st) /\ max_size st' = max_size st.
Proof.
  intros Hi Hp Hlen Ha Ham. pose proof (inv_cells _ _ Hi) as Hok.
  unfold cells in Hok. rewrite Hp in Hok. rewrite Forall_app, Forall_cons in Hok.
  destruct Hok as (Halloc & Hc & Hfree).
  destruct (cell_ok_split _ _ _ a Hc) as (Hfront & Hback & Hwhole); [lia | done |].
  pose proof (inv_base _ _ Hi). pose proof (inv_max _ _ Hi). pose proof (inv_width _ _ Hi) as Hw.
  unfold MAX_CELL_SIZE in Hw.
  assert (no_adjacent (concat bs)) as Hadj.
  { eapply no_adjacent_tail, no_adjacent_perm; [exact Hp | apply Hi]. }
  assert (total_free st = wrap 32 (msum size (concat bs) + size c)) as Htf.
  { rewrite (proj2 (inv_wrapped _ _ Hi)), Hp, msum_cons. f_equal. lia. }
  unfold allocate_from, MIN_CELL_SIZE.
  rewrite (wrap_small 32 (size c - a)), (wrap_small 32 (offset c + a))
    by (unfold cell_ok, u_ty in *; lia).
  destruct (Z.leb_spec 8 (size c - a)) as [Hr | Hr].
  - destruct (free_cell_internal_spec base (next_offset st) ltac:(lia) ltac:(lia)
      (mk bs (allocated st) (total_allocated st) (total_free st) (next_offset st) (max_size st))
      (mk_cell (offset c + a) (size c - a)) (size c) Hlen Hfree (Hback Hr) Hadj Htf)
      as (bs' & tf & E & Hl' & Hok' & Hm & Htf' & Hadj').
    cbn [offset size] in E. rewrite E, outcome_bind_ret. eexists. split; [reflexivity |].
    split; [apply (inv_handed_out base st c bs a bs' tf); try done | done].
    intros f Hf. rewrite Hm by done.
    unfold free_cells. cbn [free_lists].
    replace (f c) with (f (mk_cell (offset c) a) + f (mk_cell (offset c + a) (size c - a))); [lia |].
    rewrite <- Hf by lia. replace (a + (size c - a)) with (size c) by lia. by destruct c.
  - rewrite outcome_bind_ret. eexists. split; [reflexivity |].
    split; [apply (inv_handed_out base st c bs a bs (total_free st)); try done | done].
    rewrite (Hwhole ltac:(lia)). by destruct c.
Qed.

(** The bump half of [allocate]. *)
Lemma allocate_bump_inv base st a :
  inv base st -> 8 <= a <= MAX_CELL_SIZE -> a mod 8 = 0 -> next_offset st + a <= max_size st ->
  inv base (mk (free_lists st) (<[next_offset st := a]> (allocated st))
    (total_allocated st +[32] a) (total_free st) (next_offset st + a) (max_size st)) /\
  allocated st !! next_offset st = None.
Proof.
  intros Hi Ha Ham Hmax. pose proof (inv_cells _ _ Hi) as Hok.
  assert (allocated st !! next_offset st = None) as Hnone.
  { destruct (allocated st !! next_offset st) as [sz |] eqn:Ho; [| done].
    apply alloc_elem in Ho. rewrite Forall_forall in Hok.
    destruct (Hok (mk_cell (next_offset st) sz)) as (_ & ? & _ & ?); [apply elem_of_app; by left |].
    cbn in *. lia. }
  pose proof (alloc_insert _ _ a Hnone) as Hal. pose proof (inv_base _ _ Hi) as Hbase.
  split; [| done]. apply inv_intro; unfold cells, free_cells, alloc_cells;
    cbn [free_lists allocated total_allocated total_free next_offset max_size]; try by apply Hi.
  - lia.
  - done.
  - rewrite Hal. cbn [app]. rewrite Forall_cons. split; [unfold cell_ok; cbn; lia |].
    eapply Forall_impl; [exact Hok |]. unfold cell_ok. intros; lia.
  - intros f Hf. rewrite Hal. cbn [app]. rewrite msum_cons.
    pose proof (inv_tiles _ _ Hi f Hf) as Ht. unfold cells, alloc_cells, free_cells in Ht.
    rewrite Ht, Z.add_comm. pose proof (Hf base (next_offset st - base) a) as E.
    replace (base + (next_offset st - base)) with (next_offset st) in E by lia.
    rewrite <- E by lia. f_equal. f_equal. lia.
  - rewrite Hal, msum_cons, (inv_alloc _ _ Hi). f_equal. cbn [size]. unfold alloc_cells. lia.
  - apply (inv_wrapped _ _ Hi).
Qed.

(** Two different allocated cells share no address. *)
Lemma allocated_disjoint base st o1 s1 o2 s2 :
  inv base st -> allocated st !! o1 = Some s1 -> allocated st !! o2 = Some s2 -> o1 <> o2 ->
  o1 + s1 <= o2 \/ o2 + s2 <= o1.
Proof.
  intros Hi H1 H2 Hne. pose proof (inv_cells _ _ Hi) as Hok. unfold cells in Hok.
  assert (alloc_cells st ≡ₚ mk_cell o1 s1 :: mk_cell o2 s2 ::
    ((fun p => mk_cell p.1 p.2) <$> map_to_list (delete o2 (delete o1 (allocated st))))) as Hp.
  { unfold alloc_cells. rewrite <- (insert_delete_id (allocated st) o1 s1) at 1 by done.
    rewrite alloc_insert by apply lookup_delete_eq. apply perm_skip.
    rewrite <- (insert_delete_id (delete o1 (allocated st)) o2 s2) at 1
      by (by rewrite lookup_delete_ne).
    by rewrite alloc_insert by apply lookup_delete_eq. }
  rewrite Hp in Hok. rewrite Forall_app, !Forall_cons in Hok. destruct Hok as [(Ha & Hb & _) _].
  unfold cell_ok in Ha, Hb. cbn in Ha, Hb.
  destruct (Z.le_gt_cases (o1 + s1) o2); [by left |]. right.
  destruct (Z.le_gt_cases (o2 + s2) o1); [done |]. exfalso.
  eapply (covers_disjoint (Z.max o1 o2) (cells st)); [by eapply inv_cover_le | | |].
  - unfold cells. rewrite Hp. cbn [app]. reflexivity.
  - apply covers_in. cbn. lia.
  - apply covers_in. cbn. lia.
Qed.

(** [allocate] on a state with the invariant, every branch. *)
Lemma allocate_result base st sz :
  inv base st ->
  exists r st', allocate st sz = Ret (r, st') /\ inv base st' /\ max_size st' = max_size st /\
    match r with
    | inl o => MIN_CELL_SIZE <= sz <= MAX_CELL_SIZE /\ allocated st !! o = None /\
        allocated st' = <[o := align_up sz CELL_ALIGNMENT]> (allocated st)
    | inr e => e = OutOfBounds /\ st' = st /\ (MIN_CELL_SIZE <= sz <= MAX_CELL_SIZE ->
        exhausted st (align_up sz CELL_ALIGNMENT))
    end.
Proof.
  intros Hi. unfold allocate, exhausted.
  destruct (Z.ltb_spec sz MIN_CELL_SIZE) as [| Hmin]; [eexists _, _; split; [reflexivity |]; split_and!; (done || intros; lia) |].
  destruct (Z.ltb_spec MAX_CELL_SIZE sz) as [| Hmax]; [eexists _, _; split; [reflexivity |]; split_and!; (done || intros; lia) |].
  cbn [orb].
  destruct (align_up_bounds sz) as (_ & Ha & Ham); [done |].
  set (a := align_up sz CELL_ALIGNMENT) in *. unfold MAX_CELL_SIZE in Ha.
  destruct (size_to_bucket_spec a) as (b & -> & Hb & _); [lia | unfold u_ty; lia |].
  rewrite outcome_bind_ret. pose proof (inv_buckets _ _ Hi) as Hlen.
  destruct (take_first _ _) as [[c bs] |] eqn:Ht.
  - apply take_first_Some in Ht as (Hf%Z.leb_le & Hp & Hl).
    assert (free_cells st ≡ₚ c :: concat (take b (free_lists st) ++ bs)) as Hp'.
    { unfold free_cells. rewrite <- (take_drop b (free_lists st)) at 1.
      rewrite !concat_app, Hp. symmetry. apply Permutation_middle. }
    destruct (allocate_from_spec base st c (take b (free_lists st) ++ bs) a)
      as (st' & -> & Hi' & Hal & Hms); [done | done | | lia | done |].
    { rewrite length_app, length_take, Hl, length_drop. lia. }
    rewrite outcome_bind_ret. eexists _, _. split; [reflexivity |]. split; [done |].
    split; [done |]. split; [done |]. split; [| done]. eapply fresh_of_free; [done |]. rewrite Hp'. set_solver.
  - pose proof (inv_max _ _ Hi). pose proof (inv_width _ _ Hi) as Hw. unfold MAX_CELL_SIZE in Hw.
    pose proof (inv_base _ _ Hi). rewrite (wrap_small 32 (next_offset st + a)) by (unfold u_ty; lia).
    destruct (Z.ltb_spec (max_size st) (next_offset st + a)) as [| Hfit].
    { eexists _, _. split; [reflexivity |]. split_and!; try done. intros _. split; [done |].
      intros ? [= <-]. apply take_first_None in Ht. eapply Forall_impl; [exact Ht |].
      intros c Hc%Z.leb_gt. done. }
    destruct (allocate_bump_inv base st a) as [Hi' Hnone]; [done | unfold MAX_CELL_SIZE; lia.. | done | done |].
    eexists _, _. split; [reflexivity |]. done.
Qed.

(** [free] on a state with the invariant, every branch. *)
Lemma free_result base st off :
  inv base st ->
  exists r st', free st off = Ret (r, st') /\ inv base st' /\ max_size st' = max_size st /\
    match allocated st !! off with
    | Some _ => r = inl tt /\ allocated st' = delete off (allocated st)
    | None => r = inr InvalidPointer /\ st' = st
    end.
Proof.
  intros Hi. unfold free. destruct (allocated st !! off) as [sz |] eqn:Ho; [| by eexists _, _].
  pose proof (inv_cells _ _ Hi) as Hok. pose proof (inv_base _ _ Hi). pose proof (inv_max _ _ Hi).
  pose proof (inv_width _ _ Hi) as Hw. unfold MAX_CELL_SIZE in Hw.
  assert (alloc_cells st ≡ₚ mk_cell off sz ::
    ((fun p => mk_cell p.1 p.2) <$> map_to_list (delete off (allocated st)))) as Hp.
  { unfold alloc_cells. rewrite <- (insert_delete_id (allocated st) off sz) at 1 by done.
    by rewrite alloc_insert by apply lookup_delete_eq. }
  unfold cells in Hok. rewrite Hp in Hok. rewrite Forall_app, Forall_cons in Hok.
  destruct Hok as [[Hc Halloc] Hfree].
  destruct (free_cell_internal_spec base (next_offset st) ltac:(lia) ltac:(lia)
    (mk (free_lists st) (delete off (allocated st)) (total_allocated st -[32] sz)
      (total_free st) (next_offset st) (max_size st)) (mk_cell off sz) 0)
    as (bs & tf & E & Hl & Hok & Hm & Htf & Hadj); [apply Hi | done | done | apply Hi | |].
  { rewrite Z.add_0_r. apply (inv_wrapped _ _ Hi). }
  cbn [offset size] in E. rewrite E, outcome_bind_ret. eexists _, _. split; [reflexivity |].
  split; [| done]. apply inv_intro; unfold cells, free_cells, alloc_cells;
    cbn [free_lists allocated total_allocated total_free next_offset max_size]; try by apply Hi.
  - done.
  - by rewrite Forall_app.
  - intros f Hf. pose proof (inv_tiles _ _ Hi f Hf) as Ht. unfold cells in Ht.
    rewrite Hp, msum_app, msum_cons in Ht. rewrite msum_app, Hm by done.
    unfold free_cells in *. cbn [free_lists]. lia.
  - rewrite (proj1 (inv_wrapped _ _ Hi)), Hp, msum_cons, wrap_sub_l. f_equal. cbn [size]. lia.
  - rewrite Htf. f_equal. lia.
  - done.
Qed.

Lemma reachable_inv base limit st :
  0 <= base <= limit -> limit + MAX_CELL_SIZE < 2 ^ 32 -> reachable base limit st ->
  inv base st /\ max_size st = limit.
Proof.
  intros Hb Hl. induction 1 as [| st sz r st' _ [IH Hms] E | st off r st' _ [IH Hms] E].
  - by split; [apply new_inv |].
  - destruct (allocate_result base st sz IH) as (r' & st'' & E' & Hi & Hm & _).
    rewrite E in E'. injection E' as -> ->. by rewrite Hm.
  - destruct (free_result base st off IH) as (r' & st'' & E' & Hi & Hm & _).
    rewrite E in E'. injection E' as -> ->. by rewrite Hm.
Qed.

Lemma validate_loop_ok l :
  Sorted by_offset l -> NoDup l.*1 -> Forall (fun p => 0 <= p.1 /\ p.1 + p.2 < 2 ^ 32 /\ 0 < p.2) l ->
  (forall p q, p ∈ l -> q ∈ l -> p.1 <> q.1 -> p.1 + p.2 <= q.1 \/ q.1 + q.2 <= p.1) ->
  validate_loop l = inl tt.
Proof.
  induction l as [| [o1 s1] l IH]; [done |]. intros Hs Hnd Hf Hd.
  destruct l as [| [o2 s2] l]; [done |].
  apply Sorted_inv in Hs as [Hs Hhd]. apply HdRel_inv in Hhd. unfold by_offset in Hhd.
  cbn [fst] in Hhd. rewrite fmap_cons in Hnd. apply NoDup_cons in Hnd as [Hni Hnd].
  rewrite Forall_cons in Hf. destruct Hf as [H1 Hf].
  assert (o1 <> o2) as Hne by (intros ->; apply Hni; cbn; set_solver).
  pose proof Hf as Hf2. rewrite Forall_cons in Hf2. destruct Hf2 as [H2 _]. cbn [fst snd] in H1, H2.
  destruct (Hd (o1, s1) (o2, s2)) as [E | E]; [set_solver | set_solver | done | |]; cbn [fst snd] in E;
    [| lia].
  change (validate_loop ((o1, s1) :: (o2, s2) :: l)) with
    (if o2 <? o1 +[32] s1 then inr OutOfBounds else validate_loop ((o2, s2) :: l)).
  rewrite wrap_small by (unfold u_ty; lia). destruct (Z.ltb_spec o2 (o1 + s1)); [lia |].
  apply IH; try done. intros p q Hp Hq. apply Hd; set_solver.
Qed.

#[export] Instance by_offset_trans : Transitive by_offset.
Proof. intros p q r. unfold by_offset. lia. Qed.

#[export] Instance by_offset_total : Total by_offset.
Proof. intros p q. unfold by_offset. lia. Qed.

(** A tiling whose cells never touch is a single cell. *)
Lemma tiling_single lo hi l :
  lo < hi -> Forall (cell_ok lo hi) l ->
  (forall x, msum (covers x) l = if (lo <=? x) && (x <? hi) then 1 else 0) ->
  no_adjacent l -> l = [mk_cell lo (hi - lo)].
Proof.
  intros Hlt Hok Hcov Hadj.
  assert (forall x, lo <= x < hi -> exists c, c ∈ l /\ offset c <= x < offset c + size c) as Hex.
  { intros x Hx. apply covered_exists. rewrite Hcov.
    destruct (Z.leb_spec lo x), (Z.ltb_spec x hi); cbn; lia. }
  destruct (Hex lo) as (c & Hc & Hcl); [lia |].
  apply list_elem_of_lookup in Hc as [i Hi]. pose proof (delete_perm _ _ _ Hi) as Hp.
  rewrite Forall_forall in Hok. assert (c ∈ l) as Hin by (by apply list_elem_of_lookup; exists i).
  destruct (Hok c Hin) as (H1 & H2 & _ & H3).
  assert (forall d x, d ∈ delete i l -> offset d <= x < offset d + size d ->
    offset c <= x < offset c + size c -> False) as Hexcl.
  { intros d x [j Hj]%list_elem_of_lookup Hd Hcx.
    apply (covers_disjoint x l c d (delete j (delete i l))).
    - rewrite Hcov. destruct (_ && _); lia.
    - rewrite Hp at 1. by rewrite (delete_perm _ _ _ Hj) at 1.
    - by apply covers_in.
    - by apply covers_in. }
  assert (offset c + size c = hi) as Hend.
  { destruct (Z.lt_ge_cases (offset c + size c) hi) as [Hl |]; [| lia]. exfalso.
    destruct (Hex (offset c + size c)) as (d & Hd & Hdx); [lia |].
    pose proof (Hadj c d Hin Hd). rewrite Hp in Hd. apply elem_of_cons in Hd as [-> | Hd]; [lia |].
    apply (Hexcl d (offset c + size c - 1)); [done | lia | lia]. }
  assert (delete i l = []) as Hnil.
  { destruct (delete i l) as [| d k] eqn:E; [done |]. exfalso.
    assert (d ∈ l) as Hd by (rewrite Hp; set_solver).
    destruct (Hok d Hd) as (? & ? & _ & ?).
    apply (Hexcl d (offset d)); [set_solver | lia | lia]. }
  rewrite Hnil in Hp. apply Permutation_singleton_r in Hp. rewrite Hp.
  destruct c as [o s]. cbn [offset size] in *. f_equal. f_equal; lia.
Qed.

(** ** Properties *)



(** An allocation always returns. On success the cell is new, at least as large as
    requested, at most seven bytes larger, and disjoint from every cell already handed
    out, and those are kept; an error changes nothing and means that the size is out of range
    or that neither the bump region nor a visited bucket has room. *)
Theorem allocate_fresh (base limit : Z) (st : CellAllocator) (sz : Z)
    (Hbase : 0 <= base <= limit) (Hlimit : limit + MAX_CELL_SIZE < 2 ^ 32)
    (Hst : reachable base limit st) :
  exists r st', allocate st sz = Ret (r, st') /\
    match r with
    | inl o => exists a, sz <= a < sz + 8 /\ base <= o /\ o + a <= limit /\
        allocated st' = <[o := a]> (allocated st) /\
        forall o' s', allocated st !! o' = Some s' -> o + a <= o' \/ o' + s' <= o
    | inr e => e = OutOfBounds /\ st' = st /\ (MIN_CELL_SIZE <= sz <= MAX_CELL_SIZE ->
        exhausted st (align_up sz CELL_ALIGNMENT))
    end.
Proof.
  destruct (reachable_inv _ _ _ Hbase Hlimit Hst) as [Hi Hms].
  destruct (allocate_result base st sz Hi) as (r & st' & E & Hi' & Hms' & Hr).
  exists r, st'. split; [done |]. destruct r as [o | e]; [| done].
  destruct Hr as (Hsz & Hnone & Hal). exists (align_up sz CELL_ALIGNMENT).
  destruct (align_up_bounds sz Hsz) as (Ha & _).
  assert (allocated st' !! o = Some (align_up sz CELL_ALIGNMENT)) as Ho
    by (rewrite Hal; apply lookup_insert_eq).
  pose proof (inv_cells _ _ Hi') as Hok. rewrite Forall_forall in Hok.
  destruct (Hok (mk_cell o (align_up sz CELL_ALIGNMENT))) as (H1 & _ & _ & H2);
    [apply elem_of_app; left; by apply alloc_elem |]. cbn [offset size] in H1, H2.
  pose proof (inv_max _ _ Hi'). split_and!; try done; [lia.. |].
  intros o' s' Ho'. apply (allocated_disjoint base st'); [done | done | | by intros ->; congruence].
  rewrite Hal, lookup_insert_ne; [done |]. intros ->. congruence.
Qed.

Lemma allocate_fresh_witness : exists r st', allocate sample 64 = Ret (r, st').
Proof.
  destruct (allocate_fresh 4096 (1024 * 1024) sample 64) as (r & st' & H & _);
    [lia | unfold MAX_CELL_SIZE; lia | apply sample_reachable | by exists r, st'].
Defined.

(** A free always returns. It succeeds exactly on an offset that was handed out and
    not freed since, forgets that cell only, and keeps the bump pointer's arena tiled;
    on any other offset, a double free included, it answers [InvalidPointer] and
    changes nothing. *)
Theorem free_exact (base limit : Z) (st : CellAllocator) (off : Z)
    (Hbase : 0 <= base <= limit) (Hlimit : limit + MAX_CELL_SIZE < 2 ^ 32)
    (Hst : reachable base limit st) :
  exists r st', free st off = Ret (r, st') /\
    (r = inl tt <-> is_Some (allocated st !! off)) /\
    (r = inl tt -> allocated st' = delete off (allocated st) /\
       exists st'', free st' off = Ret (inr InvalidPointer, st'') /\ st'' = st') /\
    (r <> inl tt -> r = inr InvalidPointer /\ st' = st).
Proof.
  destruct (reachable_inv _ _ _ Hbase Hlimit Hst) as [Hi Hms].
  destruct (free_result base st off Hi) as (r & st' & E & Hi' & _ & Hr).
  exists r, st'. split; [done |]. destruct (allocated st !! off) as [sz |] eqn:Ho.
  - destruct Hr as [-> Hal]. split_and!; try done. intros _. split; [done |].
    exists st'. unfold free. by rewrite Hal, lookup_delete_eq.
  - destruct Hr as [-> ->]. split_and!; try done.
Qed.

Lemma free_exact_witness : exists r st', free sample 4160 = Ret (r, st').
Proof.
  destruct (free_exact 4096 (1024 * 1024) sample 4160) as (r & st' & H & _);
    [lia | unfold MAX_CELL_SIZE; lia | apply sample_reachable | by exists r, st'].
Defined.

(** The allocator's own consistency check accepts every state its operations reach. *)
Theorem validate_accepts (base limit : Z) (st : CellAllocator)
    (Hbase : 0 <= base <= limit) (Hlimit : limit + MAX_CELL_SIZE < 2 ^ 32)
    (Hst : reachable base limit st) :
  validate st = inl tt.
Proof.
  destruct (reachable_inv _ _ _ Hbase Hlimit Hst) as [Hi Hms]. unfold validate.
  pose proof (merge_sort_Permutation by_offset (map_to_list (allocated st))) as Hp.
  pose proof (inv_base _ _ Hi). pose proof (inv_max _ _ Hi). pose proof (inv_cells _ _ Hi) as Hok.
  unfold MAX_CELL_SIZE in Hlimit. rewrite Forall_forall in Hok.
  assert (forall p, p ∈ merge_sort by_offset (map_to_list (allocated st)) ->
    allocated st !! p.1 = Some p.2) as Hin.
  { intros [o s] Ho. rewrite Hp in Ho. by apply elem_of_map_to_list. }
  apply validate_loop_ok.
  - apply Sorted_merge_sort, _.
  - rewrite Hp. apply NoDup_fst_map_to_list.
  - apply Forall_forall. intros p Hpin%Hin%alloc_elem.
    destruct (Hok (mk_cell p.1 p.2)) as (? & ? & _ & ?); [apply elem_of_app; by left |].
    cbn [offset size] in *. lia.
  - intros p q Hpin%Hin Hqin%Hin. by apply (allocated_disjoint base st).
Qed.

Lemma validate_accepts_witness : validate sample = inl tt.
Proof.
  apply (validate_accepts 4096 (1024 * 1024));
    [lia | unfold MAX_CELL_SIZE; lia | apply sample_reachable].
Defined.

(** Once every cell is freed, whatever the order, coalescing has rebuilt a single
    free cell that spans the whole arena. *)
Theorem release_all_coalesces (base limit : Z) (st : CellAllocator)
    (Hbase : 0 <= base <= limit) (Hlimit : limit + MAX_CELL_SIZE < 2 ^ 32)
    (Hst : reachable base limit st) (Hempty : allocated st = ∅) (Hused : base < next_offset st) :
  free_cells st = [mk_cell base (next_offset st - base)].
Proof.
  destruct (reachable_inv _ _ _ Hbase Hlimit Hst) as [Hi Hms].
  assert (cells st = free_cells st) as Hc.
  { unfold cells, alloc_cells. by rewrite Hempty, map_to_list_empty. }
  pose proof (inv_cells _ _ Hi) as Hok. rewrite Hc in Hok.
  apply (tiling_single base (next_offset st)); [done | done | | apply Hi].
  intros x. rewrite <- Hc. by apply inv_cover.
Qed.

Lemma release_all_coalesces_witness :
  free_cells (run_free sample 4160) = [mk_cell 4096 (next_offset (run_free sample 4160) - 4096)].
Proof.
  apply (release_all_coalesces 4096 (1024 * 1024));
    [lia | unfold MAX_CELL_SIZE; lia | apply reach_run_free, sample_reachable
    | vm_compute; reflexivity | vm_compute; reflexivity].
Defined.

(** The bucket function is not monotone: the sizes 513 to 1023 share bucket 0 with
    the smallest cells, below the buckets of the sizes 65 to 512. The search goes upwards
    only, so in a reachable state a request for 500 bytes is refused although a free
    cell of 600 bytes exists. *)
Theorem bucket_order_misses_cell :
  (forall sz, 512 < sz < 1024 -> size_to_bucket sz = Ret 0%nat) /\
  size_to_bucket 65 = Ret 1%nat /\
  exists st c, reachable 0 1000 st /\ c ∈ free_cells st /\ size c = 600 /\
    allocate st 500 = Ret (inr OutOfBounds, st).
Proof.
  split_and!.
  - intros sz Hsz. destruct (size_to_bucket_spec sz) as (b & -> & _ & Hb);
      [lia | unfold u_ty; lia |]. rewrite Hb by lia.
    by rewrite (Z.log2_unique sz 9) by (change (2 ^ 9) with 512; change (2 ^ Z.succ 9) with 1024; lia).
  - done.
  - exists (run_free (run_allocate (new 0 1000) 600) 0), (mk_cell 0 600). split_and!.
    + apply reach_run_free, reach_run_allocate, reach_new.
    + vm_compute. by left.
    + done.
    + vm_compute. reflexivity.
Qed.

End CellAllocator.
