(* ===== verification/FileLocks.v ===== *)
(** * Byte-range locks and oplocks

    Models [fs/locking.rs]: the lock table with its conflict rule, the oplock table with
    its break rule, and the global entry points, with the process-wide key counter as
    part of the state. *)

From S2P Require Import Prelude.

Module FileLocks.

(** [0xC0000001_u32 as i32] *)
Definition STATUS_UNSUCCESSFUL : Z := to_signed 32 0xC0000001.

Inductive LockType : Type := Shared | Exclusive.

#[export] Instance LockType_eq_dec : EqDecision LockType.
Proof. solve_decision. Defined.

Inductive OplockLevel : Type :=
| LNone | Level1 | Level2 | Batch | Filter | Read | ReadHandle | ReadWrite | ReadWriteHandle.

#[export] Instance OplockLevel_eq_dec : EqDecision OplockLevel.
Proof. solve_decision. Defined.

Record ByteRangeLock : Type := mk_lock {
  file_id : Z; process_id : Z; offset : Z; length : Z;
  lock_type : LockType; mandatory : bool; key : Z }.

Definition overlaps (self other : ByteRangeLock) : bool :=
  let self_end := sat_add 64 (offset self) (length self) in
  let other_end := sat_add 64 (offset other) (length other) in
  negb ((other_end <=? offset self) || (self_end <=? offset other)).

Definition conflicts_with (self other : ByteRangeLock) : bool :=
  if process_id self =? process_id other then false
  else if negb (overlaps self other) then false
  else if bool_decide (lock_type self = Shared) && bool_decide (lock_type other = Shared) then false
  else true.

Definition covers (self : ByteRangeLock) (off len : Z) : bool :=
  let end_ := sat_add 64 off len in
  let lock_end := sat_add 64 (offset self) (length self) in
  (offset self <=? off) && (end_ <=? lock_end).

Record OpportunisticLock : Type := mk_oplock {
  op_file_id : Z; op_process_id : Z; level : OplockLevel; breaking : bool; op_key : Z }.

Definition blocks_access (o : OpportunisticLock) (for_write : bool) : bool :=
  if breaking o then true
  else match level o with
  | Level1 | Batch | ReadWrite | ReadWriteHandle => true
  | Level2 | Read | ReadHandle => for_write
  | Filter | LNone => false
  end.

Definition needs_break (o : OpportunisticLock) (for_write : bool) : bool :=
  match level o with
  | Level1 | Batch => true
  | ReadWrite | ReadWriteHandle => true
  | Level2 | Read | ReadHandle => for_write
  | _ => false
  end.

Record LockManager : Type := mk {
  locks : list ByteRangeLock;
  oplocks : gmap Z OpportunisticLock;
  locks_granted : Z;
  locks_denied : Z;
  oplocks_granted : Z;
  oplocks_broken : Z }.

Definition new : LockManager := mk [] ∅ 0 0 0 0.

(** [generate_lock_key]: the key and the counter after [fetch_add]. *)
Definition generate_lock_key (next_key : Z) : Z * Z := (next_key, next_key +[64] 1).

(** The methods return their result, the manager and the key counter. *)
Definition acquire_lock (m : LockManager) (next_key : Z) (fid pid off len : Z) (ty : LockType)
    (mand : bool) : (Z + Z) * LockManager * Z :=
  let '(k, next_key) := generate_lock_key next_key in
  let new_lock := mk_lock fid pid off len ty mand k in
  if existsb (fun existing => (file_id existing =? fid) && conflicts_with existing new_lock) (locks m)
  then (inr STATUS_UNSUCCESSFUL,
        mk (locks m) (oplocks m) (locks_granted m) (locks_denied m +[64] 1)
          (oplocks_granted m) (oplocks_broken m), next_key)
  else (inl k,
        mk (locks m ++ [new_lock]) (oplocks m) (locks_granted m +[64] 1) (locks_denied m)
          (oplocks_granted m) (oplocks_broken m), next_key).

Definition set_locks (m : LockManager) (l : list ByteRangeLock) : LockManager :=
  mk l (oplocks m) (locks_granted m) (locks_denied m) (oplocks_granted m) (oplocks_broken m).
Definition set_oplocks (m : LockManager) (o : gmap Z OpportunisticLock) : LockManager :=
  mk (locks m) o (locks_granted m) (locks_denied m) (oplocks_granted m) (oplocks_broken m).

Definition release_lock (m : LockManager) (k : Z) : (unit + Z) * LockManager :=
  match position (fun l => key l =? k) (locks m) with
  | Some pos => (inl tt, set_locks m (delete pos (locks m)))
  | None => (inr STATUS_UNSUCCESSFUL, m)
  end.

Fixpoint is_locked_loop (ls : list ByteRangeLock) (fid pid off len : Z) (for_write : bool) : bool :=
  match ls with
  | [] => false
  | lock :: ls =>
      if negb (file_id lock =? fid) then is_locked_loop ls fid pid off len for_write
      else if process_id lock =? pid then is_locked_loop ls fid pid off len for_write
      else if negb (covers lock off len) then is_locked_loop ls fid pid off len for_write
      else if bool_decide (lock_type lock = Exclusive) then true
      else if for_write && bool_decide (lock_type lock = Shared) then true
      else is_locked_loop ls fid pid off len for_write
  end.

Definition is_locked (m : LockManager) (fid pid off len : Z) (for_write : bool) : bool :=
  is_locked_loop (locks m) fid pid off len for_write.

Definition request_oplock (m : LockManager) (next_key : Z) (fid pid : Z) (lvl : OplockLevel)
    : (Z + Z) * LockManager * Z :=
  let refused :=
    match oplocks m !! fid with
    | Some existing => negb (bool_decide (lvl = Level2) && breaking existing)
    | None => false
    end in
  if refused then (inr STATUS_UNSUCCESSFUL, m, next_key)
  else
    let '(k, next_key) := generate_lock_key next_key in
    (inl k,
     mk (locks m) (<[fid := mk_oplock fid pid lvl false k]> (oplocks m)) (locks_granted m)
       (locks_denied m) (oplocks_granted m +[64] 1) (oplocks_broken m), next_key).

Definition broken_level (lvl : OplockLevel) (for_write : bool) : OplockLevel :=
  match lvl with
  | Level1 | Batch => if for_write then LNone else Level2
  | ReadWrite | ReadWriteHandle => if for_write then LNone else Read
  | _ => LNone
  end.

Definition break_oplock (m : LockManager) (fid : Z) (for_write : bool) : bool * LockManager :=
  match oplocks m !! fid with
  | Some o =>
      if needs_break o for_write then
        let new_level := broken_level (level o) for_write in
        let ops :=
          if bool_decide (new_level = LNone) then delete fid (oplocks m)
          else <[fid := mk_oplock (op_file_id o) (op_process_id o) new_level false (op_key o)]>
                 (oplocks m) in
        (true, mk (locks m) ops (locks_granted m) (locks_denied m) (oplocks_granted m)
                 (oplocks_broken m +[64] 1))
      else (false, m)
  | None => (false, m)
  end.

Definition acknowledge_oplock (m : LockManager) (fid : Z) : LockManager :=
  match oplocks m !! fid with
  | Some o => set_oplocks m
      (<[fid := mk_oplock (op_file_id o) (op_process_id o) (level o) false (op_key o)]> (oplocks m))
  | None => m
  end.

Definition release_oplock (m : LockManager) (k : Z) : (unit + Z) * LockManager :=
  match List.find (fun p => op_key p.2 =? k) (btree_iter (oplocks m)) with
  | Some (fid, _) => (inl tt, set_oplocks m (delete fid (oplocks m)))
  | None => (inr STATUS_UNSUCCESSFUL, m)
  end.

Definition release_process_locks (m : LockManager) (pid : Z) : LockManager :=
  let m := set_locks m (List.filter (fun lock => negb (process_id lock =? pid)) (locks m)) in
  let to_remove :=
    fst <$> List.filter (fun p => op_process_id p.2 =? pid) (btree_iter (oplocks m)) in
  set_oplocks m (remove_all to_remove (oplocks m)).

Definition release_file_locks (m : LockManager) (fid : Z) : LockManager :=
  let m := set_locks m (List.filter (fun lock => negb (file_id lock =? fid)) (locks m)) in
  set_oplocks m (delete fid (oplocks m)).

Record LockStatistics : Type := mk_stats {
  s_locks_granted : Z; s_locks_denied : Z; s_oplocks_granted : Z; s_oplocks_broken : Z;
  active_locks : nat; active_oplocks : nat }.

Definition statistics (m : LockManager) : LockStatistics :=
  mk_stats (locks_granted m) (locks_denied m) (oplocks_granted m) (oplocks_broken m)
    (Datatypes.length (locks m)) (size (oplocks m)).

(** ** The global manager and its entry points *)

Record World : Type := mk_world { LOCK_MANAGER : option LockManager; NEXT_KEY : Z }.

Definition boot : World := mk_world None 1.

Definition init (w : World) : World := mk_world (Some new) (NEXT_KEY w).

Definition lock_range (w : World) (fid pid off len : Z) (exclusive mand : bool) : (Z + Z) * World :=
  match LOCK_MANAGER w with
  | None => (inr STATUS_UNSUCCESSFUL, w)
  | Some m =>
      let ty := if exclusive then Exclusive else Shared in
      let '(r, m, k) := acquire_lock m (NEXT_KEY w) fid pid off len ty mand in
      (r, mk_world (Some m) k)
  end.

Definition unlock_range (w : World) (k : Z) : (unit + Z) * World :=
  match LOCK_MANAGER w with
  | None => (inr STATUS_UNSUCCESSFUL, w)
  | Some m => let '(r, m) := release_lock m k in (r, mk_world (Some m) (NEXT_KEY w))
  end.

Definition check_lock (w : World) (fid pid off len : Z) (for_write : bool) : bool :=
  match LOCK_MANAGER w with
  | Some m => is_locked m fid pid off len for_write
  | None => false
  end.

Definition g_request_oplock (w : World) (fid pid : Z) (lvl : OplockLevel) : (Z + Z) * World :=
  match LOCK_MANAGER w with
  | None => (inr STATUS_UNSUCCESSFUL, w)
  | Some m =>
      let '(r, m, k) := request_oplock m (NEXT_KEY w) fid pid lvl in (r, mk_world (Some m) k)
  end.

Definition g_break_oplock (w : World) (fid : Z) (for_write : bool) : bool * World :=
  match LOCK_MANAGER w with
  | Some m => let '(r, m) := break_oplock m fid for_write in (r, mk_world (Some m) (NEXT_KEY w))
  | None => (false, w)
  end.

Definition g_release_oplock (w : World) (k : Z) : (unit + Z) * World :=
  match LOCK_MANAGER w with
  | None => (inr STATUS_UNSUCCESSFUL, w)
  | Some m => let '(r, m) := release_oplock m k in (r, mk_world (Some m) (NEXT_KEY w))
  end.

Definition g_release_process_locks (w : World) (pid : Z) : World :=
  match LOCK_MANAGER w with
  | Some m => mk_world (Some (release_process_locks m pid)) (NEXT_KEY w)
  | None => w
  end.

Definition g_statistics (w : World) : option LockStatistics := statistics <$> LOCK_MANAGER w.

(** ** Specification *)

(** A call of the subsystem; the last two are methods with no global entry point. *)
Inductive op : Type :=
| OInit
| OLock (fid pid off len : Z) (exclusive mand : bool)
| OUnlock (k : Z)
| ORequest (fid pid : Z) (lvl : OplockLevel)
| OBreak (fid : Z) (for_write : bool)
| ORelease (k : Z)
| OReleaseProcess (pid : Z)
| OAcknowledge (fid : Z)
| OReleaseFile (fid : Z).

Definition on_manager (f : LockManager -> LockManager) (w : World) : World :=
  mk_world (f <$> LOCK_MANAGER w) (NEXT_KEY w).

Definition exec (w : World) (o : op) : World :=
  match o with
  | OInit => init w
  | OLock fid pid off len exclusive mand => (lock_range w fid pid off len exclusive mand).2
  | OUnlock k => (unlock_range w k).2
  | ORequest fid pid lvl => (g_request_oplock w fid pid lvl).2
  | OBreak fid for_write => (g_break_oplock w fid for_write).2
  | ORelease k => (g_release_oplock w k).2
  | OReleaseProcess pid => g_release_process_locks w pid
  | OAcknowledge fid => on_manager (fun m => acknowledge_oplock m fid) w
  | OReleaseFile fid => on_manager (fun m => release_file_locks m fid) w
  end.

Definition run (ops : list op) : World := fold_left exec ops boot.

(** A run with a granted, a refused and a shared lock and a broken oplock. *)
Definition sample_ops : list op :=
  [OInit; OLock 7 1 0 100 true true; OLock 7 2 50 10 false true; OLock 7 2 200 50 false true;
   ORequest 7 1 Batch; OBreak 7 false].

(** Byte [x] is in the range of the lock; the code clips ranges at [u64::MAX]. *)
Definition in_span (l : ByteRangeLock) (x : Z) : Prop :=
  offset l <= x < Z.min (offset l + length l) (2 ^ 64 - 1).

(** Two locks that must not be held together. *)
Definition clash (a b : ByteRangeLock) : Prop :=
  process_id a <> process_id b /\ (exists x, in_span a x /\ in_span b x) /\
  (lock_type a = Exclusive \/ lock_type b = Exclusive).

Record table_ok (next_key : Z) (m : LockManager) : Prop := mk_table_ok {
  ok_conflict a b : a ∈ locks m -> b ∈ locks m -> file_id a = file_id b ->
    conflicts_with a b = false;
  ok_keys : NoDup (key <$> locks m);
  ok_fresh a : a ∈ locks m -> key a < next_key;
  ok_oplock fid o : oplocks m !! fid = Some o ->
    op_file_id o = fid /\ breaking o = false /\ op_key o < next_key;
  ok_oplock_keys f1 o1 f2 o2 : oplocks m !! f1 = Some o1 -> oplocks m !! f2 = Some o2 ->
    op_key o1 = op_key o2 -> f1 = f2 }.

(** The state after at most [n] calls. *)
Definition world_ok (n : Z) (w : World) : Prop :=
  1 <= NEXT_KEY w <= 1 + n /\
  forall m, LOCK_MANAGER w = Some m -> table_ok (NEXT_KEY w) m.

(** ** Lemmas *)

Lemma overlaps_sym a b : overlaps a b = overlaps b a.
Proof. unfold overlaps. by rewrite orb_comm. Qed.

Lemma conflicts_sym a b : conflicts_with a b = conflicts_with b a.
Proof.
  unfold conflicts_with. by rewrite Z.eqb_sym, overlaps_sym, andb_comm.
Qed.

Lemma overlaps_bytes a b :
  (exists x, in_span a x /\ in_span b x) -> overlaps a b = true.
Proof.
  unfold in_span, overlaps, sat_add. intros (x & Ha & Hb).
  destruct (Z.leb_spec (Z.min (offset b + length b) (2 ^ 64 - 1)) (offset a)); [lia |].
  destruct (Z.leb_spec (Z.min (offset a + length a) (2 ^ 64 - 1)) (offset b)); [lia | done].
Qed.

Lemma overlaps_bytes_inv a b x y :
  in_span a x -> in_span b y -> overlaps a b = true -> exists x, in_span a x /\ in_span b x.
Proof.
  unfold in_span, overlaps, sat_add. intros Ha Hb.
  destruct (Z.leb_spec (Z.min (offset b + length b) (2 ^ 64 - 1)) (offset a)); [done |].
  destruct (Z.leb_spec (Z.min (offset a + length a) (2 ^ 64 - 1)) (offset b)); [done |].
  intros _. exists (Z.max (offset a) (offset b)). lia.
Qed.

Lemma conflicts_clash a b : clash a b -> conflicts_with a b = true.
Proof.
  intros (Hp & Hx & Ht). unfold conflicts_with.
  destruct (Z.eqb_spec (process_id a) (process_id b)); [done |].
  rewrite overlaps_bytes by done. cbn [negb].
  destruct (lock_type a), (lock_type b); try done. by destruct Ht.
Qed.

Lemma clash_conflicts a b x y :
  in_span a x -> in_span b y -> conflicts_with a b = true -> clash a b.
Proof.
  intros Ha Hb. unfold conflicts_with.
  destruct (Z.eqb_spec (process_id a) (process_id b)); [done |].
  destruct (overlaps a b) eqn:Ho; [| done]. cbn [negb].
  destruct (lock_type a) eqn:E1, (lock_type b) eqn:E2; try done; intros _;
    (split; [done |]; split; [by eapply overlaps_bytes_inv | rewrite E1, E2; tauto]).
Qed.

Lemma table_ok_mono k k' m : k <= k' -> table_ok k m -> table_ok k' m.
Proof.
  intros Hk [Hc Hk1 Hf Ho Hok]. split; try done.
  - intros a Ha. specialize (Hf a Ha). lia.
  - intros fid o Hl. destruct (Ho fid o Hl) as (? & ? & ?). split_and!; [done | done | lia].
Qed.

(** Fewer locks and fewer oplocks keep the table consistent. *)
Lemma table_ok_shrink k m m' :
  table_ok k m -> locks m' `sublist_of` locks m -> oplocks m' ⊆ oplocks m -> table_ok k m'.
Proof.
  intros [Hc Hk Hf Ho Hok] Hs Hm.
  assert (forall a, a ∈ locks m' -> a ∈ locks m) as Hin by (intros; by eapply elem_of_sublist).
  split; eauto.
  - eapply sublist_NoDup; [exact Hk | by apply fmap_sublist].
  - intros fid o Hl. apply Ho. by eapply lookup_weaken.
  - intros f1 o1 f2 o2 H1 H2. eapply Hok; by eapply lookup_weaken.
Qed.

Lemma acquire_ok m k fid pid off len ty mand :
  1 <= k -> k + 1 < 2 ^ 64 -> table_ok k m ->
  let '(r, m', k') := acquire_lock m k fid pid off len ty mand in
  k' = k + 1 /\ table_ok k' m' /\ oplocks m' = oplocks m.
Proof.
  intros Hk1 Hk2 Hm. unfold acquire_lock, generate_lock_key.
  rewrite (wrap_small 64 (k + 1)) by (unfold u_ty; lia).
  destruct (existsb _ (locks m)) eqn:He.
  { split_and!; try done. eapply table_ok_mono with (k := k); [lia |].
    by eapply table_ok_shrink; [exact Hm | |]. }
  split_and!; try done. set (l := mk_lock fid pid off len ty mand k) in *.
  assert (forall a, a ∈ locks m -> file_id a = fid -> conflicts_with a l = false) as Hl.
  { intros a Ha Hf. destruct (conflicts_with a l) eqn:Ec; [| done].
    assert (existsb (fun e => (file_id e =? fid) && conflicts_with e l) (locks m) = true) as E;
      [| congruence]. apply existsb_exists. exists a. split; [by apply list_elem_of_In |].
    by rewrite Hf, Z.eqb_refl, Ec. }
  split; cbn [locks oplocks].
  - intros a b [Ha | ->%list_elem_of_singleton]%elem_of_app
      [Hb | ->%list_elem_of_singleton]%elem_of_app Hf.
    + by apply Hm.
    + by apply Hl.
    + rewrite conflicts_sym. by apply Hl.
    + unfold conflicts_with. by rewrite Z.eqb_refl.
  - rewrite fmap_app. apply NoDup_app. split_and!; [apply Hm | | apply NoDup_singleton].
    intros x (a & -> & Ha)%list_elem_of_fmap Hx%list_elem_of_singleton.
    pose proof (ok_fresh _ _ Hm a Ha). cbn in Hx. lia.
  - intros a [Ha | ->%list_elem_of_singleton]%elem_of_app; [| cbn; lia].
    pose proof (ok_fresh _ _ Hm a Ha). lia.
  - intros f o Ho. destruct (ok_oplock _ _ Hm f o Ho) as (? & ? & ?). split_and!; [done | done | lia].
  - apply Hm.
Qed.

Lemma request_ok m k fid pid lvl :
  1 <= k -> k + 1 < 2 ^ 64 -> table_ok k m ->
  let '(r, m', k') := request_oplock m k fid pid lvl in
  k <= k' <= k + 1 /\ table_ok k' m' /\ locks m' = locks m /\
  match oplocks m !! fid with
  | Some _ => r = inr STATUS_UNSUCCESSFUL /\ m' = m
  | None => r = inl k /\ oplocks m' = <[fid := mk_oplock fid pid lvl false k]> (oplocks m)
  end.
Proof.
  intros Hk1 Hk2 Hm. unfold request_oplock, generate_lock_key.
  rewrite (wrap_small 64 (k + 1)) by (unfold u_ty; lia).
  destruct (oplocks m !! fid) as [o |] eqn:Ho.
  { destruct (ok_oplock _ _ Hm fid o Ho) as (_ & -> & _). rewrite andb_false_r. cbn [negb].
    split_and!; try done; lia. }
  split_and!; try done; [lia.. |].
  destruct Hm as [Hc Hk Hf Hop Hok]. split; cbn [locks oplocks]; try done.
  - intros a Ha. specialize (Hf a Ha). lia.
  - intros f o [[<- <-] | [? Hl]]%lookup_insert_Some; [cbn; split_and!; [done | done | lia] |].
    destruct (Hop f o Hl) as (? & ? & ?). split_and!; [done | done | lia].
  - intros f1 o1 f2 o2 [[<- <-] | [? H1]]%lookup_insert_Some
      [[<- <-] | [? H2]]%lookup_insert_Some; cbn [op_key]; try done.
    + pose proof (Hop f2 o2 H2). intros. lia.
    + pose proof (Hop f1 o1 H1). intros. lia.
    + by apply Hok.
Qed.

(** Changing the level of a present oplock keeps the table consistent. *)
Lemma relevel_ok k m fid o lvl :
  table_ok k m -> oplocks m !! fid = Some o ->
  table_ok k (set_oplocks m
    (<[fid := mk_oplock (op_file_id o) (op_process_id o) lvl false (op_key o)]> (oplocks m))).
Proof.
  intros [Hc Hk Hf Hop Hok] Ho. destruct (Hop fid o Ho) as (Hfid & _ & Hkey).
  split; cbn [set_oplocks locks oplocks]; try done.
  - intros f p [[<- <-] | [? Hl]]%lookup_insert_Some; [by cbn | by apply Hop].
  - intros f1 o1 f2 o2 [[<- <-] | [? H1]]%lookup_insert_Some
      [[<- <-] | [? H2]]%lookup_insert_Some; cbn [op_key]; try done; eauto.
Qed.

Lemma break_ok k m fid for_write :
  table_ok k m -> table_ok k (break_oplock m fid for_write).2.
Proof.
  intros Hm. unfold break_oplock. destruct (oplocks m !! fid) as [o |] eqn:Ho; [| done].
  destruct (needs_break o for_write); [| done]. cbn [snd].
  case_bool_decide.
  - eapply table_ok_shrink; [exact Hm | done | apply delete_subseteq].
  - destruct (relevel_ok k m fid o (broken_level (level o) for_write) Hm Ho). by split.
Qed.

Lemma shrink_methods_ok k m :
  table_ok k m ->
  (forall key, table_ok k (release_lock m key).2) /\
  (forall key, table_ok k (release_oplock m key).2) /\
  (forall pid, table_ok k (release_process_locks m pid)) /\
  (forall fid, table_ok k (release_file_locks m fid)).
Proof.
  intros Hm. split_and!.
  - intros key. unfold release_lock. destruct (position _ _) as [pos |]; [| done].
    eapply table_ok_shrink; [exact Hm | apply sublist_delete | done].
  - intros key. unfold release_oplock. destruct (List.find _ _) as [[fid o] |]; [| done].
    eapply table_ok_shrink; [exact Hm | done | apply delete_subseteq].
  - intros pid. eapply table_ok_shrink; [exact Hm | apply filter_sublist |].
    apply map_subseteq_spec. intros f o. cbn [release_process_locks set_oplocks set_locks oplocks].
    unfold release_process_locks. cbn [oplocks set_oplocks set_locks]. rewrite remove_all_lookup.
    by destruct (decide _).
  - intros fid. eapply table_ok_shrink; [exact Hm | apply filter_sublist | apply delete_subseteq].
Qed.

Lemma exec_ok n w o :
  0 <= n -> n + 2 < 2 ^ 64 -> world_ok n w -> world_ok (n + 1) (exec w o).
Proof.
  intros Hn Hb [Hk Hm].
  assert (forall m, LOCK_MANAGER w = Some m -> forall m', table_ok (NEXT_KEY w) m' ->
    world_ok (n + 1) (mk_world (Some m') (NEXT_KEY w))) as Hkeep.
  { intros m _ m' Hm'. split; cbn [NEXT_KEY LOCK_MANAGER]; [lia |]. by intros ? [= <-]. }
  assert (world_ok (n + 1) w) as Hsame by (split; [lia | done]).
  destruct o; cbn [exec]; unfold lock_range, unlock_range, g_request_oplock, g_break_oplock,
    g_release_oplock, g_release_process_locks, on_manager.
  { split; cbn [init NEXT_KEY LOCK_MANAGER]; [lia |]. intros ? [= <-].
    split; cbn [new locks oplocks]; try (intros; set_solver). constructor. }
  all: destruct (LOCK_MANAGER w) as [m |] eqn:Ew; [| try (done || by split; cbn; [lia |])].
  all: try pose proof (shrink_methods_ok _ _ (Hm m eq_refl)) as (R1 & R2 & R3 & R4).
  - pose proof (acquire_ok m (NEXT_KEY w) fid pid off len (if exclusive then Exclusive else Shared)
      mand ltac:(lia) ltac:(lia) (Hm m eq_refl)) as H.
    destruct (acquire_lock _ _ _ _ _ _ _ _) as [[r m'] k']. destruct H as (-> & Hm' & _).
    split; cbn; [lia |]. by intros ? [= <-].
  - specialize (R1 k). destruct (release_lock m k) as [r m']. by eapply Hkeep.
  - pose proof (request_ok m (NEXT_KEY w) fid pid lvl ltac:(lia) ltac:(lia) (Hm m eq_refl)) as H.
    destruct (request_oplock _ _ _ _ _) as [[r m'] k']. destruct H as (? & Hm' & _).
    split; cbn; [lia |]. by intros ? [= <-].
  - pose proof (break_ok _ _ fid for_write (Hm m eq_refl)) as H.
    destruct (break_oplock m fid for_write) as [r m']. by eapply Hkeep.
  - specialize (R2 k). destruct (release_oplock m k) as [r m']. by eapply Hkeep.
  - by eapply Hkeep.
  - eapply Hkeep; [done |]. unfold acknowledge_oplock.
    destruct (oplocks m !! fid) as [o |] eqn:Ho; [apply relevel_ok; [by apply Hm | done] | by apply Hm].
  - by eapply Hkeep.
Qed.

Lemma run_ok ops :
  Z.of_nat (Datatypes.length ops) + 1 < 2 ^ 64 -> world_ok (Z.of_nat (Datatypes.length ops)) (run ops).
Proof.
  unfold run. induction ops as [| o ops IH] using rev_ind; intros Hlen.
  - split; [cbn; lia | done].
  - rewrite length_app in *. cbn [Datatypes.length] in *. rewrite fold_left_app. cbn [fold_left].
    rewrite Nat2Z.inj_add. apply exec_ok; [lia | lia | apply IH; lia].
Qed.

Lemma run_table ops m :
  Z.of_nat (Datatypes.length ops) + 1 < 2 ^ 64 -> LOCK_MANAGER (run ops) = Some m ->
  table_ok (NEXT_KEY (run ops)) m /\ 1 <= NEXT_KEY (run ops) < 2 ^ 64.
Proof. intros Hlen Hm. destruct (run_ok ops Hlen) as [Hk Ht]. split; [by apply Ht | lia]. Qed.

Lemma existsb_conflict m fid l :
  existsb (fun e => (file_id e =? fid) && conflicts_with e l) (locks m) = true <->
  exists e, e ∈ locks m /\ file_id e = fid /\ conflicts_with e l = true.
Proof.
  rewrite existsb_exists. split.
  - intros (e & He & [Hf%Z.eqb_eq Hc]%andb_true_iff). exists e. by rewrite list_elem_of_In.
  - intros (e & He & Hf & Hc). exists e. rewrite <- list_elem_of_In. split; [done |].
    by rewrite Hf, Z.eqb_refl, Hc.
Qed.

Lemma is_locked_loop_spec ls fid pid off len for_write :
  is_locked_loop ls fid pid off len for_write = true <->
  exists l, l ∈ ls /\ file_id l = fid /\ process_id l <> pid /\ covers l off len = true /\
    (lock_type l = Exclusive \/ for_write = true).
Proof.
  induction ls as [| l ls IH]; cbn [is_locked_loop].
  { split; [done |]. by intros (l & Hl%not_elem_of_nil & _). }
  assert ((exists k, k ∈ ls /\ file_id k = fid /\ process_id k <> pid /\
      covers k off len = true /\ (lock_type k = Exclusive \/ for_write = true)) ->
    exists k, k ∈ l :: ls /\ file_id k = fid /\ process_id k <> pid /\
      covers k off len = true /\ (lock_type k = Exclusive \/ for_write = true)) as Hweak.
  { intros (k & Hk & Hr). exists k. split; [by apply elem_of_cons; right | done]. }
  assert (~ (file_id l = fid /\ process_id l <> pid /\ covers l off len = true /\
      (lock_type l = Exclusive \/ for_write = true)) ->
    (is_locked_loop ls fid pid off len for_write = true <->
     exists k, k ∈ l :: ls /\ file_id k = fid /\ process_id k <> pid /\
      covers k off len = true /\ (lock_type k = Exclusive \/ for_write = true))) as Hskip.
  { intros Hn. rewrite IH. split; [done |]. intros (k & [-> | Hk]%elem_of_cons & Hr); [done |].
    by exists k. }
  destruct (Z.eqb_spec (file_id l) fid); cbn [negb]; [| apply Hskip; tauto].
  destruct (Z.eqb_spec (process_id l) pid); [apply Hskip; tauto |].
  destruct (covers l off len) eqn:Hc; cbn [negb]; [| apply Hskip; by intros (_ & _ & ? & _)].
  destruct (lock_type l) eqn:Ht; cbn; [destruct for_write; cbn |].
  - split; [intros _ | done]. exists l. split; [by apply elem_of_cons; left | tauto].
  - apply Hskip. intros (_ & _ & _ & [? | ?]); congruence.
  - split; [intros _ | done]. exists l. split; [by apply elem_of_cons; left | tauto].
Qed.

(** ** Properties *)



(** A lock request on non-empty ranges is granted exactly when no lock of the file
    clashes with it byte for byte. A grant appends the lock under the next key; a
    refusal leaves both tables as they were. *)
Theorem lock_granted_iff (w : World) (m : LockManager) (fid pid off len : Z)
    (exclusive mand : bool) (Hm : LOCK_MANAGER w = Some m)
    (Hnew : off < Z.min (off + len) (2 ^ 64 - 1))
    (Hold : Forall (fun e => offset e < Z.min (offset e + length e) (2 ^ 64 - 1)) (locks m)) :
  let l := mk_lock fid pid off len (if exclusive then Exclusive else Shared) mand (NEXT_KEY w) in
  let '(r, w') := lock_range w fid pid off len exclusive mand in
  exists m', LOCK_MANAGER w' = Some m' /\ oplocks m' = oplocks m /\
    ((forall e, e ∈ locks m -> file_id e = fid -> ~ clash e l) ->
       r = inl (NEXT_KEY w) /\ locks m' = locks m ++ [l]) /\
    (forall e, e ∈ locks m -> file_id e = fid -> clash e l ->
       r = inr STATUS_UNSUCCESSFUL /\ locks m' = locks m).
Proof.
  cbv zeta. unfold lock_range. rewrite Hm. unfold acquire_lock, generate_lock_key.
  set (l := mk_lock _ _ _ _ _ _ _). rewrite Forall_forall in Hold.
  pose proof (existsb_conflict m fid l) as Hx.
  destruct (existsb _ (locks m)); eexists; (split; [reflexivity |]); (split; [done |]);
    cbn [locks]; split; try done.
  - intros Hno. destruct (proj1 Hx eq_refl) as (e & He & Hf & Hc). destruct (Hno e He Hf).
    eapply (clash_conflicts e l (offset e) off); [| | done]; unfold in_span, l; cbn; [| lia].
    pose proof (Hold e He). lia.
  - intros e He Hf Hc%conflicts_clash. enough (false = true) by done. apply Hx. by exists e.
Qed.

Lemma lock_granted_iff_witness :
  let w := run [OInit; OLock 7 1 0 100 true true] in
  (lock_range w 7 2 50 10 false true).1 = inr STATUS_UNSUCCESSFUL.
Proof.
  cbv zeta. set (w := run _).
  destruct (LOCK_MANAGER w) as [m |] eqn:E; [| by vm_compute in E].
  pose proof (lock_granted_iff w m 7 2 50 10 false true E) as H.
  vm_compute in E. injection E as <-. specialize (H ltac:(vm_compute; done)).
  specialize (H ltac:(repeat constructor)). cbv zeta in H.
  destruct (lock_range w 7 2 50 10 false true) as [r w']. destruct H as (m' & _ & _ & _ & H).
  apply (H (mk_lock 7 1 0 100 Exclusive true 1)); [by left | done |].
  split; [done |]. split; [exists 50; unfold in_span; cbn; lia | by left].
Defined.

(** Releasing a lock by the key it was granted under restores the tables, in any
    state fewer than 2^64 calls reach; the key is then unknown. *)
Theorem lock_unlock_roundtrip (ops : list op) (m : LockManager) (fid pid off len k : Z)
    (exclusive mand : bool) (w : World)
    (Hlen : Z.of_nat (Datatypes.length ops) + 1 < 2 ^ 64)
    (Hm : LOCK_MANAGER (run ops) = Some m)
    (Hlock : lock_range (run ops) fid pid off len exclusive mand = (inl k, w)) :
  exists w' m', unlock_range w k = (inl tt, w') /\ LOCK_MANAGER w' = Some m' /\
    locks m' = locks m /\ oplocks m' = oplocks m /\
    unlock_range w' k = (inr STATUS_UNSUCCESSFUL, w').
Proof.
  destruct (run_table ops m Hlen Hm) as [Ht _]. unfold lock_range in Hlock. rewrite Hm in Hlock.
  unfold acquire_lock, generate_lock_key in Hlock.
  destruct (existsb _ (locks m)); [done |]. injection Hlock as <- <-.
  set (l := mk_lock _ _ _ _ _ _ _).
  assert (Forall (fun y => (key y =? NEXT_KEY (run ops)) = false) (locks m)) as Hall.
  { apply Forall_forall. intros y Hy. pose proof (ok_fresh _ _ Ht y Hy). lia. }
  destruct (position_snoc (fun y => key y =? NEXT_KEY (run ops)) (locks m) l Hall) as [Hp Hd];
    [apply Z.eqb_refl |].
  unfold unlock_range, release_lock. cbn [LOCK_MANAGER NEXT_KEY locks]. rewrite Hp, Hd.
  eexists _, _. split; [reflexivity |]. split; [reflexivity |].
  cbn [set_locks locks oplocks LOCK_MANAGER NEXT_KEY].
  by rewrite (proj2 (position_None _ _) Hall).
Qed.

Lemma lock_unlock_roundtrip_witness : exists k w w',
  lock_range (run sample_ops) 9 1 0 10 true true = (inl k, w) /\ unlock_range w k = (inl tt, w').
Proof.
  destruct (LOCK_MANAGER (run sample_ops)) as [m |] eqn:E; [| by vm_compute in E].
  destruct (lock_range (run sample_ops) 9 1 0 10 true true) as [[k | e] w] eqn:El;
    [| by vm_compute in El].
  destruct (lock_unlock_roundtrip sample_ops m 9 1 0 10 k true true w) as (w' & m' & H & _);
    [vm_compute; done | exact E | exact El |]. by exists k, w, w'.
Defined.

(** An access is blocked exactly when a single lock of another process contains the
    whole accessed range and is exclusive, or shared while the access is a write. An
    access that overlaps an exclusive lock only in part is therefore let through,
    although a lock request for the same range is refused. *)
Theorem check_lock_needs_containment (w : World) (fid pid off len : Z) (for_write : bool) :
  (check_lock w fid pid off len for_write = true <->
   exists m l, LOCK_MANAGER w = Some m /\ l ∈ locks m /\ file_id l = fid /\ process_id l <> pid /\
     (offset l <= off /\ sat_add 64 off len <= sat_add 64 (offset l) (length l)) /\
     (lock_type l = Exclusive \/ for_write = true)) /\
  (let held := run [OInit; OLock 7 1 100 100 true true] in
   check_lock held 7 2 150 100 true = false /\
   (lock_range held 7 2 150 100 true true).1 = inr STATUS_UNSUCCESSFUL).
Proof.
  split; [| by vm_compute]. unfold check_lock, is_locked.
  destruct (LOCK_MANAGER w) as [m |]; [| split; [done | by intros (? & ? & ? & _)]].
  rewrite is_locked_loop_spec. unfold covers. split.
  - intros (l & Hl & Hf & Hp & Hc & Ht). exists m, l. split_and!; try done; lia.
  - intros (m' & l & [= <-] & Hl & Hf & Hp & Hc & Ht). exists l. split_and!; try done. lia.
Qed.

(** In every state fewer than 2^64 calls reach, an oplock is granted exactly when the
    file has none, and breaking for an access reports whether the oplock blocked that
    access and leaves no oplock on the file that does; other files keep theirs. *)
Theorem oplock_protocol (ops : list op) (m : LockManager) (fid pid : Z) (lvl : OplockLevel)
    (for_write : bool) (Hlen : Z.of_nat (Datatypes.length ops) + 1 < 2 ^ 64)
    (Hm : LOCK_MANAGER (run ops) = Some m) :
  ((g_request_oplock (run ops) fid pid lvl).1 =
     match oplocks m !! fid with
     | None => inl (NEXT_KEY (run ops)) | Some _ => inr STATUS_UNSUCCESSFUL end) /\
  let '(broke, w') := g_break_oplock (run ops) fid for_write in
  exists m', LOCK_MANAGER w' = Some m' /\ locks m' = locks m /\
    (broke = true <-> exists o, oplocks m !! fid = Some o /\ blocks_access o for_write = true) /\
    (forall o, oplocks m' !! fid = Some o -> blocks_access o for_write = false) /\
    (forall f, f <> fid -> oplocks m' !! f = oplocks m !! f).
Proof.
  destruct (run_table ops m Hlen Hm) as [Ht Hk]. split.
  - unfold g_request_oplock, request_oplock, generate_lock_key. rewrite Hm.
    destruct (oplocks m !! fid) as [o |] eqn:Ho; [| done].
    destruct (ok_oplock _ _ Ht fid o Ho) as (_ & -> & _). by rewrite andb_false_r.
  - unfold g_break_oplock, break_oplock. rewrite Hm.
    destruct (oplocks m !! fid) as [o |] eqn:Ho;
      [| exists m; split_and!; try done; [split; [done | by intros (? & ? & _)] | congruence]].
    destruct (ok_oplock _ _ Ht fid o Ho) as (_ & Hbr & _).
    assert (needs_break o for_write = blocks_access o for_write) as ->.
    { unfold needs_break, blocks_access. rewrite Hbr. by destruct (level o). }
    destruct (blocks_access o for_write) eqn:Hb.
    + eexists. split; [reflexivity |]. split; [done |].
      split; [split; [by exists o | done] |]. cbn [oplocks]. case_bool_decide as Hl.
      * split; [by intros ?; rewrite lookup_delete_eq |].
        intros f Hf. by rewrite lookup_delete_ne.
      * split; [| intros f Hf; by rewrite lookup_insert_ne].
        intros o'. rewrite lookup_insert_eq. intros [= <-]. unfold blocks_access. cbn [breaking level].
        by destruct (level o), for_write.
    + exists m. split_and!; try done; [split; [done |] |]; [| congruence].
      intros (o' & [= <-] & ?). congruence.
Qed.

Lemma oplock_protocol_witness :
  (g_request_oplock (run sample_ops) 9 1 Batch).1 = inl (NEXT_KEY (run sample_ops)).
Proof.
  destruct (LOCK_MANAGER (run sample_ops)) as [m |] eqn:E; [| by vm_compute in E].
  destruct (oplock_protocol sample_ops m 9 1 Batch true) as [H _]; [vm_compute; done | exact E |].
  rewrite H. vm_compute in E. injection E as <-. reflexivity.
Defined.

(** After a process's locks are released, no lock and no oplock of it is left, and
    every lock and oplock of another process is. *)
Theorem release_process_exact (w : World) (m : LockManager) (pid : Z)
    (Hm : LOCK_MANAGER w = Some m) :
  exists m', LOCK_MANAGER (g_release_process_locks w pid) = Some m' /\
    (forall l, l ∈ locks m' <-> l ∈ locks m /\ process_id l <> pid) /\
    (forall fid o, oplocks m' !! fid = Some o <->
       oplocks m !! fid = Some o /\ op_process_id o <> pid).
Proof.
  unfold g_release_process_locks. rewrite Hm. eexists. split; [reflexivity |].
  unfold release_process_locks. cbn [locks oplocks set_locks set_oplocks]. split.
  - intros l. rewrite filter_elem, negb_true_iff, Z.eqb_neq. done.
  - intros fid o. rewrite remove_all_lookup.
    assert (fid ∈ (fst <$> List.filter (fun p => op_process_id p.2 =? pid) (btree_iter (oplocks m)))
      <-> exists o', oplocks m !! fid = Some o' /\ op_process_id o' = pid) as Hin.
    { rewrite list_elem_of_fmap. split.
      - intros ([f o'] & -> & [He Hp%Z.eqb_eq]%filter_elem). exists o'. by apply btree_iter_elem in He.
      - intros (o' & He & Hp). exists (fid, o'). rewrite filter_elem, btree_iter_elem. cbn.
        by rewrite Hp, Z.eqb_refl. }
    destruct (decide _) as [Hd | Hd].
    + apply Hin in Hd as (o' & He & Hp). split; [done |]. intros [He' Hp']. congruence.
    + split; [| by intros [? _]]. intros He. split; [done |]. intros Hp. apply Hd, Hin. by exists o.
Qed.

Lemma release_process_exact_witness : exists m,
  LOCK_MANAGER (g_release_process_locks (run sample_ops) 1) = Some m.
Proof.
  destruct (LOCK_MANAGER (run sample_ops)) as [m |] eqn:E; [| by vm_compute in E].
  destruct (release_process_exact (run sample_ops) m 1 E) as (m' & H & _). by exists m'.
Defined.

End FileLocks.
