(* ===== verification/Fragmentation.v ===== *)
(** * IPv4 fragmentation and reassembly

    Models [netstack/fragmentation.rs]. The clock reads are arguments of the
    operations. Sums of an offset and a vector length stay below [2 ^ 64], since a
    vector holds less than [2 ^ 63] bytes, and are written without wrap-around. *)

From S2P Require Import Prelude.

Module Fragmentation.

Definition MAX_FRAGMENTS_PER_PACKET : nat := 64.
Definition FRAGMENT_TIMEOUT_MS : Z := 60000.
Definition MAX_REASSEMBLY_BUFFERS : nat := 32.

Definition len (l : list Z) : Z := Z.of_nat (length l).

Record Fragment : Type := mk_fragment { offset : Z; data : list Z; timestamp : Z }.

Record ReassemblyBuffer : Type := mk_buffer {
  src_ip : Z; dst_ip : Z; protocol : Z; identification : Z;
  fragments : gmap Z Fragment;
  total_length : option Z;
  first_arrival : Z }.

Definition new (src dst proto id now : Z) : ReassemblyBuffer :=
  mk_buffer src dst proto id ∅ None now.

Definition add_fragment (b : ReassemblyBuffer) (off : Z) (d : list Z) (is_last : bool) (now : Z)
    : bool * ReassemblyBuffer :=
  if (MAX_FRAGMENTS_PER_PACKET <=? size (fragments b))%nat then (false, b)
  else (true,
    mk_buffer (src_ip b) (dst_ip b) (protocol b) (identification b)
      (<[off := mk_fragment off d now]> (fragments b))
      (if is_last then Some (off + len d) else total_length b) (first_arrival b)).

(** The scan of [is_complete]; [None] is the early return on a gap. *)
Fixpoint covered_loop (l : list (Z * Fragment)) (covered : Z) : option Z :=
  match l with
  | [] => Some covered
  | (off, frag) :: l =>
      if covered <? off then None
      else covered_loop l (Z.max covered (off + len (data frag)))
  end.

Definition is_complete (b : ReassemblyBuffer) : bool :=
  match total_length b with
  | None => false
  | Some total_len =>
      match covered_loop (btree_iter (fragments b)) 0 with
      | None => false
      | Some covered => total_len <=? covered
      end
  end.

Fixpoint reassemble_loop (l : list (Z * Fragment)) (total_len : Z) (result : list Z)
    : outcome (list Z) :=
  match l with
  | [] => Ret result
  | (off, frag) :: l =>
      let end_ := Z.min (off + len (data frag)) total_len in
      d ← (if off <=? end_ then slice (data frag) 0 (Z.to_nat (end_ - off)) else Panic);
      result ← copy_at result (Z.to_nat off) d;
      reassemble_loop l total_len result
  end.

Definition reassemble (b : ReassemblyBuffer) : outcome (option (list Z)) :=
  match total_length b with
  | None => Ret None
  | Some total_len =>
      r ← reassemble_loop (btree_iter (fragments b)) total_len (replicate (Z.to_nat total_len) 0);
      Ret (Some r)
  end.

Definition is_expired (b : ReassemblyBuffer) (now : Z) : bool :=
  FRAGMENT_TIMEOUT_MS <? sat_sub now (first_arrival b).

Record ReassemblyKey : Type := mk_key {
  k_src_ip : Z; k_dst_ip : Z; k_protocol : Z; k_identification : Z }.

#[export] Instance ReassemblyKey_eq_dec : EqDecision ReassemblyKey.
Proof. solve_decision. Defined.

#[export] Instance ReassemblyKey_countable : Countable ReassemblyKey :=
  inj_countable' (fun k => (k_src_ip k, k_dst_ip k, k_protocol k, k_identification k))
    (fun '(a, b, c, d) => mk_key a b c d) ltac:(by intros []).

Record FragmentStats : Type := mk_stats {
  fragments_created : Z; fragments_received : Z; reassembled : Z;
  reassembly_timeouts : Z; reassembly_failures : Z }.

Definition stats_new : FragmentStats := mk_stats 0 0 0 0 0.

Record World : Type := mk_world {
  REASSEMBLY_BUFFERS : gmap ReassemblyKey ReassemblyBuffer;
  FRAGMENT_STATS : FragmentStats }.

Definition init (w : World) : World := mk_world ∅ stats_new.

Definition bump_created (s : FragmentStats) : FragmentStats :=
  mk_stats (fragments_created s +[64] 1) (fragments_received s) (reassembled s)
    (reassembly_timeouts s) (reassembly_failures s).
Definition bump_received (s : FragmentStats) : FragmentStats :=
  mk_stats (fragments_created s) (fragments_received s +[64] 1) (reassembled s)
    (reassembly_timeouts s) (reassembly_failures s).
Definition bump_reassembled (s : FragmentStats) : FragmentStats :=
  mk_stats (fragments_created s) (fragments_received s) (reassembled s +[64] 1)
    (reassembly_timeouts s) (reassembly_failures s).
Definition bump_timeouts (s : FragmentStats) : FragmentStats :=
  mk_stats (fragments_created s) (fragments_received s) (reassembled s)
    (reassembly_timeouts s +[64] 1) (reassembly_failures s).
Definition bump_failures (s : FragmentStats) : FragmentStats :=
  mk_stats (fragments_created s) (fragments_received s) (reassembled s)
    (reassembly_timeouts s) (reassembly_failures s +[64] 1).

(** The [while offset < payload.len()] loop of [fragment_packet]. *)
Fixpoint fragment_loop (fuel : nat) (payload : list Z) (max_fragment_size off : Z)
    (frags : list (list Z)) (s : FragmentStats) : outcome (list (list Z) * FragmentStats) :=
  match fuel with
  | O => OutOfFuel
  | S fuel =>
      if off <? len payload then
        let remaining := len payload - off in
        let fragment_size := Z.min remaining max_fragment_size in
        fragment ← slice payload (Z.to_nat off) (Z.to_nat (off + fragment_size));
        fragment_loop fuel payload max_fragment_size (off + fragment_size) (frags ++ [fragment])
          (bump_created s)
      else Ret (frags, s)
  end.

Definition fragment_packet (fuel : nat) (payload : list Z) (mtu : Z) (w : World)
    : outcome (list (list Z) * World) :=
  let ip_header_size := 20 in
  let max_fragment_size := (mtu -[64] ip_header_size) / 8 * 8 in
  if len payload <=? mtu -[64] ip_header_size then Ret ([payload], w)
  else
    '(frags, s) ← fragment_loop fuel payload max_fragment_size 0 [] (FRAGMENT_STATS w);
    Ret (frags, mk_world (REASSEMBLY_BUFFERS w) s).

(** The order in which expired entries are removed does not matter. *)
Definition cleanup_expired_buffers (w : World) (now : Z) : World :=
  let expired :=
    fst <$> List.filter (fun p => is_expired p.2 now) (map_to_list (REASSEMBLY_BUFFERS w)) in
  fold_left (fun w key => mk_world (delete key (REASSEMBLY_BUFFERS w))
                            (bump_timeouts (FRAGMENT_STATS w))) expired w.

(** Clock reads of one call: in the cleanup, in [ReassemblyBuffer::new] and in
    [add_fragment]. *)
Record Clock : Type := mk_clock { now_cleanup : Z; now_new : Z; now_fragment : Z }.

Definition process_fragment (w : World) (c : Clock) (src dst proto id off : Z)
    (more_fragments : bool) (d : list Z) : outcome (option (list Z) * World) :=
  let key := mk_key src dst proto id in
  let byte_offset := off * 8 in
  let w := mk_world (REASSEMBLY_BUFFERS w) (bump_received (FRAGMENT_STATS w)) in
  let w := if (MAX_REASSEMBLY_BUFFERS <=? size (REASSEMBLY_BUFFERS w))%nat
           then cleanup_expired_buffers w (now_cleanup c) else w in
  let buffer := match REASSEMBLY_BUFFERS w !! key with
                | Some b => b
                | None => new src dst proto id (now_new c)
                end in
  let is_last := negb more_fragments in
  let '(added, buffer) := add_fragment buffer byte_offset d is_last (now_fragment c) in
  if negb added then
    Ret (None, mk_world (delete key (REASSEMBLY_BUFFERS w)) (bump_failures (FRAGMENT_STATS w)))
  else if is_complete buffer then
    result ← reassemble buffer;
    Ret (result, mk_world (delete key (REASSEMBLY_BUFFERS w))
      (match result with
       | Some _ => bump_reassembled (FRAGMENT_STATS w) | None => FRAGMENT_STATS w end))
  else Ret (None, mk_world (<[key := buffer]> (REASSEMBLY_BUFFERS w)) (FRAGMENT_STATS w)).

Definition cleanup (w : World) (now : Z) : World := cleanup_expired_buffers w now.
Definition get_stats (w : World) : FragmentStats := FRAGMENT_STATS w.
Definition active_reassembly_count (w : World) : nat := size (REASSEMBLY_BUFFERS w).

(** ** Specification *)

(** Byte [x] lies in some fragment of [l]. *)
Definition spans (l : list (Z * Fragment)) (x : Z) : Prop :=
  exists o f, (o, f) ∈ l /\ o <= x < o + len (data f).

(** The fragment stored at [o] carries the bytes of [P] from [o] on. *)
Definition agrees (P : list Z) (o : Z) (f : Fragment) : Prop :=
  0 <= o /\ o + len (data f) <= len P /\
  data f = take (length (data f)) (drop (Z.to_nat o) P).

(** The [i]-th piece of [P] cut into pieces of [s] bytes, and their number. *)
Definition piece (s : nat) (P : list Z) (i : nat) : list Z := take s (drop (i * s) P).
Definition pieces (s : nat) (P : list Z) (n : nat) : list (list Z) := piece s P <$> seq 0 n.

(** [n] pieces of [s] bytes cover [P] and the last one is not empty. *)
Definition cut (s n : nat) (P : list Z) : Prop :=
  (0 < s)%nat /\ (0 < n)%nat /\ ((n - 1) * s < length P <= n * s)%nat.

(** One delivery: the piece's index and the clock reads of the call. *)
Definition deliver (s n : nat) (P : list Z) (key : ReassemblyKey) (w : World) (d : nat * Clock)
    : outcome (option (list Z) * World) :=
  process_fragment w d.2 (k_src_ip key) (k_dst_ip key) (k_protocol key) (k_identification key)
    (Z.of_nat (d.1 * s) / 8) (d.1 <? n - 1)%nat (piece s P d.1).

Fixpoint feed (s n : nat) (P : list Z) (key : ReassemblyKey) (w : World) (ds : list (nat * Clock))
    : outcome (list (option (list Z)) * World) :=
  match ds with
  | [] => Ret ([], w)
  | d :: ds =>
      '(r, w) ← deliver s n P key w d;
      '(rs, w) ← feed s n P key w ds;
      Ret (r :: rs, w)
  end.

(** Clock reads within the time-out of [T]. *)
Definition in_time (T : Z) (c : Clock) : Prop :=
  T <= now_new c /\ now_cleanup c <= T + FRAGMENT_TIMEOUT_MS.

Definition entry (s : nat) (P : list Z) (p : nat * Z) : Z * Fragment :=
  (Z.of_nat (p.1 * s), mk_fragment (Z.of_nat (p.1 * s)) (piece s P p.1) p.2).

(** The buffer holds exactly the pieces of [D]. *)
Record held (s n : nat) (P : list Z) (T : Z) (D : list (nat * Z)) (b : ReassemblyBuffer) : Prop :=
  mk_held {
  held_fragments : fragments b = list_to_map (entry s P <$> D);
  held_nodup : NoDup D.*1;
  held_index : Forall (fun i => i < n)%nat D.*1;
  held_total : total_length b = if decide ((n - 1)%nat ∈ D.*1) then Some (len P) else None;
  held_arrival : T <= first_arrival b }.

(** A buffer of two overlapping fragments of the bytes 1 to 24. *)
Definition sample_payload : list Z := [1; 2; 3; 4; 5; 6; 7; 8; 9; 10; 11; 12; 13; 14; 15; 16; 17; 18;
  19; 20; 21; 22; 23; 24].
Definition sample_buffer : ReassemblyBuffer :=
  let b := (add_fragment (new 1 2 17 0 0) 8 (drop 8 sample_payload) true 5).2 in
  (add_fragment b 0 (take 16 sample_payload) false 6).2.

(** Three fragments any host can send: the last one announces 16 bytes in all, after
    data up to byte 32 arrived. *)
Definition hostile_run : outcome (option (list Z) * World) :=
  let c := mk_clock 0 0 0 in
  '(_, w) ← process_fragment (init (mk_world ∅ stats_new)) c 1 2 17 0 0 true (replicate 24 0);
  '(_, w) ← process_fragment w c 1 2 17 0 3 true (replicate 8 0);
  process_fragment w c 1 2 17 0 1 false (replicate 8 0).

(** ** Lemmas *)

Lemma covered_loop_sound l c r :
  covered_loop l c = Some r ->
  c <= r /\ (forall x, c <= x < r -> spans l x) /\
  (forall o f, (o, f) ∈ l -> o <= r /\ o + len (data f) <= r).
Proof.
  revert c. induction l as [| [o f] l IH]; intros c; cbn [covered_loop].
  - intros [= <-]. split_and!; [lia | lia |]. by intros o f H%not_elem_of_nil.
  - destruct (Z.ltb_spec c o); [done |]. intros (H1 & H2 & H3)%IH. split_and!; [lia | |].
    + intros x Hx. destruct (Z.lt_ge_cases x (Z.max c (o + len (data f)))).
      * exists o, f. split; [by apply elem_of_cons; left | lia].
      * destruct (H2 x) as (o' & f' & Hin & Hr); [lia |]. exists o', f'.
        split; [by apply elem_of_cons; right | done].
    + intros o' f' [[= -> ->] | Hin]%elem_of_cons; [lia | by apply H3].
Qed.

Lemma covered_loop_complete l c :
  StronglySorted key_le l ->
  (forall o f x, (o, f) ∈ l -> c <= x < o -> spans l x) -> is_Some (covered_loop l c).
Proof.
  intros Hs. revert c. induction Hs as [| [o f] l Hs IH Hall]; intros c Hc; cbn [covered_loop];
    [by eexists |]. rewrite Forall_forall in Hall.
  destruct (Z.ltb_spec c o).
  - destruct (Hc o f c) as (o' & f' & [[= -> ->] | Hin]%elem_of_cons & Hr);
      [by apply elem_of_cons; left | lia | lia |].
    specialize (Hall _ Hin). unfold key_le in Hall. cbn in Hall. lia.
  - apply IH. intros o' f' x Hin Hx.
    destruct (Hc o' f' x) as (o2 & f2 & [[= -> ->] | Hin2]%elem_of_cons & Hr);
      [by apply elem_of_cons; right | lia | lia |]. by exists o2, f2.
Qed.

Lemma len_app l k : len (l ++ k) = len l + len k.
Proof. unfold len. rewrite length_app. lia. Qed.

Lemma reassemble_loop_spec P l result :
  (forall o f, (o, f) ∈ l -> agrees P o f) -> length result = length P ->
  exists r, reassemble_loop l (len P) result = Ret r /\ length r = length P /\
    forall x : nat, (result !! x = P !! x \/ spans l (Z.of_nat x)) -> r !! x = P !! x.
Proof.
  revert result. induction l as [| [o f] l IH]; intros result Hag Hlen; cbn [reassemble_loop].
  - exists result. split_and!; try done. intros x [? | (o & f & H%not_elem_of_nil & _)]; done.
  - destruct (Hag o f) as (H0 & H1 & H2); [by apply elem_of_cons; left |].
    unfold len in *. rewrite Z.min_l by lia.
    destruct (Z.leb_spec o (o + Z.of_nat (length (data f)))); [| lia].
    replace (Z.to_nat (o + Z.of_nat (length (data f)) - o)) with (length (data f)) by lia.
    rewrite slice_in by lia. rewrite outcome_bind_ret, drop_0, Nat.sub_0_r, firstn_all.
    rewrite copy_at_in by lia. rewrite outcome_bind_ret.
    set (res' := take _ result ++ _).
    assert (length res' = length P) as Hl'.
    { unfold res'. rewrite !length_app, length_take, length_drop. lia. }
    assert (forall x, (result !! x = P !! x \/ o <= Z.of_nat x < o + Z.of_nat (length (data f))) ->
      res' !! x = P !! x) as Hres'.
    { intros x Hx. unfold res'.
      destruct (decide (x < Z.to_nat o)%nat) as [Hlt | Hge].
      - rewrite lookup_app_l by (rewrite length_take; lia). rewrite lookup_take_lt by lia.
        destruct Hx; [done | lia].
      - rewrite lookup_app_r, length_take, Nat.min_l by (rewrite ?length_take; lia).
        destruct (decide (x - Z.to_nat o < length (data f))%nat) as [Hin | Hout].
        + rewrite lookup_app_l by lia. rewrite H2, lookup_take_lt, lookup_drop by lia.
          f_equal. lia.
        + rewrite lookup_app_r, lookup_drop by lia.
          replace (Z.to_nat o + length (data f) + (x - Z.to_nat o - length (data f)))%nat
            with x by lia. destruct Hx; [done | lia]. }
    destruct (IH res') as (r & Hr & Hlr & Hx); [| done |].
    { intros o' f' Hin. apply Hag. by apply elem_of_cons; right. }
    exists r. split_and!; [done | done |]. intros x Hor. apply Hx.
    destruct Hor as [Heq | (o' & f' & [[= -> ->] | Hin]%elem_of_cons & Hsp)].
    + left. apply Hres'. by left.
    + left. apply Hres'. by right.
    + right. by exists o', f'.
Qed.

(** A complete buffer whose fragments agree with [P] reassembles to [P]. *)
Lemma reassemble_spec P b :
  total_length b = Some (len P) -> (forall o f, fragments b !! o = Some f -> agrees P o f) ->
  is_complete b = true -> reassemble b = Ret (Some P).
Proof.
  intros Ht Hag Hc. unfold is_complete in Hc. unfold reassemble. rewrite Ht in *.
  destruct (covered_loop _ 0) as [r |] eqn:Hcov; [| done].
  apply covered_loop_sound in Hcov as (_ & Hsp & _). apply Z.leb_le in Hc.
  destruct (reassemble_loop_spec P (btree_iter (fragments b)) (replicate (Z.to_nat (len P)) 0))
    as (res & -> & Hl & Hx).
  - intros o f Hin%btree_iter_elem. by apply Hag.
  - rewrite length_replicate. unfold len. lia.
  - rewrite outcome_bind_ret. do 2 f_equal. apply list_eq. intros x.
    destruct (decide (x < length P)%nat).
    + apply Hx. right. apply Hsp. unfold len in *. lia.
    + by rewrite !lookup_ge_None_2 by lia.
Qed.

Section Cut.
Context (s n : nat) (P : list Z) (Hcut : cut s n P).

Lemma piece_length i : length (piece s P i) = Nat.min s (length P - i * s).
Proof. unfold piece. by rewrite length_take, length_drop. Qed.

Lemma piece_bounds i :
  (i < n)%nat -> (0 < length (piece s P i) <= s)%nat /\ (i * s + length (piece s P i) <= length P)%nat.
Proof.
  intros Hi. rewrite piece_length. destruct Hcut as (Hs & Hn & Hl).
  assert (i * s <= (n - 1) * s)%nat by (apply Nat.mul_le_mono_r; lia). lia.
Qed.

Lemma piece_last : ((n - 1) * s + length (piece s P (n - 1)) = length P)%nat.
Proof. rewrite piece_length. destruct Hcut as (Hs & Hn & Hl). nia. Qed.

Lemma piece_full i : (i < n - 1)%nat -> length (piece s P i) = s.
Proof.
  intros Hi. rewrite piece_length. destruct Hcut as (Hs & Hn & Hl).
  assert (S i * s <= (n - 1) * s)%nat by (apply Nat.mul_le_mono_r; lia). lia.
Qed.

Lemma piece_agrees i t : (i < n)%nat -> agrees P (Z.of_nat (i * s)) (mk_fragment (Z.of_nat (i * s)) (piece s P i) t).
Proof.
  intros Hi. pose proof (piece_bounds i Hi). unfold agrees, len. cbn [data]. split_and!; [lia.. |].
  rewrite Nat2Z.id. unfold piece at 1. rewrite piece_length.
  destruct (Nat.le_ge_cases s (length P - i * s)); [by rewrite Nat.min_l |].
  by rewrite Nat.min_r, !take_ge by (rewrite ?length_drop; lia).
Qed.

(** The loop of [fragment_packet] from the [i]-th piece on. *)
Lemma fragment_loop_spec k i fuel frags st :
  (i + k = n)%nat -> (k < fuel)%nat ->
  fragment_loop fuel P (Z.of_nat s) (if decide (k = 0%nat) then len P else Z.of_nat (i * s)) frags st =
  Ret (frags ++ (piece s P <$> seq i k), Nat.iter k bump_created st).
Proof.
  revert i fuel frags st. induction k as [| k IH]; intros i fuel frags st Hi Hf;
    (destruct fuel as [| fuel]; [lia |]); cbn [fragment_loop].
  - rewrite decide_True by done. rewrite Z.ltb_irrefl. cbn. by rewrite app_nil_r.
  - rewrite decide_False by done. pose proof (piece_bounds i ltac:(lia)) as [Hp1 Hp2].
    unfold len. destruct (Z.ltb_spec (Z.of_nat (i * s)) (Z.of_nat (length P))); [| lia].
    pose proof (piece_length i) as Hpl.
    replace (Z.min (Z.of_nat (length P) - Z.of_nat (i * s)) (Z.of_nat s))
      with (Z.of_nat (length (piece s P i))) by lia.
    rewrite slice_in by lia.
    replace (Z.to_nat (Z.of_nat (i * s) + Z.of_nat (length (piece s P i))) - Z.to_nat (Z.of_nat (i * s)))%nat
      with (length (piece s P i)) by lia.
    rewrite outcome_bind_ret, Nat2Z.id.
    replace (take (length (piece s P i)) (drop (i * s) P)) with (piece s P i)
      by (destruct (piece_agrees i 0 ltac:(lia)) as (_ & _ & E); cbn [data] in E; by rewrite Nat2Z.id in E).
    replace (Z.of_nat (i * s) + Z.of_nat (length (piece s P i)))
      with (if decide (k = 0%nat) then len P else Z.of_nat (S i * s)).
    + rewrite (IH (S i) fuel) by lia. cbn [seq fmap list_fmap]. rewrite <- app_assoc.
      by rewrite Nat.iter_succ_r.
    + destruct (decide (k = 0%nat)).
      * unfold len. replace i with (n - 1)%nat in * by lia. pose proof piece_last. lia.
      * rewrite piece_full by lia. lia.
Qed.

End Cut.

Lemma cut_exists s P : (0 < s)%nat -> (0 < length P)%nat -> cut s ((length P + s - 1) / s) P.
Proof.
  intros Hs Hp. unfold cut. set (n := ((length P + s - 1) / s)%nat).
  pose proof (Nat.div_mod (length P + s - 1) s ltac:(lia)) as E. fold n in E.
  pose proof (Nat.mod_upper_bound (length P + s - 1) s ltac:(lia)).
  assert (0 < n)%nat by (destruct n; lia). split_and!; [lia.. | |]; nia.
Qed.

Lemma cleanup_lookup w now k :
  REASSEMBLY_BUFFERS (cleanup_expired_buffers w now) !! k =
  match REASSEMBLY_BUFFERS w !! k with
  | Some b => if is_expired b now then None else Some b
  | None => None
  end.
Proof.
  unfold cleanup_expired_buffers. set (ks := fst <$> _).
  assert (forall ks w, REASSEMBLY_BUFFERS (fold_left (fun w key =>
    mk_world (delete key (REASSEMBLY_BUFFERS w)) (bump_timeouts (FRAGMENT_STATS w))) ks w) =
    remove_all ks (REASSEMBLY_BUFFERS w)) as ->.
  { clear. induction ks as [| k ks IH]; intros w; cbn [fold_left remove_all]; [done |]. by rewrite IH. }
  rewrite remove_all_lookup.
  assert (k ∈ ks <-> exists b, REASSEMBLY_BUFFERS w !! k = Some b /\ is_expired b now = true) as Hin.
  { unfold ks. rewrite list_elem_of_fmap. split.
    - intros ([k' b] & -> & [Hb He]%filter_elem). exists b. by apply elem_of_map_to_list in Hb.
    - intros (b & Hb & He). exists (k, b). by rewrite filter_elem, elem_of_map_to_list. }
  destruct (REASSEMBLY_BUFFERS w !! k) as [b |]; [destruct (is_expired b now) eqn:He |];
    destruct (decide (k ∈ ks)) as [Hk | Hk]; try done.
  - destruct Hk. apply Hin. by exists b.
  - apply Hin in Hk as (b' & [= <-] & ?). congruence.
Qed.

Section Reassembly.
Context (s n : nat) (P : list Z) (T : Z) (key : ReassemblyKey).
Context (Hcut : cut s n P) (H8 : Z.of_nat s mod 8 = 0) (Hmax : (n <= MAX_FRAGMENTS_PER_PACKET)%nat).

Lemma entry_keys_nodup (D : list (nat * Z)) : NoDup D.*1 -> NoDup (entry s P <$> D).*1.
Proof.
  intros Hnd. rewrite <- list_fmap_compose.
  replace (fst ∘ entry s P <$> D) with ((fun i => Z.of_nat (i * s)) <$> D.*1)
    by (rewrite <- list_fmap_compose; done).
  apply NoDup_fmap_2; [| done]. intros i j E. destruct Hcut as (Hs & _). nia.
Qed.

Lemma held_lookup D b o f :
  held s n P T D b ->
  fragments b !! o = Some f <-> exists i t, (i, t) ∈ D /\ (o, f) = entry s P (i, t).
Proof.
  intros Hh. rewrite (held_fragments _ _ _ _ _ _ Hh).
  rewrite <- elem_of_list_to_map by (apply entry_keys_nodup, Hh).
  rewrite list_elem_of_fmap. split.
  - intros ([i t] & E & Hin). by exists i, t.
  - intros (i & t & Hin & E). by exists (i, t).
Qed.

Lemma held_size D b : held s n P T D b -> size (fragments b) = length D.
Proof.
  intros Hh. rewrite (held_fragments _ _ _ _ _ _ Hh).
  rewrite map_size_list_to_map by (apply entry_keys_nodup, Hh). apply length_fmap.
Qed.

Lemma held_add D b j t :
  held s n P T D b -> j ∉ D.*1 -> (j < n)%nat -> (length D < n)%nat ->
  exists b', add_fragment b (Z.of_nat (j * s)) (piece s P j) (negb (j <? n - 1)%nat) t = (true, b') /\
    held s n P T ((j, t) :: D) b'.
Proof.
  intros Hh Hj Hn Hl. unfold add_fragment. rewrite (held_size D b Hh).
  destruct (Nat.leb_spec MAX_FRAGMENTS_PER_PACKET (length D)); [lia |].
  eexists. split; [reflexivity |]. destruct Hh as [Hf Hnd Hi Ht Ha].
  split; cbn [fragments total_length first_arrival]; rewrite ?fmap_cons; cbn [fst].
  - by rewrite Hf.
  - by apply NoDup_cons.
  - by rewrite Forall_cons.
  - pose proof (piece_last s n P Hcut) as Hlast.
    destruct (Nat.ltb_spec j (n - 1)); cbn [negb].
    + rewrite Ht. destruct (decide ((n - 1)%nat ∈ D.*1)) as [Hin | Hout].
      * by rewrite decide_True by (by apply elem_of_cons; right).
      * rewrite decide_False; [done |]. intros [? | ?]%elem_of_cons; [lia | done].
    + replace j with (n - 1)%nat in * by lia.
      rewrite decide_True by (by apply elem_of_cons; left). f_equal. unfold len. lia.
  - done.
Qed.

Lemma nodup_all (l : list nat) :
  NoDup l -> Forall (fun i => i < n)%nat l ->
  (length l = n <-> forall i, (i < n)%nat -> i ∈ l).
Proof.
  intros Hnd Hall. rewrite Forall_forall in Hall.
  assert (l ⊆+ seq 0 n) as Hsub.
  { apply NoDup_submseteq; [done |]. intros i Hi%Hall. apply elem_of_seq. lia. }
  split.
  - intros Hl i Hi. rewrite (submseteq_length_Permutation _ _ Hsub) by (rewrite length_seq; lia).
    apply elem_of_seq. lia.
  - intros Hin. apply submseteq_length in Hsub as H1. rewrite length_seq in H1.
    assert (seq 0 n ⊆+ l) as Hsub2%submseteq_length.
    { apply NoDup_submseteq; [apply NoDup_seq |]. intros i Hi%elem_of_seq. apply Hin. lia. }
    rewrite length_seq in Hsub2. lia.
Qed.

(** A buffer of pieces is complete exactly when it holds all of them. *)
Lemma held_complete D b : held s n P T D b -> is_complete b = bool_decide (length D = n).
Proof.
  intros Hh. pose proof (nodup_all D.*1 (held_nodup _ _ _ _ _ _ Hh) (held_index _ _ _ _ _ _ Hh)) as Hall.
  rewrite length_fmap in Hall. pose proof Hcut as (Hs & Hn & Hlen). unfold is_complete.
  rewrite (held_total _ _ _ _ _ _ Hh).
  assert (forall x i t, (i, t) ∈ D -> Z.of_nat (i * s) <= x < Z.of_nat (i * s) + len (piece s P i) ->
    spans (btree_iter (fragments b)) x) as Hspan.
  { intros x i t Hin Hx.
    exists (Z.of_nat (i * s)), (mk_fragment (Z.of_nat (i * s)) (piece s P i) t).
    split; [| exact Hx]. apply btree_iter_elem, (held_lookup D b _ _ Hh). by exists i, t. }
  case_bool_decide as Hd.
  - apply Hall with (i := (n - 1)%nat) in Hd as Hlast; [| lia]. rewrite decide_True by done.
    assert (forall x, 0 <= x < len P -> spans (btree_iter (fragments b)) x) as Hsp.
    { intros x Hx. unfold len in Hx. set (i := (Z.to_nat x / s)%nat).
      pose proof (Nat.div_mod (Z.to_nat x) s ltac:(lia)) as Edm. fold i in Edm.
      pose proof (Nat.mod_upper_bound (Z.to_nat x) s ltac:(lia)).
      assert (i < n)%nat as Hin by (apply Nat.div_lt_upper_bound; lia).
      apply (proj1 Hall Hd) in Hin as ([i' t] & -> & Hin')%list_elem_of_fmap. cbn [fst] in *.
      apply (Hspan x i' t Hin'). unfold len. rewrite (piece_length s P). nia. }
    destruct (covered_loop_complete (btree_iter (fragments b)) 0 (btree_iter_sorted _)) as [r Hr].
    { intros o f x (i & t & Hin & [= -> ->])%btree_iter_elem%(held_lookup D b _ _ Hh) Hx.
      apply Hsp. pose proof (held_index _ _ _ _ _ _ Hh) as Hi. rewrite Forall_forall in Hi.
      pose proof (piece_bounds s n P Hcut i (Hi i ltac:(apply list_elem_of_fmap; by exists (i, t)))).
      unfold len. lia. }
    rewrite Hr. apply covered_loop_sound in Hr as (_ & _ & Hend). apply Z.leb_le.
    apply list_elem_of_fmap in Hlast as ([i t] & E & Hin). cbn [fst] in E. subst i.
    pose proof (piece_last s n P Hcut). unfold len.
    destruct (Hend (Z.of_nat ((n - 1) * s)) (mk_fragment (Z.of_nat ((n - 1) * s)) (piece s P (n - 1)) t))
      as [_ Hr]; [| unfold len in Hr; cbn [data] in Hr; lia].
    apply btree_iter_elem, (held_lookup D b _ _ Hh). by exists (n - 1)%nat, t.
  - destruct (decide _) as [_ |]; [| done]. destruct (covered_loop _ 0) as [r |] eqn:Hr; [| done].
    apply covered_loop_sound in Hr as (_ & Hsp & _). apply Z.leb_gt.
    destruct (Z.lt_ge_cases r (len P)) as [| Hge]; [done |]. exfalso. apply Hd, Hall. intros i Hi.
    pose proof (piece_bounds s n P Hcut i Hi).
    destruct (Hsp (Z.of_nat (i * s))) as (o & f & Hin & Hx); [unfold len in *; lia |].
    apply btree_iter_elem, (held_lookup D b _ _ Hh) in Hin as (j & t & Hin & [= -> ->]).
    unfold len in Hx. cbn [data fst] in Hx. rewrite piece_length in Hx.
    assert (i = j) as -> by nia. apply list_elem_of_fmap. by exists (j, t).
Qed.

(** The pieces of [D] are in the buffer of [key], and no buffer exists before the first. *)
Definition ready (w : World) (D : list (nat * Z)) : Prop :=
  match REASSEMBLY_BUFFERS w !! key with Some b => held s n P T D b | None => D = [] end.

Lemma held_new now : T <= now ->
  held s n P T [] (new (k_src_ip key) (k_dst_ip key) (k_protocol key) (k_identification key) now).
Proof.
  intros Ht. split; try done. cbn. apply NoDup_nil_2.
Qed.

(** One delivery of a missing piece. *)
Lemma deliver_step w D d :
  ready w D -> in_time T d.2 -> d.1 ∉ D.*1 -> (d.1 < n)%nat -> (length D < n)%nat ->
  exists w', deliver s n P key w d =
    Ret (if decide (S (length D) = n) then Some P else None, w') /\
    (S (length D) <> n -> ready w' ((d.1, now_fragment d.2) :: D)).
Proof.
  destruct d as [j c]. cbn [fst snd]. intros Hr [Hnew Hclean] Hj Hn Hl.
  unfold deliver, process_fragment. cbn [fst snd].
  set (w1 := mk_world _ _).
  set (w2 := if (_ <=? _)%nat then _ else w1).
  assert (ready w2 D) as Hr2.
  { unfold w2. destruct (_ <=? _)%nat; [| exact Hr]. unfold ready in *. rewrite cleanup_lookup.
    cbn [w1 REASSEMBLY_BUFFERS]. destruct (REASSEMBLY_BUFFERS w !! key) as [b |]; [| done].
    assert (is_expired b (now_cleanup c) = false) as ->; [| done].
    unfold is_expired, sat_sub. pose proof (held_arrival _ _ _ _ _ _ Hr).
    unfold FRAGMENT_TIMEOUT_MS in *. lia. }
  clearbody w2. clear w1 Hr.
  set (b0 := match REASSEMBLY_BUFFERS w2 !! _ with Some b => b | None => _ end).
  assert (held s n P T D b0) as Hb0.
  { unfold b0, ready in *. replace (mk_key _ _ _ _) with key by by destruct key.
    destruct (REASSEMBLY_BUFFERS w2 !! key); [done |]. subst D. by apply held_new. }
  replace (Z.of_nat (j * s) / 8 * 8) with (Z.of_nat (j * s)).
  2: { pose proof (Z.div_mod (Z.of_nat (j * s)) 8). assert (Z.of_nat (j * s) mod 8 = 0); [| lia].
       rewrite Nat2Z.inj_mul, Z.mul_mod, H8, Z.mul_0_r by lia. done. }
  destruct (held_add D b0 j (now_fragment c) Hb0 Hj Hn Hl) as (b' & -> & Hb'). cbn [negb].
  rewrite (held_complete _ _ Hb'). cbn [length]. case_bool_decide as Hall.
  - rewrite decide_True by done. rewrite (reassemble_spec P b').
    + rewrite outcome_bind_ret. eexists. split; [reflexivity | done].
    + rewrite (held_total _ _ _ _ _ _ Hb'), decide_True; [done |].
      apply nodup_all; [apply Hb' | apply Hb' | by rewrite length_fmap |]. destruct Hcut; lia.
    + intros o f (i & t & Hin & [= -> ->])%(held_lookup _ _ _ _ Hb').
      eapply piece_agrees; [exact Hcut |]. pose proof (held_index _ _ _ _ _ _ Hb') as Hi.
      rewrite Forall_forall in Hi. apply Hi, list_elem_of_fmap. by exists (i, t).
    + rewrite (held_complete _ _ Hb'). by apply bool_decide_eq_true.
  - rewrite decide_False by done. eexists. split; [reflexivity |]. intros _.
    unfold ready. cbn [REASSEMBLY_BUFFERS]. replace (mk_key _ _ _ _) with key by by destruct key.
    by rewrite lookup_insert_eq.
Qed.

(** Delivering all missing pieces, in any order: only the last one yields a datagram. *)
Lemma feed_result w D ds :
  ready w D -> Forall (in_time T) ds.*2 -> NoDup (ds.*1 ++ D.*1) ->
  Forall (fun i => i < n)%nat ds.*1 -> (length ds + length D = n)%nat -> ds <> [] ->
  exists w', feed s n P key w ds = Ret (replicate (length ds - 1) None ++ [Some P], w').
Proof.
  revert w D. induction ds as [| d ds IH]; [done |]. intros w D Hr Ht Hnd Hi Hl _.
  rewrite fmap_cons in Ht. rewrite fmap_cons in Hnd, Hi.
  rewrite Forall_cons in Ht. rewrite Forall_cons in Hi.
  cbn [app] in Hnd. apply NoDup_cons in Hnd as [Hni Hnd]. cbn [length] in Hl.
  destruct (deliver_step w D d) as (w' & Hd & Hr'); try tauto; [| lia |].
  { intros Hin. apply Hni, elem_of_app. by right. }
  cbn [feed]. rewrite Hd, outcome_bind_ret. destruct ds as [| d' ds].
  - cbn [length] in Hl. rewrite decide_True by lia. cbn. by eexists.
  - rewrite decide_False by (cbn [length] in Hl; lia).
    destruct (IH w' ((d.1, now_fragment d.2) :: D)) as (w2 & Hf); try tauto; try done.
    + apply Hr'. cbn [length] in Hl. lia.
    + change (((d.1, now_fragment d.2) :: D).*1) with (d.1 :: D.*1).
      by rewrite <- Permutation_middle, NoDup_cons.
    + cbn [length] in *. lia.
    + rewrite Hf, outcome_bind_ret. eexists. cbn [length].
      replace (S (S (length ds)) - 1)%nat with (S (S (length ds) - 1))%nat by lia. reflexivity.
Qed.

End Reassembly.

Lemma concat_pieces s P n i :
  (length P <= (i + n) * s)%nat -> concat (piece s P <$> seq i n) = drop (i * s) P.
Proof.
  revert i. induction n as [| n IH]; intros i Hl; cbn [seq fmap list_fmap concat].
  - by rewrite drop_ge by lia.
  - rewrite IH by lia. unfold piece. rewrite <- (take_drop s (drop (i * s) P)) at 2.
    rewrite drop_drop. do 2 f_equal. lia.
Qed.

(** With no room for eight bytes the loop never advances. *)
Lemma fragment_loop_stuck fuel P frags st :
  0 < len P -> fragment_loop fuel P 0 0 frags st = OutOfFuel.
Proof.
  intros Hl. revert frags st. induction fuel as [| fuel IH]; intros frags st; [done |].
  cbn [fragment_loop]. destruct (Z.ltb_spec 0 (len P)); [| lia].
  rewrite Z.min_r by lia. rewrite slice_in by (cbn; lia). rewrite outcome_bind_ret. apply IH.
Qed.

(** ** Properties *)

(** Fragmenting for a link with room for at least eight payload bytes terminates, the
    pieces concatenate to the payload, every piece but the last has the same size, a
    multiple of eight, and no piece exceeds the link's payload. For a link with room for
    fewer than eight bytes, the loop never ends on a payload that needs splitting. *)
Theorem fragment_packet_cuts (payload : list Z) (mtu : Z) (w : World) (Hmtu : 20 <= mtu < 2 ^ 64)
    (Hlen : 0 < len payload) :
  (28 <= mtu -> exists frags w', fragment_packet (S (length payload)) payload mtu w = Ret (frags, w') /\
     concat frags = payload /\ REASSEMBLY_BUFFERS w' = REASSEMBLY_BUFFERS w /\
     (forall i f, frags !! i = Some f -> 0 < len f <= mtu - 20) /\
     (forall i f, frags !! i = Some f -> (S i < length frags)%nat ->
        len f = (mtu - 20) / 8 * 8)) /\
  (mtu < 28 -> mtu - 20 < len payload ->
     forall fuel, fragment_packet fuel payload mtu w = OutOfFuel).
Proof.
  unfold fragment_packet. rewrite wrap_small by (unfold u_ty; lia).
  pose proof (Z.div_mod (mtu - 20) 8) as Edm. pose proof (Z.mod_pos_bound (mtu - 20) 8) as Hmod.
  split.
  - intros H28. destruct (Z.leb_spec (len payload) (mtu - 20)) as [Hs | Hs].
    { exists [payload], w. split; [done |]. split_and!; try done; [apply app_nil_r | |].
      - intros i f [_ <-]%list_lookup_singleton_Some. lia.
      - intros i f _ Hi. cbn in Hi. lia. }
    set (m := (mtu - 20) / 8 * 8) in *. assert (8 <= m <= mtu - 20) as Hm by (unfold m; lia).
    set (s := Z.to_nat m). pose proof (cut_exists s payload ltac:(lia) ltac:(unfold len in *; lia)) as Hc.
    set (n := ((length payload + s - 1) / s)%nat) in *.
    assert (n < S (length payload))%nat as Hn.
    { destruct Hc as (? & ? & ? & _). nia. }
    pose proof (fragment_loop_spec s n payload Hc n 0 (S (length payload)) [] (FRAGMENT_STATS w)
      eq_refl Hn) as E.
    destruct (decide (n = 0%nat)); [destruct Hc; lia |].
    replace (Z.of_nat s) with m in E by lia. change (Z.of_nat (0 * s)) with 0 in E.
    rewrite E, outcome_bind_ret.
    eexists _, _. split; [reflexivity |]. split_and!; [| done | |].
    + cbn [app]. rewrite concat_pieces by (destruct Hc as (_ & _ & ?); lia). by rewrite drop_0.
    + intros i f (j & -> & Hj)%list_lookup_fmap_Some. apply lookup_seq in Hj as [-> Hj].
      pose proof (piece_bounds s n payload Hc (0 + i) ltac:(lia)). unfold len. lia.
    + intros i f (j & -> & Hj)%list_lookup_fmap_Some Hi. apply lookup_seq in Hj as [-> Hj].
      rewrite app_nil_l, length_fmap, length_seq in Hi.
      unfold len. rewrite (piece_full s n payload Hc) by lia. lia.
  - intros Hlt Hbig fuel. destruct (Z.leb_spec (len payload) (mtu - 20)); [lia |].
    replace ((mtu - 20) / 8 * 8) with 0 by (rewrite Z.div_small by lia; done).
    by rewrite fragment_loop_stuck.
Qed.

Lemma fragment_packet_cuts_witness :
  exists frags w', fragment_packet 31 (replicate 30 7) 36 (init (mk_world ∅ stats_new)) = Ret (frags, w') /\
    concat frags = replicate 30 7.
Proof.
  destruct (fragment_packet_cuts (replicate 30 7) 36 (init (mk_world ∅ stats_new))) as [H _];
    [lia | vm_compute; done |].
  destruct H as (frags & w' & H1 & H2 & _); [lia |]. by exists frags, w'.
Defined.

(** Whatever fragments a buffer holds, overlapping and duplicated bytes included, if
    each agrees with a datagram [P] of the announced length and the buffer reports itself
    complete, reassembly returns [P] and does not panic. *)
Theorem reassemble_agreeing (P : list Z) (b : ReassemblyBuffer)
    (Htotal : total_length b = Some (len P))
    (Hagree : forall o f, fragments b !! o = Some f -> agrees P o f)
    (Hcomplete : is_complete b = true) :
  reassemble b = Ret (Some P).
Proof. by apply reassemble_spec. Qed.

Lemma reassemble_agreeing_witness : reassemble sample_buffer = Ret (Some sample_payload).
Proof.
  apply reassemble_agreeing; [vm_compute; reflexivity | | vm_compute; reflexivity].
  intros o f. unfold sample_buffer. cbn [add_fragment snd fragments new].
  change (fragments _) with
    (<[0 := mk_fragment 0 (take 16 sample_payload) 6]>
      (<[8 := mk_fragment 8 (drop 8 sample_payload) 5]> (∅ : gmap Z Fragment))).
  intros [[<- <-] | [_ [[<- <-] | [_ H]]%lookup_insert_Some]]%lookup_insert_Some;
    [unfold agrees; vm_compute; done | unfold agrees; vm_compute; done | done].
Defined.

(** Reassembly panics on fragments that disagree about the length: when the fragment
    that announces the total length ends before another fragment starts, the buffer
    reports itself complete and the copy runs out of range. Three packets suffice. *)
Theorem hostile_fragments_panic :
  hostile_run = Panic /\
  forall b total_len o f, total_length b = Some total_len ->
    fragments b !! o = Some f -> total_len < o -> reassemble b = Panic.
Proof.
  split; [vm_compute; reflexivity |]. intros b total_len o f Ht Hf Ho. unfold reassemble. rewrite Ht.
  apply btree_iter_elem in Hf. revert Hf.
  generalize (replicate (Z.to_nat total_len) 0) as res.
  induction (btree_iter (fragments b)) as [| [o' f'] l IH]; intros res Hin;
    [by apply not_elem_of_nil in Hin |]. cbn [reassemble_loop].
  apply elem_of_cons in Hin as [[= <- <-] | Hin].
  - destruct (Z.leb_spec o (Z.min (o + len (data f)) total_len)); [lia | done].
  - destruct (o' <=? _); [| done]. destruct (slice _ _ _) as [d | |] eqn:E; try done.
    + rewrite outcome_bind_ret. destruct (copy_at res _ d) as [res' | |] eqn:E2; try done.
      * rewrite outcome_bind_ret. by apply IH.
      * unfold copy_at in E2. by destruct (decide _).
    + unfold slice in E. by destruct (decide _).
Qed.

End Fragmentation.
