(* ===== verification/Ipv4.v ===== *)
(** * IPv4 packets

    Models the packet layer of [netstack/ipv4.rs]: the header codec, the checksum, the two
    packet builders, the packet loop of [send_ipv4] and the reassembly branch of
    [ipv4_input], over the fragmentation component. *)

From S2P Require Import Prelude Fragmentation.

Module Ipv4.
Import Fragmentation.

Definition IPV4_HDR_SIZE : Z := 20.
Definition IPV4_MIN_SIZE : Z := 20.
Definition IPV4_MAX_HDR_SIZE : Z := 60.

Record Ipv4Header : Type := mk_header {
  version_ihl : Z; tos : Z; h_total_length : Z; h_identification : Z; flags_offset : Z;
  ttl : Z; h_protocol : Z; checksum : Z; h_src_ip : Z; h_dst_ip : Z }.

Definition header_length (h : Ipv4Header) : Z := Z.land (version_ihl h) 0x0F * 4.
Definition payload_length (h : Ipv4Header) : Z := sat_sub (h_total_length h) (header_length h).
Definition version (h : Ipv4Header) : Z := Z.shiftr (version_ihl h) 4.

Definition validate (h : Ipv4Header) (d : list Z) : bool :=
  let ihl := header_length h in
  if negb ((IPV4_MIN_SIZE <=? ihl) && (ihl <=? IPV4_MAX_HDR_SIZE)) then false
  else if len d <? ihl then false
  else if negb (version h =? 4) then false
  else
    let total := h_total_length h in
    negb ((total <? ihl) || (len d <? total)).

Definition dont_fragment (h : Ipv4Header) : bool := has_bits (flags_offset h) 0x4000.
Definition more_fragments (h : Ipv4Header) : bool := has_bits (flags_offset h) 0x2000.
Definition fragment_offset (h : Ipv4Header) : Z := Z.land (flags_offset h) 0x1FFF.

Definition from_bytes (d : list Z) : option Ipv4Header :=
  match d with
  | d0 :: d1 :: d2 :: d3 :: d4 :: d5 :: d6 :: d7 :: d8 :: d9 :: d10 :: d11 :: d12 :: d13 :: d14
    :: d15 :: d16 :: d17 :: d18 :: d19 :: _ =>
      let header := mk_header d0 d1 (from_be [d2; d3]) (from_be [d4; d5]) (from_be [d6; d7]) d8 d9
        (from_be [d10; d11]) (from_be [d12; d13; d14; d15]) (from_be [d16; d17; d18; d19]) in
      if negb (Z.shiftr (version_ihl header) 4 =? 4) then None
      else if header_length header <? IPV4_MIN_SIZE then None
      else Some header
  | _ => None
  end.

Definition to_bytes (h : Ipv4Header) (d : list Z) : list Z :=
  if len d <? IPV4_HDR_SIZE then d
  else [version_ihl h; tos h] ++ to_be 2 (h_total_length h) ++ to_be 2 (h_identification h)
    ++ to_be 2 (flags_offset h) ++ [ttl h; h_protocol h] ++ to_be 2 (checksum h)
    ++ to_be 4 (h_src_ip h) ++ to_be 4 (h_dst_ip h) ++ drop 20 d.

(** [for chunk in data.chunks(2)] *)
Fixpoint sum_chunks (d : list Z) (sum : Z) : Z :=
  match d with
  | a :: b :: d => sum_chunks d (sum +[32] from_be [a; b])
  | [a] => sum +[32] a
  | [] => sum
  end.

(** [while sum > 0xFFFF] *)
Fixpoint carry_loop (fuel : nat) (sum : Z) : outcome Z :=
  match fuel with
  | O => OutOfFuel
  | S fuel =>
      if 0xFFFF <? sum then carry_loop fuel (Z.land sum 0xFFFF +[32] Z.shiftr sum 16) else Ret sum
  end.

Definition calculate_checksum (d : list Z) : outcome Z :=
  sum ← carry_loop 4 (sum_chunks d 0);
  Ret (wrap 16 (wnot 32 sum)).

Definition verify_checksum (d : list Z) : outcome bool :=
  checksum ← calculate_checksum d;
  Ret (checksum =? 0).

Definition parse_ipv4_header (d : list Z) : outcome (option (Ipv4Header * list Z)) :=
  match from_bytes d with
  | None => Ret None
  | Some header =>
      if negb (validate header d) then Ret None
      else
        hdr ← slice d 0 (Z.to_nat (header_length header));
        ok ← verify_checksum hdr;
        if negb ok then Ret None
        else
          payload ← slice d (Z.to_nat (header_length header)) (Z.to_nat (h_total_length header));
          Ret (Some (header, payload))
  end.

(** The twenty header bytes both builders push, with a zero checksum. *)
Definition header_bytes (total_length identification flags ttl protocol src_ip dst_ip : Z) : list Z :=
  [0x45; 0] ++ to_be 2 total_length ++ to_be 2 identification ++ to_be 2 flags
  ++ [ttl; protocol] ++ to_be 2 0 ++ to_be 4 src_ip ++ to_be 4 dst_ip.

Definition set_checksum (packet : list Z) : outcome (list Z) :=
  checksum ← calculate_checksum packet;
  packet ← wr packet 10 (wrap 8 (Z.shiftr checksum 8));
  wr packet 11 (wrap 8 checksum).

Definition build_ipv4_packet (src_ip dst_ip protocol ttl : Z) (payload : list Z) : outcome (list Z) :=
  let total_length := wrap 16 (IPV4_HDR_SIZE + len payload) in
  packet ← set_checksum (header_bytes total_length 0 0x4000 ttl protocol src_ip dst_ip);
  Ret (packet ++ payload).

Definition build_ipv4_fragment (src_ip dst_ip protocol ttl identification : Z) (more : bool)
    (fragment_offset : Z) (payload : list Z) : outcome (list Z) :=
  let total_length := wrap 16 (IPV4_HDR_SIZE + len payload) in
  let flags_frag := Z.lor (if more then 0x2000 else 0) fragment_offset in
  packet ← set_checksum (header_bytes total_length identification flags_frag ttl protocol src_ip dst_ip);
  Ret (packet ++ payload).

(** The packet loop of [send_ipv4]; [count] is [fragments.len()]. *)
Fixpoint send_loop (src_ip dst_ip protocol : Z) (count i : nat) (offset_units : Z)
    (frags : list (list Z)) : outcome (list (list Z)) :=
  match frags with
  | [] => Ret []
  | fragment_payload :: frags =>
      let more := (i <? count - 1)%nat in
      packet ← (if (1 <? count)%nat
                then build_ipv4_fragment src_ip dst_ip protocol 64 0 more offset_units fragment_payload
                else build_ipv4_packet src_ip dst_ip protocol 64 fragment_payload);
      let offset_units := offset_units +[16] (wrap 16 (len fragment_payload) + 7) / 8 in
      packets ← send_loop src_ip dst_ip protocol count (S i) offset_units frags;
      Ret (packet :: packets)
  end.

(** The packets [send_ipv4] hands to the link layer, once policy, address translation
    and next-hop resolution let the payload through. *)
Definition send_ipv4_packets (fuel : nat) (w : World) (src_ip dst_ip protocol : Z) (payload : list Z)
    : outcome (list (list Z) * World) :=
  let mtu := 1500 - 14 in
  '(frags, w) ← fragment_packet fuel payload mtu w;
  packets ← send_loop src_ip dst_ip protocol (length frags) 0 0 frags;
  Ret (packets, w).

(** [u16::from_be] on a little-endian machine. *)
Definition u16_from_be (x : Z) : Z := from_be (to_le 2 x).

(** A received packet up to the datagram it completes: parsing, then the reassembly
    branch of [ipv4_input]. An unfragmented packet is its own datagram. *)
Definition receive (w : World) (c : Clock) (packet : list Z) : outcome (option (list Z) * World) :=
  parsed ← parse_ipv4_header packet;
  match parsed with
  | None => Ret (None, w)
  | Some (header, payload) =>
      if negb (fragment_offset header =? 0) || more_fragments header then
        process_fragment w c (h_src_ip header) (h_dst_ip header) (h_protocol header)
          (u16_from_be (h_identification header)) (fragment_offset header) (more_fragments header)
          payload
      else Ret (Some payload, w)
  end.

(** ** Specification *)

(** The sum of the 16-bit words of [d], an odd last byte counted as it stands. *)
Fixpoint word_sum (d : list Z) : Z :=
  match d with
  | a :: b :: d => from_be [a; b] + word_sum d
  | [a] => a
  | [] => 0
  end.

(** One's-complement reduction of a sum to 16 bits. *)
Definition ones (s : Z) : Z := if s =? 0 then 0 else (s - 1) mod 65535 + 1.

(** A header's fields are in range. *)
Definition fields_ty (total identification flags ttl protocol src dst : Z) : Prop :=
  u_ty 16 total /\ u_ty 16 identification /\ u_ty 16 flags /\ byte_ty ttl /\ byte_ty protocol /\
  u_ty 32 src /\ u_ty 32 dst.

Fixpoint receive_all (w : World) (ds : list (list Z * Clock)) : outcome (list (option (list Z)) * World) :=
  match ds with
  | [] => Ret ([], w)
  | d :: ds =>
      '(r, w) ← receive w d.2 d.1;
      '(rs, w) ← receive_all w ds;
      Ret (r :: rs, w)
  end.

(** ** Lemmas *)

Lemma ones_small s : 0 <= s <= 65535 -> ones s = s.
Proof.
  intros H. unfold ones. destruct (Z.eqb_spec s 0); [done |]. rewrite Z.mod_small by lia. lia.
Qed.

Lemma ones_step s : 65535 < s -> ones (s mod 65536 + s / 65536) = ones s.
Proof.
  intros H. unfold ones. pose proof (Z.div_mod s 65536). pose proof (Z.mod_pos_bound s 65536).
  assert (1 <= s / 65536) by (apply Z.div_le_lower_bound; lia).
  destruct (Z.eqb_spec (s mod 65536 + s / 65536) 0); [lia |].
  destruct (Z.eqb_spec s 0); [lia |]. f_equal.
  replace (s - 1) with (s mod 65536 + s / 65536 - 1 + s / 65536 * 65535) by lia.
  by rewrite Z.mod_add by lia.
Qed.

Lemma carry_loop_step fuel s :
  65535 < s < 2 ^ 32 -> carry_loop (S fuel) s = carry_loop fuel (s mod 65536 + s / 65536).
Proof.
  intros H. cbn [carry_loop]. destruct (Z.ltb_spec 65535 s); [| lia].
  change 65535 with (Z.ones 16). rewrite Z.land_ones, Z.shiftr_div_pow2 by lia.
  change (2 ^ 16) with 65536. pose proof (Z.mod_pos_bound s 65536).
  assert (0 <= s / 65536 < 65536)
    by (split; [apply Z.div_pos; lia | apply Z.div_lt_upper_bound; lia]).
  by rewrite wrap_small by (unfold u_ty; lia).
Qed.

Lemma carry_loop_done fuel s : s <= 65535 -> carry_loop (S fuel) s = Ret s.
Proof. intros H. cbn [carry_loop]. by destruct (Z.ltb_spec 65535 s); [lia |]. Qed.

Lemma carry_loop_spec s : 0 <= s < 2 ^ 32 -> carry_loop 4 s = Ret (ones s).
Proof.
  intros H. destruct (Z.le_gt_cases s 65535); [by rewrite carry_loop_done, ones_small by lia |].
  rewrite carry_loop_step, <- ones_step by lia.
  set (t := s mod 65536 + s / 65536). assert (0 <= t <= 131070) as Ht.
  { unfold t. pose proof (Z.mod_pos_bound s 65536).
    assert (0 <= s / 65536 < 65536)
      by (split; [apply Z.div_pos; lia | apply Z.div_lt_upper_bound; lia]). lia. }
  destruct (Z.le_gt_cases t 65535); [by rewrite carry_loop_done, ones_small by lia |].
  rewrite carry_loop_step, <- (ones_step t) by lia.
  assert (t / 65536 = 1) as E by (symmetry; apply Z.div_unique with (t - 65536); lia).
  pose proof (Z.div_mod t 65536). rewrite carry_loop_done, ones_small by lia. done.
Qed.

Lemma word_bounds a b : byte_ty a -> byte_ty b -> 0 <= from_be [a; b] < 65536.
Proof. unfold byte_ty, u_ty, from_be. cbn. lia. Qed.

Lemma pair_ind (Q : list Z -> Prop) :
  Q [] -> (forall a, Q [a]) -> (forall a b d, Q d -> Q (a :: b :: d)) -> forall d, Q d.
Proof.
  intros H0 H1 H2. fix IH 1. intros [| a [| b d]]; [done | done |]. apply H2, IH.
Qed.

Lemma word_sum_bounds d : Forall byte_ty d -> 0 <= word_sum d <= 65535 * len d.
Proof.
  unfold len. induction d as [| a | a b d IH] using pair_ind; rewrite ?Forall_cons; cbn [word_sum length].
  - lia.
  - unfold byte_ty, u_ty. lia.
  - intros (Ha & Hb & Hd). pose proof (word_bounds a b Ha Hb). specialize (IH Hd). lia.
Qed.

Lemma sum_chunks_spec d acc :
  Forall byte_ty d -> 0 <= acc -> acc + word_sum d < 2 ^ 32 -> sum_chunks d acc = acc + word_sum d.
Proof.
  revert acc. induction d as [| a | a b d IH] using pair_ind; intros acc;
    rewrite ?Forall_cons; cbn [word_sum sum_chunks].
  - lia.
  - intros [Ha _] H0 H1. apply wrap_small. unfold byte_ty, u_ty in *. lia.
  - intros (Ha & Hb & Hd) H0 H1. pose proof (word_bounds a b Ha Hb).
    pose proof (word_sum_bounds d Hd). rewrite wrap_small by (unfold u_ty; lia). rewrite IH; [lia | done | lia | lia].
Qed.

(** The checksum, for data of at most 65536 bytes. *)
Lemma checksum_spec d :
  Forall byte_ty d -> len d <= 65536 -> calculate_checksum d = Ret (65535 - ones (word_sum d)).
Proof.
  intros Hd Hl. pose proof (word_sum_bounds d Hd). unfold calculate_checksum.
  rewrite sum_chunks_spec by (done || lia). rewrite carry_loop_spec by lia.
  rewrite outcome_bind_ret, Z.add_0_l. f_equal. set (t := ones (word_sum d)).
  assert (u_ty 16 t) as Ht.
  { unfold t, ones, u_ty. destruct (Z.eqb_spec (word_sum d) 0); [lia |].
    pose proof (Z.mod_pos_bound (word_sum d - 1) 65535). lia. }
  rewrite wrap_land by lia. replace (65535 - t) with (Z.ldiff (Z.ones 16) t).
  - apply Z.bits_inj'. intros i Hi. rewrite Z.land_spec, wnot_testbit, Z.ldiff_spec by lia.
    rewrite !Z.testbit_ones_nonneg by lia.
    destruct (Z.ltb_spec i 32), (Z.ltb_spec i 16); try lia; by rewrite ?andb_true_r, ?andb_false_r.
  - rewrite <- Z.sub_nocarry_ldiff; [done |]. apply Z.bits_inj'. intros i Hi.
    rewrite Z.ldiff_spec, Z.testbit_0_l, Z.testbit_ones_nonneg by lia.
    destruct (Z.ltb_spec i 16); cbn [negb]; [by rewrite andb_false_r |].
    by rewrite (u_ty_testbit 16 t i) by (done || lia).
Qed.

Lemma word_sum_app d e :
  Nat.even (length d) = true -> word_sum (d ++ e) = word_sum d + word_sum e.
Proof.
  induction d as [| a | a b d IH] using pair_ind; cbn [app length word_sum Nat.even]; [done | done |].
  intros H. rewrite IH by done. lia.
Qed.

Lemma to_be_2 x : u_ty 16 x ->
  exists a b, to_be 2 x = [a; b] /\ byte_ty a /\ byte_ty b /\ from_be [a; b] = x.
Proof.
  intros Hx. pose proof (from_to_be 2 x Hx) as E. pose proof (to_be_bytes 2 x) as Hb.
  unfold to_be in *. cbn [to_le rev app] in *. eexists _, _. split; [reflexivity |].
  rewrite !Forall_cons in Hb. tauto.
Qed.

Lemma to_be_4 x : u_ty 32 x ->
  exists a b c d, to_be 4 x = [a; b; c; d] /\ Forall byte_ty [a; b; c; d] /\ from_be [a; b; c; d] = x.
Proof.
  intros Hx. pose proof (from_to_be 4 x Hx) as E. pose proof (to_be_bytes 4 x) as Hb.
  unfold to_be in *. cbn [to_le rev app] in *. by eexists _, _, _, _.
Qed.

Lemma ones_bounds s : 0 <= s -> 0 <= ones s <= 65535.
Proof.
  intros H. unfold ones. destruct (Z.eqb_spec s 0); [lia |].
  pose proof (Z.mod_pos_bound (s - 1) 65535). lia.
Qed.

(** Adding the complement of a non-zero sum gives the sum with all bits set. *)
Lemma ones_complement s : 0 < s -> ones (s + (65535 - ones s)) = 65535.
Proof.
  intros H. unfold ones at 2. destruct (Z.eqb_spec s 0); [lia |].
  pose proof (Z.div_mod (s - 1) 65535). pose proof (Z.mod_pos_bound (s - 1) 65535).
  unfold ones. set (t := s + _). assert (t = ((s - 1) / 65535 + 1) * 65535) as -> by (unfold t; lia).
  assert (0 <= (s - 1) / 65535) by (apply Z.div_pos; lia).
  destruct (Z.eqb_spec (((s - 1) / 65535 + 1) * 65535) 0); [lia |].
  replace (((s - 1) / 65535 + 1) * 65535 - 1) with (65534 + (s - 1) / 65535 * 65535) by lia.
  rewrite Z.mod_add by lia. by rewrite Z.mod_small by lia.
Qed.

(** [set_checksum] fills the checksum field so that the header verifies. *)
Lemma set_checksum_spec pre post :
  length pre = 10%nat -> Forall byte_ty (pre ++ post) -> len (pre ++ post) <= 65000 ->
  0 < word_sum (pre ++ [0; 0] ++ post) ->
  exists c, u_ty 16 c /\ set_checksum (pre ++ [0; 0] ++ post) = Ret (pre ++ to_be 2 c ++ post) /\
    verify_checksum (pre ++ to_be 2 c ++ post) = Ret true.
Proof.
  intros Hpre Hb Hl Hpos. rewrite len_app in Hl. rewrite Forall_app in Hb. destruct Hb as [Hb1 Hb2].
  assert (Nat.even (length pre) = true) as Hev by (by rewrite Hpre).
  assert (0 <= len pre /\ 0 <= len post) as [? ?] by (unfold len; lia).
  set (s := word_sum (pre ++ [0; 0] ++ post)) in *. set (c := 65535 - ones s).
  pose proof (ones_bounds s ltac:(lia)). assert (u_ty 16 c) as Hc by (unfold c, u_ty; lia).
  destruct (to_be_2 c Hc) as (hi & lo & Ebe & Hhi & Hlo & Efrom).
  exists c. split; [done |]. rewrite Ebe. split.
  - unfold set_checksum. rewrite checksum_spec; [| | rewrite !len_app; unfold len at 2; cbn; lia].
    2: { rewrite !Forall_app. split_and!; try done. by rewrite !Forall_cons. }
    fold s. rewrite outcome_bind_ret. fold c.
    assert (wrap 8 (Z.shiftr c 8) = hi /\ wrap 8 c = lo) as [-> ->].
    { unfold from_be in Efrom. cbn in Efrom. unfold byte_ty, u_ty in *. unfold wrap.
      rewrite Z.shiftr_div_pow2 by lia. change (2 ^ 8) with 256. rewrite <- Efrom.
      replace (lo + 256 * (hi + 256 * 0)) with (lo + hi * 256) by lia.
      rewrite Z.div_add, Z.mod_add, (Z.div_small lo), !Z.mod_small by lia. lia. }
    rewrite wr_in by (rewrite !length_app, Hpre; cbn; lia). rewrite outcome_bind_ret.
    rewrite wr_in by (rewrite length_insert, !length_app, Hpre; cbn; lia).
    f_equal. rewrite insert_app_r_alt by lia. rewrite Hpre. cbn [Nat.sub app].
    rewrite insert_app_r_alt by lia. rewrite Hpre. done.
  - unfold verify_checksum. rewrite checksum_spec; [| | rewrite !len_app; unfold len at 2; cbn; lia].
    2: { rewrite !Forall_app. split_and!; try done. by rewrite !Forall_cons. }
    rewrite outcome_bind_ret. rewrite !word_sum_app by done.
    change (word_sum [hi; lo]) with (from_be [hi; lo] + 0). rewrite Efrom.
    unfold s in *. rewrite !word_sum_app in * by done. change (word_sum [0; 0]) with 0 in *.
    unfold c. rewrite !word_sum_app by done. change (word_sum [0; 0]) with 0.
    set (t := word_sum pre + (0 + word_sum post)) in *.
    replace (word_sum pre + (65535 - ones t + 0 + word_sum post)) with (t + (65535 - ones t))
      by (unfold t; lia).
    by rewrite ones_complement by lia.
Qed.

(** A built packet parses back to its fields and its payload. *)
Lemma parse_built total id flags tl proto src dst payload :
  fields_ty total id flags tl proto src dst -> total = 20 + len payload ->
  exists hdr c, set_checksum (header_bytes total id flags tl proto src dst) = Ret hdr /\
    parse_ipv4_header (hdr ++ payload) =
      Ret (Some (mk_header 0x45 0 total id flags tl proto c src dst, payload)).
Proof.
  intros (Ht & Hid & Hf & Htl & Hpr & Hs & Hd) Etot. unfold header_bytes.
  destruct (to_be_2 total Ht) as (t1 & t2 & -> & Ht1 & Ht2 & Et).
  destruct (to_be_2 id Hid) as (i1 & i2 & -> & Hi1 & Hi2 & Ei).
  destruct (to_be_2 flags Hf) as (f1 & f2 & -> & Hf1 & Hf2 & Ef).
  destruct (to_be_4 src Hs) as (s1 & s2 & s3 & s4 & -> & Hs4 & Es).
  destruct (to_be_4 dst Hd) as (d1 & d2 & d3 & d4 & -> & Hd4 & Ed).
  change (to_be 2 0) with [0; 0].
  destruct (set_checksum_spec [0x45; 0; t1; t2; i1; i2; f1; f2; tl; proto]
    [s1; s2; s3; s4; d1; d2; d3; d4]) as (c & Hc & Eset & Ever).
  - done.
  - rewrite Forall_app. rewrite !Forall_cons in *. unfold byte_ty, u_ty in *. split_and!; (done || lia || tauto).
  - vm_compute. done.
  - cbn [app word_sum]. rewrite !Forall_cons in *.
    assert (from_be [69; 0] = 17664) as -> by done.
    repeat match goal with |- context [from_be [?a; ?b]] =>
      assert (0 <= from_be [a; b] < 65536) by (apply word_bounds; (done || tauto || by vm_compute));
      generalize dependent (from_be [a; b]); intros end. lia.
  - destruct (to_be_2 c Hc) as (c1 & c2 & E2 & _ & _ & Ec). rewrite E2 in *.
    eexists _, c. split; [exact Eset |].
    unfold parse_ipv4_header. cbn [app from_bytes]. cbn [version_ihl].
    change (negb (Z.shiftr 69 4 =? 4)) with false. cbn iota.
    change (header_length _ <? IPV4_MIN_SIZE) with false. cbn iota.
    rewrite Et, Ei, Ef, Es, Ed, Ec. set (h := mk_header _ _ _ _ _ _ _ _ _ _).
    set (d := 69 :: _). assert (length d = 20 + length payload)%nat as Hld by done.
    assert (len d = total) as Hlen by (unfold len in *; lia).
    change (header_length h) with 20. unfold u_ty in Ht.
    assert (validate h d = true) as ->.
    { unfold validate. change (header_length h) with 20. change (h_total_length h) with total.
      change (version h) with 4. cbn. rewrite Hlen.
      destruct (Z.ltb_spec total 20); [unfold len in *; lia |].
      by rewrite Z.ltb_irrefl. }
    cbn [negb]. rewrite (slice_in d 0 (Z.to_nat 20)) by (rewrite Hld; unfold len in Etot; lia). rewrite outcome_bind_ret.
    change (take (Z.to_nat 20 - 0) (drop 0 d)) with
      ([0x45; 0; t1; t2; i1; i2; f1; f2; tl; proto] ++ [c1; c2] ++ [s1; s2; s3; s4; d1; d2; d3; d4]).
    rewrite Ever, outcome_bind_ret. cbn [negb]. change (h_total_length h) with total.
    rewrite slice_in by (rewrite Hld; unfold len in Etot; lia). rewrite outcome_bind_ret.
    change (drop (Z.to_nat 20) d) with payload. rewrite take_ge; [done |].
    unfold len in Etot. lia.
Qed.

Lemma flags_fields (more : bool) off :
  u_ty 13 off ->
  let flags := Z.lor (if more then 0x2000 else 0) off in
  u_ty 16 flags /\ has_bits flags 0x2000 = more /\ Z.land flags 0x1FFF = off.
Proof.
  intros Hoff. cbv zeta.
  assert (Z.lor (if more then 0x2000 else 0) off = (if more then 1 else 0) * 2 ^ 13 + off) as E.
  { rewrite <- lor_mul_add by (done || lia). by destruct more. }
  assert (u_ty 16 ((if more then 1 else 0) * 2 ^ 13 + off)) as Hty
    by (unfold u_ty in *; destruct more; lia).
  rewrite E. split_and!; [done | |].
  - change 0x2000 with (2 ^ 13). rewrite has_bits_pow2 by lia.
    rewrite Z.testbit_odd, Z.shiftr_div_pow2, Z.add_comm, Z.div_add, Z.div_small by (unfold u_ty in *; lia).
    by destruct more.
  - change 0x1FFF with (Z.ones 13). rewrite Z.land_ones, Z.add_comm, Z.mod_add by lia.
    by rewrite Z.mod_small by (unfold u_ty in *; lia).
Qed.

Lemma fragment_parses src dst proto id (more : bool) off payload :
  u_ty 32 src -> u_ty 32 dst -> byte_ty proto -> u_ty 16 id -> u_ty 13 off -> len payload <= 65515 ->
  exists packet h, build_ipv4_fragment src dst proto 64 id more off payload = Ret packet /\
    parse_ipv4_header packet = Ret (Some (h, payload)) /\
    h_src_ip h = src /\ h_dst_ip h = dst /\ h_protocol h = proto /\ h_identification h = id /\
    more_fragments h = more /\ fragment_offset h = off.
Proof.
  intros Hs Hd Hp Hid Hoff Hl. destruct (flags_fields more off Hoff) as (Hf & Hm & Ho).
  assert (0 <= len payload) by (unfold len; lia).
  unfold build_ipv4_fragment, IPV4_HDR_SIZE. rewrite wrap_small by (unfold u_ty; lia).
  destruct (parse_built (20 + len payload) id (Z.lor (if more then 0x2000 else 0) off) 64 proto src dst payload)
    as (hdr & c & Eset & Eparse); [| done |].
  - unfold fields_ty. split_and!; try done; unfold byte_ty, u_ty; lia.
  - rewrite Eset, outcome_bind_ret. eexists _, _. split; [reflexivity |]. split; [exact Eparse |].
    by split_and!.
Qed.

Lemma packet_parses src dst proto tl payload :
  u_ty 32 src -> u_ty 32 dst -> byte_ty proto -> byte_ty tl -> len payload <= 65515 ->
  exists packet h, build_ipv4_packet src dst proto tl payload = Ret packet /\
    parse_ipv4_header packet = Ret (Some (h, payload)) /\
    h_src_ip h = src /\ h_dst_ip h = dst /\ h_protocol h = proto /\ ttl h = tl /\
    more_fragments h = false /\ fragment_offset h = 0 /\ dont_fragment h = true.
Proof.
  intros Hs Hd Hp Ht Hl. assert (0 <= len payload) by (unfold len; lia).
  unfold build_ipv4_packet, IPV4_HDR_SIZE. rewrite wrap_small by (unfold u_ty; lia).
  destruct (parse_built (20 + len payload) 0 0x4000 tl proto src dst payload)
    as (hdr & c & Eset & Eparse); [| done |].
  - unfold fields_ty. split_and!; try done; unfold u_ty; lia.
  - rewrite Eset, outcome_bind_ret. eexists _, _. split; [reflexivity |]. split; [exact Eparse |].
    by split_and!.
Qed.

(** ** The packets of one datagram *)

Section Datagram.
Context (src dst proto : Z) (P : list Z) (s n : nat).
Context (Hsrc : u_ty 32 src) (Hdst : u_ty 32 dst) (Hproto : byte_ty proto).
Context (Hcut : cut s n P) (H8 : Z.of_nat s mod 8 = 0) (Hs : Z.of_nat s <= 65515)
  (Hlen : len P <= 65535) (Hn : (1 < n)%nat).

(** The packet of the [i]-th piece. *)
Definition packet_of (i : nat) : list Z :=
  match build_ipv4_fragment src dst proto 64 0 (i <? n - 1)%nat (Z.of_nat (i * s) / 8) (piece s P i) with
  | Ret p => p | _ => [] end.

Lemma offset_units_ty i : (i < n)%nat -> u_ty 13 (Z.of_nat (i * s) / 8).
Proof.
  intros Hi. pose proof (piece_bounds s n P Hcut i Hi). unfold u_ty, len in *.
  split; [apply Z.div_pos; lia | apply Z.div_lt_upper_bound; lia].
Qed.

Lemma packet_of_parses i : (i < n)%nat ->
  build_ipv4_fragment src dst proto 64 0 (i <? n - 1)%nat (Z.of_nat (i * s) / 8) (piece s P i) =
    Ret (packet_of i) /\
  forall w c, receive w c (packet_of i) = deliver s n P (mk_key src dst proto 0) w (i, c).
Proof.
  intros Hi. pose proof (piece_bounds s n P Hcut i Hi) as [Hp _].
  destruct (fragment_parses src dst proto 0 (i <? n - 1)%nat (Z.of_nat (i * s) / 8) (piece s P i))
    as (packet & h & Eb & Ep & E1 & E2 & E3 & E4 & E5 & E6); try done;
    try (by apply offset_units_ty); try (unfold u_ty, len; lia).
  unfold packet_of. rewrite Eb. split; [done |]. intros w c. unfold receive.
  rewrite Ep, outcome_bind_ret, E1, E2, E3, E4, E5, E6. unfold deliver.
  cbn [fst snd k_src_ip k_dst_ip k_protocol k_identification].
  change (u16_from_be 0) with 0.
  destruct (Z.eqb_spec (Z.of_nat (i * s) / 8) 0) as [E |]; [| done]. cbn [negb orb].
  destruct (Nat.ltb_spec i (n - 1)) as [| Hge]; [done |]. exfalso.
  pose proof (Z.div_mod (Z.of_nat (i * s)) 8) as Edm.
  assert (Z.of_nat (i * s) mod 8 = 0) by (rewrite Nat2Z.inj_mul, Z.mul_mod, H8, Z.mul_0_r by lia; done).
  destruct Hcut as (Hs0 & _). assert (i * s <> 0)%nat by nia. lia.
Qed.

Lemma send_loop_spec k i :
  (i + k = n)%nat ->
  send_loop src dst proto n i (if decide (k = 0%nat) then (Z.of_nat ((n - 1) * s) / 8 +[16]
      (len (piece s P (n - 1)) + 7) / 8) else Z.of_nat (i * s) / 8) (piece s P <$> seq i k) =
  Ret (packet_of <$> seq i k).
Proof.
  revert i. induction k as [| k IH]; intros i Hi; [done |].
  rewrite decide_False by done. cbn [seq fmap list_fmap send_loop].
  destruct (Nat.ltb_spec 1 n); [| lia].
  destruct (packet_of_parses i ltac:(lia)) as [-> _]. rewrite outcome_bind_ret.
  pose proof (piece_bounds s n P Hcut i ltac:(lia)) as [Hp Hp2].
  rewrite (wrap_small 16 (len (piece s P i))) by (unfold len, u_ty; lia).
  replace (Z.of_nat (i * s) / 8 +[16] (len (piece s P i) + 7) / 8) with
    (if decide (k = 0%nat) then (Z.of_nat ((n - 1) * s) / 8 +[16]
      (len (piece s P (n - 1)) + 7) / 8) else Z.of_nat (S i * s) / 8).
  - rewrite (IH (S i)) by lia. rewrite outcome_bind_ret. done.
  - destruct (decide (k = 0%nat)); [by replace i with (n - 1)%nat by lia |].
    pose proof (offset_units_ty (S i) ltac:(lia)) as Hty.
    unfold len. rewrite (piece_full s n P Hcut) by lia.
    replace (Z.of_nat (S i * s)) with (Z.of_nat (i * s) + Z.of_nat s) in * by lia.
    pose proof (Z.div_mod (Z.of_nat s) 8) as Edm. rewrite H8 in Edm.
    replace (Z.of_nat s + 7) with (7 + Z.of_nat s / 8 * 8) by lia.
    rewrite Z.div_add, (Z.div_small 7), Z.add_0_l by lia.
    assert ((Z.of_nat (i * s) + Z.of_nat s) / 8 = Z.of_nat (i * s) / 8 + Z.of_nat s / 8) as E.
    { rewrite <- Z.div_add by lia. f_equal. lia. }
    rewrite E in *. symmetry. apply wrap_small. unfold u_ty in *. lia.
Qed.

(** Receiving the packets is delivering the pieces. *)
Lemma receive_all_feed w ds :
  Forall (fun i => i < n)%nat ds.*1 ->
  receive_all w ((fun d => (packet_of d.1, d.2)) <$> ds) = feed s n P (mk_key src dst proto 0) w ds.
Proof.
  revert w. induction ds as [| [i c] ds IH]; intros w Hi; [done |].
  rewrite fmap_cons, Forall_cons in Hi. destruct Hi as [Hi Hds].
  rewrite fmap_cons. cbn [receive_all feed fst snd].
  destruct (packet_of_parses i Hi) as [_ ->].
  destruct (deliver _ _ _ _ _ _) as [[r w'] | |]; [| done | done].
  rewrite !outcome_bind_ret. by rewrite IH.
Qed.

(** Receiving all packets, in any order. *)
Lemma receive_any_order w T ds :
  (n <= MAX_FRAGMENTS_PER_PACKET)%nat ->
  REASSEMBLY_BUFFERS w !! mk_key src dst proto 0 = None ->
  ds.*1 ≡ₚ packet_of <$> seq 0 n -> Forall (in_time T) ds.*2 ->
  exists w', receive_all w ds = Ret (replicate (n - 1) None ++ [Some P], w').
Proof.
  intros Hmax Hfree Hperm Ht. apply Permutation_map_inv in Hperm as (idx & Eidx & Hidx).
  assert (length idx = n) as Hlen_idx by (rewrite <- Hidx; apply length_seq).
  assert (length idx = length ds.*2) as Hli.
  { rewrite length_fmap, <- (length_fmap fst ds), Eidx. symmetry. apply length_map. }
  assert (ds = (fun d => (packet_of d.1, d.2)) <$> zip idx ds.*2) as Eds.
  { rewrite <- (zip_fst_snd ds) at 1. rewrite Eidx. clear -Hli.
    revert Hli. generalize ds.*2. induction idx as [| i idx IH]; intros [| c cs] Hl; try done.
    cbn. f_equal. apply IH. cbn in Hl. lia. }
  assert ((zip idx ds.*2).*1 = idx) as Efst by (apply fst_zip; lia).
  assert ((zip idx ds.*2).*2 = ds.*2) as Esnd by (apply snd_zip; lia).
  assert (length (zip idx ds.*2) = n) as Hzl by (by rewrite <- (length_fmap fst), Efst).
  assert (Forall (fun i => i < n)%nat idx) as Hall.
  { rewrite <- Hidx. apply Forall_forall. intros i Hi%elem_of_seq. lia. }
  rewrite Eds, receive_all_feed by (by rewrite Efst).
  replace (n - 1)%nat with (length (zip idx ds.*2) - 1)%nat by lia.
  eapply (feed_result s n P T (mk_key src dst proto 0) Hcut H8 Hmax w [] (zip idx ds.*2)).
  - unfold ready. by rewrite Hfree.
  - by rewrite Esnd.
  - rewrite Efst, app_nil_r, <- Hidx. apply NoDup_seq.
  - by rewrite Efst.
  - rewrite Hzl. cbn. lia.
  - intros Ez. rewrite Ez in Hzl. cbn in Hzl. lia.
Qed.

End Datagram.

Lemma fragment_1486 fuel payload w :
  1466 < len payload -> (length payload < fuel)%nat ->
  let n := ((length payload + 1464 - 1) / 1464)%nat in
  cut 1464 n payload /\ (1 < n)%nat /\
  exists w', fragment_packet fuel payload 1486 w = Ret (pieces 1464 payload n, w').
Proof.
  intros Hl Hf. cbv zeta.
  pose proof (cut_exists 1464 payload ltac:(lia) ltac:(unfold len in *; lia)) as Hc.
  set (n := ((length payload + 1464 - 1) / 1464)%nat) in *.
  assert (1 < n)%nat as Hn by (destruct Hc as (_ & _ & Hc); unfold len in *; lia).
  split_and!; [done | done |]. unfold fragment_packet.
  change (1486 -[64] 20) with 1466. destruct (Z.leb_spec (len payload) 1466); [lia |].
  pose proof (fragment_loop_spec 1464 n payload Hc n 0 fuel [] (FRAGMENT_STATS w) eq_refl) as E.
  rewrite decide_False in E by lia. change (Z.of_nat (0 * 1464)) with 0 in E.
  change (1466 / 8 * 8) with (Z.of_nat 1464).
  rewrite E by (destruct Hc as (_ & _ & Hc); lia). rewrite outcome_bind_ret. by eexists.
Qed.

Lemma validate_true h d : validate h d = true ->
  version h = 4 /\ 20 <= header_length h <= h_total_length h /\ header_length h <= 60 /\
  h_total_length h <= len d.
Proof.
  unfold validate, IPV4_MIN_SIZE, IPV4_MAX_HDR_SIZE.
  destruct (Z.leb_spec 20 (header_length h)), (Z.leb_spec (header_length h) 60); try done. cbn [andb negb].
  destruct (Z.ltb_spec (len d) (header_length h)); [done |].
  destruct (Z.eqb_spec (version h) 4); [| done]. cbn [negb].
  destruct (Z.ltb_spec (h_total_length h) (header_length h)), (Z.ltb_spec (len d) (h_total_length h)); try done.
Qed.

Lemma ones_full s : 0 <= s -> 65535 - ones s = 0 -> s mod 65535 = 0.
Proof.
  intros Hs. unfold ones. destruct (Z.eqb_spec s 0); [lia |]. intros E.
  pose proof (Z.div_mod (s - 1) 65535). assert (s = ((s - 1) / 65535 + 1) * 65535) as -> by lia.
  by apply Z.mod_mul.
Qed.

Lemma ones_inj s t : 0 < s -> 0 < t -> 65535 - ones s = 65535 - ones t -> (s - t) mod 65535 = 0.
Proof.
  intros Hs Ht. unfold ones. destruct (Z.eqb_spec s 0), (Z.eqb_spec t 0); try lia. intros E.
  replace (s - t) with (s - 1 - (t - 1)) by lia. rewrite Zminus_mod.
  replace ((s - 1) mod 65535) with ((t - 1) mod 65535) by lia. by rewrite Z.sub_diag.
Qed.

(** ** Properties *)



(** Parsing any sequence of bytes returns: it never reads out of range. A header it
    accepts has version 4, a verifying checksum and consistent lengths, and the payload
    is exactly the bytes between the header and the total length. *)
Theorem parse_total (d : list Z) (Hd : Forall byte_ty d) :
  exists r, parse_ipv4_header d = Ret r /\
    forall h payload, r = Some (h, payload) ->
      from_bytes d = Some h /\ version h = 4 /\
      20 <= header_length h <= h_total_length h /\ h_total_length h <= len d /\
      verify_checksum (take (Z.to_nat (header_length h)) d) = Ret true /\
      payload = take (Z.to_nat (payload_length h)) (drop (Z.to_nat (header_length h)) d).
Proof.
  unfold parse_ipv4_header. destruct (from_bytes d) as [h |]; [| by exists None].
  destruct (validate h d) eqn:Hv; cbn [negb]; [| by exists None].
  apply validate_true in Hv as (Hv & H1 & H2 & H3).
  rewrite (slice_in d 0) by (unfold len in *; lia). rewrite outcome_bind_ret, drop_0, Nat.sub_0_r.
  unfold verify_checksum. rewrite checksum_spec.
  2: { by apply Forall_take. }
  2: { unfold len. rewrite length_take. lia. }
  rewrite !outcome_bind_ret. destruct (_ =? 0) eqn:Hc; cbn [negb]; [| by exists None].
  rewrite slice_in by (unfold len in *; lia). rewrite outcome_bind_ret. eexists. split; [reflexivity |].
  intros h' payload [= <- <-]. split_and!; try done; [lia | lia | |].
  - rewrite checksum_spec, outcome_bind_ret, Hc; [done | by apply Forall_take |].
    unfold len. rewrite length_take. lia.
  - f_equal. unfold payload_length, sat_sub. lia.
Qed.

Lemma parse_total_witness : exists r, parse_ipv4_header [0x45; 0; 0; 20] = Ret r.
Proof.
  destruct (parse_total [0x45; 0; 0; 20]) as (r & H & _);
    [rewrite !Forall_cons; unfold byte_ty, u_ty; split_and!; (lia || done) | by exists r].
Defined.

(** Changing one 16-bit word of a header that verifies makes it fail to verify,
    except for an exchange of 0x0000 and 0xFFFF, which one's-complement sums cannot tell
    apart. *)
Theorem checksum_detects (pre post : list Z) (a b a' b' : Z)
    (Hpre : Forall byte_ty pre) (Hpost : Forall byte_ty post)
    (Hold : Forall byte_ty [a; b]) (Hnew : Forall byte_ty [a'; b'])
    (Heven : Nat.even (length pre) = true) (Hlen : len pre + len post <= 60)
    (Hok : verify_checksum (pre ++ [a; b] ++ post) = Ret true)
    (Hdiff : (from_be [a; b] - from_be [a'; b']) mod 65535 <> 0) :
  verify_checksum (pre ++ [a'; b'] ++ post) = Ret false.
Proof.
  assert (0 <= len pre /\ 0 <= len post) as [? ?] by (unfold len; lia).
  assert (forall x y, Forall byte_ty [x; y] ->
    verify_checksum (pre ++ [x; y] ++ post) =
    Ret (65535 - ones (word_sum pre + (from_be [x; y] + word_sum post)) =? 0)) as Hv.
  { intros x y Hxy. unfold verify_checksum. rewrite checksum_spec.
    - rewrite outcome_bind_ret, word_sum_app by done. do 5 f_equal.
    - by rewrite !Forall_app.
    - rewrite !len_app. unfold len at 2. cbn [length]. lia. }
  rewrite Hv in Hok |- * by done. injection Hok as Hok%Z.eqb_eq. f_equal. apply Z.eqb_neq. intros Hz.
  pose proof (word_sum_bounds pre Hpre). pose proof (word_sum_bounds post Hpost).
  rewrite !Forall_cons in Hold, Hnew. destruct Hold as (Ha & Hb & _), Hnew as (Ha' & Hb' & _).
  pose proof (word_bounds a b Ha Hb). pose proof (word_bounds a' b' Ha' Hb').
  apply ones_full in Hok; [| lia]. apply ones_full in Hz; [| lia].
  apply Hdiff. replace (from_be [a; b] - from_be [a'; b']) with
    (word_sum pre + (from_be [a; b] + word_sum post)
     - (word_sum pre + (from_be [a'; b'] + word_sum post))) by lia.
  by rewrite Zminus_mod, Hok, Hz.
Qed.

Lemma checksum_detects_witness :
  verify_checksum ([0x45; 0; 0; 20] ++ [0; 2] ++ [0xBA; 0xEA]) = Ret false.
Proof.
  apply (checksum_detects [0x45; 0; 0; 20] [0xBA; 0xEA] 0 1 0 2);
    try (rewrite !Forall_cons; unfold byte_ty, u_ty; split_and!; (lia || done));
    vm_compute; done.
Defined.

(** An odd last byte is added to the sum as a low byte, where the internet checksum
    (RFC 1071) pads it with a zero byte on the right: for every odd-length input whose last
    byte is not zero the two disagree. *)
Theorem odd_byte_checksum (d : list Z) (x : Z) (Hd : Forall byte_ty d) (Hx : 0 < x < 256)
    (Heven : Nat.even (length d) = true) (Hlen : len d <= 60000) :
  calculate_checksum (d ++ [x]) <> calculate_checksum (d ++ [x; 0]).
Proof.
  assert (byte_ty x) as Hxb by (unfold byte_ty, u_ty; lia).
  rewrite !checksum_spec; try (rewrite Forall_app, !Forall_cons; split_and!; done);
    try (rewrite len_app; unfold len at 2; cbn [length]; lia).
  rewrite !word_sum_app by done. cbn [word_sum]. unfold from_be. cbn [rev app from_le].
  pose proof (word_sum_bounds d Hd). intros [= E]. apply ones_inj in E; [| lia | lia].
  apply Z.mod_divide in E as [k Hk]; [| lia]. lia.
Qed.

Lemma odd_byte_checksum_witness :
  calculate_checksum ([1; 2] ++ [3]) <> calculate_checksum ([1; 2] ++ [3; 0]).
Proof.
  apply odd_byte_checksum; [rewrite !Forall_cons; unfold byte_ty, u_ty; split_and!; (lia || done)
    | lia | done | vm_compute; done].
Defined.

End Ipv4.
