(* ===== verification/Routing.v ===== *)
(** * The IPv4 routing table

    Models [netstack/routing.rs]: the table kept sorted by prefix length and metric. *)

From S2P Require Import Prelude.

Module Routing.

Inductive RouteType : Type := Direct | Static | Dynamic | Redirect | Default.

#[export] Instance RouteType_eq_dec : EqDecision RouteType.
Proof. solve_decision. Defined.

Record RouteEntry : Type := mk {
  destination : Z; netmask : Z; gateway : Z; interface : Z; metric : Z; route_type : RouteType }.

Definition matches (r : RouteEntry) (dst_ip : Z) : bool :=
  Z.land dst_ip (netmask r) =? Z.land (destination r) (netmask r).

(** [u32::count_ones] *)
Definition count_ones (x : Z) : Z :=
  msum (fun i => if Z.testbit x (Z.of_nat i) then 1 else 0) (seq 0 32).

Definition prefix_len (r : RouteEntry) : Z := count_ones (netmask r).

Definition init (table : list RouteEntry) : list RouteEntry := [].

(** The comparison of [add_route]'s sort is not [Greater]. *)
Definition route_le (a b : RouteEntry) : bool :=
  if prefix_len b =? prefix_len a then metric a <=? metric b else prefix_len b <? prefix_len a.

Definition same_key (destination_ netmask_ : Z) (r : RouteEntry) : bool :=
  (destination r =? destination_) && (netmask r =? netmask_).

Definition add_route (table : list RouteEntry) (destination netmask gateway interface metric : Z)
    (ty : RouteType) : list RouteEntry :=
  let table := List.filter (fun r => negb (same_key destination netmask r)) table in
  let entry := mk destination netmask gateway interface metric ty in
  sort_by route_le (table ++ [entry]).

Definition remove_route (table : list RouteEntry) (destination netmask : Z) : bool * list RouteEntry :=
  let table' := List.filter (fun r => negb (same_key destination netmask r)) table in
  (negb (Nat.eqb (length table') (length table)), table').

Definition find_route (table : list RouteEntry) (dst_ip : Z) : option RouteEntry :=
  List.find (fun r => matches r dst_ip) table.

Definition get_all_routes (table : list RouteEntry) : list RouteEntry := table.

Definition set_default_gateway (table : list RouteEntry) (gateway interface metric : Z) :
    list RouteEntry :=
  add_route table 0 0 gateway interface metric Default.

Definition get_default_gateway (table : list RouteEntry) : option Z :=
  gateway <$> List.find (same_key 0 0) table.

Definition add_direct_route (table : list RouteEntry) (network netmask interface : Z) : list RouteEntry :=
  add_route table network netmask 0 interface 0 Direct.

Definition flush_dynamic_routes (table : list RouteEntry) : list RouteEntry :=
  List.filter (fun r => negb (bool_decide (route_type r = Dynamic))) table.

Definition get_route_count (table : list RouteEntry) : nat := length table.

Definition clear_routing_table (table : list RouteEntry) : list RouteEntry := [].

(** ** Specification *)

Inductive op : Type :=
| OAdd (destination netmask gateway interface metric : Z) (ty : RouteType)
| ORemove (destination netmask : Z)
| ODefault (gateway interface metric : Z)
| ODirect (network netmask interface : Z)
| OFlush
| OClear.

Definition exec (t : list RouteEntry) (o : op) : list RouteEntry :=
  match o with
  | OAdd d n g i m ty => add_route t d n g i m ty
  | ORemove d n => (remove_route t d n).2
  | ODefault g i m => set_default_gateway t g i m
  | ODirect d n i => add_direct_route t d n i
  | OFlush => flush_dynamic_routes t
  | OClear => clear_routing_table t
  end.

Definition run (ops : list op) : list RouteEntry := fold_left exec ops [].

Definition route_key (r : RouteEntry) : Z * Z := (destination r, netmask r).

Definition table_ok (t : list RouteEntry) : Prop :=
  StronglySorted (fun a b => route_le a b = true) t /\ NoDup (route_key <$> t).

Definition sample_ops : list op :=
  [ODefault 0x0A000001 1 10; ODirect 0x0A000000 0xFF000000 1;
   OAdd 0x0A010000 0xFFFF0000 0x0A0000FE 1 5 Static; OAdd 0x0A010000 0xFFFF0000 0x0A0000FD 1 3 Dynamic].

(** ** Lemmas *)

Lemma route_le_total a b : route_le a b = false -> route_le b a = true.
Proof.
  unfold route_le. destruct (Z.eqb_spec (prefix_len b) (prefix_len a)),
    (Z.eqb_spec (prefix_len a) (prefix_len b)); lia.
Qed.

Lemma route_le_trans a b c : route_le a b = true -> route_le b c = true -> route_le a c = true.
Proof.
  unfold route_le. destruct (Z.eqb_spec (prefix_len b) (prefix_len a)),
    (Z.eqb_spec (prefix_len c) (prefix_len b)), (Z.eqb_spec (prefix_len c) (prefix_len a)); lia.
Qed.

Lemma route_le_refl a : route_le a a = true.
Proof. unfold route_le. rewrite Z.eqb_refl. lia. Qed.

Lemma same_key_spec d n r : same_key d n r = true <-> route_key r = (d, n).
Proof.
  unfold same_key, route_key. rewrite andb_true_iff, !Z.eqb_eq. split; [by intros [-> ->] | by intros [= -> ->]].
Qed.

Lemma filter_sorted {A} (R : A -> A -> Prop) f l :
  StronglySorted R l -> StronglySorted R (List.filter f l).
Proof.
  induction 1 as [| x l Hs IH Hall]; cbn; [constructor |]. destruct (f x); [| done].
  constructor; [done |]. rewrite Forall_forall in Hall |- *. intros y [Hy _]%filter_elem. by apply Hall.
Qed.

Lemma filter_ok f t : table_ok t -> table_ok (List.filter f t).
Proof.
  intros [Hs Hn]. split; [by apply filter_sorted |].
  eapply sublist_NoDup; [exact Hn | apply fmap_sublist, filter_sublist].
Qed.

Lemma add_elem t d n g i m ty r :
  r ∈ add_route t d n g i m ty <->
  r = mk d n g i m ty \/ (r ∈ t /\ route_key r <> (d, n)).
Proof.
  unfold add_route. rewrite sort_by_perm, elem_of_app, list_elem_of_singleton, filter_elem.
  rewrite negb_true_iff. destruct (same_key d n r) eqn:E.
  - apply same_key_spec in E. naive_solver.
  - assert (route_key r <> (d, n)) by (intros H%same_key_spec; congruence). naive_solver.
Qed.

Lemma route_add_ok t d n g i m ty : table_ok t -> table_ok (add_route t d n g i m ty).
Proof.
  intros Ht. split.
  - apply sort_by_sorted; [apply route_le_total | apply route_le_trans].
  - unfold add_route. rewrite sort_by_perm, fmap_app. apply NoDup_app. split_and!.
    + by apply filter_ok.
    + intros k (r & -> & [_ Hr%negb_true_iff]%filter_elem)%list_elem_of_fmap Hk%list_elem_of_singleton.
      assert (same_key d n r = true) by (by apply same_key_spec). congruence.
    + apply NoDup_singleton.
Qed.

Lemma route_run_ok ops : table_ok (run ops).
Proof.
  unfold run. induction ops as [| o ops IH] using rev_ind; [by split; constructor |].
  rewrite fold_left_app. cbn [fold_left]. destruct o; cbn [exec remove_route snd];
    try by apply route_add_ok. all: try by apply filter_ok. by split; constructor.
Qed.

(** A list with distinct keys has at most one entry per key. *)
Lemma find_unique t r :
  NoDup (route_key <$> t) -> r ∈ t -> List.find (same_key (destination r) (netmask r)) t = Some r.
Proof.
  intros Hn Hr. destruct (List.find _ t) as [r' |] eqn:E.
  - apply find_Some_elem in E as [Hr' Hk%same_key_spec]. f_equal.
    apply list_elem_of_lookup in Hr as [i Hi]. apply list_elem_of_lookup in Hr' as [j Hj].
    assert (j = i) as ->; [| congruence].
    eapply NoDup_lookup; [exact Hn | |]; rewrite list_lookup_fmap; [rewrite Hj | rewrite Hi];
      cbn; [by rewrite Hk | done].
  - apply (find_None_elem _ _ r) in E; [| done].
    assert (same_key (destination r) (netmask r) r = true) by (by apply same_key_spec). congruence.
Qed.

(** ** Properties *)

(** C32: route lookup is longest-prefix match: after any sequence of table operations the
    route found matches the address, no matching route has a longer prefix, and none
    with the same prefix length has a smaller metric; when none is found, none matches. *)
Theorem find_route_longest_prefix (ops : list op) (dst_ip : Z) :
  match find_route (run ops) dst_ip with
  | Some r => r ∈ run ops /\ matches r dst_ip = true /\
      forall r', r' ∈ run ops -> matches r' dst_ip = true ->
        prefix_len r' < prefix_len r \/ (prefix_len r' = prefix_len r /\ metric r <= metric r')
  | None => forall r', r' ∈ run ops -> matches r' dst_ip = false
  end.
Proof.
  unfold find_route. destruct (List.find _ (run ops)) as [r |] eqn:E.
  - pose proof (find_Some_elem _ _ _ E) as [Hr Hm]. split_and!; [done | done |].
    intros r' Hr' Hm'. pose proof (find_sorted route_le _ _ r route_le_refl (proj1 (route_run_ok ops)) E r' Hr' Hm') as H.
    unfold route_le in H. destruct (Z.eqb_spec (prefix_len r') (prefix_len r)); lia.
  - intros r' Hr'. by apply (find_None_elem _ _ r' E).
Qed.

(** Adding a route replaces the route of the same destination and mask and keeps all
    others, the table never holds two routes for one destination and mask, removing
    reports whether there was one, and the default gateway reads back. *)
Theorem route_update (ops : list op) (d n g i m : Z) (ty : RouteType) :
  (forall r, r ∈ add_route (run ops) d n g i m ty <->
     r = mk d n g i m ty \/ (r ∈ run ops /\ route_key r <> (d, n))) /\
  NoDup (route_key <$> add_route (run ops) d n g i m ty) /\
  ((remove_route (run ops) d n).1 = true <-> exists r, r ∈ run ops /\ route_key r = (d, n)) /\
  (forall r, r ∈ (remove_route (run ops) d n).2 <-> r ∈ run ops /\ route_key r <> (d, n)) /\
  get_default_gateway (set_default_gateway (run ops) g i m) = Some g.
Proof.
  pose proof (route_run_ok ops) as Hok. split_and!.
  - intros r. apply add_elem.
  - by apply route_add_ok.
  - unfold remove_route. cbn [fst]. rewrite negb_true_iff, Nat.eqb_neq. split.
    + intros Hne. destruct (existsb (same_key d n) (run ops)) eqn:E.
      * apply existsb_exists in E as (r & Hr & Hk%same_key_spec). exists r. by rewrite list_elem_of_In.
      * destruct Hne. f_equal. apply filter_all. intros r Hr.
        destruct (same_key d n r) eqn:Ek; [| done].
        assert (existsb (same_key d n) (run ops) = true); [| congruence].
        apply existsb_exists. exists r. by rewrite <- list_elem_of_In.
    + intros (r & Hr & Hk) E. apply filter_length_all in E. rewrite Forall_forall in E.
      specialize (E r Hr). apply same_key_spec in Hk. by rewrite Hk in E.
  - intros r. unfold remove_route. cbn [snd]. rewrite filter_elem, negb_true_iff.
    destruct (same_key d n r) eqn:E.
    + apply same_key_spec in E. naive_solver.
    + assert (route_key r <> (d, n)) by (intros H%same_key_spec; congruence). naive_solver.
  - unfold get_default_gateway. pose proof (find_unique (set_default_gateway (run ops) g i m)
      (mk 0 0 g i m Default)) as E. cbn [destination netmask] in E. rewrite E; [done | |].
    + apply route_add_ok, Hok.
    + apply add_elem. by left.
Qed.

End Routing.
