(* ===== verification/SysPte.v ===== *)
(** * The system PTE pool

    Models [mm/syspte.rs] for x86-64: the region bitmap, the first-fit reservation with its
    roll-back, the release, and the I/O-space wrappers. Page-table updates are effects on
    another component: [unmap_page] calls are recorded in order, and the answers of
    [map_page] are an argument. The bitmap is accessed under [SYSTEM_PTE_LOCK]. *)

From S2P Require Import Prelude.

Module SysPte.

Definition SYSTEM_PTE_BASE : Z := 0xFFFFF90000000000.
Definition SYSTEM_PTE_END : Z := 0xFFFFF9A000000000.
Definition SYSTEM_PTE_BYTES : Z := SYSTEM_PTE_END - SYSTEM_PTE_BASE.
Definition SYSTEM_PTE_REGION_BYTES : Z := 64 * 1024.
Definition SYSTEM_PTE_REGION_PAGES : Z := SYSTEM_PTE_REGION_BYTES / 4096.
Definition SYSTEM_PTE_REGION_COUNT : Z := SYSTEM_PTE_BYTES / SYSTEM_PTE_REGION_BYTES.

(** [SYSTEM_PTE_BITMAP : [AtomicU64; 4096]] *)
Definition SYSTEM_PTE_BITMAP : list Z := replicate 4096 0.

Definition div_ceil (x y : Z) : Z := x / y + (if x mod y =? 0 then 0 else 1).

Definition word_of (bit : Z) : nat := Z.to_nat (bit / 64).
Definition mask_of (bit : Z) : Z := Z.shiftl 1 (bit mod 64).

(** [fetch_or(mask)] and [fetch_and(!mask)] on the word of a bit. *)
Definition fetch_or (bitmap : list Z) (bit : Z) : outcome (Z * list Z) :=
  prev ← rd bitmap (word_of bit);
  bitmap ← wr bitmap (word_of bit) (Z.lor prev (mask_of bit));
  Ret (prev, bitmap).

Definition fetch_and_not (bitmap : list Z) (bit : Z) : outcome (list Z) :=
  prev ← rd bitmap (word_of bit);
  wr bitmap (word_of bit) (Z.land prev (wnot 64 (mask_of bit))).

(** [for bit in bit..bit + n] clearing each bit. *)
Fixpoint clear_loop (n : nat) (bitmap : list Z) (bit : Z) : outcome (list Z) :=
  match n with
  | O => Ret bitmap
  | S n => bitmap ← fetch_and_not bitmap bit; clear_loop n bitmap (bit + 1)
  end.

(** The search for a run of [regions] free bits, [n] bits left to look at. *)
Fixpoint scan (n : nat) (bitmap : list Z) (regions bit run_start run_len : Z) : outcome (option Z) :=
  match n with
  | O => Ret None
  | S n =>
      word ← rd bitmap (word_of bit);
      if Z.land word (mask_of bit) =? 0 then
        let run_start := if run_len =? 0 then bit else run_start in
        let run_len := run_len + 1 in
        if run_len =? regions then Ret (Some run_start)
        else scan n bitmap regions (bit + 1) run_start run_len
      else scan n bitmap regions (bit + 1) 0 0
  end.

(** Setting the bits of the run; a bit found set is rolled back. *)
Fixpoint claim_loop (n : nat) (bitmap : list Z) (run_start bit : Z) : outcome (bool * list Z) :=
  match n with
  | O => Ret (true, bitmap)
  | S n =>
      '(prev, bitmap) ← fetch_or bitmap bit;
      if negb (Z.land prev (mask_of bit) =? 0) then
        bitmap ← clear_loop (Z.to_nat (bit - run_start)) bitmap run_start;
        Ret (false, bitmap)
      else claim_loop n bitmap run_start (bit + 1)
  end.

Definition reserve_system_ptes (bitmap : list Z) (count : Z) : outcome (option Z * list Z) :=
  if count =? 0 then Ret (None, bitmap)
  else
    let regions := div_ceil count SYSTEM_PTE_REGION_PAGES in
    if 512 <? regions then Ret (None, bitmap)
    else
      found ← scan (Z.to_nat SYSTEM_PTE_REGION_COUNT) bitmap regions 0 0 0;
      match found with
      | None => Ret (None, bitmap)
      | Some run_start =>
          '(ok, bitmap) ← claim_loop (Z.to_nat regions) bitmap run_start run_start;
          if (ok : bool) then
            Ret (Some (SYSTEM_PTE_BASE +[64] run_start *[64] SYSTEM_PTE_REGION_BYTES), bitmap)
          else Ret (None, bitmap)
      end.

(** The pages [va + i * 4096] for [i in 0..count]. *)
Definition page_range (va count : Z) : list Z :=
  (fun i => va +[64] (Z.of_nat i *[64] 4096)) <$> seq 0 (Z.to_nat count).

(** Returns the bitmap and the pages unmapped, in order. *)
Definition release_system_ptes (bitmap : list Z) (va count : Z) : outcome (list Z * list Z) :=
  if negb ((SYSTEM_PTE_BASE <=? va) && (va <? SYSTEM_PTE_END)) then Ret (bitmap, [])
  else
    let start_region := (va - SYSTEM_PTE_BASE) / SYSTEM_PTE_REGION_BYTES in
    let regions := div_ceil count SYSTEM_PTE_REGION_PAGES in
    bitmap ← clear_loop (Z.to_nat regions) bitmap start_region;
    Ret (bitmap, page_range va count).

(** Calls on the page tables. *)
Inductive event : Type := Map (va pa flags : Z) | Unmap (va : Z).

(** The mapping loop of [map_io_space], [n] pages left; [map_ok i] is the answer of the
    [i]-th [map_page] call. *)
Fixpoint map_loop (n : nat) (bitmap : list Z) (map_ok : Z -> bool) (va pa count i : Z)
    : outcome (option Z * list Z * list event) :=
  match n with
  | O => Ret (Some va, bitmap, [])
  | S n =>
      let call := Map (va +[64] (i *[64] 4096)) (pa +[64] (i *[64] 4096)) 3 in
      if negb (map_ok i) then
        let rollback := Unmap <$> page_range va i in
        '(bitmap, unmapped) ← release_system_ptes bitmap va count;
        Ret (None, bitmap, call :: rollback ++ (Unmap <$> unmapped))
      else
        '(r, bitmap, evs) ← map_loop n bitmap map_ok va pa count (i + 1);
        Ret (r, bitmap, call :: evs)
  end.

Definition map_io_space (bitmap : list Z) (map_ok : Z -> bool) (pa count : Z)
    : outcome (option Z * list Z * list event) :=
  if count =? 0 then Ret (None, bitmap, [])
  else
    '(r, bitmap) ← reserve_system_ptes bitmap count;
    match r with
    | None => Ret (None, bitmap, [])
    | Some va => map_loop (Z.to_nat count) bitmap map_ok va pa count 0
    end.

Definition unmap_io_space (bitmap : list Z) (va count : Z) : outcome (list Z * list event) :=
  '(bitmap, unmapped) ← release_system_ptes bitmap va count;
  Ret (bitmap, (Unmap <$> page_range va count) ++ (Unmap <$> unmapped)).

(** ** Specification *)

(** The regions the bitmap has a bit for. *)
Definition BITS : Z := 4096 * 64.

Definition bitmap_ty (bitmap : list Z) : Prop := length bitmap = 4096%nat /\ Forall (u_ty 64) bitmap.

(** Region [b] is free. *)
Definition free (bitmap : list Z) (b : Z) : Prop :=
  exists w, bitmap !! word_of b = Some w /\ Z.testbit w (b mod 64) = false.

Definition free_run (bitmap : list Z) (start regions : Z) : Prop :=
  0 <= start /\ start + regions <= BITS /\ forall b, start <= b < start + regions -> free bitmap b.

(** [bitmap'] is [bitmap] with the bits of the run set to [v]. *)
Definition with_run (bitmap : list Z) (start regions : Z) (v : bool) (bitmap' : list Z) : Prop :=
  bitmap_ty bitmap' /\ forall b, 0 <= b < BITS ->
    (free bitmap' b <-> if (start <=? b) && (b <? start + regions) then v = false else free bitmap b).

(** ** Lemmas *)

Lemma bit_range b : 0 <= b -> (b < BITS <-> (word_of b < 4096)%nat) /\ 0 <= b mod 64 < 64.
Proof.
  intros Hb. unfold word_of, BITS. pose proof (Z.mod_pos_bound b 64).
  pose proof (Z.div_mod b 64). assert (0 <= b / 64) by (apply Z.div_pos; lia). split; [| lia].
  change 4096%nat with (Z.to_nat 4096). lia.
Qed.

Lemma bit_inj b c : 0 <= b -> 0 <= c -> word_of b = word_of c -> b mod 64 = c mod 64 -> b = c.
Proof.
  unfold word_of. intros Hb Hc Hw Hm.
  assert (0 <= b / 64 /\ 0 <= c / 64) by (split; apply Z.div_pos; lia).
  rewrite (Z.div_mod b 64), (Z.div_mod c 64) by lia. lia.
Qed.

Lemma word_lookup m b : bitmap_ty m -> 0 <= b < BITS ->
  exists w, m !! word_of b = Some w /\ u_ty 64 w.
Proof.
  intros [Hl Hty] Hb. destruct (bit_range b) as [Hw _]; [lia |].
  destruct (lookup_lt_is_Some_2 m (word_of b)) as [w Hw']; [rewrite Hl; apply Hw; lia |].
  exists w. split; [done |]. by eapply Forall_lookup_1.
Qed.

Lemma mask_test w b : 0 <= w -> (Z.land w (mask_of b) =? 0) = negb (Z.testbit w (b mod 64)).
Proof.
  intros Hw. pose proof (Z.mod_pos_bound b 64). unfold mask_of. rewrite Z.shiftl_1_l.
  rewrite <- has_bits_pow2 by lia. unfold has_bits. by rewrite negb_involutive.
Qed.

Lemma mask_bit b i : 0 <= i -> Z.testbit (mask_of b) i = (i =? b mod 64).
Proof.
  intros Hi. pose proof (Z.mod_pos_bound b 64). unfold mask_of. rewrite Z.shiftl_1_l.
  rewrite Z.pow2_bits_eqb by lia. apply Z.eqb_sym.
Qed.

(** Writing one word so that only bit [b] may change, to [v]. *)
Lemma with_run_word m b w w' v :
  bitmap_ty m -> 0 <= b < BITS -> m !! word_of b = Some w -> u_ty 64 w' ->
  (forall i, 0 <= i < 64 -> Z.testbit w' i = if i =? b mod 64 then v else Z.testbit w i) ->
  with_run m b 1 v (<[word_of b := w']> m).
Proof.
  intros [Hl Hty] Hb Hw Hw' Hbits. destruct (bit_range b) as [Hr Hmod]; [lia |].
  split; [split; [by rewrite length_insert | by apply Forall_insert] |].
  intros c Hc. destruct (bit_range c) as [_ Hcm]; [lia |]. unfold free.
  destruct (decide (word_of c = word_of b)) as [E | Hne].
  - rewrite E, list_lookup_insert_eq by (rewrite Hl; apply Hr; lia).
    destruct (Z.eqb_spec (c mod 64) (b mod 64)) as [E2 | Hne2].
    + assert (c = b) as -> by (apply bit_inj; (lia || done)).
      destruct (Z.leb_spec b b), (Z.ltb_spec b (b + 1)); try lia. cbn [andb].
      specialize (Hbits (b mod 64) Hcm). rewrite Z.eqb_refl in Hbits. rewrite <- Hbits. naive_solver.
    + destruct (Z.leb_spec b c), (Z.ltb_spec c (b + 1)); cbn [andb];
        try (assert (c = b) as -> by lia; done);
        specialize (Hbits (c mod 64) Hcm); destruct (Z.eqb_spec (c mod 64) (b mod 64)); try lia;
        rewrite Hw; naive_solver.
  - rewrite list_lookup_insert_ne by done.
    destruct (Z.leb_spec b c), (Z.ltb_spec c (b + 1)); cbn [andb]; try done.
    assert (c = b) as -> by lia. done.
Qed.

Lemma fetch_or_spec m b : bitmap_ty m -> 0 <= b < BITS ->
  exists w m', fetch_or m b = Ret (w, m') /\ m !! word_of b = Some w /\ 0 <= w /\ with_run m b 1 true m'.
Proof.
  intros Hm Hb. destruct (word_lookup m b Hm Hb) as (w & Hw & Hwt).
  unfold fetch_or. rewrite (rd_lookup _ _ _ Hw), outcome_bind_ret.
  rewrite wr_in by (by eapply lookup_lt_Some). rewrite outcome_bind_ret.
  eexists w, _. split; [reflexivity |]. split_and!; [done | unfold u_ty in Hwt; lia |].
  destruct (bit_range b) as [_ Hmod]; [lia |].
  apply (with_run_word m b w); try done.
  - apply u_ty_lor; [lia | done |]. unfold mask_of, u_ty. rewrite Z.shiftl_1_l.
    split; [apply Z.pow_nonneg; lia | apply Z.pow_lt_mono_r; lia].
  - intros i Hi. rewrite Z.lor_spec, mask_bit by lia.
    destruct (Z.eqb_spec i (b mod 64)); [apply orb_true_r | apply orb_false_r].
Qed.

Lemma fetch_and_not_spec m b : bitmap_ty m -> 0 <= b < BITS ->
  exists m', fetch_and_not m b = Ret m' /\ with_run m b 1 false m'.
Proof.
  intros Hm Hb. destruct (word_lookup m b Hm Hb) as (w & Hw & Hwt).
  unfold fetch_and_not. rewrite (rd_lookup _ _ _ Hw), outcome_bind_ret.
  rewrite wr_in by (by eapply lookup_lt_Some). eexists. split; [reflexivity |].
  apply (with_run_word m b w); try done.
  - apply u_ty_land; [lia | done |]. apply u_ty_wnot; [lia |]. apply Z.shiftl_nonneg. lia.
  - intros i Hi. rewrite Z.land_spec, wnot_testbit, mask_bit by lia.
    destruct (Z.ltb_spec i 64); [| lia].
    destruct (Z.eqb_spec i (b mod 64)); [apply andb_false_r | apply andb_true_r].
Qed.

Lemma with_run_nil m b v : bitmap_ty m -> with_run m b 0 v m.
Proof.
  intros Hm. split; [done |]. intros c Hc.
  by destruct (Z.leb_spec b c), (Z.ltb_spec c (b + 0)); try lia.
Qed.

Lemma with_run_join m b k l v m1 m2 :
  0 <= k -> 0 <= l -> with_run m b k v m1 -> with_run m1 (b + k) l v m2 -> with_run m b (k + l) v m2.
Proof.
  intros Hk Hl [_ H1] [Ht H2]. split; [done |]. intros c Hc. rewrite (H2 c Hc).
  destruct (Z.leb_spec (b + k) c), (Z.ltb_spec c (b + k + l)); cbn [andb]; try rewrite (H1 c Hc);
    destruct (Z.leb_spec b c), (Z.ltb_spec c (b + (k + l))), (Z.ltb_spec c (b + k)); cbn [andb];
    (done || lia).
Qed.

Lemma clear_loop_spec n m b : bitmap_ty m -> 0 <= b -> b + Z.of_nat n <= BITS ->
  exists m', clear_loop n m b = Ret m' /\ with_run m b (Z.of_nat n) false m'.
Proof.
  revert m b. induction n as [| n IH]; intros m b Hm Hb Hn; cbn [clear_loop].
  - exists m. split; [done | by apply with_run_nil].
  - destruct (fetch_and_not_spec m b Hm) as (m1 & -> & H1); [lia |]. rewrite outcome_bind_ret.
    destruct (IH m1 (b + 1)) as (m2 & -> & H2); [apply H1 | lia | lia |].
    exists m2. split; [done |]. replace (Z.of_nat (S n)) with (1 + Z.of_nat n) by lia.
    by eapply with_run_join; [lia | lia | exact H1 | exact H2].
Qed.

Lemma claim_loop_spec n m rs b :
  bitmap_ty m -> 0 <= b -> b + Z.of_nat n <= BITS ->
  (forall c, b <= c < b + Z.of_nat n -> free m c) ->
  exists m', claim_loop n m rs b = Ret (true, m') /\ with_run m b (Z.of_nat n) true m'.
Proof.
  revert m b. induction n as [| n IH]; intros m b Hm Hb Hn Hfree; cbn [claim_loop].
  - exists m. split; [done | by apply with_run_nil].
  - destruct (fetch_or_spec m b Hm) as (w & m1 & -> & Hw & Hw0 & H1); [lia |].
    rewrite outcome_bind_ret. rewrite mask_test by done.
    destruct (Hfree b) as (w' & Hw' & Hbit); [lia |]. rewrite Hw in Hw'. injection Hw' as <-.
    rewrite Hbit. cbn [negb].
    destruct (IH m1 (b + 1)) as (m2 & -> & H2); [apply H1 | lia | lia | |].
    { intros c Hc. apply (proj2 H1 c); [lia |].
      destruct (Z.leb_spec b c), (Z.ltb_spec c (b + 1)); try lia. apply Hfree. lia. }
    exists m2. split; [done |]. replace (Z.of_nat (S n)) with (1 + Z.of_nat n) by lia.
    by eapply with_run_join; [lia | lia | exact H1 | exact H2].
Qed.

(** The state of the search: the bits before [bit] hold no run, and the [run_len] bits
    just before it are a maximal run of free bits. *)
Record scanning (m : list Z) (regions bit run_start run_len : Z) : Prop := mk_scanning {
  sc_len : 0 <= run_len < regions;
  sc_bit : run_len <= bit <= BITS;
  sc_start : 0 < run_len -> run_start = bit - run_len;
  sc_run b : bit - run_len <= b < bit -> free m b;
  sc_max : bit - run_len = 0 \/ ~ free m (bit - run_len - 1);
  sc_none s : 0 <= s -> s + regions <= bit -> ~ (forall b, s <= b < s + regions -> free m b) }.

Lemma scan_spec n m regions bit run_start run_len :
  bitmap_ty m -> scanning m regions bit run_start run_len -> BITS < bit + Z.of_nat n ->
  match scan n m regions bit run_start run_len with
  | Ret (Some s) => free_run m s regions /\ forall s', free_run m s' regions -> s <= s'
  | Panic => forall s', ~ free_run m s' regions
  | _ => False
  end.
Proof.
  intros Hm. revert bit run_start run_len.
  induction n as [| n IH]; intros bit rs rl [Hl Hb Hs Hr Hx Hn] Hfuel; [lia |].
  cbn [scan]. destruct (Z.eq_dec bit BITS) as [-> | Hne].
  { unfold rd. rewrite lookup_ge_None_2; [| destruct Hm as [-> _]; by vm_compute].
    intros s' (H0 & H1 & H2). by apply (Hn s'). }
  destruct (word_lookup m bit Hm) as (w & Hw & Hwt); [lia |].
  rewrite (rd_lookup _ _ _ Hw), outcome_bind_ret, mask_test by (unfold u_ty in Hwt; lia).
  destruct (Z.testbit w (bit mod 64)) eqn:Hbit; cbn [negb].
  - assert (~ free m bit) as Hnf by (intros (w' & Hw' & ?); congruence).
    apply IH; [| lia]. split; try lia.
    + right. by replace (bit + 1 - 0 - 1) with bit by lia.
    + intros s H0 H1 Hall. destruct (Z.le_gt_cases (s + regions) bit); [by apply (Hn s) |].
      apply Hnf, Hall. lia.
  - assert (free m bit) as Hf by (by exists w).
    set (rs' := if rl =? 0 then bit else rs).
    assert (rs' = bit - rl) as Hrs' by (unfold rs'; destruct (Z.eqb_spec rl 0); lia).
    destruct (Z.eqb_spec (rl + 1) regions) as [E | E].
    + rewrite Hrs'. split.
      * split_and!; [lia | lia |]. intros b Hb'. destruct (Z.eq_dec b bit) as [-> |]; [done |].
        apply Hr. lia.
      * intros s' (H0 & H1 & H2). destruct (Z.le_gt_cases (bit - rl) s'); [done |]. exfalso.
        destruct (Z.le_gt_cases (s' + regions) bit); [by apply (Hn s') |].
        destruct Hx as [? | Hx]; [lia |]. apply Hx, H2. lia.
    + apply IH; [| lia]. split; try lia.
      * intros b Hb'. destruct (Z.eq_dec b bit) as [-> |]; [done |]. apply Hr. lia.
      * by replace (bit + 1 - (rl + 1)) with (bit - rl) by lia.
      * intros s H0 H1 Hall. destruct (Z.le_gt_cases (s + regions) bit); [by apply (Hn s) |].
        destruct Hx as [? | Hx]; [lia |]. apply Hx, Hall. lia.
Qed.

(** A reservation of [count] pages. *)
Lemma reserve_result m count :
  bitmap_ty m -> 0 < count <= 8192 ->
  let regions := div_ceil count SYSTEM_PTE_REGION_PAGES in
  match reserve_system_ptes m count with
  | Ret (Some va, m') => exists s, va = SYSTEM_PTE_BASE + s * SYSTEM_PTE_REGION_BYTES /\
      free_run m s regions /\ (forall s', free_run m s' regions -> s <= s') /\
      with_run m s regions true m'
  | Panic => forall s, ~ free_run m s regions
  | _ => False
  end.
Proof.
  intros Hm Hc. cbv zeta. unfold reserve_system_ptes. destruct (Z.eqb_spec count 0); [lia |].
  set (regions := div_ceil count SYSTEM_PTE_REGION_PAGES).
  assert (1 <= regions <= 512) as Hreg.
  { unfold regions, div_ceil. change SYSTEM_PTE_REGION_PAGES with 16.
    pose proof (Z.div_mod count 16). pose proof (Z.mod_pos_bound count 16).
    destruct (Z.eqb_spec (count mod 16) 0); lia. }
  destruct (Z.ltb_spec 512 regions); [lia |].
  assert (scanning m regions 0 0 0) as Hsc by (split; try (intros; lia); unfold BITS; lia).
  assert (BITS < 0 + Z.of_nat (Z.to_nat SYSTEM_PTE_REGION_COUNT)) as Hfuel
    by (rewrite Z2Nat.id by done; by vm_compute).
  revert Hfuel. generalize (Z.to_nat SYSTEM_PTE_REGION_COUNT) as fuel. intros fuel Hfuel.
  pose proof (scan_spec fuel m regions 0 0 0 Hm Hsc Hfuel) as Hscan.
  destruct (scan _ _ _ _ _ _) as [[s |] | |]; try done.
  rewrite outcome_bind_ret. destruct Hscan as [(H0 & H1 & H2) Hmin].
  destruct (claim_loop_spec (Z.to_nat regions) m s s Hm) as (m' & -> & Hw); try lia.
  { intros c Hc'. apply H2. lia. }
  rewrite outcome_bind_ret. rewrite Z2Nat.id in Hw by lia. exists s. split; [| done].
  unfold BITS in H1. unfold SYSTEM_PTE_BASE, SYSTEM_PTE_REGION_BYTES.
  rewrite (wrap_small 64 (s * _)), wrap_small by (unfold u_ty; lia). done.
Qed.

(** Bitmaps with the same free regions are equal. *)
Lemma bitmap_ext m m' :
  bitmap_ty m -> bitmap_ty m' -> (forall b, 0 <= b < BITS -> free m b <-> free m' b) -> m = m'.
Proof.
  intros [Hl Ht] [Hl' Ht'] Hext. apply list_eq. intros i.
  destruct (decide (i < 4096)%nat) as [Hi | Hi]; [| by rewrite !lookup_ge_None_2 by lia].
  destruct (lookup_lt_is_Some_2 m i) as [w Hw]; [lia |].
  destruct (lookup_lt_is_Some_2 m' i) as [w' Hw']; [lia |].
  rewrite Hw, Hw'. f_equal.
  pose proof (Forall_lookup_1 _ _ _ _ Ht Hw) as Hwt.
  pose proof (Forall_lookup_1 _ _ _ _ Ht' Hw') as Hwt'. cbv beta in Hwt, Hwt'.
  apply Z.bits_inj'. intros k Hk. destruct (Z.le_gt_cases 64 k) as [| Hlt];
    [by rewrite !(u_ty_testbit 64) by done |].
  set (b := Z.of_nat i * 64 + k).
  assert (b / 64 = Z.of_nat i /\ b mod 64 = k) as [Hdiv Hmod].
  { unfold b. rewrite Z.add_comm, Z.div_add, Z.mod_add, Z.div_small, Z.mod_small by lia. lia. }
  assert (word_of b = i) as Hwo by (unfold word_of; rewrite Hdiv; apply Nat2Z.id).
  assert (0 <= b < BITS) as Hb.
  { unfold b, BITS. change 4096%nat with (Z.to_nat 4096) in Hi. lia. }
  specialize (Hext b Hb). unfold free in Hext. rewrite Hwo, Hmod, Hw, Hw' in Hext.
  destruct (Z.testbit w k) eqn:E1, (Z.testbit w' k) eqn:E2; try done; exfalso.
  - destruct (proj2 Hext) as (? & [= <-] & ?); [by exists w' | congruence].
  - destruct (proj1 Hext) as (? & [= <-] & ?); [by exists w | congruence].
Qed.

(** Releasing a run that a reservation claimed gives the old bitmap back. *)
Lemma release_restores m m' s count :
  bitmap_ty m -> 0 < count <= 8192 ->
  free_run m s (div_ceil count SYSTEM_PTE_REGION_PAGES) ->
  with_run m s (div_ceil count SYSTEM_PTE_REGION_PAGES) true m' ->
  release_system_ptes m' (SYSTEM_PTE_BASE + s * SYSTEM_PTE_REGION_BYTES) count =
    Ret (m, page_range (SYSTEM_PTE_BASE + s * SYSTEM_PTE_REGION_BYTES) count).
Proof.
  intros Hm Hc (H0 & H1 & H2) [Ht Hw]. set (regions := div_ceil count SYSTEM_PTE_REGION_PAGES) in *.
  assert (1 <= regions) as Hreg.
  { unfold regions, div_ceil. change SYSTEM_PTE_REGION_PAGES with 16.
    pose proof (Z.div_mod count 16). pose proof (Z.mod_pos_bound count 16).
    destruct (Z.eqb_spec (count mod 16) 0); lia. }
  unfold release_system_ptes. fold regions. unfold BITS in H1.
  destruct (Z.leb_spec SYSTEM_PTE_BASE (SYSTEM_PTE_BASE + s * SYSTEM_PTE_REGION_BYTES));
    [| unfold SYSTEM_PTE_REGION_BYTES in *; lia].
  destruct (Z.ltb_spec (SYSTEM_PTE_BASE + s * SYSTEM_PTE_REGION_BYTES) SYSTEM_PTE_END);
    [| unfold SYSTEM_PTE_BASE, SYSTEM_PTE_END, SYSTEM_PTE_REGION_BYTES in *; lia].
  cbn [andb negb].
  replace ((SYSTEM_PTE_BASE + s * SYSTEM_PTE_REGION_BYTES - SYSTEM_PTE_BASE) / SYSTEM_PTE_REGION_BYTES)
    with s by (rewrite Z.add_comm, Z.add_simpl_r; symmetry; by apply Z.div_mul).
  destruct (clear_loop_spec (Z.to_nat regions) m' s Ht) as (m2 & -> & Hm2t & Hm2); [lia | unfold BITS; lia |].
  rewrite outcome_bind_ret. do 2 f_equal. apply bitmap_ext; [done | done |].
  intros b Hb. rewrite (Hm2 b Hb), Z2Nat.id by lia.
  destruct ((s <=? b) && (b <? s + regions)) eqn:E.
  - split; [intros _ | done]. apply H2. lia.
  - rewrite (Hw b Hb), E. done.
Qed.

Lemma page_range_elem va count i :
  0 <= i < count -> va +[64] (i *[64] 4096) ∈ page_range va count.
Proof.
  intros Hi. unfold page_range. apply list_elem_of_fmap. exists (Z.to_nat i).
  rewrite Z2Nat.id by lia. split; [done |]. apply elem_of_seq. lia.
Qed.

Lemma map_loop_unmaps n m m1 map_ok va pa count i m' evs :
  release_system_ptes m1 va count = Ret (m, page_range va count) ->
  map_loop n m1 map_ok va pa count i = Ret (None, m', evs) ->
  forall k, 0 <= k < count -> Unmap (va +[64] (k *[64] 4096)) ∈ evs.
Proof.
  intros Hrel. revert i evs. induction n as [| n IH]; intros i evs; cbn [map_loop]; [done |].
  destruct (map_ok i); cbn [negb].
  - destruct (map_loop n _ _ _ _ _ _) as [[[r m2] evs'] | |] eqn:E; try done.
    rewrite outcome_bind_ret. intros [= -> -> <-] k Hk. apply elem_of_cons. right.
    by apply (IH (i + 1) evs').
  - rewrite Hrel, outcome_bind_ret. intros [= _ <-] k Hk. apply elem_of_cons. right.
    apply elem_of_app. right. apply list_elem_of_fmap. eexists. split; [reflexivity |].
    by apply page_range_elem.
Qed.

(** The mapping loop from page [i] on, when it gives up. *)
Lemma map_loop_failure n m m1 map_ok va pa count i m' evs :
  release_system_ptes m1 va count = Ret (m, page_range va count) ->
  0 <= i -> i + Z.of_nat n = count ->
  map_loop n m1 map_ok va pa count i = Ret (None, m', evs) ->
  m' = m /\ forall v p f, Map v p f ∈ evs -> exists j, 0 <= j < count /\ v = va +[64] (j *[64] 4096) /\
    forall k, 0 <= k < count -> Unmap (va +[64] (k *[64] 4096)) ∈ evs.
Proof.
  intros Hrel. revert i evs. induction n as [| n IH]; intros i evs Hi Hn; cbn [map_loop]; [done |].
  destruct (map_ok i); cbn [negb].
  - destruct (map_loop n _ _ _ _ _ _) as [[[r m2] evs'] | |] eqn:E; try done.
    rewrite outcome_bind_ret. intros [= -> -> <-].
    destruct (IH (i + 1) evs' ltac:(lia) ltac:(lia) E) as [Hm' Hev]. split; [done |].
    intros v p f [[= -> -> ->] | Hin]%elem_of_cons.
    + exists i. split_and!; [lia | lia | done |]. intros k Hk. apply elem_of_cons. right.
      apply (map_loop_unmaps n m m1 map_ok va pa count (i + 1) m' evs' Hrel E k Hk).
    + destruct (Hev v p f Hin) as (j & Hj & -> & Hall). exists j. split_and!; [lia | lia | done |].
      intros k Hk. apply elem_of_cons. right. by apply Hall.
  - rewrite Hrel, outcome_bind_ret. intros [= <- <-]. split; [done |].
    intros v p f [[= -> -> ->] | Hin]%elem_of_cons.
    + exists i. split_and!; [lia | lia | done |]. intros k Hk. apply elem_of_cons. right.
      apply elem_of_app. right. apply list_elem_of_fmap. eexists. split; [reflexivity |].
      by apply page_range_elem.
    + exfalso. apply elem_of_app in Hin as [(? & ? & _)%list_elem_of_fmap | (? & ? & _)%list_elem_of_fmap]; done.
Qed.

(** ** Properties *)

(** A reservation of up to 8192 pages is first fit: if the bitmap has a run of free
    64-KiB regions that is long enough, the reservation returns the address of the
    lowest one, whose regions become taken, and no other region changes. *)
Theorem reserve_first_fit (m : list Z) (count s0 : Z) (Hm : bitmap_ty m) (Hcount : 0 < count <= 8192)
    (Hrun : free_run m s0 (div_ceil count SYSTEM_PTE_REGION_PAGES)) :
  exists s m', reserve_system_ptes m count =
      Ret (Some (SYSTEM_PTE_BASE + s * SYSTEM_PTE_REGION_BYTES), m') /\
    free_run m s (div_ceil count SYSTEM_PTE_REGION_PAGES) /\ s <= s0 /\
    with_run m s (div_ceil count SYSTEM_PTE_REGION_PAGES) true m'.
Proof.
  pose proof (reserve_result m count Hm Hcount) as H. cbv zeta in H.
  destruct (reserve_system_ptes m count) as [[[va |] m'] | |]; try done.
  - destruct H as (s & -> & Hfree & Hmin & Hw). exists s, m'. split_and!; try done. by apply Hmin.
  - destruct (H s0 Hrun).
Qed.

Lemma empty_bitmap_ty : bitmap_ty SYSTEM_PTE_BITMAP.
Proof.
  split; [apply length_replicate |]. apply Forall_replicate. unfold u_ty. lia.
Qed.

Lemma empty_bitmap_free b : 0 <= b < BITS -> free SYSTEM_PTE_BITMAP b.
Proof.
  intros Hb. destruct (bit_range b) as [Hw _]; [lia |]. exists 0. rewrite Z.testbit_0_l.
  split; [| done]. apply lookup_replicate_2, Hw. lia.
Qed.

Lemma reserve_first_fit_witness : exists s m',
  reserve_system_ptes SYSTEM_PTE_BITMAP 20 = Ret (Some (SYSTEM_PTE_BASE + s * SYSTEM_PTE_REGION_BYTES), m')
  /\ s <= 0.
Proof.
  destruct (reserve_first_fit SYSTEM_PTE_BITMAP 20 0) as (s & m' & H1 & _ & H2 & _);
    [apply empty_bitmap_ty | lia | | exists s, m'; split; [exact H1 | exact H2]].
  split_and!; [lia | by vm_compute |]. intros b Hb. apply empty_bitmap_free.
  assert (0 + div_ceil 20 SYSTEM_PTE_REGION_PAGES <= BITS) by (by vm_compute). lia.
Defined.

(** Releasing what a reservation returned restores the bitmap exactly and unmaps
    every reserved page once. *)
Theorem reserve_release_roundtrip (m m' : list Z) (count va : Z) (Hm : bitmap_ty m)
    (Hcount : 0 < count <= 8192) (Hres : reserve_system_ptes m count = Ret (Some va, m')) :
  release_system_ptes m' va count = Ret (m, page_range va count).
Proof.
  pose proof (reserve_result m count Hm Hcount) as H. cbv zeta in H. rewrite Hres in H.
  destruct H as (s & -> & Hfree & _ & Hw). by apply release_restores.
Qed.

Lemma reserve_release_roundtrip_witness : exists va m',
  reserve_system_ptes SYSTEM_PTE_BITMAP 20 = Ret (Some va, m') /\
  release_system_ptes m' va 20 = Ret (SYSTEM_PTE_BITMAP, page_range va 20).
Proof.
  destruct (reserve_system_ptes SYSTEM_PTE_BITMAP 20) as [[[va |] m'] | |] eqn:E;
    [| by vm_compute in E ..].
  exists va, m'. split; [reflexivity |].
  apply (reserve_release_roundtrip SYSTEM_PTE_BITMAP m' 20 va); [apply empty_bitmap_ty | lia | exact E].
Defined.

(** A mapping that fails leaves the pool as it was: the bitmap is restored and every
    page for which [map_page] was called, the refused one included, is unmapped. *)
Theorem map_io_failure_restores (m m' : list Z) (map_ok : Z -> bool) (pa count : Z)
    (evs : list event) (Hm : bitmap_ty m) (Hcount : 0 < count <= 8192)
    (Hmap : map_io_space m map_ok pa count = Ret (None, m', evs)) :
  m' = m /\ forall va pa' flags, Map va pa' flags ∈ evs -> Unmap va ∈ evs.
Proof.
  unfold map_io_space in Hmap. destruct (Z.eqb_spec count 0); [lia |].
  pose proof (reserve_result m count Hm Hcount) as H. cbv zeta in H.
  destruct (reserve_system_ptes m count) as [[[va |] m1] | |]; try done.
  rewrite outcome_bind_ret in Hmap. destruct H as (s & -> & Hfree & _ & Hw).
  pose proof (release_restores m m1 s count Hm Hcount Hfree Hw) as Hrel.
  set (va := SYSTEM_PTE_BASE + s * SYSTEM_PTE_REGION_BYTES) in *.
  pose proof (map_loop_failure (Z.to_nat count) m m1 map_ok va pa count 0 m' evs Hrel) as Hf.
  destruct Hf as [Hm' Hevs]; [lia | lia | done |]. split; [done |].
  intros va' pa' flags Hin. destruct (Hevs _ _ _ Hin) as (i & Hi & -> & Hall). apply Hall. lia.
Qed.

Lemma map_io_failure_restores_witness : exists m' evs,
  map_io_space SYSTEM_PTE_BITMAP (fun i => i <? 1) 0xFEB00000 2 = Ret (None, m', evs) /\
  m' = SYSTEM_PTE_BITMAP.
Proof.
  destruct (map_io_space SYSTEM_PTE_BITMAP (fun i => i <? 1) 0xFEB00000 2) as [[[r m'] evs] | |] eqn:E;
    [| by vm_compute in E | by vm_compute in E].
  destruct r as [va |]; [by vm_compute in E |]. exists m', evs. split; [done |].
  destruct (map_io_failure_restores SYSTEM_PTE_BITMAP m' (fun i => i <? 1) 0xFEB00000 2 evs) as [H _];
    [apply empty_bitmap_ty | lia | exact E | exact H].
Defined.

(** The bitmap has bits for 262144 regions, while the search runs over the 10485760
    regions of the address range. When no run is free, the search therefore never
    reports exhaustion: it reads past the bitmap and panics. *)
Theorem exhausted_pool_panics (m : list Z) (count : Z) (Hm : bitmap_ty m) (Hcount : 0 < count <= 8192)
    (Hnone : forall s, ~ free_run m s (div_ceil count SYSTEM_PTE_REGION_PAGES)) :
  SYSTEM_PTE_REGION_COUNT = 40 * BITS /\ reserve_system_ptes m count = Panic.
Proof.
  split; [done |]. pose proof (reserve_result m count Hm Hcount) as H. cbv zeta in H.
  destruct (reserve_system_ptes m count) as [[[va |] m'] | |]; try done.
  destruct H as (s & _ & Hfree & _). by destruct (Hnone s).
Qed.

Lemma exhausted_pool_panics_witness :
  reserve_system_ptes (replicate 4096 (2 ^ 64 - 1)) 16 = Panic.
Proof.
  apply (exhausted_pool_panics (replicate 4096 (2 ^ 64 - 1)) 16); [| lia |].
  - split; [apply length_replicate |]. apply Forall_replicate. unfold u_ty. lia.
  - intros s (H0 & H1 & H2). assert (div_ceil 16 SYSTEM_PTE_REGION_PAGES = 1) as E by done.
    rewrite E in *. destruct (H2 s) as (w & Hw & Hb); [lia |].
    apply lookup_replicate in Hw as [-> _]. change (2 ^ 64 - 1) with (Z.ones 64) in Hb.
    pose proof (Z.mod_pos_bound s 64). rewrite Z.testbit_ones_nonneg in Hb by lia.
    destruct (Z.ltb_spec (s mod 64) 64); [done | lia].
Defined.

End SysPte.
