(* ===== verification/Vad.v ===== *)
(** * Virtual address descriptors ([mm/vad.rs])

    The tree of VADs of an address space, with its nodes in a memory of entries that refer to
    each other by address, as the source has them behind raw pointers, and with its spin lock.
    A node is read and written field by field; dereferencing an address that holds no entry and
    taking the lock twice are faults. The specification forgets the memory: a tree of addresses,
    the sorted list of ranges it holds, and where a search finds them. *)

From Stdlib Require Import ZArith Lia Sorted.
From S2P Require Import Prelude.

Module Vad.

(** ** Entries *)

Inductive VadType :=
| VadNone | VadDevice | VadImage | VadWriteWatch | VadRoot | VadLarge | VadRotatePhysical.

#[export] Instance VadType_eq_dec : EqDecision VadType.
Proof. solve_decision. Defined.

(** Addresses are numbers, 0 is the null pointer. *)
Record VadEntry := mk_vad {
  starting_vpn : Z; ending_vpn : Z;
  parent : Z; vleft : Z; vright : Z;
  balance_factor : Z;
  flags : Z; vad_type : VadType; protection : Z }.

Definition new_entry : VadEntry := mk_vad 0 0 0 0 0 0 0 VadNone 0.

Definition set_range (e : VadEntry) (start end_ : Z) : VadEntry :=
  mk_vad (Z.shiftr start 12) (Z.shiftr end_ 12) (parent e) (vleft e) (vright e)
    (balance_factor e) (flags e) (vad_type e) (protection e).

Definition contains (e : VadEntry) (addr : Z) : bool :=
  let vpn := Z.shiftr addr 12 in
  (starting_vpn e <=? vpn) && (vpn <=? ending_vpn e).

Definition set_parent (v : Z) (e : VadEntry) : VadEntry :=
  mk_vad (starting_vpn e) (ending_vpn e) v (vleft e) (vright e)
    (balance_factor e) (flags e) (vad_type e) (protection e).
Definition set_left (v : Z) (e : VadEntry) : VadEntry :=
  mk_vad (starting_vpn e) (ending_vpn e) (parent e) v (vright e)
    (balance_factor e) (flags e) (vad_type e) (protection e).
Definition set_right (v : Z) (e : VadEntry) : VadEntry :=
  mk_vad (starting_vpn e) (ending_vpn e) (parent e) (vleft e) v
    (balance_factor e) (flags e) (vad_type e) (protection e).
Definition set_balance (v : Z) (e : VadEntry) : VadEntry :=
  mk_vad (starting_vpn e) (ending_vpn e) (parent e) (vleft e) (vright e)
    v (flags e) (vad_type e) (protection e).
Definition set_ending (v : Z) (e : VadEntry) : VadEntry :=
  mk_vad (starting_vpn e) v (parent e) (vleft e) (vright e)
    (balance_factor e) (flags e) (vad_type e) (protection e).

(** [i8] addition. *)
Definition add_i8 (a b : Z) : Z := (a + b + 128) mod 256 - 128.

(** ** The tree and its memory *)

Record VadTree := mk_tree {
  root : Z; locked : bool; node_count : Z; mem : gmap Z VadEntry }.

Definition new_tree (m : gmap Z VadEntry) : VadTree := mk_tree 0 false 0 m.

Inductive fault := BadPointer | Deadlock | Fuel.

Inductive run (A : Type) := Done (a : A) (t : VadTree) | Fault (f : fault).
Arguments Done {A} a t.
Arguments Fault {A} f.

(** Code that works on the tree. *)
Definition op (A : Type) : Type := VadTree -> run A.

#[export] Instance op_ret : MRet op := fun A a t => Done a t.
#[export] Instance op_bind : MBind op := fun A B f m t =>
  match m t with Done a t => f a t | Fault e => Fault e end.

Notation "m ;; k" := (mbind (fun _ => k) m) (at level 100, right associativity) : stdpp_scope.

Definition get (p : Z) : op VadEntry := fun t =>
  match mem t !! p with Some e => Done e t | None => Fault BadPointer end.

Definition put (p : Z) (f : VadEntry -> VadEntry) : op () := fun t =>
  match mem t !! p with
  | Some e => Done tt (mk_tree (root t) (locked t) (node_count t) (<[p := f e]> (mem t)))
  | None => Fault BadPointer
  end.

Definition lock : op () := fun t =>
  if locked t then Fault Deadlock else Done tt (mk_tree (root t) true (node_count t) (mem t)).
Definition unlock : op () := fun t => Done tt (mk_tree (root t) false (node_count t) (mem t)).

Definition get_root : op Z := fun t => Done (root t) t.
Definition set_root (r : Z) : op () := fun t => Done tt (mk_tree r (locked t) (node_count t) (mem t)).

Definition count_add (d : Z) : op () := fun t =>
  Done tt (mk_tree (root t) (locked t) (wrap 64 (node_count t + d)) (mem t)).

(** Paths are no longer than the memory is large. *)
Definition path_fuel : op nat := fun t => Done (size (mem t)) t.

Definition out_of_fuel {A} : op A := fun _ => Fault Fuel.

(** ** Rotations *)

(** The child pointer of the parent [par] of [y] is redirected to [x]; a null parent means the
    root, which is written under the lock that [take] takes. *)
Definition replace_right (take : bool) (par y x : Z) : op () :=
  if par =? 0 then
    (if take then lock ;; set_root x ;; unlock else set_root x)
  else
    p ← get par;
    if vleft p =? y then put par (set_left x) else put par (set_right x).

Definition replace_left (take : bool) (par x y : Z) : op () :=
  if par =? 0 then
    (if take then lock ;; set_root y ;; unlock else set_root y)
  else
    p ← get par;
    if vright p =? x then put par (set_right y) else put par (set_left y).

Definition rotate_right_body (take : bool) (y : Z) : op () :=
  ey ← get y; let x := vleft ey in
  ex ← get x; let t2 := vright ex in
  put x (set_parent (parent ey)) ;;
  replace_right take (parent ey) y x ;;
  put x (set_right y) ;;
  put y (set_parent x) ;;
  put y (set_left t2) ;;
  (if negb (t2 =? 0) then put t2 (set_parent y) else mret tt) ;;
  put y (set_balance 0) ;;
  put x (set_balance 0).

Definition rotate_left_body (take : bool) (x : Z) : op () :=
  ex ← get x; let y := vright ex in
  ey ← get y; let t2 := vleft ey in
  put y (set_parent (parent ex)) ;;
  replace_left take (parent ex) x y ;;
  put y (set_left x) ;;
  put x (set_parent y) ;;
  put x (set_right t2) ;;
  (if negb (t2 =? 0) then put t2 (set_parent x) else mret tt) ;;
  put x (set_balance 0) ;;
  put y (set_balance 0).

Definition rotate_right : Z -> op () := rotate_right_body true.
Definition rotate_left : Z -> op () := rotate_left_body true.

Definition rotate_left_right (node : Z) : op () :=
  n ← get node; let child := vleft n in
  c ← get child; let old_child_balance := balance_factor c in
  rotate_left child ;;
  rotate_right node ;;
  if old_child_balance =? -1 then put node (set_balance 1) else mret tt.

Definition rotate_right_left (node : Z) : op () :=
  n ← get node; let child := vright n in
  c ← get child; let old_child_balance := balance_factor c in
  rotate_right child ;;
  rotate_left node ;;
  if old_child_balance =? 1 then put node (set_balance (-1)) else mret tt.

(** The variants of removal take the lock for the whole rotation. *)
Definition rotate_right_locked (y : Z) : op () := lock ;; rotate_right_body false y ;; unlock.
Definition rotate_left_locked (x : Z) : op () := lock ;; rotate_left_body false x ;; unlock.

Definition rotate_left_right_locked (node : Z) : op () :=
  n ← get node; let child := vleft n in
  c ← get child; let old_child_balance := balance_factor c in
  rotate_left_locked child ;;
  rotate_right_locked node ;;
  if old_child_balance =? -1 then put node (set_balance 1) else mret tt.

Definition rotate_right_left_locked (node : Z) : op () :=
  n ← get node; let child := vright n in
  c ← get child; let old_child_balance := balance_factor c in
  rotate_right_locked child ;;
  rotate_left_locked node ;;
  if old_child_balance =? 1 then put node (set_balance (-1)) else mret tt.

(** ** Rebalancing *)

(** The balance of the parent after a change below [node], and its new value. *)
Definition tilt (node par : Z) : op Z :=
  p ← get par;
  put par (set_balance (add_i8 (balance_factor p) (if node =? vleft p then -1 else 1))) ;;
  p ← get par; mret (balance_factor p).

(** A node that leans two to the left, and one that leans two to the right. *)
Definition rebalance_left (par : Z) : op () :=
  p ← get par;
  if vleft p =? 0 then rotate_left_right par
  else
    c ← get (vleft p);
    if balance_factor c <=? 0 then rotate_right par else rotate_left_right par.

Definition rebalance_right (par : Z) : op () :=
  p ← get par;
  if vright p =? 0 then rotate_right_left par
  else
    c ← get (vright p);
    if 0 <=? balance_factor c then rotate_left par else rotate_right_left par.

Definition rebalance_left_locked (par : Z) : op () :=
  p ← get par;
  if vleft p =? 0 then rotate_left_right_locked par
  else
    c ← get (vleft p);
    if balance_factor c <=? 0 then rotate_right_locked par else rotate_left_right_locked par.

Definition rebalance_right_locked (par : Z) : op () :=
  p ← get par;
  if vright p =? 0 then rotate_right_left_locked par
  else
    c ← get (vright p);
    if 0 <=? balance_factor c then rotate_left_locked par else rotate_right_left_locked par.

Fixpoint insert_up (fuel : nat) (node par : Z) : op () :=
  if par =? 0 then mret tt
  else match fuel with
  | O => out_of_fuel
  | S fuel =>
      new_balance ← tilt node par;
      if new_balance =? 0 then mret tt
      else if new_balance =? -2 then rebalance_left par
      else if new_balance =? 2 then rebalance_right par
      else p ← get par; insert_up fuel par (parent p)
  end.

Definition rebalance_insert (node : Z) : op () :=
  fuel ← path_fuel; n ← get node; insert_up fuel node (parent n).

Fixpoint delete_up (fuel : nat) (current par : Z) : op () :=
  if par =? 0 then mret tt
  else match fuel with
  | O => out_of_fuel
  | S fuel =>
      new_balance ← tilt current par;
      if new_balance =? 0 then p ← get par; delete_up fuel par (parent p)
      else if new_balance =? -2 then rebalance_left_locked par
      else if new_balance =? 2 then rebalance_right_locked par
      else mret tt
  end.

Definition rebalance_delete_locked (node : Z) : op () :=
  fuel ← path_fuel; n ← get node; delete_up fuel node (parent n).

(** ** Insertion and search *)

(** [Result<(), NTSTATUS>]; the only error is [STATUS_UNSUCCESSFUL]. *)
Inductive result := Ok | Err.

Fixpoint insert_loop (fuel : nat) (vad current : Z) : op result :=
  match fuel with
  | O => out_of_fuel
  | S fuel =>
      v ← get vad; c ← get current;
      if (starting_vpn v <=? ending_vpn c) && (starting_vpn c <=? ending_vpn v) then mret Err
      else if starting_vpn v <? starting_vpn c then
        if vleft c =? 0 then
          put current (set_left vad) ;; put vad (set_parent current) ;;
          put vad (set_balance 0) ;; mret Ok
        else insert_loop fuel vad (vleft c)
      else
        if vright c =? 0 then
          put current (set_right vad) ;; put vad (set_parent current) ;;
          put vad (set_balance 0) ;; mret Ok
        else insert_loop fuel vad (vright c)
  end.

Definition insert (vad : Z) : op result :=
  lock ;;
  r ← get_root;
  if r =? 0 then
    set_root vad ;;
    put vad (set_parent 0) ;; put vad (set_left 0) ;; put vad (set_right 0) ;;
    put vad (set_balance 0) ;;
    count_add 1 ;; unlock ;; mret Ok
  else
    fuel ← path_fuel;
    res ← insert_loop fuel vad r;
    match res with
    | Err => unlock ;; mret Err
    | Ok =>
        count_add 1 ;;
        v ← get vad;
        unlock ;;
        (if negb (parent v =? 0) then rebalance_insert (parent v) else mret tt) ;;
        mret Ok
    end.

Fixpoint find_loop (fuel : nat) (vpn current : Z) : op (option Z) :=
  if current =? 0 then mret None
  else match fuel with
  | O => out_of_fuel
  | S fuel =>
      e ← get current;
      if vpn <? starting_vpn e then find_loop fuel vpn (vleft e)
      else if ending_vpn e <? vpn then find_loop fuel vpn (vright e)
      else mret (Some current)
  end.

Definition find (addr : Z) : op (option Z) :=
  lock ;;
  r ← get_root; fuel ← path_fuel;
  res ← find_loop fuel (Z.shiftr addr 12) r;
  unlock ;; mret res.

Fixpoint find_by_start_loop (fuel : nat) (start_vpn current : Z) : op (option Z) :=
  if current =? 0 then mret None
  else match fuel with
  | O => out_of_fuel
  | S fuel =>
      e ← get current;
      if start_vpn <? starting_vpn e then find_by_start_loop fuel start_vpn (vleft e)
      else if starting_vpn e <? start_vpn then find_by_start_loop fuel start_vpn (vright e)
      else mret (Some current)
  end.

Definition find_by_start (start_vpn : Z) : op (option Z) :=
  lock ;;
  r ← get_root; fuel ← path_fuel;
  res ← find_by_start_loop fuel start_vpn r;
  unlock ;; mret res.

(** ** Removal *)

Fixpoint min_node (fuel : nat) (current : Z) : op Z :=
  match fuel with
  | O => out_of_fuel
  | S fuel =>
      e ← get current;
      if vleft e =? 0 then mret current else min_node fuel (vleft e)
  end.

(** The pointer to [node], in the parent or in the root, is redirected to [child]. *)
Definition relink (par node child : Z) : op () :=
  if par =? 0 then set_root child
  else
    p ← get par;
    if vleft p =? node then put par (set_left child) else put par (set_right child).

Definition remove_node_locked (node : Z) : op Z :=
  n ← get node;
  let has_left := negb (vleft n =? 0) in
  let has_right := negb (vright n =? 0) in
  if negb has_left && negb has_right then
    relink (parent n) node 0 ;; mret (parent n)
  else if has_left && negb has_right then
    relink (parent n) node (vleft n) ;;
    put (vleft n) (set_parent (parent n)) ;; mret (parent n)
  else if negb has_left && has_right then
    relink (parent n) node (vright n) ;;
    put (vright n) (set_parent (parent n)) ;; mret (parent n)
  else
    fuel ← path_fuel;
    successor ← min_node fuel (vright n);
    s ← get successor;
    let successor_right := vright s in
    put node (fun e => mk_vad (starting_vpn s) (ending_vpn s) (parent e) (vleft e) (vright e)
                         (balance_factor s) (flags s) (vad_type s) (protection s)) ;;
    if parent s =? node then
      put node (set_right successor_right) ;;
      (if negb (successor_right =? 0) then put successor_right (set_parent node) else mret tt) ;;
      mret node
    else
      (if negb (successor_right =? 0) then put successor_right (set_parent (parent s)) else mret tt) ;;
      s' ← get successor;
      put (parent s') (set_left successor_right) ;;
      mret (parent s).

Fixpoint remove_search (fuel : nat) (vad current : Z) : op Z :=
  if (current =? 0) || (current =? vad) then mret current
  else match fuel with
  | O => out_of_fuel
  | S fuel =>
      v ← get vad; c ← get current;
      if starting_vpn v <? starting_vpn c then remove_search fuel vad (vleft c)
      else remove_search fuel vad (vright c)
  end.

Definition remove (vad : Z) : op result :=
  lock ;;
  r ← get_root; fuel ← path_fuel;
  current ← remove_search fuel vad r;
  if current =? 0 then unlock ;; mret Err
  else
    rebalance_from ← remove_node_locked current;
    (if negb (rebalance_from =? 0) then rebalance_delete_locked rebalance_from else mret tt) ;;
    count_add (-1) ;;
    unlock ;; mret Ok.

Definition count : op Z := fun t => Done (node_count t) t.

(** The pool answers with [vad], 0 when it is exhausted; the entry is zeroed first. *)
Definition allocate_vad (vad start end_ : Z) (type : VadType) (prot : Z) : op Z := fun t =>
  if vad =? 0 then Done 0 t
  else
    let e := set_range new_entry start end_ in
    let e := mk_vad (starting_vpn e) (ending_vpn e) (parent e) (vleft e) (vright e)
               (balance_factor e) (flags e) type prot in
    Done vad (mk_tree (root t) (locked t) (node_count t) (<[vad := e]> (mem t))).

Definition free_vad (vad : Z) : op () := fun t =>
  if vad =? 0 then Done tt t
  else Done tt (mk_tree (root t) (locked t) (node_count t) (base.delete vad (mem t))).

(** ** Neighbours and merging *)

Fixpoint climb_left (fuel : nat) (current : Z) : op Z :=
  e ← get current;
  if parent e =? 0 then mret 0
  else
    p ← get (parent e);
    if vleft p =? current
    then match fuel with O => out_of_fuel | S fuel => climb_left fuel (parent e) end
    else mret (parent e).

Fixpoint climb_right (fuel : nat) (current : Z) : op Z :=
  e ← get current;
  if parent e =? 0 then mret 0
  else
    p ← get (parent e);
    if vright p =? current
    then match fuel with O => out_of_fuel | S fuel => climb_right fuel (parent e) end
    else mret (parent e).

Fixpoint rightmost (fuel : nat) (current : Z) : op Z :=
  match fuel with
  | O => out_of_fuel
  | S fuel =>
      e ← get current;
      if vright e =? 0 then mret current else rightmost fuel (vright e)
  end.

Definition find_predecessor (node : Z) : op Z :=
  fuel ← path_fuel; n ← get node;
  if vleft n =? 0 then climb_left fuel node else rightmost fuel (vleft n).

Definition find_successor (node : Z) : op Z :=
  fuel ← path_fuel; n ← get node;
  if vright n =? 0 then climb_right fuel node else min_node fuel (vright n).

(** A node is unlinked by putting its right child in its place. *)
Definition unlink (vad : Z) : op () :=
  v ← get vad;
  relink (parent v) vad (vright v) ;;
  (if negb (vright v =? 0) then put (vright v) (set_parent (parent v)) else mret tt) ;;
  free_vad vad ;;
  count_add (-1).

Definition mergeable (a b : VadEntry) : bool :=
  (ending_vpn a +[64] 1 =? starting_vpn b) && bool_decide (vad_type a = vad_type b) &&
  (protection a =? protection b).

Fixpoint merge_pred (fuel : nat) (vad pred : Z) : op Z :=
  if pred =? 0 then mret vad
  else
    p ← get pred;
    if bool_decide (vad_type p = VadNone) then mret vad
    else
      v ← get vad;
      if mergeable p v then
        put pred (set_ending (ending_vpn v)) ;;
        unlink vad ;;
        pred' ← find_predecessor pred;
        match fuel with O => out_of_fuel | S fuel => merge_pred fuel pred pred' end
      else mret vad.

Fixpoint merge_succ (fuel : nat) (vad succ : Z) : op () :=
  if succ =? 0 then mret tt
  else
    s ← get succ;
    if bool_decide (vad_type s = VadNone) then mret tt
    else
      v ← get vad;
      if mergeable v s then
        put vad (set_ending (ending_vpn s)) ;;
        unlink succ ;;
        succ' ← find_successor vad;
        match fuel with O => out_of_fuel | S fuel => merge_succ fuel vad succ' end
      else mret tt.

Definition merge_adjacent (vad : Z) : op () :=
  lock ;;
  fuel ← path_fuel;
  pred ← find_predecessor vad;
  vad ← merge_pred fuel vad pred;
  succ ← find_successor vad;
  merge_succ fuel vad succ ;;
  unlock.

(** ** Traversals *)

Fixpoint inorder_collect_impl (fuel : nat) (node : Z) : op (list Z) :=
  if node =? 0 then mret []
  else match fuel with
  | O => out_of_fuel
  | S fuel =>
      n ← get node;
      l ← inorder_collect_impl fuel (vleft n);
      r ← inorder_collect_impl fuel (vright n);
      mret (l ++ node :: r)
  end.

Definition inorder_collect : op (list Z) :=
  lock ;; r ← get_root; fuel ← path_fuel;
  res ← inorder_collect_impl fuel r;
  unlock ;; mret res.

Fixpoint find_overlapping_impl (fuel : nat) (node start end_ : Z) : op (list Z) :=
  if node =? 0 then mret []
  else match fuel with
  | O => out_of_fuel
  | S fuel =>
      n ← get node;
      l ← (if vleft n =? 0 then mret []
           else c ← get (vleft n);
                if start <=? ending_vpn c then find_overlapping_impl fuel (vleft n) start end_
                else mret []);
      r ← (if vright n =? 0 then mret []
           else c ← get (vright n);
                if starting_vpn c <=? end_ then find_overlapping_impl fuel (vright n) start end_
                else mret []);
      mret (l ++ (if (starting_vpn n <=? end_) && (start <=? ending_vpn n) then [node] else []) ++ r)
  end.

Definition find_overlapping (start_vpn end_vpn : Z) : op (list Z) :=
  lock ;; r ← get_root; fuel ← path_fuel;
  res ← find_overlapping_impl fuel r start_vpn end_vpn;
  unlock ;; mret res.

Fixpoint depth_impl (fuel : nat) (node : Z) : op Z :=
  if node =? 0 then mret 0
  else match fuel with
  | O => out_of_fuel
  | S fuel =>
      n ← get node;
      left_d ← depth_impl fuel (vleft n);
      right_d ← depth_impl fuel (vright n);
      mret (1 + Z.max left_d right_d)
  end.

Definition depth : op Z :=
  lock ;; r ← get_root; fuel ← path_fuel; d ← depth_impl fuel r; unlock ;; mret d.

(** ** Gaps *)

Fixpoint collect_gaps (fuel : nat) (node min_vpn max_vpn : Z) : op (list (Z * Z)) :=
  if node =? 0 then mret []
  else match fuel with
  | O => out_of_fuel
  | S fuel =>
      e ← get node;
      let here := if min_vpn <? starting_vpn e then [(min_vpn, starting_vpn e -[64] 1)] else [] in
      l ← collect_gaps fuel (vleft e) min_vpn (ending_vpn e);
      r ← collect_gaps fuel (vright e) (starting_vpn e) max_vpn;
      mret (here ++ l ++ r)
  end.

Definition gap_range (gap : Z * Z) : Z * Z :=
  (wrap 64 (Z.shiftl gap.1 12), wrap 64 (Z.shiftl (gap.2 +[64] 1) 12)).

Fixpoint gap_at (gaps : list (Z * Z)) (desired_base aligned_size : Z) : option (Z * Z) :=
  match gaps with
  | [] => None
  | gap :: gaps =>
      let '(gap_start_va, gap_end_va) := gap_range gap in
      if (gap_start_va <=? desired_base) && (aligned_size <=? gap_end_va -[64] gap_start_va) &&
         (desired_base +[64] aligned_size <=? gap_end_va)
      then Some (desired_base, desired_base +[64] aligned_size)
      else gap_at gaps desired_base aligned_size
  end.

Fixpoint first_gap (gaps : list (Z * Z)) (aligned_size : Z) : option (Z * Z) :=
  match gaps with
  | [] => None
  | gap :: gaps =>
      let '(gap_start_va, gap_end_va) := gap_range gap in
      if aligned_size <=? gap_end_va -[64] gap_start_va
      then Some (gap_start_va, gap_start_va +[64] aligned_size)
      else first_gap gaps aligned_size
  end.

(** [size.checked_add(0xFFF)? & !0xFFF] *)
Definition page_aligned (size : Z) : option Z :=
  if size + 0xFFF <? 2 ^ 64 then Some (Z.land (size + 0xFFF) (wnot 64 0xFFF)) else None.

Definition find_gap (desired_base size : Z) : op (option (Z * Z)) :=
  lock ;;
  match page_aligned size with
  | None => unlock ;; mret None
  | Some aligned_size =>
      lock ;;
      r ← get_root; fuel ← path_fuel;
      gaps ← collect_gaps fuel r 0 (Z.shiftr (2 ^ 64 - 1) 12);
      unlock ;;
      let answer :=
        match gaps with
        | [] =>
            let gap_start := if desired_base =? 0 then 0x10000 else desired_base in
            Some (gap_start, gap_start +[64] aligned_size)
        | _ =>
            let gaps := sort_by (fun a b => a.1 <=? b.1) gaps in
            match (if negb (desired_base =? 0) then gap_at gaps desired_base aligned_size else None) with
            | Some g => Some g
            | None => first_gap gaps aligned_size
            end
        end in
      unlock ;; mret answer
  end.

Fixpoint find_max_ending (fuel : nat) (node max_ending : Z) : op Z :=
  if node =? 0 then mret max_ending
  else match fuel with
  | O => out_of_fuel
  | S fuel =>
      e ← get node;
      m ← find_max_ending fuel (vleft e) (if max_ending <? ending_vpn e then ending_vpn e else max_ending);
      find_max_ending fuel (vright e) m
  end.

Definition find_end_gap (start size : Z) : op (option (Z * Z)) :=
  lock ;;
  match page_aligned size with
  | None => unlock ;; mret None
  | Some aligned_size =>
      lock ;;
      r ← get_root; fuel ← path_fuel;
      max_ending_vpn ← find_max_ending fuel r 0;
      unlock ;;
      let gap_start :=
        if max_ending_vpn =? 0 then Z.max start 0x10000
        else Z.max (wrap 64 (Z.shiftl (max_ending_vpn +[64] 1) 12)) start in
      unlock ;; mret (Some (gap_start, gap_start +[64] aligned_size))
  end.

(** ** Trees of addresses *)

Inductive shape := Leaf | Node (p : Z) (l r : shape).

Definition addr (s : shape) : Z := match s with Leaf => 0 | Node p _ _ => p end.

(** In order. *)
Fixpoint addrs (s : shape) : list Z :=
  match s with Leaf => [] | Node p l r => addrs l ++ p :: addrs r end.

(** The pointers of an entry, its contents, and its balance. *)
Definition links (e : VadEntry) : Z * Z * Z := (parent e, vleft e, vright e).
Definition contents (e : VadEntry) : Z * Z * Z * VadType * Z :=
  (starting_vpn e, ending_vpn e, flags e, vad_type e, protection e).

Definition lnk (m : gmap Z VadEntry) (q : Z) : option (Z * Z * Z) := links <$> m !! q.
Definition bal (m : gmap Z VadEntry) (q : Z) : option Z := balance_factor <$> m !! q.

(** The pointers form the tree [s] below the parent [par]. *)
Fixpoint repr (L : Z -> option (Z * Z * Z)) (par : Z) (s : shape) : Prop :=
  match s with
  | Leaf => True
  | Node p l r => p <> 0 /\ L p = Some (par, addr l, addr r) /\ repr L p l /\ repr L p r
  end.

(** A tree with a hole: the way from the hole up to the root. *)
Inductive frame := InLeft (p : Z) (r : shape) | InRight (p : Z) (l : shape).

Fixpoint plug (c : list frame) (s : shape) : shape :=
  match c with
  | [] => s
  | InLeft p r :: c => plug c (Node p s r)
  | InRight p l :: c => plug c (Node p l s)
  end.

Definition frame_addr (f : frame) : Z := match f with InLeft p _ => p | InRight p _ => p end.
Definition above (c : list frame) : Z := match c with [] => 0 | f :: _ => frame_addr f end.

Fixpoint before (c : list frame) : list Z :=
  match c with
  | [] => []
  | InLeft _ _ :: c => before c
  | InRight p l :: c => before c ++ addrs l ++ [p]
  end.

Fixpoint after (c : list frame) : list Z :=
  match c with
  | [] => []
  | InLeft p r :: c => p :: addrs r ++ after c
  | InRight _ _ :: c => after c
  end.

Fixpoint ctx_repr (L : Z -> option (Z * Z * Z)) (c : list frame) (a : Z) : Prop :=
  match c with
  | [] => True
  | InLeft p r :: c => p <> 0 /\ L p = Some (above c, a, addr r) /\ repr L p r /\ ctx_repr L c p
  | InRight p l :: c => p <> 0 /\ L p = Some (above c, addr l, a) /\ repr L p l /\ ctx_repr L c p
  end.

Lemma addrs_plug c s : addrs (plug c s) = before c ++ addrs s ++ after c.
Proof.
  revert s. induction c as [| [p r | p l] c IH]; intros s; cbn [plug before after].
  - by rewrite app_nil_r.
  - rewrite IH. cbn [addrs]. by rewrite <- !app_assoc.
  - rewrite IH. cbn [addrs]. rewrite <- !app_assoc. done.
Qed.

Lemma repr_plug L c s : repr L 0 (plug c s) <-> repr L (above c) s /\ ctx_repr L c (addr s).
Proof.
  revert s. induction c as [| [p r | p l] c IH]; intros s; cbn [plug above ctx_repr frame_addr].
  - by split; [intros H | intros [H _]].
  - rewrite IH. cbn [repr addr]. tauto.
  - rewrite IH. cbn [repr addr]. tauto.
Qed.

Lemma addr_plug f c s s' : addr (plug (f :: c) s) = addr (plug (f :: c) s').
Proof.
  revert f s s'. induction c as [| g c IH]; intros f s s'; destruct f as [p r | p l]; cbn [plug]; try done;
    apply (IH g).
Qed.

Lemma repr_ext L L' par s : (forall q, q ∈ addrs s -> L' q = L q) -> repr L par s -> repr L' par s.
Proof.
  revert par. induction s as [| p l IHl r IHr]; intros par H Hr; [done |]. cbn [addrs repr] in *.
  destruct Hr as (Hp & HL & Hl & Hrr). split; [done |].
  rewrite H by set_solver. split; [done |]. split; [apply IHl | apply IHr]; try done; set_solver.
Qed.

Lemma ctx_ext L L' c a : (forall q, q ∈ before c ++ after c -> L' q = L q) -> ctx_repr L c a -> ctx_repr L' c a.
Proof.
  revert a. induction c as [| [p r | p l] c IH]; intros a H Hc; [done | |];
    cbn [before after ctx_repr] in *; destruct Hc as (Hp & HL & Hr & Hc);
    (split; [done |]; rewrite H by set_solver; split; [done |]; split;
     [apply (repr_ext L); [set_solver | done] | apply IH; [set_solver | done]]).
Qed.

(** Only the parent of the top node changes. *)
Lemma repr_reparent L L' par par' s : repr L par s -> NoDup (addrs s) ->
  (forall l r, L (addr s) = Some (par, l, r) -> L' (addr s) = Some (par', l, r)) ->
  (forall q, q ∈ addrs s -> q <> addr s -> L' q = L q) -> repr L' par' s.
Proof.
  destruct s as [| p l r]; [done |]. cbn [repr addr addrs]. intros (Hp & HL & Hl & Hr) Hnd Htop Hrest.
  apply NoDup_app in Hnd as (_ & Hd & Hnd). apply NoDup_cons in Hnd as [Hpr Hndr].
  split; [done |]. split; [by apply Htop |].
  split; (apply (repr_ext L); [| done]); intros q Hq; apply Hrest; set_solver.
Qed.

(** The hole is filled with another node. *)
Lemma ctx_repoint L L' f c a a' : ctx_repr L (f :: c) a ->
  NoDup (before (f :: c) ++ after (f :: c)) ->
  (forall par l r, L (frame_addr f) = Some (par, l, r) ->
     L' (frame_addr f) = Some (match f with InLeft _ _ => (par, a', r) | InRight _ _ => (par, l, a') end)) ->
  (forall q, q ∈ before (f :: c) ++ after (f :: c) -> q <> frame_addr f -> L' q = L q) ->
  ctx_repr L' (f :: c) a'.
Proof.
  destruct f as [p r | p l]; cbn [ctx_repr frame_addr before after]; intros (Hp & HL & Hr & Hc) Hnd Htop Hrest.
  - assert (Hn : p ∉ before c ++ addrs r ++ after c).
    { apply NoDup_app in Hnd as (_ & Hd & Hnd). apply NoDup_cons in Hnd as [Hn _]. set_solver. }
    split; [done |]. rewrite (Htop _ _ _ HL). split; [done |].
    split; [apply (repr_ext L); [| done] | apply (ctx_ext L); [| done]]; intros q Hq; apply Hrest;
      set_solver.
  - assert (Hn : p ∉ before c ++ addrs l ++ after c).
    { rewrite <- !app_assoc in Hnd. cbn [app] in Hnd. rewrite app_assoc in Hnd.
      apply NoDup_app in Hnd as (_ & Hd & Hnd). apply NoDup_cons in Hnd as [Hn _]. set_solver. }
    split; [done |]. rewrite (Htop _ _ _ HL). split; [done |].
    split; [apply (repr_ext L); [| done] | apply (ctx_ext L); [| done]]; intros q Hq; apply Hrest;
      set_solver.
Qed.

(** ** Running operations *)

Definition on_mem (f : gmap Z VadEntry -> gmap Z VadEntry) (t : VadTree) : VadTree :=
  mk_tree (root t) (locked t) (node_count t) (f (mem t)).

Lemma bind_done {A B} (m : op A) (k : A -> op B) t a t' : m t = Done a t' -> (m ≫= k) t = k a t'.
Proof. intros H. unfold mbind, op_bind. by rewrite H. Qed.

Lemma get_run p t e : mem t !! p = Some e -> get p t = Done e t.
Proof. intros H. unfold get. by rewrite H. Qed.

Lemma put_run p f t : is_Some (mem t !! p) -> put p f t = Done tt (on_mem (alter f p) t).
Proof.
  intros [e H]. unfold put, on_mem. rewrite H. do 2 f_equal. symmetry. apply map_eq. intros q.
  destruct (decide (q = p)) as [-> | Hq]; [by rewrite lookup_alter_eq, H, lookup_insert_eq |].
  by rewrite lookup_alter_ne, lookup_insert_ne.
Qed.

Lemma alter_some (f : VadEntry -> VadEntry) (m : gmap Z VadEntry) p q :
  is_Some (m !! q) -> is_Some (alter f p m !! q).
Proof. by rewrite lookup_alter_is_Some. Qed.

Lemma lnk_alter f m p q : lnk (alter f p m) q = if decide (q = p) then links ∘ f <$> m !! p else lnk m q.
Proof.
  unfold lnk. destruct (decide (q = p)) as [-> | Hq].
  - rewrite lookup_alter_eq. by destruct (m !! p).
  - by rewrite lookup_alter_ne.
Qed.

Lemma bal_alter f m p q :
  bal (alter f p m) q = if decide (q = p) then balance_factor ∘ f <$> m !! p else bal m q.
Proof.
  unfold bal. destruct (decide (q = p)) as [-> | Hq].
  - rewrite lookup_alter_eq. by destruct (m !! p).
  - by rewrite lookup_alter_ne.
Qed.

Lemma contents_alter f (m : gmap Z VadEntry) p q : (forall e, contents (f e) = contents e) ->
  contents <$> alter f p m !! q = contents <$> m !! q.
Proof.
  intros Hf. destruct (decide (q = p)) as [-> | Hq]; [| by rewrite lookup_alter_ne].
  rewrite lookup_alter_eq. destruct (m !! p); [| done]. cbn. by rewrite Hf.
Qed.

Lemma get_bind {A} p (k : VadEntry -> op A) t e : mem t !! p = Some e -> (get p ≫= k) t = k e t.
Proof. intros H. by apply bind_done, get_run. Qed.

Lemma put_bind {A} p f (k : op A) t : is_Some (mem t !! p) -> (put p f ;; k) t = k (on_mem (alter f p) t).
Proof. intros H. unfold mbind, op_bind. by rewrite put_run. Qed.

Definition relocked (b : bool) (t : VadTree) : VadTree := mk_tree (root t) b (node_count t) (mem t).

Lemma lock_bind {A} (k : op A) t : locked t = false -> (lock ;; k) t = k (relocked true t).
Proof. intros H. unfold mbind, op_bind, lock. by rewrite H. Qed.

Lemma unlock_bind {A} (k : op A) t : (unlock ;; k) t = k (relocked false t).
Proof. done. Qed.

Lemma root_bind {A} (k : Z -> op A) t : (get_root ≫= k) t = k (root t) t.
Proof. done. Qed.

Lemma fuel_bind {A} (k : nat -> op A) t : (path_fuel ≫= k) t = k (size (mem t)) t.
Proof. done. Qed.

Definition counted (d : Z) (t : VadTree) : VadTree :=
  mk_tree (root t) (locked t) (wrap 64 (node_count t + d)) (mem t).

Lemma count_bind {A} d (k : op A) t : (count_add d ;; k) t = k (counted d t).
Proof. done. Qed.

Lemma relocked_id t : locked t = false -> relocked false (relocked true t) = t.
Proof. destruct t. cbn. by intros ->. Qed.

(** Setters on pointers, applied to the pointers alone. *)
Lemma lnk_set f g m p : (forall e, links (f e) = g (links e)) -> lnk (alter f p m) p = g <$> lnk m p.
Proof.
  intros H. rewrite lnk_alter, decide_True by done. unfold lnk. destruct (m !! p); [| done]. cbn. by rewrite H.
Qed.

Lemma lnk_ne f m p q : q <> p -> lnk (alter f p m) q = lnk m q.
Proof. intros H. by rewrite lnk_alter, decide_False. Qed.

Definition to_parent (v : Z) (k : Z * Z * Z) : Z * Z * Z := (v, k.1.2, k.2).
Definition to_left (v : Z) (k : Z * Z * Z) : Z * Z * Z := (k.1.1, v, k.2).
Definition to_right (v : Z) (k : Z * Z * Z) : Z * Z * Z := (k.1.1, k.1.2, v).

(** The structure a state holds. *)
Definition holds (t : VadTree) (s : shape) : Prop :=
  root t = addr s /\ repr (lnk (mem t)) 0 s /\ NoDup (addrs s).

Definition same_contents (m m' : gmap Z VadEntry) : Prop :=
  forall q, contents <$> m' !! q = contents <$> m !! q.

(** What [replace_right] and [replace_left] do below the frames [c]. *)
Definition new_root (c : list frame) (r x : Z) : Z := match c with [] => x | _ => r end.
Definition repoint (c : list frame) (x : Z) (m : gmap Z VadEntry) : gmap Z VadEntry :=
  match c with
  | [] => m
  | InLeft p _ :: _ => alter (set_left x) p m
  | InRight p _ :: _ => alter (set_right x) p m
  end.

Lemma lnk_some m q a b c : lnk m q = Some (a, b, c) ->
  exists e, m !! q = Some e /\ parent e = a /\ vleft e = b /\ vright e = c.
Proof.
  unfold lnk, links. destruct (m !! q) as [e |]; [| done]. intros [= <- <- <-]. by exists e.
Qed.

Lemma replace_run take t c y x : y <> 0 -> ctx_repr (lnk (mem t)) c y ->
  y ∉ before c ++ after c -> (take = true -> locked t = false) ->
  let t' := mk_tree (new_root c (root t) x) (locked t) (node_count t) (repoint c x (mem t)) in
  replace_right take (above c) y x t = Done tt t' /\ replace_left take (above c) y x t = Done tt t'.
Proof.
  intros Hy Hc Hn Hlk. destruct t as [rt lk nc m]. cbn [root locked node_count mem] in *. cbv zeta.
  unfold replace_right, replace_left. destruct c as [| f c]; cbn [above new_root repoint].
  { destruct take; [| done]. rewrite Hlk by done. done. }
  assert (Hother : forall s, (forall q, q ∈ addrs s -> q <> y) -> addr s <> y).
  { intros [| q l r] H; [done |]. apply H. cbn [addrs addr]. set_solver. }
  destruct f as [p r | p l]; cbn [ctx_repr frame_addr before after] in *; destruct Hc as (Hp & HL & Hr & Hc);
    rewrite (proj2 (Z.eqb_neq p 0) Hp); apply lnk_some in HL as (e & He & Ep & El & Er);
    unfold mbind, op_bind; rewrite !(get_run p (mk_tree rt lk nc m) e) by done;
    rewrite El, Er, ?Z.eqb_refl.
  - rewrite (proj2 (Z.eqb_neq (addr r) y)) by (apply Hother; set_solver).
    by rewrite !(put_run p) by (by exists e).
  - rewrite (proj2 (Z.eqb_neq (addr l) y)) by (apply Hother; set_solver).
    by rewrite !(put_run p) by (by exists e).
Qed.

(** Pointers, balances and contents after a rotation that puts [x] above [y], where [mid] moves
    over: [swap] says which side. *)
Definition set_child (right_side : bool) : Z -> VadEntry -> VadEntry := if right_side then set_right else set_left.

Definition rotated (right_rot : bool) (c : list frame) (y x mid pa : Z) (m : gmap Z VadEntry)
    : gmap Z VadEntry :=
  let m := repoint c x (alter (set_parent pa) x m) in
  let m := alter (set_child (negb right_rot) mid) y (alter (set_parent x) y (alter (set_child right_rot y) x m)) in
  let m := if mid =? 0 then m else alter (set_parent y) mid m in
  alter (set_balance 0) x (alter (set_balance 0) y m).

Lemma repoint_some c x m q : is_Some (m !! q) -> is_Some (repoint c x m !! q).
Proof. destruct c as [| [] c]; [done | |]; apply alter_some. Qed.

Lemma repoint_ne c x m q : q <> above c -> repoint c x m !! q = m !! q.
Proof. destruct c as [| [] c]; cbn [above frame_addr repoint]; [done | |]; intros H; by rewrite lookup_alter_ne. Qed.

(** The facts a rotation needs about its nodes. *)
Lemma holds_split t c s : holds t (plug c s) ->
  root t = addr (plug c s) /\ repr (lnk (mem t)) (above c) s /\ ctx_repr (lnk (mem t)) c (addr s) /\
  NoDup (before c ++ addrs s ++ after c).
Proof.
  intros (Hr & Hrep & Hnd). rewrite repr_plug in Hrep. rewrite addrs_plug in Hnd. tauto.
Qed.

Lemma above_in c : c <> [] -> above c ∈ before c ++ after c.
Proof. destruct c as [| [p r | p l] c]; [done | |]; intros _; cbn [above frame_addr before after]; set_solver. Qed.

Lemma nodup_ctx c (l : list Z) q : NoDup (before c ++ l ++ after c) -> q ∈ l -> q ∉ before c ++ after c.
Proof.
  intros Hnd Hq Hin. apply NoDup_app in Hnd as (_ & Hd & Hnd). apply NoDup_app in Hnd as (_ & Hd' & _).
  apply elem_of_app in Hin as [Hin | Hin]; [apply (Hd q Hin); set_solver | by apply (Hd' q Hq)].
Qed.

(** Entries stay where they are. *)
Ltac live :=
  cbn [on_mem mem]; repeat first [apply alter_some | apply repoint_some];
  first [assumption | eexists; eassumption | auto].

Lemma rotate_right_run take t c y x t1 t2 t3 :
  holds t (plug c (Node y (Node x t1 t2) t3)) -> (take = true -> locked t = false) ->
  rotate_right_body take y t =
  Done tt (mk_tree (new_root c (root t) x) (locked t) (node_count t)
             (rotated true c y x (addr t2) (above c) (mem t))).
Proof.
  intros Hh Hlk. apply holds_split in Hh as (Hroot & Hrep & Hctx & Hnd).
  cbn [repr addr addrs] in Hrep, Hctx, Hnd. destruct Hrep as (Hy & HLy & (Hx & HLx & Hr1 & Hr2) & Hr3).
  apply lnk_some in HLy as (ey & Ey & Epy & Ely & Ery). apply lnk_some in HLx as (ex & Ex & Epx & Elx & Erx).
  assert (Hyc : y ∉ before c ++ after c) by (apply (nodup_ctx c _ y Hnd); set_solver).
  assert (Hxc : x ∉ before c ++ after c) by (apply (nodup_ctx c _ x Hnd); set_solver).
  assert (S2 : addr t2 <> 0 -> is_Some (mem t !! addr t2)).
  { destruct t2 as [| q l r]; [done |]. intros _. destruct Hr2 as (_ & HL & _).
    apply lnk_some in HL as (e & He & _). by exists e. }
  unfold rotate_right_body. rewrite (get_bind y _ t ey Ey), Ely, (get_bind x _ t ex Ex), Erx, Epy.
  rewrite put_bind by live. set (t1' := on_mem _ t).
  assert (Hc1 : ctx_repr (lnk (mem t1')) c y).
  { apply (ctx_ext (lnk (mem t))); [| done]. intros q Hq. unfold t1'. cbn [on_mem mem]. rewrite lnk_alter.
    rewrite decide_False; [done | set_solver]. }
  rewrite (bind_done _ _ t1' tt _ (proj1 (replace_run take t1' c y x Hy Hc1 Hyc Hlk))). subst t1'.
  rewrite !put_bind by live. unfold rotated.
  destruct (Z.eqb_spec (addr t2) 0) as [E2 | E2]; cbn [negb].
  - rewrite (bind_done _ _ _ tt _ eq_refl), put_bind, put_run by live. done.
  - rewrite !put_bind, put_run by live. done.
Qed.

Lemma rotate_left_run take t c x y t1 t2 t3 :
  holds t (plug c (Node x t1 (Node y t2 t3))) -> (take = true -> locked t = false) ->
  rotate_left_body take x t =
  Done tt (mk_tree (new_root c (root t) y) (locked t) (node_count t)
             (rotated false c x y (addr t2) (above c) (mem t))).
Proof.
  intros Hh Hlk. apply holds_split in Hh as (Hroot & Hrep & Hctx & Hnd).
  cbn [repr addr addrs] in Hrep, Hctx, Hnd. destruct Hrep as (Hx & HLx & Hr1 & (Hy & HLy & Hr2 & Hr3)).
  apply lnk_some in HLy as (ey & Ey & Epy & Ely & Ery). apply lnk_some in HLx as (ex & Ex & Epx & Elx & Erx).
  assert (Hyc : y ∉ before c ++ after c) by (apply (nodup_ctx c _ y Hnd); set_solver).
  assert (Hxc : x ∉ before c ++ after c) by (apply (nodup_ctx c _ x Hnd); set_solver).
  assert (S2 : addr t2 <> 0 -> is_Some (mem t !! addr t2)).
  { destruct t2 as [| q l r]; [done |]. intros _. destruct Hr2 as (_ & HL & _).
    apply lnk_some in HL as (e & He & _). by exists e. }
  unfold rotate_left_body. rewrite (get_bind x _ t ex Ex), Erx, (get_bind y _ t ey Ey), Ely, Epx.
  rewrite put_bind by live. set (t1' := on_mem _ t).
  assert (Hc1 : ctx_repr (lnk (mem t1')) c x).
  { apply (ctx_ext (lnk (mem t))); [| done]. intros q Hq. unfold t1'. cbn [on_mem mem]. rewrite lnk_alter.
    rewrite decide_False; [done | set_solver]. }
  rewrite (bind_done _ _ t1' tt _ (proj2 (replace_run take t1' c x y Hx Hc1 Hxc Hlk))). subst t1'.
  rewrite !put_bind by live. unfold rotated.
  destruct (Z.eqb_spec (addr t2) 0) as [E2 | E2]; cbn [negb].
  - rewrite (bind_done _ _ _ tt _ eq_refl), put_bind, put_run by live. done.
  - rewrite !put_bind, put_run by live. done.
Qed.

(** What a rotation leaves at each address. *)
Definition child_link (right_side : bool) (v : Z) : Z * Z * Z -> Z * Z * Z :=
  if right_side then to_right v else to_left v.

Lemma lnk_child b v m p : lnk (alter (set_child b v) p m) p = child_link b v <$> lnk m p.
Proof. by apply lnk_set; destruct b. Qed.

Lemma lnk_parent v m p : lnk (alter (set_parent v) p m) p = to_parent v <$> lnk m p.
Proof. by apply lnk_set. Qed.

Lemma lnk_balance v m p q : lnk (alter (set_balance v) p m) q = lnk m q.
Proof.
  destruct (decide (q = p)) as [-> |]; [| by apply lnk_ne].
  rewrite (lnk_set _ (fun k => k)) by done. by destruct (lnk m p).
Qed.

Definition hole_side (c : list frame) : bool := match c with InRight _ _ :: _ => true | _ => false end.

Lemma lnk_repoint c v m : c <> [] -> lnk (repoint c v m) (above c) = child_link (hole_side c) v <$> lnk m (above c).
Proof. destruct c as [| [p r | p l] c]; [done | |]; intros _; by apply lnk_set. Qed.

Lemma lnk_repoint_ne c v m q : q <> above c -> lnk (repoint c v m) q = lnk m q.
Proof. intros H. unfold lnk. by rewrite repoint_ne. Qed.

Lemma rotated_links rot c y x mid pa m par yl yr xl xr :
  let L := lnk (rotated rot c y x mid pa m) in
  x <> y -> x <> above c -> y <> above c -> (mid <> 0 -> mid <> x /\ mid <> y /\ mid <> above c) ->
  lnk m y = Some (par, yl, yr) -> lnk m x = Some (y, xl, xr) ->
  L x = Some (child_link rot y (pa, xl, xr)) /\
  L y = Some (child_link (negb rot) mid (x, yl, yr)) /\
  (mid <> 0 -> L mid = to_parent y <$> lnk m mid) /\
  (c <> [] -> above c <> mid -> L (above c) = child_link (hole_side c) x <$> lnk m (above c)) /\
  (forall q, q <> x -> q <> y -> q <> mid -> q <> above c -> L q = lnk m q).
Proof.
  intros L Hxy Hxc Hyc Hmid Hy Hx. unfold L, rotated. clear L.
  split; [| split; [| split; [| split]]].
  - destruct (Z.eqb_spec mid 0) as [E | E]; [| destruct (Hmid E) as (H1 & H2 & H3)];
      rewrite !lnk_balance, ?(lnk_ne _ _ mid), !(lnk_ne _ _ y), lnk_child, lnk_repoint_ne, lnk_parent, Hx
        by congruence; by destruct rot.
  - destruct (Z.eqb_spec mid 0) as [E | E]; [| destruct (Hmid E) as (H1 & H2 & H3)];
      rewrite !lnk_balance, ?(lnk_ne _ _ mid), lnk_child, lnk_parent, (lnk_ne _ _ x), lnk_repoint_ne, (lnk_ne _ _ x), Hy
        by congruence; by destruct rot.
  - intros E. destruct (Hmid E) as (H1 & H2 & H3). rewrite (proj2 (Z.eqb_neq mid 0) E).
    by rewrite !lnk_balance, lnk_parent, !(lnk_ne _ _ y), !(lnk_ne _ _ x), lnk_repoint_ne, (lnk_ne _ _ x) by congruence.
  - intros Hc Hcm. destruct (Z.eqb_spec mid 0) as [E | E];
      rewrite !lnk_balance, ?(lnk_ne _ _ mid), !(lnk_ne _ _ y), !(lnk_ne _ _ x), lnk_repoint, (lnk_ne _ _ x)
        by congruence; done.
  - intros q Hqx Hqy Hqm Hqc. destruct (Z.eqb_spec mid 0) as [E | E];
      rewrite !lnk_balance, ?(lnk_ne _ _ mid), !(lnk_ne _ _ y), !(lnk_ne _ _ x), lnk_repoint_ne, (lnk_ne _ _ x)
        by congruence; done.
Qed.

Lemma rotated_contents rot c y x mid pa m : same_contents m (rotated rot c y x mid pa m).
Proof.
  intros q. unfold rotated. rewrite !contents_alter by done.
  assert (Hc : forall b v p m', contents <$> alter (set_child b v) p m' !! q = contents <$> m' !! q)
    by (intros b v p m'; apply contents_alter; by destruct b).
  assert (Hr : contents <$> repoint c x (alter (set_parent pa) x m) !! q = contents <$> m !! q).
  { destruct c as [| [] c]; cbn [repoint]; by rewrite !contents_alter. }
  destruct (mid =? 0); rewrite ?(contents_alter (set_parent y)), Hc, contents_alter, Hc, Hr by done; done.
Qed.

Lemma rotated_balance rot c y x mid pa m q : is_Some (m !! x) -> is_Some (m !! y) ->
  bal (rotated rot c y x mid pa m) q = if decide (q = x \/ q = y) then Some 0 else bal m q.
Proof.
  intros Sx Sy.
  assert (Hkeep : forall f p m', (forall e, balance_factor (f e) = balance_factor e) -> bal (alter f p m') q = bal m' q).
  { intros f p m' Hf. rewrite bal_alter. destruct (decide (q = p)) as [-> |]; [| done]. unfold bal.
    destruct (m' !! p); [| done]. cbn. by rewrite Hf. }
  assert (Hset : forall p m', is_Some (m' !! p) ->
    bal (alter (set_balance 0) p m') q = if decide (q = p) then Some 0 else bal m' q).
  { intros p m' [e He]. rewrite bal_alter. destruct (decide (q = p)); [| done]. by rewrite He. }
  unfold rotated. rewrite !Hset by (destruct (mid =? 0); unfold set_child; destruct rot; live).
  destruct (decide (q = x)) as [-> | Hx]; [by rewrite decide_True by (by left) |].
  destruct (decide (q = y)) as [-> | Hy]; [by rewrite decide_True by (by right) |].
  rewrite decide_False by tauto.
  assert (Hc : forall b v p m', bal (alter (set_child b v) p m') q = bal m' q)
    by (intros b v p m'; apply Hkeep; by destruct b).
  assert (Hr : bal (repoint c x (alter (set_parent pa) x m)) q = bal m q).
  { destruct c as [| [] c]; cbn [repoint]; by rewrite !Hkeep. }
  destruct (mid =? 0); rewrite ?(Hkeep (set_parent y)), Hc, Hkeep, Hc, Hr by done; done.
Qed.

Lemma repr_nonzero L par s q : repr L par s -> q ∈ addrs s -> q <> 0.
Proof.
  revert par. induction s as [| p l IHl r IHr]; intros par; cbn [repr addrs]; [set_solver |].
  intros (Hp & _ & Hl & Hr). rewrite elem_of_app, elem_of_cons.
  intros [H | [-> | H]]; [by apply (IHl p) | done | by apply (IHr p)].
Qed.

Lemma ctx_nonzero L c a q : ctx_repr L c a -> q ∈ before c ++ after c -> q <> 0.
Proof.
  revert a. induction c as [| [p r | p l] c IH]; intros a; cbn [ctx_repr before after]; [set_solver | |];
    intros (Hp & _ & Hr & Hc) Hq.
  - assert (q ∈ before c ++ after c \/ q = p \/ q ∈ addrs r) as [H | [-> | H]] by set_solver;
      [by apply (IH p) | done | by apply (repr_nonzero L p r)].
  - assert (q ∈ before c ++ after c \/ q = p \/ q ∈ addrs l) as [H | [-> | H]] by set_solver;
      [by apply (IH p) | done | by apply (repr_nonzero L p l)].
Qed.

(** The parts of a tree around two nodes, in order [a x b y d], do not meet. *)
Lemma parts_distinct c (a b d : list Z) x y : NoDup (before c ++ (a ++ x :: b ++ y :: d) ++ after c) ->
  x <> y /\ x ∉ before c ++ after c /\ y ∉ before c ++ after c /\ NoDup b /\ NoDup (before c ++ after c) /\
  (forall q, q ∈ a ++ b ++ d -> q <> x /\ q <> y /\ q ∉ before c ++ after c) /\
  (forall q, q ∈ b -> q ∉ a ++ d).
Proof.
  intros Hnd.
  assert (Hp : before c ++ (a ++ x :: b ++ y :: d) ++ after c ≡ₚ x :: y :: b ++ (a ++ d) ++ before c ++ after c)
    by (rewrite <- !Permutation_middle; solve_Permutation).
  rewrite Hp in Hnd. apply NoDup_cons in Hnd as [Hx Hnd]. apply NoDup_cons in Hnd as [Hy Hnd].
  apply NoDup_app in Hnd as (Hb & Hbd & Hnd). apply NoDup_app in Hnd as (_ & Had & Hc).
  set_solver.
Qed.

Lemma above_or_zero L c a : ctx_repr L c a -> above c = 0 \/ above c <> 0 /\ c <> [].
Proof. destruct c as [| [] c]; [by left | |]; intros (H & _); by right. Qed.

(** Both rotations in one: the top node [y] with child [x]; [out] is the outer subtree of [x],
    [mid] moves over, [far] is the other subtree of [y]. *)
Definition two (rot : bool) (y x : Z) (out mid far : shape) : shape :=
  if rot then Node y (Node x out mid) far else Node y far (Node x mid out).
Definition two_rotated (rot : bool) (y x : Z) (out mid far : shape) : shape :=
  if rot then Node x out (Node y mid far) else Node x (Node y far mid) out.

Lemma two_addrs rot y x out mid far : addrs (two_rotated rot y x out mid far) = addrs (two rot y x out mid far).
Proof. destruct rot; cbn [two two_rotated addrs]; by rewrite <- !app_assoc. Qed.

Lemma rotated_holds rot t c y x out mid far lk nc :
  holds t (plug c (two rot y x out mid far)) ->
  holds (mk_tree (new_root c (root t) x) lk nc (rotated rot c y x (addr mid) (above c) (mem t)))
    (plug c (two_rotated rot y x out mid far)).
Proof.
  intros Hh. apply holds_split in Hh as (Hroot & Hrep & Hctx & Hnd). unfold holds. cbn [root mem].
  rewrite addrs_plug, two_addrs. split; [| split; [| done]].
  { destruct c as [| f c]; cbn [new_root]; [by destruct rot | rewrite Hroot; apply addr_plug]. }
  set (m := mem t) in *. set (a := if rot then addrs out else addrs far).
  set (d := if rot then addrs far else addrs out).
  assert (Hd : x <> y /\ x ∉ before c ++ after c /\ y ∉ before c ++ after c /\ NoDup (addrs mid) /\
    NoDup (before c ++ after c) /\
    (forall q, q ∈ a ++ addrs mid ++ d -> q <> x /\ q <> y /\ q ∉ before c ++ after c) /\
    (forall q, q ∈ addrs mid -> q ∉ a ++ d)).
  { destruct rot; cbn [two addrs] in Hnd.
    - rewrite <- (app_assoc (addrs out)) in Hnd. cbn [app] in Hnd. by apply parts_distinct in Hnd.
    - apply parts_distinct in Hnd. destruct Hnd as (? & ? & ? & ? & ? & Hq & ?).
      split; [congruence |]. do 4 (split; [done |]). split; [| done].
      intros q Hin. by destruct (Hq q Hin) as (? & ? & ?). }
  destruct Hd as (Hxy & Hxc & Hyc & Hmd & Hcd & Hq & Hmid).
  assert (HL : exists par yl yr xl xr, lnk m y = Some (par, yl, yr) /\ lnk m x = Some (y, xl, xr) /\
    par = above c /\ y <> 0 /\ x <> 0 /\ repr (lnk m) x out /\ repr (lnk m) x mid /\ repr (lnk m) y far /\
    (if rot then xl = addr out /\ yr = addr far else xr = addr out /\ yl = addr far)).
  { destruct rot; cbn [two repr addr] in Hrep.
    - destruct Hrep as (Hy & HLy & (Hx & HLx & H1 & H2) & H3). eexists _, _, _, _, _. by repeat split.
    - destruct Hrep as (Hy & HLy & H3 & (Hx & HLx & H2 & H1)). eexists _, _, _, _, _. by repeat split. }
  destruct HL as (par & yl & yr & xl & xr & Ly & Lx & -> & Hy0 & Hx0 & Rout & Rmid & Rfar & Hsides).
  assert (Hctx' : ctx_repr (lnk m) c y) by (by destruct rot). clear Hctx Hrep Hnd.
  assert (Hac : forall q, q <> 0 -> q ∉ before c ++ after c -> q <> above c).
  { intros q Hq0 Hqc ->. destruct c as [| f c]; [done |]. apply Hqc, above_in. done. }
  assert (Hmid0 : addr mid <> 0 -> addr mid ∈ addrs mid) by (destruct mid; cbn [addr addrs]; [done | set_solver]).
  destruct (rotated_links rot c y x (addr mid) (above c) m (above c) yl yr xl xr Hxy) as (Kx & Ky & Kmid & Kc & Kq);
    [by apply Hac | by apply Hac | | done | done |].
  { intros H0. specialize (Hmid0 H0). destruct (Hq (addr mid)) as (? & ? & ?); [set_solver |].
    split; [done |]. split; [done |]. by apply Hac. }
  set (L := lnk (rotated rot c y x (addr mid) (above c) m)) in *.
  (* a subtree that no pointer of the rotation touches *)
  assert (Hkeep : forall p s, repr (lnk m) p s -> (forall q, q ∈ addrs s -> q ∈ a ++ d) -> repr L p s).
  { intros p s Hs Hin. apply (repr_ext (lnk m)); [| done]. intros q Hqs.
    pose proof (repr_nonzero _ _ _ _ Hs Hqs) as Hq0. specialize (Hin q Hqs).
    destruct (Hq q) as (H1 & H2 & H3); [set_solver |].
    apply Kq; [done | done | | by apply Hac]. intros ->. apply (Hmid (addr mid)); [by apply Hmid0 | done]. }
  assert (Ro : repr L x out) by (apply Hkeep; [done | unfold a, d; destruct rot; set_solver]).
  assert (Rf : repr L y far) by (apply Hkeep; [done | unfold a, d; destruct rot; set_solver]).
  assert (Rm : repr L y mid).
  { destruct mid as [| q0 l0 r0] eqn:Em; [done |]. rewrite <- Em in *.
    apply (repr_reparent (lnk m) L x); [done | done | |].
    - intros l r Hl. rewrite Kmid, Hl; [done |]. rewrite Em in *. by destruct Rmid.
    - intros q Hqm Hqt. destruct (Hq q) as (H1 & H2 & H3); [set_solver |].
      apply Kq; [done | done | done |]. apply Hac; [| done]. by apply (repr_nonzero (lnk m) x mid). }
  rewrite repr_plug. split.
  { destruct rot; cbn [two_rotated repr addr]; destruct Hsides as [-> ->]; by repeat split. }
  assert (Ha : addr (two_rotated rot y x out mid far) = x) by (by destruct rot). rewrite Ha.
  destruct c as [| f c]; [done |]. apply (ctx_repoint (lnk m) L f c y); [done | done | |].
  - intros par l r Hl. change (frame_addr f) with (above (f :: c)) in *. rewrite Kc, Hl; [by destruct f | done |].
    intros E. destruct (Hq (addr mid)) as (_ & _ & H); [| apply H; rewrite <- E; by apply above_in].
    assert (addr mid <> 0) by (rewrite <- E; destruct f; by destruct Hctx'). set_solver.
  - intros q Hin Hqa. pose proof (ctx_nonzero _ _ _ _ Hctx' Hin) as Hq0.
    apply Kq; [by intros -> | by intros -> | | done]. intros ->.
    destruct (Hq (addr mid)) as (_ & _ & H); [| done]. set_solver.
Qed.

End Vad.
