(* ===== verification/VadSpec.v ===== *)
(** * What the VAD tree promises ([mm/vad.rs])

    The sorted ranges a tree of [Vad] holds, that insertion, removal and the searches keep to them
    whatever the balances are, when they return and when they do not, and the behaviour of whole
    histories of insertions and searches. *)

From Stdlib Require Import ZArith Lia Sorted.
From stdpp Require Import sorting.
From S2P Require Import Prelude Vad.

Module VadSpec.

Import Vad.

(** ** Balances *)

(** A node leans only towards a child it has. *)
Definition leaning (b : Z) (l r : shape) : Prop :=
  -1 <= b <= 1 /\ (b < 0 -> l <> Leaf) /\ (0 < b -> r <> Leaf).

Fixpoint poised (B : Z -> option Z) (s : shape) : Prop :=
  match s with
  | Leaf => True
  | Node p l r => (exists b, B p = Some b /\ leaning b l r) /\ poised B l /\ poised B r
  end.

(** The same along the way to the root, for a hole that is filled. *)
Fixpoint poised_ctx (B : Z -> option Z) (c : list frame) : Prop :=
  match c with
  | [] => True
  | InLeft p r :: c => (exists b, B p = Some b /\ -1 <= b <= 1 /\ (0 < b -> r <> Leaf)) /\ poised B r /\ poised_ctx B c
  | InRight p l :: c => (exists b, B p = Some b /\ -1 <= b <= 1 /\ (b < 0 -> l <> Leaf)) /\ poised B l /\ poised_ctx B c
  end.

Lemma poised_plug B c s : poised B (plug c s) -> poised B s /\ poised_ctx B c.
Proof.
  revert s. induction c as [| [p r | p l] c IH]; intros s; cbn [plug poised_ctx]; [done | |];
    intros (((b & Hb & Hl) & H1 & H2) & Hc)%IH; unfold leaning in Hl;
    (split; [done | split; [exists b; tauto | done]]).
Qed.

Lemma plug_poised B c s : s <> Leaf -> poised B s -> poised_ctx B c -> poised B (plug c s).
Proof.
  revert s. induction c as [| [p r | p l] c IH]; intros s Hs Hp; cbn [plug poised_ctx]; [done | |];
    intros ((b & Hb & Hl) & H1 & Hc); apply IH; try done; cbn [poised]; unfold leaning;
    (split; [exists b; tauto | done]).
Qed.

Lemma poised_ext B B' s : (forall q, q ∈ addrs s -> B' q = B q) -> poised B s -> poised B' s.
Proof.
  induction s as [| p l IHl r IHr]; [done |]. cbn [addrs poised]. intros H ((b & Hb & Hl) & H1 & H2).
  split; [exists b; rewrite H by set_solver; done |]. split; [apply IHl | apply IHr]; try done; set_solver.
Qed.

Lemma poised_ctx_ext B B' c : (forall q, q ∈ before c ++ after c -> B' q = B q) -> poised_ctx B c -> poised_ctx B' c.
Proof.
  induction c as [| [p r | p l] c IH]; [done | |]; cbn [before after poised_ctx]; intros H ((b & Hb & Hl) & H1 & H2);
    (split; [exists b; rewrite H by set_solver; done |]; split;
     [apply (poised_ext B); [set_solver | done] | apply IH; [set_solver | done]]).
Qed.

(** ** Ranges *)

Definition range (m : gmap Z VadEntry) (q : Z) : Z * Z :=
  match m !! q with Some e => (starting_vpn e, ending_vpn e) | None => (0, 0) end.

(** In order, not empty, and no two overlap. *)
Definition ordered (m : gmap Z VadEntry) (l : list Z) : Prop :=
  (forall q, q ∈ l -> (range m q).1 <= (range m q).2) /\
  StronglySorted (fun p q => (range m p).2 < (range m q).1) l.

Lemma range_same m m' q : contents <$> m' !! q = contents <$> m !! q -> range m' q = range m q.
Proof.
  unfold range, contents. destruct (m !! q) as [e |], (m' !! q) as [e' |]; cbn; try done. by intros [= -> -> _ _ _].
Qed.

Lemma sorted_impl {A} (R R' : A -> A -> Prop) l : (forall x y, x ∈ l -> y ∈ l -> R x y -> R' x y) ->
  StronglySorted R l -> StronglySorted R' l.
Proof.
  induction l as [| x l IH]; intros H Hs; [constructor |]. apply StronglySorted_cons in Hs as [Hx Hs].
  apply StronglySorted_cons. rewrite Forall_forall in *. split; [| apply IH; [set_solver | done]].
  intros y Hy. apply H; set_solver.
Qed.

Lemma ordered_ext m m' l : (forall q, q ∈ l -> range m' q = range m q) -> ordered m l -> ordered m' l.
Proof.
  intros H [H1 H2]. split; [intros q Hq; rewrite H by done; by apply H1 |].
  refine (sorted_impl _ _ _ _ H2). intros p q Hp Hq. by rewrite !H.
Qed.

Lemma ordered_app m l1 l2 : ordered m (l1 ++ l2) <->
  ordered m l1 /\ ordered m l2 /\ (forall p q, p ∈ l1 -> q ∈ l2 -> (range m p).2 < (range m q).1).
Proof. unfold ordered. rewrite StronglySorted_app. set_solver. Qed.

Lemma ordered_cons m p l : ordered m (p :: l) <->
  (range m p).1 <= (range m p).2 /\ ordered m l /\ (forall q, q ∈ l -> (range m p).2 < (range m q).1).
Proof. unfold ordered. rewrite StronglySorted_cons, Forall_forall. set_solver. Qed.

Lemma range_at m q e : m !! q = Some e -> range m q = (starting_vpn e, ending_vpn e).
Proof. intros H. unfold range. by rewrite H. Qed.

(** ** Sizes *)

Fixpoint height (s : shape) : nat :=
  match s with Leaf => O | Node _ l r => S (Nat.max (height l) (height r)) end.

Lemma height_addrs s : (height s <= length (addrs s))%nat.
Proof. induction s as [| p l IHl r IHr]; cbn [height addrs]; [lia |]. rewrite length_app. cbn [length]. lia. Qed.

Lemma repr_mem m par s q : repr (lnk m) par s -> q ∈ addrs s -> is_Some (m !! q).
Proof.
  revert par. induction s as [| p l IHl r IHr]; intros par; cbn [repr addrs]; [set_solver |].
  intros (_ & HL & Hl & Hr). apply lnk_some in HL as (e & He & _).
  rewrite elem_of_app, elem_of_cons. intros [H | [-> | H]]; [by apply (IHl p) | by exists e | by apply (IHr p)].
Qed.

Lemma nodup_size (m : gmap Z VadEntry) l : NoDup l -> (forall q, q ∈ l -> is_Some (m !! q)) -> (length l <= size m)%nat.
Proof.
  intros Hnd Hl. rewrite <- size_dom. rewrite <- (size_list_to_set (C := gset Z) l) by done.
  apply subseteq_size. intros q. rewrite elem_of_list_to_set, elem_of_dom. apply Hl.
Qed.

Lemma holds_size t s : holds t s -> (length (addrs s) <= size (mem t))%nat.
Proof. intros (_ & Hr & Hnd). apply nodup_size; [done |]. intros q Hq. by apply (repr_mem _ 0 s). Qed.

Lemma height_plug c s : (height s + length c <= length (addrs (plug c s)))%nat.
Proof.
  revert s. induction c as [| [p r | p l] c IH]; intros s; cbn [plug length].
  - pose proof (height_addrs s). lia.
  - specialize (IH (Node p s r)). cbn [height] in IH. lia.
  - specialize (IH (Node p l s)). cbn [height] in IH. lia.
Qed.

(** Entries never come or go but by allocation and release. *)
Lemma same_size m m' : same_contents m m' -> size m' = size m.
Proof.
  intros H. rewrite <- !size_dom. f_equal. apply set_eq. intros q. rewrite !elem_of_dom.
  specialize (H q). destruct (m !! q), (m' !! q); naive_solver.
Qed.

Lemma same_refl m : same_contents m m.
Proof. done. Qed.

Lemma same_trans m1 m2 m3 : same_contents m1 m2 -> same_contents m2 m3 -> same_contents m1 m3.
Proof. intros H1 H2 q. by rewrite H2, H1. Qed.

(** ** Insertion *)

Definition overlaps (m : gmap Z VadEntry) (p q : Z) : Prop :=
  (range m p).1 <= (range m q).2 /\ (range m q).1 <= (range m p).2.

(** The hole below [c] is the place of the range of [v]. *)
Definition fits (m : gmap Z VadEntry) (c : list frame) (v : Z) : Prop :=
  (forall q, q ∈ before c -> (range m q).2 < (range m v).1) /\
  (forall q, q ∈ after c -> (range m v).2 < (range m q).1).

Definition attached (f : frame) (v : Z) (m : gmap Z VadEntry) : gmap Z VadEntry :=
  alter (set_balance 0) v (alter (set_parent (frame_addr f)) v (repoint [f] v m)).

Lemma repr_top t c p l r : holds t (plug c (Node p l r)) ->
  p <> 0 /\ exists e, mem t !! p = Some e /\ parent e = above c /\ vleft e = addr l /\ vright e = addr r.
Proof.
  intros (_ & (Hp & HL & _) & _ & _)%holds_split. split; [done |]. by apply lnk_some.
Qed.

Lemma addr_leaf t c p l r : holds t (plug c (Node p l r)) ->
  (addr l = 0 <-> l = Leaf) /\ (addr r = 0 <-> r = Leaf).
Proof.
  intros (_ & (_ & _ & Hl & Hr) & _ & _)%holds_split.
  split; [destruct l as [| q ? ?] | destruct r as [| q ? ?]]; try done; cbn [repr addr] in *; split; try done; tauto.
Qed.

Lemma insert_loop_run fuel v ev t c sub :
  sub <> Leaf -> (height sub <= fuel)%nat -> holds t (plug c sub) -> mem t !! v = Some ev ->
  v ∉ addrs (plug c sub) -> ordered (mem t) (addrs (plug c sub)) -> (range (mem t) v).1 <= (range (mem t) v).2 ->
  fits (mem t) c v ->
  (insert_loop fuel v (addr sub) t = Done Err t /\ exists q, q ∈ addrs sub /\ overlaps (mem t) v q) \/
  (exists f c', plug c sub = plug (f :: c') Leaf /\ fits (mem t) (f :: c') v /\
     insert_loop fuel v (addr sub) t = Done Ok (on_mem (attached f v) t)).
Proof.
  revert c fuel. induction sub as [| p l IHl r IHr]; intros c fuel Hs Hf Hh Hv Hn Ho Hne Hfit; [done |].
  cbn [height] in Hf. destruct fuel as [| fuel]; [lia |]. cbn [insert_loop addr].
  pose proof (addr_leaf _ _ _ _ _ Hh) as [Zl Zr]. pose proof (repr_top _ _ _ _ _ Hh) as (Hp & e & He & _ & El & Er).
  rewrite (get_bind v _ t ev Hv), (get_bind p _ t e He), El, Er.
  assert (Rv : range (mem t) v = (starting_vpn ev, ending_vpn ev)) by (by apply range_at).
  assert (Rp : range (mem t) p = (starting_vpn e, ending_vpn e)) by (by apply range_at).
  assert (Hop := Ho). rewrite addrs_plug in Hop. cbn [addrs] in Hop.
  rewrite !ordered_app, ordered_cons in Hop. destruct Hop as (_ & ((_ & (Hpe & _ & Hpr) & Hlp) & _) & _).
  assert (Hvp : v <> p) by (intros ->; apply Hn; rewrite addrs_plug; cbn [addrs]; set_solver).
  rewrite Rv, Rp in *. cbn [fst snd] in *.
  destruct ((starting_vpn ev <=? ending_vpn e) && (starting_vpn e <=? ending_vpn ev)) eqn:Eo.
  { left. split; [done |]. exists p. split; [cbn [addrs]; set_solver |]. unfold overlaps. rewrite Rv, Rp. cbn. lia. }
  destruct (Z.ltb_spec (starting_vpn ev) (starting_vpn e)) as [Hlt | Hge].
  - assert (Hfit' : fits (mem t) (InLeft p r :: c) v).
    { destruct Hfit as [F1 F2]. split; cbn [before after]; [done |]. rewrite Rv in *. cbn [fst snd] in *.
      intros q. rewrite elem_of_cons, elem_of_app. intros [-> | [Hq | Hq]]; [rewrite Rp; cbn; lia | | by apply F2].
      specialize (Hpr q Hq). lia. }
    destruct (Z.eqb_spec (addr l) 0) as [E0 | E0].
    + right. apply Zl in E0 as ->. exists (InLeft p r), c. split; [done |]. split; [done |].
      by rewrite !put_bind by live.
    + destruct (IHl (InLeft p r :: c) fuel) as [[H1 (q & Hq & H2)] | H];
        [naive_solver | lia | done | done | done | done | cbn; lia | done | | by right].
      left. split; [done |]. exists q. split; [cbn [addrs]; set_solver | done].
  - assert (Hfit' : fits (mem t) (InRight p l :: c) v).
    { destruct Hfit as [F1 F2]. split; cbn [before after]; [| done]. rewrite Rv in *. cbn [fst snd] in *.
      intros q. rewrite !elem_of_app, list_elem_of_singleton.
      intros [Hq | [Hq | ->]]; [by apply F1 | | rewrite Rp; cbn; lia].
      specialize (Hlp q p Hq ltac:(set_solver)). rewrite Rp in Hlp. cbn in Hlp. lia. }
    destruct (Z.eqb_spec (addr r) 0) as [E0 | E0].
    + right. apply Zr in E0 as ->. exists (InRight p l), c. split; [done |]. split; [done |].
      by rewrite !put_bind by live.
    + destruct (IHr (InRight p l :: c) fuel) as [[H1 (q & Hq & H2)] | H];
        [naive_solver | lia | done | done | done | done | cbn; lia | done | | by right].
      left. split; [done |]. exists q. split; [cbn [addrs]; set_solver | done].
Qed.

Lemma attached_links f v m : frame_addr f <> v ->
  lnk (attached f v m) v = to_parent (frame_addr f) <$> lnk m v /\
  (forall q, q <> v -> lnk (attached f v m) q = lnk (repoint [f] v m) q).
Proof.
  intros Hf. unfold attached. split.
  - rewrite lnk_balance, lnk_parent. f_equal. apply lnk_repoint_ne. by destruct f; cbn in *; apply not_eq_sym.
  - intros q Hq. by rewrite lnk_balance, lnk_ne.
Qed.

Lemma attached_contents f v m : same_contents m (attached f v m).
Proof. intros q. unfold attached, repoint. destruct f; by rewrite !contents_alter. Qed.

Lemma attached_balance f v m q : is_Some (m !! v) ->
  bal (attached f v m) q = if decide (q = v) then Some 0 else bal m q.
Proof.
  intros Hv. unfold attached. rewrite bal_alter. destruct (decide (q = v)) as [-> | Hq].
  - destruct (alter_some (set_parent (frame_addr f)) (repoint [f] v m) v v) as [e ->]; [by apply repoint_some | done].
  - rewrite bal_alter, decide_False by done. unfold repoint. destruct f as [p r | p l]; rewrite bal_alter;
      (destruct (decide (q = p)) as [-> |]; [| done]); unfold bal; by destruct (m !! p).
Qed.

Lemma attached_holds t f c v pv : holds t (plug (f :: c) Leaf) -> v ∉ addrs (plug (f :: c) Leaf) -> v <> 0 ->
  lnk (mem t) v = Some (pv, 0, 0) -> holds (on_mem (attached f v) t) (plug (f :: c) (Node v Leaf Leaf)).
Proof.
  intros Hh Hn Hv Hl. apply holds_split in Hh as (Hroot & _ & Hctx & Hnd). rewrite addrs_plug in Hn.
  cbn [addrs app addr] in *. unfold holds. cbn [on_mem root mem]. rewrite addrs_plug. cbn [addrs app].
  split; [by rewrite Hroot; apply addr_plug |]. split.
  2:{ rewrite <- Permutation_middle. by apply NoDup_cons. }
  assert (Hf : frame_addr f <> v) by (intros <-; apply Hn, (above_in (f :: c)); done).
  destruct (attached_links f v (mem t) Hf) as [Kv Kq].
  rewrite repr_plug. cbn [repr addr]. rewrite Kv, Hl. split; [done |].
  apply (ctx_repoint (lnk (mem t)) _ f c 0); [done | done | |].
  - intros par l r HL. rewrite Kq by done.
    replace (frame_addr f) with (above [f]) by done. rewrite lnk_repoint by done. cbn [above].
    rewrite HL. by destruct f.
  - intros q Hq Hqf. rewrite Kq by set_solver. by apply lnk_repoint_ne.
Qed.

(** ** Rotations, seen from outside *)

(** Everything but the shape, the pointers and the balances. *)
Definition same_state (t t' : VadTree) : Prop :=
  same_contents (mem t) (mem t') /\ locked t' = locked t /\ node_count t' = node_count t.

Lemma same_state_trans t1 t2 t3 : same_state t1 t2 -> same_state t2 t3 -> same_state t1 t3.
Proof. intros (? & ? & ?) (? & ? & ?). split; [by eapply same_trans | split; congruence]. Qed.

Definition zeroed (x y : Z) (t t' : VadTree) : Prop :=
  forall q, bal (mem t') q = if decide (q = x \/ q = y) then Some 0 else bal (mem t) q.

Definition rotate (rot : bool) : Z -> op () := if rot then rotate_right else rotate_left.

Lemma rotate_two rot t c y x out mid far : holds t (plug c (two rot y x out mid far)) -> locked t = false ->
  exists t', rotate rot y t = Done tt t' /\ holds t' (plug c (two_rotated rot y x out mid far)) /\
    same_state t t' /\ zeroed x y t t'.
Proof.
  intros Hh Hl. assert (is_Some (mem t !! x) /\ is_Some (mem t !! y)) as [Sx Sy].
  { destruct Hh as (_ & Hr & _). split; apply (repr_mem _ _ _ _ Hr); rewrite addrs_plug;
      destruct rot; cbn [two addrs]; set_solver. }
  eexists. split; [| split; [apply rotated_holds, Hh |]].
  - destruct rot; [eapply rotate_right_run | eapply rotate_left_run]; done.
  - split; [split; [apply rotated_contents | done] |]. intros q. cbn [mem]. by apply rotated_balance.
Qed.

(** A double rotation: [g] below [ch] below [n] comes out on top. *)
Definition rotate_twice (rot : bool) : Z -> op () := if rot then rotate_left_right else rotate_right_left.

Definition kid (rot : bool) (p : Z) (outer inner : shape) : shape :=
  if rot then Node p outer inner else Node p inner outer.

Definition three (rot : bool) (n ch g : Z) (a b d far : shape) : shape := two rot n ch a (kid rot g b d) far.
Definition three_rotated (rot : bool) (n ch g : Z) (a b d far : shape) : shape :=
  two_rotated rot n g (kid rot ch a b) d far.

Lemma three_addrs rot n ch g a b d far : addrs (three_rotated rot n ch g a b d far) = addrs (three rot n ch g a b d far).
Proof.
  unfold three_rotated, three. rewrite two_addrs.
  destruct rot; cbn [two kid addrs]; repeat (rewrite <- ?app_assoc; cbn [app]); done.
Qed.

Lemma put_balance p v t c s : holds t (plug c s) -> p ∈ addrs (plug c s) ->
  exists t', put p (set_balance v) t = Done tt t' /\ holds t' (plug c s) /\ same_state t t' /\
    forall q, bal (mem t') q = if decide (q = p) then Some v else bal (mem t) q.
Proof.
  intros (Hr & Hrep & Hnd) Hp. pose proof (repr_mem _ _ _ _ Hrep Hp) as Sp. eexists. split; [by apply put_run |].
  split; [| split].
  - split; [done | split; [| done]]. apply (repr_ext (lnk (mem t))); [| done]. intros q _. apply lnk_balance.
  - split; [intros q; by apply contents_alter | done].
  - intros q. cbn [on_mem mem]. rewrite bal_alter. destruct (decide (q = p)); [| done]. by destruct Sp as [ep ->].
Qed.

Lemma rotate_three rot t c n ch g a b d far cb : holds t (plug c (three rot n ch g a b d far)) -> locked t = false ->
  bal (mem t) ch = Some cb ->
  exists t', rotate_twice rot n t = Done tt t' /\ holds t' (plug c (three_rotated rot n ch g a b d far)) /\
    same_state t t' /\
    forall q, q <> n \/ cb <> (if rot then -1 else 1) ->
      bal (mem t') q = if decide (q ∈ [n; ch; g]) then Some 0 else bal (mem t) q.
Proof.
  intros Hh Hl Hb.
  assert (exists en ec, mem t !! n = Some en /\ mem t !! ch = Some ec /\ balance_factor ec = cb /\
    (if rot then vleft en else vright en) = ch) as (en & ec & En & Ec & Eb & Ech).
  { destruct (repr_top t c n (if rot then kid rot ch a (kid rot g b d) else far)
      (if rot then far else kid rot ch a (kid rot g b d))) as (_ & en & En & _ & El & Er); [by destruct rot |].
    unfold bal in Hb. destruct (mem t !! ch) as [ec |] eqn:Ec; [| done]. injection Hb as <-.
    exists en, ec. repeat split; try done. by destruct rot. }
  destruct (rotate_two (negb rot) t ((if rot then InLeft n far else InRight n far) :: c) ch g d b a)
    as (t1 & R1 & H1 & S1 & Z1); [by destruct rot | done |].
  destruct (rotate_two rot t1 c n g (kid rot ch a b) d far) as (t2 & R2 & H2 & S2 & Z2);
    [by destruct rot | by destruct S1 as (_ & -> & _) |].
  assert (S12 := same_state_trans _ _ _ S1 S2).
  assert (Hn : n ∈ addrs (plug c (three_rotated rot n ch g a b d far))).
  { rewrite addrs_plug. unfold three_rotated. rewrite two_addrs. destruct rot; cbn; set_solver. }
  destruct (put_balance n (if rot then 1 else -1) t2 c _ H2 Hn) as (t3 & R3 & H3 & S3 & Z3).
  assert (Hb2 : forall q, bal (mem t2) q = if decide (q ∈ [n; ch; g]) then Some 0 else bal (mem t) q).
  { intros q. rewrite Z2, Z1. destruct (decide (q = g \/ q = n)), (decide (q = g \/ q = ch)), (decide (q ∈ [n; ch; g]));
      done || set_solver. }
  exists (if decide (cb = if rot then -1 else 1) then t3 else t2).
  destruct (decide (cb = if rot then -1 else 1)) as [Ecb | Ecb].
  - split; [| split; [done | split; [by eapply same_state_trans |]]].
    + destruct rot; unfold rotate_twice, rotate_left_right, rotate_right_left;
        rewrite (get_bind n _ t en En), Ech, (get_bind ch _ t ec Ec), (bind_done _ _ t tt t1 R1),
          (bind_done _ _ t1 tt t2 R2), Eb, Ecb; done.
    + intros q [Hq | Hq]; [| done]. by rewrite Z3, decide_False.
  - split; [| split; [done | split; [done |]]].
    + destruct rot; unfold rotate_twice, rotate_left_right, rotate_right_left;
        rewrite (get_bind n _ t en En), Ech, (get_bind ch _ t ec Ec), (bind_done _ _ t tt t1 R1),
          (bind_done _ _ t1 tt t2 R2), Eb, (proj2 (Z.eqb_neq _ _) Ecb); done.
    + intros q _. apply Hb2.
Qed.

(** *** Balances after a rotation *)

Definition zeroes (zs : list Z) (B B' : Z -> option Z) : Prop :=
  forall q, B' q = if decide (q ∈ zs) then Some 0 else B q.

Definition agree_off (zs : list Z) (B B' : Z -> option Z) : Prop := forall q, q ∉ zs -> B' q = B q.

Lemma zeroes_off zs B B' : zeroes zs B B' -> agree_off zs B B'.
Proof. intros Hz q Hq. by rewrite Hz, decide_False. Qed.

Lemma poised_off zs B B' s : agree_off zs B B' -> (forall q, q ∈ addrs s -> q ∉ zs) -> poised B s -> poised B' s.
Proof. intros Hz Hs. apply poised_ext. intros q Hq. by apply Hz, Hs. Qed.

Lemma poised_ctx_off zs B B' c : agree_off zs B B' -> (forall q, q ∈ before c ++ after c -> q ∉ zs) ->
  poised_ctx B c -> poised_ctx B' c.
Proof. intros Hz Hs. apply poised_ctx_ext. intros q Hq. by apply Hz, Hs. Qed.

Lemma poised_zero zs B B' p l r : zeroes zs B B' -> p ∈ zs -> poised B' l -> poised B' r -> poised B' (Node p l r).
Proof.
  intros Hz Hp Hl Hr. cbn [poised]. split; [| done]. exists 0. rewrite Hz, decide_True by done.
  split; [done |]. unfold leaning. lia.
Qed.

(** The nodes [zs] of a subtree in [c] leave the parts [parts]. *)
Lemma poised_parts zs B B' c s parts : agree_off zs B B' -> NoDup (before c ++ addrs s ++ after c) ->
  addrs s ≡ₚ zs ++ (parts ≫= addrs) -> Forall (poised B) parts -> poised_ctx B c ->
  Forall (poised B') parts /\ poised_ctx B' c.
Proof.
  intros Hz Hnd Hp Hs Hc. rewrite Hp in Hnd.
  assert (Hoff : forall q, q ∈ (parts ≫= addrs) ++ before c ++ after c -> q ∉ zs).
  { apply NoDup_app in Hnd as (_ & Hd & Hnd). rewrite <- app_assoc in Hnd.
    apply NoDup_app in Hnd as (_ & Hd' & _). set_solver. }
  split; [| apply (poised_ctx_off zs B); [done | set_solver | done]].
  rewrite Forall_forall in *. intros s' Hs'. apply (poised_off zs B); [done | | by apply Hs].
  intros q Hq. apply Hoff. rewrite elem_of_app, list_elem_of_bind. left. by exists s'.
Qed.

Lemma poised_two rot B B' c y x out mid far :
  zeroes [x; y] B B' -> NoDup (before c ++ addrs (two rot y x out mid far) ++ after c) ->
  Forall (poised B) [out; mid; far] -> poised_ctx B c -> poised B' (plug c (two_rotated rot y x out mid far)).
Proof.
  intros Hz Hnd Hs Hc. destruct (poised_parts [x; y] B B' c _ [out; mid; far] (zeroes_off _ _ _ Hz) Hnd) as [Hs' Hc']; [| done.. |].
  { destruct rot; cbn [two addrs mbind list_bind app]; rewrite <- !Permutation_middle; cbn [app];
      solve_Permutation. }
  rewrite !Forall_cons in Hs'. destruct Hs' as (H1 & H2 & H3 & _). apply plug_poised; [by destruct rot | | done].
  destruct rot; by repeat (apply (poised_zero [x; y] B); [done | set_solver | ..]).
Qed.

Lemma poised_three rot B B' c n ch g a b d far :
  zeroes [n; ch; g] B B' -> NoDup (before c ++ addrs (three rot n ch g a b d far) ++ after c) ->
  Forall (poised B) [a; b; d; far] -> poised_ctx B c -> poised B' (plug c (three_rotated rot n ch g a b d far)).
Proof.
  intros Hz Hnd Hs Hc.
  destruct (poised_parts [n; ch; g] B B' c _ [a; b; d; far] (zeroes_off _ _ _ Hz) Hnd) as [Hs' Hc']; [| done.. |].
  { destruct rot; cbn [three two kid addrs mbind list_bind app]; rewrite <- !Permutation_middle; cbn [app];
      solve_Permutation. }
  rewrite !Forall_cons in Hs'. destruct Hs' as (H1 & H2 & H3 & H4 & _). apply plug_poised; [by destruct rot | | done].
  destruct rot; by repeat (apply (poised_zero [n; ch; g] B); [done | set_solver | ..]).
Qed.

(** *** Rebalancing one node *)

Definition rebalance (rot : bool) : Z -> op () := if rot then rebalance_left else rebalance_right.

Lemma kid_top rot t c p near far : holds t (plug c (kid rot p near far)) ->
  p <> 0 /\ exists e, mem t !! p = Some e /\ parent e = above c /\ (if rot then vleft e else vright e) = addr near.
Proof. destruct rot; intros (Hp & e & He & Ep & El & Er)%repr_top; split; eauto. Qed.

Lemma get_null {A} (k : VadEntry -> op A) t : mem t !! 0 = None -> (get 0 ≫= k) t = Fault BadPointer.
Proof. intros H. unfold mbind, op_bind, get. by rewrite H. Qed.

Lemma rotate_null rot t c p far : holds t (plug c (kid rot p Leaf far)) -> mem t !! 0 = None ->
  rotate rot p t = Fault BadPointer.
Proof.
  intros (Hp & e & He & Ep & El)%kid_top H0.
  destruct rot; cbn [rotate]; unfold rotate_right, rotate_left, rotate_right_body, rotate_left_body;
    rewrite (get_bind p _ t e He), El; by apply get_null.
Qed.

Lemma bind_fault {A B} (m : op A) (k : A -> op B) t f : m t = Fault f -> (m ≫= k) t = Fault f.
Proof. intros H. unfold mbind, op_bind. by rewrite H. Qed.

(** The heavy side needs a child, and an inner grandchild when that child leans inwards. *)
Lemma rotate_twice_null rot t c p x out far : holds t (plug c (kid rot p (kid rot x out Leaf) far)) ->
  mem t !! 0 = None -> rotate_twice rot p t = Fault BadPointer.
Proof.
  intros Hh H0. destruct (kid_top _ _ _ _ _ _ Hh) as (Hp & e & He & Ep & El).
  destruct (kid_top rot t ((if rot then InLeft p far else InRight p far) :: c) x out Leaf) as (Hx & ex & Hex & _);
    [by destruct rot |].
  assert (Hr : rotate (negb rot) x t = Fault BadPointer).
  { apply (rotate_null _ _ ((if rot then InLeft p far else InRight p far) :: c) x out); [by destruct rot | done]. }
  destruct rot; cbn [rotate_twice]; unfold rotate_left_right, rotate_right_left;
    rewrite (get_bind p _ t e He), El; cbn [kid addr]; rewrite (get_bind x _ t ex Hex); by apply bind_fault.
Qed.

Lemma shape_kid rot s : s = Leaf \/ exists x out mid, s = kid rot x out mid.
Proof. destruct s as [| q l r]; [by left |]. right. exists q. destruct rot; eauto. Qed.

(** The frame of the heavy child. *)
Definition heavy (rot : bool) (p : Z) (far : shape) : frame := if rot then InLeft p far else InRight p far.

Lemma plug_heavy rot p far c s : plug (heavy rot p far :: c) s = plug c (kid rot p s far).
Proof. by destruct rot. Qed.

Definition inwards (rot : bool) (b : Z) : bool := if rot then negb (b <=? 0) else negb (0 <=? b).

Lemma rebalance_step rot t c p x out mid far ex : holds t (plug c (kid rot p (kid rot x out mid) far)) ->
  mem t !! x = Some ex ->
  rebalance rot p t = (if inwards rot (balance_factor ex) then rotate_twice rot p else rotate rot p) t.
Proof.
  intros Hh Hex. destruct (kid_top _ _ _ _ _ _ Hh) as (Hp & e & He & Ep & El).
  rewrite <- plug_heavy in Hh. destruct (kid_top _ _ _ _ _ _ Hh) as (Hx & _).
  assert (Ha : addr (kid rot x out mid) = x) by (by destruct rot). rewrite Ha in *.
  destruct rot; cbn [rebalance inwards]; unfold rebalance_left, rebalance_right;
    rewrite (get_bind p _ t e He), El, (proj2 (Z.eqb_neq _ _) Hx), (get_bind x _ t ex Hex); by case_match.
Qed.

Lemma rebalance_null rot t c p far : holds t (plug c (kid rot p Leaf far)) -> mem t !! 0 = None ->
  rebalance rot p t = Fault BadPointer.
Proof.
  intros (Hp & e & He & Ep & El)%kid_top H0.
  destruct rot; cbn [rebalance addr] in *; unfold rebalance_left, rebalance_right;
    rewrite (get_bind p _ t e He), El, Z.eqb_refl; unfold rotate_left_right, rotate_right_left;
    rewrite (get_bind p _ t e He), El; by apply get_null.
Qed.

Lemma rebalance_run rot t c p near far : holds t (plug c (kid rot p near far)) -> locked t = false -> mem t !! 0 = None ->
  match rebalance rot p t with
  | Done _ t' =>
      exists s', holds t' (plug c s') /\ addrs s' = addrs (kid rot p near far) /\ same_state t t' /\
        (Forall (poised (bal (mem t))) [near; far] -> poised_ctx (bal (mem t)) c -> poised (bal (mem t')) (plug c s'))
  | Fault f => f = BadPointer /\ ~ (near <> Leaf /\ poised (bal (mem t)) near)
  end.
Proof.
  intros Hh Hl H0.
  assert (Hnd : NoDup (before c ++ addrs (kid rot p near far) ++ after c)) by (by apply holds_split in Hh as (_ & _ & _ & H)).
  destruct (shape_kid rot near) as [-> | (x & out & mid & ->)].
  { rewrite (rebalance_null rot t c p far) by done. split; [done |]. by intros [? _]. }
  assert (Hh' := Hh). rewrite <- plug_heavy in Hh'. destruct (kid_top _ _ _ _ _ _ Hh') as (Hx & ex & Hex & _). clear Hh'.
  assert (Eb : bal (mem t) x = Some (balance_factor ex)) by (unfold bal; by rewrite Hex).
  rewrite (rebalance_step rot t c p x out mid far ex Hh Hex). destruct (inwards rot (balance_factor ex)) eqn:Ec.
  - destruct (shape_kid rot mid) as [-> | (g & b & d & ->)].
    { rewrite (rotate_twice_null rot t c p x out far) by done. split; [done |]. intros [_ Hp].
      destruct rot; cbn [kid poised inwards] in *; destruct Hp as ((b & Hb & Hlean) & _);
        rewrite Eb in Hb; injection Hb as <-; destruct Hlean as (_ & HL & HR); [apply HR; [lia | done] | apply HL; [lia | done]]. }
    destruct (rotate_three rot t c p x g out b d far (balance_factor ex)) as (t' & -> & H1 & H2 & H3);
      [by destruct rot | done | done |].
    exists (three_rotated rot p x g out b d far). split; [done |].
    split; [rewrite three_addrs; by destruct rot |].
    split; [done |]. rewrite !Forall_cons. intros (Pn & Pf & _) Pc.
    apply (poised_three rot (bal (mem t))); [| by destruct rot | | done].
    + intros q. apply H3. right. destruct rot; cbn [inwards] in Ec; lia.
    + rewrite !Forall_cons. destruct rot; cbn [kid poised] in Pn; naive_solver.
  - destruct (rotate_two rot t c p x out mid far) as (t' & -> & H1 & H2 & H3); [by destruct rot | done |].
    exists (two_rotated rot p x out mid far). split; [done |]. split; [rewrite two_addrs; by destruct rot |].
    split; [done |]. rewrite !Forall_cons. intros (Pn & Pf & _) Pc.
    apply (poised_two rot (bal (mem t))); [| by destruct rot | | done].
    + intros q. rewrite H3. destruct (decide (q = x \/ q = p)), (decide (q ∈ [x; p])); set_solver.
    + rewrite !Forall_cons. destruct rot; cbn [kid poised] in Pn; naive_solver.
Qed.

(** ** Going up after an insertion *)

Definition delta (rot : bool) : Z := if rot then -1 else 1.

Lemma frame_heavy f : exists rot p far, f = heavy rot p far.
Proof. destruct f as [p r | p l]; [by exists true, p, r | by exists false, p, l]. Qed.

Lemma heavy_addr rot p far : frame_addr (heavy rot p far) = p.
Proof. by destruct rot. Qed.

Lemma addr_nonzero t c s : holds t (plug c s) -> s <> Leaf -> addr s <> 0 /\ addr s ∈ addrs s.
Proof.
  intros (_ & Hr & _ & _)%holds_split. destruct s as [| p l r]; [done |]. intros _. destruct Hr as [Hp _].
  split; [done |]. cbn [addr addrs]. set_solver.
Qed.

Lemma tilt_run rot p far c sub t b : holds t (plug (heavy rot p far :: c) sub) -> sub <> Leaf -> bal (mem t) p = Some b ->
  exists t', tilt (addr sub) p t = Done (add_i8 b (delta rot)) t' /\ holds t' (plug (heavy rot p far :: c) sub) /\
    same_state t t' /\
    forall q, bal (mem t') q = if decide (q = p) then Some (add_i8 b (delta rot)) else bal (mem t) q.
Proof.
  intros Hh Hs Hb. destruct (addr_nonzero _ _ _ Hh Hs) as [Ha Hin].
  assert (Hk := Hh). rewrite plug_heavy in Hk.
  assert (Hp : p ∈ addrs (plug (heavy rot p far :: c) sub)).
  { rewrite plug_heavy, addrs_plug. destruct rot; cbn [kid addrs]; set_solver. }
  destruct (put_balance p (add_i8 b (delta rot)) t _ _ Hh Hp) as (t' & R & H1 & H2 & H3).
  exists t'. split; [| done]. unfold tilt.
  assert (exists e, mem t !! p = Some e /\ balance_factor e = b /\ (if addr sub =? vleft e then -1 else 1) = delta rot)
    as (e & He & Eb & Ed).
  { unfold bal in Hb. destruct (mem t !! p) as [e |] eqn:He; [| done]. exists e. split; [done |].
    split; [by injection Hb |]. apply holds_split in Hk as (_ & Hr & _ & Hnd).
    destruct rot; cbn [kid repr addrs] in Hr, Hnd; destruct Hr as (_ & HL & _); unfold lnk in HL; rewrite He in HL;
      cbn in HL; injection HL as _ -> _; [by rewrite Z.eqb_refl |].
    rewrite (proj2 (Z.eqb_neq _ _)); [done |]. intros E.
    apply NoDup_app in Hnd as (_ & _ & Hnd). apply NoDup_app in Hnd as (Hnd & _ & _).
    apply NoDup_app in Hnd as (_ & Hd & _). apply (Hd (addr sub)); [| set_solver].
    rewrite E. destruct far; [by rewrite E in Ha |]. cbn [addr addrs]. set_solver. }
  rewrite (get_bind p _ t e He), Eb, Ed, (bind_done _ _ t tt t' R).
  specialize (H3 p). rewrite decide_True in H3 by done. unfold bal in H3.
  destruct (mem t' !! p) as [e' |] eqn:He'; [| done]. injection H3 as H3.
  rewrite (get_bind p _ t' e' He'), H3. done.
Qed.

(** What going up gives: the same sequence of nodes, or a null pointer that only a node leaning to a
    missing child allows. *)
Definition climbs (r : run ()) (t : VadTree) (s : shape) : Prop :=
  match r with
  | Done _ t' => exists s', holds t' s' /\ addrs s' = addrs s /\ same_state t t' /\
      (poised (bal (mem t)) s -> poised (bal (mem t')) s')
  | Fault f => f = BadPointer /\ ~ poised (bal (mem t)) s
  end.

Lemma climbs_mono r t t' s : same_state t t' -> (poised (bal (mem t)) s -> poised (bal (mem t')) s) ->
  climbs r t' s -> climbs r t s.
Proof.
  intros Hs Hp. destruct r as [[] t2 | f]; cbn [climbs].
  - intros (s' & H1 & H2 & H3 & H4). exists s'. split; [done |]. split; [done |].
    split; [by eapply same_state_trans | tauto].
  - tauto.
Qed.

Lemma rebalance_climbs rot t t0 c p near far : let s := plug c (kid rot p near far) in
  holds t s -> locked t = false -> mem t !! 0 = None -> same_state t0 t ->
  (poised (bal (mem t0)) s ->
     near <> Leaf /\ Forall (poised (bal (mem t))) [near; far] /\ poised_ctx (bal (mem t)) c) ->
  climbs (rebalance rot p t) t0 s.
Proof.
  intros s Hh Hl H0 Hs Hb. pose proof (rebalance_run rot t c p near far Hh Hl H0) as Hr.
  destruct (rebalance rot p t) as [[] t' | f]; cbn [climbs].
  - destruct Hr as (s' & H1 & H2 & H3 & H4). exists (plug c s'). split; [done |].
    split; [unfold s; by rewrite !addrs_plug, H2 |]. split; [by eapply same_state_trans |].
    intros (_ & P1 & P2)%Hb. by apply H4.
  - destruct Hr as [-> Hr]. split; [done |]. intros (P0 & P1 & P2)%Hb. apply Hr. split; [done |].
    by apply Forall_cons in P1 as [? _].
Qed.

(** After the balance of [p] alone changed. *)
Lemma poised_tilted rot B B' c p sub far b' : poised B (plug c (kid rot p sub far)) -> sub <> Leaf ->
  NoDup (before c ++ addrs (kid rot p sub far) ++ after c) -> agree_off [p] B B' -> B' p = Some b' ->
  (exists b, B p = Some b /\ -1 <= b <= 1) /\ Forall (poised B') [sub; far] /\ poised_ctx B' c /\
  (b' = 0 \/ b' = delta rot -> poised B' (plug c (kid rot p sub far))).
Proof.
  intros [Hp Hc]%poised_plug Hs Hnd Hoff Hb'.
  assert (Hpp : (exists b, B p = Some b /\ -1 <= b <= 1) /\ Forall (poised B) [sub; far]).
  { destruct rot; cbn [kid poised] in Hp; destruct Hp as ((b & Hb & Hlean & _) & P1 & P2);
      (split; [by exists b | by apply Forall_cons; split; [| apply Forall_cons; split; [| apply Forall_nil]]]). }
  destruct Hpp as [H1 H2].
  destruct (poised_parts [p] B B' c _ [sub; far] Hoff Hnd) as [Hs' Hc']; [| done.. |].
  { destruct rot; cbn [kid addrs mbind list_bind app]; rewrite <- !Permutation_middle; cbn [app]; solve_Permutation. }
  split; [done |]. split; [done |]. split; [done |]. intros Hd. apply plug_poised; [by destruct rot | | done].
  rewrite !Forall_cons in Hs'. destruct Hs' as (S1 & S2 & _). unfold delta in Hd.
  destruct rot; cbn [kid poised]; (split; [| done]); exists b'; unfold leaning; (split; [done |]);
    destruct Hd; (split; [lia |]); split; intros; try lia; done.
Qed.

Lemma add_i8_small a b : -64 <= a <= 63 -> -64 <= b <= 64 -> add_i8 a b = a + b.
Proof. intros. unfold add_i8. rewrite Z.mod_small by lia. lia. Qed.

Lemma insert_up_run fuel t c sub : sub <> Leaf -> (length c <= fuel)%nat -> holds t (plug c sub) ->
  locked t = false -> mem t !! 0 = None -> climbs (insert_up fuel (addr sub) (above c) t) t (plug c sub).
Proof.
  revert fuel t sub. induction c as [| f c IH]; intros fuel t sub Hs Hf Hh Hl H0.
  { assert (insert_up fuel (addr sub) (above []) t = Done tt t) as -> by (by destruct fuel).
    exists (plug [] sub). split; [done |]. split; [done |]. done. }
  cbn [length] in Hf. destruct fuel as [| fuel]; [lia |]. destruct (frame_heavy f) as (rot & p & far & ->).
  cbn [above]. rewrite heavy_addr. assert (Hk := Hh). rewrite plug_heavy in Hk.
  destruct (kid_top _ _ _ _ _ _ Hk) as (Hp & e & He & Ep & El).
  assert (Hb : bal (mem t) p = Some (balance_factor e)) by (unfold bal; by rewrite He).
  destruct (tilt_run rot p far c sub t _ Hh Hs Hb) as (t1 & R1 & H1 & S1 & B1).
  set (b' := add_i8 (balance_factor e) (delta rot)) in *.
  assert (H1k := H1). rewrite plug_heavy in H1k.
  assert (Hl1 : locked t1 = false) by (by destruct S1 as (_ & -> & _)).
  assert (H01 : mem t1 !! 0 = None) by (destruct S1 as (Hc & _); specialize (Hc 0); rewrite H0 in Hc; by destruct (mem t1 !! 0)).
  assert (Hnd : NoDup (before c ++ addrs (kid rot p sub far) ++ after c)) by (by apply holds_split in Hk as (_ & _ & _ & H)).
  assert (Hpo : poised (bal (mem t)) (plug c (kid rot p sub far)) ->
    -1 <= balance_factor e <= 1 /\ Forall (poised (bal (mem t1))) [sub; far] /\ poised_ctx (bal (mem t1)) c /\
    (b' = 0 \/ b' = delta rot -> poised (bal (mem t1)) (plug c (kid rot p sub far)))).
  { intros Hpo. destruct (poised_tilted rot _ (bal (mem t1)) c p sub far b' Hpo Hs Hnd) as ((b & Eb & Hbb) & H2 & H3 & H4).
    - intros q Hq. rewrite B1, decide_False; [done | set_solver].
    - by rewrite B1, decide_True.
    - rewrite Hb in Eb. by injection Eb as <-. }
  rewrite plug_heavy. cbn [insert_up]. rewrite (proj2 (Z.eqb_neq _ _) Hp), (bind_done _ _ t b' t1 R1).
  destruct (Z.eqb_spec b' 0) as [E0 | E0].
  { exists (plug c (kid rot p sub far)). split; [done |]. split; [done |]. split; [done |]. intros HH. apply Hpo; tauto. }
  assert (Hrange : poised (bal (mem t)) (plug c (kid rot p sub far)) -> b' = 2 * delta rot \/ b' = delta rot).
  { intros (Hr & _)%Hpo. unfold b', delta in *. rewrite add_i8_small in * by (destruct rot; lia). destruct rot; lia. }
  assert (Hturn : forall side, b' = 2 * delta side -> climbs (rebalance side p t1) t (plug c (kid rot p sub far))).
  { intros side Hside. destruct (decide (side = rot)) as [-> | Hsr].
    - apply rebalance_climbs; try done. intros (_ & ? & ? & _)%Hpo. done.
    - replace (kid rot p sub far) with (kid side p far sub) in * by (by destruct side, rot).
      apply rebalance_climbs; try done. intros HH. exfalso. destruct (Hrange HH), side, rot; cbn [delta] in *; lia || done. }
  destruct (Z.eqb_spec b' (-2)) as [E2 | E2]; [by apply (Hturn true) |].
  destruct (Z.eqb_spec b' 2) as [E3 | E3]; [by apply (Hturn false) |].
  destruct (kid_top _ _ _ _ _ _ H1k) as (_ & e1 & He1 & Ep1 & _).
  rewrite (get_bind p _ t1 e1 He1), Ep1.
  assert (Ha : addr (kid rot p sub far) = p) by (by destruct rot). rewrite <- Ha at 1.
  apply (climbs_mono _ t t1); [done | |].
  - intros HH. apply Hpo; [done |]. right. destruct (Hrange HH) as [E |]; [| done]. destruct rot; cbn [delta] in E; lia.
  - apply IH; try done; [by destruct rot | lia].
Qed.

(** ** Well-formed trees *)

Definition wf (t : VadTree) (s : shape) : Prop :=
  holds t s /\ locked t = false /\ mem t !! 0 = None /\ ordered (mem t) (addrs s).

(** An entry as [allocate_vad] leaves it. *)
Definition fresh (t : VadTree) (s : shape) (v : Z) : Prop :=
  v ∉ addrs s /\ (range (mem t) v).1 <= (range (mem t) v).2 /\ exists pv, lnk (mem t) v = Some (pv, 0, 0).

Lemma same_null m m' : same_contents m m' -> m !! 0 = None -> m' !! 0 = None.
Proof. intros Hc H0. specialize (Hc 0). rewrite H0 in Hc. by destruct (m' !! 0). Qed.

Lemma same_range m m' q : same_contents m m' -> range m' q = range m q.
Proof. intros H. apply range_same, H. Qed.

Lemma ordered_insert m l1 l2 v : ordered m (l1 ++ l2) -> (range m v).1 <= (range m v).2 ->
  (forall q, q ∈ l1 -> (range m q).2 < (range m v).1) -> (forall q, q ∈ l2 -> (range m v).2 < (range m q).1) ->
  ordered m (l1 ++ v :: l2).
Proof. rewrite !ordered_app, ordered_cons. set_solver. Qed.

Definition inserted (t : VadTree) (s : shape) (v : Z) (t' : VadTree) : Prop :=
  exists s' l1 l2, wf t' s' /\ addrs s = l1 ++ l2 /\ addrs s' = l1 ++ v :: l2 /\
    same_contents (mem t) (mem t') /\ node_count t' = wrap 64 (node_count t + 1) /\
    (poised (bal (mem t)) s -> poised (bal (mem t')) s').

Definition insert_post (t : VadTree) (s : shape) (v : Z) (r : run result) : Prop :=
  match r with
  | Done Err t' => t' = t /\ exists q, q ∈ addrs s /\ overlaps (mem t) v q
  | Done Ok t' => (forall q, q ∈ addrs s -> ~ overlaps (mem t) v q) /\ inserted t s v t'
  | Fault f => f = BadPointer /\ ~ poised (bal (mem t)) s
  end.

Lemma insert_empty t v : wf t Leaf -> fresh t Leaf v -> insert_post t Leaf v (insert v t).
Proof.
  intros ((Hr & _ & _) & Hl & H0 & _) (_ & Hne & (pv & Hv)). destruct t as [rt lk nc m]. cbn in *. subst rt lk.
  assert (Hvs : is_Some (m !! v)) by (apply lnk_some in Hv as (e & He & _); by exists e).
  unfold insert. rewrite lock_bind, root_bind by done. cbn [relocked root node_count mem Z.eqb].
  rewrite (bind_done (set_root v) _ _ tt _ eq_refl), !put_bind by live.
  unfold on_mem, count_add, unlock. cbn [mbind op_bind mret op_ret root locked node_count mem relocked].
  set (m' := alter _ _ _). split; [set_solver |].
  assert (Hc : same_contents m m') by (intros q; unfold m'; by rewrite !contents_alter).
  exists (Node v Leaf Leaf), [], []. cbn [addrs app root locked node_count mem]. split; [| split; [done | split; [done | split; [done | split; [done |]]]]].
  - split; [| split; [done | split; [by eapply same_null |]]].
    + split; [done | split; [| apply NoDup_singleton]]. cbn [repr addr]. split; [intros ->; by rewrite H0 in Hvs; destruct Hvs |].
      split; [| done]. unfold m', lnk. cbn [mem]. rewrite !lookup_alter_eq. apply lnk_some in Hv as (e & -> & _). done.
    + cbn [addrs app mem]. rewrite ordered_cons. rewrite (same_range m m') by done. split; [done |]. split; [| set_solver].
      split; [set_solver | constructor].
  - intros _. cbn [poised]. split; [| done]. exists 0. split; [| unfold leaning; lia].
    unfold m', bal. cbn [mem]. rewrite !lookup_alter_eq. apply lnk_some in Hv as (e & -> & _). done.
Qed.

Lemma same_relocked t b : same_contents (mem t) (mem (relocked b t)).
Proof. done. Qed.

Lemma fits_apart m c v q : fits m c v -> q ∈ before c ++ after c -> ~ overlaps m v q.
Proof.
  intros [F1 F2] [Hq | Hq]%elem_of_app [O1 O2]; [specialize (F1 q Hq) | specialize (F2 q Hq)]; lia.
Qed.

(** The new leaf keeps the others poised. *)
Lemma poised_attached t f c v : holds t (plug (f :: c) Leaf) -> v ∉ addrs (plug (f :: c) Leaf) -> is_Some (mem t !! v) ->
  poised (bal (mem t)) (plug (f :: c) Leaf) -> poised (bal (attached f v (mem t))) (plug (f :: c) (Node v Leaf Leaf)).
Proof.
  intros Hh Hn Hv [_ Hc]%poised_plug. rewrite addrs_plug in Hn. apply plug_poised; [done | |].
  - cbn [poised]. split; [| done]. exists 0. rewrite attached_balance, decide_True by done. split; [done |].
    unfold leaning. lia.
  - apply (poised_ctx_ext (bal (mem t))); [| done]. intros q Hq. rewrite attached_balance, decide_False; set_solver.
Qed.

Lemma rebalance_insert_run t f c sub : holds t (plug (f :: c) sub) -> locked t = false -> mem t !! 0 = None ->
  climbs (rebalance_insert (frame_addr f) t) t (plug (f :: c) sub).
Proof.
  destruct (frame_heavy f) as (rot & p & far & ->). rewrite heavy_addr, plug_heavy. intros Hh Hl H0.
  destruct (kid_top _ _ _ _ _ _ Hh) as (Hp & e & He & Ep & _). unfold rebalance_insert.
  rewrite fuel_bind, (get_bind p _ t e He), Ep.
  assert (Ha : addr (kid rot p sub far) = p) by (by destruct rot). rewrite <- Ha at 1.
  apply insert_up_run; [by destruct rot | | done..].
  pose proof (holds_size _ _ Hh). pose proof (height_plug c (kid rot p sub far)). lia.
Qed.

Lemma insert_run t s v : wf t s -> fresh t s v -> insert_post t s v (insert v t).
Proof.
  intros Hwf Hfr. destruct s as [| p l r] eqn:Es; [by apply insert_empty |]. rewrite <- Es in *.
  destruct Hwf as (Hh & Hl & H0 & Ho), Hfr as (Hn & Hne & pv & Hv).
  assert (Hroot : root t <> 0 /\ root t = addr s).
  { destruct Hh as (-> & Hr & _). rewrite Es in *. by destruct Hr. }
  destruct Hroot as [Hr0 Hra]. apply lnk_some in Hv as Hev. destruct Hev as (ev & Hev & _).
  unfold insert. rewrite lock_bind, root_bind by done. cbn [relocked root].
  rewrite (proj2 (Z.eqb_neq _ _) Hr0), fuel_bind. cbn [mem].
  set (t1 := mk_tree (root t) true (node_count t) (mem t)).
  assert (Hsz := holds_size _ _ Hh). pose proof (height_addrs s) as Hht.
  destruct (insert_loop_run (size (mem t)) v ev t1 [] s) as [[R (q & Hq & Hov)] | (f & c & Hc & Hfit & R)];
    [by rewrite Es | lia | done | done | done | done | done | split; set_solver | |].
  - rewrite Hra, (bind_done _ _ t1 Err t1 R), unlock_bind. cbn. split; [by destruct t; cbn in *; subst | by exists q].
  - rewrite Hra, (bind_done _ _ t1 Ok _ R). change (plug [] s) with s in Hc. rewrite Hc in *. clear Hc Es.
    assert (Hv0 : v <> 0) by (intros ->; by rewrite H0 in Hev).
    pose proof (attached_holds t1 f c v pv Hh Hn Hv0 Hv) as Hat. pose proof (repr_top _ _ _ _ _ Hat) as (_ & e & He & Ep & _).
    set (t2 := mk_tree (root t) false (wrap 64 (node_count t + 1)) (attached f v (mem t))).
    assert (Hf0 : frame_addr f <> 0) by (apply holds_split in Hat as (_ & _ & Hx & _); destruct f; by destruct Hx).
    rewrite count_bind, (get_bind v _ (counted 1 (on_mem (attached f v) t1)) e He), unlock_bind, Ep.
    cbn [above]. rewrite (proj2 (Z.eqb_neq _ _) Hf0). cbn [negb]. change (relocked false _) with t2.
    assert (Hc2 : same_contents (mem t) (mem t2)) by apply attached_contents.
    pose proof (rebalance_insert_run t2 f c (Node v Leaf Leaf) Hat eq_refl (same_null _ _ Hc2 H0)) as Hcl.
    assert (Hpo := poised_attached t f c v Hh Hn (ex_intro _ ev Hev)).
    unfold mbind, op_bind. destruct (rebalance_insert (frame_addr f) t2) as [[] t3 | ft]; cbn [climbs] in Hcl.
    + destruct Hcl as (s' & H1 & H2 & (S1 & S2 & S3) & H4). rewrite !addrs_plug in *. cbn [addrs app] in *.
      split; [intros q; rewrite addrs_plug; by apply fits_apart |].
      assert (Hc3 := same_trans _ _ _ Hc2 S1).
      exists s', (before (f :: c)), (after (f :: c)). rewrite H2, addrs_plug.
      split; [| split; [done | split; [done | split; [done | split; [done | tauto]]]]].
      split; [done |]. split; [done |]. split; [by eapply same_null |]. rewrite H2.
      apply (ordered_ext (mem t)); [intros q _; by apply same_range |]. by apply ordered_insert; [| | apply Hfit..].
    + destruct Hcl as [-> Hcl]. split; [done | tauto].
Qed.

(** ** Searches and traversals *)

Definition within (m : gmap Z VadEntry) (vpn q : Z) : bool :=
  ((range m q).1 <=? vpn) && (vpn <=? (range m q).2).

Lemma find_node (P : Z -> bool) p l r :
  List.find P (l ++ p :: r) = match List.find P l with Some q => Some q | None => if P p then Some p else List.find P r end.
Proof. induction l as [| q l IH]; cbn; [done |]. by destruct (P q). Qed.

Lemma find_nowhere (P : Z -> bool) l : (forall q, q ∈ l -> P q = false) -> List.find P l = None.
Proof. induction l as [| q l IH]; [done |]. intros H. cbn. rewrite H by set_solver. apply IH. set_solver. Qed.

(** The parts of an ordered node. *)
Lemma ordered_node m p l r e : ordered m (addrs l ++ p :: addrs r) -> m !! p = Some e ->
  ordered m (addrs l) /\ ordered m (addrs r) /\ starting_vpn e <= ending_vpn e /\
  (forall q, q ∈ addrs l -> (range m q).1 <= (range m q).2 < starting_vpn e) /\
  (forall q, q ∈ addrs r -> ending_vpn e < (range m q).1 <= (range m q).2).
Proof.
  rewrite ordered_app, ordered_cons. intros (Ol & (Hpe & Or & Hpr) & Hlp) He. rewrite (range_at _ _ _ He) in *.
  split; [done |]. split; [done |]. split; [done |]. split; intros q Hq.
  - specialize (Hlp q p Hq ltac:(set_solver)). rewrite (range_at _ _ _ He) in Hlp. destruct Ol as [Ol _].
    specialize (Ol q Hq). cbn in Hlp. lia.
  - destruct Or as [Or _]. specialize (Or q Hq). specialize (Hpr q Hq). cbn in Hpr. lia.
Qed.

Lemma find_loop_run fuel vpn t par s : (height s <= fuel)%nat -> repr (lnk (mem t)) par s -> ordered (mem t) (addrs s) ->
  find_loop fuel vpn (addr s) t = Done (List.find (within (mem t) vpn) (addrs s)) t.
Proof.
  revert fuel par. induction s as [| p l IHl r IHr]; intros fuel par Hf Hr Ho; [by destruct fuel |].
  cbn [height] in Hf. destruct fuel as [| fuel]; [lia |]. cbn [repr addrs] in *. destruct Hr as (Hp & HL & Rl & Rr).
  apply lnk_some in HL as (e & He & _ & El & Er). apply (ordered_node _ _ _ _ e) in Ho as (Ol & Or & Hne & Hl & Hr); [| done].
  assert (Rp := range_at _ _ _ He). cbn [find_loop addr].
  rewrite (proj2 (Z.eqb_neq _ _) Hp), (get_bind p _ t e He), El, Er, find_node.
  unfold within at 2. rewrite Rp. cbn [fst snd].
  destruct (Z.ltb_spec vpn (starting_vpn e)) as [H1 | H1]; [| destruct (Z.ltb_spec (ending_vpn e) vpn) as [H2 | H2]].
  - rewrite (IHl fuel p) by (done || lia). destruct (List.find _ (addrs l)); [done |].
    rewrite (proj2 (Z.leb_gt _ _) H1). cbn [andb]. rewrite find_nowhere; [done |].
    intros q Hq. specialize (Hr q Hq). unfold within. lia.
  - rewrite (IHr fuel p) by (done || lia). rewrite (find_nowhere _ (addrs l)).
    2:{ intros q Hq. specialize (Hl q Hq). unfold within. lia. }
    replace ((starting_vpn e <=? vpn) && (vpn <=? ending_vpn e)) with false by lia. done.
  - rewrite (find_nowhere _ (addrs l)). 2:{ intros q Hq. specialize (Hl q Hq). unfold within. lia. }
    replace ((starting_vpn e <=? vpn) && (vpn <=? ending_vpn e)) with true by lia. done.
Qed.

Lemma find_by_start_loop_run fuel vpn t par s : (height s <= fuel)%nat -> repr (lnk (mem t)) par s -> ordered (mem t) (addrs s) ->
  find_by_start_loop fuel vpn (addr s) t = Done (List.find (fun q => (range (mem t) q).1 =? vpn) (addrs s)) t.
Proof.
  revert fuel par. induction s as [| p l IHl r IHr]; intros fuel par Hf Hr Ho; [by destruct fuel |].
  cbn [height] in Hf. destruct fuel as [| fuel]; [lia |]. cbn [repr addrs] in *. destruct Hr as (Hp & HL & Rl & Rr).
  apply lnk_some in HL as (e & He & _ & El & Er). apply (ordered_node _ _ _ _ e) in Ho as (Ol & Or & Hne & Hl & Hr); [| done].
  assert (Rp := range_at _ _ _ He). cbn [find_by_start_loop addr].
  rewrite (proj2 (Z.eqb_neq _ _) Hp), (get_bind p _ t e He), El, Er, find_node. rewrite Rp. cbn [fst snd].
  destruct (Z.ltb_spec vpn (starting_vpn e)) as [H1 | H1]; [| destruct (Z.ltb_spec (starting_vpn e) vpn) as [H2 | H2]].
  - rewrite (IHl fuel p) by (done || lia). destruct (List.find _ (addrs l)); [done |].
    rewrite (proj2 (Z.eqb_neq _ _)) by lia. rewrite find_nowhere; [done |].
    intros q Hq. specialize (Hr q Hq). lia.
  - rewrite (IHr fuel p) by (done || lia). rewrite (find_nowhere _ (addrs l)).
    2:{ intros q Hq. specialize (Hl q Hq). lia. }
    by rewrite (proj2 (Z.eqb_neq _ _)) by lia.
  - rewrite (find_nowhere _ (addrs l)). 2:{ intros q Hq. specialize (Hl q Hq). lia. }
    by rewrite (proj2 (Z.eqb_eq _ _)) by lia.
Qed.

Lemma collect_run fuel t par s : (height s <= fuel)%nat -> repr (lnk (mem t)) par s ->
  inorder_collect_impl fuel (addr s) t = Done (addrs s) t.
Proof.
  revert fuel par. induction s as [| p l IHl r IHr]; intros fuel par Hf Hr; [by destruct fuel |].
  cbn [height] in Hf. destruct fuel as [| fuel]; [lia |]. cbn [repr addrs] in *. destruct Hr as (Hp & HL & Rl & Rr).
  apply lnk_some in HL as (e & He & _ & El & Er). cbn [inorder_collect_impl addr].
  rewrite (proj2 (Z.eqb_neq _ _) Hp), (get_bind p _ t e He), El, Er.
  rewrite (bind_done _ _ t _ t (IHl fuel p ltac:(lia) Rl)), (bind_done _ _ t _ t (IHr fuel p ltac:(lia) Rr)). done.
Qed.

Lemma depth_run fuel t par s : (height s <= fuel)%nat -> repr (lnk (mem t)) par s ->
  depth_impl fuel (addr s) t = Done (Z.of_nat (height s)) t.
Proof.
  revert fuel par. induction s as [| p l IHl r IHr]; intros fuel par Hf Hr; [by destruct fuel |].
  cbn [height] in *. destruct fuel as [| fuel]; [lia |]. cbn [repr] in *. destruct Hr as (Hp & HL & Rl & Rr).
  apply lnk_some in HL as (e & He & _ & El & Er). cbn [depth_impl addr].
  rewrite (proj2 (Z.eqb_neq _ _) Hp), (get_bind p _ t e He), El, Er.
  rewrite (bind_done _ _ t _ t (IHl fuel p ltac:(lia) Rl)), (bind_done _ _ t _ t (IHr fuel p ltac:(lia) Rr)).
  cbn. f_equal. lia.
Qed.

(** An operation that only reads, under the lock. *)
Lemma reader_run {A} (body : nat -> Z -> op A) t s a : wf t s ->
  (forall t', mem t' = mem t -> body (size (mem t')) (addr s) t' = Done a t') ->
  (lock ;; r ← get_root; fuel ← path_fuel; res ← body fuel r; unlock ;; mret res) t = Done a t.
Proof.
  intros ((Hr & _) & Hl & _) Hb. rewrite lock_bind, root_bind, fuel_bind by done. cbn [relocked root mem].
  rewrite Hr, (bind_done _ _ _ _ _ (Hb (relocked true t) eq_refl)), unlock_bind.
  change (Done a (relocked false (relocked true t)) = Done a t). by rewrite relocked_id.
Qed.

Lemma wf_height t s : wf t s -> (height s <= size (mem t))%nat /\ repr (lnk (mem t)) 0 s.
Proof.
  intros (Hh & _). pose proof (holds_size _ _ Hh). pose proof (height_addrs s). destruct Hh as (_ & Hr & _).
  split; [lia | done].
Qed.

Lemma readers_run t s : wf t s ->
  (forall a, find a t = Done (List.find (within (mem t) (Z.shiftr a 12)) (addrs s)) t) /\
  (forall v, find_by_start v t = Done (List.find (fun q => (range (mem t) q).1 =? v) (addrs s)) t) /\
  inorder_collect t = Done (addrs s) t /\ depth t = Done (Z.of_nat (height s)) t.
Proof.
  intros Hw. destruct (wf_height t s Hw) as [Hh Hr]. assert (Ho : ordered (mem t) (addrs s)) by (by destruct Hw as (_ & _ & _ & Ho)).
  split; [| split; [| split]].
  - intros a. apply (reader_run (fun fuel r => find_loop fuel (Z.shiftr a 12) r) t s); [done |].
    intros t' Et. rewrite <- Et in *. by apply (find_loop_run _ _ _ 0).
  - intros v. apply (reader_run (fun fuel r => find_by_start_loop fuel v r) t s); [done |].
    intros t' Et. rewrite <- Et in *. by apply (find_by_start_loop_run _ _ _ 0).
  - apply (reader_run (fun fuel r => inorder_collect_impl fuel r) t s); [done |].
    intros t' Et. rewrite <- Et in *. by apply (collect_run _ _ 0).
  - apply (reader_run (fun fuel r => depth_impl fuel r) t s); [done |].
    intros t' Et. rewrite <- Et in *. by apply (depth_run _ _ 0).
Qed.

(** ** Histories of insertions and searches *)

Inductive call :=
| New (vad start end_ : Z) (type : VadType) (prot : Z)
| FindAt (address : Z) | FindStart (vpn : Z) | Collect | Count.

Inductive answer := Inserted (r : result) | Found (q : option Z) | Listed (l : list Z) | Counted (n : Z).

(** A VAD is allocated and then inserted, as the callers do. *)
Definition perform (c : call) : op answer :=
  match c with
  | New vad start end_ type prot => p ← allocate_vad vad start end_ type prot; r ← insert p; mret (Inserted r)
  | FindAt address => q ← find address; mret (Found q)
  | FindStart vpn => q ← find_by_start vpn; mret (Found q)
  | Collect => l ← inorder_collect; mret (Listed l)
  | Count => n ← count; mret (Counted n)
  end.

Fixpoint perform_all (cs : list call) : op (list answer) :=
  match cs with
  | [] => mret []
  | c :: cs => a ← perform c; l ← perform_all cs; mret (a :: l)
  end.

(** The promise: a sorted list of regions, without pointers, balances or locks. *)
Record region := mk_region { rvad : Z; rfirst : Z; rlast : Z }.

Definition clash (a b : region) : bool := (rfirst a <=? rlast b) && (rfirst b <=? rlast a).

Fixpoint place (x : region) (l : list region) : list region :=
  match l with
  | [] => [x]
  | y :: l => if rfirst x <? rfirst y then x :: y :: l else y :: place x l
  end.

Definition region_of (vad start end_ : Z) : region := mk_region vad (Z.shiftr start 12) (Z.shiftr end_ 12).

Definition promise (c : call) (rs : list region) : answer * list region :=
  match c with
  | New vad start end_ _ _ =>
      let x := region_of vad start end_ in
      if existsb (clash x) rs then (Inserted Err, rs) else (Inserted Ok, place x rs)
  | FindAt address =>
      let vpn := Z.shiftr address 12 in
      (Found (rvad <$> List.find (fun x => (rfirst x <=? vpn) && (vpn <=? rlast x)) rs), rs)
  | FindStart vpn => (Found (rvad <$> List.find (fun x => rfirst x =? vpn) rs), rs)
  | Collect => (Listed (rvad <$> rs), rs)
  | Count => (Counted (wrap 64 (Z.of_nat (length rs))), rs)
  end.

Fixpoint promise_all (cs : list call) (rs : list region) : list answer * list region :=
  match cs with
  | [] => ([], rs)
  | c :: cs => let '(a, rs) := promise c rs in let '(l, rs) := promise_all cs rs in (a :: l, rs)
  end.

(** The pool hands out entries that are not in the tree, and ranges are not empty. *)
Fixpoint sensible (cs : list call) (rs : list region) : bool :=
  match cs with
  | [] => true
  | c :: cs =>
      match c with
      | New vad start end_ _ _ => negb (vad =? 0) && (start <=? end_) && bool_decide (vad ∉ rvad <$> rs)
      | _ => true
      end && sensible cs (promise c rs).2
  end.

Definition simulates (t : VadTree) (rs : list region) : Prop :=
  exists s, wf t s /\ poised (bal (mem t)) s /\ addrs s = rvad <$> rs /\
    (forall x, x ∈ rs -> range (mem t) (rvad x) = (rfirst x, rlast x)) /\
    node_count t = wrap 64 (Z.of_nat (length rs)).

Lemma find_regions rs (P : Z -> bool) (Q : region -> bool) : (forall x, x ∈ rs -> P (rvad x) = Q x) ->
  List.find P (rvad <$> rs) = rvad <$> List.find Q rs.
Proof.
  induction rs as [| x rs IH]; [done |]. intros H. cbn. rewrite H by set_solver. destruct (Q x); [done |].
  apply IH. set_solver.
Qed.

Lemma place_between x l1 l2 : (forall y, y ∈ l1 -> rfirst y <= rfirst x) -> (forall y, y ∈ l2 -> rfirst x < rfirst y) ->
  place x (l1 ++ l2) = l1 ++ x :: l2.
Proof.
  induction l1 as [| y l1 IH]; intros H1 H2; cbn [app place].
  - destruct l2 as [| y l2]; [done |]. cbn [place]. specialize (H2 y ltac:(set_solver)).
    by rewrite (proj2 (Z.ltb_lt _ _) H2).
  - pose proof (H1 y ltac:(set_solver)). rewrite (proj2 (Z.ltb_ge _ _)) by lia. rewrite IH; [done | set_solver | done].
Qed.

(** A new entry in the memory, outside the tree. *)
Lemma wf_alloc t s v e : wf t s -> v ∉ addrs s -> v <> 0 ->
  wf (on_mem <[v := e]> t) s /\ (forall q, q <> v -> range (<[v := e]> (mem t)) q = range (mem t) q) /\
  (poised (bal (mem t)) s -> poised (bal (<[v := e]> (mem t))) s).
Proof.
  intros ((Hr & Hrep & Hnd) & Hl & H0 & Ho) Hv Hv0.
  assert (Hne : forall q, q <> v -> <[v := e]> (mem t) !! q = mem t !! q) by (intros q Hq; by rewrite lookup_insert_ne).
  assert (Hin : forall q, q ∈ addrs s -> q <> v) by set_solver.
  assert (Hrg : forall q, q <> v -> range (<[v := e]> (mem t)) q = range (mem t) q) by (intros q Hq; unfold range; by rewrite Hne).
  split; [| split; [done |]].
  - split; [split; [done | split; [| done]] | split; [done | split; [by cbn; rewrite Hne |]]].
    + apply (repr_ext (lnk (mem t))); [| done]. intros q Hq. unfold lnk. cbn. rewrite Hne by auto. done.
    + apply (ordered_ext (mem t)); [| done]. auto.
  - apply poised_ext. intros q Hq. unfold bal. rewrite Hne by auto. done.
Qed.

Lemma simulates_new t rs v a b ty pr : simulates t rs -> v <> 0 -> a <= b -> v ∉ rvad <$> rs ->
  exists t', perform (New v a b ty pr) t = Done (promise (New v a b ty pr) rs).1 t' /\
    simulates t' (promise (New v a b ty pr) rs).2.
Proof.
  intros (s & Hw & Hpo & Ha & Hrg & Hc) Hv Hab Hn. rewrite <- Ha in Hn.
  set (e := mk_vad (Z.shiftr a 12) (Z.shiftr b 12) 0 0 0 0 0 ty pr).
  destruct (wf_alloc t s v e Hw Hn Hv) as (Hw1 & Hrg1 & Hpo1). set (t1 := on_mem <[v := e]> t) in *.
  assert (Rv : range (mem t1) v = (Z.shiftr a 12, Z.shiftr b 12)) by (apply (range_at _ _ e), lookup_insert_eq).
  assert (Hfr : fresh t1 s v).
  { split; [done |]. split; [rewrite Rv; cbn; rewrite !Z.shiftr_div_pow2 by lia; apply Z.div_le_mono; lia |]. exists 0. unfold lnk. cbn [t1 on_mem mem].
    by rewrite lookup_insert_eq. }
  pose proof (insert_run t1 s v Hw1 Hfr) as Hi. cbn [perform promise].
  assert (Hal : allocate_vad v a b ty pr t = Done v t1) by (unfold allocate_vad; by rewrite (proj2 (Z.eqb_neq _ _) Hv)).
  rewrite (bind_done _ _ _ _ _ Hal).
  assert (Hin : forall x, x ∈ rs -> rvad x ∈ addrs s) by (intros x Hx; rewrite Ha; by apply list_elem_of_fmap_2).
  assert (Hrx : forall x, x ∈ rs -> range (mem t1) (rvad x) = (rfirst x, rlast x)).
  { intros x Hx. rewrite Hrg1; [by apply Hrg |]. intros E. apply Hn. rewrite <- E. by apply Hin. }
  assert (Hcl : forall x, x ∈ rs -> (clash (region_of v a b) x = true <-> overlaps (mem t1) v (rvad x))).
  { intros x Hx. unfold clash, overlaps. rewrite Rv, Hrx by done. cbn. lia. }
  unfold mbind, op_bind. destruct (insert v t1) as [[] t2 | f]; cbn [insert_post] in Hi.
  - destruct Hi as [Hno (s' & l1 & l2 & Hw2 & E1 & E2 & Hsame & Hcnt & Hp2)].
    assert (existsb (clash (region_of v a b)) rs = false) as ->.
    { apply not_true_iff_false. intros (x & Hx & Hxc)%existsb_exists. apply list_elem_of_In in Hx.
      apply (Hno (rvad x)); [by apply Hin | by apply Hcl]. }
    exists t2. split; [done |]. cbn [snd]. rewrite Ha in E1. apply fmap_app_inv in E1 as (r1 & r2 & -> & -> & ->).
    assert (Hrx2 : forall x, x ∈ r1 ++ r2 -> range (mem t2) (rvad x) = (rfirst x, rlast x)).
    { intros x Hx. rewrite (same_range (mem t1)) by done. by apply Hrx. }
    assert (Rv2 : range (mem t2) v = (Z.shiftr a 12, Z.shiftr b 12)) by (by rewrite (same_range (mem t1))).
    assert (Hb12 := Hw2). destruct Hb12 as (_ & _ & _ & Hb12). rewrite E2, ordered_app, ordered_cons, Rv2 in Hb12.
    destruct Hb12 as (_ & (Hvv & _ & Hb2) & Hb1). cbn [fst snd] in *.
    assert (Hb1' : forall q, q ∈ rvad <$> r1 -> (range (mem t2) q).2 < Z.shiftr a 12).
    { intros q Hq. specialize (Hb1 q v Hq ltac:(set_solver)). by rewrite Rv2 in Hb1. }
    clear Hb1. rename Hb1' into Hb1. rewrite place_between.
    + exists s'. split; [done |]. split; [by apply Hp2, Hpo1 |]. rewrite E2, fmap_app. split; [done |]. split.
      * intros x. rewrite elem_of_app, elem_of_cons. intros [Hx | [-> | Hx]]; [| done |]; apply Hrx2; set_solver.
      * rewrite Hcnt. cbn [t1 on_mem node_count]. rewrite Hc, wrap_add_l, !length_app. cbn [length].
        f_equal. lia.
    + intros y Hy. specialize (Hb1 (rvad y) (list_elem_of_fmap_2 _ _ _ Hy)). rewrite Hrx2 in Hb1 by set_solver.
      destruct Hw2 as (_ & _ & _ & [Hne _]). specialize (Hne (rvad y)). rewrite Hrx2 in Hne by set_solver.
      rewrite E2 in Hne. cbn in *. assert (rfirst y <= rlast y) by (apply Hne; set_solver). lia.
    + intros y Hy. specialize (Hb2 (rvad y) (list_elem_of_fmap_2 _ _ _ Hy)). rewrite Hrx2 in Hb2 by set_solver.
      cbn in *. lia.
  - destruct Hi as [-> (q & Hq & Hov)].
    assert (existsb (clash (region_of v a b)) rs = true) as ->.
    { rewrite Ha in Hq. apply list_elem_of_fmap in Hq as (x & -> & Hx). apply existsb_exists. exists x.
      split; [by apply list_elem_of_In | by apply Hcl]. }
    exists t1. split; [done |]. exists s. split; [done |]. split; [by apply Hpo1 |]. done.
  - destruct Hi as [_ Hi]. exfalso. by apply Hi, Hpo1.
Qed.

Lemma simulates_step t rs c : simulates t rs -> sensible [c] rs = true ->
  exists t', perform c t = Done (promise c rs).1 t' /\ simulates t' (promise c rs).2.
Proof.
  intros Hs Hok. destruct c as [v a b ty pr | a | vpn | |].
  { cbn [sensible] in Hok. apply simulates_new; try done; [lia | lia |].
    apply (bool_decide_eq_true_1 (v ∉ rvad <$> rs)). by destruct (bool_decide _); [| lia]. }
  all: assert (Hs' := Hs); destruct Hs as (s & Hw & Hpo & Ha & Hrg & Hc); exists t; (split; [| done]); cbn [perform promise fst];
    destruct (readers_run t s Hw) as (R1 & R2 & R3 & _).
  - rewrite (bind_done _ _ _ _ _ (R1 a)), Ha. unfold mret, op_ret. f_equal. f_equal. apply find_regions.
    intros x Hx. unfold within. by rewrite Hrg.
  - rewrite (bind_done _ _ _ _ _ (R2 vpn)), Ha. unfold mret, op_ret. f_equal. f_equal. apply find_regions.
    intros x Hx. by rewrite Hrg.
  - by rewrite (bind_done _ _ _ _ _ R3), Ha.
  - unfold count, mbind, op_bind. by rewrite Hc.
Qed.

Lemma simulates_empty : simulates (new_tree ∅) [].
Proof.
  exists Leaf. split; [| split; [done | split; [done | split; [set_solver | done]]]]. split; [split; [done | split; [done | constructor]] |]. split; [done |]. split; [done |].
  split; [set_solver | constructor].
Qed.

Lemma sensible_cons c cs rs : sensible (c :: cs) rs = sensible [c] rs && sensible cs (promise c rs).2.
Proof. cbn [sensible]. by rewrite andb_true_r. Qed.

Lemma simulates_all cs t rs : simulates t rs -> sensible cs rs = true ->
  exists t', perform_all cs t = Done (promise_all cs rs).1 t' /\ simulates t' (promise_all cs rs).2.
Proof.
  revert t rs. induction cs as [| c cs IH]; intros t rs Hs Hok; [by exists t |].
  rewrite sensible_cons in Hok. apply andb_true_iff in Hok as [Hok1 Hok2].
  destruct (simulates_step t rs c Hs Hok1) as (t1 & R1 & S1). cbn [perform_all promise_all].
  destruct (promise c rs) as [a rs1]. cbn [fst snd] in *. destruct (IH t1 rs1 S1 Hok2) as (t2 & R2 & S2).
  exists t2. rewrite (bind_done _ _ _ _ _ R1), (bind_done _ _ _ _ _ R2). by destruct (promise_all cs rs1).
Qed.

(** C23: From an empty tree, every history of allocations with insertion, searches by address and by start,
    traversals and counts runs to its end without a bad pointer, a deadlock or a loop, and answers as a plain
    sorted list of regions does: a VAD is refused exactly when it overlaps one already there, and a search finds
    the region that holds the page. *)
Theorem vad_history cs : sensible cs [] = true ->
  exists t, perform_all cs (new_tree ∅) = Done (promise_all cs []).1 t /\
    inorder_collect t = Done (rvad <$> (promise_all cs []).2) t.
Proof.
  intros Hok. destruct (simulates_all cs _ _ simulates_empty Hok) as (t & R & s & Hw & _ & Ha & _).
  exists t. split; [done |]. rewrite <- Ha. by apply readers_run.
Qed.

Definition sample_calls : list call :=
  [New 101 0x10000 0x1FFFF VadNone 4; New 102 0x30000 0x3FFFF VadImage 2; New 103 0x20000 0x2FFFF VadNone 4;
   New 104 0x2F000 0x30FFF VadNone 4; New 105 0x40000 0x4FFFF VadNone 4; New 106 0x50000 0x5FFFF VadNone 4;
   FindAt 0x2ABCD; FindAt 0x60000; FindStart 0x40; Collect; Count].

Lemma vad_history_witness : sensible sample_calls [] = true /\
  exists t, perform_all sample_calls (new_tree ∅) =
    Done [Inserted Ok; Inserted Ok; Inserted Ok; Inserted Err; Inserted Ok; Inserted Ok;
          Found (Some 103); Found None; Found (Some 105); Listed [101; 103; 102; 105; 106]; Counted 5] t /\
    inorder_collect t = Done [101; 103; 102; 105; 106] t.
Proof.
  split; [by vm_compute |]. destruct (vad_history sample_calls) as (t & H1 & H2); [by vm_compute |].
  exists t. split; [rewrite H1 | rewrite H2]; vm_compute; reflexivity.
Defined.

End VadSpec.
