(* ===== verification/VadRemove.v ===== *)
(** * Removing VADs, and gaps ([mm/vad.rs])

    Removal unlinks a node, or copies its successor over it and unlinks the successor, and then walks
    up with the lock held. The theorems say what is left, exactly when the walk takes the lock
    a second time, and that the searches for gaps always do. *)

From Stdlib Require Import ZArith Lia Sorted.
From S2P Require Import Prelude Vad VadSpec.

Module VadRemove.

Import Vad VadSpec.

(** ** Splicing out a node with at most one child *)

Definition spliced (c : list frame) (k : shape) (m : gmap Z VadEntry) : gmap Z VadEntry :=
  let m := repoint c (addr k) m in
  if addr k =? 0 then m else alter (set_parent (above c)) (addr k) m.

Lemma spliced_links c k m : (addr k <> 0 -> addr k <> above c) ->
  (addr k <> 0 -> lnk (spliced c k m) (addr k) = to_parent (above c) <$> lnk m (addr k)) /\
  (c <> [] -> above c <> 0 -> lnk (spliced c k m) (above c) = child_link (hole_side c) (addr k) <$> lnk m (above c)) /\
  (forall q, q <> addr k -> q <> above c -> lnk (spliced c k m) q = lnk m q).
Proof.
  intros Hk. unfold spliced. split; [| split].
  - intros H. rewrite (proj2 (Z.eqb_neq _ _) H), lnk_parent, lnk_repoint_ne by auto. done.
  - intros Hc H0. destruct (Z.eqb_spec (addr k) 0) as [E | E]; [by apply lnk_repoint |].
    rewrite lnk_ne by (apply not_eq_sym; auto). by apply lnk_repoint.
  - intros q Hq Hqc. destruct (Z.eqb_spec (addr k) 0); rewrite ?(lnk_ne _ _ (addr k)), lnk_repoint_ne by done; done.
Qed.

Lemma spliced_contents c k m : same_contents m (spliced c k m).
Proof.
  intros q. unfold spliced, repoint. destruct (addr k =? 0), c as [| [] c]; by rewrite ?contents_alter.
Qed.

Lemma spliced_balance c k m q : bal (spliced c k m) q = bal m q.
Proof.
  assert (Hkeep : forall f p m', (forall e, balance_factor (f e) = balance_factor e) -> bal (alter f p m') q = bal m' q).
  { intros f p m' Hf. rewrite bal_alter. destruct (decide (q = p)) as [-> |]; [| done]. unfold bal.
    destruct (m' !! p); [| done]. cbn. by rewrite Hf. }
  unfold spliced, repoint. destruct (addr k =? 0), c as [| [] c]; by rewrite ?Hkeep.
Qed.

Lemma spliced_holds rot t c x k lk nc : holds t (plug c (kid rot x k Leaf)) ->
  holds (mk_tree (new_root c (root t) (addr k)) lk nc (spliced c k (mem t))) (plug c k).
Proof.
  intros Hh. apply holds_split in Hh as (Hroot & Hrep & Hctx & Hnd).
  assert (Hk : repr (lnk (mem t)) x k) by (destruct rot; cbn [kid repr] in Hrep; tauto).
  assert (Hx : addr (kid rot x k Leaf) = x) by (by destruct rot). rewrite Hx in Hctx.
  assert (Hp : before c ++ addrs (kid rot x k Leaf) ++ after c ≡ₚ x :: addrs k ++ before c ++ after c).
  { destruct rot; cbn [kid addrs]; rewrite <- ?Permutation_middle; cbn [app]; solve_Permutation. }
  rewrite Hp in Hnd. apply NoDup_cons in Hnd as [Hxn Hnd]. assert (Hnd' := Hnd).
  apply NoDup_app in Hnd' as (Hndk & Hd & Hndc).
  assert (Hk0 : addr k <> 0 -> addr k ∈ addrs k) by (destruct k; cbn [addr addrs]; [done | set_solver]).
  assert (Hac : addr k <> 0 -> addr k <> above c).
  { intros H0 E. destruct c as [| f c]; [done |]. apply (Hd (addr k)); [by apply Hk0 |]. rewrite E. by apply above_in. }
  destruct (spliced_links c k (mem t) Hac) as (K1 & K2 & K3).
  split; [| split].
  - cbn [root]. destruct c as [| f c]; cbn [new_root]; [done |]. rewrite Hroot. apply addr_plug.
  - cbn [mem]. rewrite repr_plug. split.
    + destruct k as [| p l r] eqn:Ek; [done |]. rewrite <- Ek in *.
      assert (H0 : addr k <> 0) by (rewrite Ek in *; by destruct Hk).
      apply (repr_reparent (lnk (mem t)) _ x); [done | done | |].
      * intros l' r' Hl. by rewrite K1, Hl.
      * intros q Hq Hqa. apply K3; [done |]. intros ->. destruct c as [| f c]; [by apply (repr_nonzero _ _ _ _ Hk Hq) |].
        apply (Hd _ Hq). by apply above_in.
    + destruct c as [| f c]; [done |]. assert (Hf : frame_addr f <> 0) by (by destruct f, Hctx).
      apply (ctx_repoint (lnk (mem t)) _ f c x); [done | done | |].
      * intros par l r Hl. change (frame_addr f) with (above (f :: c)) in *. rewrite K2, Hl by done. by destruct f.
      * intros q Hq Hqf. apply K3; [| done]. intros ->. apply (Hd (addr k)); [| done]. apply Hk0.
        by apply (ctx_nonzero _ _ _ _ Hctx).
  - rewrite addrs_plug. revert Hnd. apply NoDup_Permutation_proper. solve_Permutation.
Qed.

(** ** Which node is unlinked *)

(** The leftmost node of a tree, where it hangs, and its right subtree. *)
Fixpoint min_split (r : shape) (c : list frame) : list frame * Z * shape :=
  match r with
  | Leaf => (c, 0, Leaf)
  | Node p Leaf k => (c, p, k)
  | Node p l k => min_split l (InLeft p k :: c)
  end.

Definition splice_point (c : list frame) (v : Z) (l r : shape) : list frame * Z * shape :=
  match l, r with
  | Leaf, _ => (c, v, r)
  | _, Leaf => (c, v, l)
  | _, _ => min_split r (InRight v l :: c)
  end.

Lemma min_split_plug r c C x k : r <> Leaf -> min_split r c = (C, x, k) -> plug c r = plug C (Node x Leaf k).
Proof.
  revert c. induction r as [| p l IHl r' _]; intros c Hr; [done |]. cbn [min_split].
  destruct l as [| q ll lr] eqn:El; [by intros [= -> -> ->] |]. rewrite <- El in *. intros H.
  rewrite <- (IHl (InLeft p r' :: c)); [done | by rewrite El | done].
Qed.

Lemma min_split_ctx r c C x k : min_split r c = (C, x, k) -> C = c \/ exists p k' C', C = InLeft p k' :: C'.
Proof.
  revert c. induction r as [| p l IHl r' _]; intros c; cbn [min_split]; [intros [= <- _ _]; by left |].
  destruct l as [| q ll lr] eqn:El; [intros [= <- _ _]; by left |]. rewrite <- El in *.
  intros [-> | H]%IHl; right; [by eexists _, _, _ | done].
Qed.

Lemma min_split_addrs r c C x k : r <> Leaf -> min_split r c = (C, x, k) ->
  before C = before c /\ exists w, addrs r = x :: w /\ w ++ after c = addrs k ++ after C.
Proof.
  intros Hr Hm. assert (Hb : before C = before c).
  { clear Hr. revert c Hm. induction r as [| p l IHl r' _]; intros c; cbn [min_split]; [by intros [= <- _ _] |].
    destruct l as [| q ll lr] eqn:El; [by intros [= <- _ _] |]. rewrite <- El in *. by intros H%IHl. }
  split; [done |]. pose proof (f_equal addrs (min_split_plug _ _ _ _ _ Hr Hm)) as Ha.
  rewrite !addrs_plug, Hb in Ha. apply app_inv_head in Ha. cbn [addrs app] in Ha.
  destruct (addrs r) as [| y w] eqn:Er.
  - destruct r as [| p l r']; [done |]. cbn [addrs] in Er. by destruct (addrs l).
  - injection Ha as -> Ha. by exists w.
Qed.

Lemma min_node_run fuel t c r C x k : (height r <= fuel)%nat -> r <> Leaf -> holds t (plug c r) ->
  min_split r c = (C, x, k) -> min_node fuel (addr r) t = Done x t.
Proof.
  revert fuel c. induction r as [| p l IHl r' _]; intros fuel c Hf Hr Hh; [done |]. cbn [min_split height] in *.
  destruct fuel as [| fuel]; [lia |]. destruct (repr_top _ _ _ _ _ Hh) as (_ & e & He & _ & El & _).
  pose proof (addr_leaf _ _ _ _ _ Hh) as [Zl _]. cbn [min_node addr]. rewrite (get_bind p _ t e He), El.
  destruct l as [| q ll lr] eqn:Es; [by intros [= -> -> ->] |]. rewrite <- Es in *. intros H.
  assert (Hl0 : l <> Leaf) by (by rewrite Es). rewrite (proj2 (Z.eqb_neq _ _)) by tauto.
  apply (IHl fuel (InLeft p r' :: c)); [lia | done | done | done].
Qed.

(** The contents and the balance of the successor, written over the removed node. *)
Definition take_over (s e : VadEntry) : VadEntry :=
  mk_vad (starting_vpn s) (ending_vpn s) (parent e) (vleft e) (vright e)
    (balance_factor s) (flags s) (vad_type s) (protection s).

Definition moved (v x : Z) (m : gmap Z VadEntry) : gmap Z VadEntry :=
  if v =? x then m else match m !! x with Some s => alter (take_over s) v m | None => m end.

Lemma moved_links v x m q : lnk (moved v x m) q = lnk m q.
Proof.
  unfold moved. destruct (v =? x); [done |]. destruct (m !! x) as [s |]; [| done].
  rewrite lnk_alter. destruct (decide (q = v)) as [-> |]; [| done]. unfold lnk. by destruct (m !! v).
Qed.

Lemma moved_at v x m q : is_Some (m !! v) -> is_Some (m !! x) ->
  contents <$> moved v x m !! q = contents <$> m !! (if decide (q = v) then x else q).
Proof.
  intros Hv [s Hs]. unfold moved. destruct (Z.eqb_spec v x) as [-> | Hvx].
  - destruct (decide (q = x)) as [-> |]; done.
  - rewrite Hs. destruct (decide (q = v)) as [-> | Hq]; [| by rewrite lookup_alter_ne].
    rewrite lookup_alter_eq, Hs. by destruct Hv as [e ->].
Qed.

Lemma moved_balance v x m q : is_Some (m !! v) -> is_Some (m !! x) ->
  bal (moved v x m) q = bal m (if decide (q = v) then x else q).
Proof.
  intros Hv [s Hs]. unfold moved. destruct (Z.eqb_spec v x) as [-> | Hvx].
  - destruct (decide (q = x)) as [-> |]; done.
  - rewrite Hs. unfold bal. destruct (decide (q = v)) as [-> | Hq]; [| by rewrite lookup_alter_ne].
    rewrite lookup_alter_eq, Hs. by destruct Hv as [e ->].
Qed.

Lemma relink_run t c y x : y <> 0 -> ctx_repr (lnk (mem t)) c y -> y ∉ before c ++ after c ->
  relink (above c) y x t = Done tt (mk_tree (new_root c (root t) x) (locked t) (node_count t) (repoint c x (mem t))).
Proof. intros Hy Hc Hn. by apply (replace_run false t c y x). Qed.

(** One child at most. *)
Lemma remove_leafy rot t c v k : holds t (plug c (kid rot v k Leaf)) ->
  remove_node_locked v t =
  Done (above c) (mk_tree (new_root c (root t) (addr k)) (locked t) (node_count t) (spliced c k (mem t))).
Proof.
  intros Hh. destruct (kid_top _ _ _ _ _ _ Hh) as (Hv & e & He & Ep & _).
  assert (Hkids : (vleft e, vright e) = if rot then (addr k, 0) else (0, addr k)).
  { destruct rot; apply repr_top in Hh as (_ & e' & He' & _ & El & Er); rewrite He in He'; injection He' as <-;
      by rewrite El, Er. }
  assert (Hrl : relink (above c) v (addr k) t =
    Done tt (mk_tree (new_root c (root t) (addr k)) (locked t) (node_count t) (repoint c (addr k) (mem t)))).
  { apply holds_split in Hh as (_ & _ & Hctx & Hnd). replace (addr (kid rot v k Leaf)) with v in Hctx by (by destruct rot).
    apply relink_run; [done | done |]. apply (nodup_ctx c _ v Hnd). destruct rot; cbn [kid addrs]; set_solver. }
  assert (Hks : addr k <> 0 -> is_Some (mem t !! addr k)).
  { apply holds_split in Hh as (_ & Hr & _). intros H0. apply (repr_mem _ (above c) (kid rot v k Leaf)); [done |].
    destruct k; [done |]. destruct rot; cbn [kid addrs addr]; set_solver. }
  unfold remove_node_locked, spliced. rewrite (get_bind v _ t e He), Ep.
  destruct rot; injection Hkids as -> ->; cbn [Z.eqb negb andb];
    (destruct (Z.eqb_spec (addr k) 0) as [E0 | E0]; cbn [negb andb];
     [rewrite E0 in Hrl; rewrite (bind_done _ _ _ _ _ Hrl), E0; done |
      rewrite (bind_done _ _ _ _ _ Hrl), put_bind by live; done]).
Qed.

(** Two children: the successor, found at the left end of the right subtree. *)
Lemma remove_full t c v l r C x k : l <> Leaf -> r <> Leaf -> holds t (plug c (Node v l r)) ->
  min_split r (InRight v l :: c) = (C, x, k) ->
  remove_node_locked v t =
  Done (above C) (mk_tree (root t) (locked t) (node_count t) (spliced C k (moved v x (mem t)))).
Proof.
  intros Hl Hr Hh Hm. destruct (repr_top _ _ _ _ _ Hh) as (Hv & e & He & Ep & El & Er).
  pose proof (addr_leaf _ _ _ _ _ Hh) as [Zl Zr].
  assert (Hr' : plug (InRight v l :: c) r = plug C (Node x Leaf k)) by (by apply min_split_plug).
  assert (HhC : holds t (plug C (Node x Leaf k))) by (by rewrite <- Hr').
  assert (Hmin : min_node (size (mem t)) (addr r) t = Done x t).
  { apply (min_node_run _ t (InRight v l :: c) r C x k); try done.
    pose proof (holds_size _ _ Hh). pose proof (height_plug (InRight v l :: c) r). cbn [plug] in *. lia. }
  destruct (repr_top _ _ _ _ _ HhC) as (Hx & s & Hs & Esp & _ & Esr).
  destruct (min_split_addrs _ _ _ _ _ Hr Hm) as (HbC & _).
  assert (HndC : NoDup (before C ++ (x :: addrs k) ++ after C)) by (by apply holds_split in HhC as (_ & _ & _ & H)).
  assert (HvC : v ∈ before C) by (rewrite HbC; cbn [before]; set_solver).
  assert (Hk0 : addr k <> 0 -> addr k ∈ addrs k) by (destruct k; cbn [addr addrs]; [done | set_solver]).
  assert (Hxv : x <> v) by (intros ->; apply (nodup_ctx C _ v HndC); set_solver).
  assert (Hkx : addr k <> x).
  { intros E. apply NoDup_app in HndC as (_ & _ & Hnd). apply NoDup_app in Hnd as (Hnd & _ & _).
    apply NoDup_cons in Hnd as [Hnd _]. apply Hnd. rewrite <- E. apply Hk0. by rewrite E. }
  assert (Sk : addr k <> 0 -> is_Some (mem t !! addr k)).
  { intros H0. apply holds_split in HhC as (_ & Hrep & _). apply (repr_mem _ _ _ _ Hrep). cbn [addrs]. set_solver. }
  assert (Emv : moved v x (mem t) = alter (take_over s) v (mem t)).
  { unfold moved. by rewrite (proj2 (Z.eqb_neq v x)), Hs by congruence. }
  unfold remove_node_locked. rewrite (get_bind v _ t e He), El, Er.
  rewrite (proj2 (Z.eqb_neq (addr l) 0)), (proj2 (Z.eqb_neq (addr r) 0)) by tauto. cbn [negb andb].
  rewrite fuel_bind, (bind_done _ _ _ _ _ Hmin), (get_bind x _ t s Hs), Esr, Esp.
  change (fun e0 => mk_vad (starting_vpn s) (ending_vpn s) (parent e0) (vleft e0) (vright e0)
    (balance_factor s) (flags s) (vad_type s) (protection s)) with (take_over s).
  rewrite put_bind by live. unfold spliced. rewrite Emv.
  destruct (min_split_ctx _ _ _ _ _ Hm) as [-> | (p & k' & C' & ->)].
  - cbn [above frame_addr repoint]. rewrite Z.eqb_refl, put_bind by live.
    destruct (Z.eqb_spec (addr k) 0) as [E0 | E0]; cbn [negb]; [done |]. by rewrite put_bind by live.
  - cbn [above frame_addr repoint]. assert (Hpv : p <> v).
    { intros ->. apply NoDup_app in HndC as (_ & Hd & _). apply (Hd v HvC). cbn [after]. set_solver. }
    assert (Hpk : addr k <> 0 -> addr k <> p).
    { intros H0 E. apply (nodup_ctx _ _ (addr k) HndC); [set_solver |]. rewrite E. apply (above_in (InLeft p k' :: C')). done. }
    assert (Sp : is_Some (mem t !! p)).
    { destruct HhC as (_ & Hrep & _). apply (repr_mem _ _ _ _ Hrep). rewrite addrs_plug.
      assert (p ∈ before (InLeft p k' :: C') ++ after (InLeft p k' :: C')) by (by apply (above_in (InLeft p k' :: C'))).
      set_solver. }
    rewrite (proj2 (Z.eqb_neq p v) Hpv).
    destruct (Z.eqb_spec (addr k) 0) as [E0 | E0]; cbn [negb].
    + rewrite (bind_done _ _ _ tt _ eq_refl), (get_bind x _ _ s), Esp.
      2:{ cbn [on_mem mem]. by rewrite lookup_alter_ne. }
      by rewrite put_bind by live.
    + rewrite put_bind by live. rewrite (get_bind x _ _ s), Esp.
      2:{ cbn [on_mem mem]. by rewrite !lookup_alter_ne. }
      cbn [above frame_addr]. rewrite put_bind by live. unfold on_mem. cbn [root locked node_count mem].
      rewrite alter_alter_ne; [done |]. apply not_eq_sym; auto.
Qed.

(** ** The walk up, with the lock held *)

Definition level (B : Z -> option Z) (l : list Z) : Prop := forall q, q ∈ l -> exists b, B q = Some b /\ -1 <= b <= 1.

(** The walk counts the removal like an insertion on the same side; where that would tilt a node by
    two it calls a rotation, which takes the lock again. *)
Fixpoint stuck (B : Z -> option Z) (c : list frame) : bool :=
  match c with
  | [] => false
  | f :: c =>
      match B (frame_addr f) with
      | None => false
      | Some b =>
          let b' := b + (if hole_side [f] then 1 else -1) in
          if b' =? 0 then stuck B c else (b' =? -2) || (b' =? 2)
      end
  end.

Lemma stuck_ext B B' c : (forall q, q ∈ before c ++ after c -> B' q = B q) -> stuck B' c = stuck B c.
Proof.
  induction c as [| f c IH]; [done |]. intros H. cbn [stuck]. rewrite H by (apply (above_in (f :: c)); done).
  rewrite IH; [done |]. intros q Hq. apply H. destruct f; cbn [before after]; set_solver.
Qed.

Definition rebalance_locked (rot : bool) : Z -> op () := if rot then rebalance_left_locked else rebalance_right_locked.

Lemma lock_again {A} (k : op A) t : locked t = true -> (lock ;; k) t = Fault Deadlock.
Proof. intros H. unfold mbind, op_bind, lock. by rewrite H. Qed.

Lemma rebalance_deadlock rot t c p near far : holds t (plug c (kid rot p near far)) -> near <> Leaf -> locked t = true ->
  rebalance_locked rot p t = Fault Deadlock.
Proof.
  intros Hh Hn Hl. destruct (kid_top _ _ _ _ _ _ Hh) as (Hp & e & He & _ & El).
  destruct (shape_kid rot near) as [-> | (x & out & mid & ->)]; [done |].
  assert (Hh' := Hh). rewrite <- plug_heavy in Hh'. destruct (kid_top _ _ _ _ _ _ Hh') as (Hx & ex & Hex & _).
  replace (addr (kid rot x out mid)) with x in El by (by destruct rot).
  destruct rot; cbn [rebalance_locked]; unfold rebalance_left_locked, rebalance_right_locked;
    rewrite (get_bind p _ t e He), El, (proj2 (Z.eqb_neq x 0) Hx), (get_bind x _ t ex Hex);
    (case_match; [unfold rotate_right_locked, rotate_left_locked; by apply lock_again |]);
    unfold rotate_left_right_locked, rotate_right_left_locked;
    rewrite (get_bind p _ t e He), El, (get_bind x _ t ex Hex); apply bind_fault, lock_again, Hl.
Qed.

Definition walked (t : VadTree) (s : shape) (t' : VadTree) : Prop :=
  holds t' s /\ same_state t t' /\ level (bal (mem t')) (addrs s).

Lemma level_put B B' l p b : level B l -> (forall q, B' q = if decide (q = p) then Some b else B q) -> -1 <= b <= 1 ->
  level B' l.
Proof. intros Hl Hb Hbb q Hq. rewrite Hb. destruct (decide (q = p)); [by exists b | by apply Hl]. Qed.

Lemma delete_up_run fuel t c sub : sub <> Leaf -> (length c <= fuel)%nat -> holds t (plug c sub) -> locked t = true ->
  level (bal (mem t)) (addrs (plug c sub)) ->
  if stuck (bal (mem t)) c then delete_up fuel (addr sub) (above c) t = Fault Deadlock
  else exists t', delete_up fuel (addr sub) (above c) t = Done tt t' /\ walked t (plug c sub) t'.
Proof.
  revert fuel t sub. induction c as [| f c IH]; intros fuel t sub Hs Hf Hh Hl Hlv.
  { cbn [stuck]. exists t. split; [by destruct fuel | done]. }
  cbn [length] in Hf. destruct fuel as [| fuel]; [lia |]. destruct (frame_heavy f) as (rot & p & far & ->).
  destruct (Hlv p) as (b & Hb & Hbb).
  { rewrite addrs_plug. assert (p ∈ before (heavy rot p far :: c) ++ after (heavy rot p far :: c)); [| set_solver].
    rewrite <- (heavy_addr rot p far) at 1. by apply (above_in (_ :: c)). }
  destruct (tilt_run rot p far c sub t b Hh Hs Hb) as (t1 & R1 & H1 & S1 & B1).
  assert (Hd : -1 <= delta rot <= 1 /\ delta rot = if hole_side [heavy rot p far] then 1 else -1) by (by destruct rot).
  destruct Hd as [Hd1 Hd2]. rewrite add_i8_small in * by lia.
  cbn [above stuck]. rewrite heavy_addr, Hb, <- Hd2. cbn [delete_up].
  assert (H1k := H1). rewrite plug_heavy in H1k. destruct (kid_top _ _ _ _ _ _ H1k) as (Hp & e1 & He1 & Ep1 & _).
  assert (Hl1 : locked t1 = true) by (by destruct S1 as (_ & -> & _)).
  rewrite (proj2 (Z.eqb_neq _ _) Hp), (bind_done _ _ _ _ _ R1).
  destruct (Z.eqb_spec (b + delta rot) 0) as [E0 | E0].
  { rewrite (get_bind p _ t1 e1 He1), Ep1. specialize (IH fuel t1 (kid rot p sub far)).
    replace (addr (kid rot p sub far)) with p in IH by (by destruct rot). rewrite plug_heavy in *.
    assert (Est : stuck (bal (mem t1)) c = stuck (bal (mem t)) c).
    { apply stuck_ext. intros q Hq. rewrite B1, decide_False; [done |]. intros ->.
      apply holds_split in H1k as (_ & _ & _ & Hnd). apply (nodup_ctx c _ p Hnd); [| done].
      destruct rot; cbn [kid addrs]; set_solver. }
    rewrite Est in IH. assert (Hlv1 : level (bal (mem t1)) (addrs (plug c (kid rot p sub far)))).
    { apply (level_put (bal (mem t)) _ _ p (b + delta rot)); [done | done | lia]. }
    specialize (IH ltac:(by destruct rot) ltac:(lia) H1k Hl1 Hlv1). destruct (stuck (bal (mem t)) c); [done |].
    destruct IH as (t2 & R2 & H2 & S2 & L2). exists t2. split; [done |]. split; [done |].
    split; [by eapply same_state_trans | done]. }
  destruct (Z.eqb_spec (b + delta rot) (-2)) as [E2 | E2]; [| destruct (Z.eqb_spec (b + delta rot) 2) as [E3 | E3]]; cbn [orb].
  - assert (rot = true) as -> by (destruct rot; [done | cbn [delta] in *; lia]). by apply (rebalance_deadlock true _ c p sub far).
  - assert (rot = false) as -> by (destruct rot; [cbn [delta] in *; lia | done]). by apply (rebalance_deadlock false _ c p sub far).
  - exists t1. split; [done |]. split; [done |]. split; [done |].
    apply (level_put (bal (mem t)) _ _ p (b + delta rot)); [done | done | lia].
Qed.

(** ** What is left *)

Definition image (m : gmap Z VadEntry) (l : list Z) : list (option (Z * Z * Z * VadType * Z)) :=
  (fun q => contents <$> m !! q) <$> l.

Lemma image_ranges m m' l l' : image m' l' = image m l -> range m' <$> l' = range m <$> l.
Proof.
  unfold image. revert l'. induction l as [| q l IH]; intros [| q' l']; cbn; try done. intros [= Hq Hl].
  f_equal; [by apply (f_equal (fun o => match o with Some (a, b, _, _, _) => (a, b) | None => (0, 0) end)) in Hq; unfold range; destruct (m' !! q'), (m !! q) | by apply IH].
Qed.

Lemma ordered_image m m' l l' : image m' l' = image m l -> ordered m l -> ordered m' l'.
Proof.
  intros H%image_ranges. revert l' H. induction l as [| q l IH]; intros [| q' l'] H; try done; [split; [set_solver | constructor] |].
  cbn in H. injection H as Hq Hl. rewrite !ordered_cons, Hq. intros (H1 & H2 & H3). split; [done |].
  split; [by apply IH |]. intros p Hp.
  assert (range m' p ∈ range m <$> l) as (p' & -> & Hp')%list_elem_of_fmap by (rewrite <- Hl; by apply list_elem_of_fmap_2).
  by apply H3.
Qed.

(** The state in which the node is unlinked and the walk starts. *)
Definition unlinked (c : list frame) (v : Z) (l r : shape) (t : VadTree) : VadTree :=
  let '(C, x, k) := splice_point c v l r in
  mk_tree (new_root C (root t) (addr k)) (locked t) (node_count t) (spliced C k (moved v x (mem t))).

Definition splice_shape (c : list frame) (v : Z) (l r : shape) : shape :=
  let '(C, _, k) := splice_point c v l r in plug C k.

Definition splice_ctx (c : list frame) (v : Z) (l r : shape) : list frame :=
  let '(C, _, _) := splice_point c v l r in C.

Lemma moved_self v m : moved v v m = m.
Proof. unfold moved. by rewrite Z.eqb_refl. Qed.

Lemma new_root_cons C r x : C <> [] -> new_root C r x = r.
Proof. by destruct C. Qed.

(** Either one child at most, or the successor. *)
Lemma splice_cases c v l r :
  (exists rot k, Node v l r = kid rot v k Leaf /\ splice_point c v l r = (c, v, k)) \/
  (l <> Leaf /\ r <> Leaf /\ splice_point c v l r = min_split r (InRight v l :: c)).
Proof.
  destruct l as [| p ll lr]; [left; by exists false, r |].
  destruct r as [| q rl rr]; [left; by exists true, (Node p ll lr) | by right].
Qed.

Lemma min_split_nonempty r f c C x k : min_split r (f :: c) = (C, x, k) -> C <> [].
Proof. intros H. by destruct (min_split_ctx _ _ _ _ _ H) as [-> | (p & k' & C' & ->)]. Qed.

Lemma unlinked_run t c v l r : holds t (plug c (Node v l r)) ->
  remove_node_locked v t = Done (above (splice_ctx c v l r)) (unlinked c v l r t) /\
  holds (unlinked c v l r t) (splice_shape c v l r).
Proof.
  intros Hh. unfold unlinked, splice_ctx, splice_shape.
  destruct (splice_cases c v l r) as [(rot & k & Ek & ->) | (Hl & Hr & ->)].
  - rewrite moved_self, Ek in *. split; [by apply (remove_leafy rot) | by apply (spliced_holds rot _ _ v)].
  - destruct (min_split r (InRight v l :: c)) as [[C x] k] eqn:Hm.
    rewrite new_root_cons by (by eapply min_split_nonempty).
    split; [by apply (remove_full t c v l r C x k) |].
    pose proof (min_split_plug _ _ _ _ _ Hr Hm) as Hp. cbn [plug] in Hp. rewrite Hp in Hh.
    assert (Hmv : holds (on_mem (moved v x) t) (plug C (kid false x k Leaf))).
    { destruct Hh as (H1 & H2 & H3). split; [done | split; [| done]]. cbn [on_mem mem].
      apply (repr_ext (lnk (mem t))); [intros q _; apply moved_links | done]. }
    pose proof (spliced_holds false _ C x k (locked t) (node_count t) Hmv) as Hs.
    by rewrite new_root_cons in Hs by (by eapply min_split_nonempty).
Qed.

(** The contents that are left are the others', in order, and no node leans further than before. *)
Lemma unlinked_image t c v l r : holds t (plug c (Node v l r)) ->
  image (mem (unlinked c v l r t)) (addrs (splice_shape c v l r)) =
    image (mem t) ((before c ++ addrs l) ++ addrs r ++ after c) /\
  (level (bal (mem t)) (addrs (plug c (Node v l r))) ->
   level (bal (mem (unlinked c v l r t))) (addrs (splice_shape c v l r))).
Proof.
  intros Hh. unfold unlinked, splice_shape.
  destruct (splice_cases c v l r) as [(rot & k & Ek & ->) | (Hl & Hr & ->)].
  - rewrite moved_self. cbn [mem].
    assert (Ha : addrs (plug c k) = (before c ++ addrs l) ++ addrs r ++ after c).
    { rewrite addrs_plug. destruct rot; injection Ek as -> ->; cbn [addrs]; rewrite ?app_nil_r, <- ?app_assoc; done. }
    rewrite Ha. split.
    + unfold image. apply list_fmap_ext. intros i q _. apply spliced_contents.
    + intros Hlv q Hq. rewrite spliced_balance. apply Hlv. rewrite addrs_plug. cbn [addrs]. set_solver.
  - destruct (min_split r (InRight v l :: c)) as [[C x] k] eqn:Hm. cbn [mem].
    destruct (min_split_addrs _ _ _ _ _ Hr Hm) as (HbC & w & Er & Ew). cbn [before after] in HbC, Ew.
    assert (Ha : addrs (plug C k) = (before c ++ addrs l) ++ v :: w ++ after c).
    { rewrite addrs_plug, HbC, <- Ew, <- !app_assoc. done. }
    pose proof Hh as (_ & _ & _ & Hnd)%holds_split. cbn [addrs] in Hnd. rewrite Er in *.
    assert (Hv : is_Some (mem t !! v) /\ is_Some (mem t !! x)).
    { destruct Hh as (_ & Hrep & _). split; apply (repr_mem _ _ _ _ Hrep); rewrite addrs_plug; cbn [addrs];
        rewrite Er; set_solver. }
    destruct Hv as [Sv Sx]. rewrite Ha. split.
    + assert (Hkeep : forall q, q <> v -> contents <$> spliced C k (moved v x (mem t)) !! q = contents <$> mem t !! q).
      { intros q Hq. by rewrite spliced_contents, moved_at, decide_False. }
      assert (Hev : contents <$> spliced C k (moved v x (mem t)) !! v = contents <$> mem t !! x).
      { by rewrite spliced_contents, moved_at, decide_True. }
      assert (Hn : forall q, q ∈ (before c ++ addrs l) ++ w ++ after c -> q <> v).
      { intros q Hq ->. apply NoDup_app in Hnd as (_ & Hd & Hnd). apply NoDup_app in Hnd as (Hnd & Hd' & _).
        apply NoDup_app in Hnd as (_ & Hd2 & Hnd). apply NoDup_cons in Hnd as [Hv _]. set_solver. }
      unfold image. rewrite !fmap_app. cbn [fmap list_fmap app]. rewrite !fmap_app, Hev.
      repeat (f_equal; try (apply list_fmap_ext; intros i q Hi; apply Hkeep, Hn; apply list_elem_of_lookup_2 in Hi; set_solver)).
    + intros Hlv q Hq. rewrite spliced_balance, moved_balance by done. apply Hlv. rewrite addrs_plug. cbn [addrs].
      rewrite Er. destruct (decide (q = v)); set_solver.
Qed.

(** ** Searching by address *)

Lemma remove_search_run fuel v ev t par s : (height s <= fuel)%nat -> repr (lnk (mem t)) par s -> ordered (mem t) (addrs s) ->
  mem t !! v = Some ev -> v <> 0 ->
  remove_search fuel v (addr s) t = Done (if decide (v ∈ addrs s) then v else 0) t.
Proof.
  intros Hf Hr Ho Hv Hv0. revert fuel par Hf Hr Ho. induction s as [| p l IHl r IHr]; intros fuel par Hf Hr Ho.
  { destruct fuel; by rewrite decide_False by (cbn [addrs]; set_solver). }
  cbn [height] in Hf. destruct fuel as [| fuel]; [lia |]. cbn [repr addrs] in *. destruct Hr as (Hp & HL & Rl & Rr).
  apply lnk_some in HL as (e & He & _ & El & Er). apply (ordered_node _ _ _ _ e) in Ho as (Ol & Or & Hne & Hl & Hr); [| done].
  assert (Rv := range_at _ _ _ Hv). cbn [remove_search addr]. rewrite (proj2 (Z.eqb_neq _ _) Hp). cbn [orb].
  destruct (Z.eqb_spec p v) as [-> | Hpv]; [by rewrite decide_True by set_solver |].
  rewrite (get_bind v _ t ev Hv), (get_bind p _ t e He), El, Er.
  destruct (Z.ltb_spec (starting_vpn ev) (starting_vpn e)) as [H1 | H1].
  - rewrite (IHl fuel p) by (done || lia). f_equal. apply decide_ext. rewrite elem_of_app, elem_of_cons.
    split; [tauto |]. intros [H | [-> | H]]; [done | done |]. specialize (Hr v H). rewrite Rv in Hr. cbn in Hr. lia.
  - rewrite (IHr fuel p) by (done || lia). f_equal. apply decide_ext. rewrite elem_of_app, elem_of_cons.
    split; [tauto |]. intros [H | [-> | H]]; [| done | done]. specialize (Hl v H). rewrite Rv in Hl. cbn in Hl. lia.
Qed.

(** ** Removal *)

Lemma ordered_without m l1 v l2 : ordered m (l1 ++ v :: l2) -> ordered m (l1 ++ l2).
Proof. rewrite !ordered_app, ordered_cons. set_solver. Qed.

Lemma addrs_around c v l r : addrs (plug c (Node v l r)) = (before c ++ addrs l) ++ v :: addrs r ++ after c.
Proof. rewrite addrs_plug. cbn [addrs]. by rewrite <- !app_assoc. Qed.

Definition removed (t : VadTree) (l : list Z) (t' : VadTree) : Prop :=
  exists s', wf t' s' /\ level (bal (mem t')) (addrs s') /\ image (mem t') (addrs s') = image (mem t) l /\
    node_count t' = wrap 64 (node_count t - 1).

(** The walk from the unlinked node. *)
Definition walk_from (p : Z) : op () := if negb (p =? 0) then rebalance_delete_locked p else mret tt.

Lemma walk_run t C k : holds t (plug C k) -> locked t = true -> level (bal (mem t)) (addrs (plug C k)) ->
  if stuck (bal (mem t)) (tail C) then walk_from (above C) t = Fault Deadlock
  else exists t', walk_from (above C) t = Done tt t' /\ walked t (plug C k) t'.
Proof.
  intros Hh Hl Hlv. destruct C as [| f C]; cbn [tail above]; [by exists t |].
  destruct (frame_heavy f) as (rot & p & far & ->). rewrite heavy_addr, plug_heavy in *.
  destruct (kid_top _ _ _ _ _ _ Hh) as (Hp & e & He & Ep & _). unfold walk_from.
  rewrite (proj2 (Z.eqb_neq _ _) Hp). cbn [negb]. unfold rebalance_delete_locked.
  rewrite fuel_bind, (get_bind p _ t e He), Ep.
  pose proof (delete_up_run (size (mem t)) t C (kid rot p k far)) as Hd.
  replace (addr (kid rot p k far)) with p in Hd by (by destruct rot).
  apply Hd; [by destruct rot | | done..].
  pose proof (holds_size _ _ Hh). pose proof (height_plug C (kid rot p k far)). lia.
Qed.

Lemma same_contents_image m m' l : same_contents m m' -> image m' l = image m l.
Proof. intros H. apply list_fmap_ext. intros i q _. apply H. Qed.

Lemma unlinked_null t c v l r : holds t (plug c (Node v l r)) -> mem t !! 0 = None -> mem (unlinked c v l r t) !! 0 = None.
Proof.
  intros Hh H0. destruct (repr_top _ _ _ _ _ Hh) as (Hv & e & He & _).
  unfold unlinked. destruct (splice_point c v l r) as [[C x] k]. cbn [mem].
  apply (same_null (moved v x (mem t))); [apply spliced_contents |]. unfold moved.
  destruct (v =? x); [done |]. destruct (mem t !! x); [| done]. by rewrite lookup_alter_ne.
Qed.

Lemma remove_member t c v l r : wf t (plug c (Node v l r)) -> level (bal (mem t)) (addrs (plug c (Node v l r))) ->
  if stuck (bal (mem (unlinked c v l r t))) (tail (splice_ctx c v l r)) then remove v t = Fault Deadlock
  else exists t', remove v t = Done Ok t' /\ removed t ((before c ++ addrs l) ++ addrs r ++ after c) t'.
Proof.
  intros Hw Hlv. destruct (wf_height _ _ Hw) as [Hht Hrep]. destruct Hw as (Hh & Hl & H0 & Ho).
  destruct (repr_top _ _ _ _ _ Hh) as (Hv & e & He & _).
  set (t1 := relocked true t). assert (Hh1 : holds t1 (plug c (Node v l r))) by done.
  unfold remove. rewrite lock_bind, root_bind, fuel_bind by done. fold t1.
  assert (Hs : remove_search (size (mem t1)) v (root t1) t1 = Done v t1).
  { destruct Hh as (Hroot & _). cbn [t1 relocked root]. rewrite Hroot.
    rewrite (remove_search_run _ v e t1 0) by done. rewrite decide_True; [done |]. rewrite addrs_plug. cbn [addrs]. set_solver. }
  rewrite (bind_done _ _ _ _ _ Hs), (proj2 (Z.eqb_neq _ _) Hv).
  destruct (unlinked_run t1 c v l r Hh1) as [R2 H2]. destruct (unlinked_image t1 c v l r Hh1) as [I2 L2].
  rewrite (bind_done _ _ _ _ _ R2). pose proof (unlinked_null t1 c v l r Hh1 H0) as N2.
  assert (Hlk : locked (unlinked c v l r t1) = true /\ node_count (unlinked c v l r t1) = node_count t /\
    mem (unlinked c v l r t1) = mem (unlinked c v l r t)).
  { unfold unlinked. by destruct (splice_point c v l r) as [[C x] k]. }
  destruct Hlk as (Hlk & Hnc & Hm). rewrite <- Hm. set (t2 := unlinked c v l r t1) in *. unfold splice_ctx, splice_shape in *.
  destruct (splice_point c v l r) as [[C x] k].
  pose proof (walk_run t2 C k H2 Hlk (L2 Hlv)) as Hwk. fold (walk_from (above C)).
  destruct (stuck (bal (mem t2)) (tail C)); [by rewrite (bind_fault _ _ _ _ Hwk) |].
  destruct Hwk as (t3 & R3 & H3 & (S3 & _ & C3) & L3). rewrite (bind_done _ _ _ _ _ R3), count_bind, unlock_bind.
  eexists. split; [done |]. exists (plug C k). cbn [relocked counted mem node_count].
  assert (Hi : image (mem t3) (addrs (plug C k)) = image (mem t) ((before c ++ addrs l) ++ addrs r ++ after c)).
  { rewrite (same_contents_image (mem t2)) by done. done. }
  split; [| split; [done | split; [done | by rewrite C3, Hnc]]].
  split; [done |]. split; [done |]. split; [by apply (same_null (mem t2)) |].
  apply (ordered_image (mem t) _ _ _ Hi). rewrite addrs_around in Ho. by apply ordered_without in Ho.
Qed.

Lemma remove_stranger t s v : wf t s -> is_Some (mem t !! v) -> v ∉ addrs s -> remove v t = Done Err t.
Proof.
  intros Hw [e He] Hn. destruct (wf_height _ _ Hw) as [Hht Hrep]. destruct Hw as ((Hroot & _) & Hl & H0 & Ho).
  assert (Hv : v <> 0) by (intros ->; by rewrite H0 in He). unfold remove. rewrite lock_bind, root_bind, fuel_bind by done.
  set (t1 := relocked true t).
  assert (Hs : remove_search (size (mem t1)) v (root t1) t1 = Done 0 t1).
  { cbn [t1 relocked root]. rewrite Hroot, (remove_search_run _ v e t1 0) by done. by rewrite decide_False. }
  rewrite (bind_done _ _ _ _ _ Hs). cbn [Z.eqb]. rewrite unlock_bind. unfold mret, op_ret, t1. by rewrite relocked_id.
Qed.

Lemma locate s v : v ∈ addrs s -> exists c l r, s = plug c (Node v l r).
Proof.
  assert (H : forall c s', v ∈ addrs s' -> exists c' l r, plug c s' = plug c' (Node v l r)).
  { intros c s'. revert c. induction s' as [| p l IHl r IHr]; intros c; cbn [addrs]; [set_solver |].
    rewrite elem_of_app, elem_of_cons. intros [Hv | [-> | Hv]].
    - apply (IHl (InLeft p r :: c) Hv).
    - by exists c, l, r.
    - apply (IHr (InRight p l :: c) Hv). }
  apply (H []).
Qed.

(** C24: Removing a VAD from a sorted tree whose balances are between -1 and 1 never follows a bad pointer and
    never loops. It answers an error, and changes nothing, exactly when the VAD is not in the tree; it
    returns exactly when the walk up does not have to rotate, and then the ranges, flags, types and
    protections left in the tree are those of the other VADs in their order; otherwise it deadlocks, because
    the rotation takes the lock that removal holds. *)
Theorem vad_remove t s v : wf t s -> level (bal (mem t)) (addrs s) -> is_Some (mem t !! v) ->
  match remove v t with
  | Done Err t' => t' = t /\ v ∉ addrs s
  | Done Ok t' => (exists l1 l2, addrs s = l1 ++ v :: l2 /\ removed t (l1 ++ l2) t') /\
      forall c l r, s = plug c (Node v l r) ->
        stuck (bal (mem (unlinked c v l r t))) (tail (splice_ctx c v l r)) = false
  | Fault f => f = Deadlock /\ v ∈ addrs s /\
      forall c l r, s = plug c (Node v l r) ->
        stuck (bal (mem (unlinked c v l r t))) (tail (splice_ctx c v l r)) = true
  end.
Proof.
  intros Hw Hlv Hv. destruct (decide (v ∈ addrs s)) as [Hin | Hin]; [| by rewrite (remove_stranger t s)].
  assert (Hall : forall c l r, s = plug c (Node v l r) -> _) by (intros c l r ->; exact (remove_member t c v l r Hw Hlv)).
  destruct (locate s v Hin) as (c & l & r & Es). pose proof (Hall c l r Es) as H0.
  destruct (remove v t) as [[] t' | f] eqn:E.
  - split.
    + destruct (stuck _ _); [done |]. destruct H0 as (t2 & [= <-] & H0). eexists _, _.
      split; [rewrite Es; apply addrs_around | done].
    + intros c' l' r' Es'. specialize (Hall c' l' r' Es'). by destruct (stuck _ _).
  - destruct (stuck _ _); [done |]. by destruct H0 as (t2 & ? & _).
  - assert (f = Deadlock) as -> by (destruct (stuck _ _); [by injection H0 | by destruct H0 as (t2 & ? & _)]).
    split; [done |]. split; [done |]. intros c' l' r' Es'. specialize (Hall c' l' r' Es').
    destruct (stuck _ _); [done |]. by destruct Hall as (t2 & ? & _).
Qed.

Lemma poised_level B s : poised B s -> level B (addrs s).
Proof.
  induction s as [| p l IHl r IHr]; cbn [poised addrs]; [intros _ q Hq; set_solver |].
  intros ((b & Hb & Hlean) & Hl & Hr) q. rewrite elem_of_app, elem_of_cons.
  intros [Hq | [-> | Hq]]; [by apply IHl | | by apply IHr]. exists b. split; [done | apply Hlean].
Qed.

(** The state after a history. *)
Definition state_after (cs : list call) : VadTree :=
  match perform_all cs (new_tree ∅) with Done _ t => t | Fault _ => new_tree ∅ end.

Lemma state_after_ok cs : sensible cs [] = true ->
  exists s, wf (state_after cs) s /\ level (bal (mem (state_after cs))) (addrs s) /\ addrs s = rvad <$> (promise_all cs []).2.
Proof.
  intros H. destruct (simulates_all cs _ _ simulates_empty H) as (t & R & s & Hw & Hp & Ha & _).
  unfold state_after. rewrite R. exists s. split; [done |]. split; [by apply poised_level | done].
Qed.

(** One VAD per page, at the address of its number. *)
Definition page (n : Z) : call := New (1000 + n) (n * 4096) (n * 4096 + 4095) VadNone 4.

Lemma vad_remove_witness :
  (exists s, wf (state_after (page <$> [10; 5; 15])) s /\ level (bal (mem (state_after (page <$> [10; 5; 15])))) (addrs s) /\
    (exists l1 l2 t', addrs s = l1 ++ 1010 :: l2 /\ remove 1010 (state_after (page <$> [10; 5; 15])) = Done Ok t' /\
       removed (state_after (page <$> [10; 5; 15])) (l1 ++ l2) t')).
Proof.
  destruct (state_after_ok (page <$> [10; 5; 15])) as (s & Hw & Hl & Ha); [by vm_compute |].
  exists s. split; [done |]. split; [done |].
  pose proof (vad_remove _ s 1010 Hw Hl ltac:(vm_compute; eauto)) as H.
  destruct (remove 1010 _) as [[] t' | f] eqn:E.
  - destruct H as [(l1 & l2 & H1 & H2) _]. exists l1, l2, t'. exact (conj H1 (conj eq_refl H2)).
  - destruct H as [_ H]. exfalso. apply H. rewrite Ha. vm_compute. right. left.
  - exfalso. vm_compute in E. discriminate.
Defined.

(** ** Behaviours at odds with the comments *)

(** Removing the last of 16, 0 and 15 never returns. *)
Example remove_deadlocks : remove 1015 (state_after (page <$> [16; 0; 15])) = Fault Deadlock.
Proof. vm_compute. reflexivity. Qed.

(** The removed address stays in the tree with the contents of its successor, whose own address
    leaves it: a second removal by that address is refused, and the page it held is still found. *)
Example removed_address_reused : exists t', remove 1010 (state_after (page <$> [10; 5; 15])) = Done Ok t' /\
  remove 1015 t' = Done Err t' /\ find (15 * 4096) t' = Done (Some 1010) t'.
Proof. eexists. split; [vm_compute; reflexivity |]. split; vm_compute; reflexivity. Qed.

(** Three pages in ascending order make a chain. *)
Example insert_makes_chain : depth (state_after (page <$> [1; 2; 3])) = Done 3 (state_after (page <$> [1; 2; 3])).
Proof. vm_compute. reflexivity. Qed.

(** After removals an insertion can follow a null pointer. *)
Definition then_remove (v : Z) (t : VadTree) : VadTree := match remove v t with Done _ t => t | Fault _ => t end.

Example insert_after_removals :
  perform (page 11) (then_remove 1005 (then_remove 1008 (then_remove 1004 (state_after (page <$> [0; 5; 9; 8; 7; 4])))))
  = Fault BadPointer.
Proof. vm_compute. reflexivity. Qed.

(** [find_overlapping] looks at a child only when the child itself may overlap, not its subtree. *)
Example overlapping_missed :
  find_overlapping 5 6 (state_after (page <$> [10; 0; 5])) = Done [] (state_after (page <$> [10; 0; 5])) /\
  find (5 * 4096) (state_after (page <$> [10; 0; 5])) = Done (Some 1005) (state_after (page <$> [10; 0; 5])).
Proof. split; vm_compute; reflexivity. Qed.

(** Merging unlinks a node by its right child and frees it. A predecessor below it, and a VAD below its
    successor, are cut off with the left subtree, and the next step climbs through the freed node. *)
Definition image_page (n : Z) : call := New (1000 + n) (n * 4096) (n * 4096 + 4095) VadImage 4.

Example merge_through_freed :
  merge_adjacent 1008 (state_after (image_page <$> [8; 7; 5])) = Fault BadPointer /\
  merge_adjacent 1007 (state_after (image_page <$> [8; 7])) = Fault BadPointer.
Proof. split; vm_compute; reflexivity. Qed.

(** ** Gaps *)

(** C39: A search for a gap, and one for the space behind the last VAD, never returns on a tree that is not
    locked, for any size that can be rounded up to pages: both take the lock twice. For the other sizes they
    answer that there is none. *)
Theorem vad_gap_searches t base size : locked t = false ->
  find_gap base size t = (if size + 0xFFF <? 2 ^ 64 then Fault Deadlock else Done None t) /\
  find_end_gap base size t = (if size + 0xFFF <? 2 ^ 64 then Fault Deadlock else Done None t).
Proof.
  intros Hl. unfold find_gap, find_end_gap, page_aligned. rewrite !lock_bind by done.
  destruct (size + 0xFFF <? 2 ^ 64); [by rewrite !lock_again |]. rewrite !unlock_bind. unfold mret, op_ret.
  by rewrite relocked_id.
Qed.

Lemma vad_gap_searches_witness : locked (new_tree ∅) = false /\
  find_gap 0 4096 (new_tree ∅) = Fault Deadlock /\ find_end_gap 0 (2 ^ 64 - 1) (new_tree ∅) = Done None (new_tree ∅).
Proof.
  split; [reflexivity |]. split; [apply (vad_gap_searches (new_tree ∅) 0 4096); reflexivity |].
  apply (vad_gap_searches (new_tree ∅) 0 (2 ^ 64 - 1)); reflexivity.
Defined.

(** The gaps themselves, collected without the locks: the gap in front of the root at page 10 is
    listed from page 0, although its left child holds page 5. *)
Example gap_over_vads : let t := state_after (page <$> [10; 5]) in
  exists g1 g2, collect_gaps 3 (root t) 0 1000 t = Done [g1; g2] t /\ g1 = (0, 9) /\
    range (mem t) 1005 = (5, 5) /\ g2 = (0, 4).
Proof. eexists _, _. split; [vm_compute; reflexivity |]. by vm_compute. Qed.

(** ** Overlaps *)

(** Whatever [find_overlapping] returns does overlap, and comes in order. *)
Lemma overlapping_sound fuel t par s a b : (height s <= fuel)%nat -> repr (lnk (mem t)) par s ->
  exists l, find_overlapping_impl fuel (addr s) a b t = Done l t /\
    sublist l (filter (fun q => (range (mem t) q).1 <= b /\ a <= (range (mem t) q).2) (addrs s)).
Proof.
  revert fuel par. induction s as [| p l IHl r IHr]; intros fuel par Hf Hr; [exists []; by destruct fuel |].
  cbn [height] in Hf. destruct fuel as [| fuel]; [lia |]. cbn [repr addrs] in *. destruct Hr as (Hp & HL & Rl & Rr).
  apply lnk_some in HL as (e & He & _ & El & Er). cbn [find_overlapping_impl addr].
  rewrite (proj2 (Z.eqb_neq _ _) Hp), (get_bind p _ t e He), El, Er.
  assert (Hside : forall s', repr (lnk (mem t)) p s' -> (height s' <= fuel)%nat -> forall (ok : VadEntry -> bool),
    (forall fuel' par', (height s' <= fuel')%nat -> repr (lnk (mem t)) par' s' ->
       exists l, find_overlapping_impl fuel' (addr s') a b t = Done l t /\
         sublist l (filter (fun q => (range (mem t) q).1 <= b /\ a <= (range (mem t) q).2) (addrs s'))) ->
    exists l', (if addr s' =? 0 then mret [] else c ← get (addr s');
      if ok c then find_overlapping_impl fuel (addr s') a b else mret []) t = Done l' t /\
      sublist l' (filter (fun q => (range (mem t) q).1 <= b /\ a <= (range (mem t) q).2) (addrs s'))).
  { intros s' Rs Hs ok IH. destruct s' as [| q sl sr] eqn:Es; [by exists [] |]. rewrite <- Es in *.
    destruct (addr s' =? 0); [exists []; split; [done | apply sublist_nil_l] |].
    assert (exists eq, mem t !! addr s' = Some eq) as (eq & Heq).
    { rewrite Es in Rs |- *. destruct Rs as (_ & HL & _). apply lnk_some in HL as (eq & Heq & _). by exists eq. }
    rewrite (get_bind _ _ t eq Heq). destruct (ok eq); [by apply (IH fuel p) | exists []; split; [done | apply sublist_nil_l]]. }
  destruct (Hside l Rl ltac:(lia) (fun c => a <=? ending_vpn c) IHl) as (l1 & R1 & S1).
  destruct (Hside r Rr ltac:(lia) (fun c => starting_vpn c <=? b) IHr) as (l2 & R2 & S2).
  rewrite (bind_done _ _ _ _ _ R1), (bind_done _ _ _ _ _ R2). eexists. split; [done |].
  rewrite filter_app, filter_cons, (range_at _ _ _ He). cbn [fst snd].
  destruct (decide (starting_vpn e <= b /\ a <= ending_vpn e)) as [Hd | Hd].
  - replace ((starting_vpn e <=? b) && (a <=? ending_vpn e)) with true by lia. by apply sublist_app, sublist_skip.
  - replace ((starting_vpn e <=? b) && (a <=? ending_vpn e)) with false by lia. by apply sublist_app.
Qed.

Lemma overlapping_run t s a b : wf t s ->
  exists l, find_overlapping a b t = Done l t /\
    sublist l (filter (fun q => (range (mem t) q).1 <= b /\ a <= (range (mem t) q).2) (addrs s)).
Proof.
  intros Hw. destruct (wf_height _ _ Hw) as [Hh Hr]. destruct (overlapping_sound _ (relocked true t) 0 s a b Hh Hr) as (l & R & S).
  exists l. split; [| done]. pose proof Hw as ((Hroot & _) & Hl & _). unfold find_overlapping.
  rewrite lock_bind, root_bind, fuel_bind by done. cbn [relocked root mem] in *. rewrite Hroot.
  rewrite (bind_done _ _ _ _ _ R), unlock_bind. unfold mret, op_ret. by rewrite relocked_id.
Qed.

(** ** Neighbours *)

(** A node, its parent, and the side it hangs on. *)
Lemma child_side rot p far c t s : s <> Leaf -> holds t (plug (heavy rot p far :: c) s) ->
  p <> 0 /\ exists e ep, mem t !! addr s = Some e /\ parent e = p /\ mem t !! p = Some ep /\
    (vleft ep =? addr s) = rot /\ (vright ep =? addr s) = negb rot.
Proof.
  intros Hs Hh. assert (Hk := Hh). rewrite plug_heavy in Hk. destruct (addr_nonzero _ _ _ Hh Hs) as [Ha Hin].
  assert (He : exists e, mem t !! addr s = Some e /\ parent e = p).
  { destruct s as [| q l r]; [done |]. destruct (repr_top _ _ _ _ _ Hh) as (_ & e & He & Ep & _).
    exists e. split; [done |]. rewrite Ep. apply heavy_addr. }
  destruct He as (e & He & Ep). pose proof Hk as (_ & Hrep & _ & Hnd)%holds_split.
  assert (Hfar : addr far <> addr s).
  { intros E. assert (Hf : addr s ∈ addrs far) by (rewrite <- E; destruct far; [by rewrite <- E in Ha | cbn [addr addrs]; set_solver]).
    apply NoDup_app in Hnd as (_ & _ & Hnd). apply NoDup_app in Hnd as (Hnd & _ & _).
    destruct rot; cbn [kid addrs] in Hnd; apply NoDup_app in Hnd as (_ & Hd & _); [apply (Hd _ Hin) | apply (Hd _ Hf)]; set_solver. }
  destruct rot; cbn [kid repr] in Hrep; destruct Hrep as (Hp & HL & _); apply lnk_some in HL as (ep & Hep & _ & El & Er);
    (split; [done |]); exists e, ep; rewrite El, Er, Z.eqb_refl, (proj2 (Z.eqb_neq _ _) Hfar); done.
Qed.

Lemma climb_left_run fuel t c s : (length c <= fuel)%nat -> s <> Leaf -> holds t (plug c s) ->
  climb_left fuel (addr s) t = Done (default 0 (last (before c))) t.
Proof.
  revert fuel s. induction c as [| f c IH]; intros fuel s Hf Hs Hh.
  - destruct s as [| p l r]; [done |]. destruct (repr_top _ _ _ _ _ Hh) as (_ & e & He & Ep & _).
    cbn [addr]. destruct fuel; cbn [climb_left]; by rewrite (get_bind p _ t e He), Ep.
  - destruct (frame_heavy f) as (rot & p & far & ->).
    destruct (child_side _ _ _ _ _ _ Hs Hh) as (Hp & e & ep & He & Ep & Hep & Hside & _).
    cbn [length] in Hf. destruct fuel as [| fuel]; [lia |]. cbn [climb_left].
    rewrite (get_bind _ _ t e He), Ep, (proj2 (Z.eqb_neq _ _) Hp), (get_bind p _ t ep Hep), Hside.
    destruct rot; cbn [heavy before]; [| by rewrite !last_app].
    change p with (addr (Node p s far)). apply IH; [lia | done | done].
Qed.

Lemma climb_right_run fuel t c s : (length c <= fuel)%nat -> s <> Leaf -> holds t (plug c s) ->
  climb_right fuel (addr s) t = Done (default 0 (head (after c))) t.
Proof.
  revert fuel s. induction c as [| f c IH]; intros fuel s Hf Hs Hh.
  - destruct s as [| p l r]; [done |]. destruct (repr_top _ _ _ _ _ Hh) as (_ & e & He & Ep & _).
    cbn [addr]. destruct fuel; cbn [climb_right]; by rewrite (get_bind p _ t e He), Ep.
  - destruct (frame_heavy f) as (rot & p & far & ->).
    destruct (child_side _ _ _ _ _ _ Hs Hh) as (Hp & e & ep & He & Ep & Hep & _ & Hside).
    cbn [length] in Hf. destruct fuel as [| fuel]; [lia |]. cbn [climb_right].
    rewrite (get_bind _ _ t e He), Ep, (proj2 (Z.eqb_neq _ _) Hp), (get_bind p _ t ep Hep), Hside.
    destruct rot; cbn [heavy after negb]; [done |].
    change p with (addr (Node p far s)). apply IH; [lia | done | done].
Qed.

Lemma rightmost_run fuel t c s : (height s <= fuel)%nat -> s <> Leaf -> holds t (plug c s) ->
  rightmost fuel (addr s) t = Done (default 0 (last (addrs s))) t.
Proof.
  revert fuel c. induction s as [| p l _ r IHr]; intros fuel c Hf Hs Hh; [done |]. cbn [height] in Hf.
  destruct fuel as [| fuel]; [lia |]. destruct (repr_top _ _ _ _ _ Hh) as (Hp & e & He & _ & _ & Er).
  pose proof (addr_leaf _ _ _ _ _ Hh) as [_ Zr]. cbn [rightmost addr addrs]. rewrite (get_bind p _ t e He), Er.
  destruct r as [| q rl rr] eqn:Es; [cbn [addr addrs Z.eqb]; by rewrite last_snoc |]. rewrite <- Es in *.
  assert (Hr0 : r <> Leaf) by (by rewrite Es). rewrite (proj2 (Z.eqb_neq _ _)) by tauto.
  rewrite (IHr fuel (InRight p l :: c)) by (done || lia). rewrite last_app, last_cons.
  destruct (last (addrs r)) eqn:El; [done |]. apply last_None in El. rewrite Es in El. cbn [addrs] in El. by destruct (addrs rl).
Qed.

(** [find_predecessor] gives the VAD in front, or null for the first. *)
Lemma predecessor_run t c v l r : holds t (plug c (Node v l r)) ->
  find_predecessor v t = Done (default 0 (last (before c ++ addrs l))) t.
Proof.
  intros Hh. destruct (repr_top _ _ _ _ _ Hh) as (_ & e & He & _ & El & _). pose proof (addr_leaf _ _ _ _ _ Hh) as [Zl _].
  pose proof (holds_size _ _ Hh) as Hsz. pose proof (height_plug c (Node v l r)) as Hht. cbn [height] in Hht.
  unfold find_predecessor. rewrite fuel_bind, (get_bind v _ t e He), El.
  destruct l as [| q ll lr] eqn:Es.
  - cbn [addr addrs Z.eqb]. rewrite app_nil_r. apply (climb_left_run _ t c (Node v Leaf r)); [lia | done | done].
  - rewrite <- Es in *. assert (Hl0 : l <> Leaf) by (by rewrite Es). rewrite (proj2 (Z.eqb_neq _ _)) by tauto.
    rewrite (rightmost_run _ t (InLeft v r :: c) l) by (done || lia). rewrite last_app.
    destruct (last (addrs l)) eqn:E; [done |]. apply last_None in E. rewrite Es in E. cbn [addrs] in E. by destruct (addrs ll).
Qed.

(** [find_successor] gives the VAD behind, or null for the last. *)
Lemma successor_run t c v l r : holds t (plug c (Node v l r)) ->
  find_successor v t = Done (default 0 (head (addrs r ++ after c))) t.
Proof.
  intros Hh. destruct (repr_top _ _ _ _ _ Hh) as (_ & e & He & _ & _ & Er). pose proof (addr_leaf _ _ _ _ _ Hh) as [_ Zr].
  pose proof (holds_size _ _ Hh) as Hsz. pose proof (height_plug c (Node v l r)) as Hht. cbn [height] in Hht.
  unfold find_successor. rewrite fuel_bind, (get_bind v _ t e He), Er.
  destruct r as [| q rl rr] eqn:Es.
  - cbn [addr addrs Z.eqb app]. apply (climb_right_run _ t c (Node v l Leaf)); [lia | done | done].
  - rewrite <- Es in *. assert (Hr0 : r <> Leaf) by (by rewrite Es). rewrite (proj2 (Z.eqb_neq _ _)) by tauto.
    destruct (min_split r (InRight v l :: c)) as [[C x] k] eqn:Hm.
    rewrite (min_node_run _ t (InRight v l :: c) r C x k) by (done || lia).
    by destruct (min_split_addrs _ _ _ _ _ Hr0 Hm) as (_ & w & -> & _).
Qed.

End VadRemove.
