(* ===== verification/Heap.v ===== *)
(** * The kernel heap ([mm/heap.rs])

    The global allocator of the kernel: a bump pointer, an intrusive list of free blocks with best
    fit and coalescing, and a header before each allocation. Memory is a function from addresses
    to 64-bit words, so that the list and the headers live in the memory that is handed out. The
    specification is a list of free blocks and a list of live allocations; the property is that no
    history of allocations, releases and writes of the owners makes them meet. *)

From Stdlib Require Import ZArith Lia.
From S2P Require Import Prelude.

Module Heap.

Local Open Scope Z_scope.

(** ** Data *)

(** [core::alloc::Layout] *)
Record Layout := mk_layout { lsize : Z; lalign : Z }.

Record HeapControl := mk_control {
  base_address : Z; reserve_size : Z; commit_size : Z;
  allocation_algorithm : Z; cflags : Z; next_free : Z }.

Record HeapStats := mk_stats {
  total_allocations : Z; total_frees : Z; current_allocated : Z; peak_allocated : Z;
  failed_allocations : Z; free_list_hits : Z; free_list_misses : Z; free_list_split : Z }.

Definition stats_new : HeapStats := mk_stats 0 0 0 0 0 0 0 0.

(** The words of the memory, by address. *)
Definition memory := Z -> Z.

Definition store (m : memory) (a v : Z) : memory := fun w => if w =? a then v else m w.

Record KernelHeap := mk_heap {
  base : Z; hsize : Z; next : Z; initialized : bool; control : HeapControl;
  allocated : Z; stats : HeapStats; free_list_head : Z; mem : memory }.

Definition heap_new (m : memory) : KernelHeap :=
  mk_heap 0 0 0 false (mk_control 0 0 0 0 0 0) 0 stats_new 0 m.

Definition configure (h : KernelHeap) (b size : Z) : KernelHeap :=
  mk_heap b size b true
    (mk_control b size size (allocation_algorithm (control h)) (cflags (control h)) b)
    (allocated h) (stats h) (free_list_head h) (mem h).

(** The two words of [FreeBlock] are [size] and [next], those of [AllocationHeader] are [magic] and
    [block_size]. *)
Definition FREE_BLOCK : Z := 16.
Definition MAGIC : Z := 0x4e54363148454150.
Definition SIZE : Z := 16.

Definition set_list (h : KernelHeap) (hd : Z) (m : memory) : KernelHeap :=
  mk_heap (base h) (hsize h) (next h) (initialized h) (control h) (allocated h) (stats h) hd m.
Definition set_next (h : KernelHeap) (n : Z) : KernelHeap :=
  mk_heap (base h) (hsize h) n (initialized h) (control h) (allocated h) (stats h) (free_list_head h) (mem h).
Definition set_stats (h : KernelHeap) (s : HeapStats) : KernelHeap :=
  mk_heap (base h) (hsize h) (next h) (initialized h) (control h) (allocated h) s (free_list_head h) (mem h).

Definition align_up (val align : Z) : Z :=
  Z.land (val +[64] align -[64] 1) (wnot 64 (align -[64] 1)).

Definition configured_region (h : KernelHeap) : option (Z * Z) :=
  if negb (initialized h) then None
  else if (base h =? 0) || (hsize h =? 0) then None
  else Some (base h, hsize h).

Definition is_in_heap_range (h : KernelHeap) (ptr size : Z) : bool :=
  let heap_end := base h +[64] hsize h in
  (base h <=? ptr) && (ptr +[64] size <=? heap_end).

(** ** The free list *)

(** A list below the bump pointer has at most this many blocks, of 16 bytes each. *)
Definition list_fuel (h : KernelHeap) : nat := S (Z.to_nat ((next h - base h) / FREE_BLOCK)).

(** [cur] is taken out of the list. *)
Definition unlink (hd : Z) (m : memory) (prev cur_next : Z) : Z * memory :=
  if prev =? 0 then (cur_next, m) else (hd, store m (prev + 8) cur_next).

(** One scan for a block that touches [[maddr, maddr + msize)]. *)
Fixpoint merge_scan (fuel : nat) (hd : Z) (m : memory) (prev cur maddr msize : Z)
    : outcome (Z * memory * Z * Z * bool) :=
  if cur =? 0 then Ret (hd, m, maddr, msize, false)
  else match fuel with
  | O => OutOfFuel
  | S fuel =>
      let cur_size := m cur in
      let cur_next := m (cur + 8) in
      if cur +[64] cur_size =? maddr then
        let '(hd, m) := unlink hd m prev cur_next in
        Ret (hd, m, cur, msize +[64] cur_size, true)
      else if maddr +[64] msize =? cur then
        let '(hd, m) := unlink hd m prev cur_next in
        Ret (hd, m, maddr, msize +[64] cur_size, true)
      else merge_scan fuel hd m cur cur_next maddr msize
  end.

Fixpoint merge_loop (fuel scan : nat) (hd : Z) (m : memory) (maddr msize : Z) : outcome (Z * memory * Z * Z) :=
  match fuel with
  | O => OutOfFuel
  | S fuel =>
      '(hd, m, maddr, msize, merged) ← merge_scan scan hd m 0 hd maddr msize;
      if (merged : bool) then merge_loop fuel scan hd m maddr msize else Ret (hd, m, maddr, msize)
  end.

Definition add_to_free_list (h : KernelHeap) (block size : Z) : outcome KernelHeap :=
  '(hd, m, maddr, msize) ← merge_loop (list_fuel h) (list_fuel h) (free_list_head h) (mem h) block size;
  if maddr +[64] msize =? next h then Ret (set_next (set_list h hd m) maddr)
  else Ret (set_list h maddr (store (store m maddr msize) (maddr + 8) hd)).

(** The smallest block that is large enough, with its predecessor. *)
Fixpoint best_scan (fuel : nat) (m : memory) (needed best_prev best best_size prev cur : Z) : outcome (Z * Z * Z) :=
  if cur =? 0 then Ret (best_prev, best, best_size)
  else match fuel with
  | O => OutOfFuel
  | S fuel =>
      let cur_size := m cur in
      if (needed <=? cur_size) && (cur_size <? best_size)
      then best_scan fuel m needed prev cur cur_size cur (m (cur + 8))
      else best_scan fuel m needed best_prev best best_size cur (m (cur + 8))
  end.

Definition needed_size (l : Layout) : Z :=
  SIZE +[64] align_up (lsize l) 8 +[64] sat_sub (Z.max (lalign l) 8) 1.

(** The chosen block is unlinked and cut; what is left in front and behind goes back if it can hold
    a list entry. *)
Definition take_best (h : KernelHeap) (l : Layout) (best_prev best best_size : Z) : outcome (Z * KernelHeap) :=
  let allocation_size := align_up (lsize l) 8 in
  let alignment := Z.max (lalign l) 8 in
  let '(hd, m) := unlink (free_list_head h) (mem h) best_prev (mem h (best + 8)) in
  let h := set_list h hd m in
  let aligned_addr := align_up (best +[64] SIZE) alignment in
  let header_addr := aligned_addr -[64] SIZE in
  let block_end := best +[64] best_size in
  let leftover := header_addr -[64] best in
  h ← (if FREE_BLOCK <=? leftover then add_to_free_list h best leftover else Ret h);
  let used_size := aligned_addr +[64] allocation_size -[64] header_addr in
  let remaining := block_end -[64] (header_addr +[64] used_size) in
  h ← (if FREE_BLOCK <=? remaining then
         let remaining_addr := align_up (aligned_addr +[64] allocation_size) 8 in
         let remaining_size := block_end -[64] remaining_addr in
         if FREE_BLOCK <=? remaining_size then add_to_free_list h remaining_addr remaining_size else Ret h
       else Ret h);
  Ret (aligned_addr,
       set_list h (free_list_head h) (store (store (mem h) header_addr MAGIC) (header_addr + 8) used_size)).

Definition alloc_from_free_list (h : KernelHeap) (l : Layout) : outcome (option Z * KernelHeap) :=
  '(best_prev, best, best_size) ←
    best_scan (list_fuel h) (mem h) (needed_size l) 0 0 (2 ^ 64 - 1) 0 (free_list_head h);
  if best =? 0 then Ret (None, h)
  else
    '(ptr, h) ← take_best h l best_prev best best_size;
    Ret (Some ptr, h).

(** ** Allocation and release *)

Definition count_alloc (s : HeapStats) (size : Z) (hit : bool) : HeapStats :=
  let cur := current_allocated s +[64] size in
  mk_stats (total_allocations s +[64] 1) (total_frees s) cur
    (if peak_allocated s <? cur then cur else peak_allocated s) (failed_allocations s)
    (if hit then free_list_hits s +[64] 1 else free_list_hits s) (free_list_misses s) (free_list_split s).

Definition count_miss (s : HeapStats) : HeapStats :=
  mk_stats (total_allocations s) (total_frees s) (current_allocated s) (peak_allocated s) (failed_allocations s)
    (free_list_hits s) (free_list_misses s +[64] 1) (free_list_split s).

Definition count_failed (s : HeapStats) : HeapStats :=
  mk_stats (total_allocations s) (total_frees s) (current_allocated s) (peak_allocated s)
    (failed_allocations s +[64] 1) (free_list_hits s) (free_list_misses s) (free_list_split s).

Definition count_free (s : HeapStats) (size : Z) : HeapStats :=
  mk_stats (total_allocations s) (total_frees s +[64] 1) (sat_sub (current_allocated s) size) (peak_allocated s)
    (failed_allocations s) (free_list_hits s) (free_list_misses s) (free_list_split s).

(** The bump pointer. The lock is held, so the compare and exchange succeeds at once. *)
Definition bump (h : KernelHeap) (l : Layout) : Z * KernelHeap :=
  let h := set_stats h (count_miss (stats h)) in
  let aligned := align_up (next h +[64] SIZE) (Z.max (lalign l) 8) in
  let allocation_size := align_up (lsize l) 8 in
  let new_next := align_up (aligned +[64] allocation_size) 8 in
  if base h +[64] hsize h <? new_next then (0, set_stats h (count_failed (stats h)))
  else
    let header := aligned -[64] SIZE in
    (aligned,
     mk_heap (base h) (hsize h) new_next (initialized h) (control h) (allocated h +[64] lsize l)
       (count_alloc (stats h) (lsize l) false) (free_list_head h)
       (store (store (mem h) header MAGIC) (header + 8) (new_next -[64] header))).

Definition alloc (h : KernelHeap) (l : Layout) : outcome (Z * KernelHeap) :=
  if negb (initialized h) then Ret (0, h)
  else if (base h =? 0) || (hsize h =? 0) then Ret (0, h)
  else
    '(hit, h) ← alloc_from_free_list h l;
    match hit with
    | Some ptr => Ret (ptr, set_stats h (count_alloc (stats h) (lsize l) true))
    | None => Ret (bump h l)
    end.

Definition dealloc (h : KernelHeap) (ptr : Z) (l : Layout) : outcome KernelHeap :=
  if negb (ptr =? 0) && (SIZE <=? ptr) then
    let header := ptr - SIZE in
    let magic := mem h header in
    let block_size := mem h (header + 8) in
    if negb (magic =? MAGIC) || (block_size <? FREE_BLOCK) || negb (is_in_heap_range h header block_size)
    then Ret h
    else
      h ← add_to_free_list h header block_size;
      Ret (set_stats h (count_free (stats h) (lsize l)))
  else Ret h.

(** The first of three sizes that the frame allocator has, in pages. A region that is not usable
    afterwards is a bug check. *)
Definition HEAP_PAGES_LARGE : Z := 256 * 1024 * 1024 / 4096.
Definition HEAP_PAGES_MEDIUM : Z := 32 * 1024 * 1024 / 4096.
Definition HEAP_PAGES_SMALL : Z := 16 * 1024 * 1024 / 4096.

Definition configure_pages (h : KernelHeap) (phys pages : Z) : outcome KernelHeap :=
  let h := configure h phys (pages *[64] 4096) in
  match configured_region h with Some _ => Ret h | None => Panic end.

Definition heap_init {F : Type} (allocate_pages : F -> Z -> outcome (option Z * F)) (f : F) (h : KernelHeap)
    : outcome (F * KernelHeap) :=
  '(r, f) ← allocate_pages f HEAP_PAGES_LARGE;
  match r with
  | Some p => h ← configure_pages h p HEAP_PAGES_LARGE; Ret (f, h)
  | None =>
      '(r, f) ← allocate_pages f HEAP_PAGES_MEDIUM;
      match r with
      | Some p => h ← configure_pages h p HEAP_PAGES_MEDIUM; Ret (f, h)
      | None =>
          '(r, f) ← allocate_pages f HEAP_PAGES_SMALL;
          match r with
          | Some p => h ← configure_pages h p HEAP_PAGES_SMALL; Ret (f, h)
          | None => Ret (f, h)
          end
      end
  end.

Definition get_allocated (h : KernelHeap) : Z := allocated h.
Definition get_free (h : KernelHeap) : Z := sat_sub (hsize h) (sat_sub (next h) (base h)).

(** ** Blocks *)

(** An address and a size. *)
Notation block := (Z * Z)%type.

Definition apart (b c : block) : Prop := b.1 + b.2 <= c.1 \/ c.1 + c.2 <= b.1.

Fixpoint pairwise (l : list block) : Prop :=
  match l with [] => True | b :: l => Forall (apart b) l /\ pairwise l end.

#[export] Instance apart_sym : Symmetric apart.
Proof. unfold Symmetric, apart. tauto. Qed.

#[export] Instance pairwise_perm : Proper ((≡ₚ) ==> iff) pairwise.
Proof.
  assert (H : forall l k, l ≡ₚ k -> pairwise l -> pairwise k).
  { induction 1 as [| b l k Hp IH | b c l | l1 l2 l3 _ IH1 _ IH2]; cbn [pairwise]; auto.
    - intros [H1 H2]. split; [by rewrite <- Hp | by apply IH].
    - rewrite !Forall_cons. intros ((H1 & H2) & H3 & H4). split; [split; [by symmetry | done] | done]. }
  intros l k Hp. split; apply H; [done | by symmetry].
Qed.

Lemma pairwise_app l k : pairwise (l ++ k) <-> pairwise l /\ pairwise k /\ (forall b c, b ∈ l -> c ∈ k -> apart b c).
Proof.
  induction l as [| b l IH]; cbn [app pairwise]; [set_solver |]. rewrite IH, Forall_app, !Forall_forall. set_solver.
Qed.

Lemma pairwise_cons b l : pairwise (b :: l) <-> (forall c, c ∈ l -> apart b c) /\ pairwise l.
Proof. cbn [pairwise]. by rewrite Forall_forall. Qed.

(** A block of the heap, between [lo] and [hi]. *)
Definition block_ok (lo hi : Z) (b : block) : Prop :=
  lo <= b.1 /\ b.1 + b.2 <= hi /\ 16 <= b.2 /\ (8 | b.1) /\ (8 | b.2).

Definition inside (w : Z) (b : block) : Prop := b.1 <= w < b.1 + b.2.

(** [m'] differs from [m] only inside the blocks. *)
Definition only_in (l : list block) (m m' : memory) : Prop := forall w, (forall b, b ∈ l -> ~ inside w b) -> m' w = m w.

Lemma only_in_refl l m : only_in l m m.
Proof. done. Qed.

Lemma only_in_trans l m1 m2 m3 : only_in l m1 m2 -> only_in l m2 m3 -> only_in l m1 m3.
Proof. intros H1 H2 w Hw. rewrite H2 by done. by apply H1. Qed.

Lemma only_in_mono l k m m' : (forall b, b ∈ l -> b ∈ k) -> only_in l m m' -> only_in k m m'.
Proof. intros H Hm w Hw. apply Hm. auto. Qed.

(** The addresses of [l] are addresses of [k]. *)
Definition covers (l k : list block) : Prop := forall b w, b ∈ l -> inside w b -> exists c, c ∈ k /\ inside w c.

Lemma covers_sub l k : (forall b, b ∈ l -> b ∈ k) -> covers l k.
Proof. intros H b w Hb Hw. exists b. auto. Qed.

Lemma covers_trans l k j : covers l k -> covers k j -> covers l j.
Proof. intros H1 H2 b w Hb Hw. destruct (H1 b w Hb Hw) as (c & Hc & Hwc). by apply (H2 c). Qed.

Lemma covers_app l k j : covers l j -> covers k j -> covers (l ++ k) j.
Proof. intros H1 H2 b w. rewrite elem_of_app. intros [Hb | Hb]; [by apply H1 | by apply H2]. Qed.

Lemma covers_one b c k : c ∈ k -> c.1 <= b.1 -> b.1 + b.2 <= c.1 + c.2 -> covers [b] k.
Proof. intros Hc H1 H2 d w. rewrite list_elem_of_singleton. intros -> Hw. exists c. split; [done |]. unfold inside in *. lia. Qed.

Lemma only_in_covers l k m m' : covers l k -> only_in l m m' -> only_in k m m'.
Proof. intros H Hm w Hw. apply Hm. intros b Hb Hi. destruct (H b w Hb Hi) as (c & Hc & Hic). by apply (Hw c). Qed.

Lemma only_in_store l m a v b : b ∈ l -> inside a b -> only_in l m (store m a v).
Proof.
  intros Hb Ha w Hw. unfold store. destruct (Z.eqb_spec w a) as [-> |]; [| done]. exfalso. by apply (Hw b).
Qed.

Lemma store_at m a v : store m a v a = v.
Proof. unfold store. by rewrite Z.eqb_refl. Qed.

Lemma store_ne m a v w : w <> a -> store m a v w = m w.
Proof. intros H. unfold store. by rewrite (proj2 (Z.eqb_neq _ _) H). Qed.

(** ** The list in memory *)

Fixpoint seg (m : memory) (p : Z) (l : list block) (q : Z) : Prop :=
  match l with
  | [] => p = q
  | (a, s) :: l => p = a /\ a <> 0 /\ m a = s /\ seg m (m (a + 8)) l q
  end.

Lemma seg_app m p l k q : seg m p (l ++ k) q <-> exists r, seg m p l r /\ seg m r k q.
Proof.
  revert p. induction l as [| [a s] l IH]; intros p; cbn [app seg].
  - split; [intros H; by exists p | by intros (r & -> & H)].
  - rewrite IH. naive_solver.
Qed.

Lemma seg_ext m m' p l q : (forall b, b ∈ l -> m' b.1 = m b.1 /\ m' (b.1 + 8) = m (b.1 + 8)) -> seg m p l q -> seg m' p l q.
Proof.
  revert p. induction l as [| [a s] l IH]; intros p H; cbn [seg]; [done |].
  destruct (H (a, s)) as [H1 H2]; [set_solver |]. cbn in H1, H2. rewrite H1, H2.
  intros (-> & Ha & Hs & Hl). repeat split; try done. apply IH; [set_solver | done].
Qed.

(** The words of a block keep their values when only others are written. *)
Lemma words_apart lo hi b l m m' : only_in l m m' -> (forall c, c ∈ l -> apart b c) -> block_ok lo hi b ->
  forall w, inside w b -> m' w = m w.
Proof.
  intros Hm Hb _ w Hw. apply Hm. intros c Hc Hwc. specialize (Hb c Hc). unfold inside, apart in *. lia.
Qed.

Definition last_addr (l : list block) : Z := match last l with Some b => b.1 | None => 0 end.

Lemma unlink_run lo hi hd m l b k : seg m hd (l ++ b :: k) 0 -> pairwise (l ++ b :: k) ->
  Forall (block_ok lo hi) (l ++ b :: k) ->
  exists hd' m', unlink hd m (last_addr l) (m (b.1 + 8)) = (hd', m') /\ seg m' hd' (l ++ k) 0 /\ only_in l m m'.
Proof.
  intros Hs Hp Hok. destruct b as [a s]. unfold unlink, last_addr.
  destruct l as [| c l _] using rev_ind.
  { cbn [last app seg] in *. destruct Hs as (-> & Ha & _ & Hs). eexists _, _. split; [done |]. split; [done |]. apply only_in_refl. }
  rewrite last_snoc. destruct c as [p ps]. cbn [fst].
  rewrite <- app_assoc in Hs, Hp, Hok. cbn [app] in Hs, Hp, Hok. apply seg_app in Hs as (r & Hl & Hc).
  cbn [seg] in Hc. destruct Hc as (-> & Hp0 & Hps & Ea & Ha & Has & Hk).
  rewrite (proj2 (Z.eqb_neq _ _) Hp0). eexists _, _. split; [done |].
  rewrite Forall_app, !Forall_cons in Hok. destruct Hok as (Hokl & Hokp & _ & Hokk).
  rewrite pairwise_app, !pairwise_cons in Hp. destruct Hp as (_ & (Hpc & Hac & _) & Hlc).
  unfold block_ok in Hokp. cbn [fst snd] in *.
  assert (Hne : forall b, b ∈ l ++ k -> b.1 <> p + 8 /\ b.1 + 8 <> p + 8).
  { intros b Hb. assert (Hap : apart b (p, ps)).
    { apply elem_of_app in Hb as [Hb | Hb]; [apply Hlc; set_solver | symmetry; apply Hpc; set_solver]. }
    assert (Hbo : block_ok lo hi b).
    { rewrite Forall_forall in Hokl, Hokk. apply elem_of_app in Hb as [Hb | Hb]; auto. }
    unfold apart, block_ok in *. cbn [fst snd] in *. lia. }
  split.
  - rewrite <- app_assoc. apply seg_app. exists p. split.
    + apply (seg_ext m); [| done]. intros b Hb. destruct (Hne b ltac:(set_solver)). by rewrite !store_ne.
    + cbn [app seg]. rewrite (store_ne _ _ _ p) by lia. rewrite store_at. repeat split; try done.
      apply (seg_ext m); [| done]. intros b Hb. destruct (Hne b ltac:(set_solver)). by rewrite !store_ne.
  - apply (only_in_store _ _ _ _ (p, ps)); [set_solver |]. unfold inside. cbn. lia.
Qed.

(** ** Coalescing *)

Definition touches (x b : block) : Prop := b.1 + b.2 = x.1 \/ x.1 + x.2 = b.1.

Definition join (x b : block) : block := if b.1 + b.2 =? x.1 then (b.1, x.2 + b.2) else (x.1, x.2 + b.2).

Lemma last_addr_snoc l b : last_addr (l ++ [b]) = b.1.
Proof. unfold last_addr. by rewrite last_snoc. Qed.

Lemma wrap64 x lo hi : 0 <= lo <= x -> x <= hi -> hi < 2 ^ 64 -> wrap 64 x = x.
Proof. intros. apply wrap_small. unfold u_ty. lia. Qed.

Section scan.
Context (lo hi : Z) (Hlo : 0 < lo) (Hhi : hi < 2 ^ 64).

Lemma merge_scan_run fuel hd m f1 f2 x : (length f2 <= fuel)%nat -> seg m hd (f1 ++ f2) 0 ->
  pairwise (x :: f1 ++ f2) -> Forall (block_ok lo hi) (x :: f1 ++ f2) ->
  (forall r, seg m hd f1 r -> seg m r f2 0 ->
   (forall b, b ∈ f2 -> ~ touches x b) /\ merge_scan fuel hd m (last_addr f1) r x.1 x.2 = Ret (hd, m, x.1, x.2, false) \/
   exists g b k hd' m', f2 = g ++ b :: k /\ touches x b /\
     merge_scan fuel hd m (last_addr f1) r x.1 x.2 = Ret (hd', m', (join x b).1, (join x b).2, true) /\
     seg m' hd' (f1 ++ g ++ k) 0 /\ only_in (f1 ++ f2) m m').
Proof.
  revert fuel f1. induction f2 as [| b f2 IH]; intros fuel f1 Hf Hs Hp Hok r H1 H2.
  { cbn [seg] in H2. subst r. left. split; [set_solver |]. by destruct fuel. }
  cbn [length] in Hf. destruct fuel as [| fuel]; [lia |]. destruct b as [a s]. cbn [seg] in H2.
  destruct H2 as (-> & Ha & Hs2 & H2). cbn [merge_scan]. rewrite (proj2 (Z.eqb_neq _ _) Ha), Hs2.
  assert (Hab : block_ok lo hi (a, s) /\ block_ok lo hi x) by (rewrite Forall_forall in Hok; split; apply Hok; set_solver).
  destruct Hab as [Hoka Hokx]. assert (Hpl : pairwise (f1 ++ (a, s) :: f2)) by exact (proj2 Hp).
  assert (Hokl : Forall (block_ok lo hi) (f1 ++ (a, s) :: f2)) by (by apply Forall_cons in Hok as [_ Hok]).
  destruct (unlink_run lo hi hd m f1 (a, s) f2 Hs Hpl Hokl) as (hd' & m' & Hu & Hs' & Hm'). cbn [fst] in Hu.
  unfold block_ok in Hoka, Hokx. cbn [fst snd] in *.
  rewrite (wrap64 (a + s) lo hi), (wrap64 (x.1 + x.2) lo hi) by lia. destruct (Z.eqb_spec (a + s) x.1) as [E | E].
  { right. exists [], (a, s), f2, hd', m'. rewrite Hu. split; [done |]. split; [by left |].
    unfold join. cbn [fst snd]. rewrite (proj2 (Z.eqb_eq _ _) E). cbn [fst snd].
    rewrite (wrap64 _ 0 hi) by lia. split; [done |]. split; [done |].
    apply (only_in_mono f1); [set_solver | done]. }
  destruct (Z.eqb_spec (x.1 + x.2) a) as [E2 | E2].
  { right. exists [], (a, s), f2, hd', m'. rewrite Hu. split; [done |]. split; [by right |].
    unfold join. cbn [fst snd]. rewrite (proj2 (Z.eqb_neq _ _) E). cbn [fst snd].
    rewrite (wrap64 _ 0 hi) by lia. split; [done |]. split; [done |].
    apply (only_in_mono f1); [set_solver | done]. }
  destruct (IH fuel (f1 ++ [(a, s)])) with (r := m (a + 8)) as [[Hno R] | (g & b & k & hd2 & m2 & -> & Ht & R & Hs2' & Hm2)];
    rewrite <- ?app_assoc; cbn [app]; try done; [lia | | |].
  - apply seg_app. exists a. by repeat split.
  - rewrite last_addr_snoc in R. left. split; [| done]. intros b. rewrite elem_of_cons. intros [-> | Hb]; [| by apply Hno]. unfold touches. cbn. lia.
  - rewrite last_addr_snoc in R. right. exists ((a, s) :: g), b, k, hd2, m2.
    split; [done |]. split; [done |]. split; [done |].
    rewrite <- !app_assoc in *. cbn [app] in *. by split.
Qed.

(** Blocks that touch, taken in until none is left. *)
Lemma join_ok x b : touches x b -> apart x b -> block_ok lo hi x -> block_ok lo hi b -> block_ok lo hi (join x b).
Proof.
  unfold touches, block_ok, join. intros Ht Ha (H1 & H2 & H3 & H4 & H5) (K1 & K2 & K3 & K4 & K5).
  destruct (Z.eqb_spec (b.1 + b.2) x.1); cbn [fst snd]; repeat split; try done; try lia; by apply Z.divide_add_r.
Qed.

Lemma join_inside x b w : touches x b -> apart x b -> block_ok lo hi x -> block_ok lo hi b ->
  (inside w (join x b) <-> inside w x \/ inside w b).
Proof.
  unfold touches, block_ok, join, inside, apart. intros Ht Ha (H1 & H2 & H3 & _) (K1 & K2 & K3 & _).
  destruct (Z.eqb_spec (b.1 + b.2) x.1); cbn [fst snd]; lia.
Qed.

Lemma join_apart x b c : touches x b -> apart x b -> block_ok lo hi x -> block_ok lo hi b -> block_ok lo hi c ->
  apart x c -> apart b c -> apart (join x b) c.
Proof.
  unfold touches, block_ok, join, apart. intros Ht Ha (H1 & H2 & H3 & _) (K1 & K2 & K3 & _) (C1 & C2 & C3 & _).
  destruct (Z.eqb_spec (b.1 + b.2) x.1); cbn [fst snd]; lia.
Qed.

Lemma pairwise_join x b l : touches x b -> pairwise (x :: b :: l) -> Forall (block_ok lo hi) (x :: b :: l) ->
  pairwise (join x b :: l) /\ Forall (block_ok lo hi) (join x b :: l).
Proof.
  rewrite !pairwise_cons, !Forall_cons. intros Ht (Hx & Hb & Hp) (Ox & Ob & Ol).
  assert (Hxb : apart x b) by (apply Hx; set_solver).
  split; (split; [| done]); [| by apply join_ok]. intros c Hc. rewrite Forall_forall in Ol.
  apply join_apart; auto. apply Hx. set_solver.
Qed.

Lemma merge_loop_run fuel scan hd m fl L x : (length fl < fuel)%nat -> (length fl <= scan)%nat -> seg m hd fl 0 ->
  pairwise (x :: fl ++ L) -> Forall (block_ok lo hi) (x :: fl ++ L) ->
  exists hd' m' fl' x', merge_loop fuel scan hd m x.1 x.2 = Ret (hd', m', x'.1, x'.2) /\ seg m' hd' fl' 0 /\
    pairwise (x' :: fl' ++ L) /\ Forall (block_ok lo hi) (x' :: fl' ++ L) /\
    (forall b, b ∈ fl' -> ~ touches x' b) /\ (forall b, b ∈ fl' -> b ∈ fl) /\ only_in fl m m' /\
    (forall w, inside w x' -> inside w x \/ exists b, b ∈ fl /\ inside w b) /\
    x'.2 + msum snd fl' = x.2 + msum snd fl.
Proof.
  revert fuel hd m fl x. induction fuel as [| fuel IH]; intros hd m fl x Hf Hsc Hs Hp Hok; [lia |].
  cbn [merge_loop].
  assert (Hpx : pairwise (x :: fl)) by (change (x :: fl ++ L) with ((x :: fl) ++ L) in Hp; by apply pairwise_app in Hp as [Hp _]).
  assert (Hokx : Forall (block_ok lo hi) (x :: fl)) by (change (x :: fl ++ L) with ((x :: fl) ++ L) in Hok; by apply Forall_app in Hok as [Hok _]).
  destruct (merge_scan_run scan hd m [] fl x Hsc Hs Hpx Hokx hd eq_refl Hs)
    as [[Hno R] | (g & b & k & hd2 & m2 & -> & Ht & R & Hs2 & Hm2)]; change (last_addr []) with 0 in R; rewrite R.
  { exists hd, m, fl, x. split; [done |]. split; [done |]. split; [done |]. split; [done |]. split; [done |].
    split; [done |]. split; [apply only_in_refl |]. split; [| done]. by left. }
  cbn [app] in *. autorewrite with nt. cbn iota beta.
  assert (Hperm : x :: (g ++ b :: k) ++ L ≡ₚ x :: b :: (g ++ k) ++ L) by (rewrite <- Permutation_middle; done).
  rewrite Hperm in Hp, Hok. destruct (pairwise_join x b _ Ht Hp Hok) as [Hp2 Hok2].
  rewrite length_app in Hf, Hsc. cbn [length] in Hf, Hsc.
  destruct (IH hd2 m2 (g ++ k) (join x b)) as (hd' & m' & fl' & x' & R' & A1 & A2 & A3 & A4 & A5 & A6 & A7 & A8);
    [rewrite length_app; lia | rewrite length_app; lia | done | done | done |].
  exists hd', m', fl', x'. split; [done |]. split; [done |]. split; [done |]. split; [done |]. split; [done |].
  split; [intros c Hc; specialize (A5 c Hc); set_solver |].
  split; [apply (only_in_trans _ m m2); [done |]; apply (only_in_mono (g ++ k)); [set_solver | done] |].
  rewrite !Forall_cons in Hok. destruct Hok as (Hokx1 & Hokb & _). apply pairwise_cons in Hp as [Hxb _]. split.
  - intros w Hw. destruct (A7 w Hw) as [Hj | (c & Hc & Hwc)]; [| right; exists c; split; [set_solver | done]].
    apply join_inside in Hj as [Hj | Hj]; [by left | right; exists b; split; [set_solver | done] | done | apply Hxb; set_solver | done | done].
  - rewrite A8. autorewrite with nt. unfold join. destruct (_ =? _); cbn [fst snd]; lia.
Qed.

End scan.

(** ** The invariant of the free list *)

(** No two free blocks touch, and none touches the bump pointer. *)
Definition coalesced (fl : list block) (nx : Z) : Prop :=
  (forall b c, b ∈ fl -> c ∈ fl -> ~ touches b c) /\ (forall b, b ∈ fl -> b.1 + b.2 <> nx).

(** The free blocks [fl] beside the blocks [L] in use. *)
Record list_inv (h : KernelHeap) (fl L : list block) : Prop := {
  li_geometry : 0 < base h /\ base h <= next h <= base h + hsize h /\ base h + hsize h < 2 ^ 62 /\ (8 | base h) /\ (8 | next h);
  li_seg : seg (mem h) (free_list_head h) fl 0;
  li_pairwise : pairwise (fl ++ L);
  li_ok : Forall (block_ok (base h) (next h)) (fl ++ L);
  li_coalesced : coalesced fl (next h) }.

(** What list operations leave alone. *)
Definition same_heap (h h' : KernelHeap) : Prop :=
  base h' = base h /\ hsize h' = hsize h /\ initialized h' = initialized h /\ control h' = control h /\
  allocated h' = allocated h /\ stats h' = stats h.

(** Blocks of 16 bytes and more that do not meet have different numbers. *)
Lemma count_blocks lo hi l : pairwise l -> Forall (block_ok lo hi) l -> (length l <= Z.to_nat ((hi - lo) / 16))%nat.
Proof.
  intros Hp Hok. set (f := fun b : block => (b.1 - lo) / 16).
  assert (Hnd : NoDup (f <$> l)).
  { induction l as [| b l IH]; [constructor |]. apply pairwise_cons in Hp as [Hb Hp]. apply Forall_cons in Hok as [Ob Hok].
    cbn. apply NoDup_cons. split; [| by apply IH]. intros (c & E & Hc)%list_elem_of_fmap. unfold f in E.
    rewrite Forall_forall in Hok. specialize (Hok c Hc). specialize (Hb c Hc). unfold block_ok, apart in *.
    pose proof (Z.div_mod (b.1 - lo) 16). pose proof (Z.div_mod (c.1 - lo) 16).
    pose proof (Z.mod_pos_bound (b.1 - lo) 16). pose proof (Z.mod_pos_bound (c.1 - lo) 16). lia. }
  rewrite <- (length_fmap f l). rewrite <- (length_seqZ 0 ((hi - lo) / 16)). apply submseteq_length, NoDup_submseteq; [done |].
  intros n (b & -> & Hb)%list_elem_of_fmap. apply elem_of_seqZ. rewrite Forall_forall in Hok. specialize (Hok b Hb).
  unfold block_ok, f in *. split; [apply Z.div_pos; lia |].
  pose proof (Z.div_mod (b.1 - lo) 16). pose proof (Z.div_mod (hi - lo) 16).
  pose proof (Z.mod_pos_bound (b.1 - lo) 16). pose proof (Z.mod_pos_bound (hi - lo) 16). lia.
Qed.

Lemma fuel_enough h fl L : list_inv h fl L -> (length fl < list_fuel h)%nat.
Proof.
  intros [_ _ Hp Hok _]. apply pairwise_app in Hp as [Hp _]. apply Forall_app in Hok as [Hok _].
  pose proof (count_blocks _ _ _ Hp Hok). unfold list_fuel, FREE_BLOCK. lia.
Qed.

(** Returning a block to the list. *)
Lemma add_run h fl L x : list_inv h fl L -> pairwise (x :: fl ++ L) -> block_ok (base h) (next h) x ->
  exists h' fl', add_to_free_list h x.1 x.2 = Ret h' /\ list_inv h' fl' L /\ same_heap h h' /\ next h' <= next h /\
    only_in (x :: fl) (mem h) (mem h') /\ covers fl' (x :: fl) /\
    msum snd fl' - next h' = msum snd fl + x.2 - next h.
Proof.
  intros Hinv Hp Hx. pose proof (fuel_enough h fl L Hinv) as Hf. destruct Hinv as [(G1 & G2 & G3 & G4 & G5) Hs _ Hok [Co1 Co2]].
  assert (Hhi : next h < 2 ^ 64) by lia.
  destruct (merge_loop_run (base h) (next h) G1 Hhi (list_fuel h) (list_fuel h) (free_list_head h) (mem h) fl L x)
    as (hd & m & fl' & x' & R & A1 & A2 & A3 & A4 & A5 & A6 & A7 & A8); [done | lia | done | done | by apply Forall_cons |].
  unfold add_to_free_list. rewrite R. autorewrite with nt. cbn iota beta.
  apply Forall_cons in A3 as [Hx' A3]. assert (Hx'' := Hx'). unfold block_ok in Hx''.
  rewrite (wrap64 _ (base h) (next h)) by lia. apply pairwise_cons in A2 as [A2x A2].
  destruct (Z.eqb_spec (x'.1 + x'.2) (next h)) as [E | E].
  - exists (set_next (set_list h hd m) x'.1), fl'. split; [done |]. cbn [set_next set_list next mem]. split; [| split; [done |]].
    + constructor; cbn [base hsize next mem free_list_head set_next set_list].
      * repeat split; try tauto; lia.
      * done.
      * done.
      * rewrite Forall_forall in *. intros b Hb. specialize (A3 b Hb). specialize (A2x b Hb). unfold block_ok, apart in *.
        destruct A3 as (? & ? & ? & ? & ?). repeat split; try done; lia.
      * split; [intros b c Hb Hc; apply Co1; auto |]. intros b Hb Ht. apply (A4 b Hb). by left.
    + split; [lia |]. split; [apply (only_in_mono fl); [set_solver | done] |].
      split; [apply covers_sub; set_solver | lia].
  - set (m' := store (store m x'.1 x'.2) (x'.1 + 8) hd).
    assert (Hkeep : forall w, ~ inside w x' -> m' w = m w).
    { intros w Hw. unfold m'. unfold inside in Hw. rewrite !store_ne; [done | lia | lia]. }
    exists (set_list h x'.1 m'), (x' :: fl'). split; [done |]. cbn [set_list next mem]. split; [| split; [done |]].
    + constructor; cbn [base hsize next mem free_list_head set_list].
      * done.
      * destruct x' as [a s]. cbn [seg fst snd] in *. split; [done |]. split; [lia |].
        assert (m' a = s) as -> by (unfold m'; rewrite store_ne, store_at by lia; done). split; [done |].
        assert (m' (a + 8) = hd) as -> by apply store_at.
        apply (seg_ext m); [| done]. intros b Hb. specialize (A2x b ltac:(set_solver)).
        rewrite Forall_forall in A3. specialize (A3 b ltac:(set_solver)). unfold block_ok, apart in *. cbn [fst snd] in *.
        rewrite !Hkeep; [done | |]; unfold inside; cbn [fst snd]; lia.
      * cbn [app]. by apply pairwise_cons.
      * cbn [app]. by apply Forall_cons.
      * split.
        -- intros b c. rewrite !elem_of_cons. intros [-> | Hb] [-> | Hc].
           ++ unfold touches. lia.
           ++ by apply A4.
           ++ intros Ht. apply (A4 b Hb). unfold touches in *. tauto.
           ++ apply Co1; auto.
        -- intros b. rewrite elem_of_cons. intros [-> | Hb]; [done | apply Co2; auto].
    + split; [lia |]. split.
      * intros w Hw. rewrite Hkeep.
        -- apply A6. set_solver.
        -- intros Hi. destruct (A7 w Hi) as [Hi' | (b & Hb & Hi')]; [by apply (Hw x); [set_solver |] | by apply (Hw b); [set_solver |]].
      * split; [| rewrite msum_cons; lia]. intros b w. rewrite elem_of_cons. intros [-> | Hb] Hw.
        -- destruct (A7 w Hw) as [Hi' | (c & Hc & Hi')]; [exists x | exists c]; (split; [set_solver | done]).
        -- exists b. split; [set_solver | done].
Qed.

(** ** Alignment *)

(** The least multiple of [2 ^ k] that is not below. *)
Lemma heap_align_up val k : 0 <= k <= 63 -> 0 <= val -> val + 2 ^ k <= 2 ^ 64 ->
  let r := align_up val (2 ^ k) in val <= r < val + 2 ^ k /\ (2 ^ k | r).
Proof.
  intros Hk Hv Hs. assert (H2 : 1 <= 2 ^ k) by (pose proof (Z.pow_pos_nonneg 2 k); lia).
  assert (H3 : 2 ^ k <= 2 ^ 63) by (apply Z.pow_le_mono_r; lia).
  cbv zeta. unfold align_up.
  assert (val +[64] 2 ^ k -[64] 1 = val + 2 ^ k - 1) as ->.
  { rewrite wrap_sub_l. apply wrap_small. unfold u_ty. lia. }
  rewrite (wrap_small 64 (2 ^ k - 1)) by (unfold u_ty; lia).
  rewrite land_wnot_pow2 by (unfold u_ty; lia). split; [| apply Z.divide_factor_r].
  pose proof (Z.div_mod (val + 2 ^ k - 1) (2 ^ k)). pose proof (Z.mod_pos_bound (val + 2 ^ k - 1) (2 ^ k)). lia.
Qed.

(** What [Layout] guarantees. *)
Definition layout_ok (l : Layout) : Prop :=
  0 <= lsize l /\ (exists k, 0 <= k <= 63 /\ lalign l = 2 ^ k) /\ lsize l + lalign l <= 2 ^ 63.

Lemma align8 val : 0 <= val -> val + 8 <= 2 ^ 64 -> val <= align_up val 8 < val + 8 /\ (8 | align_up val 8).
Proof. intros. apply (heap_align_up val 3); lia. Qed.

(** The alignment that is used, and its multiples. *)
Lemma max_align l : layout_ok l -> exists k, 3 <= k <= 63 /\ Z.max (lalign l) 8 = 2 ^ k /\
  forall x, (2 ^ k | x) -> (lalign l | x) /\ (8 | x).
Proof.
  intros (_ & (k & Hk & ->) & _). destruct (Z.le_gt_cases 3 k) as [H | H].
  - exists k. split; [lia |]. assert (Hle : 2 ^ 3 <= 2 ^ k) by (apply Z.pow_le_mono_r; lia). split; [lia |].
    intros x Hx. split; [done |]. apply Z.divide_trans with (2 ^ k); [| done]. change 8 with (2 ^ 3).
    exists (2 ^ (k - 3)). rewrite <- Z.pow_add_r by lia. f_equal. lia.
  - exists 3. split; [lia |]. assert (Hle : 2 ^ k <= 2 ^ 3) by (apply Z.pow_le_mono_r; lia). split; [lia |].
    intros x Hx. split; [| done]. apply Z.divide_trans with (2 ^ 3); [| done].
    exists (2 ^ (3 - k)). rewrite <- Z.pow_add_r by lia. f_equal. lia.
Qed.

(** ** Best fit *)

(** The smallest of the fitting blocks, the first of them. *)
Fixpoint best_of (needed : Z) (best : option (list block * block)) (seen l : list block) : option (list block * block) :=
  match l with
  | [] => best
  | b :: l =>
      let better := match best with None => b.2 <? 2 ^ 64 - 1 | Some (_, c) => b.2 <? c.2 end in
      best_of needed (if (needed <=? b.2) && better then Some (seen, b) else best) (seen ++ [b]) l
  end.

Lemma best_scan_run fuel m needed best seen l r : (length l <= fuel)%nat -> seg m r l 0 ->
  let view (o : option (list block * block)) :=
    match o with None => (0, 0, 2 ^ 64 - 1) | Some (s, b) => (last_addr s, b.1, b.2) end in
  let '(bp, b, bs) := view best in
  best_scan fuel m needed bp b bs (last_addr seen) r = Ret (view (best_of needed best seen l)).
Proof.
  revert fuel best seen r. induction l as [| [a s] l IH]; intros fuel best seen r Hf Hs view.
  - cbn [seg] in Hs. subst r. destruct (view best) as [[bp b] bs] eqn:E. cbn [best_of]. rewrite E. by destruct fuel.
  - cbn [length] in Hf. destruct fuel as [| fuel]; [lia |]. cbn [seg] in Hs. destruct Hs as (-> & Ha & Hs & Hl).
    specialize (IH fuel (if (needed <=? s) && match best with None => s <? 2 ^ 64 - 1 | Some (_, c) => s <? c.2 end
      then Some (seen, (a, s)) else best) (seen ++ [(a, s)]) (m (a + 8)) ltac:(lia) Hl).
    cbn [best_of snd]. fold view in IH. rewrite last_addr_snoc in IH. cbn [fst] in IH.
    destruct best as [[bseen bb] |]; cbn [view]; cbn [best_scan]; rewrite (proj2 (Z.eqb_neq _ _) Ha), Hs;
      destruct (_ && _); cbn [view] in IH; exact IH.
Qed.

Lemma best_of_spec needed l : Forall (fun b => b.2 < 2 ^ 64 - 1) l ->
  match best_of needed None [] l with
  | None => Forall (fun c => c.2 < needed) l
  | Some (seen, b) => (exists k, l = seen ++ b :: k) /\ needed <= b.2 /\ Forall (fun c => needed <= c.2 -> b.2 <= c.2) l
  end.
Proof.
  intros Hsmall.
  assert (H : forall k seen best', l = seen ++ k ->
    match best' with
    | None => Forall (fun c => c.2 < needed) seen
    | Some (s, b) => (exists k, l = s ++ b :: k) /\ needed <= b.2 /\ Forall (fun c => needed <= c.2 -> b.2 <= c.2) seen
    end ->
    match best_of needed best' seen k with
    | None => Forall (fun c => c.2 < needed) l
    | Some (s, b) => (exists k, l = s ++ b :: k) /\ needed <= b.2 /\ Forall (fun c => needed <= c.2 -> b.2 <= c.2) l
    end).
  { induction k as [| c k IH]; intros seen best' El Hb; cbn [best_of]; [by rewrite El, app_nil_r in * |].
    apply IH; [by rewrite <- app_assoc |].
    assert (Hc : c.2 < 2 ^ 64 - 1) by (rewrite Forall_forall in Hsmall; apply Hsmall; set_solver).
    destruct best' as [[s b] |].
    - destruct ((needed <=? c.2) && (c.2 <? b.2)) eqn:E.
      + split; [by exists k |]. split; [lia |]. rewrite Forall_app, Forall_singleton. split; [| lia].
        destruct Hb as (_ & _ & Hb). eapply Forall_impl; [exact Hb |]. cbn. lia.
      + destruct Hb as (H1 & H2 & H3). split; [done |]. split; [done |]. rewrite Forall_app, Forall_singleton. split; [done | lia].
    - destruct ((needed <=? c.2) && (c.2 <? 2 ^ 64 - 1)) eqn:E.
      + split; [by exists k |]. split; [lia |]. rewrite Forall_app, Forall_singleton. split; [| lia].
        eapply Forall_impl; [exact Hb |]. cbn. lia.
      + rewrite Forall_app, Forall_singleton. split; [done | lia]. }
  by apply (H l [] None).
Qed.

(** ** Taking a block from the list *)

Lemma list_inv_use h fl b L : list_inv h fl (b :: L) -> list_inv h fl L /\ pairwise (b :: fl ++ L) /\ block_ok (base h) (next h) b.
Proof.
  intros [G Hs Hp Hok Hc]. rewrite <- Permutation_middle in Hp, Hok. apply Forall_cons in Hok as [Hb Hok].
  split; [| done]. constructor; try done. exact (proj2 Hp).
Qed.

Lemma use_list_inv h fl b L : list_inv h fl L -> pairwise (b :: fl ++ L) -> block_ok (base h) (next h) b -> list_inv h fl (b :: L).
Proof. intros [G Hs Hp Hok Hc] Hpb Hb. constructor; try done; rewrite <- Permutation_middle; [done | by apply Forall_cons]. Qed.

(** Writing inside a block in use. *)
Lemma list_inv_write h fl b L m : list_inv h fl (b :: L) -> only_in [b] (mem h) m ->
  list_inv (set_list h (free_list_head h) m) fl (b :: L).
Proof.
  intros [G Hs Hp Hok Hc] Hm. constructor; try done. cbn [set_list mem free_list_head].
  apply (seg_ext (mem h)); [| done]. intros c Hcl. rewrite <- Permutation_middle in Hp, Hok.
  apply pairwise_cons in Hp as [Hp _]. specialize (Hp c ltac:(set_solver)). rewrite Forall_forall in Hok.
  pose proof (Hok c ltac:(set_solver)) as Hoc. unfold block_ok, apart in *.
  split; apply Hm; intros b'; rewrite list_elem_of_singleton; intros -> Hi; unfold inside in Hi; lia.
Qed.

Lemma pairwise_sub b c l : pairwise (b :: l) -> b.1 <= c.1 -> c.1 + c.2 <= b.1 + b.2 -> pairwise (c :: l).
Proof.
  rewrite !pairwise_cons. intros [H Hp] H1 H2. split; [| done]. intros d Hd. specialize (H d Hd). unfold apart in *. lia.
Qed.

Lemma align8_id x : 0 <= x -> x + 8 <= 2 ^ 64 -> (8 | x) -> align_up x 8 = x.
Proof.
  intros H0 H1 H8. destruct (align8 x H0 H1) as [Hb H8']. destruct H8 as [p ->], H8' as [q Eq]. lia.
Qed.

(** A block out of the list, not yet in use. *)
Lemma unlink_inv h seen b k L hd m : list_inv h (seen ++ b :: k) L -> seg m hd (seen ++ k) 0 ->
  list_inv (set_list h hd m) (seen ++ k) L /\ pairwise (b :: (seen ++ k) ++ L) /\ block_ok (base h) (next h) b /\
  (forall c, c ∈ seen ++ k -> ~ touches b c) /\ b.1 + b.2 <> next h.
Proof.
  intros [G Hs Hp Hok [Co1 Co2]] Hs'.
  assert (Hperm : (seen ++ b :: k) ++ L ≡ₚ b :: (seen ++ k) ++ L) by (by rewrite <- Permutation_middle).
  rewrite Hperm in Hp, Hok. apply Forall_cons in Hok as [Hb Hok].
  split; [| split; [done | split; [done | split; [intros c Hc; apply Co1; set_solver | apply Co2; set_solver]]]].
  constructor; try done; [exact (proj2 Hp) |]. split; [intros c d Hc Hd; apply Co1; set_solver | intros c Hc; apply Co2; set_solver].
Qed.

(** The list gains a block if there is one worth keeping. *)
Lemma add_if h fl L x : list_inv h fl L -> (FREE_BLOCK <= x.2 -> pairwise (x :: fl ++ L) /\ block_ok (base h) (next h) x) ->
  exists h' fl', (if FREE_BLOCK <=? x.2 then add_to_free_list h x.1 x.2 else Ret h) = Ret h' /\ list_inv h' fl' L /\
    same_heap h h' /\ next h' <= next h /\ only_in (x :: fl) (mem h) (mem h') /\ covers fl' (x :: fl).
Proof.
  intros Hi Hx. destruct (Z.leb_spec FREE_BLOCK x.2) as [H | H].
  - destruct (Hx H) as [H1 H2]. destruct (add_run h fl L x Hi H1 H2) as (h' & fl' & R & A1 & A2 & A3 & A4 & A5 & _).
    exists h', fl'. exact (conj R (conj A1 (conj A2 (conj A3 (conj A4 A5))))).
  - exists h, fl. split; [done |]. split; [done |]. split; [by repeat split |]. split; [lia |].
    split; [apply only_in_refl | apply covers_sub; set_solver].
Qed.

Lemma same_heap_trans h1 h2 h3 : same_heap h1 h2 -> same_heap h2 h3 -> same_heap h1 h3.
Proof. unfold same_heap. intros (? & ? & ? & ? & ? & ?) (? & ? & ? & ? & ? & ?). repeat split; congruence. Qed.

(** The sizes of a request. *)
Lemma needed_size_eq l : layout_ok l ->
  let asz := align_up (lsize l) 8 in let al := Z.max (lalign l) 8 in
  needed_size l = 16 + asz + al - 1 /\ lsize l <= asz < lsize l + 8 /\ (8 | asz) /\ 8 <= al /\ asz + al <= 2 ^ 63 + 16.
Proof.
  intros Hl. destruct Hl as (H0 & (k & Hk & Ek) & Hs). cbv zeta.
  assert (1 <= lalign l) by (rewrite Ek; pose proof (Z.pow_pos_nonneg 2 k); lia).
  destruct (align8 (lsize l)) as [Hb H8]; [lia | lia |]. unfold needed_size, SIZE, sat_sub.
  rewrite (wrap_small 64 (16 + _)), wrap_small by (unfold u_ty; lia). repeat split; try done; lia.
Qed.

(** What an allocation gives: an aligned block of its own with its header. *)
Definition hands_out (l : Layout) (L : list block) (fl : list block) (h : KernelHeap) (ptr : Z) (h' : KernelHeap) : Prop :=
  exists fl' used, list_inv h' fl' ((ptr - 16, used) :: L) /\ 16 + lsize l <= used /\ (lalign l | ptr) /\
    mem h' (ptr - 16) = MAGIC /\ mem h' (ptr - 8) = used /\
    only_in ((ptr - 16, used) :: fl) (mem h) (mem h').

Lemma header_written m a v w : store (store m (a - 16) v) (a - 16 + 8) w (a - 16) = v /\
  store (store m (a - 16) v) (a - 16 + 8) w (a - 8) = w.
Proof. split; [rewrite store_ne, store_at by lia; done |]. replace (a - 8) with (a - 16 + 8) by lia. apply store_at. Qed.

Lemma header_only l a u m v w : 16 <= u -> (a - 16, u) ∈ l -> only_in l m (store (store m (a - 16) v) (a - 16 + 8) w).
Proof.
  intros Hu Hin. apply (only_in_trans _ _ (store m (a - 16) v)); apply (only_in_store _ _ _ _ (a - 16, u)); try done; unfold inside; cbn; lia.
Qed.

(** The pieces in front and behind go back to the list if they are large enough for an entry. *)
Lemma put_back h fl L A F R : list_inv h fl (A :: L) -> pairwise (F :: R :: A :: fl ++ L) ->
  (FREE_BLOCK <= F.2 -> block_ok (base h) (next h) F) -> (FREE_BLOCK <= R.2 -> block_ok (base h) (next h) R) ->
  exists h1 h2 fl2, (if FREE_BLOCK <=? F.2 then add_to_free_list h F.1 F.2 else Ret h) = Ret h1 /\
    (if FREE_BLOCK <=? R.2 then if FREE_BLOCK <=? R.2 then add_to_free_list h1 R.1 R.2 else Ret h1 else Ret h1) = Ret h2 /\
    list_inv h2 fl2 (A :: L) /\ same_heap h h2 /\ only_in (F :: R :: fl) (mem h) (mem h2).
Proof.
  intros Hi PF OF OR. set (L1 := (if FREE_BLOCK <=? R.2 then [R] else []) ++ A :: L).
  assert (Hi2 : list_inv h fl L1).
  { unfold L1. destruct (Z.leb_spec FREE_BLOCK R.2) as [H |]; [| done]. apply use_list_inv; [done | | by apply OR].
    rewrite <- Permutation_middle. exact (proj2 PF). }
  destruct (add_if h fl L1 F Hi2) as (h1 & fl1 & R1 & Hi3 & Hsame1 & Hn1 & Hm1 & Hc1).
  { intros H. split; [| by apply OF]. unfold L1. destruct (FREE_BLOCK <=? R.2); cbn [app]; rewrite <- ?Permutation_middle; [done |].
    rewrite !pairwise_cons in PF. destruct PF as (PF & _ & PA). apply pairwise_cons. split; [intros c Hc2; apply PF; set_solver | by apply pairwise_cons]. }
  apply (only_in_mono _ (F :: R :: fl)) in Hm1; [| set_solver].
  exists h1. unfold L1 in Hi3. destruct (Z.leb_spec FREE_BLOCK R.2) as [H | H]; [| by exists h1, fl1].
  apply list_inv_use in Hi3 as (I1 & I2 & I3).
  destruct (add_run h1 fl1 (A :: L) R I1 I2 I3) as (h2 & fl2 & Q & B1 & B2 & _ & B3 & _). exists h2, fl2.
  split; [done |]. split; [done |]. split; [done |]. split; [by apply (same_heap_trans _ h1) |].
  apply (only_in_trans _ _ (mem h1)); [done |]. apply (only_in_covers (R :: fl1)); [| done].
  apply (covers_app [R]); [apply covers_sub; set_solver |]. apply (covers_trans _ (F :: fl)); [done | apply covers_sub; set_solver].
Qed.

(** A block is cut into what is in front of the header, the allocation, and what is behind it. *)
Lemma cut_pieces lo hi a s ptr asz l : pairwise ((a, s) :: l) -> block_ok lo hi (a, s) -> 0 <= asz -> a + 16 <= ptr ->
  ptr + asz <= a + s -> (8 | ptr) -> (8 | asz) ->
  let A := (ptr - 16, 16 + asz) in let R := (ptr + asz, a + s - (ptr + asz)) in let F := (a, ptr - 16 - a) in
  pairwise (F :: R :: A :: l) /\ block_ok lo hi A /\ (FREE_BLOCK <= R.2 -> block_ok lo hi R) /\
  (FREE_BLOCK <= F.2 -> block_ok lo hi F).
Proof.
  intros Hp Hb Ha H1 H2 H8p H8a A R F. unfold block_ok in Hb. cbn [fst snd] in Hb.
  assert (Hsub : forall x c, a <= x.1 -> x.1 + x.2 <= a + s -> c ∈ l -> apart x c).
  { intros x c Hx1 Hx2 Hc. apply (pairwise_sub (a, s) x) in Hp; [| done | done]. apply pairwise_cons in Hp as [Hp _]. by apply Hp. }
  split; [| unfold A, R, F, block_ok, FREE_BLOCK; cbn [fst snd]; repeat split; try lia; try tauto].
  { rewrite !pairwise_cons. split; [| split; [| split; [| exact (proj2 Hp)]]]; intros c; rewrite ?elem_of_cons.
    - intros [-> | [-> | Hc]]; [left; cbn; lia | left; cbn; lia | apply Hsub; cbn; [lia | lia | done]].
    - intros [-> | Hc]; [right; cbn; lia | apply Hsub; cbn; [lia | lia | done]].
    - intros Hc. apply Hsub; cbn; [lia | lia | done]. }
  all: repeat (apply Z.divide_sub_r || apply Z.divide_add_r); first [tauto | by exists 2].
Qed.

Lemma take_best_run h seen a s k L l : list_inv h (seen ++ (a, s) :: k) L -> layout_ok l -> needed_size l <= s ->
  exists ptr h', take_best h l (last_addr seen) a s = Ret (ptr, h') /\
    hands_out l L (seen ++ (a, s) :: k) h ptr h' /\ same_heap h h'.
Proof.
  intros Hi Hl Hfit. pose proof Hi as [(G1 & G2 & G3 & G4 & G5) Hs Hp Hok Hc].
  destruct (needed_size_eq l Hl) as (En & Hasz & H8 & Hal & Hsum). assert (Hls : 0 <= lsize l) by apply Hl. unfold take_best.
  assert (Hpl : pairwise (seen ++ (a, s) :: k)) by (by apply pairwise_app in Hp as [Hp _]).
  assert (Hokl : Forall (block_ok (base h) (next h)) (seen ++ (a, s) :: k)) by (by apply Forall_app in Hok as [Hok _]).
  destruct (unlink_run _ _ _ _ _ _ _ Hs Hpl Hokl) as (hd & m & Hu & Hsu & Hmu). cbn [fst] in Hu. rewrite Hu.
  destruct (unlink_inv h seen (a, s) k L hd m Hi Hsu) as (Hi1 & Hp1 & Hb1 & _).
  assert (Hb2 := Hb1). unfold block_ok in Hb2. cbn [fst snd] in Hb2.
  set (asz := align_up (lsize l) 8) in *. set (al := Z.max (lalign l) 8) in *.
  destruct (max_align l Hl) as (j & Hj & Ej & Hdiv). fold al in Ej.
  rewrite (wrap_small 64 (a + SIZE)) by (unfold u_ty, SIZE; lia).
  destruct (heap_align_up (a + SIZE) j) as [Hal1 Hal2]; [lia | unfold SIZE; lia | unfold SIZE; rewrite <- Ej; lia |].
  rewrite <- Ej in *. set (ptr := align_up (a + SIZE) al) in *. unfold SIZE in *. destruct (Hdiv ptr Hal2) as [Hd1 Hd8].
  rewrite (wrap_small 64 (ptr - 16)), (wrap_small 64 (a + s)), (wrap_small 64 (ptr - 16 - a)),
    (wrap_small 64 (ptr + asz)), (wrap_small 64 (ptr + asz - (ptr - 16))) by (unfold u_ty; lia).
  replace (ptr + asz - (ptr - 16)) with (16 + asz) by lia.
  rewrite (wrap_small 64 (ptr - 16 + (16 + asz))) by (unfold u_ty; lia).
  replace (ptr - 16 + (16 + asz)) with (ptr + asz) by lia.
  assert (H8p : (8 | ptr + asz)) by (by apply Z.divide_add_r).
  rewrite (wrap_small 64 (a + s - (ptr + asz))), align8_id by (try done; unfold u_ty; lia).
  rewrite (wrap_small 64 (a + s - (ptr + asz))) by (unfold u_ty; lia).
  destruct (cut_pieces (base h) (next h) a s ptr asz ((seen ++ k) ++ L)) as (PF & OA & OR & OF); try done; try lia.
  set (A := (ptr - 16, 16 + asz)) in *. set (R := (ptr + asz, a + s - (ptr + asz))) in *. set (F := (a, ptr - 16 - a)) in *.
  destruct (put_back (set_list h hd m) (seen ++ k) L A F R) as (h1 & h2 & fl2 & R1 & R2 & Hi4 & Hsame & Hm2); try done.
  { apply use_list_inv; [done | exact (proj2 (proj2 PF)) | done]. }
  unfold F in R1 at 1 2 3. unfold R in R2 at 1 2 3 4. cbn [fst snd] in R1, R2. rewrite R1. autorewrite with nt. cbv beta. rewrite R2.
  autorewrite with nt. cbv beta. exists ptr, (set_list h2 (free_list_head h2) (store (store (mem h2) (ptr - 16) MAGIC) (ptr - 16 + 8) (16 + asz))).
  split; [done |]. split; [| by apply (same_heap_trans _ (set_list h hd m)), (same_heap_trans _ h2)].
  exists fl2, (16 + asz). fold A. split; [apply list_inv_write; [done |]; apply (header_only _ _ (16 + asz)); [lia | set_solver] |].
  split; [lia |]. split; [done |]. cbn [set_list mem]. destruct (header_written (mem h2) ptr MAGIC (16 + asz)) as [W1 W2].
  split; [done |]. split; [done |].
  apply (only_in_trans _ _ (mem h2)); [| apply (header_only _ _ (16 + asz)); [lia | set_solver]].
  apply (only_in_trans _ _ m); [apply (only_in_mono seen); [set_solver | done] |].
  apply (only_in_covers (F :: R :: seen ++ k)); [| done].
  apply (covers_app [F]); [apply (covers_one _ (a, s)); cbn; [set_solver | lia | lia] |].
  apply (covers_app [R]); [apply (covers_one _ (a, s)); cbn; [set_solver | lia | lia] | apply covers_sub; set_solver].
Qed.

Lemma alloc_list_run h fl L l : list_inv h fl L -> layout_ok l ->
  Forall (fun c => c.2 < needed_size l) fl /\ alloc_from_free_list h l = Ret (None, h) \/
  ~ Forall (fun c => c.2 < needed_size l) fl /\
  exists ptr h', alloc_from_free_list h l = Ret (Some ptr, h') /\ hands_out l L fl h ptr h' /\ same_heap h h'.
Proof.
  intros Hi Hl. pose proof (fuel_enough h fl L Hi) as Hf. pose proof Hi as [(G1 & G2 & G3 & _) Hs _ Hok _]. unfold alloc_from_free_list.
  assert (R := best_scan_run (list_fuel h) (mem h) (needed_size l) None [] fl (free_list_head h) ltac:(lia) Hs).
  cbn zeta iota beta in R. change (last_addr []) with 0 in R. rewrite R. autorewrite with nt. clear R.
  assert (Hsm : Forall (fun b : block => b.2 < 2 ^ 64 - 1) fl).
  { apply Forall_app in Hok as [Hok _]. eapply Forall_impl; [exact Hok |]. unfold block_ok. intros b. lia. }
  pose proof (best_of_spec (needed_size l) fl Hsm) as Hb. destruct (best_of _ _ _ _) as [[seen [a s]] |]; [| by left].
  right. destruct Hb as ((k & ->) & Hfit & _). cbn [fst snd] in *.
  split; [rewrite Forall_app, Forall_cons; cbn [snd]; lia |].
  destruct (take_best_run h seen a s k L l Hi Hl Hfit) as (ptr & h' & R & H1 & H2).
  assert (Ha : a <> 0) by (apply seg_app in Hs as (r & _ & _ & Ha & _); done).
  rewrite (proj2 (Z.eqb_neq _ _) Ha), R. autorewrite with nt. by exists ptr, h'.
Qed.

(** The end of what the bump pointer would hand out. *)
Definition bump_end (h : KernelHeap) (l : Layout) : Z :=
  align_up (next h + 16) (Z.max (lalign l) 8) + align_up (lsize l) 8.

Lemma bump_run h fl L l : list_inv h fl L -> layout_ok l ->
  if base h + hsize h <? bump_end h l
  then bump h l = (0, set_stats h (count_failed (count_miss (stats h))))
  else exists ptr h', bump h l = (ptr, h') /\ hands_out l L fl h ptr h' /\ base h' = base h /\ hsize h' = hsize h /\
    initialized h' = initialized h.
Proof.
  intros Hi Hl. pose proof Hi as [(G1 & G2 & G3 & G4 & G5) Hs Hp Hok [Co1 Co2]].
  destruct (needed_size_eq l Hl) as (_ & Hasz & H8 & Hal & Hsum). assert (Hls : 0 <= lsize l) by apply Hl.
  unfold bump, bump_end. cbn [set_stats next base hsize stats mem initialized control allocated free_list_head].
  set (asz := align_up (lsize l) 8) in *. set (al := Z.max (lalign l) 8) in *.
  destruct (max_align l Hl) as (j & Hj & Ej & Hdiv). fold al in Ej.
  unfold SIZE. rewrite (wrap_small 64 (next h + 16)) by (unfold u_ty; lia).
  destruct (heap_align_up (next h + 16) j) as [Hal1 Hal2]; [lia | lia | rewrite <- Ej; lia |].
  rewrite <- Ej in *. set (ptr := align_up (next h + 16) al) in *. destruct (Hdiv ptr Hal2) as [Hd1 Hd8].
  rewrite (wrap_small 64 (ptr + asz)), align8_id by (try (by apply Z.divide_add_r); unfold u_ty; lia).
  rewrite (wrap_small 64 (base h + hsize h)), (wrap_small 64 (ptr - 16)), (wrap_small 64 (ptr + asz - (ptr - 16))) by (unfold u_ty; lia).
  replace (ptr + asz - (ptr - 16)) with (16 + asz) by lia.
  destruct (Z.ltb_spec (base h + hsize h) (ptr + asz)) as [H | H]; [done |].
  eexists _, _. split; [done |]. split; [| done]. exists fl, (16 + asz). cbn [mem].
  destruct (header_written (mem h) ptr MAGIC (16 + asz)) as [W1 W2].
  split; [| split; [lia |]; split; [done |]; split; [done |]; split; [done |]; apply (header_only _ _ (16 + asz)); [lia | set_solver]].
  apply (list_inv_write (mk_heap (base h) (hsize h) (ptr + asz) (initialized h) (control h) (allocated h +[64] lsize l)
    (count_alloc (count_miss (stats h)) (lsize l) false) (free_list_head h) (mem h)));
    [| apply (header_only _ _ (16 + asz)); [lia | set_solver]].
  rewrite Forall_forall in Hok. constructor; cbn [base hsize next mem free_list_head].
  - split; [lia |]. split; [lia |]. split; [lia |]. split; [done |]. by apply Z.divide_add_r.
  - done.
  - rewrite <- Permutation_middle. apply pairwise_cons. split; [| done]. intros c Hc. specialize (Hok c Hc).
    unfold block_ok, apart in *. cbn [fst snd]. lia.
  - rewrite <- Permutation_middle. apply Forall_cons. split.
    + unfold block_ok. cbn [fst snd]. repeat split; try lia; repeat (apply Z.divide_sub_r || apply Z.divide_add_r); try done; by exists 2.
    + apply Forall_forall. intros c Hc. destruct (Hok c Hc) as (? & ? & ? & ? & ?). repeat split; try done. lia.
  - split; [done |]. intros c Hc. destruct (Hok c) as (? & ? & _); [set_solver | lia].
Qed.

(** ** Histories *)

Lemma list_inv_stats h fl L st : list_inv h fl L -> list_inv (set_stats h st) fl L.
Proof. by intros [G Hs Hp Hok Hc]. Qed.

Lemma hands_out_nonnull l L fl h ptr h' : hands_out l L fl h ptr h' -> ptr <> 0.
Proof.
  intros (fl' & u & [(G1 & _) _ _ Hok _] & _). rewrite Forall_forall in Hok.
  specialize (Hok (ptr - 16, u) ltac:(set_solver)). unfold block_ok in Hok. cbn [fst snd] in Hok. lia.
Qed.

(** Memory is exhausted only if no free block is large enough and the rest of the heap is too
    small; anything else is handed out. *)
Lemma alloc_run h fl L l : list_inv h fl L -> layout_ok l -> initialized h = true -> 0 < hsize h ->
  exists ptr h', alloc h l = Ret (ptr, h') /\ base h' = base h /\ hsize h' = hsize h /\ initialized h' = true /\
    (hands_out l L fl h ptr h' /\ ~ (Forall (fun c => c.2 < needed_size l) fl /\ base h + hsize h < bump_end h l) \/
     ptr = 0 /\ h' = set_stats h (count_failed (count_miss (stats h))) /\
       Forall (fun c => c.2 < needed_size l) fl /\ base h + hsize h < bump_end h l).
Proof.
  intros Hi Hl Hin Hsz. pose proof (li_geometry _ _ _ Hi) as (G1 & _). unfold alloc. rewrite Hin.
  rewrite (proj2 (Z.eqb_neq (base h) 0)), (proj2 (Z.eqb_neq (hsize h) 0)) by lia. cbn [negb orb].
  destruct (alloc_list_run h fl L l Hi Hl) as [[Hsm R] | (Hno & ptr & h' & R & Ho & Hsame)]; rewrite R; autorewrite with nt; cbn iota beta.
  - pose proof (bump_run h fl L l Hi Hl) as Hb. destruct (Z.ltb_spec (base h + hsize h) (bump_end h l)) as [H | H].
    + rewrite Hb. eexists _, _. split; [done |]. do 3 (split; [done |]). by right.
    + destruct Hb as (ptr & h' & -> & Ho & H1 & H2 & H3). exists ptr, h'. split; [done |]. split; [done |]. split; [done |].
      split; [congruence |]. left. split; [done | lia].
  - destruct Hsame as (S1 & S2 & S3 & _). eexists _, _. split; [done |]. split; [done |]. split; [done |]. split; [cbn; congruence |].
    left. split; [| tauto]. destruct Ho as (fl' & u & Hi' & Ho). exists fl', u. split; [by apply list_inv_stats | done].
Qed.

Lemma dealloc_run h fl L ptr u l : list_inv h fl ((ptr - 16, u) :: L) -> mem h (ptr - 16) = MAGIC -> mem h (ptr - 8) = u ->
  exists h' fl', dealloc h ptr l = Ret h' /\ list_inv h' fl' L /\ base h' = base h /\ hsize h' = hsize h /\
    initialized h' = initialized h /\ only_in ((ptr - 16, u) :: fl) (mem h) (mem h').
Proof.
  intros Hi Hm Hu. destruct (list_inv_use _ _ _ _ Hi) as (Hi1 & Hp & Hb). pose proof (li_geometry _ _ _ Hi) as (G1 & G2 & G3 & _).
  destruct (add_run h fl L (ptr - 16, u) Hi1 Hp Hb) as (h' & fl' & R & A1 & (S1 & S2 & S3 & _) & _ & A2 & _).
  unfold block_ok in Hb. cbn [fst snd] in *. unfold dealloc, is_in_heap_range, SIZE.
  replace (ptr - 16 + 8) with (ptr - 8) by lia. rewrite Hm, Hu, Z.eqb_refl.
  rewrite (proj2 (Z.eqb_neq ptr 0)), (proj2 (Z.leb_le 16 ptr)), (proj2 (Z.ltb_ge u FREE_BLOCK)) by (unfold FREE_BLOCK; lia).
  rewrite (wrap64 (base h + hsize h) 0 (2 ^ 62)), (wrap64 (ptr - 16 + u) 0 (2 ^ 62)) by lia.
  rewrite (proj2 (Z.leb_le (base h) _)), (proj2 (Z.leb_le (ptr - 16 + u) _)) by lia. cbn [negb andb orb].
  rewrite R. autorewrite with nt. eexists _, fl'. split; [done |]. split; [by apply list_inv_stats |]. done.
Qed.

(** What the owners of memory do: they ask for it, give the [n]-th live allocation back, or write a
    word of it. *)
Inductive event :=
  | EAlloc (l : Layout)
  | EFree (n : nat)
  | EWrite (n : nat) (off v : Z).

Definition owns (pl : Z * Layout) (w : Z) : bool := (pl.1 <=? w) && (w <? pl.1 + lsize pl.2).

(** The heap, the live allocations, and the words their owners have written. *)
Definition world : Type := KernelHeap * list (Z * Layout) * gmap Z Z.

Definition step (st : world) (e : event) : outcome world :=
  let '(h, live, written) := st in
  match e with
  | EAlloc l =>
      '(p, h) ← alloc h l;
      Ret (h, if p =? 0 then live else (p, l) :: live, written)
  | EFree n =>
      match live !! n with
      | None => Ret st
      | Some (p, l) =>
          h ← dealloc h p l;
          Ret (h, delete n live, filter (fun wv => owns (p, l) wv.1 = false) written)
      end
  | EWrite n off v =>
      match live !! n with
      | Some (p, l) =>
          if (0 <=? off) && (off <? lsize l) && (off mod 8 =? 0)
          then Ret (set_list h (free_list_head h) (store (mem h) (p + off) v), live, <[p + off := v]> written)
          else Ret st
      | None => Ret st
      end
  end.

Fixpoint run (st : world) (es : list event) : outcome world :=
  match es with
  | [] => Ret st
  | e :: es => st ← step st e; run st es
  end.

Definition live_block (m : memory) (pl : Z * Layout) : block := (pl.1 - 16, m (pl.1 - 8)).

(** A live allocation: a header that is intact, enough room, the alignment asked for. *)
Definition live_ok (m : memory) (pl : Z * Layout) : Prop :=
  m (pl.1 - 16) = MAGIC /\ 16 + lsize pl.2 <= m (pl.1 - 8) /\ (lalign pl.2 | pl.1) /\ layout_ok pl.2.

Record world_inv (b size : Z) (st : world) : Prop := {
  wi_heap : exists fl, list_inv st.1.1 fl (live_block (mem st.1.1) <$> st.1.2);
  wi_live : Forall (live_ok (mem st.1.1)) st.1.2;
  wi_region : base st.1.1 = b /\ hsize st.1.1 = size /\ initialized st.1.1 = true;
  wi_written : forall w v, st.2 !! w = Some v -> mem st.1.1 w = v /\ exists pl, pl ∈ st.1.2 /\ owns pl w = true }.

(** The blocks of the live allocations keep their words when only others are written. *)
Lemma live_kept m m' B live : only_in B m m' -> (forall b pl, b ∈ B -> pl ∈ live -> apart (live_block m pl) b) ->
  Forall (live_ok m) live ->
  live_block m' <$> live = live_block m <$> live /\ Forall (live_ok m') live /\
  forall w pl, pl ∈ live -> owns pl w = true -> m' w = m w.
Proof.
  intros Hm Hap Hl.
  assert (Hw : forall pl w, pl ∈ live -> inside w (live_block m pl) -> m' w = m w).
  { intros pl w Hpl Hw. apply Hm. intros b Hb Hwb. specialize (Hap b pl Hb Hpl). unfold apart, inside in *. lia. }
  rewrite Forall_forall in Hl.
  assert (Hh : forall pl, pl ∈ live -> m' (pl.1 - 16) = m (pl.1 - 16) /\ m' (pl.1 - 8) = m (pl.1 - 8)).
  { intros pl Hpl. destruct (Hl pl Hpl) as (_ & H & _ & H0 & _). split; apply (Hw pl); try done; unfold inside, live_block; cbn [fst snd]; lia. }
  split; [| split].
  - apply list_fmap_ext. intros i pl Hpl%list_elem_of_lookup_2. unfold live_block. by rewrite (proj2 (Hh pl Hpl)).
  - apply Forall_forall. intros pl Hpl. destruct (Hh pl Hpl) as [E1 E2]. unfold live_ok. rewrite E1, E2. by apply Hl.
  - intros w pl Hpl Ho. apply (Hw pl w Hpl). destruct (Hl pl Hpl) as (_ & H & _). unfold owns in Ho.
    unfold inside, live_block. cbn [fst snd]. lia.
Qed.

#[export] Instance list_inv_perm h fl : Proper ((≡ₚ) ==> iff) (list_inv h fl).
Proof.
  assert (H : forall L L', L ≡ₚ L' -> list_inv h fl L -> list_inv h fl L').
  { intros L L' HL [G Hs Hp Hok Hc]. constructor; try done; by rewrite <- HL. }
  intros L L' HL. split; apply H; [done | by symmetry].
Qed.

Lemma world_inv_perm b size h live live' wr : live ≡ₚ live' -> world_inv b size (h, live, wr) -> world_inv b size (h, live', wr).
Proof.
  intros HL [(fl & Hh) Hl Hr Hw]. cbn [fst snd] in *. constructor; cbn [fst snd]; [| by rewrite <- HL | done |].
  - exists fl. by rewrite <- HL.
  - intros w v E. destruct (Hw w v E) as (E1 & pl & Hpl & Ho). split; [done |]. exists pl. by rewrite <- HL.
Qed.

Lemma step_alloc b size h live wr l : 0 < size -> world_inv b size (h, live, wr) -> layout_ok l ->
  exists p h', alloc h l = Ret (p, h') /\ world_inv b size (h', if p =? 0 then live else (p, l) :: live, wr).
Proof.
  intros Hsz [(fl & Hh) Hl (R1 & R2 & R3) Hw] Hlo. cbn [fst snd] in *.
  destruct (alloc_run h fl _ l Hh Hlo R3 ltac:(lia)) as (p & h' & R & E1 & E2 & E3 & [[Ho _] | (-> & -> & _)]); eexists _, _.
  - split; [done |]. pose proof (hands_out_nonnull _ _ _ _ _ _ Ho) as Hp0. rewrite (proj2 (Z.eqb_neq _ _) Hp0).
    destruct Ho as (fl' & u & Hi & Hu & Ha & M1 & M2 & Hm). pose proof (li_pairwise _ _ _ Hi) as Hp'.
    pose proof (li_pairwise _ _ _ Hh) as Hp. rewrite <- Permutation_middle in Hp'. apply pairwise_cons in Hp' as [Hp' _].
    apply pairwise_app in Hp as (_ & _ & Hp).
    destruct (live_kept (mem h) (mem h') _ live Hm) as (K1 & K2 & K3); [| done |].
    { intros c pl. rewrite elem_of_cons. intros [-> | Hc] Hpl; symmetry; [apply Hp' | apply Hp; [done |]].
      - apply elem_of_app. right. by apply list_elem_of_fmap_2.
      - by apply list_elem_of_fmap_2. }
    constructor; cbn [fst snd].
    + exists fl'. cbn [fmap list_fmap]. rewrite K1. unfold live_block at 1. cbn [fst]. by rewrite M2.
    + apply Forall_cons. split; [| done]. unfold live_ok. cbn [fst snd]. rewrite M2. done.
    + split; [congruence |]. split; [congruence | done].
    + intros w v E. destruct (Hw w v E) as (E4 & pl & Hpl & Hown). split; [by rewrite (K3 w pl) |]. exists pl. split; [set_solver | done].
  - split; [done |]. constructor; cbn [fst snd Z.eqb]; [| done | done | done]. exists fl. by apply list_inv_stats.
Qed.

Lemma step_free b size h p l live wr : world_inv b size (h, (p, l) :: live, wr) ->
  exists h', dealloc h p l = Ret h' /\ world_inv b size (h', live, filter (fun wv => owns (p, l) wv.1 = false) wr).
Proof.
  intros [(fl & Hh) Hl (R1 & R2 & R3) Hw]. cbn [fst snd] in *. apply Forall_cons in Hl as [(M1 & M2 & _) Hl]. cbn [fst snd] in *.
  cbn [fmap list_fmap] in Hh. unfold live_block at 1 in Hh. cbn [fst] in Hh.
  destruct (dealloc_run h fl _ p _ l Hh M1 eq_refl) as (h' & fl' & R & Hi & E1 & E2 & E3 & Hm).
  exists h'. split; [done |]. apply list_inv_use in Hh as (_ & Hp & _). change (?x :: fl ++ ?y) with ((x :: fl) ++ y) in Hp.
  apply pairwise_app in Hp as (_ & _ & Hp).
  destruct (live_kept (mem h) (mem h') _ live Hm) as (K1 & K2 & K3); [| done |].
  { intros c pl Hc Hpl. symmetry. apply Hp; [done |]. by apply list_elem_of_fmap_2. }
  constructor; cbn [fst snd]; [exists fl'; by rewrite K1 | done | split; [congruence |]; split; congruence |].
  intros w v [E Ho]%map_lookup_filter_Some. cbn [fst] in Ho. destruct (Hw w v E) as (E4 & pl & Hpl & Hown).
  apply elem_of_cons in Hpl as [-> | Hpl]; [congruence |]. split; [by rewrite (K3 w pl) | by exists pl].
Qed.

Lemma step_write b size h p l live wr off v : world_inv b size (h, (p, l) :: live, wr) -> 0 <= off < lsize l ->
  world_inv b size (set_list h (free_list_head h) (store (mem h) (p + off) v), (p, l) :: live, <[p + off := v]> wr).
Proof.
  intros [(fl & Hh) Hl (R1 & R2 & R3) Hw] Hoff. cbn [fst snd] in *. apply Forall_cons in Hl as [(M1 & M2 & Hlo) Hl]. cbn [fst snd] in *.
  cbn [fmap list_fmap] in Hh. unfold live_block at 1 in Hh. cbn [fst] in Hh.
  assert (Hm : only_in [(p - 16, mem h (p - 8))] (mem h) (store (mem h) (p + off) v)).
  { apply (only_in_store _ _ _ _ (p - 16, mem h (p - 8))); [set_solver |]. unfold inside. cbn [fst snd]. lia. }
  pose proof (list_inv_write h fl _ _ _ Hh Hm) as Hi. apply list_inv_use in Hh as (_ & Hp & _). apply pairwise_cons in Hp as [Hp _].
  destruct (live_kept (mem h) _ _ live Hm) as (K1 & K2 & K3); [| done |].
  { intros c pl. rewrite list_elem_of_singleton. intros -> Hpl. symmetry. apply Hp. apply elem_of_app. right. by apply list_elem_of_fmap_2. }
  assert (N1 : store (mem h) (p + off) v (p - 16) = mem h (p - 16)) by (apply store_ne; lia).
  assert (N2 : store (mem h) (p + off) v (p - 8) = mem h (p - 8)) by (apply store_ne; lia).
  constructor; cbn [fst snd set_list mem base hsize initialized].
  - exists fl. cbn [fmap list_fmap]. rewrite K1. unfold live_block at 1. cbn [fst]. by rewrite N2.
  - apply Forall_cons. split; [| done]. unfold live_ok. cbn [fst snd]. by rewrite N1, N2.
  - done.
  - intros w x. rewrite lookup_insert_Some. intros [[<- <-] | [Hne E]].
    + split; [apply store_at |]. exists (p, l). split; [set_solver |]. unfold owns. cbn [fst snd]. lia.
    + destruct (Hw w x E) as (E4 & pl & Hpl & Hown). split; [by rewrite store_ne | by exists pl].
Qed.

Definition event_ok (e : event) : Prop := match e with EAlloc l => layout_ok l | _ => True end.

Lemma step_run b size st e : 0 < size -> world_inv b size st -> event_ok e -> exists st', step st e = Ret st' /\ world_inv b size st'.
Proof.
  destruct st as [[h live] wr]. intros Hsz Hw He. destruct e as [l | n | n off v]; cbn [step].
  - destruct (step_alloc b size h live wr l Hsz Hw He) as (p & h' & -> & Hw'). autorewrite with nt. by eexists.
  - destruct (live !! n) as [[p l] |] eqn:E; [| by eexists]. apply delete_Permutation in E.
    apply (world_inv_perm _ _ _ _ _ _ E) in Hw. destruct (step_free _ _ _ _ _ _ _ Hw) as (h' & -> & Hw'). autorewrite with nt. by eexists.
  - destruct (live !! n) as [[p l] |] eqn:E; [| by eexists]. destruct (_ && _) eqn:Eg; [| by eexists]. apply delete_Permutation in E.
    eexists. split; [done |]. apply (world_inv_perm _ _ _ ((p, l) :: delete n live)); [by symmetry |].
    apply step_write; [by apply (world_inv_perm _ _ _ live) | lia].
Qed.

Lemma runs b size st es : 0 < size -> world_inv b size st -> Forall event_ok es -> exists st', run st es = Ret st' /\ world_inv b size st'.
Proof.
  intros Hsz Hw He. revert st Hw. induction He as [| e es He _ IH]; intros st Hw; cbn [run]; [by eexists |].
  destruct (step_run b size st e Hsz Hw He) as (st' & -> & Hw'). autorewrite with nt. by apply IH.
Qed.

Definition start (m : memory) (b size : Z) : world := (configure (heap_new m) b size, [], ∅).

Lemma start_inv m b size : 0 < b -> (8 | b) -> 0 < size -> b + size < 2 ^ 62 -> world_inv b size (start m b size).
Proof.
  intros H1 H2 H3 H4. constructor; cbn [start fst snd]; [| done | done | done].
  exists []. constructor; cbn [configure heap_new base hsize next mem free_list_head]; try done.
  - repeat split; try done; lia.
  - split; intros c; set_solver.
Qed.

(** The bytes the owner may use. *)
Definition region (pl : Z * Layout) : block := (pl.1, lsize pl.2).

Lemma regions_apart m live : Forall (live_ok m) live -> pairwise (live_block m <$> live) -> pairwise (region <$> live).
Proof.
  induction live as [| pl live IH]; cbn [fmap list_fmap]; [done |]. rewrite Forall_cons, !pairwise_cons. intros [Hl Hls] [Hp Hps].
  split; [| by apply IH]. intros c (pl' & -> & Hpl)%list_elem_of_fmap. specialize (Hp _ (list_elem_of_fmap_2 _ _ _ Hpl)).
  rewrite Forall_forall in Hls. specialize (Hls pl' Hpl). destruct Hl as (_ & H & _), Hls as (_ & H' & _).
  unfold apart, region, live_block in *. cbn [fst snd] in *. lia.
Qed.

(** C19: Whatever is asked of the kernel heap, in any order, every call returns, and afterwards the
    live allocations lie inside the heap, have the alignment they were asked for with, do not
    overlap one another, and hold what their owners last wrote: neither the headers nor the entries
    of the free list, which live in the same memory, ever reach them. *)
Theorem heap_history (m : memory) (b size : Z) (es : list event) :
  0 < b -> (8 | b) -> 0 < size -> b + size < 2 ^ 62 -> Forall event_ok es ->
  exists h live written, run (start m b size) es = Ret (h, live, written) /\
    pairwise (region <$> live) /\
    (forall p l, (p, l) ∈ live -> b + 16 <= p /\ p + lsize l <= b + size /\ (lalign l | p)) /\
    (forall w v, written !! w = Some v -> mem h w = v).
Proof.
  intros H1 H2 H3 H4 He. destruct (runs b size _ es H3 (start_inv m b size H1 H2 H3 H4) He) as ([[h live] wr] & R & [(fl & Hh) Hl (E1 & E2 & _) Hw]).
  cbn [fst snd] in *. exists h, live, wr. split; [done |]. destruct Hh as [(_ & G & _) _ Hp Hok _].
  split; [apply (regions_apart (mem h)); [done |]; by apply pairwise_app in Hp as (_ & Hp & _) |]. split.
  - intros p l Hpl. apply Forall_app in Hok as [_ Hok]. rewrite Forall_forall in Hl. rewrite Forall_forall in Hok. destruct (Hl _ Hpl) as (_ & Hu & Ha & _).
    specialize (Hok _ (list_elem_of_fmap_2 _ _ _ Hpl)). unfold block_ok, live_block in Hok. cbn [fst snd] in *. split; [lia |]. split; [lia | done].
  - intros w v E. exact (proj1 (Hw w v E)).
Qed.

Lemma heap_history_witness :
  let es := [EAlloc (mk_layout 24 8); EAlloc (mk_layout 100 64); EWrite 0 8 77; EFree 1; EAlloc (mk_layout 8 16)] in
  0 < 0x10000 /\ (8 | 0x10000) /\ Forall event_ok es /\
  exists h live written, run (start (fun _ => 0) 0x10000 0x1000) es = Ret (h, live, written) /\
    pairwise (region <$> live) /\
    (forall p l, (p, l) ∈ live -> 0x10000 + 16 <= p /\ p + lsize l <= 0x10000 + 0x1000 /\ (lalign l | p)) /\
    (forall w v, written !! w = Some v -> mem h w = v).
Proof.
  assert (He : Forall event_ok [EAlloc (mk_layout 24 8); EAlloc (mk_layout 100 64); EWrite 0 8 77; EFree 1; EAlloc (mk_layout 8 16)]).
  { repeat constructor; cbn; try lia; [by exists 3 | by exists 6 | by exists 4]. }
  assert (H8 : (8 | 0x10000)) by (by exists 0x2000).
  exact (conj eq_refl (conj H8 (conj He (heap_history _ 0x10000 0x1000 _ eq_refl H8 eq_refl eq_refl He)))).
Defined.

(** The free blocks, read from memory. *)
Fixpoint blocks (fuel : nat) (m : memory) (cur : Z) : list block :=
  match fuel with
  | O => []
  | S fuel => if cur =? 0 then [] else (cur, m cur) :: blocks fuel m (m (cur + 8))
  end.

Definition free_blocks (h : KernelHeap) : list block := blocks (list_fuel h) (mem h) (free_list_head h).

Lemma blocks_seg fuel m r l : (length l < fuel)%nat -> seg m r l 0 -> blocks fuel m r = l.
Proof.
  revert fuel r. induction l as [| [a s] l IH]; intros [| fuel] r Hf Hs; cbn [length seg blocks] in *; try lia.
  - by rewrite Hs.
  - destruct Hs as (-> & Ha & <- & Hs). rewrite (proj2 (Z.eqb_neq _ _) Ha). f_equal. apply IH; [lia | done].
Qed.

(** C36: Out of memory means out of memory. After any history no two blocks of the free list touch,
    and none touches the bump pointer, and a request fails exactly when each of them is smaller than
    the request with its header and alignment slack and the rest of the heap is too small as well; a
    failure counts itself and changes nothing else. *)
Theorem heap_exhausted (m : memory) (b size : Z) (es : list event) (h : KernelHeap) (live : list (Z * Layout)) (written : gmap Z Z) (l : Layout) :
  0 < b -> (8 | b) -> 0 < size -> b + size < 2 ^ 62 -> Forall event_ok es -> layout_ok l ->
  run (start m b size) es = Ret (h, live, written) ->
  coalesced (free_blocks h) (next h) /\
  exists ptr h', alloc h l = Ret (ptr, h') /\
    (ptr = 0 <-> Forall (fun c => c.2 < needed_size l) (free_blocks h) /\ b + size < bump_end h l) /\
    (ptr = 0 -> h' = set_stats h (count_failed (count_miss (stats h)))).
Proof.
  intros H1 H2 H3 H4 He Hlo R. destruct (runs b size _ es H3 (start_inv m b size H1 H2 H3 H4) He) as (st & R' & [(fl & Hh) Hl (E1 & E2 & E3) Hw]).
  assert (st = (h, live, written)) as -> by congruence. cbn [fst snd] in *.
  assert (free_blocks h = fl) as ->. { apply blocks_seg; [by apply (fuel_enough _ _ _ Hh) | apply Hh]. }
  split; [apply Hh |]. destruct (alloc_run h fl _ l Hh Hlo E3 ltac:(lia)) as (p & h' & Ra & _ & _ & _ & [[Ho Hno] | (-> & -> & Hs & Hb)]);
    rewrite E1, E2 in *; eexists _, _; (split; [exact Ra |]).
  - pose proof (hands_out_nonnull _ _ _ _ _ _ Ho). tauto.
  - tauto.
Qed.

Lemma heap_exhausted_witness : exists h live written,
  run (start (fun _ => 0) 0x10000 0x100) [EAlloc (mk_layout 200 8)] = Ret (h, live, written) /\
  coalesced (free_blocks h) (next h) /\
  exists ptr h', alloc h (mk_layout 64 8) = Ret (ptr, h') /\
    (ptr = 0 <-> Forall (fun c => c.2 < needed_size (mk_layout 64 8)) (free_blocks h) /\ 0x10000 + 0x100 < bump_end h (mk_layout 64 8)) /\
    (ptr = 0 -> h' = set_stats h (count_failed (count_miss (stats h)))).
Proof.
  assert (Hl : layout_ok (mk_layout 64 8)) by (split; [done |]; split; [by exists 3 | done]).
  assert (He : Forall event_ok [EAlloc (mk_layout 200 8)]) by (repeat constructor; cbn; try lia; by exists 3).
  assert (H8 : (8 | 0x10000)) by (by exists 0x2000). eexists _, _, _. split; [reflexivity |].
  exact (heap_exhausted (fun _ => 0) 0x10000 0x100 _ _ _ _ _ eq_refl H8 eq_refl eq_refl He Hl eq_refl).
Defined.

(** An allocation that is released is not used for a request of the same size: the search asks for
    the alignment slack on top, even when the block needs none. *)
Example freed_not_reused : exists h live written,
  run (start (fun _ => 0) 0x10000 0x1000) [EAlloc (mk_layout 64 8); EAlloc (mk_layout 64 8); EFree 1; EAlloc (mk_layout 64 8)] =
    Ret (h, live, written) /\
  live.*1 = [0x100b0; 0x10060] /\ free_blocks h = [(0x10000, 80)] /\ free_list_misses (stats h) = 3.
Proof. eexists _, _, _. by vm_compute. Qed.

(** The eight bytes that a cut can leave in front of or behind a block are in no list any more: all
    memory has been returned, yet the bump pointer stays above a block that ends 8 bytes below it. *)
Example sliver_lost : exists h written,
  run (start (fun _ => 0) 0x10000 0x1000)
    [EAlloc (mk_layout 64 8); EAlloc (mk_layout 8 8); EFree 1; EAlloc (mk_layout 56 8); EFree 0; EFree 0] = Ret (h, [], written) /\
  free_blocks h = [(0x10000, 72)] /\ next h = 0x10050.
Proof. eexists _, _. by vm_compute. Qed.

End Heap.
