(* ===== verification/Frame.v ===== *)
(** * Physical frames ([mm/frame.rs])

    The buddy allocator of physical pages: one list of free blocks per power of two, threaded
    through a table of nodes indexed by frame, and the page counters kept beside it. The table is a
    function from frame numbers to nodes, because the code reaches it through a raw pointer. *)

From Stdlib Require Import ZArith Lia.
From S2P Require Import Prelude Heap.

Module Frame.

Local Open Scope Z_scope.

(** ** Data *)

Definition FRAME_FREE : Z := 0.
Definition FRAME_USED : Z := 1.
Definition FRAME_RESERVED : Z := 2.
Definition MAX_BUDDY_ORDER : Z := 21.
Definition PAGE_SIZE : Z := 4096.
Definition FREE_LIST_END : Z := 2 ^ 32 - 1.

Record FrameInfo := mk_info { order : Z; flags : Z; reference_count : Z; zone : Z }.

Definition info_new (ord fl z : Z) : FrameInfo := mk_info ord fl 0 z.
Definition is_free (i : FrameInfo) : bool := flags i =? FRAME_FREE.

Inductive MemoryZone := Usual | Lowmem | Movable | Reserve.

Record BuddyNode := mk_node { next : Z; prev : Z; on_list : Z }.

Record FreeListHead := mk_head { head : Z; count : Z }.

Definition empty : FreeListHead := mk_head FREE_LIST_END 0.

(** [frame_infos] and [buddy_nodes] are the two parts of the table; [tables] says that the pointers
    are not null. *)
Record BuddyAllocator := mk_buddy {
  free_lists : Z -> FreeListHead; frame_infos : Z -> FrameInfo; buddy_nodes : Z -> BuddyNode;
  tables : bool; num_frames : Z; base_address : Z; free_frames : Z; initialised : bool }.

Definition buddy_new : BuddyAllocator :=
  mk_buddy (fun _ => empty) (fun _ => info_new 0 0 0) (fun _ => mk_node 0 0 0) false 0 0 0 false.

(** One cell of a table. *)
Definition upd {A : Type} (f : Z -> A) (i : Z) (v : A) : Z -> A := fun j => if j =? i then v else f j.

Definition set_lists (b : BuddyAllocator) (k : Z) (l : FreeListHead) (nd : Z -> BuddyNode) : BuddyAllocator :=
  mk_buddy (upd (free_lists b) k l) (frame_infos b) nd (tables b) (num_frames b) (base_address b) (free_frames b) (initialised b).
Definition set_infos (b : BuddyAllocator) (fi : Z -> FrameInfo) : BuddyAllocator :=
  mk_buddy (free_lists b) fi (buddy_nodes b) (tables b) (num_frames b) (base_address b) (free_frames b) (initialised b).
Definition set_free (b : BuddyAllocator) (n : Z) : BuddyAllocator :=
  mk_buddy (free_lists b) (frame_infos b) (buddy_nodes b) (tables b) (num_frames b) (base_address b) n (initialised b).

(** ** Orders *)

(** [while n > 1 { n >>= 1; order += 1 }] *)
Fixpoint halvings (fuel : nat) (n order : Z) : outcome Z :=
  if 1 <? n then
    match fuel with O => OutOfFuel | S fuel => halvings fuel (Z.shiftr n 1) (order + 1) end
  else Ret order.

Definition order_of (cnt : Z) : outcome Z :=
  if cnt <=? 1 then Ret 0
  else
    order ← halvings 64 cnt 0;
    Ret (if wrap 64 (Z.shiftl 1 order) <? cnt then order + 1 else order).

(** ** Lists *)

Definition push_head (list : FreeListHead) (frame : Z) (nd : Z -> BuddyNode) : FreeListHead * (Z -> BuddyNode) :=
  let nd := upd nd frame (mk_node (head list) FREE_LIST_END 1) in
  let nd :=
    if negb (head list =? FREE_LIST_END) then
      let old := nd (head list) in upd nd (head list) (mk_node (next old) frame (on_list old))
    else nd in
  (mk_head frame (count list +[32] 1), nd).

Definition remove_node (list : FreeListHead) (frame : Z) (nd : Z -> BuddyNode) : FreeListHead * (Z -> BuddyNode) :=
  let nx := next (nd frame) in
  let pv := prev (nd frame) in
  let '(hd, nd) :=
    if negb (pv =? FREE_LIST_END) then
      (head list, upd nd pv (mk_node nx (prev (nd pv)) (on_list (nd pv))))
    else (nx, nd) in
  let nd := if negb (nx =? FREE_LIST_END) then upd nd nx (mk_node (next (nd nx)) pv (on_list (nd nx))) else nd in
  let nd := upd nd frame (mk_node FREE_LIST_END FREE_LIST_END 0) in
  (mk_head hd (count list -[32] 1), nd).

(** ** Initialisation *)

Definition INFO_SIZE : Z := 8.
Definition NODE_SIZE : Z := 12.

(** Every frame is linked into the list of order 0. *)
Definition seed_node (nd : Z -> BuddyNode) (i : Z) : Z -> BuddyNode :=
  upd nd i (mk_node (i +[32] 1) (if i =? 0 then FREE_LIST_END else i -[32] 1) 1).

Definition seed (total : Z) (nd : Z -> BuddyNode) : (Z -> BuddyNode) :=
  let nd := fold_left seed_node (seqZ 0 total) nd in
  let last := total -[32] 1 in
  let nd := upd nd 0 (mk_node (next (nd 0)) FREE_LIST_END (on_list (nd 0))) in
  upd nd last (mk_node FREE_LIST_END (prev (nd last)) (on_list (nd last))).

(** The blocks that remain at order [k] after coalescing. *)
Definition seed_order (b : BuddyAllocator) (k : Z) : BuddyAllocator :=
  let total_frames := num_frames b in
  let shift := wrap 64 (Z.shiftl 1 k) in
  let larger_shift := wrap 64 (Z.shiftl shift 1) in
  let block_count := total_frames / shift -[64] 2 *[64] (total_frames / larger_shift) in
  let first_block := total_frames / larger_shift *[64] larger_shift in
  fold_left (fun b i =>
      let '(l, nd) := push_head (free_lists b k) (wrap 32 (first_block +[64] i *[64] shift)) (buddy_nodes b) in
      set_lists b k l nd)
    (seqZ 0 block_count) b.

Definition align_down (x : Z) : Z := Z.land x (wnot 64 (PAGE_SIZE - 1)).

Definition frames_in (base region_end : Z) : Z :=
  if base <? region_end then (region_end - base) / PAGE_SIZE else 0.

(** The tables are cleared and every frame goes to order 0. *)
Definition clear_tables (b : BuddyAllocator) (n base : Z) : BuddyAllocator :=
  let total := wrap 32 n in
  let infos := fun i => if (0 <=? i) && (i <? n) then mk_info 0 0 0 0 else frame_infos b i in
  let nodes := fun i => if (0 <=? i) && (i <? n) then mk_node 0 0 0 else buddy_nodes b i in
  let lists := upd (free_lists b) 0 (mk_head 0 total) in
  mk_buddy lists infos (seed total nodes) true n base (free_frames b) (initialised b).

Definition finish (b : BuddyAllocator) : BuddyAllocator :=
  mk_buddy (free_lists b) (frame_infos b) (buddy_nodes b) (tables b) (num_frames b) (base_address b) (num_frames b) true.

Definition seed_orders (b : BuddyAllocator) : BuddyAllocator := fold_left seed_order (seqZ 0 MAX_BUDDY_ORDER) b.

Definition init (b : BuddyAllocator) (region_base region_size frame_table_size : Z) : BuddyAllocator :=
  let base := align_down (region_base +[64] PAGE_SIZE -[64] 1) in
  let region_end := align_down (region_base +[64] region_size) in
  let n := frames_in base region_end in
  let n := if frame_table_size <? n *[64] (INFO_SIZE + NODE_SIZE) then frame_table_size / (INFO_SIZE + NODE_SIZE) else n in
  if frame_table_size <? n *[64] INFO_SIZE +[64] n *[64] NODE_SIZE then
    mk_buddy (free_lists b) (frame_infos b) (buddy_nodes b) (tables b) n base (free_frames b) (initialised b)
  else finish (seed_orders (clear_tables b n base)).

(** ** Allocation *)

(** The loop ends at the first frame past the table, and what is past it counts as not reserved. *)
Definition block_contains_reserved (b : BuddyAllocator) (frame ord : Z) : bool :=
  tables b &&
  existsb (fun i => (frame + i <? num_frames b) && (flags (frame_infos b (frame + i)) =? FRAME_RESERVED)) (seqZ 0 (2 ^ ord)).

(** A list that does not end within as many nodes as there are frames never ends. *)
Fixpoint take_walk (fuel : nat) (b : BuddyAllocator) (ord cur : Z) : outcome Z :=
  if cur =? FREE_LIST_END then Ret FREE_LIST_END
  else match fuel with
  | O => OutOfFuel
  | S fuel =>
      if negb (block_contains_reserved b cur ord) then Ret cur
      else take_walk fuel b ord (next (buddy_nodes b cur))
  end.

Definition walk_fuel (b : BuddyAllocator) : nat := S (Z.to_nat (num_frames b)).

Definition take_allocatable (b : BuddyAllocator) (ord : Z) : outcome (Z * BuddyAllocator) :=
  cur ← take_walk (walk_fuel b) b ord (head (free_lists b ord));
  if cur =? FREE_LIST_END then Ret (FREE_LIST_END, b)
  else
    let '(l, nd) := remove_node (free_lists b ord) cur (buddy_nodes b) in
    Ret (cur, set_lists b ord l nd).

(** [while cur_order > order]: the upper halves go to the smaller lists. *)
Fixpoint split_down (n : nat) (b : BuddyAllocator) (frame cur_order : Z) : BuddyAllocator :=
  match n with
  | O => b
  | S n =>
      let cur_order := cur_order - 1 in
      let buddy := Z.lxor frame (wrap 32 (Z.shiftl 1 cur_order)) in
      let '(l, nd) := push_head (free_lists b cur_order) buddy (buddy_nodes b) in
      split_down n (set_lists b cur_order l nd) frame cur_order
  end.

Definition mark (b : BuddyAllocator) (frame ord fl : Z) : BuddyAllocator :=
  set_infos b (fun i => if (frame <=? i) && (i <? frame + 2 ^ ord) && (i <? num_frames b) then info_new ord fl 0 else frame_infos b i).

Fixpoint allocate_from (n : nat) (b : BuddyAllocator) (ord current_order : Z) : outcome (option Z * BuddyAllocator) :=
  match n with
  | O => Ret (None, b)
  | S n =>
      '(frame, b) ← take_allocatable b current_order;
      if frame =? FREE_LIST_END then allocate_from n b ord (current_order + 1)
      else
        let b := split_down (Z.to_nat (current_order - ord)) b frame current_order in
        let b := mark b frame ord FRAME_USED in
        let b := set_free b (free_frames b -[64] 2 ^ ord) in
        Ret (Some (base_address b +[64] frame *[64] 4096), b)
  end.

Definition allocate (b : BuddyAllocator) (cnt : Z) : outcome (option Z * BuddyAllocator) :=
  if negb (initialised b) || (cnt =? 0) then Ret (None, b)
  else
    o ← order_of cnt;
    let ord := Z.min o (MAX_BUDDY_ORDER - 1) in
    allocate_from (Z.to_nat (MAX_BUDDY_ORDER - ord)) b ord ord.

(** ** Release *)

(** The buddy is taken off the list of the current order if it is on any list. *)
Fixpoint merge_up (n : nat) (b : BuddyAllocator) (cur_frame cur_order : Z) : Z * Z * BuddyAllocator :=
  match n with
  | O => (cur_frame, cur_order, b)
  | S n =>
      let buddy := Z.lxor cur_frame (wrap 32 (Z.shiftl 1 cur_order)) in
      if num_frames b <=? buddy then (cur_frame, cur_order, b)
      else if on_list (buddy_nodes b buddy) =? 0 then (cur_frame, cur_order, b)
      else
        let '(l, nd) := remove_node (free_lists b cur_order) buddy (buddy_nodes b) in
        merge_up n (set_lists b cur_order l nd) (Z.min cur_frame buddy) (cur_order + 1)
  end.

Definition free (b : BuddyAllocator) (phys_addr cnt : Z) : outcome BuddyAllocator :=
  if negb (initialised b) || (phys_addr <? base_address b) then Ret b
  else
    let frame := (phys_addr - base_address b) / 4096 in
    o ← order_of cnt;
    let ord := Z.min o (MAX_BUDDY_ORDER - 1) in
    if (num_frames b <=? frame) || (num_frames b <? frame + 2 ^ ord) then Ret b
    else
      let frame := wrap 32 frame in
      let b := mark b frame ord FRAME_FREE in
      let '(cur_frame, cur_order, b) := merge_up (Z.to_nat (MAX_BUDDY_ORDER - 1 - ord)) b frame ord in
      let '(l, nd) := push_head (free_lists b cur_order) cur_frame (buddy_nodes b) in
      let b := set_lists b cur_order l nd in
      Ret (set_free b (free_frames b +[64] 2 ^ ord)).

(** ** The global allocator *)

(** [BUDDY_ALLOCATOR] with the two page counters. *)
Record Frames := mk_frames { buddy : BuddyAllocator; TOTAL_PAGES : Z; FREE_PAGES : Z }.

Definition frames_new : Frames := mk_frames buddy_new 0 0.

Definition FRAME_TABLE_ENTRIES : Z := 131072.
Definition FRAME_TABLE_BYTES : Z := FRAME_TABLE_ENTRIES * (INFO_SIZE + NODE_SIZE).
Definition BOOTSTRAP_REGION : Z := 512 * 1024 * 1024.

Definition legacy_init (f : Frames) (region_base region_size : Z) : Frames :=
  let b := init (buddy f) region_base region_size FRAME_TABLE_BYTES in
  mk_frames b (num_frames b) (free_frames b).

Definition init_with_range (f : Frames) (region_base region_size : Z) : Frames := legacy_init f region_base region_size.

Definition frame_init (f : Frames) : Frames := init_with_range f 0x100000 BOOTSTRAP_REGION.

Definition reserve_range (f : Frames) (base size : Z) : Frames :=
  let b := buddy f in
  let start_frame := Z.land base (wnot 64 0xFFF) / 4096 in
  let end_frame := Z.land (base +[64] size +[64] 0xFFF) (wnot 64 0xFFF) / 4096 in
  if negb (tables b) || (num_frames b =? 0) then f
  else
    let first := base_address b / 4096 in
    let region_end := base_address b +[64] num_frames b *[64] 4096 in
    let lo := Z.max start_frame first in
    let hi := Z.min end_frame (region_end / 4096) in
    if hi <=? lo then f
    else
      let infos := fun i =>
        let old := frame_infos b i in
        if (lo - first <=? i) && (i <? hi - first) then mk_info (order old) FRAME_RESERVED (reference_count old) (zone old) else old in
      mk_frames (set_infos b infos) (TOTAL_PAGES f) (FREE_PAGES f).

(** The PFN database is told of each frame, when it is up: the frames are the second answer. *)
Definition allocate_pages (pfn_up : bool) (f : Frames) (cnt : Z) : outcome (option Z * list Z * Frames) :=
  '(r, b) ← allocate (buddy f) cnt;
  match r with
  | None => Ret (None, [], mk_frames b (TOTAL_PAGES f) (FREE_PAGES f))
  | Some addr =>
      Ret (Some addr,
           if pfn_up then (fun offset => addr / 4096 +[64] offset) <$> seqZ 0 cnt else [],
           mk_frames b (TOTAL_PAGES f) (FREE_PAGES f -[64] Z.min cnt (FREE_PAGES f)))
  end.

Definition free_pages (pfn_up : bool) (f : Frames) (phys_addr cnt : Z) : outcome (list Z * Frames) :=
  b ← free (buddy f) phys_addr cnt;
  Ret (if pfn_up then (fun offset => phys_addr / 4096 +[64] offset) <$> seqZ 0 cnt else [],
       mk_frames b (TOTAL_PAGES f) (FREE_PAGES f +[64] cnt)).

Definition allocate_frame (pfn_up : bool) (f : Frames) : outcome (option Z * list Z * Frames) := allocate_pages pfn_up f 1.
Definition free_frame (pfn_up : bool) (f : Frames) (phys_addr : Z) : outcome (list Z * Frames) := free_pages pfn_up f phys_addr 1.

Definition for_each_allocated_frame (f : Frames) : list Z :=
  let b := buddy f in
  if negb (initialised b) then []
  else (fun idx => base_address b +[64] idx *[64] 4096) <$>
         filter (fun idx => flags (frame_infos b idx) <> FRAME_FREE) (seqZ 0 (num_frames b)).

(** The frames that were given to or taken from the PFN database are the second answer again. *)
Definition allocate_zone (pfn_up : bool) (f : Frames) (z : MemoryZone) (cnt : Z) : outcome (option Z * list Z * list Z * Frames) :=
  match z with
  | Reserve => Ret (None, [], [], f)
  | Usual | Movable =>
      '(r, pfns, f) ← allocate_pages pfn_up f cnt;
      Ret (r, pfns, [], f)
  | Lowmem =>
      '(r, pfns, f) ← allocate_pages pfn_up f cnt;
      match r with
      | None => Ret (None, pfns, [], f)
      | Some phys =>
          if 2 ^ 64 <=? cnt * 4096 then Ret (None, pfns, [], f)
          else if phys + cnt * 4096 <=? 2 ^ 32 then Ret (Some phys, pfns, [], f)
          else
            '(released, f) ← free_pages pfn_up f phys cnt;
            Ret (None, pfns, released, f)
      end
  end.

Definition get_total_physical (f : Frames) : Z := TOTAL_PAGES f *[64] 4096.
Definition get_free_physical (f : Frames) : Z := FREE_PAGES f *[64] 4096.

(** ** Orders are exact *)

Lemma halvings_run fuel n k : 1 <= n < 2 ^ Z.of_nat fuel -> halvings fuel n k = Ret (k + Z.log2 n).
Proof.
  revert n k. induction fuel as [| fuel IH]; intros n k Hn; [change (2 ^ Z.of_nat 0) with 1 in Hn; lia |].
  cbn [halvings]. destruct (Z.ltb_spec 1 n) as [H | H].
  - rewrite Nat2Z.inj_succ, Z.pow_succ_r in Hn by lia. rewrite IH.
    + rewrite Z.log2_shiftr by lia. pose proof (Z.log2_pos n). f_equal. lia.
    + rewrite Z.shiftr_div_pow2 by lia. change (2 ^ 1) with 2.
      split; [apply Z.div_le_lower_bound; lia | apply Z.div_lt_upper_bound; lia].
  - assert (n = 1) as -> by lia. change (Z.log2 1) with 0. f_equal. lia.
Qed.

Lemma shiftl_one k : 0 <= k <= 63 -> wrap 64 (Z.shiftl 1 k) = 2 ^ k.
Proof.
  intros Hk. rewrite Z.shiftl_1_l. apply wrap_small. split; [apply Z.pow_nonneg; lia |]. apply Z.pow_lt_mono_r; lia.
Qed.

Lemma order_of_log2_up cnt : 0 <= cnt < 2 ^ 64 -> order_of cnt = Ret (Z.log2_up cnt).
Proof.
  intros Hc. unfold order_of. destruct (Z.leb_spec cnt 1) as [H | H]; [by rewrite Z.log2_up_eqn0 by lia |].
  rewrite halvings_run by (change (Z.of_nat 64) with 64; lia). autorewrite with nt. rewrite Z.add_0_l.
  assert (Hl : 0 < Z.log2 cnt < 64) by (split; [by apply Z.log2_pos | apply Z.log2_lt_pow2; lia]).
  rewrite shiftl_one by lia. pose proof (Z.log2_spec cnt ltac:(lia)) as Hs. f_equal. symmetry.
  destruct (Z.ltb_spec (2 ^ Z.log2 cnt) cnt) as [H2 | H2]; apply Z.log2_up_unique; try lia.
  - replace (Z.pred (Z.log2 cnt + 1)) with (Z.log2 cnt) by lia. rewrite Z.add_1_r. lia.
  - split; [| done]. assert (cnt = 2 ^ Z.log2 cnt) as -> by lia. rewrite Z.log2_pow2 by lia. apply Z.pow_lt_mono_r; lia.
Qed.

(** ** What initialisation leaves *)

Lemma upd_at {A} (f : Z -> A) i v : upd f i v i = v.
Proof. unfold upd. by rewrite Z.eqb_refl. Qed.

Lemma upd_ne {A} (f : Z -> A) i j v : j <> i -> upd f i v j = f j.
Proof. intros H. unfold upd. by rewrite (proj2 (Z.eqb_neq _ _) H). Qed.

Lemma seed_order_run b k : 0 <= num_frames b < 2 ^ 32 -> 0 <= k <= 20 ->
  let f := num_frames b / 2 ^ (k + 1) * 2 ^ (k + 1) in
  seed_order b k =
    if Z.testbit (num_frames b) k
    then let '(l, nd) := push_head (free_lists b k) f (buddy_nodes b) in set_lists b k l nd
    else b.
Proof.
  intros Hn Hk f. unfold seed_order. rewrite shiftl_one by lia.
  assert (H2 : wrap 64 (Z.shiftl (2 ^ k) 1) = 2 ^ (k + 1)).
  { rewrite Z.shiftl_mul_pow2, <- Z.pow_add_r by lia. apply wrap_small. split; [apply Z.pow_nonneg; lia | apply Z.pow_lt_mono_r; lia]. }
  rewrite H2. fold f. assert (Hp : 0 < 2 ^ k) by (apply Z.pow_pos_nonneg; lia).
  assert (Hp1 : 2 ^ (k + 1) = 2 * 2 ^ k) by (rewrite Z.pow_add_r by lia; lia).
  assert (Hf : 0 <= f <= num_frames b).
  { unfold f. pose proof (Z.mul_div_le (num_frames b) (2 ^ (k + 1))). pose proof (Z.div_pos (num_frames b) (2 ^ (k + 1))). nia. }
  assert (Hd : num_frames b / 2 ^ k <= num_frames b) by (apply Z.div_le_upper_bound; nia).
  assert (H0 : 0 <= num_frames b / 2 ^ k) by (apply Z.div_pos; lia).
  assert (Hc : num_frames b / 2 ^ k - 2 * (num_frames b / 2 ^ (k + 1)) = Z.b2z (Z.testbit (num_frames b) k)).
  { rewrite Z.testbit_spec' by lia. rewrite Hp1, (Z.mul_comm 2 (2 ^ k)), <- Z.div_div by lia.
    pose proof (Z.div_mod (num_frames b / 2 ^ k) 2). lia. }
  rewrite (wrap_small 64 (2 * _)) by (unfold u_ty; destruct (Z.testbit _ _); cbn [Z.b2z] in Hc; lia).
  rewrite Hc, (wrap_small 64 (Z.b2z _)), (wrap_small 64 f) by (unfold u_ty; destruct (Z.testbit _ _); cbn [Z.b2z]; lia).
  destruct (Z.testbit (num_frames b) k); [| done]. change (seqZ 0 (Z.b2z true)) with [0]. cbn [fold_left].
  rewrite Z.mul_0_l, (wrap_small 64 0), Z.add_0_r, (wrap_small 64 f), (wrap_small 32 f) by (unfold u_ty; lia). done.
Qed.

(** Where the block of order [j] begins, if there is one. *)
Definition block_of (n j : Z) : Z := n / 2 ^ (j + 1) * 2 ^ (j + 1).

Lemma block_of_top n : 0 < n -> block_of n (Z.log2 n) = 0.
Proof. intros Hn. unfold block_of. rewrite Z.div_small; [done |]. pose proof (Z.log2_spec n Hn) as H. rewrite <- Z.add_1_r in H. lia. Qed.

Lemma block_of_below n j : 0 < n < 2 ^ 32 -> 0 <= j < Z.log2 n -> 0 < block_of n j < 2 ^ 32.
Proof.
  intros Hn Hj. unfold block_of. assert (Hp : 0 < 2 ^ (j + 1)) by (apply Z.pow_pos_nonneg; lia).
  assert (Hle : 2 ^ (j + 1) <= n).
  { pose proof (Z.log2_spec n ltac:(lia)). pose proof (Z.pow_le_mono_r 2 (j + 1) (Z.log2 n)). lia. }
  pose proof (Z.div_le_lower_bound n (2 ^ (j + 1)) 1). pose proof (Z.mul_div_le n (2 ^ (j + 1))). nia.
Qed.

(** The state before the orders from [k] on are seeded, seen at frame 0 and from the lists. *)
Record seeded (n k : Z) (b : BuddyAllocator) : Prop := {
  sd_frames : num_frames b = n;
  sd_zero : head (free_lists b 0) = 0;
  sd_done : forall j, 1 <= j < k -> free_lists b j = if Z.testbit n j then mk_head (block_of n j) 1 else empty;
  sd_todo : forall j, 1 <= j -> k <= j -> free_lists b j = empty;
  sd_node : Z.log2 n < k -> buddy_nodes b 0 = mk_node FREE_LIST_END FREE_LIST_END 1 }.

Lemma seed_order_step n k b : 2 <= n < 2 ^ 21 -> Z.testbit n 0 = false -> 0 <= k <= 20 -> seeded n k b ->
  seeded n (k + 1) (seed_order b k) /\ frame_infos (seed_order b k) = frame_infos b /\ base_address (seed_order b k) = base_address b.
Proof.
  intros Hn H0 Hk [S1 S2 S3 S4 S5]. rewrite seed_order_run by lia. rewrite S1. change (n / _ * _) with (block_of n k).
  assert (Hlog : 0 < Z.log2 n) by (apply Z.log2_pos; lia).
  destruct (Z.testbit n k) eqn:Ek.
  - assert (k <> 0) by congruence. rewrite (S4 k) by lia. cbn [push_head empty head count]. rewrite Z.eqb_refl. cbn [negb].
    split; [| done]. constructor; cbn [set_lists num_frames free_lists buddy_nodes].
    + done.
    + by rewrite upd_ne by lia.
    + intros j Hj. destruct (Z.eq_dec j k) as [-> |]; [rewrite upd_at, Ek; done |]. rewrite upd_ne by lia. apply S3. lia.
    + intros j Hj Hjk. rewrite upd_ne by lia. apply S4; lia.
    + intros Hl. destruct (Z.eq_dec k (Z.log2 n)) as [-> |]; [rewrite block_of_top by lia; apply upd_at |].
      exfalso. assert (Z.log2 n < k) by lia. by rewrite Z.bits_above_log2 in Ek by lia.
  - split; [| done]. constructor; try done.
    + intros j Hj. destruct (Z.eq_dec j k) as [-> |]; [rewrite Ek; apply S4; lia | apply S3; lia].
    + intros j Hj Hjk. apply S4; lia.
    + intros Hl. apply S5. destruct (Z.eq_dec k (Z.log2 n)) as [-> |]; [| lia]. by rewrite Z.bit_log2 in Ek by lia.
Qed.

Lemma seed_orders_from n m k b : 2 <= n < 2 ^ 21 -> Z.testbit n 0 = false -> 0 <= k -> 0 <= m -> k + m = 21 -> seeded n k b ->
  seeded n 21 (fold_left seed_order (seqZ k m) b) /\ frame_infos (fold_left seed_order (seqZ k m) b) = frame_infos b /\
  base_address (fold_left seed_order (seqZ k m) b) = base_address b.
Proof.
  intros Hn H0 Hk Hm. revert k b Hk. pattern m. apply natlike_ind; [| | done]; clear m Hm.
  - intros k b Hk E Hs. replace k with 21 in Hs by lia. done.
  - intros m Hm IH k b Hk E Hs. rewrite seqZ_cons by lia. cbn [fold_left]. rewrite Z.pred_succ, <- Z.add_1_r.
    destruct (seed_order_step n k b Hn H0 ltac:(lia) Hs) as (Hs' & <- & <-). apply IH; [lia | lia | done].
Qed.

(** The frames that are managed: those of the region, as many as the table has room for. *)
Definition managed (region_size table_size : Z) : Z := Z.min (region_size / 4096) (table_size / 20).

Lemma align_down_eq x : 0 <= x < 2 ^ 64 -> align_down x = x / 4096 * 4096.
Proof. intros Hx. unfold align_down. apply (land_wnot_pow2 x 12); [lia | done]. Qed.

(** An allocator in use whose frames are not reserved. *)
Record usable (b : BuddyAllocator) : Prop := {
  us_init : initialised b = true;
  us_flags : forall i, flags (frame_infos b i) <> FRAME_RESERVED }.

Lemma frames_in_aligned base size : (4096 | base) -> 0 <= base -> 0 <= size -> base + size < 2 ^ 64 ->
  frames_in base (align_down (base + size)) = size / 4096.
Proof.
  intros [q ->] Hb Hs Ho. rewrite align_down_eq by lia. rewrite Z.div_add_l by lia. unfold frames_in, PAGE_SIZE.
  pose proof (Z.div_pos size 4096). destruct (Z.ltb_spec (q * 4096) ((q + size / 4096) * 4096)) as [H1 | H1]; [| lia].
  replace ((q + size / 4096) * 4096 - q * 4096) with (size / 4096 * 4096) by lia. by apply Z.div_mul.
Qed.

Lemma seeds n base : 2 <= n < 2 ^ 21 -> Z.testbit n 0 = false ->
  exists b, finish (seed_orders (clear_tables buddy_new n base)) = b /\
    seeded n 21 b /\ usable b /\ base_address b = base /\ num_frames b = n /\ free_frames b = n.
Proof.
  intros Hn H0. eexists. split; [done |].
  assert (Hb : seeded n 0 (clear_tables buddy_new n base)).
  { constructor; unfold clear_tables; cbn [num_frames free_lists]; [done | by rewrite upd_at | lia | |].
    - intros j H1 H2. by rewrite upd_ne by lia.
    - pose proof (Z.log2_nonneg n). lia. }
  assert (Hf : forall i, flags (frame_infos (clear_tables buddy_new n base) i) <> FRAME_RESERVED).
  { intros i. unfold clear_tables. cbn [frame_infos]. by destruct (_ && _). }
  assert (Ha : base_address (clear_tables buddy_new n base) = base) by done.
  revert Hb Hf Ha. generalize (clear_tables buddy_new n base). intros b1 Hb Hf Ha.
  destruct (seed_orders_from n 21 0 b1 Hn H0 ltac:(lia) ltac:(lia) ltac:(lia) Hb) as (Hs & Hi & Ha').
  revert Hs Hi Ha'. unfold seed_orders, MAX_BUDDY_ORDER. generalize (fold_left seed_order (seqZ 0 21) b1).
  intros b2 [S1 S2 S3 S4 S5] Hi Ha'. split; [by constructor |]. split; [| cbn [finish base_address num_frames free_frames]; split; [congruence | done]].
  constructor; [done |]. intros i. cbn [finish frame_infos]. by rewrite Hi.
Qed.

Lemma init_run rb rs ts : (4096 | rb) -> 0 <= rb -> rb + rs < 2 ^ 64 - 4096 -> 0 <= rs -> 0 <= ts < 2 ^ 32 ->
  init buddy_new rb rs ts = finish (seed_orders (clear_tables buddy_new (managed rs ts) rb)).
Proof.
  intros Hrb Hr0 Ho Hrs Hts. unfold init, PAGE_SIZE, INFO_SIZE, NODE_SIZE.
  assert (Hbase : align_down (rb +[64] 4096 -[64] 1) = rb).
  { rewrite (wrap_small 64 (rb + 4096)), wrap_small by (unfold u_ty; lia). rewrite align_down_eq by lia. destruct Hrb as [q ->].
    replace (q * 4096 + 4096 - 1) with (q * 4096 + 4095) by lia. rewrite Z.div_add_l by lia. change (4095 / 4096) with 0. lia. }
  rewrite Hbase, (wrap_small 64 (rb + rs)) by (unfold u_ty; lia). rewrite frames_in_aligned by (try done; lia).
  assert (Hn0 : 0 <= rs / 4096 < 2 ^ 52) by (split; [apply Z.div_pos; lia | apply Z.div_lt_upper_bound; lia]).
  change (8 + 12) with 20. rewrite (wrap_small 64 (rs / 4096 * 20)) by (unfold u_ty; lia).
  pose proof (Z.div_mod ts 20). pose proof (Z.mod_pos_bound ts 20).
  assert ((if ts <? rs / 4096 * 20 then ts / 20 else rs / 4096) = managed rs ts) as ->.
  { unfold managed. destruct (Z.ltb_spec ts (rs / 4096 * 20)); lia. }
  assert (Hnt : 0 <= managed rs ts /\ managed rs ts * 20 <= ts) by (unfold managed; lia).
  rewrite (wrap_small 64 (_ * 8)), (wrap_small 64 (_ * 12)), (wrap_small 64 (_ + _)) by (unfold u_ty; lia).
  by rewrite (proj2 (Z.ltb_ge ts (managed rs ts * 8 + managed rs ts * 12))) by lia.
Qed.

(** ** Allocations after it *)

Lemma not_reserved b f ord : usable b -> block_contains_reserved b f ord = false.
Proof.
  intros [_ Hf]. unfold block_contains_reserved. destruct (tables b); [| done]. cbn [andb].
  apply not_true_is_false. intros (i & _ & Hi)%existsb_exists. specialize (Hf (f + i)). lia.
Qed.

Lemma take_run b ord : usable b ->
  take_allocatable b ord =
    let f := head (free_lists b ord) in
    if f =? FREE_LIST_END then Ret (FREE_LIST_END, b)
    else let '(l, nd) := remove_node (free_lists b ord) f (buddy_nodes b) in Ret (f, set_lists b ord l nd).
Proof.
  intros Hu. unfold take_allocatable, walk_fuel. cbv zeta.
  destruct (head (free_lists b ord) =? FREE_LIST_END) eqn:E; cbn [take_walk]; rewrite E; autorewrite with nt.
  - by rewrite Z.eqb_refl.
  - rewrite not_reserved by done. cbn [negb]. autorewrite with nt. by rewrite E.
Qed.

Lemma usable_mark b f ord fl : usable b -> fl <> FRAME_RESERVED -> usable (mark b f ord fl).
Proof. intros [H1 H2] Hf. constructor; [done |]. intros i. cbn [mark set_infos frame_infos]. by destruct (_ && _). Qed.

(** The lists from [lo] to [hi] are empty. *)
Definition no_blocks (b : BuddyAllocator) (lo hi : Z) : Prop := forall j, lo <= j < hi -> head (free_lists b j) = FREE_LIST_END.

(** Frame 0 is at the head of list [k], alone, whatever else it is on. *)
Definition zero_at (b : BuddyAllocator) (k : Z) : Prop :=
  head (free_lists b k) = 0 /\ next (buddy_nodes b 0) = FREE_LIST_END /\ prev (buddy_nodes b 0) = FREE_LIST_END.

(** Halving the block at frame 0 does not change its node or a list below. *)
Lemma split_down_zero n b k : (Z.of_nat n <= k <= 20) -> no_blocks b (k - Z.of_nat n) k ->
  let b' := split_down n b 0 k in
  buddy_nodes b' 0 = buddy_nodes b 0 /\ (forall j, j < k - Z.of_nat n \/ k <= j -> free_lists b' j = free_lists b j) /\
  frame_infos b' = frame_infos b /\ num_frames b' = num_frames b /\ base_address b' = base_address b /\
  free_frames b' = free_frames b /\ initialised b' = initialised b.
Proof.
  revert b k. induction n as [| n IH]; intros b k Hk He; [by cbn |]. cbn [split_down].
  rewrite Z.lxor_0_l, Z.shiftl_1_l.
  assert (Hp : 0 < 2 ^ (k - 1)) by (apply Z.pow_pos_nonneg; lia).
  assert (Hp2 : 2 ^ (k - 1) < 2 ^ 32) by (apply Z.pow_lt_mono_r; lia).
  rewrite wrap_small by (unfold u_ty; lia). unfold push_head. rewrite (He (k - 1)) by lia.
  rewrite Z.eqb_refl. cbn [negb].
  match goal with |- context [split_down n ?x 0 _] => destruct (IH x (k - 1)) as (I1 & I2 & I3 & I4 & I5 & I6 & I7) end.
  - lia.
  - intros j Hj. cbn [set_lists free_lists]. rewrite upd_ne by lia. apply He. lia.
  - cbv zeta. rewrite I1, I3, I4, I5, I6, I7. cbn [set_lists buddy_nodes free_lists frame_infos num_frames base_address free_frames initialised].
    split; [apply upd_ne; lia |]. split; [| done]. intros j Hj. rewrite I2 by lia. cbn [set_lists free_lists]. apply upd_ne. lia.
Qed.

Lemma allocate_from_zero n b ord cur k : usable b -> 0 <= ord <= cur -> cur <= k <= 20 -> (Z.to_nat (k - cur) < n)%nat ->
  no_blocks b ord k -> zero_at b k ->
  exists b', allocate_from n b ord cur = Ret (Some (wrap 64 (base_address b)), b') /\ usable b' /\
    base_address b' = base_address b /\ num_frames b' = num_frames b /\
    buddy_nodes b' 0 = mk_node FREE_LIST_END FREE_LIST_END 0 /\ head (free_lists b' k) = FREE_LIST_END /\
    (forall j, j < ord \/ k < j -> free_lists b' j = free_lists b j).
Proof.
  intros Hu Ho Hk Hn He (Z1 & Z2 & Z3). revert cur Ho Hk Hn. induction n as [| n IH]; intros cur Ho Hk Hn; [lia |].
  cbn [allocate_from]. rewrite take_run by done. cbv zeta. destruct (Z.eq_dec cur k) as [-> | Hne].
  - rewrite Z1. change (0 =? FREE_LIST_END) with false. unfold remove_node. rewrite Z2, Z3, Z.eqb_refl. cbn [negb].
    autorewrite with nt. cbv beta iota. change (0 =? FREE_LIST_END) with false. cbv iota.
    match goal with |- context [split_down ?m ?x 0 k] =>
      destruct (split_down_zero m x k) as (D1 & D2 & D3 & D4 & D5 & _ & D7); [lia | | set (b2 := split_down m x 0 k) in *] end.
    { intros j Hj. cbn [set_lists free_lists]. rewrite upd_ne by lia. apply He. lia. }
    clearbody b2. cbn [set_lists buddy_nodes free_lists frame_infos base_address num_frames initialised] in *.
    eexists. split; [cbn [set_free mark set_infos base_address]; rewrite D5, Z.mul_0_l, Z.add_0_r; done |].
    split.
    { assert (Hu2 : usable b2) by (destruct Hu as [U1 U2]; constructor; [by rewrite D7 | by rewrite D3]).
      destruct (usable_mark b2 0 ord FRAME_USED Hu2 ltac:(done)) as [U1 U2]. by constructor. }
    cbn [set_free mark set_infos base_address num_frames buddy_nodes free_lists].
    split; [done |]. split; [done |]. split; [rewrite D1; apply upd_at |].
    split; [by rewrite D2, upd_at by lia |]. intros j Hj. rewrite D2 by lia. apply upd_ne. lia.
  - rewrite (He cur) by lia. rewrite Z.eqb_refl. autorewrite with nt. cbv beta iota. rewrite Z.eqb_refl. apply IH; lia.
Qed.

Lemma allocate_zero b cnt k : usable b -> 1 <= cnt < 2 ^ 64 -> Z.log2_up cnt <= k <= 20 -> no_blocks b (Z.log2_up cnt) k -> zero_at b k ->
  exists b', allocate b cnt = Ret (Some (wrap 64 (base_address b)), b') /\ usable b' /\
    base_address b' = base_address b /\ num_frames b' = num_frames b /\
    buddy_nodes b' 0 = mk_node FREE_LIST_END FREE_LIST_END 0 /\ head (free_lists b' k) = FREE_LIST_END /\
    (forall j, j < Z.log2_up cnt \/ k < j -> free_lists b' j = free_lists b j).
Proof.
  intros Hu Hc Hk He Hz. unfold allocate. rewrite (us_init _ Hu), (proj2 (Z.eqb_neq cnt 0)) by lia. cbn [negb orb].
  rewrite order_of_log2_up by lia. autorewrite with nt. unfold MAX_BUDDY_ORDER. rewrite Z.min_l by lia.
  pose proof (Z.log2_up_nonneg cnt). apply allocate_from_zero; try done; lia.
Qed.

(** The block that holds all frames and the list of single frames begin with the same frame. *)
Lemma given_twice b n cnt : 2 <= n < 2 ^ 21 -> Z.testbit n 0 = false -> seeded n 21 b -> usable b -> 1 <= cnt ->
  Z.log2_up cnt <= Z.log2 n -> (forall j, Z.log2_up cnt <= j < Z.log2 n -> Z.testbit n j = false) ->
  exists b1 b2, allocate b cnt = Ret (Some (wrap 64 (base_address b)), b1) /\
    allocate b1 1 = Ret (Some (wrap 64 (base_address b)), b2).
Proof.
  intros Hn H0 [S1 S2 S3 S4 S5] Hu Hc Hle Hbits.
  assert (Hlog : 1 <= Z.log2 n <= 20).
  { split; [pose proof (Z.log2_pos n); lia |]. assert (Z.log2 n < 21) by (apply Z.log2_lt_pow2; lia). lia. }
  assert (Hc64 : cnt < 2 ^ 64).
  { destruct (Z.lt_ge_cases cnt (2 ^ 64)) as [| Hge]; [done |]. apply Z.log2_up_le_mono in Hge. rewrite Z.log2_up_pow2 in Hge; lia. }
  assert (Hempty : forall j, 1 <= j -> Z.log2_up cnt <= j < Z.log2 n -> head (free_lists b j) = FREE_LIST_END).
  { intros j H1 Hj. by rewrite S3, Hbits by lia. }
  assert (Hnode : buddy_nodes b 0 = mk_node FREE_LIST_END FREE_LIST_END 1) by (apply S5; lia).
  assert (Htop : zero_at b (Z.log2 n)).
  { split; [rewrite S3, Z.bit_log2, block_of_top by lia; done |]. by rewrite Hnode. }
  assert (Hzero : zero_at b 0) by (split; [done |]; by rewrite Hnode).
  pose proof (Z.log2_up_nonneg cnt) as Hnn. destruct (Z.eq_dec (Z.log2_up cnt) 0) as [E | E].
  - destruct (allocate_zero b cnt 0) as (b1 & R & U & B & _ & N & H & L); [done | lia | lia | intros j Hj; lia | done |].
    destruct (allocate_zero b1 1 (Z.log2 n)) as (b2 & R2 & _); [done | lia | change (Z.log2_up 1) with 0; lia | | |].
    + change (Z.log2_up 1) with 0. intros j Hj. destruct (Z.eq_dec j 0) as [-> |]; [done |]. rewrite L by lia. apply Hempty; lia.
    + split; [rewrite L by lia; apply Htop |]. by rewrite N.
    + exists b1, b2. by rewrite <- B at 2.
  - destruct (allocate_zero b cnt (Z.log2 n)) as (b1 & R & U & B & _ & N & H & L); [done | lia | lia | intros j Hj; apply Hempty; lia | done |].
    destruct (allocate_zero b1 1 0) as (b2 & R2 & _); [done | lia | change (Z.log2_up 1) with 0; lia | | |].
    + change (Z.log2_up 1) with 0. intros j Hj. lia.
    + split; [rewrite L by lia; done |]. by rewrite N.
    + exists b1, b2. by rewrite <- B at 2.
Qed.

(** What the heap sees of the frame allocator. *)
Definition heap_pages (pfn_up : bool) (f : Frames) (cnt : Z) : outcome (option Z * Frames) :=
  '(r, _, f) ← allocate_pages pfn_up f cnt;
  Ret (r, f).

(** C21: On a machine with at least 512 MiB the first page of the kernel heap is given out a second
    time. The frame table then covers exactly 131072 frames; initialisation links frame 0 into the
    list of single frames and into the list of the block that holds all of them; the heap takes the
    lower half of that block, and the next request for a single frame is answered with the frame the
    heap begins with. *)
Theorem heap_page_given_away (pfn_up : bool) (region_base region_size : Z) (m : Heap.memory) :
  (4096 | region_base) -> 0 < region_base -> BOOTSTRAP_REGION <= region_size -> region_base + region_size < 2 ^ 64 - 4096 ->
  exists f h f' pfns,
    Heap.heap_init (heap_pages pfn_up) (init_with_range frames_new region_base region_size) (Heap.heap_new m) = Ret (f, h) /\
    Heap.configured_region h = Some (region_base, 256 * 1024 * 1024) /\
    allocate_frame pfn_up f = Ret (Some region_base, pfns, f').
Proof.
  intros Hd Hb Hs Ho. unfold BOOTSTRAP_REGION in Hs. unfold init_with_range, legacy_init. cbn [frames_new buddy].
  rewrite init_run by (try done; unfold FRAME_TABLE_BYTES, FRAME_TABLE_ENTRIES, INFO_SIZE, NODE_SIZE; lia).
  assert (managed region_size FRAME_TABLE_BYTES = 131072) as ->.
  { unfold managed. change (FRAME_TABLE_BYTES / 20) with 131072. apply Z.min_r. apply Z.div_le_lower_bound; lia. }
  destruct (seeds 131072 region_base ltac:(lia) eq_refl) as (b & -> & Hseed & Hu & Ha & Hn & Hf).
  destruct (given_twice b 131072 65536 ltac:(lia) eq_refl Hseed Hu ltac:(lia)) as (b1 & b2 & R1 & R2).
  { by vm_compute. }
  { intros j Hj. change (Z.log2_up 65536) with 16 in Hj. change (Z.log2 131072) with 17 in Hj. assert (j = 16) as -> by lia. done. }
  rewrite Ha, (wrap_small 64 region_base) in R1, R2 by (unfold u_ty; lia).
  unfold Heap.heap_init, heap_pages, allocate_pages. change Heap.HEAP_PAGES_LARGE with 65536. cbn [buddy].
  rewrite R1. autorewrite with nt. cbv beta iota. unfold Heap.configure_pages, Heap.configured_region.
  cbn [Heap.configure Heap.initialized Heap.base Heap.hsize negb]. change (65536 *[64] 4096) with (256 * 1024 * 1024).
  rewrite (proj2 (Z.eqb_neq region_base 0)) by lia. cbn [orb]. change (256 * 1024 * 1024 =? 0) with false. cbv iota. autorewrite with nt.
  eexists _, _, _, _. split; [done |]. cbn [Heap.configure Heap.initialized Heap.base Heap.hsize negb].
  rewrite (proj2 (Z.eqb_neq region_base 0)) by lia. cbn [orb]. split; [done |].
  unfold allocate_frame, allocate_pages. cbn [buddy]. rewrite R2. autorewrite with nt. done.
Qed.

Lemma heap_page_given_away_witness : exists f h f' pfns,
  Heap.heap_init (heap_pages false) (init_with_range frames_new 0x100000 (2048 * 1024 * 1024)) (Heap.heap_new (fun _ => 0)) = Ret (f, h) /\
  Heap.configured_region h = Some (0x100000, 256 * 1024 * 1024) /\
  allocate_frame false f = Ret (Some 0x100000, pfns, f').
Proof.
  apply (heap_page_given_away false 0x100000 (2048 * 1024 * 1024)); [by exists 256 | done | done | done].
Defined.

(** ** Reserved frames *)

Lemma reserved_none b f ord i : tables b = true -> block_contains_reserved b f ord = false ->
  f <= i < f + 2 ^ ord -> i < num_frames b -> flags (frame_infos b i) <> FRAME_RESERVED.
Proof.
  intros Ht Hr Hi Hn E. unfold block_contains_reserved in Hr. rewrite Ht in Hr. cbn [andb] in Hr.
  rewrite <- not_true_iff_false, existsb_exists in Hr. apply Hr. exists (i - f).
  split; [apply list_elem_of_In, elem_of_seqZ; lia |]. replace (f + (i - f)) with i by lia. rewrite E. lia.
Qed.

(** What an allocation leaves alone, and the block it takes if it takes one. *)
Record allocated (b : BuddyAllocator) (ord : Z) (r : option Z) (b' : BuddyAllocator) : Prop := {
  al_tables : tables b' = tables b;
  al_frames : num_frames b' = num_frames b;
  al_base : base_address b' = base_address b;
  al_reserved : forall i, i < num_frames b -> flags (frame_infos b i) = FRAME_RESERVED -> flags (frame_infos b' i) = FRAME_RESERVED;
  al_block : forall a, r = Some a -> exists f, a = base_address b +[64] f *[64] 4096 /\
    forall i, f <= i < f + 2 ^ ord -> i < num_frames b -> flags (frame_infos b i) <> FRAME_RESERVED }.

Lemma take_walk_free fuel b ord cur f : take_walk fuel b ord cur = Ret f -> f <> FREE_LIST_END -> block_contains_reserved b f ord = false.
Proof.
  revert cur. induction fuel as [| fuel IH]; intros cur; cbn [take_walk]; destruct (Z.eqb_spec cur FREE_LIST_END); try congruence.
  destruct (block_contains_reserved b cur ord) eqn:E; cbn [negb]; [apply IH | congruence].
Qed.

Lemma split_down_same n b f k : let b' := split_down n b f k in
  frame_infos b' = frame_infos b /\ tables b' = tables b /\ num_frames b' = num_frames b /\ base_address b' = base_address b.
Proof.
  revert b k. induction n as [| n IH]; intros b k; [by cbn |]. cbn [split_down]. destruct (push_head _ _ _) as [l nd].
  destruct (IH (set_lists b (k - 1) l nd) (k - 1)) as (H1 & H2 & H3 & H4). cbv zeta. by rewrite H1, H2, H3, H4.
Qed.

Lemma allocate_from_keeps n b ord cur r b' : tables b = true -> 0 <= ord <= cur ->
  allocate_from n b ord cur = Ret (r, b') -> allocated b ord r b'.
Proof.
  intros Ht. revert cur. induction n as [| n IH]; intros cur Ho; cbn [allocate_from]; [intros [= <- <-]; by constructor |].
  unfold take_allocatable. destruct (take_walk _ b cur _) as [f | |] eqn:Ew; try discriminate. autorewrite with nt.
  destruct (Z.eqb_spec f FREE_LIST_END) as [Ef | Ef]; autorewrite with nt; cbv beta iota; [rewrite Z.eqb_refl; apply IH; lia |].
  destruct (remove_node _ _ _) as [l nd]. autorewrite with nt. cbv beta iota. rewrite (proj2 (Z.eqb_neq _ _) Ef).
  destruct (split_down_same (Z.to_nat (cur - ord)) (set_lists b cur l nd) f cur) as (H1 & H2 & H3 & H4).
  set (b2 := split_down _ _ _ _) in *. clearbody b2. cbn [set_lists frame_infos tables num_frames base_address] in *.
  assert (Hno : forall i, f <= i < f + 2 ^ ord -> i < num_frames b -> flags (frame_infos b i) <> FRAME_RESERVED).
  { intros i Hi Hn. apply (reserved_none b f cur); [done | by apply (take_walk_free _ _ _ _ _ Ew) | | done].
    pose proof (Z.pow_le_mono_r 2 ord cur). lia. }
  intros [= <- <-]. constructor; cbn [set_free mark set_infos tables num_frames base_address frame_infos]; try done.
  - intros i Hn E. rewrite H3, H1. destruct (Z.leb_spec f i), (Z.ltb_spec i (f + 2 ^ ord)), (Z.ltb_spec i (num_frames b)); cbn [andb]; try done.
    exfalso. by apply (Hno i).
  - intros a [= <-]. exists f. by rewrite H4.
Qed.

Lemma allocate_keeps b cnt r b' : tables b = true -> 0 <= cnt <= 2 ^ 20 -> allocate b cnt = Ret (r, b') -> allocated b (Z.log2_up cnt) r b'.
Proof.
  intros Ht Hc. unfold allocate. destruct (_ || _); [intros [= <- <-]; by constructor |].
  rewrite order_of_log2_up by lia. autorewrite with nt. pose proof (Z.log2_up_nonneg cnt).
  assert (Hm : Z.min (Z.log2_up cnt) (MAX_BUDDY_ORDER - 1) = Z.log2_up cnt).
  { apply Z.min_l. destruct Hc as [_ Hc]. apply Z.log2_up_le_mono in Hc. rewrite Z.log2_up_pow2 in Hc by lia. exact Hc. }
  rewrite Hm. apply allocate_from_keeps; [done | lia].
Qed.

(** A sequence of requests, with the answers. *)
Fixpoint allocations (pfn_up : bool) (f : Frames) (cnts : list Z) : outcome (list (option Z) * Frames) :=
  match cnts with
  | [] => Ret ([], f)
  | cnt :: cnts =>
      '(r, _, f) ← allocate_pages pfn_up f cnt;
      '(rs, f) ← allocations pfn_up f cnts;
      Ret (r :: rs, f)
  end.

(** Frames that are reserved stay so, and no answer contains one. *)
Lemma allocations_keep pfn_up f cnts rs f' (R : Z -> Prop) : tables (buddy f) = true -> Forall (fun c => 0 <= c <= 2 ^ 20) cnts ->
  (forall i, R i -> i < num_frames (buddy f) /\ flags (frame_infos (buddy f) i) = FRAME_RESERVED) ->
  allocations pfn_up f cnts = Ret (rs, f') ->
  forall k a cnt, rs !! k = Some (Some a) -> cnts !! k = Some cnt ->
    exists fr, a = base_address (buddy f) +[64] fr *[64] 4096 /\ forall i, fr <= i < fr + cnt -> ~ R i.
Proof.
  intros Ht Hc HR. revert f rs Ht HR. induction Hc as [| c cnts Hc _ IH]; intros f rs Ht HR; cbn [allocations]; [by intros [= <- <-] k |].
  unfold allocate_pages. destruct (allocate (buddy f) c) as [[r b'] | |] eqn:Ea; try discriminate.
  destruct (allocate_keeps _ _ _ _ Ht Hc Ea) as [A1 A2 A3 A4 A5]. autorewrite with nt.
  set (f1 := match r with None => _ | Some _ => _ end).
  assert (E1 : exists x y z, f1 = Ret (r, x, mk_frames b' y z)) by (unfold f1; destruct r; by eexists _, _, _).
  destruct E1 as (x & y & z & ->). autorewrite with nt. cbv beta iota.
  destruct (allocations pfn_up (mk_frames b' y z) cnts) as [[rs' f2] | |] eqn:Er; try discriminate. autorewrite with nt.
  intros [= <- <-] [| k] a cnt; cbn [lookup list_lookup].
  - intros [= ->] [= ->]. destruct (A5 a eq_refl) as (fr & -> & Hno). exists fr. split; [done |].
    intros i Hi HRi. destruct (HR i HRi) as [H1 H2]. apply (Hno i); [| done | done].
    destruct (Z.le_gt_cases cnt 1); [rewrite Z.log2_up_eqn0 by lia; lia |]. pose proof (Z.log2_up_spec cnt). lia.
  - intros H1 H2. rewrite <- A3. apply (IH (mk_frames b' y z) rs' ltac:(cbn; congruence)) with (k := k); try done.
    cbn [buddy]. intros i HRi. destruct (HR i HRi). rewrite A2. split; [done | by apply A4].
Qed.



(** ** Four frames *)

Definition four : BuddyAllocator := init buddy_new 0x100000 0x4000 FRAME_TABLE_BYTES.

(** The answers of a sequence of requests: a size allocates, an address and a size release. *)
Fixpoint requests (b : BuddyAllocator) (rs : list (Z + Z * Z)) : outcome (list (option Z)) :=
  match rs with
  | [] => Ret []
  | inl cnt :: rs => '(r, b) ← allocate b cnt; l ← requests b rs; Ret (r :: l)
  | inr (a, cnt) :: rs => b ← free b a cnt; requests b rs
  end.

(** Without any release the same page is the answer to two requests. *)
Example same_page_twice : requests four [inl 1; inl 1] = Ret [Some 0x100000; Some 0x100000].
Proof. by vm_compute. Qed.

(** A release looks only whether the buddy is on some list. Here the upper half of the four frames is
    split, its first frame is free and its second in use; the release of the lower half merges with
    the upper half all the same, and the whole region is handed out although its last frame is in
    use. *)
Example merges_with_used : requests four
    [inl 2; inl 1; inl 1; inl 1; inr (0x102000, 1); inr (0x100000, 2); inl 4] =
  Ret [Some 0x100000; Some 0x100000; Some 0x102000; Some 0x103000; Some 0x100000].
Proof. by vm_compute. Qed.

(** A reserved page takes its whole free block out of use, because a block is taken only if no page
    of it is reserved and is split only after it has been taken: one page of eight is reserved, and
    after the first request nothing is left. *)
Example reserve_starves :
  let f := reserve_range (init_with_range frames_new 0x100000 0x8000) 0x107000 0x1000 in
  match allocations false f [1; 1; 2; 4] with
  | Ret (rs, f) => rs = [Some 0x100000; None; None; None] /\ get_free_physical f = 0x7000
  | _ => False
  end.
Proof. by vm_compute. Qed.

(** A region of a single frame links the frame to itself: once it is reserved the search never
    ends. *)
Example single_frame_hangs :
  let f := reserve_range (init_with_range frames_new 0x100000 0x1000) 0x100000 0x1000 in
  allocate_frame false f = OutOfFuel /\ next (buddy_nodes (buddy f) 0) = 0.
Proof. by vm_compute. Qed.

End Frame.
