(* ===== verification/Pool.v ===== *)
(** * The kernel pool ([mm/pool.rs])

    Tagged allocations over the kernel heap: a 32-byte header before each, written into the memory
    the heap hands out, and per kind of pool a vector of the addresses of released blocks, whose
    sizes are kept in the blocks. The heap and its memory are those of [Heap]. The storage of the
    vectors is not part of the modelled heap, and a write of a [FreeBlock] writes its two fields and
    not the padding behind them, which is what the code relies on to keep the flag of the header. *)

From Stdlib Require Import ZArith Lia.
From S2P Require Import Prelude Heap.

Module Pool.

Local Open Scope Z_scope.

(** ** Data *)

Inductive PoolType :=
  | NonPaged | Paged | NonPagedSession | PagedSession | NonPagedMustSucceed | NonPagedExecute
  | PagedExecute | NonPagedSessionExecute | PagedSessionExecute | NonPagedNxCache | NonPagedNxCacheExecute.

Definition pool_type_u8 (t : PoolType) : Z :=
  match t with
  | NonPaged => 0 | Paged => 1 | NonPagedSession => 2 | PagedSession => 3 | NonPagedMustSucceed => 4
  | NonPagedExecute => 5 | PagedExecute => 6 | NonPagedSessionExecute => 7 | PagedSessionExecute => 8
  | NonPagedNxCache => 9 | NonPagedNxCacheExecute => 10
  end.

Definition is_paged (t : PoolType) : bool :=
  match t with Paged | PagedSession | PagedExecute | PagedSessionExecute => true | _ => false end.

Definition is_executable (t : PoolType) : bool :=
  match t with
  | NonPagedExecute | PagedExecute | NonPagedSessionExecute | PagedSessionExecute | NonPagedNxCacheExecute => true
  | _ => false
  end.

(** The conversion in [free]. *)
Definition pool_type_of (v : Z) : PoolType :=
  match v with
  | 0 => NonPaged | 1 => Paged | 2 => NonPagedSession | 3 => PagedSession | 4 => NonPagedMustSucceed
  | 5 => NonPagedExecute | 6 => PagedExecute | 7 => NonPagedSessionExecute | 8 => PagedSessionExecute
  | 9 => NonPagedNxCache | 10 => NonPagedNxCacheExecute | _ => NonPaged
  end.

Record PoolDescriptor := mk_descriptor {
  total_bytes : Z; total_pages : Z; total_allocs : Z; threshold : Z; coalesce_count : Z }.

Definition descriptor_new : PoolDescriptor := mk_descriptor 0 0 0 0x1000 0.

(** [POOL_STATE] with the vectors for non-paged and paged blocks, the two descriptors and the heap
    below. *)
Record Pool := mk_pool {
  heap : Heap.KernelHeap; pool_state : option (list Z * list Z);
  NON_PAGED_POOL : PoolDescriptor; PAGED_POOL : PoolDescriptor }.

Definition pool_new (h : Heap.KernelHeap) : Pool := mk_pool h None descriptor_new descriptor_new.

Definition set_heap (p : Pool) (h : Heap.KernelHeap) : Pool := mk_pool h (pool_state p) (NON_PAGED_POOL p) (PAGED_POOL p).
Definition set_mem (p : Pool) (m : Heap.memory) : Pool :=
  set_heap p (Heap.set_list (heap p) (Heap.free_list_head (heap p)) m).
Definition mem (p : Pool) : Heap.memory := Heap.mem (heap p).

Definition ensure_pool_state_initialized (p : Pool) : Pool :=
  match pool_state p with
  | Some _ => p
  | None => mk_pool (heap p) (Some ([], [])) (NON_PAGED_POOL p) (PAGED_POOL p)
  end.

Definition freelist (p : Pool) (t : PoolType) : list Z :=
  match pool_state p with None => [] | Some (np, pg) => if is_paged t then pg else np end.

Definition set_freelist (p : Pool) (t : PoolType) (l : list Z) : Pool :=
  match pool_state p with
  | None => p
  | Some (np, pg) => mk_pool (heap p) (Some (if is_paged t then (np, l) else (l, pg))) (NON_PAGED_POOL p) (PAGED_POOL p)
  end.

Definition descriptor (p : Pool) (t : PoolType) : PoolDescriptor := if is_paged t then PAGED_POOL p else NON_PAGED_POOL p.

Definition set_descriptor (p : Pool) (t : PoolType) (d : PoolDescriptor) : Pool :=
  if is_paged t then mk_pool (heap p) (pool_state p) (NON_PAGED_POOL p) d
  else mk_pool (heap p) (pool_state p) d (PAGED_POOL p).

(** ** Headers *)

(** The first word of a header is [previous_size] and [block_size], the second [pool_type], [flags],
    two bytes of padding and [pool_tag], the third the trace index with [reserved]. *)
Definition HEADER_SIZE : Z := 32.
Definition BLOCK_FREED : Z := 1.
Definition BLOCK_VALID : Z := 0.
Definition MIN_FREE_BLOCK_SIZE : Z := 32.
Definition FREE_BLOCK_SIZE : Z := 16.

Definition block_size (m : Heap.memory) (a : Z) : Z := m a / 2 ^ 32 mod 2 ^ 32.
Definition pool_type (m : Heap.memory) (a : Z) : Z := m (a + 8) mod 2 ^ 8.
Definition flags (m : Heap.memory) (a : Z) : Z := m (a + 8) / 2 ^ 8 mod 2 ^ 8.
Definition pool_tag (m : Heap.memory) (a : Z) : Z := m (a + 8) / 2 ^ 32 mod 2 ^ 32.

(** A field of [n] bits at bit [i] of a word. *)
Definition put_field (w i n v : Z) : Z := w / 2 ^ (i + n) * 2 ^ (i + n) + v * 2 ^ i + w mod 2 ^ i.

Definition set_previous_size (m : Heap.memory) (a v : Z) : Heap.memory := Heap.store m a (put_field (m a) 0 32 v).
Definition set_block_size (m : Heap.memory) (a v : Z) : Heap.memory := Heap.store m a (put_field (m a) 32 32 v).
Definition set_pool_type (m : Heap.memory) (a v : Z) : Heap.memory := Heap.store m (a + 8) (put_field (m (a + 8)) 0 8 v).
Definition set_flags (m : Heap.memory) (a v : Z) : Heap.memory := Heap.store m (a + 8) (put_field (m (a + 8)) 8 8 v).
Definition set_pool_tag (m : Heap.memory) (a v : Z) : Heap.memory := Heap.store m (a + 8) (put_field (m (a + 8)) 32 32 v).

Definition is_freed (m : Heap.memory) (a : Z) : bool := negb (Z.land (flags m a) BLOCK_FREED =? 0).
Definition mark_freed (m : Heap.memory) (a : Z) : Heap.memory := set_flags m a (Z.lor (flags m a) BLOCK_FREED).

Definition make_tag (a b c d : Z) : Z := a + b * 2 ^ 8 + c * 2 ^ 16 + d * 2 ^ 24.

(** [write_bytes(a, 0, n)]; every call has whole words. *)
Definition write_zeros (m : Heap.memory) (a n : Z) : Heap.memory := fun w => if (a <=? w) && (w <? a + n) then 0 else m w.

(** [*block = FreeBlock::new(size, t)] *)
Definition write_free_block (m : Heap.memory) (a size : Z) (t : PoolType) : Heap.memory :=
  set_pool_type (Heap.store m a size) a (pool_type_u8 t).

(** ** The vectors of free blocks *)

(** The first entry that is large enough. A remainder of [MIN_FREE_BLOCK_SIZE] and more is a new
    block; [block_ptr.add(size)] counts in units of a [FreeBlock]. *)
Fixpoint freelist_loop (m : Heap.memory) (t : PoolType) (size : Z) (done todo : list Z) : option (Z * list Z * Heap.memory) :=
  match todo with
  | [] => None
  | block :: todo =>
      if block =? 0 then freelist_loop m t size (done ++ [block]) todo
      else if m block <? size then freelist_loop m t size (done ++ [block]) todo
      else
        let remaining_size := m block - size in
        let '(entry, m) :=
          if MIN_FREE_BLOCK_SIZE <=? remaining_size then
            let new_block := block +[64] FREE_BLOCK_SIZE *[64] size in
            (new_block, write_free_block m new_block remaining_size t)
          else (0, m) in
        let m := set_flags (set_pool_type (set_block_size m block (wrap 32 size)) block (pool_type_u8 t)) block BLOCK_VALID in
        let m := write_zeros m (block + HEADER_SIZE) (sat_sub size HEADER_SIZE) in
        Some (block + HEADER_SIZE, done ++ entry :: todo, m)
  end.

Definition allocate_from_freelist (p : Pool) (t : PoolType) (size : Z) : option Z * Pool :=
  let p := ensure_pool_state_initialized p in
  match freelist_loop (mem p) t size [] (freelist p t) with
  | None => (None, p)
  | Some (ptr, l, m) => (Some ptr, set_mem (set_freelist p t l) m)
  end.

Definition bump_coalesce_count (p : Pool) (t : PoolType) : Pool :=
  let d := descriptor p t in
  set_descriptor p t (mk_descriptor (total_bytes d) (total_pages d) (total_allocs d) (threshold d) (coalesce_count d +[64] 1)).

(** The scan ends at a neighbour, which is merged with, or with the place to insert. *)
Fixpoint coalesce_loop (m : Heap.memory) (block total_size : Z) (done todo : list Z) (insert_pos : option nat)
    : (list Z * Heap.memory) + option nat :=
  match todo with
  | [] => inr insert_pos
  | existing :: todo =>
      if existing =? 0 then coalesce_loop m block total_size (done ++ [existing]) todo insert_pos
      else if existing +[64] m existing =? block then
        inl (done ++ existing :: todo, Heap.store m existing (m existing +[64] total_size))
      else if block +[64] total_size =? existing then
        inl (done ++ block :: todo, Heap.store m block (m block +[64] m existing))
      else
        coalesce_loop m block total_size (done ++ [existing]) todo
          (match insert_pos with
           | None => if block <? existing then Some (length done) else None
           | Some _ => insert_pos
           end)
  end.

Definition free_to_freelist (p : Pool) (ptr total_size : Z) (t : PoolType) : Pool :=
  let p := ensure_pool_state_initialized p in
  let m := write_free_block (mem p) ptr total_size t in
  let l := freelist p t in
  match coalesce_loop m ptr total_size [] l None with
  | inl (l, m) => bump_coalesce_count (set_mem (set_freelist p t l) m) t
  | inr None => set_mem (set_freelist p t (l ++ [ptr])) m
  | inr (Some i) => set_mem (set_freelist p t (take i l ++ ptr :: drop i l)) m
  end.

(** ** Allocation *)

Definition add_bytes (d : PoolDescriptor) (n : Z) : PoolDescriptor :=
  mk_descriptor (total_bytes d +[64] n) (total_pages d) (total_allocs d +[64] 1) (threshold d) (coalesce_count d).

Definition pad16 (n : Z) : Z := Z.land (n +[64] 16 -[64] 1) (wnot 64 15).

(** [Layout::from_size_align] *)
Definition layout_from (size align : Z) : option Heap.Layout :=
  if size <=? 2 ^ 63 - align then Some (Heap.mk_layout size align) else None.

(** The header and the zeros of a block that is new from the heap. *)
Definition fresh_block (m : Heap.memory) (ptr padded : Z) (t : PoolType) (tag : Z) : Heap.memory :=
  let m := set_previous_size m ptr 0 in
  let m := set_block_size m ptr (wrap 32 (HEADER_SIZE + padded)) in
  let m := set_pool_type m ptr (pool_type_u8 t) in
  let m := set_flags m ptr BLOCK_VALID in
  let m := set_pool_tag m ptr tag in
  let m := Heap.store m (ptr + 16) 0 in
  write_zeros m (ptr + HEADER_SIZE) padded.

Definition alloc_raw (p : Pool) (total_size : Z) (t : PoolType) (tag : Z) : outcome (Z * Pool) :=
  let padded := pad16 total_size in
  let total_alloc_size := HEADER_SIZE +[64] padded in
  match layout_from total_alloc_size 32 with
  | None => Ret (0, p)
  | Some layout =>
      let '(hit, p) := allocate_from_freelist p t total_alloc_size in
      match hit with
      | Some ptr =>
          let header := ptr - HEADER_SIZE in
          let p := set_mem p (set_pool_tag (set_previous_size (mem p) header 0) header tag) in
          Ret (ptr, set_descriptor p t (add_bytes (descriptor p t) total_size))
      | None =>
          '(ptr, h) ← Heap.alloc (heap p) layout;
          let p := set_heap p h in
          if ptr =? 0 then Ret (0, p)
          else
            let p := set_descriptor p t (add_bytes (descriptor p t) total_alloc_size) in
            Ret (ptr + HEADER_SIZE, set_mem p (fresh_block (mem p) ptr padded t tag))
      end
  end.

Definition allocate (p : Pool) (t : PoolType) (size : Z) : outcome (Z * Pool) :=
  alloc_raw (ensure_pool_state_initialized p) size t 0.

Definition allocate_tagged (p : Pool) (t : PoolType) (size tag : Z) : outcome (Z * Pool) :=
  '(ptr, p) ← alloc_raw p size t tag;
  if ptr =? 0 then Ret (ptr, p) else Ret (ptr, set_mem p (set_pool_tag (mem p) (ptr - HEADER_SIZE) tag)).

(** The real pointer is kept in the word before the aligned one. *)
Definition allocate_aligned (p : Pool) (t : PoolType) (size alignment : Z) : outcome (Z * Pool) :=
  let align := Z.max alignment 16 in
  if size =? 0 then Ret (0, p)
  else
    '(ptr, p) ← alloc_raw p (size +[64] align +[64] 8) t 0;
    if ptr =? 0 then Ret (0, p)
    else
      let aligned := Z.land (ptr +[64] 8 +[64] align -[64] 1) (wnot 64 (align -[64] 1)) in
      Ret (aligned, set_mem p (Heap.store (mem p) (aligned - 8) ptr)).

(** ** Release *)

(** A block that carries the flag already is a bug check. *)
Definition free (p : Pool) (ptr : Z) : outcome Pool :=
  if ptr =? 0 then Ret p
  else
    let header := ptr - HEADER_SIZE in
    if is_freed (mem p) header then Panic
    else
      let p := set_mem p (mark_freed (mem p) header) in
      let total := block_size (mem p) header in
      let t := pool_type_of (pool_type (mem p) header) in
      let p := free_to_freelist p header total t in
      let d := descriptor p t in
      Ret (set_descriptor p t
             (mk_descriptor (sat_sub (total_bytes d) total) (total_pages d) (total_allocs d) (threshold d) (coalesce_count d))).

Definition free_aligned (p : Pool) (ptr : Z) : outcome Pool :=
  if ptr =? 0 then Ret p else free p (mem p (ptr - 8)).

Definition free_with_tag (p : Pool) (ptr tag : Z) : outcome Pool :=
  if negb (ptr =? 0) && negb (pool_tag (mem p) (ptr - HEADER_SIZE) =? tag) then Panic else free p ptr.

Definition get_stats (p : Pool) (t : PoolType) : Z * Z * Z * Z :=
  let d := descriptor p t in (total_bytes d, total_pages d, coalesce_count d, total_allocs d).

(** ** Fields of words *)

Definition get_field (w i n : Z) : Z := w / 2 ^ i mod 2 ^ n.

Lemma get_put_same w i n v : 0 <= i -> 0 <= n -> 0 <= v < 2 ^ n -> get_field (put_field w i n v) i n = v.
Proof.
  intros Hi Hn Hv. unfold get_field, put_field. assert (Hp : 0 < 2 ^ i) by (apply Z.pow_pos_nonneg; lia).
  rewrite Z.pow_add_r by lia. replace (_ + _ + _) with ((w / (2 ^ i * 2 ^ n) * 2 ^ n + v) * 2 ^ i + w mod 2 ^ i) by lia.
  rewrite Z.div_add_l, (Z.div_small (w mod 2 ^ i)), Z.add_0_r by (try apply Z.mod_pos_bound; lia).
  rewrite Z.add_comm, Z.mod_add, Z.mod_small by lia. done.
Qed.

(** A multiple of a higher power does not matter below. *)
Lemma field_below a y i j n : 0 <= j -> 0 <= n -> j + n <= i -> (a * 2 ^ i + y) / 2 ^ j mod 2 ^ n = y / 2 ^ j mod 2 ^ n.
Proof.
  intros Hj Hn Hle. assert (Hp : 0 < 2 ^ j) by (apply Z.pow_pos_nonneg; lia). assert (Hq : 0 < 2 ^ n) by (apply Z.pow_pos_nonneg; lia).
  replace (2 ^ i) with (2 ^ (i - j - n) * 2 ^ n * 2 ^ j) by (rewrite <- !Z.pow_add_r by lia; f_equal; lia).
  rewrite !Z.mul_assoc, Z.div_add_l by lia. rewrite Z.add_comm, Z.mod_add by lia. done.
Qed.

Lemma get_put_low w i n v j k : 0 <= j -> 0 <= k -> 0 <= n -> j + k <= i -> get_field (put_field w i n v) j k = get_field w j k.
Proof.
  intros Hj Hk Hn Hle. unfold get_field, put_field. rewrite Z.pow_add_r by lia.
  replace (_ + _ + _) with ((w / (2 ^ i * 2 ^ n) * 2 ^ n + v) * 2 ^ i + w mod 2 ^ i) by lia.
  rewrite field_below by lia. assert (Hp : 0 < 2 ^ i) by (apply Z.pow_pos_nonneg; lia).
  rewrite (Z.div_mod w (2 ^ i)) at 2 by lia. rewrite (Z.mul_comm (2 ^ i)), field_below by lia. done.
Qed.

Lemma get_put_high w i n v j k : 0 <= i -> 0 <= n -> 0 <= v < 2 ^ n -> i + n <= j -> get_field (put_field w i n v) j k = get_field w j k.
Proof.
  intros Hi Hn Hv Hle. unfold get_field, put_field. f_equal. assert (Hp : 0 < 2 ^ i) by (apply Z.pow_pos_nonneg; lia).
  assert (Hq : 0 < 2 ^ (i + n)) by (apply Z.pow_pos_nonneg; lia). assert (Hr : 0 < 2 ^ (j - (i + n))) by (apply Z.pow_pos_nonneg; lia).
  replace (2 ^ j) with (2 ^ (i + n) * 2 ^ (j - (i + n))) by (rewrite <- Z.pow_add_r by lia; f_equal; lia).
  rewrite <- !Z.div_div by lia. f_equal. rewrite <- Z.add_assoc, Z.div_add_l by lia.
  pose proof (Z.mod_pos_bound w (2 ^ i)). assert (v * 2 ^ i <= (2 ^ n - 1) * 2 ^ i) by (apply Z.mul_le_mono_nonneg_r; lia).
  rewrite (Z.div_small (v * 2 ^ i + _)); [lia |]. rewrite Z.pow_add_r by lia. nia.
Qed.

(** The fields of a header, by their words. *)
Lemma header_fields m a : block_size m a = get_field (m a) 32 32 /\ pool_type m a = get_field (m (a + 8)) 0 8 /\
  flags m a = get_field (m (a + 8)) 8 8 /\ pool_tag m a = get_field (m (a + 8)) 32 32.
Proof. unfold get_field. change (2 ^ 0) with 1. by rewrite Z.div_1_r. Qed.

Lemma pool_type_u8_range t : 0 <= pool_type_u8 t < 2 ^ 8.
Proof. by destruct t. Qed.

Lemma pool_type_of_u8 t : pool_type_of (pool_type_u8 t) = t.
Proof. by destruct t. Qed.

(** ** Releasing twice *)

(** Marking sets the flag whatever the others are. *)
Lemma lor_flag f : 0 <= f < 2 ^ 8 -> 0 <= Z.lor f 1 < 2 ^ 8 /\ Z.land (Z.lor f 1) 1 = 1.
Proof.
  intros Hf. split.
  - split; [apply Z.lor_nonneg; lia |]. apply (u_ty_lor 8); unfold u_ty; lia.
  - apply Z.bits_inj'. intros i Hi. rewrite Z.land_spec, Z.lor_spec. by destruct (Z.testbit f i), (Z.testbit 1 i).
Qed.

Lemma write_free_block_flags m a size t : flags (write_free_block m a size t) a = flags m a.
Proof.
  destruct (header_fields (write_free_block m a size t) a) as (_ & _ & -> & _). destruct (header_fields m a) as (_ & _ & -> & _).
  unfold write_free_block, set_pool_type. rewrite Heap.store_at, Heap.store_ne by lia. apply get_put_high; [lia | lia | apply pool_type_u8_range | lia].
Qed.

(** The scan writes only the first words of blocks. *)
Lemma coalesce_loop_writes m block n dn todo pos l m' : coalesce_loop m block n dn todo pos = inl (l, m') ->
  exists a, (a = block \/ a ∈ todo) /\ forall w, w <> a -> m' w = m w.
Proof.
  revert dn pos. induction todo as [| e todo IH]; intros dn pos; cbn [coalesce_loop]; [done |].
  destruct (e =? 0); [intros H; destruct (IH _ _ H) as (a & Ha & Hw); exists a; split; [set_solver | done] |].
  destruct (_ =? block); [intros [= <- <-]; exists e; split; [set_solver |]; intros w Hw; by rewrite Heap.store_ne |].
  destruct (_ =? e); [intros [= <- <-]; exists block; split; [by left |]; intros w Hw; by rewrite Heap.store_ne |].
  intros H. destruct (IH _ _ H) as (a & Ha & Hw). exists a. split; [set_solver | done].
Qed.

Lemma mem_set_freelist p t l : mem (set_freelist p t l) = mem p.
Proof. unfold set_freelist. by destruct (pool_state p) as [[np pg] |]. Qed.

Lemma mem_set_descriptor p t d : mem (set_descriptor p t d) = mem p.
Proof. unfold set_descriptor. by destruct (is_paged t). Qed.

Lemma mem_ensure p : mem (ensure_pool_state_initialized p) = mem p.
Proof. unfold ensure_pool_state_initialized. by destruct (pool_state p). Qed.

Lemma freelist_ensure p t : freelist (ensure_pool_state_initialized p) t = freelist p t.
Proof. unfold ensure_pool_state_initialized, freelist. destruct (pool_state p) as [[np pg] |] eqn:E; [by rewrite E |]. cbn. by destruct (is_paged t). Qed.

(** The word that holds the flag survives, because no block begins there. *)
Lemma free_to_freelist_word p ptr n t : (16 | ptr) -> Forall (fun e => (16 | e)) (freelist p t) ->
  mem (free_to_freelist p ptr n t) (ptr + 8) = write_free_block (mem p) ptr n t (ptr + 8).
Proof.
  intros Hp Hl. unfold free_to_freelist. rewrite freelist_ensure, mem_ensure.
  destruct (coalesce_loop _ _ _ _ _ _) as [[l m'] | [i |]] eqn:E; [| done | done].
  unfold bump_coalesce_count. rewrite mem_set_descriptor. cbn [set_mem set_heap mem heap Heap.set_list Heap.mem].
  destruct (coalesce_loop_writes _ _ _ _ _ _ _ _ E) as (a & Ha & Hw). apply Hw. intros <-.
  destruct Ha as [Ha | Ha]; [lia |]. rewrite Forall_forall in Hl. destruct (Hl _ Ha) as [x Hx], Hp as [y Hy]. lia.
Qed.


(** ** New blocks *)

Lemma pad16_spec n : 0 <= n < 2 ^ 63 -> n <= pad16 n < n + 16 /\ (16 | pad16 n).
Proof.
  intros Hn. unfold pad16. rewrite (wrap_small 64 (n + 16)), wrap_small by (unfold u_ty; lia).
  assert (Z.land (n + 16 - 1) (wnot 64 15) = (n + 16 - 1) / 16 * 16) as -> by (apply (land_wnot_pow2 _ 4); unfold u_ty; lia).
  split; [| apply Z.divide_factor_r]. pose proof (Z.div_mod (n + 16 - 1) 16). pose proof (Z.mod_pos_bound (n + 16 - 1) 16). lia.
Qed.

Lemma fresh_words m q n t tag : 0 <= n ->
  let m' := fresh_block m q n t tag in
  m' q = put_field (put_field (m q) 0 32 0) 32 32 (wrap 32 (HEADER_SIZE + n)) /\
  m' (q + 8) = put_field (put_field (put_field (m (q + 8)) 0 8 (pool_type_u8 t)) 8 8 0) 32 32 tag /\
  (forall w, q + 32 <= w < q + 32 + n -> m' w = 0) /\ (forall w, ~ (q <= w < q + 32 + n) -> m' w = m w).
Proof.
  intros Hn m'. unfold m', fresh_block, write_zeros, HEADER_SIZE, set_pool_tag, set_flags, set_pool_type, set_block_size, set_previous_size.
  repeat split.
  - rewrite (proj2 (Z.leb_gt _ q)) by lia. cbn [andb]. rewrite (Heap.store_ne _ (q + 16)) by lia. rewrite !(Heap.store_ne _ (q + 8)) by lia.
    by rewrite !Heap.store_at.
  - rewrite (proj2 (Z.leb_gt _ (q + 8))) by lia. cbn [andb]. rewrite (Heap.store_ne _ (q + 16)) by lia. rewrite !Heap.store_at.
    by rewrite !(Heap.store_ne _ q) by lia.
  - intros w Hw. by rewrite (proj2 (Z.leb_le _ w)), (proj2 (Z.ltb_lt w _)) by lia.
  - intros w Hw. destruct (Z.leb_spec (q + 32) w), (Z.ltb_spec w (q + 32 + n)); cbn [andb]; try lia; by rewrite !Heap.store_ne by lia.
Qed.

(** The header as the owner finds it. *)
Definition header_ok (m : Heap.memory) (a size tag : Z) (t : PoolType) : Prop :=
  block_size m a = size /\ pool_type_of (pool_type m a) = t /\ is_freed m a = false /\ pool_tag m a = tag.

Lemma fresh_header m q n t tag : 0 <= n < 2 ^ 31 -> 0 <= tag < 2 ^ 32 ->
  header_ok (set_pool_tag (fresh_block m q n t tag) q tag) q (32 + n) tag t.
Proof.
  intros Hn Ht. destruct (fresh_words m q n t tag ltac:(lia)) as (W0 & W8 & _). set (m' := fresh_block m q n t tag) in *.
  pose proof (pool_type_u8_range t) as Hr.
  assert (H8 : set_pool_tag m' q tag (q + 8) = put_field (m' (q + 8)) 32 32 tag) by apply Heap.store_at.
  assert (H0 : set_pool_tag m' q tag q = m' q) by (apply Heap.store_ne; lia).
  unfold header_ok, is_freed. destruct (header_fields (set_pool_tag m' q tag) q) as (-> & -> & -> & ->). rewrite H8, H0, W0, W8.
  rewrite (wrap_small 32) by (unfold u_ty, HEADER_SIZE; lia). split; [apply get_put_same; unfold HEADER_SIZE; lia |].
  split; [rewrite !get_put_low, get_put_same, pool_type_of_u8 by lia; done |].
  split; [rewrite !(get_put_low _ 32), get_put_same by lia; done | apply get_put_same; lia].
Qed.

Lemma layout_from_ok n : 0 <= n <= 2 ^ 62 -> layout_from n 32 = Some (Heap.mk_layout n 32) /\ Heap.layout_ok (Heap.mk_layout n 32).
Proof.
  intros Hn. unfold layout_from. rewrite (proj2 (Z.leb_le n _)) by lia. split; [done |].
  split; [cbn; lia |]. split; [by exists 5 |]. cbn. lia.
Qed.

(** A tagged allocation that the free list cannot serve is a new block of the heap. It is aligned
    to 32 bytes and zeroed, its header carries the size, the kind and the tag and is not marked, it
    and its header lie inside a heap block of their own, disjoint from all others, and nothing
    outside that block and the heap's free blocks is written; or there is no memory and nothing is
    written at all. *)
Theorem pool_tagged_fresh (p : Pool) (t : PoolType) (size tag : Z) (fl L : list (Z * Z)) :
  Heap.list_inv (heap p) fl L -> Heap.initialized (heap p) = true -> 0 < Heap.hsize (heap p) -> freelist p t = [] ->
  0 <= size < 2 ^ 30 -> 0 <= tag < 2 ^ 32 ->
  exists ptr p', allocate_tagged p t size tag = Ret (ptr, p') /\
    (ptr = 0 /\ mem p' = mem p \/
     exists fl' used, Heap.list_inv (heap p') fl' ((ptr - 48, used) :: L) /\ 48 + size <= used /\ (32 | ptr) /\
       Heap.only_in ((ptr - 48, used) :: fl) (mem p) (mem p') /\ (forall w, ptr <= w < ptr + size -> mem p' w = 0) /\
       header_ok (mem p') (ptr - 32) (32 + pad16 size) tag t).
Proof.
  intros Hi Hin Hsz Hfl Hs Ht. destruct (pad16_spec size ltac:(lia)) as [Hpad _].
  unfold allocate_tagged, alloc_raw. set (n := pad16 size) in *. rewrite (wrap_small 64) by (unfold u_ty, HEADER_SIZE; lia).
  destruct (layout_from_ok (HEADER_SIZE + n)) as [-> Hlo]; [unfold HEADER_SIZE; lia |].
  unfold allocate_from_freelist. rewrite freelist_ensure, Hfl. cbn [freelist_loop]. cbv beta iota zeta.
  set (p0 := ensure_pool_state_initialized p).
  assert (E0 : heap p0 = heap p) by (unfold p0, ensure_pool_state_initialized; by destruct (pool_state p)). rewrite E0.
  destruct (Heap.alloc_run (heap p) fl L _ Hi Hlo Hin Hsz) as (q & h & R & _ & _ & _ & Hq). rewrite R. autorewrite with nt. cbv beta iota.
  destruct Hq as [[Ho _] | (-> & -> & _)]; [| eexists _, _; split; [done |]; left; split; [done |]; unfold mem; done].
  pose proof (Heap.hands_out_nonnull _ _ _ _ _ _ Ho) as Hq0. rewrite (proj2 (Z.eqb_neq _ _) Hq0). autorewrite with nt. cbv beta iota.
  destruct Ho as (fl' & used & Hi' & Hu & Hal & _ & _ & Hm). cbn [Heap.lsize Heap.lalign] in Hu, Hal.
  assert (Hpos : 0 < q) by (pose proof (Heap.li_geometry _ _ _ Hi') as (G & _); apply Heap.list_inv_use in Hi' as (_ & _ & Hb & _); cbn in Hb; lia).
  rewrite (proj2 (Z.eqb_neq (q + HEADER_SIZE) 0)) by (unfold HEADER_SIZE; lia). eexists _, _. split; [done |]. right.
  unfold HEADER_SIZE in *. replace (q + 32 - 48) with (q - 16) by lia. replace (q + 32 - 32) with q by lia.
  set (p1 := set_descriptor _ _ _). assert (E1 : heap p1 = h) by (unfold p1, set_descriptor; by destruct (is_paged t)).
  assert (Em : mem p1 = Heap.mem h) by (unfold mem; by rewrite E1).
  change (mem (set_mem ?x ?y)) with y. rewrite Em. cbn [set_mem set_heap heap]. rewrite E1.
  destruct (fresh_words (Heap.mem h) q n t tag ltac:(lia)) as (_ & _ & Wz & Wo). set (fm := fresh_block (Heap.mem h) q n t tag) in *.
  assert (Hout : forall w, ~ (q <= w < q + 32 + n) -> set_pool_tag fm q tag w = Heap.mem h w).
  { intros w Hw. unfold set_pool_tag. rewrite Heap.store_ne by lia. by apply Wo. }
  exists fl', used. split; [| split; [lia |]; split; [apply Z.divide_add_r; [done | by exists 1] |]; split; [| split]].
  - apply (Heap.list_inv_write h fl' (q - 16, used) L); [done |]. intros w Hw. apply Hout. intros Hin'.
    apply (Hw (q - 16, used)); [set_solver |]. unfold Heap.inside. cbn [fst snd]. lia.
  - apply (Heap.only_in_trans _ _ (Heap.mem h)); [done |]. intros w Hw. apply Hout. intros Hin'.
    apply (Hw (q - 16, used)); [set_solver |]. unfold Heap.inside. cbn [fst snd]. lia.
  - intros w Hw. unfold set_pool_tag. rewrite Heap.store_ne by lia. apply Wz. lia.
  - apply fresh_header; lia.
Qed.

(** A heap of 64 KiB below a new pool. *)
Definition small_pool : Pool := pool_new (Heap.configure (Heap.heap_new (fun _ => 0)) 0x10000 0x10000).

Lemma pool_tagged_fresh_witness :
  Heap.list_inv (heap small_pool) [] [] /\ exists ptr p', allocate_tagged small_pool NonPaged 100 (make_tag 80 114 111 99) = Ret (ptr, p') /\
    (ptr = 0 /\ mem p' = mem small_pool \/
     exists fl' used, Heap.list_inv (heap p') fl' [(ptr - 48, used)] /\ 48 + 100 <= used /\ (32 | ptr) /\
       Heap.only_in [(ptr - 48, used)] (mem small_pool) (mem p') /\ (forall w, ptr <= w < ptr + 100 -> mem p' w = 0) /\
       header_ok (mem p') (ptr - 32) (32 + pad16 100) (make_tag 80 114 111 99) NonPaged).
Proof.
  assert (Hi : Heap.list_inv (heap small_pool) [] []).
  { destruct (Heap.start_inv (fun _ => 0) 0x10000 0x10000) as [(fl & Hh) _ _ _]; try done; [by exists 0x2000 |].
    destruct Hh as [G Hs _ _ _]. constructor; try done. split; intros b; set_solver. }
  split; [exact Hi |]. by apply (pool_tagged_fresh small_pool NonPaged 100 (make_tag 80 114 111 99) [] [] Hi).
Defined.


(** ** Splitting a free block *)

Lemma freelist_set_freelist p t l : pool_state p <> None -> freelist (set_freelist p t l) t = l.
Proof. intros H. unfold set_freelist, freelist. destruct (pool_state p) as [[np pg] |]; [| done]. cbn. by destruct (is_paged t). Qed.

Lemma freelist_set_descriptor p t t' d : freelist (set_descriptor p t d) t' = freelist p t'.
Proof. unfold set_descriptor, freelist. by destruct (is_paged t). Qed.

Lemma pool_state_ensure p : pool_state (ensure_pool_state_initialized p) <> None.
Proof. unfold ensure_pool_state_initialized. destruct (pool_state p) eqn:E; by rewrite ?E. Qed.

Lemma pool_state_set_descriptor p t d : pool_state (set_descriptor p t d) = pool_state p.
Proof. unfold set_descriptor. by destruct (is_paged t). Qed.

Lemma pool_state_set_freelist p t l : pool_state p <> None -> pool_state (set_freelist p t l) <> None.
Proof. intros H. unfold set_freelist. by destruct (pool_state p) as [[np pg] |]. Qed.

Lemma ensure_id p : pool_state p <> None -> ensure_pool_state_initialized p = p.
Proof. intros H. unfold ensure_pool_state_initialized. by destruct (pool_state p). Qed.

(** The only block of a kind, released: its size is in its first word. *)
Lemma free_first p t ptr n tag : ptr <> 0 -> freelist p t = [] -> header_ok (mem p) (ptr - 32) n tag t ->
  exists p', free p ptr = Ret p' /\ freelist p' t = [ptr - 32] /\ mem p' (ptr - 32) = n /\ pool_state p' <> None.
Proof.
  intros H0 Hl (Hs & Ht & Hf & _). unfold free, HEADER_SIZE. rewrite (proj2 (Z.eqb_neq _ _) H0), Hf. set (a := ptr - 32) in *.
  assert (Hb : block_size (mem (set_mem p (mark_freed (mem p) a))) a = n).
  { rewrite <- Hs. unfold block_size. change (mem (set_mem ?x ?y)) with y. unfold mark_freed, set_flags. by rewrite Heap.store_ne by lia. }
  assert (Hp : pool_type_of (pool_type (mem (set_mem p (mark_freed (mem p) a))) a) = t).
  { rewrite <- Ht. change (mem (set_mem ?x ?y)) with y. f_equal.
    destruct (header_fields (mark_freed (mem p) a) a) as (_ & -> & _). destruct (header_fields (mem p) a) as (_ & -> & _).
    unfold mark_freed, set_flags. rewrite Heap.store_at. apply get_put_low; lia. }
  cbv zeta. rewrite Hb, Hp. eexists. split; [done |]. set (p1 := set_mem p _).
  assert (Hf1 : freelist p1 t = []) by done.
  unfold free_to_freelist. rewrite freelist_ensure, Hf1. cbn [coalesce_loop app].
  rewrite freelist_set_descriptor, mem_set_descriptor, pool_state_set_descriptor. set (p2 := ensure_pool_state_initialized p1).
  split; [change (freelist (set_freelist p2 t [a]) t = [a]); apply freelist_set_freelist, pool_state_ensure |].
  split; [| apply pool_state_set_freelist, pool_state_ensure]. cbn [set_mem set_heap mem heap Heap.set_list Heap.mem].
  unfold write_free_block, set_pool_type. rewrite Heap.store_ne by lia. apply Heap.store_at.
Qed.

(** C22: A released block that is split escapes its bounds. The remainder is placed by adding the
    request to a pointer to 16-byte entries: after the release of a block of [n] bytes and a request
    for [s] bytes with its header, the free list holds a block that ends [15 * s] bytes behind the
    end of the released one, in memory that belongs to others. *)
Theorem split_block_escapes (p : Pool) (t : PoolType) (ptr n tag size : Z) :
  let s := HEADER_SIZE + pad16 size in let a := ptr - HEADER_SIZE in
  header_ok (mem p) a n tag t -> freelist p t = [] -> 0 < a -> 0 <= size < 2 ^ 30 -> s + MIN_FREE_BLOCK_SIZE <= n -> a + 16 * s < 2 ^ 64 ->
  exists p1 p2 e, free p ptr = Ret p1 /\ allocate p1 t size = Ret (ptr, p2) /\ freelist p2 t = [e] /\ a + s <= e /\
    e + mem p2 e = a + n + 15 * s.
Proof.
  intros s a Hh Hl Ha Hsz Hfit Hov. unfold HEADER_SIZE, MIN_FREE_BLOCK_SIZE in *. destruct (pad16_spec size ltac:(lia)) as [Hpad _].
  destruct (free_first p t ptr n tag ltac:(lia) Hl Hh) as (p1 & R1 & L1 & M1 & S1). fold a in L1, M1.
  exists p1. set (e := a + 16 * s). assert (Hs : 32 <= s < 2 ^ 31) by lia.
  unfold allocate. rewrite ensure_id by done. unfold alloc_raw, HEADER_SIZE.
  rewrite (wrap_small 64) by (unfold u_ty; lia). fold s. clearbody s.
  destruct (layout_from_ok s) as [-> _]; [lia |]. unfold allocate_from_freelist. rewrite ensure_id, L1 by done.
  cbn [freelist_loop]. unfold MIN_FREE_BLOCK_SIZE, FREE_BLOCK_SIZE, HEADER_SIZE. rewrite M1.
  rewrite (proj2 (Z.eqb_neq a 0)), (proj2 (Z.ltb_ge n s)), (proj2 (Z.leb_le 32 (n - s))) by lia.
  rewrite (wrap_small 64 (16 * s)), (wrap_small 64 (a + 16 * s)) by (unfold u_ty; lia). fold e. cbn [app]. cbv beta iota zeta.
  set (m := write_zeros _ _ _). assert (Hm : m e = n - s).
  { unfold m, write_zeros, sat_sub. rewrite (proj2 (Z.ltb_ge e _)), andb_false_r by lia.
    unfold set_flags, set_pool_type, set_block_size, write_free_block, set_pool_type.
    rewrite !(Heap.store_ne _ (a + 8)), (Heap.store_ne _ a), (Heap.store_ne _ (e + 8)) by lia. apply Heap.store_at. }
  clearbody m. replace (a + 32) with ptr by lia. replace (ptr - 32) with a by lia.
  eexists _, e. split; [done |]. split; [done |]. split; [| split; [lia |]].
  - rewrite freelist_set_descriptor. change (freelist (set_freelist p1 t [e]) t = [e]). by apply freelist_set_freelist.
  - rewrite mem_set_descriptor. change (mem (set_mem ?x ?y)) with y. unfold set_pool_tag, set_previous_size.
    rewrite (Heap.store_ne _ (a + 8)), (Heap.store_ne _ a) by lia. change (mem (set_mem ?x ?y)) with y. rewrite Hm. lia.
Qed.

Lemma split_block_escapes_witness : exists ptr p p1 p2 e,
  allocate_tagged small_pool NonPaged 1024 7 = Ret (ptr, p) /\ free p ptr = Ret p1 /\ allocate p1 NonPaged 32 = Ret (ptr, p2) /\
  freelist p2 NonPaged = [e] /\ ptr - 32 + 64 <= e /\ e + mem p2 e = ptr - 32 + 1056 + 15 * 64.
Proof.
  assert (H : exists ptr p, allocate_tagged small_pool NonPaged 1024 7 = Ret (ptr, p) /\
    ptr = 0x10040 /\ freelist p NonPaged = [] /\ header_ok (mem p) 0x10020 1056 7 NonPaged).
  { eexists _, _. split; [reflexivity |]. split; [by vm_compute |]. split; [done | by vm_compute]. }
  destruct H as (ptr & p & Ha & -> & Hl & Hh). exists 0x10040, p.
  destruct (split_block_escapes p NonPaged 0x10040 1056 7 32 Hh Hl) as (p1 & p2 & e & H1 & H2 & H3 & H4 & H5);
    [done | done | by vm_compute | by vm_compute |].
  change (HEADER_SIZE + pad16 32) with 64 in H4, H5. exists p1, p2, e. exact (conj Ha (conj H1 (conj H2 (conj H3 (conj H4 H5))))).
Defined.

(** Two blocks side by side: the first is released and a part of it asked for again; the next request
    is answered with memory of the second, which is cleared under its owner. *)
Example neighbour_cleared :
  match (
    '(a, p) ← allocate small_pool NonPaged 1024;
    '(b, p) ← allocate p NonPaged 1024;
    let p := set_mem p (Heap.store (mem p) (b + 64) 77) in
    p ← free p a;
    '(c, p) ← allocate p NonPaged 32;
    '(d, p) ← allocate p NonPaged 512;
    Ret (a, b, c, d, mem p (b + 64))) with
  | Ret r => r = (0x10040, 0x10480, 0x10040, 0x10440, 0)
  | _ => False
  end.
Proof. by vm_compute. Qed.

End Pool.
