(* ===== verification/NetNat.v ===== *)
(** * Network address translation

    Models [netstack/nat.rs]: connection tracking in two maps, port allocation, port
    forwarding and expiry. Clock reads are arguments. *)

From S2P Require Import Prelude.

Module NetNat.

Inductive NatState : Type := New | Established | Closing | Closed.

Record NatConnection : Type := mk_conn {
  orig_src_ip : Z; orig_src_port : Z; orig_dst_ip : Z; orig_dst_port : Z;
  nat_src_ip : Z; nat_src_port : Z; protocol : Z;
  state : NatState; last_activity : Z; created_at : Z }.

Definition conn_new (src_ip src_port dst_ip dst_port nat_ip nat_port proto now : Z) : NatConnection :=
  mk_conn src_ip src_port dst_ip dst_port nat_ip nat_port proto New now now.

Definition touch (c : NatConnection) (now : Z) : NatConnection :=
  mk_conn (orig_src_ip c) (orig_src_port c) (orig_dst_ip c) (orig_dst_port c) (nat_src_ip c)
    (nat_src_port c) (protocol c) (state c) now (created_at c).

Definition is_expired (c : NatConnection) (timeout_ms now : Z) : bool :=
  timeout_ms <? sat_sub now (last_activity c).

Record OutboundKey : Type := mk_out {
  src_ip : Z; src_port : Z; dst_ip : Z; dst_port : Z; out_protocol : Z }.

#[export] Instance OutboundKey_eq_dec : EqDecision OutboundKey.
Proof. solve_decision. Defined.

#[export] Instance OutboundKey_countable : Countable OutboundKey :=
  inj_countable' (fun k => (src_ip k, src_port k, dst_ip k, dst_port k, out_protocol k))
    (fun '(a, b, c, d, e) => mk_out a b c d e) ltac:(by intros []).

Record InboundKey : Type := mk_in { in_port : Z; in_protocol : Z }.

#[export] Instance InboundKey_eq_dec : EqDecision InboundKey.
Proof. solve_decision. Defined.

#[export] Instance InboundKey_countable : Countable InboundKey :=
  inj_countable' (fun k => (in_port k, in_protocol k)) (fun '(a, b) => mk_in a b) ltac:(by intros []).

Record PortForwardRule : Type := mk_rule {
  external_port : Z; internal_ip : Z; internal_port : Z; rule_protocol : Z }.

Record NatStats : Type := mk_stats {
  translations : Z; port_forward_hits : Z; expired : Z; errors : Z }.

Record NatStateInternal : Type := mk_state {
  outbound : gmap OutboundKey NatConnection;
  inbound : gmap InboundKey OutboundKey;
  port_forwards : list PortForwardRule;
  next_port : Z }.

Definition state_new : NatStateInternal := mk_state ∅ ∅ [] 49152.

(** The locked statics of the module. *)
Record World : Type := mk_world {
  NAT_STATE : NatStateInternal; NAT_STATS : NatStats; NAT_CONFIG : option Z }.

(** The [loop] of [allocate_port]: the port found, if any, and the new [next_port]. *)
Fixpoint allocate_loop (fuel : nat) (inb : gmap InboundKey OutboundKey) (proto start np : Z)
    : outcome (option Z * Z) :=
  match fuel with
  | O => OutOfFuel
  | S fuel =>
      let port := np in
      let np := if np =? 65535 then 49152 else np +[16] 1 in
      match inb !! mk_in port proto with
      | None => Ret (Some port, np)
      | Some _ => if np =? start then Ret (None, np) else allocate_loop fuel inb proto start np
      end
  end.

(** The size of the dynamic port range bounds the iterations. *)
Definition PORT_RANGE : nat := Z.to_nat 16384.

Definition allocate_port (s : NatStateInternal) (proto : Z) : outcome (option Z * NatStateInternal) :=
  '(r, np) ← allocate_loop PORT_RANGE (inbound s) proto (next_port s) (next_port s);
  Ret (r, mk_state (outbound s) (inbound s) (port_forwards s) np).

Definition TCP_TIMEOUT_MS : Z := 7200000.
Definition UDP_TIMEOUT_MS : Z := 300000.
Definition ICMP_TIMEOUT_MS : Z := 60000.

Definition init (w : World) : World := mk_world state_new (mk_stats 0 0 0 0) (NAT_CONFIG w).
Definition enable (w : World) (public_ip : Z) : World :=
  mk_world (NAT_STATE w) (NAT_STATS w) (Some (Z.max public_ip 1)).
Definition disable (w : World) : World := mk_world (NAT_STATE w) (NAT_STATS w) None.
Definition is_enabled (w : World) : bool := match NAT_CONFIG w with Some _ => true | None => false end.
Definition public_ip (w : World) : option Z := NAT_CONFIG w.

Definition translate_outbound (w : World) (now src_ip src_port dst_ip dst_port proto nat_ip : Z)
    : outcome (option (Z * Z) * World) :=
  let key := mk_out src_ip src_port dst_ip dst_port proto in
  let s := NAT_STATE w in
  match outbound s !! key with
  | Some conn =>
      let s := mk_state (<[key := touch conn now]> (outbound s)) (inbound s) (port_forwards s)
                 (next_port s) in
      Ret (Some (nat_src_ip conn, nat_src_port conn), mk_world s (NAT_STATS w) (NAT_CONFIG w))
  | None =>
      '(r, s) ← allocate_port s proto;
      match r with
      | None => Ret (None, mk_world s (NAT_STATS w) (NAT_CONFIG w))
      | Some nat_port =>
          let conn := conn_new src_ip src_port dst_ip dst_port nat_ip nat_port proto now in
          let inbound_key := mk_in nat_port proto in
          let s := mk_state (<[key := conn]> (outbound s)) (<[inbound_key := key]> (inbound s))
                     (port_forwards s) (next_port s) in
          let st := NAT_STATS w in
          let st := mk_stats (translations st +[64] 1) (port_forward_hits st) (expired st) (errors st) in
          Ret (Some (nat_ip, nat_port), mk_world s st (NAT_CONFIG w))
      end
  end.

(** The tail of [translate_inbound]: the forwarding rules. *)
Definition forward_inbound (w : World) (port proto : Z) : option (Z * Z) * World :=
  match List.find (fun r => (external_port r =? port) && (rule_protocol r =? proto))
          (port_forwards (NAT_STATE w)) with
  | Some r =>
      let st := NAT_STATS w in
      let st := mk_stats (translations st) (port_forward_hits st +[64] 1) (expired st) (errors st) in
      (Some (internal_ip r, internal_port r), mk_world (NAT_STATE w) st (NAT_CONFIG w))
  | None => (None, w)
  end.

Definition translate_inbound (w : World) (now dst_port proto : Z) : option (Z * Z) * World :=
  let s := NAT_STATE w in
  match inbound s !! mk_in dst_port proto with
  | Some outbound_key =>
      match outbound s !! outbound_key with
      | Some conn =>
          let s := mk_state (<[outbound_key := touch conn now]> (outbound s)) (inbound s)
                     (port_forwards s) (next_port s) in
          (Some (orig_src_ip conn, orig_src_port conn), mk_world s (NAT_STATS w) (NAT_CONFIG w))
      | None => forward_inbound w dst_port proto
      end
  | None => forward_inbound w dst_port proto
  end.

Definition set_forwards (w : World) (rules : list PortForwardRule) : World :=
  let s := NAT_STATE w in
  mk_world (mk_state (outbound s) (inbound s) rules (next_port s)) (NAT_STATS w) (NAT_CONFIG w).

Definition add_port_forward (w : World) (ext_port int_ip int_port proto : Z) : bool * World :=
  let rules := port_forwards (NAT_STATE w) in
  if existsb (fun r => (external_port r =? ext_port) && (rule_protocol r =? proto)) rules then (false, w)
  else (true, set_forwards w (rules ++ [mk_rule ext_port int_ip int_port proto])).

Definition remove_port_forward (w : World) (ext_port proto : Z) : bool * World :=
  let before := port_forwards (NAT_STATE w) in
  let rules := List.filter (fun r => negb ((external_port r =? ext_port) && (rule_protocol r =? proto)))
                 before in
  (negb (Nat.eqb (length rules) (length before)), set_forwards w rules).

Definition timeout_of (c : NatConnection) : Z :=
  if protocol c =? 6 then TCP_TIMEOUT_MS
  else if protocol c =? 17 then UDP_TIMEOUT_MS else ICMP_TIMEOUT_MS.

(** One iteration of the removal loop of [cleanup_expired]. *)
Definition expire_one (w : World) (key : OutboundKey) : World :=
  let s := NAT_STATE w in
  match outbound s !! key with
  | None => w
  | Some conn =>
      let st := NAT_STATS w in
      mk_world
        (mk_state (delete key (outbound s)) (delete (mk_in (nat_src_port conn) (protocol conn)) (inbound s))
           (port_forwards s) (next_port s))
        (mk_stats (translations st) (port_forward_hits st) (expired st +[64] 1) (errors st))
        (NAT_CONFIG w)
  end.

(** [clock key] is the time read while the connection of [key] is examined. *)
Definition cleanup_expired (w : World) (clock : OutboundKey -> Z) : World :=
  let expired_keys :=
    fst <$> List.filter (fun p => is_expired p.2 (timeout_of p.2) (clock p.1))
      (map_to_list (outbound (NAT_STATE w))) in
  fold_left expire_one expired_keys w.

Definition get_stats (w : World) : NatStats := NAT_STATS w.
Definition active_connections (w : World) : nat := size (outbound (NAT_STATE w)).
Definition get_port_forwards (w : World) : list PortForwardRule := port_forwards (NAT_STATE w).

(** ** Specification *)

Definition dynamic_port (p : Z) : Prop := 49152 <= p <= 65535.

(** The two maps describe the same connections. *)
Record tracked (s : NatStateInternal) : Prop := mk_tracked {
  tr_out key c : outbound s !! key = Some c ->
    key = mk_out (orig_src_ip c) (orig_src_port c) (orig_dst_ip c) (orig_dst_port c) (protocol c) /\
    dynamic_port (nat_src_port c) /\
    inbound s !! mk_in (nat_src_port c) (protocol c) = Some key;
  tr_in ik key : inbound s !! ik = Some key ->
    exists c, outbound s !! key = Some c /\ ik = mk_in (nat_src_port c) (protocol c);
  tr_next : dynamic_port (next_port s) }.

Inductive op : Type :=
| OInit
| OEnable (ip : Z)
| ODisable
| OOutbound (now src_ip src_port dst_ip dst_port proto nat_ip : Z)
| OInbound (now port proto : Z)
| OForward (ext_port int_ip int_port proto : Z)
| OUnforward (ext_port proto : Z)
| OCleanup (clock : OutboundKey -> Z).

Inductive step : World -> op -> World -> Prop :=
| step_init w : step w OInit (init w)
| step_enable w ip : step w (OEnable ip) (enable w ip)
| step_disable w : step w ODisable (disable w)
| step_outbound w now a b c d p n r w' :
    translate_outbound w now a b c d p n = Ret (r, w') -> step w (OOutbound now a b c d p n) w'
| step_inbound w now port p : step w (OInbound now port p) (translate_inbound w now port p).2
| step_forward w e i j p : step w (OForward e i j p) (add_port_forward w e i j p).2
| step_unforward w e p : step w (OUnforward e p) (remove_port_forward w e p).2
| step_cleanup w clock : step w (OCleanup clock) (cleanup_expired w clock).

(** The value of the statics at boot. *)
Definition boot : World := mk_world state_new (mk_stats 0 0 0 0) None.

Inductive reachable : World -> Prop :=
| reach_boot : reachable boot
| reach_step w o w' : reachable w -> step w o w' -> reachable w'.

Definition sample_world : World :=
  match translate_outbound boot 5 0xC0A80002 1234 0x08080808 53 17 0x01020304 with
  | Ret (_, w) => w | _ => boot end.

(** A forward for port 49152 is configured, then a client opens a connection. *)
Definition shadowed_world : World :=
  match translate_outbound (add_port_forward boot 49152 0xC0A80009 22 6).2 5 0xC0A80002 1234 0x08080808 443 6
          0x01020304 with
  | Ret (_, w) => w | _ => boot end.

(** ** Lemmas *)

(** Ports from [np] up to [start], going round the dynamic range. *)
Definition distance (np start : Z) : Z := if np <? start then start - np else start - np + 16384.

Lemma allocate_loop_spec fuel inb proto start np :
  dynamic_port start -> dynamic_port np -> distance np start <= Z.of_nat fuel ->
  exists r np', allocate_loop fuel inb proto start np = Ret (r, np') /\ dynamic_port np' /\
    match r with
    | Some port => dynamic_port port /\ inb !! mk_in port proto = None
    | None => forall p, dynamic_port p -> distance p start <= distance np start ->
        is_Some (inb !! mk_in p proto)
    end.
Proof.
  intros Hs. revert np. induction fuel as [| fuel IH]; intros np Hnp Hd.
  { unfold distance, dynamic_port in *. destruct (Z.ltb_spec np start); lia. }
  cbn [allocate_loop]. set (np' := if np =? 65535 then 49152 else np +[16] 1).
  assert (np' = if np =? 65535 then 49152 else np + 1) as Enp.
  { unfold np'. destruct (Z.eqb_spec np 65535); [done |]. apply wrap_small.
    unfold dynamic_port, u_ty in *. lia. }
  assert (dynamic_port np') as Hnp' by (rewrite Enp; unfold dynamic_port in *; destruct (Z.eqb_spec np 65535); lia).
  destruct (inb !! mk_in np proto) as [k |] eqn:Ei; [| by eexists _, _].
  assert (forall p, dynamic_port p -> distance p start <= distance np start ->
    p = np \/ (np' <> start /\ distance p start <= distance np' start)) as Hnext.
  { intros p Hp. rewrite Enp. unfold distance, dynamic_port in *.
    destruct (Z.eqb_spec np 65535), (Z.ltb_spec p start), (Z.ltb_spec np start);
      try (destruct (Z.ltb_spec 49152 start)); try (destruct (Z.ltb_spec (np + 1) start)); lia. }
  destruct (Z.eqb_spec np' start) as [E | Hne].
  - eexists _, _. split; [reflexivity |]. split; [done |]. intros p Hp Hdp.
    destruct (Hnext p Hp Hdp) as [-> | [? _]]; [by rewrite Ei | done].
  - destruct (IH np' Hnp') as (r & np2 & E & Hd2 & Hr).
    { unfold distance, dynamic_port in *. rewrite Enp in *.
      destruct (Z.eqb_spec np 65535), (Z.ltb_spec np start);
        try (destruct (Z.ltb_spec 49152 start)); try (destruct (Z.ltb_spec (np + 1) start)); lia. }
    exists r, np2. split; [done |]. split; [done |]. destruct r as [port |]; [done |].
    intros p Hp Hdp. destruct (Hnext p Hp Hdp) as [-> | [_ Hdp']]; [by rewrite Ei | by apply Hr].
Qed.

(** Port allocation ends within one round of the dynamic range. *)
Lemma allocate_port_spec s proto :
  dynamic_port (next_port s) ->
  exists r np, allocate_port s proto = Ret (r, mk_state (outbound s) (inbound s) (port_forwards s) np) /\
    dynamic_port np /\
    match r with
    | Some port => dynamic_port port /\ inbound s !! mk_in port proto = None
    | None => forall p, dynamic_port p -> is_Some (inbound s !! mk_in p proto)
    end.
Proof.
  intros Hnp. unfold allocate_port.
  destruct (allocate_loop_spec PORT_RANGE (inbound s) proto (next_port s) (next_port s) Hnp Hnp)
    as (r & np & -> & Hd & Hr).
  { unfold distance, PORT_RANGE. rewrite Z.ltb_irrefl, Z2Nat.id by lia. lia. }
  rewrite outcome_bind_ret. exists r, np. split_and!; try done. destruct r; [done |].
  intros p Hp. apply Hr; [done |]. unfold distance, dynamic_port in *. rewrite Z.ltb_irrefl.
  destruct (Z.ltb_spec p (next_port s)); lia.
Qed.

(** Touching a connection keeps the maps in step. *)
Lemma tracked_touch s key c now :
  tracked s -> outbound s !! key = Some c ->
  tracked (mk_state (<[key := touch c now]> (outbound s)) (inbound s) (port_forwards s) (next_port s)).
Proof.
  intros [Ho Hi Hn] Hc. split; cbn [outbound inbound next_port]; [| | done].
  - intros k c' [[<- <-] | [_ Hc']]%lookup_insert_Some; [apply (Ho key c Hc) | by apply Ho].
  - intros ik k Hik. destruct (Hi ik k Hik) as (c' & Hc' & ->).
    destruct (decide (key = k)) as [<- | Hne].
    + rewrite Hc in Hc'. injection Hc' as <-. exists (touch c now). by rewrite lookup_insert_eq.
    + exists c'. by rewrite lookup_insert_ne.
Qed.

Lemma tracked_frame s rules np :
  tracked s -> dynamic_port np -> tracked (mk_state (outbound s) (inbound s) rules np).
Proof. intros [Ho Hi Hn] Hnp. by split. Qed.

(** A new connection under a free port. *)
Lemma tracked_add s key nat_ip port now rules np :
  tracked s -> outbound s !! key = None -> dynamic_port port -> dynamic_port np ->
  inbound s !! mk_in port (out_protocol key) = None ->
  let c := conn_new (src_ip key) (src_port key) (dst_ip key) (dst_port key) nat_ip port (out_protocol key) now in
  tracked (mk_state (<[key := c]> (outbound s)) (<[mk_in port (out_protocol key) := key]> (inbound s)) rules np).
Proof.
  intros [Ho Hi Hn] Hnone Hport Hnp Hfree. cbv zeta. split; cbn [outbound inbound next_port]; [| | done].
  - intros k c' [[<- <-] | [Hne Hc']]%lookup_insert_Some.
    + cbn. rewrite lookup_insert_eq. by destruct key.
    + destruct (Ho k c' Hc') as (? & ? & Hik). split_and!; [done | done |].
      rewrite lookup_insert_ne; [done |]. intros E. rewrite <- E in Hik. congruence.
  - intros ik k [[<- <-] | [Hne Hik]]%lookup_insert_Some.
    + eexists. rewrite lookup_insert_eq. by split.
    + destruct (Hi ik k Hik) as (c' & Hc' & ->). exists c'. rewrite lookup_insert_ne; [done |]. congruence.
Qed.

Lemma expire_one_tracked w key : tracked (NAT_STATE w) -> tracked (NAT_STATE (expire_one w key)).
Proof.
  intros [Ho Hi Hn]. unfold expire_one. destruct (outbound (NAT_STATE w) !! key) as [c |] eqn:Hc; [| by split].
  destruct (Ho key c Hc) as (_ & _ & Hck).
  split; cbn [NAT_STATE outbound inbound next_port]; [| | done].
  - intros k c' [Hne Hc']%lookup_delete_Some. destruct (Ho k c' Hc') as (? & ? & Hik).
    split_and!; [done | done |]. rewrite lookup_delete_ne; [done |]. intros E. rewrite E in Hck. congruence.
  - intros ik k [Hne Hik]%lookup_delete_Some. destruct (Hi ik k Hik) as (c' & Hc' & ->). exists c'.
    rewrite lookup_delete_ne; [done |]. intros <-. rewrite Hc in Hc'. by injection Hc' as <-.
Qed.

(** Every outcome of an outbound translation. *)
Lemma outbound_result w now a b c d proto nat_ip :
  tracked (NAT_STATE w) ->
  let key := mk_out a b c d proto in
  exists r w', translate_outbound w now a b c d proto nat_ip = Ret (r, w') /\ tracked (NAT_STATE w') /\
    match outbound (NAT_STATE w) !! key, r with
    | Some conn, Some (ip, port) => ip = nat_src_ip conn /\ port = nat_src_port conn /\
        inbound (NAT_STATE w') = inbound (NAT_STATE w) /\
        outbound (NAT_STATE w') = <[key := touch conn now]> (outbound (NAT_STATE w))
    | None, Some (ip, port) => ip = nat_ip /\ inbound (NAT_STATE w) !! mk_in port proto = None /\
        outbound (NAT_STATE w') =
          <[key := conn_new a b c d nat_ip port proto now]> (outbound (NAT_STATE w)) /\
        inbound (NAT_STATE w') = <[mk_in port proto := key]> (inbound (NAT_STATE w))
    | None, None => forall p, dynamic_port p -> is_Some (inbound (NAT_STATE w) !! mk_in p proto)
    | Some _, None => False
    end.
Proof.
  intros Ht. cbv zeta. set (key := mk_out a b c d proto). unfold translate_outbound. fold key.
  destruct (outbound (NAT_STATE w) !! key) as [conn |] eqn:Hc.
  - eexists _, _. split; [reflexivity |]. split; [by apply tracked_touch |]. done.
  - destruct (allocate_port_spec (NAT_STATE w) proto (tr_next _ Ht)) as (r & np & -> & Hnp & Hr).
    rewrite outcome_bind_ret. destruct r as [port |].
    + eexists _, _. split; [reflexivity |]. split; [| by destruct Hr].
      apply (tracked_add (NAT_STATE w) key nat_ip port now); (done || by destruct Hr).
    + eexists _, _. split; [reflexivity |]. split; [by apply tracked_frame | done].
Qed.

Lemma inbound_tracked w now port proto :
  tracked (NAT_STATE w) -> tracked (NAT_STATE (translate_inbound w now port proto).2).
Proof.
  intros Ht. unfold translate_inbound, forward_inbound.
  destruct (inbound _ !! _) as [key |]; [destruct (outbound _ !! key) as [c |] eqn:Hc |];
    [by apply tracked_touch | |]; by destruct (List.find _ _).
Qed.

Lemma step_tracked w o w' : step w o w' -> tracked (NAT_STATE w) -> tracked (NAT_STATE w').
Proof.
  intros Hs Ht. destruct Hs as [w | w ip | w | w now a b c d p n r w' E | w now port p | w e i j p | w e p | w clock].
  - split; cbn; [intros ? ?; by rewrite lookup_empty | intros ? ?; by rewrite lookup_empty |].
    unfold dynamic_port. lia.
  - done.
  - done.
  - destruct (outbound_result w now a b c d p n Ht) as (r' & w2 & E' & Ht' & _). congruence.
  - by apply inbound_tracked.
  - unfold add_port_forward. destruct (existsb _ _); [done |]. apply tracked_frame; [done | apply Ht].
  - apply tracked_frame; [done | apply Ht].
  - unfold cleanup_expired. set (ks := fst <$> _). clearbody ks. revert w Ht.
    induction ks as [| k ks IH]; intros w Ht; [done |]. cbn [fold_left].
    by apply IH, expire_one_tracked.
Qed.

Lemma reachable_tracked w : reachable w -> tracked (NAT_STATE w).
Proof.
  induction 1 as [| w o w' _ IH Hs]; [| by eapply step_tracked].
  split; cbn; [intros ? ?; by rewrite lookup_empty | intros ? ?; by rewrite lookup_empty |].
  unfold dynamic_port. lia.
Qed.

Lemma sample_world_reachable : reachable sample_world.
Proof.
  unfold sample_world.
  destruct (translate_outbound boot 5 0xC0A80002 1234 0x08080808 53 17 0x01020304) as [[r w] | |] eqn:E;
    [| apply reach_boot ..].
  eapply reach_step; [apply reach_boot | by eapply step_outbound].
Qed.

(** ** Properties *)

(** C15: in every reachable state the two connection maps describe the same connections:
    each tracked connection has a dynamic port under which the inbound map leads back to
    it, each inbound entry leads to a connection with that port, and so two connections
    of one protocol never share a port. *)
Theorem nat_maps_inverse (w : World) (Hw : reachable w) :
  (forall key c, outbound (NAT_STATE w) !! key = Some c ->
     dynamic_port (nat_src_port c) /\
     inbound (NAT_STATE w) !! mk_in (nat_src_port c) (protocol c) = Some key) /\
  (forall ik key, inbound (NAT_STATE w) !! ik = Some key ->
     exists c, outbound (NAT_STATE w) !! key = Some c /\ ik = mk_in (nat_src_port c) (protocol c)) /\
  (forall k1 c1 k2 c2, outbound (NAT_STATE w) !! k1 = Some c1 -> outbound (NAT_STATE w) !! k2 = Some c2 ->
     nat_src_port c1 = nat_src_port c2 -> protocol c1 = protocol c2 -> k1 = k2).
Proof.
  pose proof (reachable_tracked w Hw) as Ht. split_and!.
  - intros key c Hc. by destruct (tr_out _ Ht key c Hc) as (_ & ? & ?).
  - intros ik key Hik. by apply tr_in.
  - intros k1 c1 k2 c2 H1 H2 Ep Epr.
    destruct (tr_out _ Ht k1 c1 H1) as (_ & _ & E1). destruct (tr_out _ Ht k2 c2 H2) as (_ & _ & E2).
    rewrite Ep, Epr, E2 in E1. by injection E1.
Qed.

Lemma nat_maps_inverse_witness : exists c,
  outbound (NAT_STATE sample_world) !! mk_out 0xC0A80002 1234 0x08080808 53 17 = Some c /\
  mk_in 49152 17 = mk_in (nat_src_port c) (protocol c).
Proof.
  destruct (nat_maps_inverse sample_world sample_world_reachable) as (_ & H & _).
  apply H. vm_compute. reflexivity.
Defined.

(** An outbound translation always ends, within one round of the port range. If it
    gives an address and port, a reply to that port is translated back to the sender, and
    translating the same flow again gives the same answer; it gives none only when
    every dynamic port of the protocol is taken. *)
Theorem nat_roundtrip (w : World) (now now' a b c d proto nat_ip : Z) (Hw : reachable w) :
  exists r w', translate_outbound w now a b c d proto nat_ip = Ret (r, w') /\
    match r with
    | Some (ip, port) =>
        (translate_inbound w' now' port proto).1 = Some (a, b) /\
        exists w2, translate_outbound w' now' a b c d proto nat_ip = Ret (Some (ip, port), w2)
    | None => forall p, dynamic_port p -> is_Some (inbound (NAT_STATE w) !! mk_in p proto)
    end.
Proof.
  pose proof (reachable_tracked w Hw) as Ht.
  destruct (outbound_result w now a b c d proto nat_ip Ht) as (r & w' & E & Ht' & Hr). cbv zeta in Hr.
  exists r, w'. split; [done |]. set (key := mk_out a b c d proto) in *.
  destruct (outbound (NAT_STATE w) !! key) as [conn |] eqn:Hc, r as [[ip port] |]; try done.
  - destruct Hr as (-> & -> & Ein & Eout). destruct (tr_out _ Ht key conn Hc) as (Ek & _ & Eik).
    unfold key in Ek. injection Ek as Ea Eb _ _ Ep.
    unfold translate_inbound, translate_outbound. fold key. rewrite Ein, Eout, lookup_insert_eq, Ep, Eik.
    rewrite lookup_insert_eq. cbn. rewrite <- Ea, <- Eb. split; [done |]. by eexists.
  - destruct Hr as (-> & _ & Eout & Ein).
    unfold translate_inbound, translate_outbound. fold key. rewrite Ein, Eout, !lookup_insert_eq.
    cbn. split; [done |]. by eexists.
Qed.

Lemma nat_roundtrip_witness : exists r w',
  translate_outbound sample_world 9 0xC0A80003 80 0x08080808 443 6 0x01020304 = Ret (r, w').
Proof.
  destruct (nat_roundtrip sample_world 9 10 0xC0A80003 80 0x08080808 443 6 0x01020304 sample_world_reachable)
    as (r & w' & H & _). by exists r, w'.
Defined.

(** Port allocation does not look at the forwarding rules: a connection can be given
    the external port of a configured forward, and from then on traffic to that port
    reaches the connection's host instead of the forward's. *)
Theorem forwarded_port_shadowed :
  reachable shadowed_world /\
  In (mk_rule 49152 0xC0A80009 22 6) (get_port_forwards shadowed_world) /\
  (translate_inbound shadowed_world 9 49152 6).1 = Some (0xC0A80002, 1234).
Proof.
  split_and!; [| vm_compute; by left | vm_compute; reflexivity].
  unfold shadowed_world.
  destruct (translate_outbound _ _ _ _ _ _ _ _) as [[r w] | |] eqn:E; [| apply reach_boot ..].
  eapply reach_step; [| by eapply step_outbound].
  eapply reach_step; [apply reach_boot | apply step_forward].
Qed.

End NetNat.
