(* ===== verification/Wfp.v ===== *)
(** * The packet filter

    Models [netstack/wfp.rs]: the filter engine, kept sorted by weight, the packet decision
    and the rule helpers. *)

From S2P Require Import Prelude.

Module Wfp.

Inductive FilterLayer : Type :=
| InboundIpv4 | OutboundIpv4 | InboundTransport | OutboundTransport | Stream | AleConnect | AleReceive.

#[export] Instance FilterLayer_eq_dec : EqDecision FilterLayer.
Proof. solve_decision. Defined.

Inductive FilterAction : Type := Permit | Block | Reject | Continue.

#[export] Instance FilterAction_eq_dec : EqDecision FilterAction.
Proof. solve_decision. Defined.

Inductive FilterDirection : Type := Inbound | Outbound | Both.

Inductive FilterCondition : Type :=
| SourceIp (ip mask : Z)
| DestIp (ip mask : Z)
| SourcePort (port : Z)
| DestPort (port : Z)
| Protocol (proto : Z)
| Interface (iface : Z).

Record Filter : Type := mk {
  id : Z; name : list Z; layer : FilterLayer; weight : Z; action : FilterAction;
  conditions : list FilterCondition; enabled : bool }.

Definition filter_new (id_ : Z) (layer_ : FilterLayer) (weight_ : Z) (action_ : FilterAction) : Filter :=
  mk id_ (replicate 64 0) layer_ weight_ action_ [] true.

Definition add_condition (f : Filter) (c : FilterCondition) : Filter :=
  mk (id f) (name f) (layer f) (weight f) (action f) (conditions f ++ [c]) (enabled f).

(** The arguments of a packet decision. *)
Record packet : Type := mk_packet {
  src_ip : Z; dst_ip : Z; src_port : Z; dst_port : Z; protocol : Z; interface : Z }.

Definition condition_holds (p : packet) (c : FilterCondition) : bool :=
  match c with
  | SourceIp ip mask => Z.land (src_ip p) mask =? Z.land ip mask
  | DestIp ip mask => Z.land (dst_ip p) mask =? Z.land ip mask
  | SourcePort port => src_port p =? port
  | DestPort port => dst_port p =? port
  | Protocol proto => protocol p =? proto
  | Interface iface => interface p =? iface
  end.

Fixpoint conditions_loop (cs : list FilterCondition) (p : packet) : bool :=
  match cs with
  | [] => true
  | c :: cs => if negb (condition_holds p c) then false else conditions_loop cs p
  end.

Definition matches (f : Filter) (p : packet) : bool :=
  if negb (enabled f) then false else conditions_loop (conditions f) p.

Record FilterEngine : Type := mk_engine { filters : list Filter; next_id : Z }.

Definition engine_new : FilterEngine := mk_engine [] 1.

(** [sort_by_key(Reverse(weight))]: not [Greater]. *)
Definition weight_ge (a b : Filter) : bool := weight b <=? weight a.

Definition engine_add_filter (e : FilterEngine) (f : Filter) : Z * FilterEngine :=
  let f := mk (next_id e) (name f) (layer f) (weight f) (action f) (conditions f) (enabled f) in
  (id f, mk_engine (sort_by weight_ge (filters e ++ [f])) (next_id e +[64] 1)).

Definition engine_remove_filter (e : FilterEngine) (i : Z) : bool * FilterEngine :=
  let fs := List.filter (fun f => negb (id f =? i)) (filters e) in
  (negb (Nat.eqb (length fs) (length (filters e))), mk_engine fs (next_id e)).

Definition get_filters_for_layer (e : FilterEngine) (l : FilterLayer) : list Filter :=
  List.filter (fun f => bool_decide (layer f = l)) (filters e).

Record FilterStats : Type := mk_stats {
  packets_inspected : Z; packets_allowed : Z; packets_blocked : Z; packets_rejected : Z }.

Record World : Type := mk_world { FILTER_ENGINE : FilterEngine; FILTER_STATS : FilterStats }.

Definition add_filter (w : World) (f : Filter) : Z * World :=
  let '(i, e) := engine_add_filter (FILTER_ENGINE w) f in (i, mk_world e (FILTER_STATS w)).

Definition remove_filter (w : World) (i : Z) : bool * World :=
  let '(r, e) := engine_remove_filter (FILTER_ENGINE w) i in (r, mk_world e (FILTER_STATS w)).

Definition init (w : World) : World :=
  let w := mk_world engine_new (mk_stats 0 0 0 0) in
  (add_filter w (filter_new 0 InboundIpv4 0 Permit)).2.

(** The loop of [filter_packet]; falling out of it permits. *)
Fixpoint decide_loop (fs : list Filter) (p : packet) : FilterAction :=
  match fs with
  | [] => Permit
  | f :: fs =>
      if matches f p then
        match action f with
        | Permit => Permit | Block => Block | Reject => Reject
        | Continue => decide_loop fs p
        end
      else decide_loop fs p
  end.

Definition count_action (s : FilterStats) (a : FilterAction) : FilterStats :=
  match a with
  | Permit | Continue => mk_stats (packets_inspected s +[64] 1) (packets_allowed s +[64] 1)
      (packets_blocked s) (packets_rejected s)
  | Block => mk_stats (packets_inspected s +[64] 1) (packets_allowed s) (packets_blocked s +[64] 1)
      (packets_rejected s)
  | Reject => mk_stats (packets_inspected s +[64] 1) (packets_allowed s) (packets_blocked s)
      (packets_rejected s +[64] 1)
  end.

Definition filter_packet (w : World) (l : FilterLayer) (p : packet) : FilterAction * World :=
  let a := decide_loop (get_filters_for_layer (FILTER_ENGINE w) l) p in
  (a, mk_world (FILTER_ENGINE w) (count_action (FILTER_STATS w) a)).

Definition check_connection (w : World) (p : packet) (d : FilterDirection) : bool * World :=
  let l := match d with Outbound => AleConnect | Inbound => AleReceive | Both => AleConnect end in
  let '(a, w) := filter_packet w l (mk_packet (src_ip p) (dst_ip p) (src_port p) (dst_port p) (protocol p) 0) in
  (match a with Permit | Continue => true | _ => false end, w).

Definition set_enabled (f : Filter) (b : bool) : Filter :=
  mk (id f) (name f) (layer f) (weight f) (action f) (conditions f) b.

Definition set_filter_enabled (w : World) (i : Z) (b : bool) : bool * World :=
  let fs := filters (FILTER_ENGINE w) in
  match position (fun f => id f =? i) fs with
  | Some k => (true, mk_world (mk_engine (alter (fun f => set_enabled f b) k fs)
                       (next_id (FILTER_ENGINE w))) (FILTER_STATS w))
  | None => (false, w)
  end.

(** The conditions the rule helpers push, in order. *)
Definition rule_conditions (src dst : option (Z * Z)) (port proto : option Z) : list FilterCondition :=
  match src with Some (ip, mask) => [SourceIp ip mask] | None => [] end
  ++ match dst with Some (ip, mask) => [DestIp ip mask] | None => [] end
  ++ match port with Some p => [DestPort p] | None => [] end
  ++ match proto with Some p => [Protocol p] | None => [] end.

Definition add_block_rule (w : World) (l : FilterLayer) (src dst : option (Z * Z)) (port proto : option Z)
    : Z * World :=
  add_filter w (fold_left add_condition (rule_conditions src dst port proto) (filter_new 0 l 1000 Block)).

Definition add_allow_rule (w : World) (l : FilterLayer) (src dst : option (Z * Z)) (port proto : option Z)
    : Z * World :=
  add_filter w (fold_left add_condition (rule_conditions src dst port proto) (filter_new 0 l 500 Permit)).

(** ** Specification *)

Inductive op : Type :=
| OInit
| OAdd (f : Filter)
| ORemove (i : Z)
| OEnable (i : Z) (b : bool)
| OPacket (l : FilterLayer) (p : packet).

Definition exec (w : World) (o : op) : World :=
  match o with
  | OInit => init w
  | OAdd f => (add_filter w f).2
  | ORemove i => (remove_filter w i).2
  | OEnable i b => (set_filter_enabled w i b).2
  | OPacket l p => (filter_packet w l p).2
  end.

Definition boot : World := mk_world engine_new (mk_stats 0 0 0 0).
Definition run (ops : list op) : World := fold_left exec ops boot.

(** [a] is asked before [b]: larger weight, or the same weight and an older filter. *)
Definition before (a b : Filter) : Prop := weight b < weight a \/ (weight a = weight b /\ id a < id b).

(** A filter that decides the packet. *)
Definition decides (f : Filter) (l : FilterLayer) (p : packet) : Prop :=
  layer f = l /\ matches f p = true /\ action f <> Continue.

Definition engine_ok (n : Z) (e : FilterEngine) : Prop :=
  StronglySorted before (filters e) /\ Forall (fun f => id f < next_id e) (filters e) /\
  1 <= next_id e <= 1 + n.

Definition sample_ops : list op :=
  [OInit; OAdd (add_condition (filter_new 0 InboundIpv4 1000 Block) (DestPort 23));
   OAdd (add_condition (filter_new 0 InboundIpv4 500 Permit) (Protocol 6))].

(** ** Lemmas *)

Lemma before_trans a b c : before a b -> before b c -> before a c.
Proof. unfold before. lia. Qed.

Lemma add_sorted fs f :
  StronglySorted before fs -> Forall (fun g => id g < id f) fs ->
  StronglySorted before (sort_by weight_ge (fs ++ [f])).
Proof.
  intros Hs Hid. unfold sort_by. induction Hs as [| g fs Hs IH Hall]; cbn [app foldr].
  { by repeat constructor. }
  rewrite Forall_cons in Hid. destruct Hid as [Hg Hid]. specialize (IH Hid).
  apply sort_insert_refines; [apply before_trans | | done].
  fold (sort_by weight_ge (fs ++ [f])). intros y Hy. rewrite sort_by_perm in Hy.
  rewrite Forall_forall in Hall. unfold weight_ge.
  apply elem_of_app in Hy as [Hy | ->%list_elem_of_singleton].
  - specialize (Hall y Hy). unfold before in *. destruct (Z.leb_spec (weight y) (weight g)); lia.
  - unfold before. destruct (Z.leb_spec (weight f) (weight g)); lia.
Qed.

Lemma sorted_sublist {A} (R : A -> A -> Prop) l k :
  k `sublist_of` l -> StronglySorted R l -> StronglySorted R k.
Proof.
  induction 1 as [| x k l Hs IH | x k l Hs IH]; intros H; inversion H as [| ? ? H1 H2]; subst; auto.
  constructor; [auto |]. rewrite Forall_forall in H2 |- *. intros y Hy. apply H2. by eapply elem_of_sublist.
Qed.

(** Enabling a filter changes neither weights nor ids, hence no order. *)
Lemma alter_sorted k b fs :
  StronglySorted before fs -> StronglySorted before (alter (fun f => set_enabled f b) k fs).
Proof.
  intros Hs. revert k. induction Hs as [| f fs Hs IH Hall]; intros [| k]; cbn; try by constructor.
  constructor; [apply IH |]. rewrite Forall_lookup in Hall |- *. intros i x Hx.
  destruct (decide (i = k)) as [-> | Hne].
  - rewrite list_lookup_alter_eq in Hx. destruct (fs !! k) as [y |] eqn:Hy; [| done].
    cbn in Hx. injection Hx as <-. apply (Hall k y Hy).
  - rewrite list_lookup_alter_ne in Hx by done. by apply (Hall i).
Qed.

Lemma engine_add_ok n e f : 0 <= n -> n + 2 < 2 ^ 64 -> engine_ok n e -> engine_ok (n + 1) (engine_add_filter e f).2.
Proof.
  intros Hn Hb (Hs & Hid & Hk). unfold engine_add_filter, engine_ok. cbn [snd filters next_id].
  rewrite wrap_small by (unfold u_ty; lia). split_and!; [by apply add_sorted | | lia | lia].
  rewrite sort_by_perm, Forall_app, Forall_singleton. split; [| cbn; lia].
  eapply Forall_impl; [exact Hid |]. cbn. intros; lia.
Qed.

Lemma engine_exec_ok n w o :
  0 <= n -> n + 2 < 2 ^ 64 -> engine_ok n (FILTER_ENGINE w) -> engine_ok (n + 1) (FILTER_ENGINE (exec w o)).
Proof.
  intros Hn Hb Hok. destruct Hok as (Hs & Hid & Hk).
  destruct o as [| f | i | i b | l p]; cbn [exec].
  - apply (engine_add_ok n engine_new); [done | done |]. split_and!; [constructor | constructor | cbn; lia | cbn; lia].
  - by apply (engine_add_ok n (FILTER_ENGINE w)).
  - unfold remove_filter, engine_remove_filter. cbn [snd FILTER_ENGINE].
    split_and!; [| | cbn; lia | cbn; lia].
    + eapply sorted_sublist; [apply filter_sublist | done].
    + cbn [filters next_id]. rewrite Forall_forall in Hid |- *. intros f [Hf _]%filter_elem. by apply Hid.
  - unfold set_filter_enabled. destruct (position _ _) as [k |]; cbn [snd FILTER_ENGINE];
      [| split_and!; (done || lia)].
    split_and!; [by apply alter_sorted | | cbn; lia | cbn; lia]. cbn [filters next_id].
    rewrite Forall_lookup in Hid |- *. intros j x Hx. destruct (decide (j = k)) as [-> | Hne].
    + rewrite list_lookup_alter_eq in Hx. destruct (filters _ !! k) as [y |] eqn:Hy; [| done].
      cbn in Hx. injection Hx as <-. apply (Hid k y Hy).
    + rewrite list_lookup_alter_ne in Hx by done. by apply (Hid j).
  - split_and!; (done || (cbn; lia)).
Qed.

Lemma engine_run_ok ops :
  Z.of_nat (length ops) + 1 < 2 ^ 64 -> engine_ok (Z.of_nat (length ops)) (FILTER_ENGINE (run ops)).
Proof.
  unfold run. induction ops as [| o ops IH] using rev_ind; intros Hlen.
  - split_and!; [constructor | constructor | cbn; lia | cbn; lia].
  - rewrite length_app in *. cbn [length] in *. rewrite fold_left_app. cbn [fold_left].
    rewrite Nat2Z.inj_add. apply engine_exec_ok; [lia | lia | apply IH; lia].
Qed.

Lemma decide_loop_spec fs p :
  StronglySorted before fs ->
  (exists f, f ∈ fs /\ matches f p = true /\ action f <> Continue /\ decide_loop fs p = action f /\
     forall g, g ∈ fs -> matches g p = true -> action g <> Continue -> g = f \/ before f g) \/
  (decide_loop fs p = Permit /\ forall g, g ∈ fs -> matches g p = true -> action g = Continue).
Proof.
  induction 1 as [| f fs Hs IH Hall]; cbn [decide_loop].
  { right. split; [done |]. by intros g Hg%not_elem_of_nil. }
  rewrite Forall_forall in Hall.
  destruct (decide (matches f p = true /\ action f <> Continue)) as [[Hm Ha] | Hno].
  - left. exists f. rewrite Hm. split_and!; [by apply elem_of_cons; left | done | done | by destruct (action f) |].
    intros g [-> | Hg]%elem_of_cons _ _; [by left | right; by apply Hall].
  - assert ((if matches f p then match action f with Permit => Permit | Block => Block
      | Reject => Reject | Continue => decide_loop fs p end else decide_loop fs p) = decide_loop fs p) as ->.
    { destruct (matches f p); [| done]. destruct (action f); try done; destruct Hno; done. }
    destruct IH as [(g & Hg & H1 & H2 & H3 & H4) | [H1 H2]].
    + left. exists g. split_and!; try done; [by apply elem_of_cons; right |].
      intros h [-> | Hh]%elem_of_cons Hmh Hah; [by destruct Hno | by apply H4].
    + right. split; [done |]. intros g [-> | Hg]%elem_of_cons Hm; [| by apply H2].
      destruct (decide (action f = Continue)); [done |]. by destruct Hno.
Qed.

(** ** Properties *)

(** A packet's fate is decided by the heaviest enabled filter of the layer that
    matches it and does not say [Continue], the oldest one among equal weights; when
    there is none, the packet is permitted. The call counts one inspected packet and one
    packet under the action taken. *)
Theorem filter_packet_heaviest (ops : list op) (l : FilterLayer) (p : packet)
    (Hlen : Z.of_nat (length ops) + 1 < 2 ^ 64) :
  let fs := filters (FILTER_ENGINE (run ops)) in
  let '(a, w') := filter_packet (run ops) l p in
  ((exists f, f ∈ fs /\ decides f l p /\ a = action f /\
      forall g, g ∈ fs -> decides g l p -> g = f \/ before f g) \/
   (a = Permit /\ forall g, g ∈ fs -> ~ decides g l p)) /\
  FILTER_ENGINE w' = FILTER_ENGINE (run ops) /\
  FILTER_STATS w' = count_action (FILTER_STATS (run ops)) a.
Proof.
  cbv zeta. unfold filter_packet. split; [| done]. destruct (engine_run_ok ops Hlen) as (Hs & _).
  unfold get_filters_for_layer, decides.
  destruct (decide_loop_spec (List.filter (fun f => bool_decide (layer f = l)) (filters (FILTER_ENGINE (run ops)))) p)
    as [(f & [Hf Hl%bool_decide_eq_true]%filter_elem & Hm & Ha & E & Hmin) | [E Hnone]].
  - eapply sorted_sublist; [apply filter_sublist | done].
  - left. exists f. split_and!; try done. intros g Hg (Hgl & Hgm & Hga). apply Hmin; [| done | done].
    apply filter_elem. by rewrite bool_decide_eq_true.
  - right. split; [done |]. intros g Hg (Hgl & Hgm & Hga). apply Hga, Hnone; [| done].
    apply filter_elem. by rewrite bool_decide_eq_true.
Qed.

Lemma filter_packet_heaviest_witness :
  let '(a, w') := filter_packet (run sample_ops) InboundIpv4 (mk_packet 1 2 3 23 6 0) in
  FILTER_STATS w' = count_action (FILTER_STATS (run sample_ops)) a.
Proof.
  pose proof (filter_packet_heaviest sample_ops InboundIpv4 (mk_packet 1 2 3 23 6 0)) as H.
  specialize (H ltac:(vm_compute; done)). cbv zeta in H. destruct (filter_packet _ _ _) as [a w']. apply H.
Defined.

End Wfp.
