(* ===== verification/TcpCongestion.v ===== *)
(** * TCP congestion control, retransmission timer and send window

    Models [netstack/tcp_congestion.rs]. [f64] values are IEEE 754 binary64 values of
    [SpecFloat], with the operations rounded to nearest even. Clock reads are arguments. *)

From Stdlib Require Import SpecFloat.
From S2P Require Import Prelude.

Module TcpCongestion.

(** ** [f64] *)

Definition f64 : Type := spec_float.
Definition f64_of_int (x : Z) : f64 := binary_normalize 53 1024 x 0 false.
Definition f_add (x y : f64) : f64 := SFadd 53 1024 x y.
Definition f_sub (x y : f64) : f64 := SFsub 53 1024 x y.
Definition f_mul (x y : f64) : f64 := SFmul 53 1024 x y.
Definition f_div (x y : f64) : f64 := SFdiv 53 1024 x y.

(** [x as u32]: truncation that saturates, NaN giving zero. *)
Definition f64_as_u32 (x : f64) : Z :=
  match x with
  | S754_finite false m e =>
      Z.min (if 0 <=? e then Z.pos m * 2 ^ e else Z.pos m / 2 ^ (- e)) (2 ^ 32 - 1)
  | S754_infinity false => 2 ^ 32 - 1
  | _ => 0
  end.

(** A decimal literal [a / b]; division rounds it correctly. *)
Definition literal (a b : Z) : f64 := f_div (f64_of_int a) (f64_of_int b).

(** ** Constants and state *)

Definition MSS : Z := 1460.
Definition INITIAL_CWND : Z := 2 * MSS.
Definition MIN_RTO : Z := 1000.
Definition MAX_RTO : Z := 60000.
Definition CUBIC_C : f64 := literal 4 10.
Definition CUBIC_BETA : f64 := literal 7 10.

Inductive CongestionAlgorithm : Type := Reno | Cubic.
Inductive CongestionState : Type := SlowStart | CongestionAvoidance | FastRecovery.

#[export] Instance CongestionState_eq_dec : EqDecision CongestionState.
Proof. solve_decision. Defined.

(** [for _ in 0..64] with its early [break]. *)
Fixpoint newton (n : nat) (a x : f64) : f64 :=
  match n with
  | O => x
  | S n =>
      let next := f_div (f_add (f_mul (f64_of_int 2) x) (f_div a (f_mul x x))) (f64_of_int 3) in
      if SFeqb next x then x else newton n a next
  end.

Definition cube_root (v : f64) : f64 :=
  if SFeqb v (f64_of_int 0) then f64_of_int 0
  else
    let neg := SFltb v (f64_of_int 0) in
    let a := if neg then SFopp v else v in
    let x := if SFleb (f64_of_int 1) a then f_div a (f64_of_int 3) else f64_of_int 1 in
    let x := newton 64 a x in
    if neg then SFopp x else x.

Definition cube (x : f64) : f64 := f_mul (f_mul x x) x.

Definition cubic_window (t_ms : f64) (w_max : Z) (epoch_ms : f64) : Z :=
  if w_max =? 0 then INITIAL_CWND
  else
    let w_max_f := f64_of_int w_max in
    let k := cube_root (f_div (f_mul w_max_f (f_sub (f64_of_int 1) CUBIC_BETA)) CUBIC_C) in
    let t := f_sub t_ms epoch_ms in
    let raw := f_add (f_mul CUBIC_C (cube (f_sub t k))) w_max_f in
    if SFltb raw (f64_of_int INITIAL_CWND) then INITIAL_CWND else f64_as_u32 raw.

Record CongestionControl : Type := mk {
  cwnd : Z; ssthresh : Z; state : CongestionState; dup_acks : Z; bytes_acked_in_epoch : Z;
  mss : Z; algo : CongestionAlgorithm; w_max : Z; loss_epoch_ms : f64; last_ack_ms : f64 }.

Definition new_with (al : CongestionAlgorithm) (now : Z) : CongestionControl :=
  mk INITIAL_CWND ((2 ^ 32 - 1) / 2) SlowStart 0 0 MSS al 0 (f64_of_int now) (f64_of_int now).

(** Field updates. *)
Definition set_window (c : CongestionControl) (w : Z) (s : CongestionState) : CongestionControl :=
  mk w (ssthresh c) s (dup_acks c) (bytes_acked_in_epoch c) (mss c) (algo c) (w_max c)
    (loss_epoch_ms c) (last_ack_ms c).
Definition set_w_max (c : CongestionControl) (w : Z) : CongestionControl :=
  mk (cwnd c) (ssthresh c) (state c) (dup_acks c) (bytes_acked_in_epoch c) (mss c) (algo c) w
    (loss_epoch_ms c) (last_ack_ms c).

Definition reno_on_ack (c : CongestionControl) (acked_bytes : Z) : CongestionControl :=
  match state c with
  | SlowStart =>
      let w := sat_add 32 (cwnd c) acked_bytes in
      set_window c w (if ssthresh c <=? w then CongestionAvoidance else SlowStart)
  | CongestionAvoidance =>
      let increment := (mss c *[32] mss c) / Z.max (cwnd c) 1 in
      set_window c (sat_add 32 (cwnd c) increment) CongestionAvoidance
  | FastRecovery => set_window c (ssthresh c) CongestionAvoidance
  end.

Definition cubic_on_ack (c : CongestionControl) (acked_bytes : Z) (now_ms : f64) : CongestionControl :=
  let c := if w_max c =? 0 then set_w_max c (cwnd c) else c in
  if cwnd c <? ssthresh c then set_window c (sat_add 32 (cwnd c) acked_bytes) SlowStart
  else
    let target := cubic_window now_ms (w_max c) (loss_epoch_ms c) in
    let diff := if cwnd c <? w_max c then sat_sub (cwnd c) target else sat_sub target (cwnd c) in
    let increment :=
      if diff =? 0 then mss c
      else wrap 32 (mss c *[64] acked_bytes / Z.max (cwnd c) 1) in
    set_window c (sat_add 32 (cwnd c) (Z.max increment 1)) CongestionAvoidance.

Definition on_ack (c : CongestionControl) (acked_bytes now : Z) : CongestionControl :=
  let c := mk (cwnd c) (ssthresh c) (state c) 0 (sat_add 32 (bytes_acked_in_epoch c) acked_bytes) (mss c)
             (algo c) (w_max c) (loss_epoch_ms c) (f64_of_int now) in
  match algo c with
  | Reno => reno_on_ack c acked_bytes
  | Cubic => cubic_on_ack c acked_bytes (f64_of_int now)
  end.

Definition on_dup_ack (c : CongestionControl) (now : Z) : CongestionControl :=
  let dup := sat_add 32 (dup_acks c) 1 in
  if dup =? 3 then
    let half := Z.max (cwnd c / 2) (2 *[32] mss c) in
    match algo c with
    | Reno =>
        mk (half +[32] (3 *[32] mss c)) half FastRecovery dup (bytes_acked_in_epoch c) (mss c) Reno
          (w_max c) (loss_epoch_ms c) (last_ack_ms c)
    | Cubic =>
        let w := f64_as_u32 (f_mul (f64_of_int (cwnd c)) CUBIC_BETA) in
        mk w half FastRecovery dup (bytes_acked_in_epoch c) (mss c) Cubic w (f64_of_int now) (last_ack_ms c)
    end
  else
    mk (if decide (state c = FastRecovery) then sat_add 32 (cwnd c) (mss c) else cwnd c) (ssthresh c)
      (state c) dup (bytes_acked_in_epoch c) (mss c) (algo c) (w_max c) (loss_epoch_ms c) (last_ack_ms c).

Definition on_timeout (c : CongestionControl) (now : Z) : CongestionControl :=
  mk INITIAL_CWND (Z.max (cwnd c / 2) (2 *[32] mss c)) SlowStart 0 0 (mss c) (algo c) (cwnd c)
    (f64_of_int now) (last_ack_ms c).

Definition get_send_window (c : CongestionControl) (rwnd : Z) : Z := Z.min (cwnd c) rwnd.

(** ** Retransmission timer *)

(** Wrap-around of [i32] arithmetic. *)
Definition i32 (x : Z) : Z := to_signed 32 (wrap 32 x).

Record RetransmissionTimeout : Type := mk_rto {
  srtt_ms : Z; rttvar_ms : Z; rto_ms : Z; karn_skip : bool }.

Definition rto_new : RetransmissionTimeout := mk_rto 0 0 1000 false.

Definition update_rtt (r : RetransmissionTimeout) (measured_rtt_ms : Z) : RetransmissionTimeout :=
  let m := i32 measured_rtt_ms in
  let '(srtt, rttvar) :=
    if srtt_ms r =? 0 then (m, Z.quot m 2)
    else
      let delta := i32 (Z.abs (i32 (srtt_ms r - m))) in
      let rttvar := Z.quot (i32 (i32 (3 * rttvar_ms r) + delta)) 4 in
      (Z.quot (i32 (i32 (7 * srtt_ms r) + m)) 8, rttvar) in
  let rto := i32 (srtt + Z.max 1 (i32 (4 * rttvar))) in
  mk_rto srtt rttvar (Z.min (Z.max rto MIN_RTO) MAX_RTO) (karn_skip r).

Definition backoff (r : RetransmissionTimeout) : RetransmissionTimeout :=
  mk_rto (srtt_ms r) (rttvar_ms r) (Z.min (rto_ms r *[32] 2) MAX_RTO) (karn_skip r).

Definition get_rto (r : RetransmissionTimeout) : Z := rto_ms r.
Definition mark_retransmit (r : RetransmissionTimeout) : RetransmissionTimeout :=
  mk_rto (srtt_ms r) (rttvar_ms r) (rto_ms r) true.
Definition clear_karn_skip (r : RetransmissionTimeout) : RetransmissionTimeout :=
  mk_rto (srtt_ms r) (rttvar_ms r) (rto_ms r) false.

(** ** Send window *)

(** [a <= b] and [a < b] modulo [2 ^ 32]. *)
Definition seq_le (a b : Z) : bool := b -[32] a <? 0x80000000.
Definition seq_lt (a b : Z) : bool := negb (a =? b) && seq_le a b.

Record TcpSendWindow : Type := mk_win {
  buffer : list Z; send_una : Z; send_next : Z; send_max : Z; window_size : Z }.

Definition win_new (initial_seq : Z) : TcpSendWindow :=
  mk_win [] initial_seq initial_seq initial_seq 65535.

Definition push_data (w : TcpSendWindow) (d : list Z) : TcpSendWindow :=
  mk_win (buffer w ++ d) (send_una w) (send_next w) (send_max w) (window_size w).

Definition get_sendable_data (w : TcpSendWindow) (max_bytes : Z)
    : outcome (option (Z * list Z) * TcpSendWindow) :=
  let available := sat_sub (send_una w + Z.of_nat (length (buffer w))) (send_next w) in
  if available =? 0 then Ret (None, w)
  else
    let send_bytes := Z.min available max_bytes in
    let offset := send_next w -[32] send_una w in
    data ← slice (buffer w) (Z.to_nat offset) (Z.to_nat (offset + send_bytes));
    let seq := send_next w in
    let next := send_next w +[32] wrap 32 send_bytes in
    Ret (Some (seq, data),
         mk_win (buffer w) (send_una w) next (if seq_lt (send_max w) next then next else send_max w)
           (window_size w)).

Definition win_on_ack (w : TcpSendWindow) (ack_num : Z) : Z * TcpSendWindow :=
  if seq_le ack_num (send_una w) then (0, w)
  else if negb (seq_le ack_num (send_max w)) then (0, w)
  else
    let acked_bytes := ack_num -[32] send_una w in
    let remove_len := Nat.min (Z.to_nat acked_bytes) (length (buffer w)) in
    (acked_bytes, mk_win (drop remove_len (buffer w)) ack_num (send_next w) (send_max w) (window_size w)).

Definition update_window (w : TcpSendWindow) (window : Z) : TcpSendWindow :=
  mk_win (buffer w) (send_una w) (send_next w) (send_max w) window.

Definition has_unacked_data (w : TcpSendWindow) : bool := seq_lt (send_una w) (send_max w).
Definition buffered_bytes (w : TcpSendWindow) : nat := length (buffer w).

(** ** Specification *)

(** Events of a connection under congestion control, with their clock reads. *)
Inductive event : Type := Ack (acked now : Z) | DupAck (now : Z) | Timeout (now : Z).

Definition handle (c : CongestionControl) (e : event) : CongestionControl :=
  match e with
  | Ack acked now => on_ack c acked now
  | DupAck now => on_dup_ack c now
  | Timeout now => on_timeout c now
  end.

(** Two segments: the least window Reno may fall to. *)
Definition reno_ok (c : CongestionControl) : Prop :=
  algo c = Reno /\ mss c = MSS /\ 2 * MSS <= cwnd c < 2 ^ 32 /\ 2 * MSS <= ssthresh c < 2 ^ 31.

Inductive timer_op : Type := Update (measured : Z) | Backoff | Mark | Clear.

Definition timer_step (r : RetransmissionTimeout) (o : timer_op) : RetransmissionTimeout :=
  match o with
  | Update m => update_rtt r m
  | Backoff => backoff r
  | Mark => mark_retransmit r
  | Clear => clear_karn_skip r
  end.

(** Calls on a send window; [run] collects the segments sent, with their sequence numbers. *)
Inductive win_op : Type := Push (d : list Z) | Send (max_bytes : Z) | AckNum (n : Z).

Fixpoint run (w : TcpSendWindow) (ops : list win_op) : outcome (list (Z * list Z) * TcpSendWindow) :=
  match ops with
  | [] => Ret ([], w)
  | Push d :: ops => run (push_data w d) ops
  | AckNum n :: ops => run (win_on_ack w n).2 ops
  | Send max_bytes :: ops =>
      '(r, w) ← get_sendable_data w max_bytes;
      '(segs, w) ← run w ops;
      Ret (match r with Some seg => seg :: segs | None => segs end, w)
  end.

Fixpoint pushed (ops : list win_op) : list Z :=
  match ops with [] => [] | Push d :: ops => d ++ pushed ops | _ :: ops => pushed ops end.

Definition op_ty (o : win_op) : Prop :=
  match o with Push _ => True | Send m => 0 <= m | AckNum n => u_ty 32 n end.

Definition sample_win_ops : list win_op :=
  [Push [104; 101; 108; 108; 111]; Send 3; AckNum 1002; Push [33]; Send 8].

(** Each segment's sequence number follows the bytes of the segments before it. *)
Fixpoint numbered (seq : Z) (segs : list (Z * list Z)) : Prop :=
  match segs with
  | [] => True
  | (s, d) :: segs => s = seq /\ numbered (seq + Z.of_nat (length d)) segs
  end.

(** The window sits at [una] and [next] of the stream [S] that starts at [isn]. *)
Record on_stream (isn : Z) (S : list Z) (w : TcpSendWindow) : Prop := mk_on_stream {
  os_una : isn <= send_una w <= send_next w;
  os_next : send_next w <= isn + Z.of_nat (length S);
  os_max : send_max w = send_next w;
  os_buffer : buffer w = drop (Z.to_nat (send_una w - isn)) S }.

(** ** Lemmas *)

Lemma handle_reno_ok c e : reno_ok c -> (forall a n, e = Ack a n -> u_ty 32 a) -> reno_ok (handle c e).
Proof.
  intros (Ha & Hm & Hc & Hs) Hty. unfold MSS in *. destruct e as [acked now | now | now]; cbn [handle].
  - specialize (Hty acked now eq_refl). unfold u_ty in Hty. unfold on_ack. cbn [algo]. rewrite Ha.
    unfold reno_on_ack. cbn [state cwnd ssthresh mss]. rewrite Hm.
    destruct (state c); unfold reno_ok, set_window, sat_add, MSS; cbn [algo mss cwnd ssthresh]; try (split_and!; (done || lia)).
    assert (0 <= 1460 *[32] 1460 / Z.max (cwnd c) 1) by (apply Z.div_pos; [by vm_compute | lia]).
    split_and!; (done || lia).
  - unfold on_dup_ack. rewrite Ha, Hm. change (2 *[32] 1460) with 2920. change (3 *[32] 1460) with 4380.
    assert (cwnd c / 2 < 2 ^ 31) by (apply Z.div_lt_upper_bound; lia).
    destruct (_ =? 3); unfold reno_ok, MSS; cbn [algo mss cwnd ssthresh].
    + rewrite wrap_small by (unfold u_ty; lia). split_and!; (done || lia).
    + unfold sat_add. destruct (decide _); split_and!; (done || lia).
  - unfold on_timeout, reno_ok. cbn [algo mss cwnd ssthresh]. rewrite Hm. change (2 *[32] 1460) with 2920.
    assert (cwnd c / 2 < 2 ^ 31) by (apply Z.div_lt_upper_bound; lia).
    unfold INITIAL_CWND, MSS. split_and!; (done || lia).
Qed.

Lemma seq_lt_near a b : u_ty 32 a -> u_ty 32 b -> a <= b < a + 2 ^ 31 -> seq_lt a b = negb (a =? b).
Proof.
  unfold u_ty, seq_lt, seq_le. intros Ha Hb Hab. rewrite wrap_small by (unfold u_ty; lia).
  destruct (Z.ltb_spec (b - a) 0x80000000); [apply andb_true_r | lia].
Qed.

(** Which acknowledgements are taken. *)
Lemma ack_window una mx n :
  u_ty 32 una -> u_ty 32 mx -> u_ty 32 n -> una <= mx < una + 2 ^ 31 ->
  seq_le n una = false -> seq_le n mx = true -> una < n <= mx.
Proof.
  unfold u_ty, seq_le. intros Hu Hm Hn Hw H1%Z.ltb_ge H2%Z.ltb_lt. unfold wrap in *.
  destruct (Z.lt_ge_cases una n) as [Hlt | Hge].
  - split; [done |]. destruct (Z.le_gt_cases n mx); [done |].
    rewrite <- (Z.mod_add (mx - n) 1), Z.mod_small in H2 by lia.
    rewrite <- (Z.mod_add (una - n) 1), Z.mod_small in H1 by lia. lia.
  - rewrite Z.mod_small in H1 by lia. rewrite Z.mod_small in H2 by lia. lia.
Qed.

Lemma on_stream_push isn S w d : on_stream isn S w -> on_stream isn (S ++ d) (push_data w d).
Proof.
  intros [H1 H2 H3 H4]. split; cbn [push_data send_una send_next send_max buffer]; try done.
  - rewrite length_app. lia.
  - rewrite H4, drop_app_le by lia. done.
Qed.

Lemma on_stream_ack isn S w n :
  0 <= isn -> isn + Z.of_nat (length S) < 2 ^ 32 -> Z.of_nat (length S) < 2 ^ 31 -> u_ty 32 n ->
  on_stream isn S w -> on_stream isn S (win_on_ack w n).2 /\ send_next (win_on_ack w n).2 = send_next w.
Proof.
  intros H0 Hl Hl2 Hn Hw. destruct Hw as [H1 H2 H3 H4]. unfold win_on_ack.
  destruct (seq_le n (send_una w)) eqn:E1; [by split |].
  destruct (seq_le n (send_max w)) eqn:E2; cbn [negb]; [| by split].
  rewrite H3 in E2. assert (send_una w < n <= send_next w) as Hr
    by (apply ack_window; try done; unfold u_ty in *; lia).
  rewrite wrap_small by (unfold u_ty in *; lia).
  split; [| done]. split; cbn [snd send_una send_next send_max buffer]; try done; [lia |].
  rewrite H4, length_drop, drop_drop. f_equal. lia.
Qed.

Lemma on_stream_send isn S w m :
  0 <= isn -> isn + Z.of_nat (length S) < 2 ^ 32 -> Z.of_nat (length S) < 2 ^ 31 -> 0 <= m ->
  on_stream isn S w ->
  exists r w', get_sendable_data w m = Ret (r, w') /\ on_stream isn S w' /\
    match r with
    | None => send_next w' = send_next w
    | Some (seq, d) => seq = send_next w /\ send_next w' = send_next w + Z.of_nat (length d) /\
        d = take (length d) (drop (Z.to_nat (send_next w - isn)) S)
    end.
Proof.
  intros H0 Hl Hl2 Hm Hw. pose proof Hw as [H1 H2 H3 H4]. unfold get_sendable_data, sat_sub.
  assert (Z.of_nat (length (buffer w)) = isn + Z.of_nat (length S) - send_una w) as Hb
    by (rewrite H4, length_drop; lia).
  set (av := Z.max 0 _). assert (av = isn + Z.of_nat (length S) - send_next w) as Hav by (unfold av; lia).
  destruct (Z.eqb_spec av 0); [by exists None, w |].
  set (k := Z.min av m). assert (0 <= k <= av) as Hk by (unfold k; lia).
  rewrite (wrap_small 32 (send_next w - send_una w)), (wrap_small 32 k), wrap_small by (unfold u_ty; lia).
  rewrite slice_in by lia. rewrite outcome_bind_ret. eexists _, _. split; [reflexivity |].
  assert (length (take (Z.to_nat (send_next w - send_una w + k) - Z.to_nat (send_next w - send_una w))
    (drop (Z.to_nat (send_next w - send_una w)) (buffer w))) = Z.to_nat k) as Hlen.
  { rewrite length_take, length_drop. lia. }
  split; [split; cbn [send_una send_next send_max buffer]; try done; [lia | lia |] |].
  - rewrite H3, seq_lt_near by (unfold u_ty; lia). destruct (Z.eqb_spec (send_next w) (send_next w + k)); cbn; lia.
  - rewrite Hlen. split_and!; [done | cbn; lia |].
    rewrite H4, drop_drop. f_equal; [lia |]. f_equal. lia.
Qed.

(** From a window on the stream [S], the segments sent are the stream from [send_next] on. *)
Lemma run_stream isn S w ops :
  0 <= isn -> isn + Z.of_nat (length (S ++ pushed ops)) < 2 ^ 32 ->
  Z.of_nat (length (S ++ pushed ops)) < 2 ^ 31 -> Forall op_ty ops -> on_stream isn S w ->
  exists segs w', run w ops = Ret (segs, w') /\ numbered (send_next w) segs /\
    exists rest, drop (Z.to_nat (send_next w - isn)) (S ++ pushed ops) = concat segs.*2 ++ rest.
Proof.
  intros H0. revert S w. induction ops as [| o ops IH]; intros S w Hl Hl2 Hty Hw.
  { cbn. eexists _, _. split; [reflexivity |]. split; [done |]. by eexists. }
  rewrite Forall_cons in Hty. destruct Hty as [Ho Hty].
  destruct o as [d | m | n]; cbn [run pushed op_ty] in *.
  - rewrite app_assoc in *. destruct (IH (S ++ d) (push_data w d)) as (segs & w' & E & Hn & rest & Hr);
      try done; [by apply on_stream_push |]. by exists segs, w'; split_and!; try done; exists rest.
  - rewrite length_app in Hl, Hl2.
    destruct (on_stream_send isn S w m) as (r & w1 & E1 & Hw1 & Hr); try done; [lia | lia |].
    rewrite E1, outcome_bind_ret.
    destruct (IH S w1) as (segs & w' & E & Hn & rest & Hrest); try done; [rewrite length_app; lia.. |].
    rewrite E, outcome_bind_ret. eexists _, _. split; [reflexivity |].
    destruct r as [[seq d] |]; [| rewrite Hr in *; split; [done | by exists rest]].
    destruct Hr as (-> & Enext & Ed). rewrite Enext in *. split; [done |]. exists rest.
    rewrite fmap_cons. cbn [concat snd]. rewrite <- app_assoc, <- Hrest.
    destruct Hw as [Hu1 Hu2 _ _].
    replace (Z.to_nat (send_next w + Z.of_nat (length d) - isn))
      with (Z.to_nat (send_next w - isn) + length d)%nat by lia.
    rewrite <- drop_drop. rewrite <- (take_drop (length d) (drop (Z.to_nat (send_next w - isn)) (S ++ pushed ops))) at 1.
    f_equal. rewrite drop_app_le, take_app_le by (rewrite ?length_drop; destruct Hw1; lia). done.
  - destruct (on_stream_ack isn S w n) as [Hw1 En]; try done; [rewrite length_app in *; lia.. |].
    destruct (IH S (win_on_ack w n).2) as (segs & w' & E & Hn & rest & Hr); try done.
    rewrite En in *. by exists segs, w'; split_and!; try done; exists rest.
Qed.

(** ** Properties *)

(** Under Reno the congestion window and the slow-start threshold never fall below two
    segments, whatever acknowledgements, duplicates and time-outs arrive, and no counter
    overflows; the third duplicate acknowledgement halves the window into the threshold
    and enters fast recovery. *)
Theorem reno_window_floor (es : list event) (now : Z)
    (Hes : Forall (fun e => match e with Ack a _ => u_ty 32 a | _ => True end) es) :
  let c := fold_left handle es (new_with Reno now) in
  2 * MSS <= cwnd c < 2 ^ 32 /\ 2 * MSS <= ssthresh c < 2 ^ 31 /\
  (dup_acks c = 2 -> forall t, let c' := on_dup_ack c t in
     state c' = FastRecovery /\ ssthresh c' = Z.max (cwnd c / 2) (2 * MSS) /\
     cwnd c' = ssthresh c' + 3 * MSS).
Proof.
  cbv zeta. assert (reno_ok (new_with Reno now)) as H0.
  { unfold reno_ok, new_with, INITIAL_CWND, MSS. cbn [algo mss cwnd ssthresh].
    change ((2 ^ 32 - 1) / 2) with (2 ^ 31 - 1). split_and!; (done || lia). }
  revert H0. generalize (new_with Reno now) as c. induction Hes as [| e es He Hes IH]; intros c Hc.
  - cbn [fold_left]. destruct Hc as (Ha & Hm & Hw & Hs). split_and!; try done; try lia.
    intros Hd t. unfold on_dup_ack. rewrite Hd, Ha, Hm. change (sat_add 32 2 1 =? 3) with true. cbn iota.
    cbn [state ssthresh cwnd]. change (2 *[32] MSS) with (2 * MSS). change (3 *[32] MSS) with (3 * MSS).
    assert (cwnd c / 2 < 2 ^ 31) by (apply Z.div_lt_upper_bound; lia).
    rewrite wrap_small by (unfold u_ty, MSS; lia). done.
  - cbn [fold_left]. apply IH, handle_reno_ok; [done |]. by intros a n ->.
Qed.

Lemma reno_window_floor_witness :
  2 * MSS <= cwnd (fold_left handle [Ack 1460 1; DupAck 2; DupAck 3; DupAck 4; Timeout 9] (new_with Reno 0)) < 2 ^ 32.
Proof.
  destruct (reno_window_floor [Ack 1460 1; DupAck 2; DupAck 3; DupAck 4; Timeout 9] 0) as [H _]; [| exact H].
  rewrite !Forall_cons. unfold u_ty. split_and!; (done || lia).
Defined.

(** The retransmission time-out stays between one and sixty seconds whatever samples
    arrive, wrapped or not, and each back-off doubles it up to the bound. The Karn flag
    has no influence: a sample taken while it is set updates the estimate all the same. *)
Theorem rto_bounded (ops : list timer_op) :
  let r := fold_left timer_step ops rto_new in
  MIN_RTO <= get_rto r <= MAX_RTO /\
  get_rto (backoff r) = Z.min (2 * get_rto r) MAX_RTO /\
  forall m, srtt_ms (update_rtt (mark_retransmit r) m) = srtt_ms (update_rtt r m) /\
    get_rto (update_rtt (mark_retransmit r) m) = get_rto (update_rtt r m).
Proof.
  cbv zeta. assert (MIN_RTO <= get_rto rto_new <= MAX_RTO) as H0 by (by vm_compute).
  revert H0. generalize rto_new as r. induction ops as [| o ops IH]; intros r Hr; cbn [fold_left].
  - split; [done |]. split.
    + unfold get_rto, backoff, MAX_RTO, MIN_RTO in *. cbn [rto_ms].
      rewrite wrap_small by (unfold u_ty; lia). by rewrite Z.mul_comm.
    + intros m. unfold get_rto, update_rtt, mark_retransmit. cbn [srtt_ms rttvar_ms].
      destruct (srtt_ms r =? 0); cbn [srtt_ms rttvar_ms rto_ms]; split; reflexivity.
  - apply IH. unfold get_rto, MIN_RTO, MAX_RTO in *. destruct o; cbn [timer_step].
    + unfold update_rtt, MIN_RTO, MAX_RTO. destruct (srtt_ms r =? 0); cbn [rto_ms]; lia.
    + unfold backoff, MAX_RTO. cbn [rto_ms]. rewrite wrap_small by (unfold u_ty; lia). lia.
    + done.
    + done.
Qed.

(** C31: as long as sequence numbers do not wrap, the send window delivers the byte stream:
    no call panics, the segments sent are consecutive pieces of the bytes pushed, in
    order and without gap or repetition, each under the sequence number of its first
    byte, whatever acknowledgements arrive in between. *)
Theorem send_window_stream (isn : Z) (ops : list win_op) (Hisn : 0 <= isn)
    (Hwrap : isn + Z.of_nat (length (pushed ops)) < 2 ^ 32)
    (Hhalf : Z.of_nat (length (pushed ops)) < 2 ^ 31) (Hops : Forall op_ty ops) :
  exists segs w, run (win_new isn) ops = Ret (segs, w) /\ numbered isn segs /\
    exists rest, pushed ops = concat segs.*2 ++ rest.
Proof.
  destruct (run_stream isn [] (win_new isn) ops) as (segs & w & E & Hn & rest & Hr); try done.
  { split; cbn [win_new send_una send_next send_max buffer length]; [lia | lia | done |].
    by rewrite drop_nil. }
  cbn [win_new send_next app] in *. rewrite Z.sub_diag in Hr. rewrite drop_0 in Hr.
  exists segs, w. split_and!; try done. by exists rest.
Qed.

Lemma send_window_stream_witness : exists segs w, run (win_new 1000) sample_win_ops = Ret (segs, w) /\
  numbered 1000 segs.
Proof.
  destruct (send_window_stream 1000 sample_win_ops) as (segs & w & H1 & H2 & _);
    [lia | by vm_compute | by vm_compute | | by exists segs, w].
  unfold sample_win_ops. rewrite !Forall_cons. cbn. unfold u_ty. split_and!; (done || lia).
Defined.

(** Once [send_next] has wrapped past [send_una], the amount available is computed
    without wrap-around and comes out near 2^32, so the next request slices past the buffer
    and panics: 768 bytes pushed from sequence number 2^32 - 256, sent in halves of 512. *)
Theorem send_window_wrap_panics :
  run (win_new (2 ^ 32 - 256)) [Push (replicate 768 0); Send 512; Send 512] = Panic /\
  forall w m, u_ty 32 (send_una w) -> u_ty 32 (send_next w) -> send_next w < send_una w ->
    Z.of_nat (length (buffer w)) < send_next w -[32] send_una w + m -> 0 < m < 2 ^ 31 ->
    Z.of_nat (length (buffer w)) < 2 ^ 31 ->
    0 < send_una w + Z.of_nat (length (buffer w)) - send_next w ->
    m <= send_una w + Z.of_nat (length (buffer w)) - send_next w ->
    get_sendable_data w m = Panic.
Proof.
  split; [vm_compute; reflexivity |].
  intros w m Hu Hn Hlt Hover Hm Hlen Hpos Hle. unfold get_sendable_data, sat_sub.
  set (av := Z.max 0 _). destruct (Z.eqb_spec av 0); [unfold av in *; lia |].
  rewrite (Z.min_r av m) by (unfold av; lia).
  pose proof (wrap_ty 32 (send_next w - send_una w) ltac:(lia)) as Hty. unfold u_ty in Hty.
  unfold slice. rewrite decide_False; [done |]. lia.
Qed.

End TcpCongestion.
