(* ===== verification/Lznt1.v ===== *)
(** * NTFS compression

    Models [fs/ntfs/compression.rs]: the LZNT1 compressor and decompressor over the caller's
    buffers. A result [inr status] is [Err(status)]; the buffer is returned in every case, as
    the code fills it in place. *)

From S2P Require Import Prelude FileLocks.

Module Lznt1.

Notation STATUS_UNSUCCESSFUL := FileLocks.STATUS_UNSUCCESSFUL.

Definition COMPRESSION_UNIT_SIZE : nat := Z.to_nat 65536.
Definition COMPRESSION_BLOCK_SIZE : nat := Z.to_nat 4096.

(** [CompressionBlockHeader::is_compressed] and [block_size]. *)
Definition header_is_compressed (header : Z) : bool := has_bits header 0x8000.
Definition header_block_size (header : Z) : nat := Z.to_nat (Z.land header 0x0FFF + 1).

(** ** Decompression *)

(** [for i in 0..length]: the copy of a back reference, byte by byte. *)
Fixpoint copy_loop (n : nat) (dec : list Z) (from dst : nat) : outcome (list Z * nat) :=
  match n with
  | O => Ret (dec, dst)
  | S n =>
      if decide (length dec <= dst)%nat then Ret (dec, dst)
      else b ← rd dec from; dec ← wr dec dst b; copy_loop n dec (S from) (S dst)
  end.

(** [for bit in 0..8]: the items under one tag, [n] bits left. *)
Fixpoint bit_loop (n : nat) (compressed : list Z) (block_end : nat) (tag bit : Z)
    (dec : list Z) (src dst : nat) : outcome (option (list Z * nat * nat) * list Z) :=
  match n with
  | O => Ret (Some (dec, src, dst), dec)
  | S n =>
      if decide (block_end <= src \/ length dec <= dst)%nat then Ret (Some (dec, src, dst), dec)
      else if negb (has_bits tag (Z.shiftl 1 bit)) then
        if decide (length compressed <= src)%nat then Ret (Some (dec, src, dst), dec)
        else
          b ← rd compressed src;
          dec ← wr dec dst b;
          bit_loop n compressed block_end tag (bit + 1) dec (S src) (S dst)
      else if decide (length compressed <= src + 1)%nat then Ret (Some (dec, src, dst), dec)
      else
        b0 ← rd compressed src;
        b1 ← rd compressed (src + 1)%nat;
        let token := from_le [b0; b1] in
        let src := (src + 2)%nat in
        let len := (Z.to_nat (Z.land (Z.shiftr token 12) 0x0F) + 3)%nat in
        let distance := (Z.to_nat (Z.land token 0x0FFF) + 1)%nat in
        if decide (dst < distance)%nat then Ret (None, dec)
        else
          '(dec, dst) ← copy_loop len dec (dst - distance) dst;
          bit_loop n compressed block_end tag (bit + 1) dec src dst
  end.

(** The [while] over the tags of a compressed block. *)
Fixpoint tag_loop (fuel : nat) (compressed : list Z) (block_end : nat) (dec : list Z) (src dst : nat)
    : outcome (option (list Z * nat * nat) * list Z) :=
  match fuel with
  | O => OutOfFuel
  | S fuel =>
      if decide (src < block_end /\ dst < length dec)%nat then
        if decide (length compressed <= src)%nat then Ret (Some (dec, src, dst), dec)
        else
          tag ← rd compressed src;
          '(r, dec) ← bit_loop 8 compressed block_end tag 0 dec (S src) dst;
          match r with
          | None => Ret (None, dec)
          | Some (dec, src, dst) => tag_loop fuel compressed block_end dec src dst
          end
      else Ret (Some (dec, src, dst), dec)
  end.

(** The [while] over the blocks. *)
Fixpoint block_loop (fuel : nat) (compressed dec : list Z) (src dst : nat)
    : outcome ((nat + Z) * list Z) :=
  match fuel with
  | O => OutOfFuel
  | S fuel =>
      if decide (src < length compressed /\ dst < length dec)%nat then
        if decide (length compressed < src + 2)%nat then Ret (inl dst, dec)
        else
          b0 ← rd compressed src;
          b1 ← rd compressed (src + 1)%nat;
          let header := from_le [b0; b1] in
          let src := (src + 2)%nat in
          if header =? 0 then Ret (inl dst, dec)
          else
            let block_size := header_block_size header in
            if negb (header_is_compressed header) then
              let copy_size := Nat.min block_size (length dec - dst) in
              let copy_size := Nat.min copy_size (length compressed - src) in
              data ← slice compressed src (src + copy_size);
              dec ← copy_at dec dst data;
              block_loop fuel compressed dec (src + copy_size) (dst + copy_size)
            else
              '(r, dec) ← tag_loop (S (length compressed)) compressed (src + block_size) dec src dst;
              match r with
              | None => Ret (inr STATUS_UNSUCCESSFUL, dec)
              | Some (dec, src, dst) => block_loop fuel compressed dec src dst
              end
      else Ret (inl dst, dec)
  end.

Definition decompress_lznt1 (compressed decompressed : list Z) : outcome ((nat + Z) * list Z) :=
  block_loop (S (length compressed)) compressed decompressed 0 0.

(** ** Compression *)

(** [while pos + length < data.len() && data[i + length] == data[pos + length] && length < 18] *)
Fixpoint match_loop (fuel : nat) (data : list Z) (i pos len : nat) : outcome nat :=
  match fuel with
  | O => OutOfFuel
  | S fuel =>
      if decide (pos + len < length data)%nat then
        a ← rd data (i + len)%nat;
        b ← rd data (pos + len)%nat;
        if (a =? b) && bool_decide (len < 18)%nat then match_loop fuel data i pos (S len) else Ret len
      else Ret len
  end.

(** [for i in window_start..pos], [n] candidates left. *)
Fixpoint best_loop (n : nat) (data : list Z) (i pos best_distance best_length : nat)
    : outcome (nat * nat) :=
  match n with
  | O => Ret (best_distance, best_length)
  | S n =>
      len ← match_loop 19 data i pos 0;
      if decide (best_length < len)%nat then best_loop n data (S i) pos (pos - i) len
      else best_loop n data (S i) pos best_distance best_length
  end.

Definition find_best_match (data : list Z) (pos : nat) : outcome (nat * nat) :=
  let window_start := (pos - Z.to_nat 4095)%nat in
  best_loop (pos - window_start) data window_start pos 0 0.

(** [for bit in 0..8] of [compress_block]: tag, output and position. *)
Fixpoint item_loop (n : nat) (data : list Z) (bit tag : Z) (output : list Z) (pos : nat)
    : outcome (Z * list Z * nat) :=
  match n with
  | O => Ret (tag, output, pos)
  | S n =>
      if decide (length data <= pos)%nat then Ret (tag, output, pos)
      else
        '(match_distance, match_length) ← find_best_match data pos;
        if decide (3 <= match_length)%nat then
          let token := Z.lor (wrap 16 (Z.shiftl (wrap 16 (Z.of_nat (match_length - 3))) 12))
                         (wrap 16 (Z.of_nat (match_distance - 1))) in
          item_loop n data (bit + 1) (Z.lor tag (Z.shiftl 1 bit)) (output ++ to_le 2 token)
            (pos + match_length)
        else
          b ← rd data pos;
          item_loop n data (bit + 1) tag (output ++ [b]) (S pos)
  end.

(** The [while pos < data.len()] of [compress_block]. *)
Fixpoint group_loop (fuel : nat) (data output : list Z) (pos : nat) : outcome (list Z) :=
  match fuel with
  | O => OutOfFuel
  | S fuel =>
      if decide (pos < length data)%nat then
        let tag_pos := length output in
        '(tag, output, pos) ← item_loop 8 data 0 0 (output ++ [0]) pos;
        output ← wr output tag_pos tag;
        group_loop fuel data output pos
      else Ret output
  end.

Definition compress_block (data : list Z) : outcome (list Z) :=
  group_loop (S (length data)) data [] 0.

(** The [while src_pos < data.len()] of [compress_lznt1]. *)
Fixpoint compress_loop (fuel : nat) (data compressed : list Z) (src dst : nat)
    : outcome ((nat + Z) * list Z) :=
  match fuel with
  | O => OutOfFuel
  | S fuel =>
      if decide (src < length data)%nat then
        let block_size := Nat.min COMPRESSION_BLOCK_SIZE (length data - src) in
        block_data ← slice data src (src + block_size);
        temp_compressed ← compress_block block_data;
        let compressed_size := length temp_compressed in
        if decide (compressed_size < block_size)%nat then
          if decide (length compressed < dst + 2 + compressed_size)%nat
          then Ret (inr STATUS_UNSUCCESSFUL, compressed)
          else
            let header := Z.lor 0x8000 (wrap 16 (Z.of_nat (compressed_size - 1))) in
            compressed ← copy_at compressed dst (to_le 2 header);
            temp ← slice temp_compressed 0 compressed_size;
            compressed ← copy_at compressed (dst + 2) temp;
            compress_loop fuel data compressed (src + block_size) (dst + 2 + compressed_size)
        else if decide (length compressed < dst + 2 + block_size)%nat
        then Ret (inr STATUS_UNSUCCESSFUL, compressed)
        else
          let header := wrap 16 (Z.of_nat (block_size - 1)) in
          compressed ← copy_at compressed dst (to_le 2 header);
          compressed ← copy_at compressed (dst + 2) block_data;
          compress_loop fuel data compressed (src + block_size) (dst + 2 + block_size)
      else Ret (inl dst, compressed)
  end.

Definition compress_lznt1 (data compressed : list Z) : outcome ((nat + Z) * list Z) :=
  compress_loop (S (length data)) data compressed 0 0.

Definition is_compressed (attributes : Z) : bool := has_bits attributes 0x0800.

Definition read_compressed_file (compressed_data : list Z) (offset : Z) (len : nat) (output : list Z)
    : outcome ((nat + Z) * list Z) :=
  let unit_index := Z.to_nat (offset / Z.of_nat COMPRESSION_UNIT_SIZE) in
  let unit_offset := Z.to_nat (offset mod Z.of_nat COMPRESSION_UNIT_SIZE) in
  let unit_start := (unit_index * COMPRESSION_UNIT_SIZE)%nat in
  unit_data ← slice compressed_data unit_start (length compressed_data);
  '(r, decompressed) ← decompress_lznt1 unit_data (replicate COMPRESSION_UNIT_SIZE 0);
  match r with
  | inr e => Ret (inr e, output)
  | inl decompressed_size =>
      let copy_start := Nat.min unit_offset decompressed_size in
      let copy_len := Nat.min len (decompressed_size - copy_start) in
      let copy_len := Nat.min copy_len (length output) in
      data ← slice decompressed copy_start (copy_start + copy_len);
      output ← copy_at output 0 data;
      Ret (inl copy_len, output)
  end.

Definition write_compressed_file (data compressed_output : list Z) : outcome ((nat + Z) * list Z) :=
  '(r, temp) ← compress_lznt1 data (replicate (length data * 2) 0);
  match r with
  | inr e => Ret (inr e, compressed_output)
  | inl compressed_size =>
      bytes ← slice temp 0 compressed_size;
      Ret (inl compressed_size, bytes)
  end.

(** ** Specification *)

(** What a tag bit announces: a literal, or [l] bytes from [d] bytes back. *)
Inductive item : Type := Lit (b : Z) | Back (d l : nat).

Definition is_back (t : item) : bool := match t with Lit _ => false | Back _ _ => true end.

Definition token (d l : nat) : Z := Z.lor (Z.shiftl (Z.of_nat (l - 3)) 12) (Z.of_nat (d - 1)).

Definition item_bytes (t : item) : list Z :=
  match t with Lit b => [b] | Back d l => to_le 2 (token d l) end.

(** The output after repeating, [l] times, the byte [d] back. *)
Fixpoint grow (l d : nat) (out : list Z) : list Z :=
  match l with O => out | S l => grow l d (out ++ [nth (length out - d) out 0]) end.

Definition item_out (out : list Z) (t : item) : list Z :=
  match t with Lit b => out ++ [b] | Back d l => grow l d out end.

Definition item_ok (out : list Z) (t : item) : Prop :=
  match t with
  | Lit _ => True
  | Back d l => (1 <= d <= length out)%nat /\ Z.of_nat d <= 4096 /\ (3 <= l <= 18)%nat
  end.

Fixpoint items_ok (out : list Z) (ts : list item) : Prop :=
  match ts with [] => True | t :: ts => item_ok out t /\ items_ok (item_out out t) ts end.

Definition items_out (out : list Z) (ts : list item) : list Z := fold_left item_out ts out.

Fixpoint tag_of (bit : Z) (ts : list item) : Z :=
  match ts with
  | [] => 0
  | t :: ts => Z.lor (if is_back t then Z.shiftl 1 bit else 0) (tag_of (bit + 1) ts)
  end.

Definition items_bytes (ts : list item) : list Z := concat (item_bytes <$> ts).
Definition group_bytes (ts : list item) : list Z := tag_of 0 ts :: items_bytes ts.

(** Every group but the last has eight items. *)
Fixpoint groups_ok (gs : list (list item)) : Prop :=
  match gs with
  | [] => True
  | g :: gs => (1 <= length g <= 8)%nat /\ (length g = 8%nat \/ gs = []) /\ groups_ok gs
  end.

Definition encode (gs : list (list item)) : list Z := concat (group_bytes <$> gs).

(** A block [b] in compressed form, and as stored bytes. *)
Inductive block : list Z -> list Z -> Prop :=
| block_compressed b gs :
    groups_ok gs -> items_ok [] (concat gs) -> items_out [] (concat gs) = b ->
    (0 < length (encode gs) < length b)%nat -> (length b <= COMPRESSION_BLOCK_SIZE)%nat ->
    block b (to_le 2 (Z.lor 0x8000 (Z.of_nat (length (encode gs) - 1))) ++ encode gs)
| block_stored b :
    (0 < length b <= COMPRESSION_BLOCK_SIZE)%nat ->
    block b (to_le 2 (Z.of_nat (length b - 1)) ++ b).

(** The compressed form of some data: its blocks, all but the last of full size. *)
Inductive stream : list Z -> list Z -> Prop :=
| stream_nil : stream [] []
| stream_cons b bytes data rest :
    block b bytes -> (length b = COMPRESSION_BLOCK_SIZE \/ data = []) ->
    (length bytes <= length b + 2)%nat ->
    stream data rest -> stream (b ++ data) (bytes ++ rest).

(** The bytes decompression gives back: a last block of one byte is lost. *)
Definition kept (data : list Z) : nat :=
  if Z.of_nat (length data) mod 4096 =? 1 then (length data - 1)%nat else length data.

(** ** Lemmas *)

Lemma BLOCK_Z : Z.of_nat COMPRESSION_BLOCK_SIZE = 4096.
Proof. unfold COMPRESSION_BLOCK_SIZE. by rewrite Z2Nat.id. Qed.

Lemma length_grow l d out : length (grow l d out) = (length out + l)%nat.
Proof.
  revert out. induction l as [| l IH]; intros out; cbn [grow]; [lia |].
  rewrite IH, length_app. cbn. lia.
Qed.

Lemma grow_app l d P out :
  (d <= length out)%nat -> (1 <= d)%nat -> grow l d (P ++ out) = P ++ grow l d out.
Proof.
  revert out. induction l as [| l IH]; intros out Hd H1; cbn [grow]; [done |].
  rewrite length_app, app_nth2 by lia.
  replace (length P + length out - d - length P)%nat with (length out - d)%nat by lia.
  rewrite <- app_assoc, IH; [done | rewrite length_app; lia | done].
Qed.

Lemma items_ok_app P out ts :
  items_ok out ts -> items_ok (P ++ out) ts /\ items_out (P ++ out) ts = P ++ items_out out ts.
Proof.
  unfold items_out. revert out. induction ts as [| t ts IH]; intros out; cbn [items_ok fold_left]; [done |].
  intros [Ht Hts]. assert (item_out (P ++ out) t = P ++ item_out out t) as E.
  { destruct t; cbn in *; [by rewrite app_assoc | apply grow_app; lia]. }
  destruct (IH _ Hts) as [H1 H2]. rewrite E, H2. split_and!; [| done | done].
  destruct t; cbn in *; [done |]. rewrite length_app. lia.
Qed.

Lemma item_out_length out t :
  item_ok out t -> (length out < length (item_out out t))%nat.
Proof. destruct t; cbn; rewrite ?length_grow, ?length_app; cbn; lia. Qed.

Lemma items_out_length out ts :
  items_ok out ts -> (length out + length ts <= length (items_out out ts))%nat.
Proof.
  unfold items_out. revert out. induction ts as [| t ts IH]; intros out; cbn [items_ok fold_left length]; [lia |].
  intros [Ht Hts]. apply item_out_length in Ht. specialize (IH _ Hts). lia.
Qed.

Lemma items_out_app out ts us : items_out out (ts ++ us) = items_out (items_out out ts) us.
Proof. unfold items_out. apply fold_left_app. Qed.

Lemma items_ok_app_inv out ts us :
  items_ok out (ts ++ us) <-> items_ok out ts /\ items_ok (items_out out ts) us.
Proof.
  unfold items_out. revert out. induction ts as [| t ts IH]; intros out; cbn [items_ok app fold_left]; [naive_solver |].
  rewrite IH. naive_solver.
Qed.

Lemma tag_of_bit bit ts i :
  0 <= bit -> 0 <= i ->
  Z.testbit (tag_of bit ts) (bit + i) = match ts !! Z.to_nat i with Some t => is_back t | None => false end.
Proof.
  revert bit i. induction ts as [| t ts IH]; intros bit i Hb Hi; cbn [tag_of].
  { by rewrite Z.testbit_0_l. }
  rewrite Z.lor_spec. destruct (decide (i = 0)) as [-> | Hne].
  - assert (Z.testbit (tag_of (bit + 1) ts) (bit + 0) = false) as ->.
    { clear IH. assert (forall b, bit < b -> Z.testbit (tag_of b ts) (bit + 0) = false) as H; [| apply H; lia].
      induction ts as [| u ts IH]; intros b Hb'; cbn [tag_of]; [apply Z.testbit_0_l |].
      rewrite Z.lor_spec, IH by lia. destruct (is_back u); [| by rewrite Z.testbit_0_l].
      rewrite Z.shiftl_spec, Z.testbit_neg_r by lia. done. }
    rewrite orb_false_r, Z.add_0_r. change ((t :: ts) !! Z.to_nat 0) with (Some t). cbv iota beta.
    destruct (is_back t); [| apply Z.testbit_0_l].
    rewrite Z.shiftl_spec by lia. by replace (bit - bit) with 0 by lia.
  - replace (bit + i) with (bit + 1 + (i - 1)) by lia. rewrite IH by lia.
    replace (Z.to_nat i) with (S (Z.to_nat (i - 1))) by lia.
    change ((t :: ts) !! S (Z.to_nat (i - 1))) with (ts !! Z.to_nat (i - 1)).
    destruct (is_back t); [| by rewrite Z.testbit_0_l].
    rewrite Z.shiftl_spec by lia. replace (bit + 1 + (i - 1) - bit) with i by lia.
    destruct i as [| [p | p |] |]; try done; lia.
Qed.

Lemma token_spec d l :
  (1 <= d)%nat -> Z.of_nat d <= 4096 -> (3 <= l <= 18)%nat ->
  u_ty 16 (token d l) /\ Z.to_nat (Z.land (Z.shiftr (token d l) 12) 0x0F) = (l - 3)%nat /\
  Z.to_nat (Z.land (token d l) 0x0FFF) = (d - 1)%nat.
Proof.
  intros Hd1 Hd Hl. unfold token. rewrite lor_shiftl_add by (unfold u_ty; lia).
  change (2 ^ 12) with 4096. split; [unfold u_ty; lia |].
  rewrite Z.shiftr_div_pow2 by lia. change 0x0F with (Z.ones 4). change 0x0FFF with (Z.ones 12).
  rewrite !Z.land_ones by lia. change (2 ^ 12) with 4096. change (2 ^ 4) with 16.
  rewrite (Z.add_comm (Z.of_nat (l - 3) * 4096)), Z.div_add, Z.mod_add by lia.
  rewrite (Z.div_small (Z.of_nat (d - 1))), (Z.mod_small (Z.of_nat (d - 1))) by lia.
  rewrite Z.mod_small by lia. lia.
Qed.

Lemma copy_loop_spec l d out R :
  (1 <= d <= length out)%nat -> (l <= length R)%nat ->
  copy_loop l (out ++ R) (length out - d) (length out) = Ret (grow l d out ++ drop l R, (length out + l)%nat).
Proof.
  revert out R. induction l as [| l IH]; intros out R Hd Hl; cbn [copy_loop grow].
  { by rewrite Nat.add_0_r. }
  rewrite decide_False by (rewrite length_app; lia).
  rewrite (rd_lookup _ _ (nth (length out - d) out 0)).
  2: { rewrite lookup_app_l by lia. apply lookup_nth. lia. }
  rewrite outcome_bind_ret, wr_cursor, outcome_bind_ret by lia.
  set (b := nth _ _ _).
  assert (length (out ++ [b]) = S (length out)) as E by (rewrite length_app; cbn; lia).
  replace (S (length out - d)) with (length (out ++ [b]) - d)%nat by lia.
  rewrite <- E. rewrite IH by (rewrite ?length_drop, ?E; lia).
  rewrite E, drop_drop. do 2 f_equal. lia.
Qed.

Lemma rd_le16_0 Pre x Y : rd (Pre ++ to_le 2 x ++ Y) (length Pre) = Ret (x mod 256).
Proof. by rewrite (rd_app_0 Pre). Qed.

Lemma rd_le16_1 Pre x Y : rd (Pre ++ to_le 2 x ++ Y) (length Pre + 1) = Ret (x / 256 mod 256).
Proof. by rewrite (rd_app Pre). Qed.

Lemma le16_value x : u_ty 16 x -> from_le [x mod 256; x / 256 mod 256] = x.
Proof. apply (from_to_le 2). Qed.

Lemma length_item_bytes t : (1 <= length (item_bytes t) <= 2)%nat.
Proof. destruct t; cbn [item_bytes]; [cbn; lia | rewrite length_to_le; lia]. Qed.

Lemma items_bytes_cons t ts : items_bytes (t :: ts) = item_bytes t ++ items_bytes ts.
Proof. done. Qed.

(** The items under one tag are decoded. *)
Lemma bit_loop_spec n ts Pre Post block_end tag bit out R :
  (length ts <= n)%nat -> 0 <= bit ->
  (length Pre + length (items_bytes ts) <= block_end)%nat ->
  length ts = n \/ block_end = (length Pre + length (items_bytes ts))%nat ->
  (forall k t, ts !! k = Some t -> Z.testbit tag (bit + Z.of_nat k) = is_back t) ->
  items_ok out ts -> (length (items_out out ts) <= length out + length R)%nat ->
  let out' := items_out out ts in
  let dec' := out' ++ drop (length out' - length out) R in
  bit_loop n (Pre ++ items_bytes ts ++ Post) block_end tag bit (out ++ R) (length Pre) (length out) =
  Ret (Some (dec', (length Pre + length (items_bytes ts))%nat, length out'), dec').
Proof.
  cbv zeta. revert n Pre bit out R.
  induction ts as [| t ts IH]; intros n Pre bit out R Hn Hbit Hend Hstop Htag Hok Hfit.
  { change (items_bytes []) with (@nil Z) in *. change (items_out out []) with out in *.
    rewrite Nat.sub_diag, drop_0. cbn [length] in *. rewrite Nat.add_0_r.
    destruct n as [| n]; cbn [bit_loop]; [done |]. rewrite decide_True; [done |]. left. lia. }
  destruct n as [| n]; [cbn in Hn; lia |]. cbn [bit_loop].
  destruct Hok as [Ht Hts]. pose proof (item_out_length _ _ Ht) as Hgrow.
  pose proof (items_out_length _ _ Hts) as Hlen.
  change (items_out out (t :: ts)) with (items_out (item_out out t) ts) in *.
  rewrite items_bytes_cons in *. rewrite length_app in *. pose proof (length_item_bytes t).
  rewrite decide_False by (rewrite ?length_app; lia).
  rewrite Z.shiftl_1_l, has_bits_pow2 by lia.
  pose proof (Htag 0%nat t eq_refl) as Hbt. rewrite Z.add_0_r in Hbt. rewrite Hbt.
  assert (forall k u, ts !! k = Some u -> Z.testbit tag (bit + 1 + Z.of_nat k) = is_back u) as Htag'.
  { intros k u Hk. rewrite <- (Htag (S k) u Hk). f_equal. lia. }
  assert (forall Pre' : list Z, length Pre' = (length Pre + length (item_bytes t))%nat ->
    length ts = n \/ block_end = (length Pre' + length (items_bytes ts))%nat) as Hstop'.
  { intros Pre' ->. cbn [length] in Hstop. lia. }
  destruct t as [b | d l]; cbn [is_back negb item_bytes item_out] in *.
  - rewrite decide_False by (rewrite !length_app; cbn; lia).
    rewrite (rd_app_0 Pre) by done. rewrite (rd_lookup _ _ b) by done. rewrite outcome_bind_ret.
    destruct R as [| r R]; [cbn in Hfit; rewrite length_app in *; cbn in *; lia |].
    rewrite wr_cursor, outcome_bind_ret by (cbn; lia).
    rewrite length_app in Hgrow, Hlen. cbn [length] in *.
    replace (S (length Pre)) with (length (Pre ++ [b])) by (rewrite length_app; cbn; lia).
    replace (S (length out)) with (length (out ++ [b])) by (rewrite length_app; cbn; lia).
    rewrite <- (app_assoc [b]), (app_assoc Pre [b]). change (drop 1 (r :: R)) with R.
    rewrite (IH n (Pre ++ [b])); try done; [| lia | lia | rewrite length_app; cbn; lia | | rewrite length_app; cbn; lia].
    2: { apply Hstop'. by rewrite length_app. }
    rewrite !length_app. cbn [length].
    replace (length (items_out (out ++ [b]) ts) - length out)%nat
      with (S (length (items_out (out ++ [b]) ts) - (length out + 1))) by lia.
    rewrite skipn_cons, <- Nat.add_assoc. reflexivity.
  - destruct Ht as (Hd & Hd4 & Hl). rewrite length_grow in Hgrow, Hlen.
    destruct (token_spec d l) as (Htok & Htl & Htd); [lia | done | done |].
    rewrite decide_False by (rewrite !length_app, length_to_le; lia).
    rewrite <- (app_assoc (to_le 2 _)).
    rewrite rd_le16_0, outcome_bind_ret, rd_le16_1, outcome_bind_ret, le16_value by done.
    rewrite Htl, Htd, decide_False by lia.
    replace (length out - (d - 1 + 1))%nat with (length out - d)%nat by lia.
    replace (l - 3 + 3)%nat with l by lia.
    rewrite copy_loop_spec, outcome_bind_ret by lia.
    assert (length (Pre ++ to_le 2 (token d l)) = length Pre + 2)%nat as E2
      by (by rewrite length_app, length_to_le).
    rewrite <- E2, <- (length_grow l d out), (app_assoc Pre).
    cbn [length] in Hn, Hstop.
    rewrite (IH n (Pre ++ to_le 2 (token d l))); try done;
      rewrite ?E2, ?length_grow, ?length_drop, ?length_to_le in *; try lia.
    rewrite drop_drop, <- Nat.add_assoc.
    replace (l + (length (items_out (grow l d out) ts) - (length out + l)))%nat
      with (length (items_out (grow l d out) ts) - length out)%nat by lia.
    reflexivity.
Qed.

Lemma encode_cons g gs : encode (g :: gs) = group_bytes g ++ encode gs.
Proof. done. Qed.

Lemma length_encode_ge gs : (length gs <= length (encode gs))%nat.
Proof.
  induction gs as [| g gs IH]; [done |]. rewrite encode_cons, length_app. cbn [group_bytes length]. lia.
Qed.

(** The groups of a compressed block are decoded. *)
Lemma tag_loop_spec gs fuel Pre Post out R :
  groups_ok gs -> items_ok out (concat gs) -> (length gs < fuel)%nat ->
  let out' := items_out out (concat gs) in
  let dec' := out' ++ drop (length out' - length out) R in
  (length out' <= length out + length R)%nat ->
  tag_loop fuel (Pre ++ encode gs ++ Post) (length Pre + length (encode gs)) (out ++ R) (length Pre) (length out) =
  Ret (Some (dec', (length Pre + length (encode gs))%nat, length out'), dec').
Proof.
  cbv zeta. revert fuel Pre out R.
  induction gs as [| g gs IH]; intros fuel Pre out R Hg Hok Hfuel Hfit;
    (destruct fuel as [| fuel]; [lia |]); cbn [tag_loop].
  { change (encode []) with (@nil Z). cbn [length concat]. change (items_out out []) with out.
    rewrite decide_False by lia. by rewrite Nat.sub_diag, drop_0, Nat.add_0_r. }
  destruct Hg as (Hg & Hlast & Hgs). cbn [concat] in *.
  apply items_ok_app_inv in Hok as [Hok Hoks]. rewrite items_out_app in *.
  pose proof (items_out_length _ _ Hok). pose proof (items_out_length _ _ Hoks).
  rewrite encode_cons. unfold group_bytes. rewrite length_app. cbn [length].
  rewrite decide_True by (rewrite length_app; lia).
  rewrite decide_False by (rewrite !length_app; cbn; lia).
  rewrite (rd_app_0 Pre) by done. rewrite (rd_lookup _ _ (tag_of 0 g)), outcome_bind_ret by done.
  set (Pre' := Pre ++ [tag_of 0 g]).
  assert (length Pre' = S (length Pre)) as EP by (unfold Pre'; rewrite length_app; cbn; lia).
  assert (Pre ++ ((tag_of 0 g :: items_bytes g) ++ encode gs) ++ Post
          = Pre' ++ items_bytes g ++ (encode gs ++ Post)) as ->.
  { unfold Pre'. by rewrite <- !app_assoc. }
  rewrite <- EP.
  rewrite bit_loop_spec; [| lia | lia | lia | | | done | lia].
  2: { destruct Hlast as [-> | ->]; [by left | right]. change (encode []) with (@nil Z). cbn. lia. }
  2: { intros k t Hk. rewrite tag_of_bit, Nat2Z.id, Hk by lia. done. }
  rewrite outcome_bind_ret.
  set (out1 := items_out out g) in *.
  set (Pre2 := Pre' ++ items_bytes g).
  assert (length Pre2 = length Pre' + length (items_bytes g))%nat as EP2 by (unfold Pre2; by rewrite length_app).
  rewrite <- EP2. rewrite (app_assoc Pre').  fold Pre2.
  replace (length Pre + (S (length (items_bytes g)) + length (encode gs)))%nat
    with (length Pre2 + length (encode gs))%nat by lia.
  rewrite IH; [| done | done | cbn in Hfuel; lia | rewrite length_drop; lia].
  rewrite drop_drop.
  replace (length out1 - length out + (length (items_out out1 (concat gs)) - length out1))%nat
    with (length (items_out out1 (concat gs)) - length out)%nat by lia.
  reflexivity.
Qed.

Lemma header_spec x :
  0 <= x < 4096 ->
  (has_bits x 0x8000 = false /\ header_block_size x = Z.to_nat (x + 1)) /\
  (u_ty 16 (Z.lor 0x8000 x) /\ has_bits (Z.lor 0x8000 x) 0x8000 = true /\
   header_block_size (Z.lor 0x8000 x) = Z.to_nat (x + 1)).
Proof.
  intros Hx. assert (Z.land x 0x8000 = 0) as E0.
  { apply Z.bits_inj'. intros i Hi. rewrite Z.land_spec, Z.testbit_0_l. change 0x8000 with (2 ^ 15).
    rewrite Z.pow2_bits_eqb by lia. destruct (Z.eqb_spec 15 i) as [<- |]; [| by rewrite andb_false_r].
    by rewrite (u_ty_testbit 12 x) by (unfold u_ty; lia). }
  assert (Z.lor 0x8000 x = 0x8000 + x) as E1.
  { change 0x8000 with (1 * 2 ^ 15). apply lor_mul_add; unfold u_ty; lia. }
  unfold header_block_size, has_bits. change 0x0FFF with (Z.ones 12). rewrite !Z.land_ones by lia.
  change (2 ^ 12) with 4096. rewrite E1. split_and!.
  - by rewrite E0.
  - by rewrite Z.mod_small by lia.
  - unfold u_ty. lia.
  - rewrite <- E1, Z.land_lor_distr_l, E0. done.
  - f_equal. f_equal. change 0x8000 with (8 * 4096). rewrite Z.add_comm, Z.mod_add, Z.mod_small; lia.
Qed.

Lemma block_length b bytes : block b bytes -> (0 < length b <= COMPRESSION_BLOCK_SIZE)%nat.
Proof. intros [b' gs ? ? ? ? | b' ?]; lia. Qed.

Lemma kept_app b data :
  length b = COMPRESSION_BLOCK_SIZE -> kept (b ++ data) = (length b + kept data)%nat.
Proof.
  intros E. unfold kept. rewrite length_app, Nat2Z.inj_add, E, BLOCK_Z.
  rewrite Z.add_comm, <- (Z.mul_1_l 4096) at 1. rewrite Z.mod_add by lia.
  destruct (Z.eqb_spec (Z.of_nat (length data) mod 4096) 1) as [Hm |]; [| done].
  destruct (length data); [done |]. lia.
Qed.

Lemma kept_le data : (kept data <= length data)%nat.
Proof. unfold kept. destruct (_ =? _); lia. Qed.

(** One iteration of [block_loop] on a block, unless it is stored and of one byte. *)
Lemma block_step b bytes rest fuel Pre out R :
  block b bytes -> bytes <> to_le 2 0 ++ b -> (length b <= length R)%nat ->
  block_loop (S fuel) (Pre ++ bytes ++ rest) (out ++ R) (length Pre) (length out) =
  block_loop fuel ((Pre ++ bytes) ++ rest) ((out ++ b) ++ drop (length b) R)
    (length (Pre ++ bytes)) (length (out ++ b)).
Proof.
  intros Hb Hne HR. pose proof (block_length _ _ Hb) as Hbl. pose proof BLOCK_Z.
  cbn [block_loop]. destruct Hb as [b gs Hg Hok Hout Henc Hcap | b Hcap].
  - destruct (header_spec (Z.of_nat (length (encode gs) - 1))) as [_ (Hu & Hh & Hs)]; [lia |].
    set (x := Z.lor _ _) in *.
    rewrite decide_True by (rewrite !length_app, length_to_le; lia).
    rewrite decide_False by (rewrite !length_app, length_to_le; lia).
    rewrite <- (app_assoc (to_le 2 x)).
    rewrite rd_le16_0, outcome_bind_ret, rd_le16_1, outcome_bind_ret, le16_value by done.
    destruct (Z.eqb_spec x 0) as [E0 |]; [by rewrite E0 in Hh |].
    unfold header_is_compressed. rewrite Hh, Hs. cbn [negb].
    replace (Z.to_nat (Z.of_nat (length (encode gs) - 1) + 1)) with (length (encode gs)) by lia.
    destruct (items_ok_app out [] (concat gs) Hok) as [Hok' Hout']. rewrite app_nil_r in Hok', Hout'.
    rewrite Hout in Hout'.
    assert (length (Pre ++ to_le 2 x) = length Pre + 2)%nat as EP by (by rewrite length_app, length_to_le).
    rewrite <- EP, (app_assoc Pre), tag_loop_spec, outcome_bind_ret; [| done | done | | rewrite Hout', length_app; lia].
    2: { pose proof (length_encode_ge gs). rewrite !length_app. lia. }
    rewrite Hout', (app_assoc Pre), !length_app. rewrite <- (app_assoc _ (encode gs) rest).
    by replace (length out + length b - length out)%nat with (length b) by lia.
  - destruct (header_spec (Z.of_nat (length b - 1))) as [(Hh & Hs) _]; [lia |].
    set (x := Z.of_nat (length b - 1)) in *.
    rewrite decide_True by (rewrite !length_app, length_to_le; lia).
    rewrite decide_False by (rewrite !length_app, length_to_le; lia).
    rewrite <- (app_assoc (to_le 2 x)).
    rewrite rd_le16_0, outcome_bind_ret, rd_le16_1, outcome_bind_ret, le16_value by (unfold u_ty; lia).
    destruct (Z.eqb_spec x 0) as [E0 |]; [by rewrite E0 in Hne |].
    unfold header_is_compressed. rewrite Hh, Hs. cbn [negb].
    replace (Z.to_nat (x + 1)) with (length b) by lia.
    assert (length (Pre ++ to_le 2 x) = length Pre + 2)%nat as EP by (by rewrite length_app, length_to_le).
    rewrite (Nat.min_l (length b)) by (rewrite length_app; lia).
    rewrite Nat.min_l by (rewrite !length_app, length_to_le; lia).
    rewrite <- EP, (app_assoc Pre), slice_app, outcome_bind_ret by done.
    rewrite copy_cursor, outcome_bind_ret by done.
    rewrite (app_assoc Pre), !length_app. by rewrite <- (app_assoc _ b rest).
Qed.

Lemma block_one b bytes : block b bytes -> bytes = to_le 2 0 ++ b <-> length b = 1%nat.
Proof.
  intros Hb. pose proof BLOCK_Z. destruct Hb as [b gs Hg Hok Hout Henc Hcap | b Hcap].
  - split; [| lia]. intros [E _]%app_inj_1; [| by rewrite !length_to_le].
    destruct (header_spec (Z.of_nat (length (encode gs) - 1))) as [_ (Hu & Hh & _)]; [lia |].
    apply (f_equal from_le) in E. rewrite !from_to_le in E by (done || by unfold u_ty).
    by rewrite E in Hh.
  - split; [| by intros ->]. intros [E _]%app_inj_1; [| by rewrite !length_to_le].
    apply (f_equal from_le) in E. rewrite !from_to_le in E by (unfold u_ty; cbn; lia). lia.
Qed.

Lemma stream_nil_inv rest : stream [] rest -> rest = [].
Proof.
  remember [] as data eqn:E. destruct 1 as [| b bytes data rest Hb _ _ _]; [done |].
  apply app_eq_nil in E as [-> _]. apply block_length in Hb. cbn in Hb. lia.
Qed.

(** A compressed stream is decoded. *)
Lemma block_loop_spec data bytes :
  stream data bytes -> forall fuel Pre out R,
  (length data <= length R)%nat -> (length bytes < fuel)%nat ->
  block_loop fuel (Pre ++ bytes) (out ++ R) (length Pre) (length out) =
  Ret (inl (length out + kept data)%nat, out ++ take (kept data) data ++ drop (kept data) R).
Proof.
  induction 1 as [| b bytes data rest Hb Hlast Hlen Hs IH]; intros fuel Pre out R HR Hfuel;
    (destruct fuel as [| fuel]; [lia |]).
  { cbn [block_loop]. rewrite decide_False by (rewrite !app_nil_r; lia). cbn. by rewrite Nat.add_0_r. }
  pose proof (block_length _ _ Hb) as Hbl. rewrite !length_app in HR, Hfuel. pose proof BLOCK_Z.
  assert (2 <= length bytes)%nat by (destruct Hb; rewrite length_app, length_to_le; lia).
  destruct (decide (bytes = to_le 2 0 ++ b)) as [E | Hne].
  - apply (block_one _ _ Hb) in E as E1. subst bytes.
    destruct Hlast as [| ->]; [lia |]. apply stream_nil_inv in Hs as ->. rewrite !app_nil_r.
    cbn [block_loop]. rewrite decide_True by (rewrite !length_app, length_to_le; lia).
    rewrite decide_False by (rewrite !length_app, length_to_le; lia).
    rewrite rd_le16_0, outcome_bind_ret, rd_le16_1, outcome_bind_ret. cbn [Z.eqb from_le].
    unfold kept. rewrite E1. cbn. by rewrite Nat.add_0_r.
  - rewrite (block_step b bytes) by (done || lia). rewrite IH by (rewrite ?length_drop; lia).
    rewrite length_app, <- app_assoc.
    assert (kept (b ++ data) = length b + kept data)%nat as ->.
    { destruct Hlast as [| ->]; [by apply kept_app |]. unfold kept. rewrite app_nil_r. cbn [length].
      change (Z.of_nat 0 mod 4096 =? 1) with false. rewrite Nat.add_0_r.
      destruct (Z.eqb_spec (Z.of_nat (length b) mod 4096) 1) as [Em |]; [| done]. exfalso.
      apply Hne, (block_one _ _ Hb). rewrite Z.mod_eq in Em by lia. lia. }
    rewrite Nat.add_assoc, drop_drop, take_app_add. by rewrite <- app_assoc.
Qed.

(** [l] bytes at [pos] repeat the bytes [d] back. *)
Definition repeats (data : list Z) (pos d l : nat) : Prop :=
  (pos + l <= length data)%nat /\ (l <= 18)%nat /\
  forall k, (k < l)%nat -> data !! (pos - d + k)%nat = data !! (pos + k)%nat.

Lemma match_loop_spec fuel data pos d len :
  (19 <= fuel + len)%nat -> (1 <= d <= pos)%nat -> repeats data pos d len ->
  exists l, match_loop fuel data (pos - d) pos len = Ret l /\ repeats data pos d l.
Proof.
  revert len. induction fuel as [| fuel IH]; intros len Hf Hd Hr; pose proof Hr as (Hp & H18 & Hk); [lia |].
  cbn [match_loop]. destruct (decide (pos + len < length data)%nat); [| eauto].
  destruct (lookup_lt_is_Some_2 data (pos + len)) as [b Hb]; [lia |].
  destruct (lookup_lt_is_Some_2 data (pos - d + len)) as [a Ha]; [lia |].
  rewrite (rd_lookup _ _ _ Ha), outcome_bind_ret, (rd_lookup _ _ _ Hb), outcome_bind_ret.
  destruct (Z.eqb_spec a b) as [-> |]; cbn [andb]; [| eauto].
  case_bool_decide; [| eauto]. apply IH; [lia | done |].
  split_and!; [lia | lia |]. intros k Hkl. destruct (decide (k = len)) as [-> |]; [by rewrite Ha, Hb |].
  apply Hk. lia.
Qed.

Lemma best_loop_spec n data i pos bd bl :
  (i + n = pos)%nat -> Z.of_nat (pos - i) <= 4095 ->
  (bl = 0%nat \/ (1 <= bd <= pos)%nat /\ Z.of_nat bd <= 4095) -> (pos <= length data)%nat ->
  repeats data pos bd bl ->
  exists d l, best_loop n data i pos bd bl = Ret (d, l) /\ repeats data pos d l /\
    (l = 0%nat \/ (1 <= d <= pos)%nat /\ Z.of_nat d <= 4095).
Proof.
  revert i bd bl. induction n as [| n IH]; intros i bd bl Hi Hw Hb Hp Hr; cbn [best_loop]; [eauto |].
  destruct (match_loop_spec 19 data pos (pos - i) 0) as (l & Hl & Hrl); [lia | lia | |].
  { split_and!; [lia | lia |]. intros k Hk. lia. }
  replace (pos - (pos - i))%nat with i in Hl by lia. rewrite Hl, outcome_bind_ret.
  destruct (decide (bl < l)%nat); apply IH; try done; lia.
Qed.

Lemma find_best_match_spec data pos :
  (pos <= length data)%nat ->
  exists d l, find_best_match data pos = Ret (d, l) /\ repeats data pos d l /\
    (l = 0%nat \/ (1 <= d <= pos)%nat /\ Z.of_nat d <= 4095).
Proof.
  intros Hp. unfold find_best_match. apply best_loop_spec; try lia.
  split_and!; [lia | lia |]. intros k Hk. lia.
Qed.

Lemma grow_take l d data pos :
  (1 <= d <= pos)%nat -> repeats data pos d l -> grow l d (take pos data) = take (pos + l) data.
Proof.
  revert pos. induction l as [| l IH]; intros pos Hd (Hp & H18 & Hk); cbn [grow]; [by rewrite Nat.add_0_r |].
  assert (take pos data ++ [nth (length (take pos data) - d) (take pos data) 0] = take (S pos) data) as ->.
  { destruct (lookup_lt_is_Some_2 data pos) as [x Hx]; [lia |].
    rewrite (take_S_r _ _ _ Hx). f_equal. f_equal. rewrite length_take, Nat.min_l by lia.
    apply (inj Some). rewrite <- Hx, <- lookup_nth by (rewrite length_take; lia).
    rewrite lookup_take_lt by lia. specialize (Hk 0%nat ltac:(lia)). rewrite !Nat.add_0_r in Hk. done. }
  rewrite IH; [f_equal; lia | lia |]. split_and!; [lia | lia |]. intros k Hkl.
  specialize (Hk (S k) ltac:(lia)). replace (S pos - d + k)%nat with (pos - d + S k)%nat by lia.
  rewrite Hk. f_equal. lia.
Qed.

(** The items of one group reproduce the data up to the new position. *)
Lemma item_loop_spec n data bit tag output pos :
  (pos <= length data)%nat ->
  exists ts pos', item_loop n data bit tag output pos =
      Ret (Z.lor tag (tag_of bit ts), output ++ items_bytes ts, pos') /\
    items_ok (take pos data) ts /\ items_out (take pos data) ts = take pos' data /\
    (pos <= pos' <= length data)%nat /\ (length ts <= n)%nat /\
    (length ts = n \/ pos' = length data) /\ ((0 < n)%nat -> (pos < length data)%nat -> ts <> []).
Proof.
  revert bit tag output pos. induction n as [| n IH]; intros bit tag output pos Hp; cbn [item_loop].
  { exists [], pos. cbn [tag_of length items_ok]. change (items_bytes []) with (@nil Z).
    rewrite Z.lor_0_r, app_nil_r. split_and!; try done; lia. }
  destruct (decide (length data <= pos)%nat).
  { exists [], pos. cbn [tag_of length items_ok]. change (items_bytes []) with (@nil Z).
    rewrite Z.lor_0_r, app_nil_r. split_and!; try done; lia. }
  destruct (find_best_match_spec data pos Hp) as (d & l & -> & Hr & Hd). rewrite outcome_bind_ret.
  destruct (decide (3 <= l)%nat).
  - destruct Hd as [-> | [Hd Hd4]]; [lia |]. pose proof Hr as (Hpl & H18 & _).
    destruct (IH (bit + 1) (Z.lor tag (Z.shiftl 1 bit)) (output ++ to_le 2 (token d l)) (pos + l)%nat)
      as (ts & pos' & E & Hok & Hout & Hpos & Hn & Hstop & _); [done |].
    exists (Back d l :: ts), pos'.
    replace (Z.lor (wrap 16 (wrap 16 (Z.of_nat (l - 3)) ≪ 12)) (wrap 16 (Z.of_nat (d - 1))))
      with (token d l).
    2: { unfold token. rewrite (wrap_small 16 (Z.of_nat (l - 3))), (wrap_small 16 (Z.of_nat (d - 1)))
           by (unfold u_ty; lia). rewrite wrap_small; [done |].
         rewrite Z.shiftl_mul_pow2 by lia. unfold u_ty. lia. }
    rewrite E. rewrite items_bytes_cons, app_assoc. cbn [tag_of is_back item_bytes items_ok item_ok].
    rewrite Z.lor_assoc. split_and!; try done; try lia.
    + rewrite length_take. lia.
    + cbn [item_out]. by rewrite grow_take.
    + unfold items_out in *. cbn [fold_left item_out]. by rewrite grow_take.
    + cbn [length]. lia.
    + cbn [length]. lia.
  - destruct (lookup_lt_is_Some_2 data pos) as [b Hb]; [lia |].
    rewrite (rd_lookup _ _ _ Hb), outcome_bind_ret.
    destruct (IH (bit + 1) tag (output ++ [b]) (S pos)) as (ts & pos' & E & Hok & Hout & Hpos & Hn & Hstop & _); [lia |].
    exists (Lit b :: ts), pos'. rewrite E, items_bytes_cons, app_assoc.
    cbn [tag_of is_back item_bytes items_ok item_ok]. rewrite Z.lor_0_l.
    assert (item_out (take pos data) (Lit b) = take (S pos) data) as Eo by (by rewrite (take_S_r _ _ _ Hb)).
    unfold items_out in *. cbn [fold_left]. rewrite Eo. split_and!; try done; cbn [length]; lia.
Qed.

Lemma group_loop_spec fuel data output pos :
  (pos <= length data)%nat -> (length data - pos < fuel)%nat ->
  exists gs, group_loop fuel data output pos = Ret (output ++ encode gs) /\ groups_ok gs /\
    items_ok (take pos data) (concat gs) /\ items_out (take pos data) (concat gs) = data /\
    ((pos < length data)%nat -> gs <> []).
Proof.
  revert output pos. induction fuel as [| fuel IH]; intros output pos Hp Hf; [lia |].
  cbn [group_loop]. destruct (decide (pos < length data)%nat).
  2: { exists []. change (encode []) with (@nil Z). rewrite app_nil_r. cbn.
       rewrite take_ge by lia. split_and!; done || lia. }
  destruct (item_loop_spec 8 data 0 0 (output ++ [0]) pos Hp)
    as (ts & pos' & E & Hok & Hout & Hpos & Hn & Hstop & Hne).
  rewrite E, outcome_bind_ret, <- app_assoc, wr_cursor, outcome_bind_ret by (done || cbn; lia).
  rewrite Z.lor_0_l. cbn [app]. rewrite skipn_cons, drop_0.
  specialize (Hne ltac:(lia) ltac:(lia)). pose proof (items_out_length _ _ Hok) as Hl.
  rewrite Hout, !length_take in Hl. assert (0 < length ts)%nat by (destruct ts; [done | cbn; lia]).
  destruct (IH ((output ++ [tag_of 0 ts]) ++ items_bytes ts) pos') as (gs & Eg & Hg & Hoks & Houts & Hnes); [lia | lia |].
  exists (ts :: gs). rewrite Eg, encode_cons. unfold group_bytes. rewrite <- !app_assoc. cbn [app concat groups_ok].
  rewrite items_ok_app_inv, items_out_app, Hout. split_and!; try done; try lia.
  destruct Hstop as [| ->]; [by left | right]. destruct gs as [| g gs]; [done |]. exfalso.
  rewrite take_ge in Hoks, Houts by lia. pose proof (items_out_length _ _ Hoks) as Hl2. rewrite Houts in Hl2.
  cbn [concat] in Hl2. rewrite length_app in Hl2. destruct Hg as [Hg _]. lia.
Qed.

Lemma compress_block_spec b :
  (0 < length b)%nat ->
  exists gs, compress_block b = Ret (encode gs) /\ groups_ok gs /\ items_ok [] (concat gs) /\
    items_out [] (concat gs) = b /\ (0 < length (encode gs))%nat.
Proof.
  intros Hb. destruct (group_loop_spec (S (length b)) b [] 0) as (gs & E & Hg & Hok & Hout & Hne); [lia | lia |].
  rewrite take_0 in Hok, Hout. exists gs. split_and!; try done.
  destruct gs as [| g gs]; [by specialize (Hne Hb) |]. rewrite encode_cons. cbn. lia.
Qed.

(** A stream is at most two bytes per block longer than the data. *)
Lemma stream_length data bytes :
  stream data bytes ->
  Z.of_nat (length bytes) <= Z.of_nat (length data) + 2 * ((Z.of_nat (length data) + 4095) / 4096).
Proof.
  induction 1 as [| b bytes data rest Hb Hlast Hlen Hs IH]; [done |]. pose proof BLOCK_Z.
  pose proof (block_length _ _ Hb). rewrite !length_app, !Nat2Z.inj_add.
  destruct Hlast as [E | ->].
  - replace (Z.of_nat (length b) + Z.of_nat (length data) + 4095)
      with (Z.of_nat (length data) + 4095 + 1 * 4096) by lia.
    rewrite Z.div_add by lia. lia.
  - apply stream_nil_inv in Hs as ->. cbn [length].
    assert (1 <= (Z.of_nat (length b) + Z.of_nat 0 + 4095) / 4096) by (apply Z.div_le_lower_bound; lia). lia.
Qed.

(** What a call of the compressor returns for [data], given the room [R] behind [A]. *)
Definition compressed_into (data A R : list Z) (res : outcome ((nat + Z) * list Z)) : Prop :=
  exists bytes r buf, stream data bytes /\ res = Ret (r, buf) /\
    if decide (length bytes <= length R)%nat
    then r = inl (length A + length bytes)%nat /\ buf = A ++ bytes ++ drop (length bytes) R
    else r = inr STATUS_UNSUCCESSFUL.

Lemma compress_step b bytes data A R res :
  block b bytes -> (length b = COMPRESSION_BLOCK_SIZE \/ data = []) ->
  (length bytes <= length b + 2)%nat -> (length bytes <= length R)%nat ->
  compressed_into data (A ++ bytes) (drop (length bytes) R) res -> compressed_into (b ++ data) A R res.
Proof.
  intros Hb Hlast Hlen HR (rest & r & buf & Hs & -> & Hr).
  exists (bytes ++ rest), r, buf. split_and!; [by constructor | done |].
  rewrite length_drop in Hr. rewrite length_app.
  destruct (decide (length rest <= length R - length bytes)%nat); [| by rewrite decide_False by lia].
  rewrite decide_True by lia. destruct Hr as [-> ->]. rewrite length_app, drop_drop, !app_assoc.
  split; [f_equal; lia | done].
Qed.

Lemma compress_full b bytes data rest A R buf :
  block b bytes -> (length b = COMPRESSION_BLOCK_SIZE \/ data = []) ->
  (length bytes <= length b + 2)%nat -> (length R < length bytes)%nat -> stream data rest ->
  compressed_into (b ++ data) A R (Ret (inr STATUS_UNSUCCESSFUL, buf)).
Proof.
  intros Hb Hlast Hlen HR Hs. eexists (bytes ++ rest), _, _. split_and!; [by constructor | done |].
  rewrite decide_False; [done |]. rewrite length_app. lia.
Qed.

Lemma put_two (A R hdr body : list Z) :
  length hdr = 2%nat ->
  (A ++ hdr ++ body) ++ drop (length (hdr ++ body)) R =
  ((A ++ hdr) ++ body) ++ drop (length body) (drop (length hdr) R).
Proof. intros E. by rewrite length_app, drop_drop, !app_assoc. Qed.

(** The compressor writes a stream of the data, if there is room for it. *)
Lemma compress_loop_spec fuel data A R src :
  (src <= length data)%nat -> (length data - src < fuel)%nat ->
  compressed_into (drop src data) A R (compress_loop fuel data (A ++ R) src (length A)).
Proof.
  revert A R src. induction fuel as [| fuel IH]; intros A R src Hs Hf; [lia |]. cbn [compress_loop].
  destruct (decide (src < length data)%nat).
  2: { exists [], (inl (length A)), (A ++ R). rewrite drop_ge by lia. split_and!; [constructor | done |].
       rewrite decide_True by (cbn; lia). cbn. by rewrite Nat.add_0_r. }
  set (n := Nat.min COMPRESSION_BLOCK_SIZE (length data - src)).
  assert (0 < n <= COMPRESSION_BLOCK_SIZE /\ n <= length data - src)%nat as Hn.
  { pose proof BLOCK_Z. unfold n. lia. }
  rewrite slice_in, outcome_bind_ret by lia.
  replace (src + n - src)%nat with n by lia. set (b := take n (drop src data)).
  assert (length b = n) as Eb by (unfold b; rewrite length_take, length_drop; lia).
  destruct (compress_block_spec b) as (gs & -> & Hg & Hok & Hout & Henc); [lia |].
  rewrite outcome_bind_ret.
  assert (drop src data = b ++ drop (src + n) data) as Ed by (unfold b; rewrite <- drop_drop; by rewrite take_drop).
  assert (length b = COMPRESSION_BLOCK_SIZE \/ drop (src + n) data = []) as Hlast.
  { rewrite Eb. unfold n. destruct (decide (COMPRESSION_BLOCK_SIZE <= length data - src)%nat); [left; lia | right].
    apply drop_ge. lia. }
  rewrite Ed. clear Ed. pose proof (IH [] [] (src + n)%nat ltac:(lia) ltac:(lia)) as (rest & _ & _ & Hrest & _ & _).
  pose proof BLOCK_Z.
  destruct (decide (length (encode gs) < n)%nat).
  - rewrite (wrap_small 16) by (unfold u_ty; lia). set (hdr := to_le 2 _).
    assert (block b (hdr ++ encode gs)) as Hb by (apply block_compressed; done || lia).
    assert (length hdr = 2)%nat as Eh by apply length_to_le.
    assert (length (hdr ++ encode gs) = 2 + length (encode gs))%nat as Ebytes by (by rewrite length_app, Eh).
    rewrite length_app.
    destruct (decide (length A + length R < length A + 2 + length (encode gs))%nat).
    { eapply compress_full; [done | done | lia | lia | done]. }
    rewrite (copy_cursor A R hdr), outcome_bind_ret by (rewrite ?Eh; done || lia).
    rewrite slice_in, outcome_bind_ret by lia. rewrite Nat.sub_0_r, drop_0, firstn_all.
    rewrite copy_cursor, outcome_bind_ret by (rewrite ?length_app, ?length_drop, ?Eh; lia).
    apply (compress_step b (hdr ++ encode gs)); [done | done | lia | lia |].
    rewrite <- (put_two A R hdr (encode gs) Eh), Ebytes.
    specialize (IH (A ++ hdr ++ encode gs) (drop (length (hdr ++ encode gs)) R) (src + n)%nat ltac:(lia) ltac:(lia)).
    rewrite (length_app A), Ebytes, Nat.add_assoc in IH. exact IH.
  - rewrite (wrap_small 16) by (unfold u_ty; lia).
    replace (Z.of_nat (n - 1)) with (Z.of_nat (length b - 1)) by lia. set (hdr := to_le 2 _).
    assert (block b (hdr ++ b)) as Hb by (apply block_stored; lia).
    assert (length hdr = 2)%nat as Eh by apply length_to_le.
    assert (length (hdr ++ b) = 2 + n)%nat as Ebytes by (by rewrite length_app, Eh, Eb).
    rewrite length_app. destruct (decide (length A + length R < length A + 2 + n)%nat).
    { eapply compress_full; [done | done | lia | lia | done]. }
    rewrite (copy_cursor A R hdr), outcome_bind_ret by (rewrite ?Eh; done || lia).
    rewrite copy_cursor, outcome_bind_ret by (rewrite ?length_app, ?length_drop, ?Eh; lia).
    apply (compress_step b (hdr ++ b)); [done | done | lia | lia |].
    rewrite <- (put_two A R hdr b Eh), Ebytes.
    specialize (IH (A ++ hdr ++ b) (drop (length (hdr ++ b)) R) (src + n)%nat ltac:(lia) ltac:(lia)).
    rewrite (length_app A), Ebytes, Nat.add_assoc in IH. exact IH.
Qed.

(** The state of the decompressor stays inside its buffers, whatever the input. *)
Lemma copy_loop_total n dec from dst :
  (from < dst <= length dec)%nat ->
  exists dec' dst', copy_loop n dec from dst = Ret (dec', dst') /\ length dec' = length dec /\
    (dst <= dst' <= length dec)%nat.
Proof.
  revert dec from dst. induction n as [| n IH]; intros dec from dst H; cbn [copy_loop]; [eauto 6 with lia |].
  destruct (decide (length dec <= dst)%nat); [eauto 6 with lia |].
  destruct (lookup_lt_is_Some_2 dec from) as [b Hb]; [lia |].
  rewrite (rd_lookup _ _ _ Hb), outcome_bind_ret, wr_in, outcome_bind_ret by lia.
  destruct (IH (<[dst := b]> dec) (S from) (S dst)) as (dec' & dst' & -> & Hl & Hd);
    rewrite length_insert in *; [lia |]. exists dec', dst'. split_and!; done || lia.
Qed.

Definition inside (compressed dec : list Z) (src : nat)
    (res : outcome (option (list Z * nat * nat) * list Z)) : Prop :=
  exists r dec', res = Ret (r, dec') /\ length dec' = length dec /\
    match r with
    | None => True
    | Some (d, s, t) => d = dec' /\ (src <= s)%nat /\ (t <= length dec)%nat
    end.

Lemma inside_le compressed dec dec1 src src1 res :
  length dec1 = length dec -> (src <= src1)%nat ->
  inside compressed dec1 src1 res -> inside compressed dec src res.
Proof.
  intros E Hle (r & dec' & -> & Hl & Hr). exists r, dec'. rewrite <- E. split_and!; [done | done |].
  destruct r as [[[d s] t] |]; [| done]. destruct Hr as (-> & ? & ?). split_and!; done || lia.
Qed.

Lemma bit_loop_total n compressed block_end tag bit dec src dst :
  (dst <= length dec)%nat -> inside compressed dec src (bit_loop n compressed block_end tag bit dec src dst).
Proof.
  revert bit dec src dst. induction n as [| n IH]; intros bit dec src dst Hd; cbn [bit_loop].
  { unfold inside. eauto 8. }
  destruct (decide (block_end <= src \/ length dec <= dst)%nat); [unfold inside; by eauto 8 |].
  destruct (has_bits tag (Z.shiftl 1 bit)); cbn [negb].
  - destruct (decide (length compressed <= src + 1)%nat); [unfold inside; by eauto 8 |].
    destruct (lookup_lt_is_Some_2 compressed src) as [b0 H0]; [lia |].
    destruct (lookup_lt_is_Some_2 compressed (src + 1)) as [b1 H1]; [lia |].
    rewrite (rd_lookup _ _ _ H0), outcome_bind_ret, (rd_lookup _ _ _ H1), outcome_bind_ret.
    set (token := from_le _). set (distance := (_ + 1)%nat).
    destruct (decide (dst < distance)%nat); [unfold inside; by eauto 8 |].
    destruct (copy_loop_total (Z.to_nat (Z.land (token ≫ 12) 15) + 3) dec (dst - distance) dst)
      as (dec' & dst' & -> & Hl & Hd'); [lia |].
    rewrite outcome_bind_ret. apply (inside_le _ _ dec' _ (src + 2)); [done | lia |]. apply IH. lia.
  - destruct (decide (length compressed <= src)%nat); [unfold inside; by eauto 8 |].
    destruct (lookup_lt_is_Some_2 compressed src) as [b0 H0]; [lia |].
    rewrite (rd_lookup _ _ _ H0), outcome_bind_ret, wr_in, outcome_bind_ret by lia.
    apply (inside_le _ _ (<[dst := b0]> dec) _ (S src)); [by rewrite length_insert | lia |].
    apply IH. rewrite length_insert. lia.
Qed.

Lemma tag_loop_total fuel compressed block_end dec src dst :
  (dst <= length dec)%nat -> (length compressed - src < fuel)%nat ->
  inside compressed dec src (tag_loop fuel compressed block_end dec src dst).
Proof.
  revert dec src dst. induction fuel as [| fuel IH]; intros dec src dst Hd Hf; [lia |]. cbn [tag_loop].
  destruct (decide (src < block_end /\ dst < length dec)%nat); [| unfold inside; by eauto 8].
  destruct (decide (length compressed <= src)%nat); [unfold inside; by eauto 8 |].
  destruct (lookup_lt_is_Some_2 compressed src) as [b0 H0]; [lia |].
  rewrite (rd_lookup _ _ _ H0), outcome_bind_ret.
  destruct (bit_loop_total 8 compressed block_end b0 0 dec (S src) dst Hd) as (r & dec' & -> & Hl & Hr).
  rewrite outcome_bind_ret. destruct r as [[[d s] t] |]; [| unfold inside; by eauto 8].
  destruct Hr as (-> & Hs & Ht). apply (inside_le _ _ dec' _ s); [done | lia |]. apply IH; lia.
Qed.

Lemma block_loop_total fuel compressed dec src dst :
  (dst <= length dec)%nat -> (length compressed - src < fuel)%nat ->
  exists r dec', block_loop fuel compressed dec src dst = Ret (r, dec') /\ length dec' = length dec /\
    forall n, r = inl n -> (n <= length dec)%nat.
Proof.
  revert dec src dst. induction fuel as [| fuel IH]; intros dec src dst Hd Hf; [lia |]. cbn [block_loop].
  assert (exists r dec', @Ret ((nat + Z) * list Z) (inl dst, dec) = Ret (r, dec') /\ length dec' = length dec /\
    forall n, r = inl n -> (n <= length dec)%nat) as Hstop.
  { eexists _, _. split_and!; [done | done |]. by intros n [= <-]. }
  destruct (decide (src < length compressed /\ dst < length dec)%nat); [| done].
  destruct (decide (length compressed < src + 2)%nat); [done |].
  destruct (lookup_lt_is_Some_2 compressed src) as [b0 H0]; [lia |].
  destruct (lookup_lt_is_Some_2 compressed (src + 1)) as [b1 H1]; [lia |].
  rewrite (rd_lookup _ _ _ H0), outcome_bind_ret, (rd_lookup _ _ _ H1), outcome_bind_ret.
  set (header := from_le _). destruct (header =? 0); [done |].
  destruct (header_is_compressed header); cbn [negb].
  - destruct (tag_loop_total (S (length compressed)) compressed (src + 2 + header_block_size header) dec (src + 2) dst)
      as (r & dec' & -> & Hl & Hr); [done | lia |].
    rewrite outcome_bind_ret. destruct r as [[[d s] t] |].
    + destruct Hr as (-> & Hs & Ht). rewrite <- Hl. apply IH; lia.
    + eexists _, _. split_and!; [done | done |]. by intros ? [=].
  - set (k := Nat.min _ _). assert (k <= length dec - dst /\ k <= length compressed - (src + 2))%nat as Hk by (unfold k; lia).
    rewrite slice_in, outcome_bind_ret by lia. set (xs := take _ _).
    assert (length xs = k) as Ex by (unfold xs; rewrite length_take, length_drop; lia).
    rewrite copy_at_in, outcome_bind_ret by lia.
    assert (length (take dst dec ++ xs ++ drop (dst + length xs) dec) = length dec) as El
      by (rewrite !length_app, length_take, length_drop; lia).
    rewrite <- El. apply IH; rewrite ?El; lia.
Qed.

(** ** Properties *)

(** C40: Decompression is safe on arbitrary bytes: it returns without an out-of-range access,
    with a length that fits the output buffer, and its loops are bounded by the input. *)
Theorem decompress_total (compressed dec : list Z) :
  exists r dec', decompress_lznt1 compressed dec = Ret (r, dec') /\ length dec' = length dec /\
    (forall n, r = inl n -> (n <= length dec)%nat).
Proof. apply block_loop_total; lia. Qed.

(** C12: Compression returns, and fails only if the buffer is smaller than the data plus two
    bytes for each block begun. What it writes decompresses to the data, except that a last
    block of a single byte is lost: its header is zero, which ends the stream. *)
Theorem lznt1_roundtrip (data buf out : list Z) (Hout : (length data <= length out)%nat) :
  exists r buf', compress_lznt1 data buf = Ret (r, buf') /\
    match r with
    | inr e => e = STATUS_UNSUCCESSFUL /\
        Z.of_nat (length buf) < Z.of_nat (length data) + 2 * ((Z.of_nat (length data) + 4095) / 4096)
    | inl n => (n <= length buf)%nat /\
        decompress_lznt1 (take n buf') out =
        Ret (inl (kept data), take (kept data) data ++ drop (kept data) out)
    end.
Proof.
  destruct (compress_loop_spec (S (length data)) data [] buf 0) as (bytes & r & buf' & Hs & E & Hr); [lia | lia |].
  rewrite drop_0 in Hs. exists r, buf'. split; [exact E |].
  destruct (decide (length bytes <= length buf)%nat) as [Hfit | Hfit].
  - destruct Hr as [-> ->]. change (length [] + length bytes)%nat with (length bytes).
    split; [done |]. cbn [app]. rewrite take_app_length. exact (block_loop_spec data bytes Hs (S (length bytes)) [] [] out Hout (le_n _)).
  - subst r. split; [done |]. pose proof (stream_length _ _ Hs). lia.
Qed.

Lemma lznt1_roundtrip_witness :
  exists r buf', compress_lznt1 [7; 7; 7; 7; 7; 7; 9] (replicate 32 0) = Ret (r, buf') /\
    match r with
    | inr e => e = STATUS_UNSUCCESSFUL /\ 32 < 7 + 2 * ((7 + 4095) / 4096)
    | inl n => (n <= 32)%nat /\
        decompress_lznt1 (take n buf') (replicate 7 0) = Ret (inl 7%nat, [7; 7; 7; 7; 7; 7; 9])
    end.
Proof. exact (lznt1_roundtrip [7; 7; 7; 7; 7; 7; 9] (replicate 32 0) (replicate 7 0) (le_n _)). Defined.

End Lznt1.
