(* ===== verification/RefsBtree.v ===== *)
(** * Pages of ReFS B+ trees ([fs/refs/btree.rs])

    A page holds an array of entries that point into an area of keys and an area of values. The
    model has the parser and the serialiser of pages, the binary search, insertion with splitting,
    deletion with compaction, merging and the iterator. An operation that fails half-way returns the
    page as it left it. The specification is the list of keys and values in key order. *)

From Stdlib Require Import ZArith Lia.
From S2P Require Import Prelude.

Module RefsBtree.

Local Open Scope Z_scope.

(** ** Data *)

Definition REFS_BCBT_MAGIC : Z := 0x52626474.
Definition REFS_BCBT_INDEX_MAGIC : Z := 0x52626974.
Definition REFS_BCBT_FLAG_LEAF : Z := 1.
Definition REFS_BCBT_FLAG_INDEX : Z := 2.
Definition REFS_BCBT_FLAG_ROOT : Z := 4.
Definition REFS_BCBT_FLAG_CHKSUM : Z := 0x20.
Definition REFS_BCBT_MAX_KEY_SIZE : Z := 256.
Definition REFS_BTREE_DEFAULT_PAGE_CAPACITY : Z := 64.
Definition U16_MAX : Z := 2 ^ 16 - 1.
Definition STATUS_UNSUCCESSFUL : Z := 0xC0000001.

Record RefsBtreePageHeader := mk_page_header {
  magic : Z; flags : Z; height : Z; page_count : Z; key_count : Z; value_length : Z; reserved : list Z }.

Definition header_is_valid (h : RefsBtreePageHeader) : bool := (magic h =? REFS_BCBT_MAGIC) || (magic h =? REFS_BCBT_INDEX_MAGIC).
Definition is_leaf (h : RefsBtreePageHeader) : bool := has_bits (flags h) REFS_BCBT_FLAG_LEAF || (magic h =? REFS_BCBT_MAGIC).
Definition is_index (h : RefsBtreePageHeader) : bool := has_bits (flags h) REFS_BCBT_FLAG_INDEX || (magic h =? REFS_BCBT_INDEX_MAGIC).
Definition is_root (h : RefsBtreePageHeader) : bool := has_bits (flags h) REFS_BCBT_FLAG_ROOT.
Definition has_checksum (h : RefsBtreePageHeader) : bool := has_bits (flags h) REFS_BCBT_FLAG_CHKSUM.

Record RefsBtreeKeyEntry := mk_entry { key_offset : Z; key_len : Z; value_offset : Z; value_len : Z }.

Record RefsBtreeKey := mk_key { object_id : Z; sub_sequence : Z; code : Z; data : list Z }.

(** [RefsBtreeValue] is its bytes. *)
Definition RefsBtreeValue : Type := list Z.

Definition len (l : list Z) : Z := Z.of_nat (length l).

Definition total_size (k : RefsBtreeKey) : Z := 24 + len (data k).

Record RefsBtreePage := mk_page {
  header : RefsBtreePageHeader; keys : list RefsBtreeKeyEntry; key_data : list Z; value_data : list Z;
  checksum : Z; lba : Z }.

Definition page_new : RefsBtreePage :=
  mk_page (mk_page_header REFS_BCBT_MAGIC 0 0 1 0 0 [0; 0; 0; 0]) [] [] [] 0 0.

Definition set_key_count (h : RefsBtreePageHeader) (n : Z) : RefsBtreePageHeader :=
  mk_page_header (magic h) (flags h) (height h) (page_count h) n (value_length h) (reserved h).

Record RefsBtree := mk_btree { root : RefsBtreePage; tree_height : Z; page_size : Z; is_variable : bool }.

Definition btree_new (size : Z) : RefsBtree := mk_btree page_new 0 size true.

(** Both are placeholders in the code. *)
Definition verify_page_checksum (p : RefsBtreePage) (buffer : list Z) : bool := if negb (has_checksum (header p)) then true else true.
Definition find_leaf_page (tree : RefsBtree) (p : RefsBtreePage) (k : RefsBtreeKey) : option RefsBtreePage := None.

(** The areas and the entries, with the count in the header. *)
Definition set_areas (p : RefsBtreePage) (ks : list RefsBtreeKeyEntry) (kd vd : list Z) : RefsBtreePage :=
  mk_page (set_key_count (header p) (wrap 16 (Z.of_nat (length ks)))) ks kd vd (checksum p) (lba p).

(** [Ok] or [Err]. *)
Definition result (A : Type) : Type := A + Z.

(** ** Keys *)

Definition as_bytes (k : RefsBtreeKey) : list Z :=
  to_le 8 (object_id k) ++ to_le 8 (sub_sequence k) ++ to_le 8 (code k) ++ data k.

Definition from_bytes (bytes : list Z) : option RefsBtreeKey :=
  if len bytes <? 24 then None
  else Some (mk_key (from_le (take 8 bytes)) (from_le (take 8 (drop 8 bytes))) (from_le (take 8 (drop 16 bytes))) (drop 24 bytes)).

Definition compare_keys (a b : RefsBtreeKey) : comparison :=
  match object_id a ?= object_id b with
  | Eq => match sub_sequence a ?= sub_sequence b with Eq => code a ?= code b | other => other end
  | other => other
  end.

(** [data.get(start..start + n)] *)
Definition get_range (l : list Z) (start n : Z) : option (list Z) :=
  if start + n <=? len l then Some (take (Z.to_nat n) (drop (Z.to_nat start) l)) else None.

Definition key_at (p : RefsBtreePage) (index : nat) : option RefsBtreeKey :=
  entry ← keys p !! index;
  bytes ← get_range (key_data p) (key_offset entry) (key_len entry);
  from_bytes bytes.

(** The loop halves the interval; [None] inside is the [?] of the code. *)
Fixpoint search_loop (fuel : nat) (p : RefsBtreePage) (k : RefsBtreeKey) (lo hi : nat) : outcome (option (nat + nat)) :=
  if (lo <? hi)%nat then
    match fuel with
    | O => OutOfFuel
    | S fuel =>
        let mid := (lo + (hi - lo) / 2)%nat in
        match key_at p mid with
        | None => Ret None
        | Some current =>
            match compare_keys current k with
            | Eq => Ret (Some (inl mid))
            | Lt => search_loop fuel p k (mid + 1) hi
            | Gt => search_loop fuel p k lo mid
            end
        end
    end
  else Ret (Some (inr lo)).

Definition find_key_in_page (p : RefsBtreePage) (k : RefsBtreeKey) : outcome (option nat) :=
  r ← search_loop (S (length (keys p))) p k 0 (length (keys p));
  match r with
  | None => Ret None
  | Some (inl mid) => Ret (Some mid)
  | Some (inr lo) =>
      match key_at p lo with
      | None => Ret None
      | Some current => Ret (match compare_keys current k with Eq => Some lo | _ => None end)
      end
  end.

(** ** Insertion *)

Definition room_for (p : RefsBtreePage) (k : RefsBtreeKey) (v : RefsBtreeValue) : bool :=
  negb ((REFS_BCBT_MAX_KEY_SIZE <? total_size k) || (U16_MAX <? len v) || (U16_MAX <=? Z.of_nat (length (keys p)))) &&
  (Z.min (len (key_data p)) U16_MAX + total_size k <=? U16_MAX).

(** The entry of bytes that are appended to both areas. *)
Definition new_entry (p : RefsBtreePage) (klen vlen : Z) : RefsBtreeKeyEntry :=
  mk_entry (Z.min (len (key_data p)) U16_MAX) klen (Z.min (len (value_data p)) U16_MAX) vlen.

Definition append_entry (p : RefsBtreePage) (k : RefsBtreeKey) (v : RefsBtreeValue) : result unit * RefsBtreePage :=
  if room_for p k v then
    (inl (), set_areas p (keys p ++ [new_entry p (total_size k) (len v)]) (key_data p ++ as_bytes k) (value_data p ++ v))
  else (inr STATUS_UNSUCCESSFUL, p).

Definition insert_entry_at (p : RefsBtreePage) (position : nat) (k : RefsBtreeKey) (v : RefsBtreeValue) : result unit * RefsBtreePage :=
  if (length (keys p) <? position)%nat then (inr STATUS_UNSUCCESSFUL, p)
  else if room_for p k v then
    (inl (),
     set_areas p (take position (keys p) ++ new_entry p (total_size k) (len v) :: drop position (keys p))
       (key_data p ++ as_bytes k) (value_data p ++ v))
  else (inr STATUS_UNSUCCESSFUL, p).

(** One entry of the right half is copied; one whose bytes are missing is dropped. *)
Definition copy_entry (p rpage : RefsBtreePage) (e : RefsBtreeKeyEntry) : RefsBtreePage :=
  match get_range (key_data p) (key_offset e) (key_len e), get_range (value_data p) (value_offset e) (value_len e) with
  | Some kb, Some vb =>
      mk_page (header rpage) (keys rpage ++ [new_entry rpage (key_len e) (value_len e)]) (key_data rpage ++ kb) (value_data rpage ++ vb)
        (checksum rpage) (lba rpage)
  | _, _ => rpage
  end.

Definition build_split_page (es : list RefsBtreeKeyEntry) (p : RefsBtreePage) : RefsBtreePage :=
  let h := header page_new in
  let rpage := mk_page (mk_page_header (magic h) (Z.land (flags (header p)) (wnot 8 REFS_BCBT_FLAG_ROOT)) (height (header p))
                 (page_count (header p)) (key_count h) (value_length h) (reserved h)) [] [] [] 0 (lba p) in
  let rpage := fold_left (copy_entry p) es rpage in
  set_areas rpage (keys rpage) (key_data rpage) (value_data rpage).

(** The separator and the right page. *)
Definition split_page (p : RefsBtreePage) : result (RefsBtreeKey * RefsBtreePage) * RefsBtreePage :=
  if (length (keys p) <? 2)%nat then (inr STATUS_UNSUCCESSFUL, p)
  else
    let split_at := (length (keys p) / 2)%nat in
    match key_at p split_at with
    | None => (inr STATUS_UNSUCCESSFUL, p)
    | Some separator =>
        let rpage := build_split_page (drop split_at (keys p)) p in
        (inl (separator, rpage), set_areas p (take split_at (keys p)) (key_data p) (value_data p))
    end.

(** [Ok] of the place of a new key; a key that is there, or cannot be read, is an error. *)
Fixpoint place_loop (n : nat) (p : RefsBtreePage) (k : RefsBtreeKey) (position : nat) : result nat :=
  match n with
  | O => inl position
  | S n =>
      match key_at p position with
      | None => inr STATUS_UNSUCCESSFUL
      | Some current =>
          match compare_keys current k with
          | Eq => inr STATUS_UNSUCCESSFUL
          | Gt => inl position
          | Lt => place_loop n p k (position + 1)
          end
      end
  end.

Definition insert_key (p : RefsBtreePage) (k : RefsBtreeKey) (v : RefsBtreeValue) : result (option RefsBtreePage) * RefsBtreePage :=
  match place_loop (length (keys p)) p k 0 with
  | inr e => (inr e, p)
  | inl position =>
      if REFS_BTREE_DEFAULT_PAGE_CAPACITY <=? Z.of_nat (length (keys p)) then
        let '(r, p) := split_page p in
        match r with
        | inr e => (inr e, p)
        | inl (_, rpage) =>
            match key_at rpage 0 with
            | None => (inr STATUS_UNSUCCESSFUL, p)
            | Some first_right =>
                match compare_keys first_right k with
                | Gt =>
                    let '(r, p) := insert_entry_at p position k v in
                    (match r with inl _ => inl (Some rpage) | inr e => inr e end, p)
                | _ =>
                    let '(r, rpage) := insert_entry_at rpage (length (keys rpage)) k v in
                    (match r with inl _ => inl (Some rpage) | inr e => inr e end, p)
                end
            end
        end
      else
        let '(r, p) := insert_entry_at p position k v in
        (match r with inl _ => inl None | inr e => inr e end, p)
  end.

(** ** Merging and deletion *)

Fixpoint merge_loop (es : list RefsBtreeKeyEntry) (lpage rpage : RefsBtreePage) : result unit * RefsBtreePage :=
  match es with
  | [] => (inl (), lpage)
  | e :: es =>
      match get_range (key_data rpage) (key_offset e) (key_len e), get_range (value_data rpage) (value_offset e) (value_len e) with
      | Some kb, Some vb =>
          match from_bytes kb with
          | None => (inr STATUS_UNSUCCESSFUL, lpage)
          | Some k =>
              let '(r, lpage) := append_entry lpage k vb in
              match r with inl _ => merge_loop es lpage rpage | inr e => (inr e, lpage) end
          end
      | _, _ => (inr STATUS_UNSUCCESSFUL, lpage)
      end
  end.

Definition merge_pages (lpage rpage : RefsBtreePage) : result unit * RefsBtreePage * RefsBtreePage :=
  if U16_MAX <? Z.of_nat (length (keys lpage) + length (keys rpage)) then (inr STATUS_UNSUCCESSFUL, lpage, rpage)
  else
    let '(r, lpage) := merge_loop (keys rpage) lpage rpage in
    match r with
    | inr e => (inr e, lpage, rpage)
    | inl _ => (inl (), lpage, set_areas rpage [] [] [])
    end.

(** The areas are rebuilt in the order of the entries. *)
Fixpoint compact_loop (es done : list RefsBtreeKeyEntry) (okd ovd kd vd : list Z)
    : result unit * list RefsBtreeKeyEntry * list Z * list Z :=
  match es with
  | [] => (inl (), done, kd, vd)
  | e :: es =>
      match get_range okd (key_offset e) (key_len e), get_range ovd (value_offset e) (value_len e) with
      | Some kb, Some vb =>
          compact_loop es (done ++ [mk_entry (wrap 16 (len kd)) (key_len e) (wrap 16 (len vd)) (value_len e)]) okd ovd (kd ++ kb) (vd ++ vb)
      | _, _ => (inr STATUS_UNSUCCESSFUL, done ++ e :: es, kd, vd)
      end
  end.

Definition delete_key (p : RefsBtreePage) (k : RefsBtreeKey) : outcome (result unit * RefsBtreePage) :=
  r ← find_key_in_page p k;
  match r with
  | None => Ret (inr STATUS_UNSUCCESSFUL, p)
  | Some position =>
      let '(r, ks, kd, vd) := compact_loop (delete position (keys p)) [] (key_data p) (value_data p) [] [] in
      Ret (r, set_areas p ks kd vd)
  end.

(** ** Bytes *)

Definition header_bytes (p : RefsBtreePage) : list Z :=
  let h := header p in
  to_le 4 (magic h) ++ [flags h; height h] ++ to_le 2 (page_count h) ++ to_le 2 (wrap 16 (Z.of_nat (length (keys p)))) ++
  to_le 2 (value_length h) ++ reserved h.

Definition entry_bytes (e : RefsBtreeKeyEntry) : list Z :=
  to_le 2 (key_offset e) ++ to_le 2 (key_len e) ++ to_le 2 (value_offset e) ++ to_le 2 (value_len e).

(** The header and the entries are written before the sizes are checked: a buffer that is too small
    for them is a panic. *)
Fixpoint write_entries (buffer : list Z) (cursor : nat) (es : list RefsBtreeKeyEntry) : outcome (list Z * nat) :=
  match es with
  | [] => Ret (buffer, cursor)
  | e :: es =>
      buffer ← copy_at buffer cursor (entry_bytes e);
      write_entries buffer (cursor + 8) es
  end.

Definition serialize_page (p : RefsBtreePage) (size : Z) : outcome (result (list Z)) :=
  let buffer := replicate (Z.to_nat size) 0 in
  buffer ← copy_at buffer 0 (header_bytes p);
  '(buffer, cursor) ← write_entries buffer 16 (keys p);
  if size <? Z.of_nat cursor + len (key_data p) + len (value_data p) then Ret (inr STATUS_UNSUCCESSFUL)
  else
    buffer ← copy_at buffer cursor (key_data p);
    buffer ← copy_at buffer (cursor + length (key_data p)) (value_data p);
    Ret (inl buffer).

Definition u16_at (buffer : list Z) (i : nat) : outcome Z := b ← slice buffer i (i + 2); Ret (from_le b).

(** The loop over the entries ends early at the end of the buffer. *)
Fixpoint read_entries (n : nat) (buffer : list Z) (offset : nat) : outcome (list RefsBtreeKeyEntry) :=
  match n with
  | O => Ret []
  | S n =>
      if (length buffer <? offset + 8)%nat then Ret []
      else
        a ← u16_at buffer offset;
        b ← u16_at buffer (offset + 2);
        c ← u16_at buffer (offset + 4);
        d ← u16_at buffer (offset + 6);
        rest ← read_entries n buffer (offset + 8);
        Ret (mk_entry a b c d :: rest)
  end.

Definition max_end (es : list RefsBtreeKeyEntry) : Z := foldr (fun e m => Z.max (key_offset e + key_len e) m) 0 es.

Definition parse_page (buffer : list Z) (lb : Z) : outcome (option RefsBtreePage) :=
  if (length buffer <? 16)%nat then Ret None
  else
    m ← slice buffer 0 4;
    fl ← rd buffer 4;
    ht ← rd buffer 5;
    pc ← u16_at buffer 6;
    kc ← u16_at buffer 8;
    vl ← u16_at buffer 10;
    rs ← slice buffer 12 16;
    let h := mk_page_header (from_le m) fl ht pc kc vl rs in
    if negb (header_is_valid h) then Ret None
    else
      let base := (16 + Z.to_nat kc * 8)%nat in
      if (length buffer =? base)%nat then
        vd ← slice buffer base (length buffer);
        Ret (Some (mk_page h [] [] vd 0 lb))
      else
        ks ← read_entries (Z.to_nat kc) buffer 16;
        let size := if 0 <? kc then Z.to_nat (max_end ks) else 0%nat in
        kd ← slice buffer base (base + size);
        vd ← slice buffer (base + size) (length buffer);
        Ret (Some (mk_page h ks kd vd 0 lb)).

(** ** Iteration *)

(** One step of the iterator: the item, if any, and the next index. *)
Definition iterator_next (p : RefsBtreePage) (index : nat) : outcome (option (RefsBtreeKey * RefsBtreeValue) * nat) :=
  if key_count (header p) <=? Z.of_nat index then Ret (None, index)
  else
    e ← rd (keys p) index;
    if (len (key_data p) <? key_offset e + key_len e) || (len (value_data p) <? value_offset e + value_len e) then Ret (None, S index)
    else
      kb ← slice (key_data p) (Z.to_nat (key_offset e)) (Z.to_nat (key_offset e + key_len e));
      match from_bytes kb with
      | None => Ret (None, S index)
      | Some k =>
          vb ← slice (value_data p) (Z.to_nat (value_offset e)) (Z.to_nat (value_offset e + value_len e));
          Ret (Some (k, vb), S index)
      end.

(** [collect]: the items up to the first [None]. *)
Fixpoint collect (n : nat) (p : RefsBtreePage) (index : nat) : outcome (list (RefsBtreeKey * RefsBtreeValue)) :=
  match n with
  | O => Ret []
  | S n =>
      '(item, index) ← iterator_next p index;
      match item with
      | None => Ret []
      | Some kv => rest ← collect n p index; Ret (kv :: rest)
      end
  end.

(** ** Ranges and keys *)

Definition byte_list (l : list Z) : Prop := Forall byte_ty l.

Record key_ok (k : RefsBtreeKey) : Prop := {
  ko_object : u_ty 64 (object_id k); ko_sub : u_ty 64 (sub_sequence k); ko_code : u_ty 64 (code k) }.

Lemma area_len_app l k : len (l ++ k) = len l + len k.
Proof. unfold len. rewrite length_app. lia. Qed.

Lemma len_nonneg l : 0 <= len l.
Proof. unfold len. lia. Qed.

Lemma len_as_bytes k : len (as_bytes k) = total_size k.
Proof. unfold as_bytes, total_size. rewrite !area_len_app. unfold len. rewrite !length_to_le. lia. Qed.

Lemma from_as_bytes k : key_ok k -> from_bytes (as_bytes k) = Some k.
Proof.
  intros [H1 H2 H3]. unfold from_bytes. rewrite len_as_bytes. unfold total_size. rewrite (proj2 (Z.ltb_ge _ _)) by (pose proof (len_nonneg (data k)); lia).
  unfold as_bytes. destruct k as [a b c d]. cbn [object_id sub_sequence code data] in *. do 2 f_equal.
  - rewrite take_app_length'; [| by rewrite length_to_le]. by apply (from_to_le 8).
  - rewrite drop_app_length', take_app_length' by (by rewrite length_to_le). by apply (from_to_le 8).
  - rewrite (app_assoc (to_le 8 a)), drop_app_length', take_app_length' by (by rewrite ?length_app, !length_to_le). by apply (from_to_le 8).
Qed.

Lemma get_range_app l x s n b : 0 <= s -> 0 <= n -> get_range l s n = Some b -> get_range (l ++ x) s n = Some b.
Proof.
  unfold get_range. intros Hs Hn. destruct (Z.leb_spec (s + n) (len l)) as [H |]; [| done]. intros [= <-].
  rewrite area_len_app, (proj2 (Z.leb_le _ _)) by (pose proof (len_nonneg x); lia). unfold len in H.
  rewrite drop_app_le, take_app_le by (rewrite ?length_drop; lia). done.
Qed.

Lemma get_range_end l x : get_range (l ++ x) (len l) (len x) = Some x.
Proof.
  unfold get_range. rewrite area_len_app, (proj2 (Z.leb_le _ _)) by lia. unfold len. rewrite !Nat2Z.id, drop_app_length.
  by rewrite take_ge.
Qed.

Lemma get_range_len l s n b : 0 <= s -> 0 <= n -> get_range l s n = Some b -> len b = n.
Proof.
  unfold get_range. intros Hs Hn. destruct (Z.leb_spec (s + n) (len l)) as [H |]; [| done]. intros [= <-]. unfold len in *.
  rewrite length_take, length_drop. lia.
Qed.

Lemma from_bytes_size b k : from_bytes b = Some k -> total_size k = len b.
Proof.
  unfold from_bytes. destruct (Z.ltb_spec (len b) 24) as [| H]; [done |]. intros [= <-]. unfold total_size. cbn [data].
  unfold len in *. rewrite length_drop. lia.
Qed.

(** ** The order of keys *)

Lemma compare_refl k : compare_keys k k = Eq.
Proof. unfold compare_keys. by rewrite !Z.compare_refl. Qed.

Lemma compare_eq a b : compare_keys a b = Eq <-> object_id a = object_id b /\ sub_sequence a = sub_sequence b /\ code a = code b.
Proof.
  unfold compare_keys. destruct (Z.compare_spec (object_id a) (object_id b)), (Z.compare_spec (sub_sequence a) (sub_sequence b)),
    (Z.compare_spec (code a) (code b)); split; intros; try done; try lia.
Qed.

Definition key_lt (a b : RefsBtreeKey) : Prop := compare_keys a b = Lt.

Lemma key_lt_spec a b : key_lt a b <->
  object_id a < object_id b \/ object_id a = object_id b /\ (sub_sequence a < sub_sequence b \/ sub_sequence a = sub_sequence b /\ code a < code b).
Proof.
  unfold key_lt, compare_keys. destruct (Z.compare_spec (object_id a) (object_id b)), (Z.compare_spec (sub_sequence a) (sub_sequence b)),
    (Z.compare_spec (code a) (code b)); split; intros; try done; try lia.
Qed.

Lemma compare_gt a b : compare_keys a b = Gt <-> key_lt b a.
Proof.
  rewrite key_lt_spec. unfold compare_keys. destruct (Z.compare_spec (object_id a) (object_id b)), (Z.compare_spec (sub_sequence a) (sub_sequence b)),
    (Z.compare_spec (code a) (code b)); split; intros; try done; try lia.
Qed.

#[export] Instance key_lt_trans : Transitive key_lt.
Proof. intros a b c. rewrite !key_lt_spec. lia. Qed.

(** Equal keys compare alike. *)
Lemma key_lt_eq_l a b c : compare_keys a b = Eq -> key_lt a c <-> key_lt b c.
Proof. rewrite compare_eq, !key_lt_spec. lia. Qed.

Lemma key_lt_eq_r a b c : compare_keys a b = Eq -> key_lt c a <-> key_lt c b.
Proof. rewrite compare_eq, !key_lt_spec. lia. Qed.

Lemma key_lt_irrefl a : ~ key_lt a a.
Proof. rewrite key_lt_spec. lia. Qed.

(** ** The contents of a page *)

Notation kv := (RefsBtreeKey * RefsBtreeValue)%type.

Definition entry_kv (kd vd : list Z) (e : RefsBtreeKeyEntry) : option kv :=
  kb ← get_range kd (key_offset e) (key_len e);
  vb ← get_range vd (value_offset e) (value_len e);
  k ← from_bytes kb;
  Some (k, vb).

Record entry_ok (e : RefsBtreeKeyEntry) : Prop := {
  eo_key_offset : u_ty 16 (key_offset e); eo_key_len : u_ty 16 (key_len e);
  eo_value_offset : u_ty 16 (value_offset e); eo_value_len : u_ty 16 (value_len e) }.

(** The entries [es] stand for [l]. *)
Definition areas (es : list RefsBtreeKeyEntry) (kd vd : list Z) (l : list kv) : Prop :=
  Forall2 (fun e x => entry_kv kd vd e = Some x) es l /\ Forall entry_ok es.

Definition ksum (l : list kv) : Z := msum (fun x => total_size x.1) l.
Definition vsum (l : list kv) : Z := msum (fun x => len x.2) l.

Lemma entry_kv_ext kd vd x y e r : entry_ok e -> entry_kv kd vd e = Some r -> entry_kv (kd ++ x) (vd ++ y) e = Some r.
Proof.
  intros [H1 H2 H3 H4]. unfold entry_kv. destruct (get_range kd _ _) as [kb |] eqn:E1; [| done].
  destruct (get_range vd _ _) as [vb |] eqn:E2; [| done]. unfold u_ty in *.
  rewrite (get_range_app _ _ _ _ _ (proj1 H1) (proj1 H2) E1), (get_range_app _ _ _ _ _ (proj1 H3) (proj1 H4) E2). done.
Qed.

Lemma entry_kv_sizes kd vd e r : entry_ok e -> entry_kv kd vd e = Some r -> total_size r.1 = key_len e /\ len r.2 = value_len e.
Proof.
  intros [H1 H2 H3 H4]. unfold entry_kv. destruct (get_range kd _ _) as [kb |] eqn:E1; [| done].
  destruct (get_range vd _ _) as [vb |] eqn:E2; [| done]. cbn. destruct (from_bytes kb) as [k |] eqn:E3; [| done]. intros [= <-].
  cbn [fst snd]. unfold u_ty in *. apply from_bytes_size in E3. apply get_range_len in E1; [| lia | lia]. apply get_range_len in E2; [| lia | lia].
  split; congruence.
Qed.

Lemma areas_ext es kd vd l x y : areas es kd vd l -> areas es (kd ++ x) (vd ++ y) l.
Proof.
  intros [H Hok]. split; [| done]. induction H as [| e r es l He Hes IH]; [constructor |].
  apply Forall_cons in Hok as [Hok1 Hok]. constructor; [by apply entry_kv_ext | by apply IH].
Qed.

Lemma areas_nil kd vd : areas [] kd vd [].
Proof. split; constructor. Qed.

Lemma max_end_app es es' : max_end (es ++ es') = Z.max (max_end es) (max_end es').
Proof.
  induction es as [| e es IH]; cbn [app max_end foldr]; [| fold (max_end (es ++ es')) (max_end es); lia].
  change (foldr _ 0 es') with (max_end es'). assert (0 <= max_end es'); [| lia]. clear. induction es' as [| e es IH]; cbn [max_end foldr]; [done |]. fold (max_end es). lia.
Qed.

(** No key ends behind the area. *)
Lemma max_end_le es kd vd l : areas es kd vd l -> max_end es <= len kd.
Proof.
  intros [H Hok]. induction H as [| e x es l He Hes IH]; [apply len_nonneg |]. apply Forall_cons in Hok as [[H1 H2 _ _] Hok]. unfold u_ty in *.
  cbn [max_end foldr]. fold (max_end es). specialize (IH Hok). unfold entry_kv in He.
  destruct (get_range kd _ _) as [kb |] eqn:E1; [| done]. unfold get_range in E1. destruct (Z.leb_spec (key_offset e + key_len e) (len kd)); [lia | done].
Qed.

Lemma areas_length es kd vd l : areas es kd vd l -> length es = length l.
Proof. intros [H _]. by eapply Forall2_length. Qed.

Lemma areas_app es es' kd vd l l' : areas es kd vd l -> areas es' kd vd l' -> areas (es ++ es') kd vd (l ++ l').
Proof. intros [H Hok] [H' Hok']. split; [by apply Forall2_app | by apply Forall_app]. Qed.

Lemma areas_take n es kd vd l : areas es kd vd l -> areas (take n es) kd vd (take n l).
Proof. intros [H Hok]. split; [by apply Forall2_take | by apply Forall_take]. Qed.

Lemma areas_drop n es kd vd l : areas es kd vd l -> areas (drop n es) kd vd (drop n l).
Proof. intros [H Hok]. split; [by apply Forall2_drop | by apply Forall_drop]. Qed.

Lemma areas_delete n es kd vd l : areas es kd vd l -> areas (delete n es) kd vd (delete n l).
Proof. intros H. rewrite !delete_take_drop. apply areas_app; [by apply areas_take | by apply areas_drop]. Qed.

(** Bytes appended to both areas, and their entry. *)
Lemma areas_new kd vd kb vb k : from_bytes kb = Some k -> len kd + len kb <= U16_MAX -> len vd <= U16_MAX -> len vb <= U16_MAX ->
  areas [mk_entry (len kd) (len kb) (len vd) (len vb)] (kd ++ kb) (vd ++ vb) [(k, vb)].
Proof.
  intros Hk H1 H2 H3. unfold U16_MAX in *. pose proof (len_nonneg kd). pose proof (len_nonneg kb). pose proof (len_nonneg vd). pose proof (len_nonneg vb).
  split; [| constructor; [| done]; constructor; unfold u_ty; cbn; lia]. constructor; [| done]. unfold entry_kv. cbn [key_offset key_len value_offset value_len].
  rewrite !get_range_end. cbn. by rewrite Hk.
Qed.

Definition ordered (l : list kv) : Prop := StronglySorted (fun a b => key_lt a.1 b.1) l.

(** The page stands for [l]. *)
Definition holds (p : RefsBtreePage) (l : list kv) : Prop :=
  areas (keys p) (key_data p) (value_data p) l /\ key_count (header p) = Z.of_nat (length l).

(** [l] is in key order, with keys that fit. *)
Record page_ok (p : RefsBtreePage) (l : list kv) : Prop := {
  po_areas : areas (keys p) (key_data p) (value_data p) l;
  po_ordered : ordered l;
  po_count : key_count (header p) = Z.of_nat (length l);
  po_keys : Forall (fun x => key_ok x.1 /\ total_size x.1 <= REFS_BCBT_MAX_KEY_SIZE) l }.

Record header_typed (h : RefsBtreePageHeader) : Prop := {
  ht_valid : header_is_valid h = true; ht_flags : u_ty 8 (flags h); ht_height : u_ty 8 (height h); ht_pages : u_ty 16 (page_count h);
  ht_value : u_ty 16 (value_length h); ht_reserved : length (reserved h) = 4%nat }.

(** The areas hold nothing else, a key ends the area of keys, and the header is one of a page. *)
Record tight (p : RefsBtreePage) (l : list kv) : Prop := {
  ti_kd : len (key_data p) = ksum l;
  ti_vd : len (value_data p) = vsum l;
  ti_end : max_end (keys p) = len (key_data p);
  ti_header : header_typed (header p) }.

Definition page_inv (p : RefsBtreePage) (l : list kv) : Prop := page_ok p l /\ tight p l.

Lemma page_new_inv : page_inv page_new [].
Proof. split; (constructor; [try apply areas_nil; done | try constructor; done | done | by constructor]). Qed.

Lemma key_at_run p l i : areas (keys p) (key_data p) (value_data p) l -> key_at p i = fst <$> l !! i.
Proof.
  intros [H Hok]. unfold key_at. destruct (keys p !! i) as [e |] eqn:E.
  - destruct (Forall2_lookup_l _ _ _ _ _ H E) as (x & Ex & Hx). rewrite Ex. cbn. unfold entry_kv in Hx.
    destruct (get_range (key_data p) _ _) as [kb |]; [| done]. cbn in *. destruct (get_range (value_data p) _ _); [| done]. cbn in Hx.
    destruct (from_bytes kb); [| done]. by injection Hx as <-.
  - apply lookup_ge_None in E. rewrite (Forall2_length _ _ _ H) in E. by rewrite (proj2 (lookup_ge_None _ _) E).
Qed.

(** ** Searching *)

Lemma ordered_lookup l i j a b : ordered l -> l !! i = Some a -> l !! j = Some b -> (i < j)%nat -> key_lt a.1 b.1.
Proof.
  intros Ho. revert i j. induction Ho as [| x l Ho IH Hx]; intros i j Hi Hj Hij; [done |].
  destruct j as [| j]; [lia |]. cbn in Hj. destruct i as [| i].
  - cbn in Hi. injection Hi as ->. rewrite Forall_forall in Hx. apply Hx. by eapply list_elem_of_lookup_2.
  - cbn in Hi. apply (IH i j Hi Hj). lia.
Qed.

(** Below [lo] the keys are smaller, from [hi] on they are larger. *)
Lemma search_run fuel p l k lo hi : areas (keys p) (key_data p) (value_data p) l -> ordered l -> (hi <= length l)%nat -> (lo <= hi)%nat -> (hi - lo <= fuel)%nat ->
  (forall i x, l !! i = Some x -> (i < lo)%nat -> key_lt x.1 k) -> (forall i x, l !! i = Some x -> (hi <= i)%nat -> key_lt k x.1) ->
  (exists i x, search_loop fuel p k lo hi = Ret (Some (inl i)) /\ l !! i = Some x /\ compare_keys x.1 k = Eq) \/
  (exists i, search_loop fuel p k lo hi = Ret (Some (inr i)) /\ forall x, x ∈ l -> compare_keys x.1 k <> Eq).
Proof.
  intros Ha Ho. revert lo hi. induction fuel as [| fuel IH]; intros lo hi Hh Hlh Hf Hlo Hhi; cbn [search_loop];
    destruct (Nat.ltb_spec lo hi) as [Hlt | Hge]; try lia.
  2: set (mid := (lo + (hi - lo) / 2)%nat).
  2: assert (Hm : (lo <= mid < hi)%nat) by (unfold mid; pose proof (Nat.div_lt (hi - lo) 2); lia).
  2: destruct (lookup_lt_is_Some_2 l mid ltac:(lia)) as [x Hx].
  2: rewrite (key_at_run p l mid Ha), Hx; cbn [fmap option_fmap option_map].
  2: destruct (compare_keys x.1 k) eqn:E.
  2: left; by exists mid, x.
  2: apply IH; [lia | lia | lia | | done].
  3: apply IH; [lia | lia | lia | done |].
  2: intros i y Hy Hi; destruct (Nat.eq_dec i mid) as [-> |]; [congruence |]; apply key_lt_trans with x.1; [apply (ordered_lookup l i mid); [done | done | done | lia] | done].
  2: intros i y Hy Hi; apply compare_gt in E; destruct (Nat.eq_dec i mid) as [-> |]; [congruence |]; apply key_lt_trans with x.1; [done | apply (ordered_lookup l mid i); [done | done | done | lia]].
  all: right; exists lo; split; [done |]; intros x (i & Hi)%list_elem_of_lookup_1 E; apply compare_eq in E;
    destruct (Nat.le_gt_cases hi i) as [H1 | H1]; [specialize (Hhi i x Hi H1) | specialize (Hlo i x Hi ltac:(lia))];
    rewrite key_lt_spec in *; lia.
Qed.

Lemma find_run p l k : areas (keys p) (key_data p) (value_data p) l -> ordered l ->
  exists r, find_key_in_page p k = Ret r /\
    match r with
    | Some i => exists x, l !! i = Some x /\ compare_keys x.1 k = Eq
    | None => forall x, x ∈ l -> compare_keys x.1 k <> Eq
    end.
Proof.
  intros Ha Ho. unfold find_key_in_page. rewrite (areas_length _ _ _ _ Ha).
  destruct (search_run (S (length l)) p l k 0 (length l)) as [(i & x & R & Hx & E) | (i & R & Hno)]; try done; try lia.
  - intros i x Hx Hi. apply lookup_lt_Some in Hx. lia.
  - rewrite R. autorewrite with nt. eexists. split; [done |]. by exists x.
  - rewrite R. autorewrite with nt. rewrite (key_at_run p l i Ha). destruct (l !! i) as [x |] eqn:Ex; cbn [fmap option_fmap option_map]; [| by eexists].
    eexists. split; [done |]. destruct (compare_keys x.1 k) eqn:E; [| done | done]. exfalso. apply (Hno x); [by eapply list_elem_of_lookup_2 | done].
Qed.

(** ** Inserting *)

Lemma keys_ordered_app l k : ordered (l ++ k) <-> ordered l /\ ordered k /\ forall a b, a ∈ l -> b ∈ k -> key_lt a.1 b.1.
Proof.
  unfold ordered. induction l as [| x l IH]; cbn [app].
  - split; [intros H; split; [constructor | split; [done | set_solver]] | tauto].
  - split.
    + intros H. apply StronglySorted_inv in H as [H Hx]. apply IH in H as (H1 & H2 & H3). apply Forall_app in Hx as [Hx1 Hx2].
      split; [by constructor |]. split; [done |]. intros a b. rewrite elem_of_cons. intros [-> | Ha] Hb; [| by apply H3].
      rewrite Forall_forall in Hx2. by apply Hx2.
    + intros (H1 & H2 & H3). apply StronglySorted_inv in H1 as [H1 Hx]. constructor; [apply IH; split; [done |]; split; [done |]; set_solver |].
      apply Forall_app. split; [done |]. apply Forall_forall. set_solver.
Qed.

Lemma place_run n p l k pos : areas (keys p) (key_data p) (value_data p) l -> ordered l -> (n + pos = length l)%nat ->
  (forall i x, l !! i = Some x -> (i < pos)%nat -> key_lt x.1 k) ->
  (exists j, place_loop n p k pos = inl j /\ (j <= length l)%nat /\ (forall x, x ∈ take j l -> key_lt x.1 k) /\ forall x, x ∈ drop j l -> key_lt k x.1) \/
  (place_loop n p k pos = inr STATUS_UNSUCCESSFUL /\ exists x, x ∈ l /\ compare_keys x.1 k = Eq).
Proof.
  intros Ha Ho. revert pos. induction n as [| n IH]; intros pos Hn Hlt.
  - left. exists pos. split; [done |]. split; [lia |]. split.
    + intros x (i & Hi & Hl)%elem_of_take. by apply (Hlt i).
    + intros x. rewrite drop_ge by lia. set_solver.
  - cbn [place_loop]. destruct (lookup_lt_is_Some_2 l pos ltac:(lia)) as [x Hx].
    rewrite (key_at_run p l pos Ha), Hx. cbn [fmap option_fmap option_map]. destruct (compare_keys x.1 k) eqn:E.
    + right. split; [done |]. exists x. split; [by eapply list_elem_of_lookup_2 | done].
    + apply IH; [lia |]. intros i y Hy Hi. destruct (Nat.eq_dec i pos) as [-> |]; [congruence |]. apply (Hlt i); [done | lia].
    + left. exists pos. split; [done |]. split; [lia |]. split; [intros y (i & Hi & Hl)%elem_of_take; by apply (Hlt i) |].
      intros y (i & Hi)%list_elem_of_lookup_1. rewrite lookup_drop in Hi. apply compare_gt in E. destruct i as [| i].
      * rewrite Nat.add_0_r in Hi. congruence.
      * apply key_lt_trans with x.1; [done |]. apply (ordered_lookup l pos (pos + S i)); [done | done | done | lia].
Qed.

Lemma keys_ordered_insert l j k v : ordered l -> (forall x, x ∈ take j l -> key_lt x.1 k) -> (forall x, x ∈ drop j l -> key_lt k x.1) ->
  ordered (take j l ++ (k, v) :: drop j l).
Proof.
  intros Ho H1 H2. rewrite <- (take_drop j l) in Ho. apply keys_ordered_app in Ho as (O1 & O2 & O3). apply keys_ordered_app.
  split; [done |]. split; [constructor; [done |]; by apply Forall_forall |].
  intros a b Ha. rewrite elem_of_cons. intros [-> | Hb]; [by apply H1 | by apply O3].
Qed.

Lemma sums_perm l l' : l ≡ₚ l' -> ksum l = ksum l' /\ vsum l = vsum l'.
Proof.
  unfold ksum, vsum. induction 1 as [| x l l' _ [IH1 IH2] | x y l | l1 l2 l3 _ [H1 H2] _ [H3 H4]]; rewrite ?msum_cons; split; try lia; congruence.
Qed.

Lemma sums_insert l j x : ksum (take j l ++ x :: drop j l) = total_size x.1 + ksum l /\ vsum (take j l ++ x :: drop j l) = len x.2 + vsum l.
Proof.
  destruct (sums_perm (take j l ++ x :: drop j l) (x :: l)) as [-> ->]; [by rewrite <- Permutation_middle, take_drop |]. done.
Qed.

Lemma sums_cons x l : ksum (x :: l) = total_size x.1 + ksum l /\ vsum (x :: l) = len x.2 + vsum l.
Proof. done. Qed.

Lemma sums_app l k : ksum (l ++ k) = ksum l + ksum k /\ vsum (l ++ k) = vsum l + vsum k.
Proof. split; apply msum_app. Qed.

Lemma ksum_bound l : Forall (fun x => key_ok x.1 /\ total_size x.1 <= REFS_BCBT_MAX_KEY_SIZE) l -> ksum l <= 256 * Z.of_nat (length l).
Proof.
  unfold ksum, REFS_BCBT_MAX_KEY_SIZE. induction 1 as [| x l [_ Hx] _ IH]; [done |]. rewrite msum_cons. cbn [length]. lia.
Qed.

Lemma sums_nonneg l : 0 <= ksum l /\ 0 <= vsum l.
Proof.
  split; apply msum_nonneg, Forall_forall; intros x _; [unfold total_size; pose proof (len_nonneg (data x.1)); lia | apply len_nonneg].
Qed.

(** The key fits, and the areas are small enough for the offsets. *)
Definition fits (p : RefsBtreePage) (k : RefsBtreeKey) (v : RefsBtreeValue) : Prop :=
  key_ok k /\ total_size k <= REFS_BCBT_MAX_KEY_SIZE /\ len v <= U16_MAX /\ len (key_data p) + total_size k <= U16_MAX /\
  len (value_data p) <= U16_MAX.

Lemma insert_at_holds p l j k v : holds p l -> (j <= length l)%nat -> Z.of_nat (length l) < U16_MAX -> fits p k v ->
  exists p', insert_entry_at p j k v = (inl (), p') /\ holds p' (take j l ++ (k, v) :: drop j l) /\
    (tight p l -> tight p' (take j l ++ (k, v) :: drop j l)) /\
    len (key_data p') = len (key_data p) + total_size k /\ len (value_data p') = len (value_data p) + len v.
Proof.
  intros [Ha Hc] Hj Hl (Hok & Hsz & Hv & Hk & Hvd). pose proof (areas_length _ _ _ _ Ha) as Hlen.
  pose proof (len_nonneg v). pose proof (len_nonneg (key_data p)). pose proof (len_nonneg (value_data p)). pose proof (len_nonneg (data k)).
  unfold insert_entry_at. rewrite (proj2 (Nat.ltb_ge _ _)) by lia. unfold room_for, new_entry.
  unfold U16_MAX, REFS_BCBT_MAX_KEY_SIZE, total_size in *. rewrite !Z.min_l by lia. fold (total_size k) in *.
  rewrite (proj2 (Z.ltb_ge 256 _)), (proj2 (Z.ltb_ge (2 ^ 16 - 1) (len v))), (proj2 (Z.leb_gt (2 ^ 16 - 1) _)), (proj2 (Z.leb_le _ _)) by lia.
  cbn [orb negb andb]. eexists. split; [done |]. rewrite <- (len_as_bytes k).
  assert (Hlen' : length (take j l ++ (k, v) :: drop j l) = S (length l)) by (rewrite <- (take_drop j l) at 3; rewrite !length_app; cbn [length]; lia).
  split; [split |]; cbn [set_areas keys key_data value_data header set_key_count key_count].
  - apply areas_app; [by apply areas_take, areas_ext |].
    change (?e :: drop j (keys p)) with ([e] ++ drop j (keys p)). change ((k, v) :: drop j l) with ([(k, v)] ++ drop j l).
    apply areas_app; [| by apply areas_drop, areas_ext]. apply areas_new; [by apply from_as_bytes | | | ]; rewrite ?len_as_bytes; unfold U16_MAX; lia.
  - rewrite length_app. cbn [length]. rewrite length_take, length_drop, Hlen, Hlen'. rewrite wrap_small by (unfold u_ty; lia). lia.
  - rewrite !area_len_app. split; [| done]. intros [T1 T2 T3 T4]. constructor; cbn [set_areas keys key_data value_data header]; rewrite ?area_len_app.
    + rewrite (proj1 (sums_insert _ _ _)), len_as_bytes. cbn [fst]. lia.
    + rewrite (proj2 (sums_insert _ _ _)). cbn [snd]. lia.
    + change (?e :: drop j (keys p)) with ([e] ++ drop j (keys p)). rewrite !max_end_app. cbn [max_end foldr key_offset key_len].
      pose proof (max_end_le _ _ _ _ (areas_take j _ _ _ _ Ha)). pose proof (max_end_le _ _ _ _ (areas_drop j _ _ _ _ Ha)). pose proof (len_nonneg (as_bytes k)). lia.
    + destruct T4. by constructor.
Qed.

Lemma insert_at_run p l j k v : page_ok p l -> (j <= length l)%nat -> Z.of_nat (length l) < U16_MAX -> fits p k v ->
  ordered (take j l ++ (k, v) :: drop j l) ->
  exists p', insert_entry_at p j k v = (inl (), p') /\ page_ok p' (take j l ++ (k, v) :: drop j l) /\
    (tight p l -> tight p' (take j l ++ (k, v) :: drop j l)).
Proof.
  intros [Ha Ho Hc Hs] Hj Hl Hf Hord. destruct (insert_at_holds p l j k v (conj Ha Hc) Hj Hl Hf) as (p' & R & [Ha' Hc'] & Ht & _).
  exists p'. split; [done |]. split; [| done]. constructor; [done | done | done |].
  rewrite <- (take_drop j l) in Hs. apply Forall_app in Hs as [Hs1 Hs2]. apply Forall_app. split; [done |]. destruct Hf as (H1 & H2 & _). by constructor.
Qed.

(** The list with a new key in its place; a key that is there stays as it is. *)
Fixpoint put (l : list kv) (k : RefsBtreeKey) (v : RefsBtreeValue) : list kv :=
  match l with
  | [] => [(k, v)]
  | x :: l' => match compare_keys x.1 k with Lt => x :: put l' k v | Eq => l | Gt => (k, v) :: l end
  end.

Lemma put_at l j k v : (j <= length l)%nat -> (forall x, x ∈ take j l -> key_lt x.1 k) -> (forall x, x ∈ drop j l -> key_lt k x.1) ->
  put l k v = take j l ++ (k, v) :: drop j l.
Proof.
  revert j. induction l as [| x l IH]; intros j Hj H1 H2; [by destruct j |]. destruct j as [| j]; cbn [put take drop app].
  - specialize (H2 x ltac:(set_solver)). apply compare_gt in H2. by rewrite H2.
  - cbn [length] in Hj. rewrite (H1 x) by set_solver. rewrite (IH j); [done | lia | set_solver | set_solver].
Qed.

Lemma put_there l k v x : ordered l -> x ∈ l -> compare_keys x.1 k = Eq -> put l k v = l.
Proof.
  intros Ho Hx E. induction Ho as [| y l Ho IH Hy]; [set_solver |]. cbn [put]. apply elem_of_cons in Hx as [-> | Hx]; [by rewrite E |].
  rewrite Forall_forall in Hy. specialize (Hy x Hx). apply (key_lt_eq_r _ _ _ E) in Hy. unfold key_lt in Hy. rewrite Hy. by rewrite IH.
Qed.

Lemma put_elem l k v x : x ∈ put l k v -> x = (k, v) \/ x ∈ l.
Proof.
  induction l as [| y l IH]; cbn [put]; [set_solver |]. destruct (compare_keys y.1 k); [by right | | set_solver].
  rewrite !elem_of_cons. intros [-> | Hx]; [by right; left |]. destruct (IH Hx); [by left | by right; right].
Qed.

Lemma put_ordered l k v : ordered l -> ordered (put l k v).
Proof.
  intros Ho. induction Ho as [| y l Ho IH Hy]; cbn [put]; [repeat constructor |]. destruct (compare_keys y.1 k) eqn:E; [by constructor | |].
  - constructor; [done |]. apply Forall_forall. intros x Hx. apply put_elem in Hx as [-> | Hx]; [done |]. rewrite Forall_forall in Hy. by apply Hy.
  - apply compare_gt in E. constructor; [by constructor |]. constructor; [done |]. apply (Forall_impl _ _ _ Hy). intros x Hx. by apply key_lt_trans with y.1.
Qed.

Definition has_key (l : list kv) (k : RefsBtreeKey) : bool :=
  existsb (fun x => match compare_keys x.1 k with Eq => true | _ => false end) l.

Lemma has_key_true l k : has_key l k = true <-> exists x, x ∈ l /\ compare_keys x.1 k = Eq.
Proof.
  unfold has_key. rewrite existsb_exists. split; intros (x & Hx & E); exists x; rewrite list_elem_of_In in *; (split; [done |]).
  - by destruct (compare_keys x.1 k).
  - by rewrite E.
Qed.

Lemma has_key_false l k : has_key l k = false <-> forall x, x ∈ l -> compare_keys x.1 k <> Eq.
Proof.
  rewrite <- not_true_iff_false, has_key_true. split; [intros H x Hx E; apply H; by exists x | intros H (x & Hx & E); by apply (H x)].
Qed.

(** A page that is not full takes a new key of at most 256 bytes, and refuses one it has. *)
Lemma insert_key_run p l k v : page_inv p l -> (length l < 64)%nat -> key_ok k -> vsum l + len v <= U16_MAX ->
  exists p', page_inv p' (if total_size k <=? REFS_BCBT_MAX_KEY_SIZE then put l k v else l) /\
    insert_key p k v = (if has_key l k || (REFS_BCBT_MAX_KEY_SIZE <? total_size k) then inr STATUS_UNSUCCESSFUL else inl None, p').
Proof.
  intros [Hi Ht] Hl Hok Hvs. pose proof Hi as [Ha Ho _ Hs]. unfold insert_key. rewrite (areas_length _ _ _ _ Ha).
  destruct (place_run (length l) p l k 0 Ha Ho ltac:(lia) ltac:(lia)) as [(j & -> & Hj & H1 & H2) | [-> (x & Hx & E)]].
  - unfold REFS_BTREE_DEFAULT_PAGE_CAPACITY. rewrite (proj2 (Z.leb_gt 64 _)) by lia.
    assert (has_key l k = false) as ->.
    { apply has_key_false. intros x. rewrite <- (take_drop j l), elem_of_app.
      intros [Hx | Hx] E; [specialize (H1 x Hx) | specialize (H2 x Hx)]; rewrite compare_eq in E; rewrite key_lt_spec in *; lia. }
    destruct (Z.leb_spec (total_size k) REFS_BCBT_MAX_KEY_SIZE) as [Hsz | Hsz].
    + rewrite (proj2 (Z.ltb_ge _ _) Hsz). pose proof (ksum_bound l Hs). pose proof (sums_nonneg l). pose proof (len_nonneg v). destruct Ht as [T1 T2 T3 T4].
      destruct (insert_at_run p l j k v Hi Hj) as (p' & -> & Hi' & Ht'); [unfold U16_MAX; lia | | by apply keys_ordered_insert |].
      { unfold fits, U16_MAX, REFS_BCBT_MAX_KEY_SIZE in *. repeat split; try apply Hok; lia. }
      exists p'. rewrite (put_at l j) by done. split; [split; [done | apply Ht'; by constructor] | done].
    + exists p. split; [done |]. unfold insert_entry_at, room_for. rewrite (proj2 (Z.ltb_lt _ _) Hsz). by destruct (_ <? j)%nat.
  - assert (has_key l k = true) as -> by (apply has_key_true; by exists x). exists p. split; [| done].
    rewrite (put_there l k v x) by done. by destruct (_ <=? _).
Qed.

(** ** Deleting *)

Lemma compact_run es done okd ovd kd vd l ld : areas es okd ovd l -> areas done kd vd ld -> len kd = ksum ld -> len vd = vsum ld ->
  max_end done = len kd -> ksum ld + ksum l <= U16_MAX -> vsum ld + vsum l <= U16_MAX ->
  exists es' kd' vd', compact_loop es done okd ovd kd vd = (inl (), es', kd', vd') /\ areas es' kd' vd' (ld ++ l) /\
    len kd' = ksum (ld ++ l) /\ len vd' = vsum (ld ++ l) /\ max_end es' = len kd'.
Proof.
  intros [Hes Hok] Hd Hk Hv. revert done kd vd ld Hd Hk Hv. induction Hes as [| e x es l He Hes IH]; intros done kd vd ld Hd Hk Hv Hme Hks Hvs.
  { exists done, kd, vd. by rewrite app_nil_r. }
  apply Forall_cons in Hok as [Hoke Hok]. cbn [compact_loop]. destruct (entry_kv_sizes _ _ _ _ Hoke He) as [S1 S2].
  unfold entry_kv in He. destruct (get_range okd _ _) as [kb |] eqn:E1; [| done]. destruct (get_range ovd _ _) as [vb |] eqn:E2; [| done].
  cbn in He. destruct (from_bytes kb) as [k |] eqn:E3; [| done]. injection He as <-. cbn [fst snd] in *.
  pose proof (from_bytes_size _ _ E3) as S3. rewrite (proj1 (sums_cons _ _)) in Hks. rewrite (proj2 (sums_cons _ _)) in Hvs. cbn [fst snd] in *.
  pose proof (sums_nonneg l). pose proof (sums_nonneg ld). pose proof (len_nonneg vb). pose proof (len_nonneg kb).
  rewrite <- S1, <- S2, S3, !wrap_small by (unfold u_ty, U16_MAX in *; lia).
  destruct (IH Hok (done ++ [mk_entry (len kd) (len kb) (len vd) (len vb)]) (kd ++ kb) (vd ++ vb) (ld ++ [(k, vb)])) as (es' & kd' & vd' & R & A1 & A2 & A3 & A4).
  - apply areas_app; [by apply areas_ext |]. apply areas_new; [done | lia | lia | lia].
  - rewrite area_len_app, (proj1 (sums_app _ _)), (proj1 (sums_cons _ _)). cbn [fst]. change (ksum []) with 0. lia.
  - rewrite area_len_app, (proj2 (sums_app _ _)), (proj2 (sums_cons _ _)). cbn [snd]. change (vsum []) with 0. lia.
  - rewrite max_end_app, area_len_app. cbn [max_end foldr key_offset key_len]. pose proof (len_nonneg kd). lia.
  - rewrite (proj1 (sums_app _ _)), (proj1 (sums_cons _ _)). cbn [fst]. change (ksum []) with 0. lia.
  - rewrite (proj2 (sums_app _ _)), (proj2 (sums_cons _ _)). cbn [snd]. change (vsum []) with 0. lia.
  - exists es', kd', vd'. rewrite <- app_assoc in A1, A2, A3. done.
Qed.

Fixpoint remove (l : list kv) (k : RefsBtreeKey) : list kv :=
  match l with
  | [] => []
  | x :: l => match compare_keys x.1 k with Eq => l | _ => x :: remove l k end
  end.

Lemma remove_at l i x k : ordered l -> l !! i = Some x -> compare_keys x.1 k = Eq -> remove l k = delete i l.
Proof.
  intros Ho. revert i. induction Ho as [| y l Ho IH Hy]; intros i Hi E; [done |]. destruct i as [| i]; cbn in Hi |- *.
  - injection Hi as ->. by rewrite E.
  - rewrite Forall_forall in Hy. specialize (Hy x (list_elem_of_lookup_2 _ _ _ Hi)). apply (key_lt_eq_r _ _ _ E) in Hy.
    unfold key_lt in Hy. rewrite Hy. f_equal. by apply IH.
Qed.

Lemma remove_none l k : (forall x, x ∈ l -> compare_keys x.1 k <> Eq) -> remove l k = l.
Proof.
  induction l as [| x l IH]; intros H; [done |]. cbn [remove]. rewrite IH by set_solver.
  specialize (H x ltac:(set_solver)). by destruct (compare_keys x.1 k).
Qed.

Lemma ordered_delete l i : ordered l -> ordered (delete i l).
Proof.
  intros Ho. rewrite delete_take_drop. rewrite <- (take_drop i l) in Ho. apply keys_ordered_app in Ho as (O1 & O2 & O3). apply keys_ordered_app.
  split; [done |]. rewrite <- (Nat.add_1_r i), <- drop_drop. destruct (drop i l) as [| x k]; [done |]. cbn [drop].
  apply StronglySorted_inv in O2 as [O2 _]. split; [done |]. intros a b Ha Hb. apply O3; set_solver.
Qed.

Lemma delete_run p l k : page_inv p l -> (length l <= 64)%nat -> vsum l <= U16_MAX ->
  exists p', page_inv p' (remove l k) /\
    delete_key p k = Ret (if has_key l k then inl () else inr STATUS_UNSUCCESSFUL, p').
Proof.
  intros [[Ha Ho Hc Hs] [T1 T2 T3 T4]] Hl Hv. destruct (find_run p l k Ha Ho) as ([i |] & R & Hr); unfold delete_key; rewrite R; autorewrite with nt.
  - destruct Hr as (x & Hx & E). assert (has_key l k = true) as ->.
    { apply has_key_true. exists x. split; [by eapply list_elem_of_lookup_2 | done]. }
    pose proof (ksum_bound l Hs) as Hb. destruct (sums_perm l (x :: delete i l)) as [P1 P2]; [by apply delete_Permutation |].
    rewrite (proj1 (sums_cons _ _)) in P1. rewrite (proj2 (sums_cons _ _)) in P2. pose proof (len_nonneg x.2). pose proof (len_nonneg (data x.1)).
    unfold total_size in P1. destruct (compact_run (delete i (keys p)) [] (key_data p) (value_data p) [] [] (delete i l) []) as (es & kd & vd & -> & A1 & A2 & A3 & A4);
      [by apply areas_delete | apply areas_nil | done | done | done | change (ksum []) with 0; unfold U16_MAX; lia | change (vsum []) with 0; lia |].
    eexists. split; [| done]. cbn [app] in *. rewrite (remove_at l i x) by done.
    assert (Hlen := Permutation_length (delete_Permutation _ _ _ Hx)). cbn [length] in Hlen.
    split; [| constructor; [done | done | done | destruct T4; by constructor]].
    constructor; cbn [set_areas keys key_data value_data header set_key_count key_count]; [done | by apply ordered_delete | |].
    + rewrite (areas_length _ _ _ _ A1), wrap_small by (unfold u_ty; lia). done.
    + rewrite delete_take_drop. rewrite <- (take_drop i l) in Hs. apply Forall_app in Hs as [Hs1 Hs2]. apply Forall_app. split; [done |].
      rewrite <- (Nat.add_1_r i), <- drop_drop. by apply Forall_drop.
  - assert (has_key l k = false) as -> by (by apply has_key_false). exists p. rewrite remove_none by done. done.
Qed.

(** ** Splitting *)

(** The right half is copied as a deletion compacts. *)
Lemma copy_run p r es l es' kd' vd' : areas es (key_data p) (value_data p) l ->
  len (key_data r) + ksum l <= U16_MAX -> len (value_data r) + vsum l <= U16_MAX ->
  compact_loop es (keys r) (key_data p) (value_data p) (key_data r) (value_data r) = (inl (), es', kd', vd') ->
  fold_left (copy_entry p) es r = mk_page (header r) es' kd' vd' (checksum r) (lba r).
Proof.
  intros [Hes Hok]. revert r. induction Hes as [| e x es l He Hes IH]; intros r Hk Hv; cbn [compact_loop fold_left].
  { intros [= <- <- <-]. by destruct r. }
  apply Forall_cons in Hok as [Hoke Hok]. destruct (entry_kv_sizes _ _ _ _ Hoke He) as [S1 S2]. unfold copy_entry at 2, new_entry.
  unfold entry_kv in He. destruct (get_range (key_data p) _ _) as [kb |] eqn:E1; [| done]. destruct (get_range (value_data p) _ _) as [vb |] eqn:E2; [| done].
  cbn in He. destruct (from_bytes kb) as [k |] eqn:E3; [| done]. injection He as <-. cbn [fst snd] in *. pose proof (from_bytes_size _ _ E3) as S3.
  rewrite (proj1 (sums_cons _ _)) in Hk. rewrite (proj2 (sums_cons _ _)) in Hv. cbn [fst snd] in *. pose proof (sums_nonneg l). pose proof (len_nonneg (key_data r)).
  pose proof (len_nonneg (value_data r)). pose proof (len_nonneg vb). pose proof (len_nonneg kb).
  rewrite !Z.min_l, !wrap_small by (unfold u_ty, U16_MAX in *; lia). intros R.
  rewrite (IH Hok (mk_page (header r) (keys r ++ [mk_entry (len (key_data r)) (key_len e) (len (value_data r)) (value_len e)]) (key_data r ++ kb)
    (value_data r ++ vb) (checksum r) (lba r))); [done | | | exact R]; cbn [key_data value_data]; rewrite area_len_app; lia.
Qed.

Lemma ordered_halves n l : ordered l -> ordered (take n l) /\ ordered (drop n l) /\ forall a b, a ∈ take n l -> b ∈ drop n l -> key_lt a.1 b.1.
Proof. intros Ho. rewrite <- (take_drop n l) in Ho. by apply keys_ordered_app. Qed.

(** The left half keeps the areas, the right half has its own. *)
Lemma split_run p l : page_inv p l -> (2 <= length l <= 64)%nat -> vsum l <= U16_MAX -> let n := (length l / 2)%nat in
  exists x p' r, l !! n = Some x /\ split_page p = (inl (x.1, r), p') /\ page_ok p' (take n l) /\ key_data p' = key_data p /\
    value_data p' = value_data p /\ page_inv r (drop n l).
Proof.
  intros [[Ha Ho Hc Hs] [T1 T2 T3 T4]] Hl Hv n. pose proof (areas_length _ _ _ _ Ha) as Hlen. pose proof (ksum_bound l Hs) as Hb.
  assert (Hn : (n < length l)%nat) by (apply Nat.div_lt; lia). destruct (lookup_lt_is_Some_2 l n Hn) as [x Hx].
  destruct (sums_app (take n l) (drop n l)) as [P1 P2]. rewrite take_drop in P1, P2. pose proof (sums_nonneg (take n l)).
  destruct (compact_run (drop n (keys p)) [] (key_data p) (value_data p) [] [] (drop n l) []) as (es & kd & vd & R & A1 & A2 & A3 & A4);
    [by apply areas_drop | apply areas_nil | done | done | done | change (ksum []) with 0; unfold U16_MAX; lia | change (vsum []) with 0; lia |].
  cbn [app] in *. destruct (ordered_halves n l Ho) as (O1 & O2 & _).
  exists x. eexists. eexists. split; [done |]. split.
  { unfold split_page. rewrite Hlen, (proj2 (Nat.ltb_ge _ _)) by lia. fold n. rewrite (key_at_run p l n Ha), Hx. cbn [fmap option_fmap option_map].
    unfold build_split_page. erewrite (copy_run p _ _ (drop n l) es kd vd); [reflexivity | by apply areas_drop | | | exact R];
      cbn [key_data value_data]; change (len []) with 0; unfold U16_MAX in *; lia. }
  split; [| split; [done |]; split; [done |]; split].
  - constructor; cbn [set_areas keys key_data value_data header set_key_count key_count]; [by apply areas_take | done | | by apply Forall_take].
    rewrite !length_take, Hlen, wrap_small by (unfold u_ty; lia). lia.
  - constructor; cbn [set_areas keys key_data value_data header set_key_count key_count]; [done | done | | by apply Forall_drop].
    rewrite (areas_length _ _ _ _ A1), length_drop, wrap_small by (unfold u_ty; lia). lia.
  - constructor; cbn [set_areas keys key_data value_data header]; [done | done | done |].
    destruct T4. constructor; cbn [set_key_count header magic flags height page_count value_length reserved page_new]; try done.
    apply u_ty_land; [lia | done |]. by vm_compute.
Qed.

(** A full page and a key it does not have: below the separator the key goes to its place in the left
    page, and otherwise to the end of the right page. *)
Lemma full_run p l k v : page_inv p l -> length l = 64%nat -> key_ok k -> total_size k <= REFS_BCBT_MAX_KEY_SIZE -> has_key l k = false ->
  vsum l + len v <= U16_MAX ->
  exists x p' r, l !! 32%nat = Some x /\ insert_key p k v = (inl (Some r), p') /\
    match compare_keys x.1 k with
    | Gt => holds p' (put (take 32 l) k v) /\ holds r (drop 32 l)
    | _ => holds p' (take 32 l) /\ holds r (drop 32 l ++ [(k, v)])
    end.
Proof.
  intros Hp Hl Hok Hsz Hno Hv. pose proof Hp as [Hi Ht]. pose proof Hi as [Ha Ho _ Hs]. pose proof (ksum_bound l Hs) as Hb. pose proof (len_nonneg v).
  destruct (split_run p l Hp ltac:(lia) ltac:(lia)) as (x & p1 & r & Hx & Hsp & H1 & H2 & H3 & H4). rewrite Hl in *. change (64 / 2)%nat with 32%nat in *.
  exists x. unfold insert_key. rewrite (areas_length _ _ _ _ Ha).
  destruct (place_run (length l) p l k 0 Ha Ho ltac:(lia) ltac:(lia)) as [(j & -> & Hj & L1 & L2) | [_ (y & Hy & E)]];
    [| rewrite has_key_false in Hno; by destruct (Hno y)].
  rewrite Hl, Hsp. change (REFS_BTREE_DEFAULT_PAGE_CAPACITY <=? Z.of_nat 64) with true. cbv iota beta.
  pose proof H4 as [[Ra Ro Rc Rs] [R1 R2 R3 R4]]. rewrite (key_at_run r _ 0 Ra), lookup_drop. change (32 + 0)%nat with 32%nat. rewrite Hx.
  cbn [fmap option_fmap option_map]. destruct (sums_app (take 32 l) (drop 32 l)) as [P1 P2]. rewrite take_drop in P1, P2.
  pose proof (sums_nonneg (take 32 l)). pose proof (sums_nonneg (drop 32 l)). destruct Ht as [T1 T2 T3 T4].
  assert (Hright : exists r', insert_entry_at r (length (keys r)) k v = (inl (), r') /\ holds r' (drop 32 l ++ [(k, v)])).
  { destruct (insert_at_holds r (drop 32 l) (length (drop 32 l)) k v) as (r' & Q1 & Q2 & _); [done | done | rewrite length_drop; unfold U16_MAX; lia | |].
    - unfold fits, U16_MAX, REFS_BCBT_MAX_KEY_SIZE in *. split; [done |]. lia.
    - exists r'. rewrite (areas_length _ _ _ _ Ra). split; [done |]. by rewrite firstn_all, drop_all in Q2. }
  destruct (compare_keys x.1 k) eqn:E; [destruct Hright as (r' & -> & Hr'); exists p1, r'; (split; [done |]; split; [done |]); split; [exact (conj (po_areas _ _ H1) (po_count _ _ H1)) | done].. |].
  apply compare_gt in E. assert (Hj32 : (j <= 32)%nat).
  { destruct (Nat.le_gt_cases j 32) as [|]; [done |]. assert (Hxj : x ∈ take j l) by (apply elem_of_take; exists 32%nat; split; [done | lia]).
    specialize (L1 x Hxj). rewrite key_lt_spec in *. lia. }
  assert (Et : take j (take 32 l) = take j l) by (rewrite take_take; f_equal; lia).
  destruct (insert_at_holds p1 (take 32 l) j k v) as (p2 & -> & Q2 & _); [split; apply H1 | rewrite length_take; lia | rewrite length_take; unfold U16_MAX; lia | |].
  { unfold fits, U16_MAX, REFS_BCBT_MAX_KEY_SIZE in *. rewrite H2, H3. split; [done |]. lia. }
  exists p2, r. split; [done |]. split; [done |]. split; [| done]. rewrite (put_at (take 32 l) j k v); [done | rewrite length_take; lia | by rewrite Et |].
  intros y Hy. apply L2. revert Hy. rewrite <- (take_drop 32 l) at 2. rewrite drop_app_le by (rewrite length_take; lia). set_solver.
Qed.

(** ** Merging *)

Lemma append_insert p k v : append_entry p k v = insert_entry_at p (length (keys p)) k v.
Proof.
  unfold append_entry, insert_entry_at. rewrite (proj2 (Nat.ltb_ge _ _)) by lia. destruct (room_for p k v); [| done]. by rewrite firstn_all, drop_all.
Qed.

Lemma merge_run es lp rp ll l : holds lp ll -> areas es (key_data rp) (value_data rp) l ->
  Forall (fun x => key_ok x.1 /\ total_size x.1 <= REFS_BCBT_MAX_KEY_SIZE) l -> Z.of_nat (length ll + length l) <= U16_MAX ->
  len (key_data lp) + ksum l <= U16_MAX -> len (value_data lp) + vsum l <= U16_MAX ->
  exists lp', merge_loop es lp rp = (inl (), lp') /\ holds lp' (ll ++ l).
Proof.
  intros Hh [Hes Hok]. revert lp ll Hh. induction Hes as [| e x es l He Hes IH]; intros lp ll Hh Hs Hlen Hk Hv.
  { exists lp. by rewrite app_nil_r. }
  apply Forall_cons in Hok as [Hoke Hok]. apply Forall_cons in Hs as [[Hx1 Hx2] Hs]. cbn [merge_loop].
  unfold entry_kv in He. destruct (get_range (key_data rp) _ _) as [kb |]; [| done]. destruct (get_range (value_data rp) _ _) as [vb |]; [| done].
  cbn in He. destruct (from_bytes kb) as [k |]; [| done]. injection He as <-. cbn [fst snd length] in *.
  rewrite (proj1 (sums_cons _ _)) in Hk. rewrite (proj2 (sums_cons _ _)) in Hv. cbn [fst snd] in *. pose proof (sums_nonneg l). pose proof (len_nonneg vb).
  pose proof (len_nonneg (value_data lp)). rewrite append_insert, (areas_length _ _ _ _ (proj1 Hh)).
  destruct (insert_at_holds lp ll (length ll) k vb Hh) as (lp1 & -> & G1 & _ & K1 & V1); [done | lia | unfold fits; split; [done |]; lia |].
  rewrite firstn_all, drop_all in G1. destruct (IH Hok lp1 (ll ++ [(k, vb)])) as (lp' & -> & G2); [done | done | rewrite length_app; cbn [length]; lia | lia | lia |].
  exists lp'. by rewrite <- app_assoc in G2.
Qed.

(** ** Iterating *)

Lemma get_range_slice l s n b : 0 <= s -> 0 <= n -> get_range l s n = Some b ->
  s + n <= len l /\ slice l (Z.to_nat s) (Z.to_nat (s + n)) = Ret b.
Proof.
  intros Hs Hn. unfold get_range. destruct (Z.leb_spec (s + n) (len l)) as [H |]; [| done]. intros [= <-]. split; [done |].
  unfold len in H. rewrite slice_in by lia. by replace (Z.to_nat (s + n) - Z.to_nat s)%nat with (Z.to_nat n) by lia.
Qed.

Lemma next_run p l i x : holds p l -> l !! i = Some x -> iterator_next p i = Ret (Some x, S i).
Proof.
  intros [[Ha Hok] Hc] Hx. unfold iterator_next. pose proof (lookup_lt_Some _ _ _ Hx) as Hi. rewrite Hc, (proj2 (Z.leb_gt _ _)) by lia.
  destruct (Forall2_lookup_r _ _ _ _ _ Ha Hx) as (e & He & Hex). rewrite (rd_lookup _ _ _ He). autorewrite with nt.
  rewrite Forall_forall in Hok. destruct (Hok e (list_elem_of_lookup_2 _ _ _ He)) as [H1 H2 H3 H4]. unfold u_ty in *.
  unfold entry_kv in Hex. destruct (get_range (key_data p) _ _) as [kb |] eqn:E1; [| done]. destruct (get_range (value_data p) _ _) as [vb |] eqn:E2; [| done].
  cbn in Hex. destruct (from_bytes kb) as [k |] eqn:E3; [| done]. injection Hex as <-.
  apply get_range_slice in E1 as [L1 S1]; [| lia | lia]. apply get_range_slice in E2 as [L2 S2]; [| lia | lia].
  rewrite (proj2 (Z.ltb_ge _ _) L1), (proj2 (Z.ltb_ge _ _) L2). cbn [orb]. rewrite S1. autorewrite with nt. rewrite E3, S2. done.
Qed.

Lemma iterator_run p l n i : holds p l -> (length l < n + i)%nat -> (i <= length l)%nat -> collect n p i = Ret (drop i l).
Proof.
  intros Hp. revert i. induction n as [| n IH]; intros i Hn Hi; [lia |]. cbn [collect]. destruct (l !! i) as [x |] eqn:E.
  - rewrite (next_run p l i x Hp E). autorewrite with nt. cbv beta iota. pose proof (lookup_lt_Some _ _ _ E).
    rewrite IH by lia. autorewrite with nt. by rewrite (drop_S l x i E).
  - apply lookup_ge_None in E. unfold iterator_next. rewrite (proj2 Hp), (proj2 (Z.leb_le _ _)) by lia. autorewrite with nt.
    by rewrite drop_ge.
Qed.

(** ** Histories of a page *)

Inductive op := OInsert (k : RefsBtreeKey) (v : RefsBtreeValue) | ODelete (k : RefsBtreeKey).

(** The page after an operation, and whether it succeeded. *)
Definition apply_op (p : RefsBtreePage) (o : op) : outcome (bool * RefsBtreePage) :=
  match o with
  | OInsert k v => let '(r, p) := insert_key p k v in Ret (match r with inl _ => true | inr _ => false end, p)
  | ODelete k => '(r, p) ← delete_key p k; Ret (match r with inl _ => true | inr _ => false end, p)
  end.

Fixpoint apply_ops (p : RefsBtreePage) (os : list op) : outcome (list bool * RefsBtreePage) :=
  match os with
  | [] => Ret ([], p)
  | o :: os =>
      '(b, p) ← apply_op p o;
      '(bs, p) ← apply_ops p os;
      Ret (b :: bs, p)
  end.

(** The same on the list. *)
Definition spec_op (l : list kv) (o : op) : bool * list kv :=
  match o with
  | OInsert k v =>
      let ok := negb (has_key l k || (REFS_BCBT_MAX_KEY_SIZE <? total_size k)) in
      (ok, if total_size k <=? REFS_BCBT_MAX_KEY_SIZE then put l k v else l)
  | ODelete k => (has_key l k, remove l k)
  end.

Fixpoint spec_ops (l : list kv) (os : list op) : list bool * list kv :=
  match os with
  | [] => ([], l)
  | o :: os => let '(b, l) := spec_op l o in let '(bs, l) := spec_ops l os in (b :: bs, l)
  end.

(** No insertion finds the page full, and the values fit the offsets. *)
Fixpoint in_limits (l : list kv) (os : list op) : Prop :=
  match os with
  | [] => True
  | o :: os =>
      match o with OInsert k v => (length l < 64)%nat /\ key_ok k /\ vsum l + len v <= U16_MAX | ODelete _ => True end /\
      in_limits (spec_op l o).2 os
  end.

Lemma put_bounds l k v : (length (put l k v) <= S (length l))%nat /\ vsum (put l k v) <= vsum l + len v.
Proof.
  pose proof (len_nonneg v). induction l as [| x l [IH1 IH2]]; cbn [put length]; [rewrite (proj2 (sums_cons _ _)); cbn; lia |].
  destruct (compare_keys x.1 k); cbn [length]; rewrite !(proj2 (sums_cons _ _)) in *; cbn [snd] in *; lia.
Qed.

Lemma remove_bounds l k : (length (remove l k) <= length l)%nat /\ vsum (remove l k) <= vsum l.
Proof.
  induction l as [| x l [IH1 IH2]]; cbn [remove length]; [lia |]. pose proof (len_nonneg x.2).
  destruct (compare_keys x.1 k); cbn [length]; rewrite !(proj2 (sums_cons _ _)) in *; lia.
Qed.

Lemma apply_ops_run os p l : page_inv p l -> (length l <= 64)%nat -> vsum l <= U16_MAX -> in_limits l os ->
  exists p', apply_ops p os = Ret ((spec_ops l os).1, p') /\ page_inv p' (spec_ops l os).2 /\
    (length (spec_ops l os).2 <= 64)%nat /\ vsum (spec_ops l os).2 <= U16_MAX.
Proof.
  revert p l. induction os as [| o os IH]; intros p l Hp Hl Hv; [intros _; by exists p |].
  cbn [in_limits apply_ops spec_ops]. intros [Ho Hos].
  assert (H : exists p', apply_op p o = Ret ((spec_op l o).1, p') /\ page_inv p' (spec_op l o).2 /\
    (length (spec_op l o).2 <= 64)%nat /\ vsum (spec_op l o).2 <= U16_MAX).
  { destruct o as [k v | k]; cbn [apply_op spec_op fst snd].
    - destruct Ho as (H1 & H2 & H3). destruct (insert_key_run p l k v Hp H1 H2 H3) as (p' & Hp' & ->). exists p'.
      split; [by destruct (_ || _) |]. split; [done |]. pose proof (put_bounds l k v). destruct (_ <=? _); lia.
    - destruct (delete_run p l k Hp Hl Hv) as (p' & Hp' & ->). autorewrite with nt. exists p'. split; [by destruct (has_key l k) |].
      split; [done |]. pose proof (remove_bounds l k). lia. }
  destruct H as (p' & -> & Hp' & Hl' & Hv'). autorewrite with nt. cbv beta iota. destruct (spec_op l o) as [b l1]. cbn [fst snd] in *.
  destruct (IH p' l1 Hp' Hl' Hv' Hos) as (p2 & -> & H2). autorewrite with nt. exists p2. by destruct (spec_ops l1 os).
Qed.

(** C25: A page is a sorted map. Whatever is inserted and deleted, as long as the page does not
    overflow, each operation succeeds or fails as on the sorted list of keys and values, the iterator
    gives exactly that list, and the binary search finds exactly its keys. *)
Theorem refs_page_refines (os : list op) : in_limits [] os ->
  exists p, let '(bs, l) := spec_ops [] os in
    apply_ops page_new os = Ret (bs, p) /\ ordered l /\ collect (S (length l)) p 0 = Ret l /\
    forall k, exists r, find_key_in_page p k = Ret r /\
      match r with
      | Some i => exists x, l !! i = Some x /\ compare_keys x.1 k = Eq
      | None => has_key l k = false
      end.
Proof.
  intros Hin. destruct (apply_ops_run os page_new [] page_new_inv) as (p & R & [Hp _] & _); [cbn; lia | done | done |]. exists p.
  destruct (spec_ops [] os) as [bs l]. cbn [fst snd] in *. pose proof Hp as [Ha Ho Hc _]. split; [done |]. split; [done |].
  split; [apply (iterator_run p l (S (length l)) 0 (conj Ha Hc)); lia |]. intros k. destruct (find_run p l k Ha Ho) as (r & Hr & Hx). exists r.
  split; [done |]. destruct r; [done |]. by apply has_key_false.
Qed.

(** The keys end up in order exactly if the new one is below the separator or above every key. *)
Lemma halves_ordered l x k v : ordered l -> l !! 32%nat = Some x -> compare_keys x.1 k <> Gt ->
  (ordered (take 32 l ++ drop 32 l ++ [(k, v)]) <-> Forall (fun y => key_lt y.1 k) l).
Proof.
  intros Ho Hx Hk. rewrite app_assoc, take_drop, keys_ordered_app. split.
  - intros (_ & _ & H). apply Forall_forall. intros y Hy. apply (H y (k, v) Hy). set_solver.
  - rewrite Forall_forall. intros H. split; [done |]. split; [repeat constructor |]. intros a b Ha Hb%list_elem_of_singleton. subst b. by apply H.
Qed.

(** C34: What a full page does with a new key. The page splits in the middle. A key below the
    separator goes to its place in the left page, and the two pages are the sorted map with the key in
    it. Any other key is put behind the last entry of the right page, wherever it belongs, so that the
    two pages are in order only if it is above every key of the page. *)
Theorem refs_full_page_splits (os : list op) (k : RefsBtreeKey) (v : RefsBtreeValue) : let l := (spec_ops [] os).2 in
  in_limits [] os -> length l = 64%nat -> key_ok k -> total_size k <= REFS_BCBT_MAX_KEY_SIZE -> has_key l k = false -> vsum l + len v <= U16_MAX ->
  exists p p' r separator lo hi, apply_ops page_new os = Ret ((spec_ops [] os).1, p) /\ insert_key p k v = (inl (Some r), p') /\
    l !! 32%nat = Some separator /\ collect 65 p' 0 = Ret lo /\ collect 65 r 0 = Ret hi /\
    if decide (compare_keys separator.1 k = Gt) then lo = put (take 32 l) k v /\ hi = drop 32 l /\ ordered (lo ++ hi)
    else lo = take 32 l /\ hi = drop 32 l ++ [(k, v)] /\ (ordered (lo ++ hi) <-> Forall (fun y => key_lt y.1 k) l).
Proof.
  cbv zeta. intros Hin Hl Hok Hsz Hno Hv. destruct (apply_ops_run os page_new [] page_new_inv) as (p & R & Hp & _); [cbn; lia | done | done |].
  destruct (spec_ops [] os) as [bs l]. cbn [fst snd] in *. destruct (full_run p l k v Hp Hl Hok Hsz Hno Hv) as (x & p' & r & Hx & Hin' & Hh).
  pose proof Hp as [[_ Ho _ _] _]. destruct (ordered_halves 32 l Ho) as (O1 & O2 & O3).
  assert (Hd : length (drop 32 l) = 32%nat) by (rewrite length_drop; lia). assert (Ht : length (take 32 l) = 32%nat) by (rewrite length_take; lia).
  exists p, p', r, x. case_decide as E.
  - rewrite E in Hh. destruct Hh as [H1 H2]. exists (put (take 32 l) k v), (drop 32 l). pose proof (put_bounds (take 32 l) k v) as [Hb _].
    rewrite (iterator_run _ _ 65 0 H1), (iterator_run _ _ 65 0 H2) by lia. repeat (split; [done |]). apply compare_gt in E.
    apply keys_ordered_app. split; [by apply put_ordered |]. split; [done |]. intros a b Ha Hb'. apply put_elem in Ha as [-> | Ha]; [| by apply O3].
    cbn [fst]. destruct (drop 32 l) as [| y d] eqn:Ed; [set_solver |]. assert (y = x) as ->.
    { assert (Hy : drop 32 l !! 0%nat = Some y) by (by rewrite Ed). rewrite lookup_drop in Hy. change (32 + 0)%nat with 32%nat in Hy. congruence. }
    apply elem_of_cons in Hb' as [-> | Hb']; [done |]. apply key_lt_trans with x.1; [done |]. apply StronglySorted_inv in O2 as [_ O2].
    rewrite Forall_forall in O2. by apply O2.
  - exists (take 32 l), (drop 32 l ++ [(k, v)]).
    assert (Hh' : holds p' (take 32 l) /\ holds r (drop 32 l ++ [(k, v)])) by (by destruct (compare_keys x.1 k)). destruct Hh' as [H1 H2].
    rewrite (iterator_run _ _ 65 0 H1), (iterator_run _ _ 65 0 H2) by (rewrite ?length_app; cbn [length]; lia). repeat (split; [done |]). by eapply halves_ordered.
Qed.

(** Splitting a page and merging the halves gives a page with the same keys and values, if twice the
    values fit the offsets: the left half keeps the bytes of the right one. *)
Theorem refs_split_merge (os : list op) : let l := (spec_ops [] os).2 in
  in_limits [] os -> (2 <= length l)%nat -> 2 * vsum l <= U16_MAX ->
  exists p separator r p' q r', apply_ops page_new os = Ret ((spec_ops [] os).1, p) /\ split_page p = (inl (separator, r), p') /\
    merge_pages p' r = (inl (), q, r') /\ collect (S (length l)) q 0 = Ret l /\ collect 1 r' 0 = Ret [].
Proof.
  cbv zeta. intros Hin Hl2 Hv. destruct (apply_ops_run os page_new [] page_new_inv) as (p & R & Hp & Hl & _); [cbn; lia | done | done |].
  destruct (spec_ops [] os) as [bs l]. cbn [fst snd] in *. pose proof (sums_nonneg l).
  destruct (split_run p l Hp ltac:(lia) ltac:(lia)) as (x & p' & r & _ & Hsp & [Ha' _ Hc' _] & Hkd & Hvd & [[Ra _ Rc Rs] _]). set (n := (length l / 2)%nat) in *.
  pose proof Hp as [[_ _ _ Hs] [T1 T2 _ _]]. pose proof (ksum_bound l Hs) as Hb. destruct (sums_app (take n l) (drop n l)) as [P1 P2]. rewrite take_drop in P1, P2.
  pose proof (sums_nonneg (take n l)). pose proof (length_take l n). pose proof (length_drop l n).
  destruct (merge_run (keys r) p' r (take n l) (drop n l) (conj Ha' Hc') Ra Rs) as (q & Hm & Hq); [unfold U16_MAX; lia | rewrite Hkd; unfold U16_MAX; lia | rewrite Hvd; lia |].
  rewrite take_drop in Hq. exists p, x.1, r, p', q. eexists. split; [done |]. split; [done |].
  split; [| split; [apply (iterator_run q l _ 0 Hq); lia | apply (iterator_run (set_areas r [] [] []) [] 1 0); [split; [apply areas_nil | done] | cbn; lia | cbn; lia]]].
  unfold merge_pages. rewrite (areas_length _ _ _ _ Ha'), (areas_length _ _ _ _ Ra), (proj2 (Z.ltb_ge _ _)) by (unfold U16_MAX; lia). by rewrite Hm.
Qed.

(** ** Writing and reading *)

Definition entries_bytes (es : list RefsBtreeKeyEntry) : list Z := concat (entry_bytes <$> es).

Lemma length_entry_bytes e : length (entry_bytes e) = 8%nat.
Proof. unfold entry_bytes. by rewrite !length_app, !length_to_le. Qed.

Lemma length_entries_bytes es : length (entries_bytes es) = (8 * length es)%nat.
Proof.
  induction es as [| e es IH]; [done |]. unfold entries_bytes in *. cbn [fmap list_fmap concat]. rewrite length_app, length_entry_bytes, IH.
  cbn [length]. lia.
Qed.

Lemma write_entries_run es P R : (8 * length es <= length R)%nat ->
  write_entries (P ++ R) (length P) es = Ret ((P ++ entries_bytes es) ++ drop (8 * length es) R, (length P + 8 * length es)%nat).
Proof.
  revert P R. induction es as [| e es IH]; intros P R HR; cbn [write_entries].
  - cbn [length]. rewrite Nat.mul_0_r, Nat.add_0_r, drop_0. unfold entries_bytes. cbn. by rewrite app_nil_r.
  - cbn [length] in HR. rewrite copy_cursor by (rewrite ?length_entry_bytes; lia). autorewrite with nt. rewrite length_entry_bytes.
    replace (length P + 8)%nat with (length (P ++ entry_bytes e)) by (rewrite length_app, length_entry_bytes; lia).
    rewrite IH by (rewrite length_drop; lia). rewrite drop_drop, length_app, length_entry_bytes. unfold entries_bytes at 2. cbn [fmap list_fmap concat length].
    replace (8 * S (length es))%nat with (8 + 8 * length es)%nat by lia. fold (entries_bytes es). by rewrite <- !app_assoc, !Nat.add_assoc.
Qed.

Lemma u16_at_run P x R n : n = length P -> u_ty 16 x -> u16_at (P ++ to_le 2 x ++ R) n = Ret x.
Proof.
  intros -> Hx. unfold u16_at. rewrite (slice_app P (to_le 2 x) R) by (rewrite ?length_to_le; done). autorewrite with nt. by rewrite (from_to_le 2 x).
Qed.

Lemma read_entry_run P e R : entry_ok e -> let b := P ++ entry_bytes e ++ R in
  u16_at b (length P) = Ret (key_offset e) /\ u16_at b (length P + 2) = Ret (key_len e) /\
  u16_at b (length P + 4) = Ret (value_offset e) /\ u16_at b (length P + 6) = Ret (value_len e).
Proof.
  intros [H1 H2 H3 H4]. cbv zeta. unfold entry_bytes. rewrite <- !app_assoc. split; [by apply u16_at_run |].
  rewrite (app_assoc P). split; [apply u16_at_run; [by rewrite length_app, length_to_le | done] |].
  rewrite (app_assoc (P ++ _)). split; [apply u16_at_run; [rewrite !length_app, !length_to_le; lia | done] |].
  rewrite (app_assoc (_ ++ to_le 2 (key_len e))). apply u16_at_run; [rewrite !length_app, !length_to_le; lia | done].
Qed.

Lemma read_entries_run es P R : Forall entry_ok es -> read_entries (length es) (P ++ entries_bytes es ++ R) (length P) = Ret es.
Proof.
  intros Hok. revert P. induction Hok as [| e es He Hes IH]; intros P; [done |]. cbn [length read_entries].
  unfold entries_bytes. cbn [fmap list_fmap concat]. fold (entries_bytes es). rewrite <- app_assoc.
  rewrite (proj2 (Nat.ltb_ge _ _)) by (rewrite !length_app, length_entry_bytes; lia).
  destruct (read_entry_run P e (entries_bytes es ++ R) He) as (-> & -> & -> & ->). autorewrite with nt.
  replace (length P + 8)%nat with (length (P ++ entry_bytes e)) by (rewrite length_app, length_entry_bytes; lia).
  rewrite app_assoc, IH. autorewrite with nt. by destruct e.
Qed.

Lemma length_header_bytes p : header_typed (header p) -> length (header_bytes p) = 16%nat.
Proof. intros H. unfold header_bytes. rewrite !length_app, !length_to_le, (ht_reserved _ H). done. Qed.

(** The page in bytes, with zeros to its end. *)
Lemma serialize_run p l size : page_ok p l -> tight p l -> 16 + 8 * Z.of_nat (length l) + ksum l + vsum l <= size ->
  exists z, serialize_page p size = Ret (inl (header_bytes p ++ entries_bytes (keys p) ++ key_data p ++ value_data p ++ z)) /\
    16 + 8 * Z.of_nat (length l) + ksum l + vsum l + len z = size.
Proof.
  intros [Ha _ _ _] [T1 T2 _ T4] Hsz. pose proof (areas_length _ _ _ _ Ha) as Hl. pose proof (length_header_bytes p T4) as Hh. pose proof (sums_nonneg l) as [N1 N2].
  unfold serialize_page. set (R := replicate (Z.to_nat size) 0). assert (HR : length R = Z.to_nat size) by apply length_replicate.
  unfold len in T1, T2.
  assert (Hc : copy_at R 0 (header_bytes p) = Ret (header_bytes p ++ drop 16 R)).
  { rewrite <- Hh. apply (copy_cursor [] R); [done |]. rewrite Hh, HR. lia. }
  rewrite Hc. autorewrite with nt. pose proof (write_entries_run (keys p) (header_bytes p) (drop 16 R)) as W. rewrite Hh in W.
  rewrite W by (rewrite length_drop, HR, Hl; lia). autorewrite with nt. cbv beta iota. rewrite Hl. unfold len.
  rewrite (proj2 (Z.ltb_ge size _)) by lia.
  rewrite (copy_cursor (header_bytes p ++ entries_bytes (keys p)) _ (key_data p)) by (rewrite ?length_app, ?length_drop, ?length_entries_bytes, ?HR; lia).
  autorewrite with nt. rewrite (copy_cursor ((header_bytes p ++ entries_bytes (keys p)) ++ key_data p) _ (value_data p))
    by (rewrite ?length_app, ?length_drop, ?length_entries_bytes, ?HR; lia).
  autorewrite with nt. eexists. split; [rewrite <- !app_assoc; reflexivity |]. rewrite !length_drop, HR. lia.
Qed.

(** The fields of the header at their offsets. *)
Lemma header_run p T : header_typed (header p) -> u_ty 16 (Z.of_nat (length (keys p))) -> let b := header_bytes p ++ T in let h := header p in
  slice b 0 4 = Ret (to_le 4 (magic h)) /\ rd b 4 = Ret (flags h) /\ rd b 5 = Ret (height h) /\ u16_at b 6 = Ret (page_count h) /\
  u16_at b 8 = Ret (Z.of_nat (length (keys p))) /\ u16_at b 10 = Ret (value_length h) /\ slice b 12 16 = Ret (reserved h).
Proof.
  intros [_ _ _ H3 H4 H5] Hn. cbv zeta. unfold header_bytes. rewrite (wrap_small 16) by (exact Hn).
  set (n := Z.of_nat _) in *. rewrite <- !app_assoc.
  split; [by apply (slice_app []); rewrite ?length_to_le |].
  split; [by rewrite (rd_app_0 (to_le 4 _)) by (by rewrite length_to_le) |].
  split; [by rewrite (rd_app (to_le 4 _) _ 4 1) by (by rewrite length_to_le) |].
  rewrite !(app_assoc (to_le 4 (magic (header p)))). set (P := to_le 4 (magic (header p)) ++ [flags (header p); height (header p)]).
  assert (HP : length P = 6%nat) by (unfold P; by rewrite length_app, length_to_le). clearbody P.
  split; [apply u16_at_run; done |].
  rewrite !(app_assoc P). split; [apply u16_at_run; [by rewrite length_app, length_to_le, HP | done] |].
  rewrite !(app_assoc (P ++ _)). split; [apply u16_at_run; [by rewrite !length_app, !length_to_le, HP | done] |].
  rewrite (app_assoc (_ ++ to_le 2 n)). apply slice_app; rewrite !length_app, !length_to_le, HP; [done |]. by rewrite H5.
Qed.

Lemma parse_run p l z lb : page_ok p l -> tight p l -> (length l <= 64)%nat ->
  exists p', parse_page (header_bytes p ++ entries_bytes (keys p) ++ key_data p ++ value_data p ++ z) lb = Ret (Some p') /\ page_ok p' l /\ lba p' = lb.
Proof.
  intros [Ha Ho Hc Hs] [T1 T2 T3 T4] Hl. pose proof (areas_length _ _ _ _ Ha) as Hlen. pose proof (length_header_bytes p T4) as Hh.
  set (T := entries_bytes (keys p) ++ key_data p ++ value_data p ++ z).
  destruct (header_run p T T4 ltac:(unfold u_ty; lia)) as (F1 & F2 & F3 & F4 & F5 & F6 & F7). unfold parse_page.
  remember (header_bytes p ++ T) as b eqn:Eb. rewrite (proj2 (Nat.ltb_ge _ _)) by (rewrite Eb, length_app, Hh; lia). rewrite F1, F2, F3, F4, F5, F6, F7. autorewrite with nt.
  assert (Hm : from_le (to_le 4 (magic (header p))) = magic (header p)).
  { apply (from_to_le 4). pose proof (ht_valid _ T4) as Hv. unfold header_is_valid, REFS_BCBT_MAGIC, REFS_BCBT_INDEX_MAGIC in Hv. unfold u_ty. lia. }
  rewrite Hm. unfold header_is_valid. cbn [magic]. pose proof (ht_valid _ T4) as Hv. unfold header_is_valid in Hv. rewrite Hv. cbn [negb].
  rewrite Nat2Z.id, Hlen. set (h := mk_page_header _ _ _ _ _ _ _).
  assert (Hbase : length (header_bytes p ++ entries_bytes (keys p)) = (16 + length l * 8)%nat) by (rewrite length_app, Hh, length_entries_bytes; lia).
  destruct (Nat.eqb_spec (length b) (16 + length l * 8)) as [E | E].
  - assert (l = []) as ->.
    { unfold T in Eb. rewrite Eb, !length_app, Hh, length_entries_bytes, Hlen in E. destruct l as [| x l]; [done |].
      rewrite (proj1 (sums_cons _ _)) in T1. unfold total_size in T1. pose proof (sums_nonneg l). pose proof (len_nonneg (data x.1)). unfold len in T1. lia. }
    cbn [length] in E |- *. rewrite slice_in by lia. autorewrite with nt. eexists. split; [done |]. split; [| done]. constructor; [apply areas_nil | constructor | done | done].
  - assert (Hr : read_entries (length l) b 16 = Ret (keys p)).
    { rewrite Eb, <- Hlen, <- Hh. apply (read_entries_run (keys p) (header_bytes p) (key_data p ++ value_data p ++ z)). apply Ha. }
    rewrite Hr. autorewrite with nt.
    assert (Hsize : (if 0 <? Z.of_nat (length l) then Z.to_nat (max_end (keys p)) else 0%nat) = length (key_data p)).
    { rewrite T3. unfold len. rewrite Nat2Z.id. destruct (Z.ltb_spec 0 (Z.of_nat (length l))); [done |]. destruct l; [| cbn in *; lia]. unfold len in T1. change (ksum []) with 0 in T1. lia. }
    rewrite Hsize. assert (S1 : slice b (16 + length l * 8) (16 + length l * 8 + length (key_data p)) = Ret (key_data p)).
    { rewrite Eb. unfold T. rewrite app_assoc. apply slice_app; by rewrite Hbase. }
    assert (S2 : slice b (16 + length l * 8 + length (key_data p)) (length b) = Ret (value_data p ++ z)).
    { rewrite Eb. unfold T. rewrite !app_assoc, <- (app_assoc (_ ++ key_data p)). rewrite <- (app_nil_r (value_data p ++ z)) at 1.
      apply slice_app; rewrite !(length_app (_ ++ _) (key_data p)), Hbase; [done |]. by rewrite length_app, !(length_app (_ ++ _) (key_data p)), Hbase. }
    rewrite S1. autorewrite with nt. rewrite S2. autorewrite with nt. eexists. split; [done |]. split; [| done].
    constructor; cbn [keys key_data value_data header]; [| done | done | done].
    rewrite <- (app_nil_r (key_data p)). by apply areas_ext.
Qed.

(** C26: A page that is written can be read. After any insertions and deletions that do not overflow
    it, a page that fits [size] bytes is written to exactly that many bytes, and parsing them gives a
    page with the block number asked for whose iterator has the same keys and values in the same
    order. *)
Theorem refs_page_roundtrip (os : list op) (size lb : Z) : let l := (spec_ops [] os).2 in
  in_limits [] os -> 16 + 8 * Z.of_nat (length l) + ksum l + vsum l <= size ->
  exists p b p', apply_ops page_new os = Ret ((spec_ops [] os).1, p) /\ serialize_page p size = Ret (inl b) /\ len b = size /\
    parse_page b lb = Ret (Some p') /\ lba p' = lb /\ collect (S (length l)) p' 0 = Ret l.
Proof.
  cbv zeta. intros Hin Hsz. destruct (apply_ops_run os page_new [] page_new_inv) as (p & R & [Hp Ht] & Hl & _); [cbn; lia | done | done |].
  destruct (spec_ops [] os) as [bs l]. cbn [fst snd] in *. destruct (serialize_run p l size Hp Ht Hsz) as (z & Hs & Hz).
  destruct (parse_run p l z lb Hp Ht Hl) as (p' & Hpp & [Ha' _ Hc' _] & Hlb). exists p. eexists. exists p'. split; [done |]. split; [exact Hs |].
  split; [| split; [exact Hpp |]; split; [done |]; apply (iterator_run p' l (S (length l)) 0 (conj Ha' Hc')); lia].
  destruct Hp as [Ha _ _ _]. destruct Ht as [T1 T2 _ T4]. rewrite !area_len_app, T1, T2. unfold len.
  rewrite (length_header_bytes p T4), length_entries_bytes, (areas_length _ _ _ _ Ha). unfold len in Hz. lia.
Qed.

(** ** Concrete pages *)

Definition small_key (i : Z) : RefsBtreeKey := mk_key i 0 0 [].

(** Three keys, as in the test of the file, one again and one deleted. *)
Definition three_ops : list op :=
  [OInsert (small_key 30) [30]; OInsert (small_key 10) [10; 11]; OInsert (small_key 20) [20]; OInsert (small_key 20) []; ODelete (small_key 30)].

Lemma three_in_limits : in_limits [] three_ops.
Proof.
  cbv [three_ops in_limits]. repeat split; try (cbv; done); cbn; try lia; repeat constructor.
Qed.

Lemma refs_page_refines_witness :
  exists p, apply_ops page_new three_ops = Ret ([true; true; true; false; true], p) /\ find_key_in_page p (small_key 20) = Ret (Some 1%nat).
Proof.
  destruct (refs_page_refines three_ops three_in_limits) as (p & H). destruct (spec_ops [] three_ops) as [bs l] eqn:E.
  destruct H as (R & _). exists p. revert E R. vm_compute. intros [= <- <-] [= <-]. done.
Defined.

Lemma refs_page_roundtrip_witness :
  exists p b p', apply_ops page_new three_ops = Ret ([true; true; true; false; true], p) /\ serialize_page p 100 = Ret (inl b) /\
    parse_page b 31 = Ret (Some p') /\ collect 3 p' 0 = Ret [(small_key 10, [10; 11]); (small_key 20, [20])].
Proof.
  destruct (refs_page_roundtrip three_ops 100 31 three_in_limits ltac:(vm_compute; done)) as (p & b & p' & R & H1 & H2 & H3 & H4 & H5).
  exists p, b, p'. split; [exact R |]. split; [exact H1 |]. split; [exact H3 |]. exact H5.
Defined.

Definition inserts (ks : list RefsBtreeKey) (v : RefsBtreeValue) : list op := (fun k => OInsert k v) <$> ks.

Lemma inserts_in_limits ks v l : Forall key_ok ks -> (length l + length ks <= 64)%nat -> vsum l + Z.of_nat (length ks) * len v <= U16_MAX -> in_limits l (inserts ks v).
Proof.
  intros H. revert l. induction H as [| k ks Hk _ IH]; intros l Hl Hv; [done |]. cbn [inserts fmap list_fmap in_limits spec_op snd length] in *.
  pose proof (len_nonneg v). pose proof (put_bounds l k v). split; [split; [lia |]; split; [done |]; nia |]. apply IH; destruct (_ <=? _); nia.
Qed.

(** The keys 0, 10, ..., 630, each with a byte. *)
Definition full_ops : list op := inserts (small_key <$> (Z.mul 10 <$> seqZ 0 64)) [7].

Lemma full_in_limits : in_limits [] full_ops.
Proof.
  apply inserts_in_limits; [| done | done]. apply Forall_forall. intros k (i & -> & (j & -> & Hj%elem_of_seqZ)%list_elem_of_fmap)%list_elem_of_fmap.
  constructor; cbn; unfold u_ty; try lia.
Qed.

Definition page_of (r : outcome (list bool * RefsBtreePage)) : RefsBtreePage := match r with Ret (_, p) => p | _ => page_new end.

Definition full_page : RefsBtreePage := page_of (apply_ops page_new full_ops).

Lemma full_page_is bs p : apply_ops page_new full_ops = Ret (bs, p) -> full_page = p.
Proof. unfold full_page. by intros ->. Qed.

(** A key in the middle of the right page is inserted, and the search does not find it. *)
Lemma refs_full_page_splits_witness :
  exists p' r, insert_key full_page (small_key 405) [8] = (inl (Some r), p') /\
    find_key_in_page r (small_key 405) = Ret None /\ find_key_in_page p' (small_key 405) = Ret None.
Proof.
  destruct (refs_full_page_splits full_ops (small_key 405) [8] full_in_limits) as (p & p' & r & x & lo & hi & R & Hi & _);
    [by vm_compute | constructor; (by vm_compute || constructor) | by vm_compute | by vm_compute | by vm_compute |].
  apply full_page_is in R. rewrite <- R in Hi. clear R. exists p', r. split; [exact Hi |].
  assert (E : match insert_key full_page (small_key 405) [8] with
    | (inl (Some r), q') => find_key_in_page r (small_key 405) = Ret None /\ find_key_in_page q' (small_key 405) = Ret None
    | _ => False
    end) by (clear; vm_compute; split; reflexivity). rewrite Hi in E. exact E.
Defined.

Definition long_key : RefsBtreeKey := mk_key 405 0 0 (replicate 233 0).

(** A key that is too long for any page splits a full one before it is refused, and the right half is
    dropped. *)
Example refused_key_loses_half :
  find_key_in_page full_page (small_key 400) = Ret (Some 40%nat) /\ (insert_key full_page long_key []).1 = inr STATUS_UNSUCCESSFUL /\
  length (keys (insert_key full_page long_key []).2) = 32%nat /\ find_key_in_page (insert_key full_page long_key []).2 (small_key 400) = Ret None.
Proof. split; [by vm_compute |]. split; [by vm_compute |]. split; by vm_compute. Qed.

(** The first two keys and values of a page, and of a page that is written and read. *)
Definition first_two (p : RefsBtreePage) : outcome (list (RefsBtreeKey * RefsBtreeValue)) := l ← collect 33 p 0; Ret (take 2 l).

Definition reread (p : RefsBtreePage) (size : Z) : outcome RefsBtreePage :=
  b ← serialize_page p size;
  match b with
  | inl b => r ← parse_page b 0; match r with Some p => Ret p | None => Panic end
  | inr _ => Panic
  end.

Definition left_page : RefsBtreePage := (insert_key full_page (small_key 635) [8]).2.

(** The left page of a split keeps the bytes of all keys, but a parsed page takes its values from
    behind the last key an entry points to: written and read, the page has other values. *)
Example split_page_written_wrong :
  first_two left_page = Ret [(small_key 0, [7]); (small_key 10, [7])] /\
  (reread left_page 4096 ≫= first_two) = Ret [(small_key 0, [64]); (small_key 10, [1])].
Proof. split; by vm_compute. Qed.

Definition big_value (x : Z) : RefsBtreeValue := replicate (Z.to_nat 40000) x.

Definition big_page : RefsBtreePage :=
  page_of (apply_ops page_new [OInsert (small_key 1) (big_value 1); OInsert (small_key 2) (big_value 2); OInsert (small_key 3) [3]]).

(** The offset of a value is cut at 65535 without a check: the third value is read from the second. *)
Example value_offset_cut : iterator_next big_page 2 = Ret (Some (small_key 3, [2]), 3%nat).
Proof. by vm_compute. Qed.

(** Bytes that claim an entry behind the end of the buffer, and bytes that end with the entries. *)
Definition wild_entry : list Z := to_le 4 REFS_BCBT_MAGIC ++ [0; 0; 1; 0; 1; 0; 0; 0; 0; 0; 0; 0] ++ [255; 255; 24; 0; 0; 0; 0; 0] ++ [0].
Definition entries_only : list Z := take 24 wild_entry.

Example parse_panics : parse_page wild_entry 0 = Panic.
Proof. by vm_compute. Qed.

Example parsed_page_panics : exists p, parse_page entries_only 0 = Ret (Some p) /\ iterator_next p 0 = Panic.
Proof. eexists. split; [by vm_compute |]. by vm_compute. Qed.

End RefsBtree.
