(* ===== verification/Cache.v ===== *)
(** * The block cache of the file systems ([fs/cache.rs])

    Blocks of 4096 bytes in 16384 slots, found through a map and kept in a doubly linked list in the
    order of their use, with read-ahead, delayed writing and a queue of invalidations. The disk below
    is the class [DiskBackend], as in [drivers/storage/disk.rs], with the laws of a disk that does
    not fail in [DiskLaws]. [usize::MAX], which ends the links of the list, is [None]. The specification
    is a store of blocks. *)

From Stdlib Require Import ZArith Lia SpecFloat.
From S2P Require Import Prelude.

(** ** The disk *)

(** The bytes that arrive, and the number of bytes that are written. *)
Class DiskBackend (D : Type) := {
  disk_read : D -> Z -> Z -> list Z * D;
  disk_write : D -> Z -> Z -> list Z -> Z * D }.

Module Cache.

Local Open Scope Z_scope.

(** ** Data *)

Definition CACHE_BLOCK_SIZE : Z := 4096.
Definition MAX_CACHE_BLOCKS : Z := 16384.
Definition READAHEAD_MIN : Z := 4.
Definition READAHEAD_MAX : Z := 32.
Definition SEQUENTIAL_THRESHOLD : Z := 3.
Definition WRITEBACK_INTERVAL : Z := 5000.
Definition DIRTY_THRESHOLD_SOFT : Z := 60.
Definition DIRTY_THRESHOLD_HARD : Z := 80.
Definition STATUS_UNSUCCESSFUL : Z := 0xC0000001.

Inductive CoherencyMode := NoCoherency | WriteThrough | WriteBackInvalidate.
Inductive EvictionPolicy := LRU | LFU | ARC.
Inductive CacheBlockState := Free | Clean | Dirty | Reading | Writing | Pinned | Locked.

#[export] Instance CoherencyMode_eq : EqDecision CoherencyMode.
Proof. solve_decision. Defined.
#[export] Instance CacheBlockState_eq : EqDecision CacheBlockState.
Proof. solve_decision. Defined.

Record CacheBlock := mk_block {
  file_id : Z; block_number : Z; state : CacheBlockState; ref_count : Z; access_count : Z; lru_prev : option nat; lru_next : option nat;
  pfn : Z; dirty_time : Z; access_time : Z; sequence_id : Z }.

Definition block_new : CacheBlock := mk_block 0 0 Free 0 0 None None 0 0 0 0.

Definition is_dirty (b : CacheBlock) : bool := bool_decide (state b = Dirty).
Definition is_pinned (b : CacheBlock) : bool := (0 <? ref_count b) || bool_decide (state b = Pinned).
Definition is_locked (b : CacheBlock) : bool := bool_decide (state b = Locked).
Definition can_evict (b : CacheBlock) : bool :=
  negb (is_pinned b) && negb (is_locked b) && bool_decide (state b <> Reading) && bool_decide (state b <> Writing).

Definition set_state (s : CacheBlockState) (b : CacheBlock) : CacheBlock :=
  mk_block (file_id b) (block_number b) s (ref_count b) (access_count b) (lru_prev b) (lru_next b) (pfn b) (dirty_time b) (access_time b) (sequence_id b).
Definition set_dirty (now : Z) (b : CacheBlock) : CacheBlock :=
  mk_block (file_id b) (block_number b) Dirty (ref_count b) (access_count b) (lru_prev b) (lru_next b) (pfn b) now (access_time b) (sequence_id b).
Definition set_ref_count (n : Z) (b : CacheBlock) : CacheBlock :=
  mk_block (file_id b) (block_number b) (state b) n (access_count b) (lru_prev b) (lru_next b) (pfn b) (dirty_time b) (access_time b) (sequence_id b).
Definition set_access (n now : Z) (b : CacheBlock) : CacheBlock :=
  mk_block (file_id b) (block_number b) (state b) (ref_count b) n (lru_prev b) (lru_next b) (pfn b) (dirty_time b) now (sequence_id b).
Definition set_links (prev next : option nat) (b : CacheBlock) : CacheBlock :=
  mk_block (file_id b) (block_number b) (state b) (ref_count b) (access_count b) prev next (pfn b) (dirty_time b) (access_time b) (sequence_id b).
Definition set_prev (prev : option nat) (b : CacheBlock) : CacheBlock := set_links prev (lru_next b) b.
Definition set_next (next : option nat) (b : CacheBlock) : CacheBlock := set_links (lru_prev b) next b.

(** The fields that [allocate] sets. *)
Definition claim (fid bn now sequence : Z) (b : CacheBlock) : CacheBlock :=
  mk_block fid bn Clean 0 0 (lru_prev b) (lru_next b) (pfn b) (dirty_time b) now sequence.

Record ReadAheadState := mk_readahead { last_block : Z; sequential_count : Z; window_size : Z; predicted_next : Z; last_access_time : Z }.

Definition readahead_new : ReadAheadState := mk_readahead 0 0 READAHEAD_MIN 0 0.

Definition readahead_update (s : ReadAheadState) (bn time : Z) : ReadAheadState :=
  let '(count, window) :=
    if bn =? last_block s +[64] 1 then
      let count := sequential_count s +[32] 1 in
      (count, if SEQUENTIAL_THRESHOLD <=? count then Z.min (window_size s *[64] 2) READAHEAD_MAX else window_size s)
    else (0, READAHEAD_MIN) in
  mk_readahead bn count window (bn +[64] 1) time.

Definition should_readahead (s : ReadAheadState) : bool := SEQUENTIAL_THRESHOLD <=? sequential_count s.

Definition get_readahead_range (s : ReadAheadState) : option (Z * Z) :=
  if should_readahead s then Some (predicted_next s, window_size s) else None.

Record InvalidationNotification := mk_notification { n_file_id : Z; n_block_number : Z; n_timestamp : Z }.

Record CacheStatistics := mk_stats {
  hits : Z; misses : Z; reads : Z; writes : Z; evictions : Z; dirty_blocks : Z; readahead_hits : Z; readahead_misses : Z;
  writebacks : Z; coherency_invalidations : Z }.

Definition stats_new : CacheStatistics := mk_stats 0 0 0 0 0 0 0 0 0 0.

Definition bump_hits s := mk_stats (hits s +[64] 1) (misses s) (reads s) (writes s) (evictions s) (dirty_blocks s) (readahead_hits s) (readahead_misses s) (writebacks s) (coherency_invalidations s).
Definition bump_misses s := mk_stats (hits s) (misses s +[64] 1) (reads s) (writes s) (evictions s) (dirty_blocks s) (readahead_hits s) (readahead_misses s) (writebacks s) (coherency_invalidations s).
Definition bump_reads s := mk_stats (hits s) (misses s) (reads s +[64] 1) (writes s) (evictions s) (dirty_blocks s) (readahead_hits s) (readahead_misses s) (writebacks s) (coherency_invalidations s).
Definition bump_writes s := mk_stats (hits s) (misses s) (reads s) (writes s +[64] 1) (evictions s) (dirty_blocks s) (readahead_hits s) (readahead_misses s) (writebacks s) (coherency_invalidations s).
Definition bump_evictions s := mk_stats (hits s) (misses s) (reads s) (writes s) (evictions s +[64] 1) (dirty_blocks s) (readahead_hits s) (readahead_misses s) (writebacks s) (coherency_invalidations s).
Definition bump_dirty s := mk_stats (hits s) (misses s) (reads s) (writes s) (evictions s) (dirty_blocks s +[64] 1) (readahead_hits s) (readahead_misses s) (writebacks s) (coherency_invalidations s).
Definition bump_ra_hits s := mk_stats (hits s) (misses s) (reads s) (writes s) (evictions s) (dirty_blocks s) (readahead_hits s +[64] 1) (readahead_misses s) (writebacks s) (coherency_invalidations s).
Definition bump_ra_misses s := mk_stats (hits s) (misses s) (reads s) (writes s) (evictions s) (dirty_blocks s) (readahead_hits s) (readahead_misses s +[64] 1) (writebacks s) (coherency_invalidations s).
Definition bump_written s := mk_stats (hits s) (misses s) (reads s) (writes s) (evictions s) (dirty_blocks s -[64] 1) (readahead_hits s) (readahead_misses s) (writebacks s +[64] 1) (coherency_invalidations s).
Definition bump_invalidations s := mk_stats (hits s) (misses s) (reads s) (writes s) (evictions s) (dirty_blocks s) (readahead_hits s) (readahead_misses s) (writebacks s) (coherency_invalidations s +[64] 1).

(** [f32] is binary32. *)
Definition f32 : Type := spec_float.
Definition f32_of_int (x : Z) : f32 := binary_normalize 24 128 x 0 false.

(** [a as f32 / b as f32 * 100.0] *)
Definition percentage (a b : Z) : f32 :=
  if b =? 0 then f32_of_int 0 else SFmul 24 128 (SFdiv 24 128 (f32_of_int a) (f32_of_int b)) (f32_of_int 100).

Definition hit_rate (s : CacheStatistics) : f32 := percentage (hits s) (hits s +[64] misses s).
Definition readahead_effectiveness (s : CacheStatistics) : f32 := percentage (readahead_hits s) (readahead_hits s +[64] readahead_misses s).
Definition dirty_percentage (s : CacheStatistics) (total_blocks : Z) : f32 := percentage (dirty_blocks s) total_blocks.

Record CacheManager := mk_manager {
  blocks : list CacheBlock; hash_table : gmap (Z * Z) nat; data : list (list Z); lru_head : option nat; lru_tail : option nat; blocks_used : nat;
  stats : CacheStatistics; readahead_state : gmap Z ReadAheadState; dirty_queue : list nat; last_writeback : Z; writeback_enabled : bool;
  policy : EvictionPolicy; coherency_mode : CoherencyMode; invalidation_queue : list InvalidationNotification }.

Definition slots : nat := Z.to_nat MAX_CACHE_BLOCKS.
Definition block_bytes : nat := Z.to_nat CACHE_BLOCK_SIZE.

Definition manager_new (pol : EvictionPolicy) (coherency : CoherencyMode) : CacheManager :=
  mk_manager (replicate slots block_new) ∅ (replicate slots (replicate block_bytes 0)) None None 0 stats_new ∅ [] 0 true pol coherency [].

Definition set_blocks (bs : list CacheBlock) (c : CacheManager) : CacheManager :=
  mk_manager bs (hash_table c) (data c) (lru_head c) (lru_tail c) (blocks_used c) (stats c) (readahead_state c) (dirty_queue c) (last_writeback c)
    (writeback_enabled c) (policy c) (coherency_mode c) (invalidation_queue c).
Definition set_list (bs : list CacheBlock) (head tail : option nat) (c : CacheManager) : CacheManager :=
  mk_manager bs (hash_table c) (data c) head tail (blocks_used c) (stats c) (readahead_state c) (dirty_queue c) (last_writeback c)
    (writeback_enabled c) (policy c) (coherency_mode c) (invalidation_queue c).
Definition set_hash (h : gmap (Z * Z) nat) (c : CacheManager) : CacheManager :=
  mk_manager (blocks c) h (data c) (lru_head c) (lru_tail c) (blocks_used c) (stats c) (readahead_state c) (dirty_queue c) (last_writeback c)
    (writeback_enabled c) (policy c) (coherency_mode c) (invalidation_queue c).
Definition set_data (d : list (list Z)) (c : CacheManager) : CacheManager :=
  mk_manager (blocks c) (hash_table c) d (lru_head c) (lru_tail c) (blocks_used c) (stats c) (readahead_state c) (dirty_queue c) (last_writeback c)
    (writeback_enabled c) (policy c) (coherency_mode c) (invalidation_queue c).
Definition set_used (n : nat) (c : CacheManager) : CacheManager :=
  mk_manager (blocks c) (hash_table c) (data c) (lru_head c) (lru_tail c) n (stats c) (readahead_state c) (dirty_queue c) (last_writeback c)
    (writeback_enabled c) (policy c) (coherency_mode c) (invalidation_queue c).
Definition set_stats (s : CacheStatistics) (c : CacheManager) : CacheManager :=
  mk_manager (blocks c) (hash_table c) (data c) (lru_head c) (lru_tail c) (blocks_used c) s (readahead_state c) (dirty_queue c) (last_writeback c)
    (writeback_enabled c) (policy c) (coherency_mode c) (invalidation_queue c).
Definition set_readahead (m : gmap Z ReadAheadState) (c : CacheManager) : CacheManager :=
  mk_manager (blocks c) (hash_table c) (data c) (lru_head c) (lru_tail c) (blocks_used c) (stats c) m (dirty_queue c) (last_writeback c)
    (writeback_enabled c) (policy c) (coherency_mode c) (invalidation_queue c).
Definition set_queue (q : list nat) (c : CacheManager) : CacheManager :=
  mk_manager (blocks c) (hash_table c) (data c) (lru_head c) (lru_tail c) (blocks_used c) (stats c) (readahead_state c) q (last_writeback c)
    (writeback_enabled c) (policy c) (coherency_mode c) (invalidation_queue c).
Definition set_last_writeback (n : Z) (c : CacheManager) : CacheManager :=
  mk_manager (blocks c) (hash_table c) (data c) (lru_head c) (lru_tail c) (blocks_used c) (stats c) (readahead_state c) (dirty_queue c) n
    (writeback_enabled c) (policy c) (coherency_mode c) (invalidation_queue c).
Definition set_writeback_enabled (e : bool) (c : CacheManager) : CacheManager :=
  mk_manager (blocks c) (hash_table c) (data c) (lru_head c) (lru_tail c) (blocks_used c) (stats c) (readahead_state c) (dirty_queue c) (last_writeback c)
    e (policy c) (coherency_mode c) (invalidation_queue c).
Definition set_coherency_mode (m : CoherencyMode) (c : CacheManager) : CacheManager :=
  mk_manager (blocks c) (hash_table c) (data c) (lru_head c) (lru_tail c) (blocks_used c) (stats c) (readahead_state c) (dirty_queue c) (last_writeback c)
    (writeback_enabled c) (policy c) m (invalidation_queue c).
Definition set_invalidations (q : list InvalidationNotification) (c : CacheManager) : CacheManager :=
  mk_manager (blocks c) (hash_table c) (data c) (lru_head c) (lru_tail c) (blocks_used c) (stats c) (readahead_state c) (dirty_queue c) (last_writeback c)
    (writeback_enabled c) (policy c) (coherency_mode c) q.
Definition count (f : CacheStatistics -> CacheStatistics) (c : CacheManager) : CacheManager := set_stats (f (stats c)) c.

(** [self.blocks[i]] is changed. *)
Definition upd (bs : list CacheBlock) (i : nat) (f : CacheBlock -> CacheBlock) : outcome (list CacheBlock) := b ← rd bs i; wr bs i (f b).

Definition upd_block (c : CacheManager) (i : nat) (f : CacheBlock -> CacheBlock) : outcome CacheManager :=
  bs ← upd (blocks c) i f; Ret (set_blocks bs c).

(** ** The list of use *)

Definition add_to_lru (c : CacheManager) (i : nat) : outcome CacheManager :=
  match lru_head c with
  | None => bs ← upd (blocks c) i (set_links None None); Ret (set_list bs (Some i) (Some i) c)
  | Some head =>
      bs ← upd (blocks c) i (set_links None (Some head));
      bs ← upd bs head (set_prev (Some i));
      Ret (set_list bs (Some i) (lru_tail c) c)
  end.

Definition remove_from_lru (c : CacheManager) (i : nat) : outcome CacheManager :=
  b ← rd (blocks c) i;
  let prev := lru_prev b in
  let next := lru_next b in
  bs ← match prev with Some p => upd (blocks c) p (set_next next) | None => Ret (blocks c) end;
  let head := match prev with Some _ => lru_head c | None => next end in
  bs ← match next with Some n => upd bs n (set_prev prev) | None => Ret bs end;
  let tail := match next with Some _ => lru_tail c | None => prev end in
  bs ← upd bs i (set_links None None);
  Ret (set_list bs head tail c).

Definition move_to_lru_head (c : CacheManager) (i : nat) : outcome CacheManager :=
  if bool_decide (lru_head c = Some i) then Ret c
  else
    c ← remove_from_lru c i;
    add_to_lru c i.

(** ** Choosing a victim *)

Fixpoint lru_walk (n : nat) (bs : list CacheBlock) (current : option nat) : outcome (option nat) :=
  match n, current with
  | S n, Some i => b ← rd bs i; if can_evict b then Ret (Some i) else lru_walk n bs (lru_prev b)
  | _, _ => Ret None
  end.

Definition evict_lru (c : CacheManager) : outcome (option nat) := lru_walk slots (blocks c) (lru_tail c).

Fixpoint lfu_scan (bs : list CacheBlock) (i : nat) (min_count : Z) (victim : option nat) : option nat :=
  match bs with
  | [] => victim
  | b :: bs => if can_evict b && (access_count b <? min_count) then lfu_scan bs (S i) (access_count b) (Some i) else lfu_scan bs (S i) min_count victim
  end.

Definition evict_lfu (c : CacheManager) : option nat := lfu_scan (blocks c) 0 (2 ^ 32 - 1) None.

Definition evict_arc (c : CacheManager) : outcome (option nat) :=
  r ← evict_lru c; Ret (match r with Some i => Some i | None => evict_lfu c end).

Definition victim_of (c : CacheManager) : outcome (option nat) :=
  match policy c with LRU => evict_lru c | LFU => Ret (evict_lfu c) | ARC => evict_arc c end.

Section Disk.

Context {D : Type} `{DiskBackend D}.

(** The manager, the counter that is its clock, and the disk. *)
Record World := mk_world { cm : CacheManager; counter : Z; disk : D }.

Definition set_cm (c : CacheManager) (w : World) : World := mk_world c (counter w) (disk w).

Definition current_time (w : World) : Z * World := (counter w, mk_world (cm w) (counter w +[64] 1) (disk w)).

(** ** Blocks *)

Definition touch_block (w : World) (i : nat) : outcome World :=
  let '(now, w) := current_time w in
  c ← upd_block (cm w) i (fun b => set_access (access_count b +[32] 1) now b);
  c ← match policy c with LFU => Ret c | _ => move_to_lru_head c i end;
  Ret (set_cm c w).

Definition lookup (w : World) (fid bn : Z) : outcome (option nat * World) :=
  match hash_table (cm w) !! (fid, bn) with
  | Some i =>
      w ← touch_block (set_cm (count bump_hits (cm w)) w) i;
      let '(time, w) := current_time w in
      let s := default readahead_new (readahead_state (cm w) !! fid) in
      Ret (Some i, set_cm (set_readahead (<[fid := readahead_update s bn time]> (readahead_state (cm w))) (cm w)) w)
  | None => Ret (None, set_cm (count bump_misses (cm w)) w)
  end.

Definition send_invalidation (w : World) (fid bn : Z) : World :=
  let '(now, w) := current_time w in
  let c := cm w in
  set_cm (count bump_invalidations (set_invalidations (invalidation_queue c ++ [mk_notification fid bn now]) c)) w.

(** The state [Writing] lasts as long as the lock is held. *)
Definition flush_block (w : World) (i : nat) : outcome World :=
  b ← rd (blocks (cm w)) i;
  if is_dirty b then
    c ← upd_block (cm w) i (set_state Writing);
    d ← rd (data c) i;
    let '(_, dk) := disk_write (disk w) (block_number b *[64] CACHE_BLOCK_SIZE) CACHE_BLOCK_SIZE d in
    c ← upd_block c i (set_state Clean);
    let w := mk_world (count bump_written c) (counter w) dk in
    Ret (if bool_decide (coherency_mode c = WriteBackInvalidate) then send_invalidation w (file_id b) (block_number b) else w)
  else Ret w.

(** [if self.blocks[i].is_dirty() { self.flush_block(i) }], and the block leaves the map and the list. *)
Definition drop_block (w : World) (key : Z * Z) (i : nat) : outcome World :=
  b ← rd (blocks (cm w)) i;
  w ← (if is_dirty b then flush_block w i else Ret w);
  c ← remove_from_lru (set_hash (delete key (hash_table (cm w))) (cm w)) i;
  Ret (set_cm c w).

Definition evict_block (w : World) : outcome (option nat * World) :=
  v ← victim_of (cm w);
  match v with
  | None => Ret (None, w)
  | Some victim =>
      b ← rd (blocks (cm w)) victim;
      w ← drop_block w (file_id b, block_number b) victim;
      Ret (Some victim, set_cm (count bump_evictions (cm w)) w)
  end.

Definition allocate (w : World) (fid bn : Z) : outcome (option nat * World) :=
  '(r, w) ← (if (blocks_used (cm w) <? slots)%nat
             then Ret (Some (blocks_used (cm w)), set_cm (set_used (S (blocks_used (cm w))) (cm w)) w)
             else evict_block w);
  match r with
  | None => Ret (None, w)
  | Some i =>
      let '(now, w) := current_time w in
      c ← upd_block (cm w) i (claim fid bn now (reads (stats (cm w))));
      c ← add_to_lru (set_hash (<[(fid, bn) := i]> (hash_table c)) c) i;
      Ret (Some i, set_cm c w)
  end.

Definition mark_dirty (w : World) (i : nat) : outcome World :=
  b ← rd (blocks (cm w)) i;
  if is_dirty b then Ret w
  else
    let '(now, w) := current_time w in
    c ← upd_block (cm w) i (set_dirty now);
    let c := set_queue (dirty_queue c ++ [i]) (count bump_dirty c) in
    let w := set_cm c w in
    if bool_decide (coherency_mode c = WriteThrough) then flush_block w i else Ret w.

(** The bytes from the disk replace the first ones of the slot. *)
Definition fill (w : World) (i : nat) (bn : Z) : outcome World :=
  let c := count bump_reads (cm w) in
  let '(bytes, dk) := disk_read (disk w) (bn *[64] CACHE_BLOCK_SIZE) CACHE_BLOCK_SIZE in
  c ← (if (0 <? length bytes)%nat then
         d ← rd (data c) i;
         d ← copy_at d 0 bytes;
         ds ← wr (data c) i d;
         Ret (set_data ds c)
       else Ret c);
  Ret (mk_world c (counter w) dk).

(** ** Read-ahead and delayed writing *)

Fixpoint readahead_loop (n : nat) (w : World) (fid bn : Z) : outcome World :=
  match n with
  | O => Ret w
  | S n =>
      w ← match hash_table (cm w) !! (fid, bn) with
          | Some _ => Ret (set_cm (count bump_ra_hits (cm w)) w)
          | None =>
              '(r, w) ← allocate w fid bn;
              match r with
              | Some i => fill w i bn
              | None => Ret (set_cm (count bump_ra_misses (cm w)) w)
              end
          end;
      readahead_loop n w fid (bn +[64] 1)
  end.

Definition readahead (w : World) (fid : Z) : outcome World :=
  match readahead_state (cm w) !! fid with
  | None => Ret w
  | Some s =>
      match get_readahead_range s with
      | Some (start, n) => readahead_loop (Z.to_nat n) w fid start
      | None => Ret w
      end
  end.

Fixpoint writeback_loop (n : nat) (w : World) (flushed : Z) : outcome (Z * World) :=
  match n with
  | O => Ret (flushed, w)
  | S n =>
      match dirty_queue (cm w) with
      | [] => writeback_loop n w flushed
      | i :: q =>
          let w := set_cm (set_queue q (cm w)) w in
          b ← rd (blocks (cm w)) i;
          if is_dirty b then w ← flush_block w i; writeback_loop n w (flushed + 1)
          else writeback_loop n w flushed
      end
  end.

Definition flush_target (c : CacheManager) : nat :=
  let pct := dirty_percentage (stats c) (Z.of_nat (blocks_used c)) in
  let n := length (dirty_queue c) in
  if SFltb (f32_of_int DIRTY_THRESHOLD_HARD) pct then n
  else if SFltb (f32_of_int DIRTY_THRESHOLD_SOFT) pct then (n / 2)%nat
  else Nat.min 16 n.

Definition writeback_dirty (w : World) : outcome (Z * World) :=
  if negb (writeback_enabled (cm w)) then Ret (0, w)
  else
    let '(now, w) := current_time w in
    if now -[64] last_writeback (cm w) <? WRITEBACK_INTERVAL then Ret (0, w)
    else
      '(flushed, w) ← writeback_loop (flush_target (cm w)) w 0;
      Ret (flushed, set_cm (set_last_writeback now (cm w)) w).

(** A flush inside the loop may append a notification. *)
Fixpoint invalidation_loop (fuel : nat) (w : World) : outcome World :=
  match invalidation_queue (cm w) with
  | [] => Ret w
  | n :: q =>
      match fuel with
      | O => OutOfFuel
      | S fuel =>
          let w := set_cm (set_invalidations q (cm w)) w in
          w ← match hash_table (cm w) !! (n_file_id n, n_block_number n) with
              | Some i => drop_block w (n_file_id n, n_block_number n) i
              | None => Ret w
              end;
          invalidation_loop fuel w
      end
  end.

Definition process_invalidations (w : World) : outcome World :=
  invalidation_loop (length (invalidation_queue (cm w)) + size (hash_table (cm w))) w.

Fixpoint flush_loop (n : nat) (w : World) (i : nat) : outcome World :=
  match n with
  | O => Ret w
  | S n =>
      b ← rd (blocks (cm w)) i;
      w ← (if is_dirty b then flush_block w i else Ret w);
      flush_loop n w (S i)
  end.

Definition flush_all (w : World) : outcome World :=
  w ← flush_loop (blocks_used (cm w)) w 0;
  Ret (set_cm (set_queue [] (cm w)) w).

(** The blocks of a file in the order of the map. *)
Definition blocks_of (fid : Z) (h : gmap (Z * Z) nat) : list (Z * nat) :=
  merge_sort key_le (omap (fun '((f, b), i) => if f =? fid then Some (b, i) else None) (map_to_list h)).

Fixpoint drop_loop (w : World) (fid : Z) (l : list (Z * nat)) : outcome World :=
  match l with
  | [] => Ret w
  | (b, i) :: l => w ← drop_block w (fid, b) i; drop_loop w fid l
  end.

Definition invalidate_file (w : World) (fid : Z) : outcome World :=
  w ← drop_loop w fid (blocks_of fid (hash_table (cm w)));
  Ret (set_cm (set_readahead (delete fid (readahead_state (cm w))) (cm w)) w).

(** ** The interface *)

(** [CACHE_MANAGER], the counter and the disk. *)
Record Statics := mk_statics { CACHE_MANAGER : option CacheManager; COUNTER : Z; DISK : D }.

Definition init_with_policy (s : Statics) (pol : EvictionPolicy) (coherency : CoherencyMode) : Statics :=
  mk_statics (Some (manager_new pol coherency)) (COUNTER s) (DISK s).

Definition init (s : Statics) : Statics := init_with_policy s LRU WriteBackInvalidate.

Definition open (s : Statics) (c : CacheManager) : World := mk_world c (COUNTER s) (DISK s).
Definition close (w : World) : Statics := mk_statics (Some (cm w)) (counter w) (disk w).

(** How many bytes of the block at an offset a transfer of [remaining] bytes takes. *)
Definition to_copy (offset : Z) (remaining : nat) : nat := Nat.min (block_bytes - Z.to_nat (offset mod CACHE_BLOCK_SIZE)) remaining.

(** [Ok(())] or [Err]; the bytes are those copied to the buffer, the rest of which is unchanged. *)
Fixpoint read_loop (fuel : nat) (w : World) (fid offset : Z) (remaining : nat) : outcome ((unit + Z) * list Z * World) :=
  match remaining with
  | O => Ret (inl (), [], w)
  | S _ =>
      match fuel with
      | O => OutOfFuel
      | S fuel =>
          let bn := offset / CACHE_BLOCK_SIZE in
          let bo := Z.to_nat (offset mod CACHE_BLOCK_SIZE) in
          let n := to_copy offset remaining in
          '(r, w) ← lookup w fid bn;
          '(r, w) ← match r with
                    | Some i => Ret (Some i, w)
                    | None =>
                        '(r, w) ← allocate w fid bn;
                        match r with Some i => w ← fill w i bn; Ret (Some i, w) | None => Ret (None, w) end
                    end;
          match r with
          | None => Ret (inr STATUS_UNSUCCESSFUL, [], w)
          | Some i =>
              d ← rd (data (cm w)) i;
              bytes ← slice d bo (bo + n);
              '(r, rest, w) ← read_loop fuel w fid (offset +[64] Z.of_nat n) (remaining - n);
              Ret (r, bytes ++ rest, w)
          end
      end
  end.

Definition cc_read (s : Statics) (fid offset : Z) (n : nat) : outcome ((Z + Z) * list Z * Statics) :=
  match CACHE_MANAGER s with
  | None => Ret (inr STATUS_UNSUCCESSFUL, [], s)
  | Some c =>
      '(r, bytes, w) ← read_loop n (open s c) fid offset n;
      match r with
      | inl _ => w ← readahead w fid; Ret (inl (Z.of_nat n), bytes, close w)
      | inr e => Ret (inr e, bytes, close w)
      end
  end.

Fixpoint write_loop (fuel : nat) (w : World) (fid offset : Z) (buffer : list Z) : outcome ((unit + Z) * World) :=
  match buffer with
  | [] => Ret (inl (), w)
  | _ =>
      match fuel with
      | O => OutOfFuel
      | S fuel =>
          let bn := offset / CACHE_BLOCK_SIZE in
          let bo := Z.to_nat (offset mod CACHE_BLOCK_SIZE) in
          let n := to_copy offset (length buffer) in
          '(r, w) ← lookup w fid bn;
          '(r, w) ← match r with Some i => Ret (Some i, w) | None => allocate w fid bn end;
          match r with
          | None => Ret (inr STATUS_UNSUCCESSFUL, w)
          | Some i =>
              d ← rd (data (cm w)) i;
              d ← copy_at d bo (take n buffer);
              ds ← wr (data (cm w)) i d;
              w ← mark_dirty (set_cm (set_data ds (cm w)) w) i;
              write_loop fuel (set_cm (count bump_writes (cm w)) w) fid (offset +[64] Z.of_nat n) (drop n buffer)
          end
      end
  end.

Definition cc_write (s : Statics) (fid offset : Z) (buffer : list Z) : outcome ((Z + Z) * Statics) :=
  match CACHE_MANAGER s with
  | None => Ret (inr STATUS_UNSUCCESSFUL, s)
  | Some c =>
      '(r, w) ← write_loop (length buffer) (open s c) fid offset buffer;
      Ret (match r with inl _ => inl (Z.of_nat (length buffer)) | inr e => inr e end, close w)
  end.

(** [if let Some(cache) = cache.as_mut() { ... }] *)
Definition with_cache (s : Statics) (f : World -> outcome World) : outcome Statics :=
  match CACHE_MANAGER s with
  | None => Ret s
  | Some c => w ← f (open s c); Ret (close w)
  end.

Definition cc_flush_all (s : Statics) : outcome Statics := with_cache s flush_all.
Definition cc_flush_file (s : Statics) (fid : Z) : outcome Statics := with_cache s (fun w => invalidate_file w fid).
Definition cc_process_invalidations (s : Statics) : outcome Statics := with_cache s process_invalidations.

Definition cc_writeback (s : Statics) : outcome (Z * Statics) :=
  match CACHE_MANAGER s with
  | None => Ret (0, s)
  | Some c => '(n, w) ← writeback_dirty (open s c); Ret (n, close w)
  end.

Definition cc_pin_block (s : Statics) (fid bn : Z) : outcome ((nat + Z) * Statics) :=
  match CACHE_MANAGER s with
  | None => Ret (inr STATUS_UNSUCCESSFUL, s)
  | Some c =>
      '(r, w) ← lookup (open s c) fid bn;
      '(r, w) ← match r with Some i => Ret (Some i, w) | None => allocate w fid bn end;
      match r with
      | None => Ret (inr STATUS_UNSUCCESSFUL, close w)
      | Some i =>
          c ← upd_block (cm w) i (fun b => set_ref_count (ref_count b +[32] 1) b);
          Ret (inl i, close (set_cm c w))
      end
  end.

Definition cc_unpin_block (s : Statics) (i : nat) : outcome ((unit + Z) * Statics) :=
  match CACHE_MANAGER s with
  | None => Ret (inr STATUS_UNSUCCESSFUL, s)
  | Some c =>
      if (i <? length (blocks c))%nat then
        b ← rd (blocks c) i;
        if 0 <? ref_count b then
          c ← upd_block c i (set_ref_count (ref_count b - 1));
          Ret (inl (), close (open s c))
        else Ret (inl (), s)
      else Ret (inl (), s)
  end.

Definition cc_statistics (s : Statics) : option CacheStatistics := stats <$> CACHE_MANAGER s.

Definition cc_set_coherency_mode (s : Statics) (m : CoherencyMode) : Statics :=
  mk_statics (set_coherency_mode m <$> CACHE_MANAGER s) (COUNTER s) (DISK s).

Definition cc_set_writeback_enabled (s : Statics) (e : bool) : Statics :=
  mk_statics (set_writeback_enabled e <$> CACHE_MANAGER s) (COUNTER s) (DISK s).

End Disk.

Arguments World : clear implicits.
Arguments Statics : clear implicits.

(** ** The list of use, as a list *)

Definition node (bs : list CacheBlock) (i : nat) (p n : option nat) : Prop := exists b, bs !! i = Some b /\ lru_prev b = p /\ lru_next b = n.

Definition first_or (l : list nat) (n : option nat) : option nat := match l with [] => n | j :: _ => Some j end.
Definition last_or (l : list nat) (p : option nat) : option nat := match last l with Some j => Some j | None => p end.

(** The nodes of [l] are linked, between [p] and [n]. *)
Fixpoint seg (bs : list CacheBlock) (p : option nat) (l : list nat) (n : option nat) : Prop :=
  match l with [] => True | i :: l => node bs i p (first_or l n) /\ seg bs (Some i) l n end.

Definition lru_ok (bs : list CacheBlock) (head tail : option nat) (ord : list nat) : Prop :=
  NoDup ord /\ head = first_or ord None /\ tail = last_or ord None /\ seg bs None ord None.

(** What the invariant says of a block beside its links. *)
Definition core (b : CacheBlock) : Z * Z * CacheBlockState := (file_id b, block_number b, state b).

Definition same_core (bs bs' : list CacheBlock) : Prop := length bs' = length bs /\ forall i b', bs' !! i = Some b' -> exists b, bs !! i = Some b /\ core b' = core b.

Lemma same_core_refl bs : same_core bs bs.
Proof. split; [done |]. intros i b Hb. by exists b. Qed.

Lemma same_core_trans bs bs' bs'' : same_core bs bs' -> same_core bs' bs'' -> same_core bs bs''.
Proof.
  intros [L1 H1] [L2 H2]. split; [congruence |]. intros i b Hb. destruct (H2 i b Hb) as (b' & Hb' & E'). destruct (H1 i b' Hb') as (b0 & Hb0 & E0).
  exists b0. split; [done | congruence].
Qed.

Lemma same_core_insert bs i b b' : bs !! i = Some b -> core b' = core b -> same_core bs (<[i := b']> bs).
Proof.
  intros Hb E. split; [apply length_insert |]. intros j x. rewrite list_lookup_insert. case_decide as Hj; [| by exists x].
  destruct Hj as [-> Hj]. intros [= <-]. by exists b.
Qed.

Lemma upd_core bs i b f bs' : bs !! i = Some b -> core (f b) = core b -> same_core bs' bs -> same_core bs' (<[i := f b]> bs).
Proof. intros Hb E Hs. eapply same_core_trans; [exact Hs |]. by eapply same_core_insert. Qed.

Lemma upd_run bs i b f : bs !! i = Some b -> upd bs i f = Ret (<[i := f b]> bs).
Proof. intros Hb. unfold upd. rewrite (rd_lookup _ _ _ Hb). autorewrite with nt. apply wr_in. by eapply lookup_lt_Some. Qed.

Lemma node_insert bs i j b p n : i <> j -> node bs i p n -> node (<[j := b]> bs) i p n.
Proof. intros Hij (x & Hx & E). exists x. by rewrite list_lookup_insert_ne. Qed.

Lemma seg_insert bs p l n j b : j ∉ l -> seg bs p l n -> seg (<[j := b]> bs) p l n.
Proof.
  revert p. induction l as [| i l IH]; intros p Hj; [done |]. apply not_elem_of_cons in Hj as [Hij Hj]. intros [H1 H2].
  split; [by apply node_insert | by apply IH].
Qed.

Lemma last_or_cons i l p : last_or (i :: l) p = last_or l (Some i).
Proof. unfold last_or. rewrite last_cons. by destruct (last l). Qed.

Lemma links_app bs p l k n : seg bs p (l ++ k) n <-> seg bs p l (first_or k n) /\ seg bs (last_or l p) k n.
Proof.
  revert p. induction l as [| i l IH]; intros p; cbn [app seg]; [unfold last_or; cbn; tauto |].
  rewrite IH, last_or_cons. assert (first_or (l ++ k) n = first_or l (first_or k n)) as -> by (by destruct l). tauto.
Qed.

(** The last node gets a new successor, the first one a new predecessor. *)
Lemma seg_set_next bs p l j n n' b : NoDup (l ++ [j]) -> seg bs p (l ++ [j]) n -> bs !! j = Some b -> seg (<[j := set_next n' b]> bs) p (l ++ [j]) n'.
Proof.
  rewrite NoDup_app, !links_app. intros (_ & Hd & _) [H1 [(b' & Hb' & E1 & E2) _]] Hb. cbn [first_or seg] in *.
  assert (Hj : j ∉ l) by (intros Hj; apply (Hd j Hj); set_solver). split; [by apply seg_insert |]. split; [| done].
  exists (set_next n' b). rewrite list_lookup_insert_eq by (by eapply lookup_lt_Some). split; [done |]. cbn. split; [congruence | done].
Qed.

Lemma seg_set_prev bs p p' j l n b : NoDup (j :: l) -> seg bs p (j :: l) n -> bs !! j = Some b -> seg (<[j := set_prev p' b]> bs) p' (j :: l) n.
Proof.
  intros Hd [(b' & Hb' & E1 & E2) H2] Hb. apply NoDup_cons in Hd as [Hj _]. split; [| by apply seg_insert].
  exists (set_prev p' b). rewrite list_lookup_insert_eq by (by eapply lookup_lt_Some). split; [done |]. cbn. split; [done | congruence].
Qed.

Lemma seg_elem bs p l n i : seg bs p l n -> i ∈ l -> is_Some (bs !! i).
Proof.
  revert p. induction l as [| j l IH]; intros p; [set_solver |]. intros [(b & Hb & _) H2]. rewrite elem_of_cons. intros [-> | Hi]; [by exists b | by eapply IH].
Qed.

Lemma add_to_lru_run c ord i : lru_ok (blocks c) (lru_head c) (lru_tail c) ord -> i ∉ ord -> (i < length (blocks c))%nat ->
  exists bs tail, add_to_lru c i = Ret (set_list bs (Some i) tail c) /\ lru_ok bs (Some i) tail (i :: ord) /\ same_core (blocks c) bs.
Proof.
  intros (Hd & Hh & Ht & Hs) Hi Hlen. destruct (lookup_lt_is_Some_2 _ _ Hlen) as [b Hb]. unfold add_to_lru. rewrite Hh.
  destruct ord as [| j ord]; cbn [first_or]; rewrite (upd_run _ _ _ _ Hb); autorewrite with nt.
  - eexists _, _. split; [done |]. split; [| by eapply same_core_insert]. split; [apply NoDup_singleton |]. split; [done |]. split; [done |].
    split; [| done]. exists (set_links None None b). by rewrite list_lookup_insert_eq.
  - assert (Hij : i <> j) by set_solver. destruct (seg_elem _ _ _ _ j Hs ltac:(set_solver)) as [bj Hbj].
    rewrite (upd_run _ j bj) by (by rewrite list_lookup_insert_ne). autorewrite with nt. eexists _, _. split; [done |]. split.
    + split; [by apply NoDup_cons |]. split; [done |]. rewrite last_or_cons. split; [rewrite Ht, !last_or_cons; done |]. split.
      * apply node_insert; [done |]. exists (set_links None (Some j) b). by rewrite list_lookup_insert_eq.
      * apply (seg_set_prev _ None (Some i)); [done | by apply seg_insert | by rewrite list_lookup_insert_ne].
    + apply upd_core; [by rewrite list_lookup_insert_ne | done |]. apply upd_core; [done | done | apply same_core_refl].
Qed.

(** The predecessor of a node skips it. *)
Lemma skip_prev bs l1 i q n : NoDup l1 -> i ∉ l1 -> seg bs None l1 (Some i) ->
  exists bs', match last_or l1 None with Some p => upd bs p (set_next n) | None => Ret bs end = Ret bs' /\ seg bs' None l1 n /\ same_core bs bs' /\
    (forall j x, j ∉ l1 -> bs !! j = Some x -> bs' !! j = Some x) /\ (forall l2, (forall j, j ∈ l2 -> j ∉ l1) -> seg bs q l2 None -> seg bs' q l2 None).
Proof.
  intros Hd Hi Hs. destruct l1 as [| p l1 _] using rev_ind.
  { exists bs. split; [done |]. split; [done |]. split; [apply same_core_refl | done]. }
  unfold last_or. rewrite last_snoc. destruct (seg_elem _ _ _ _ p Hs ltac:(set_solver)) as [b Hb]. rewrite (upd_run _ _ _ _ Hb). eexists. split; [done |].
  split; [by apply (seg_set_next bs None l1 p (Some i))|]. split; [by eapply same_core_insert |]. split.
  - intros j x Hj. by rewrite list_lookup_insert_ne by set_solver.
  - intros l2 Hl2. apply seg_insert. intros Hp. apply (Hl2 p Hp). set_solver.
Qed.

Lemma remove_run c l1 i l2 : lru_ok (blocks c) (lru_head c) (lru_tail c) (l1 ++ i :: l2) ->
  exists bs head tail, remove_from_lru c i = Ret (set_list bs head tail c) /\ lru_ok bs head tail (l1 ++ l2) /\ same_core (blocks c) bs.
Proof.
  intros (Hd & Hh & Ht & Hs). pose proof Hd as (N1 & N2 & N3)%NoDup_app. apply NoDup_cons in N3 as [Hi N3].
  assert (Hi1 : i ∉ l1) by (intros H; apply (N2 i H); set_solver). apply links_app in Hs as [S1 [(b & Hb & Ep & En) S2]]. cbn [first_or] in S1.
  unfold remove_from_lru. rewrite (rd_lookup _ _ _ Hb). autorewrite with nt. rewrite Ep, En.
  destruct (skip_prev (blocks c) l1 i (Some i) (first_or l2 None) N1 Hi1 S1) as (bs1 & -> & T1 & C1 & F1 & G1). autorewrite with nt.
  specialize (G1 l2 ltac:(set_solver) S2). specialize (F1 i b Hi1 Hb).
  assert (Hd' : NoDup (l1 ++ l2)) by (apply NoDup_app; split; [done |]; split; [set_solver | done]).
  assert (Hhead : match last_or l1 None with Some _ => lru_head c | None => first_or l2 None end = first_or (l1 ++ l2) None).
  { rewrite Hh. destruct l1 as [| p l1]; [done |]. rewrite last_or_cons. cbn. unfold last_or. by destruct (last l1). }
  rewrite Hhead. clear Hhead Hh. destruct l2 as [| n l2]; cbn [first_or] in *.
  - rewrite app_nil_r in *. autorewrite with nt. rewrite (upd_run _ _ _ _ F1). autorewrite with nt. eexists _, _, _. split; [done |].
    split; [split; [done |]; split; [done |]; split; [done |]; by apply seg_insert | by apply upd_core].
  - destruct (seg_elem _ _ _ _ n G1 ltac:(set_solver)) as [bn Hbn]. rewrite (upd_run _ _ _ _ Hbn). autorewrite with nt.
    assert (Hni : n <> i) by set_solver. rewrite (upd_run _ i b) by (by rewrite list_lookup_insert_ne). autorewrite with nt.
    eexists _, _, _. split; [done |]. split; [split; [done |]; split; [done |]; split |].
    + rewrite Ht. unfold last_or. rewrite !last_app, !last_cons. by destruct (last l2).
    + apply links_app. split; [apply seg_insert; [done |]; apply seg_insert; [set_solver | done] |]. apply seg_insert; [done |]. by eapply seg_set_prev.
    + apply upd_core; [by rewrite list_lookup_insert_ne | done |]. by apply upd_core.
Qed.

Lemma move_run c l1 i l2 : lru_ok (blocks c) (lru_head c) (lru_tail c) (l1 ++ i :: l2) ->
  exists bs head tail, move_to_lru_head c i = Ret (set_list bs head tail c) /\ lru_ok bs head tail (i :: l1 ++ l2) /\ same_core (blocks c) bs.
Proof.
  intros Hok. unfold move_to_lru_head. case_bool_decide as E.
  - exists (blocks c), (lru_head c), (lru_tail c). split; [by destruct c |]. split; [| apply same_core_refl].
    destruct Hok as (Hd & Hh & Hrest). destruct l1 as [| j l1]; [done |]. rewrite Hh in E. cbn in E. injection E as ->. apply NoDup_cons in Hd as [Hd _]. set_solver.
  - destruct (remove_run c l1 i l2 Hok) as (bs & h & t & -> & Hok' & Hc). autorewrite with nt.
    assert (Hi : i ∉ l1 ++ l2). { destruct Hok as [Hd _]. rewrite <- Permutation_middle in Hd. by apply NoDup_cons in Hd as [Hd _]. }
    assert (Hlen : (i < length bs)%nat).
    { destruct Hok as (_ & _ & _ & Hs). destruct (seg_elem _ _ _ _ i Hs ltac:(set_solver)) as [b Hb]. rewrite (proj1 Hc). by eapply lookup_lt_Some. }
    destruct (add_to_lru_run (set_list bs h t c) (l1 ++ l2) i Hok' Hi Hlen) as (bs' & t' & -> & Hok2 & Hc2). exists bs', (Some i), t'. split; [done |].
    split; [done |]. by eapply same_core_trans.
Qed.

(** The walk from the end finds the last block that can go. *)
Definition evictable (bs : list CacheBlock) (i : nat) : bool := match bs !! i with Some b => can_evict b | None => false end.

Lemma lru_walk_run n bs ord m : seg bs None ord m -> (length ord <= n)%nat -> lru_walk n bs (last_or ord None) = Ret (List.find (evictable bs) (rev ord)).
Proof.
  revert n m. induction ord as [| i ord IH] using rev_ind; intros n m Hs Hn; [by destruct n |].
  rewrite length_app in Hn. cbn [length] in Hn. destruct n as [| n]; [lia |]. apply links_app in Hs as [S1 [(b & Hb & Ep & _) _]].
  unfold last_or at 1. rewrite last_snoc, rev_app_distr. cbn [lru_walk rev app List.find]. rewrite (rd_lookup _ _ _ Hb). autorewrite with nt.
  assert (evictable bs i = can_evict b) as -> by (unfold evictable; by rewrite Hb). destruct (can_evict b); [done |]. rewrite Ep. eapply IH; [exact S1 | lia].
Qed.

(** ** The store *)

(** A disk that does not fail, block by block. *)
Class DiskLaws (D : Type) `{DiskBackend D} := {
  content : D -> Z -> list Z;
  content_length d b : length (content d b) = block_bytes;
  read_content d b : 0 <= b < 2 ^ 52 -> (disk_read d (b * CACHE_BLOCK_SIZE) CACHE_BLOCK_SIZE).1 = content d b;
  read_keeps d b b' : content (disk_read d (b * CACHE_BLOCK_SIZE) CACHE_BLOCK_SIZE).2 b' = content d b';
  write_content d b x b' : 0 <= b < 2 ^ 52 -> length x = block_bytes ->
    content (disk_write d (b * CACHE_BLOCK_SIZE) CACHE_BLOCK_SIZE x).2 b' = if b' =? b then x else content d b' }.

Section Laws.

Context {D : Type} `{DiskLaws D}.

(** A cached block is dirty, or as on the disk, but for the slot [x] that is being filled. *)
Definition synced (x : option nat) (c : CacheManager) (d : D) (i : nat) (b : CacheBlock) : Prop :=
  Some i = x \/ state b = Dirty \/ state b = Clean /\ data c !! i = Some (content d (block_number b)).

(** The blocks of the file [fid] are in the list [ord]. *)
Record inv_but (x : option nat) (fid : Z) (c : CacheManager) (d : D) (ord : list nat) : Prop := {
  iv_blocks : length (blocks c) = slots;
  iv_data : length (data c) = slots;
  iv_sizes : forall i x, data c !! i = Some x -> length x = block_bytes;
  iv_used : (blocks_used c <= slots)%nat;
  iv_list : lru_ok (blocks c) (lru_head c) (lru_tail c) ord;
  iv_ord : forall i, i ∈ ord -> (i < blocks_used c)%nat;
  iv_hash : forall k i, hash_table c !! k = Some i <-> i ∈ ord /\ exists b, blocks c !! i = Some b /\ (file_id b, block_number b) = k;
  iv_cached : forall i b, i ∈ ord -> blocks c !! i = Some b -> file_id b = fid /\ 0 <= block_number b < 2 ^ 52 /\ (state b = Dirty \/ state b = Clean);
  iv_synced : forall i b, i ∈ ord -> blocks c !! i = Some b -> synced x c d i b;
  iv_other : forall i b, i ∉ ord -> blocks c !! i = Some b -> state b <> Dirty;
  iv_policy : policy c = LRU;
  iv_queue : Forall (fun i => (i < slots)%nat) (dirty_queue c);
  iv_ahead : forall s, readahead_state c !! fid = Some s -> 0 <= last_block s < 2 ^ 51 /\ predicted_next s = last_block s + 1 /\ 0 <= window_size s <= READAHEAD_MAX }.

Definition inv : Z -> CacheManager -> D -> list nat -> Prop := inv_but None.

(** What a block of the file reads as. *)
Definition view (fid : Z) (c : CacheManager) (d : D) (bn : Z) : list Z :=
  match hash_table c !! (fid, bn) with Some i => default [] (data c !! i) | None => content d bn end.

Lemma wrap_offset b : 0 <= b < 2 ^ 52 -> b *[64] CACHE_BLOCK_SIZE = b * CACHE_BLOCK_SIZE.
Proof. intros Hb. apply wrap_small. unfold u_ty, CACHE_BLOCK_SIZE. lia. Qed.

(** The fields that flushing leaves alone. *)
Definition same_frame (c c' : CacheManager) : Prop :=
  hash_table c' = hash_table c /\ data c' = data c /\ lru_head c' = lru_head c /\ lru_tail c' = lru_tail c /\ blocks_used c' = blocks_used c /\
  readahead_state c' = readahead_state c /\ dirty_queue c' = dirty_queue c /\ policy c' = policy c.

Lemma links_ext bs bs' p l n : (forall i b, bs !! i = Some b -> exists b', bs' !! i = Some b' /\ lru_prev b' = lru_prev b /\ lru_next b' = lru_next b) ->
  seg bs p l n -> seg bs' p l n.
Proof.
  intros Hx. revert p. induction l as [| i l IH]; intros p; [done |]. intros [(b & Hb & Ep & En) Hs]. split; [| by apply IH].
  destruct (Hx i b Hb) as (b' & Hb' & E1 & E2). exists b'. by rewrite E1, E2.
Qed.

(** A field other than the links changes in one block. *)
Lemma lru_insert bs head tail ord i b b' : lru_ok bs head tail ord -> bs !! i = Some b -> lru_prev b' = lru_prev b -> lru_next b' = lru_next b ->
  lru_ok (<[i := b']> bs) head tail ord.
Proof.
  intros (H1 & H2 & H3 & H4) Hb E1 E2. split; [done |]. split; [done |]. split; [done |]. apply (links_ext bs); [| done]. intros j x Hx.
  destruct (decide (j = i)) as [-> | Hj]; [| exists x; by rewrite list_lookup_insert_ne].
  exists b'. rewrite list_lookup_insert_eq by (by eapply lookup_lt_Some). assert (x = b) as -> by congruence. done.
Qed.

Lemma blocks_insert c i b b' j x : blocks c !! i = Some b -> <[i := b']> (blocks c) !! j = Some x -> (j = i /\ x = b') \/ (j <> i /\ blocks c !! j = Some x).
Proof.
  intros Hb. rewrite list_lookup_insert. case_decide as Hj; [destruct Hj as [-> _]; intros [= <-]; by left |].
  intros Hx. right. split; [| done]. intros ->. apply Hj. split; [done |]. by eapply lookup_lt_Some.
Qed.

(** Two blocks of the list have different numbers. *)
Lemma numbers_differ x fid c d ord i j b b' : inv_but x fid c d ord -> i ∈ ord -> j ∈ ord -> blocks c !! i = Some b -> blocks c !! j = Some b' ->
  block_number b = block_number b' -> i = j.
Proof.
  intros HI Hi Hj Hb Hb' E. destruct (iv_cached _ _ _ _ _ HI i b Hi Hb) as [F1 _]. destruct (iv_cached _ _ _ _ _ HI j b' Hj Hb') as [F2 _].
  assert (K1 : hash_table c !! (fid, block_number b) = Some i) by (apply (iv_hash _ _ _ _ _ HI); split; [done |]; exists b; by rewrite F1).
  assert (K2 : hash_table c !! (fid, block_number b) = Some j) by (apply (iv_hash _ _ _ _ _ HI); split; [done |]; exists b'; by rewrite F2, E).
  congruence.
Qed.

(** A dirty block goes to the disk, and nothing else changes. *)
Lemma flush_block_run (w : World D) i b : blocks (cm w) !! i = Some b -> state b = Dirty -> (i < length (data (cm w)))%nat ->
  exists w' d, flush_block w i = Ret w' /\ data (cm w) !! i = Some d /\ same_frame (cm w) (cm w') /\
    blocks (cm w') = <[i := set_state Clean b]> (blocks (cm w)) /\ disk w' = (disk_write (disk w) (block_number b *[64] CACHE_BLOCK_SIZE) CACHE_BLOCK_SIZE d).2 /\
    coherency_mode (cm w') = coherency_mode (cm w).
Proof.
  intros Hb Hs Hd. destruct (lookup_lt_is_Some_2 _ _ Hd) as [d Hdata]. unfold flush_block, is_dirty. rewrite (rd_lookup _ _ _ Hb). autorewrite with nt.
  rewrite bool_decide_true by done. unfold upd_block. rewrite (upd_run _ _ _ _ Hb). autorewrite with nt. cbn [set_blocks data blocks]. rewrite (rd_lookup _ _ _ Hdata).
  autorewrite with nt. destruct (disk_write _ _ _ _) as [k dk] eqn:Ew. rewrite (upd_run _ i (set_state Writing b)) by (rewrite list_lookup_insert_eq; [done |]; by eapply lookup_lt_Some).
  autorewrite with nt. rewrite list_insert_insert_eq. eexists. exists d. split; [done |]. split; [done |]. rewrite Ew. by case_bool_decide.
Qed.

Lemma flush_inv x fid (w : World D) ord i b : inv_but x fid (cm w) (disk w) ord -> blocks (cm w) !! i = Some b -> state b = Dirty ->
  exists w', flush_block w i = Ret w' /\ inv_but x fid (cm w') (disk w') ord /\ same_frame (cm w) (cm w') /\
    blocks (cm w') = <[i := set_state Clean b]> (blocks (cm w)) /\ data (cm w) !! i = Some (content (disk w') (block_number b)) /\
    (forall bn, bn <> block_number b -> content (disk w') bn = content (disk w) bn) /\ forall bn, view fid (cm w') (disk w') bn = view fid (cm w) (disk w) bn.
Proof.
  intros HI Hb Hs. assert (Hi : i ∈ ord). { destruct (decide (i ∈ ord)); [done |]. by destruct (iv_other _ _ _ _ _ HI i b). }
  destruct (iv_cached _ _ _ _ _ HI i b Hi Hb) as (Ef & Hbn & _). pose proof (lookup_lt_Some _ _ _ Hb) as Hlt. rewrite (iv_blocks _ _ _ _ _ HI), <- (iv_data _ _ _ _ _ HI) in Hlt.
  destruct (flush_block_run w i b Hb Hs Hlt) as (w' & d & -> & Hd & Hf & Hbs & Hdk & _). exists w'. split; [done |].
  pose proof (iv_sizes _ _ _ _ _ HI i d Hd) as Hsz. rewrite (wrap_offset _ Hbn) in Hdk.
  assert (Hc : forall bn, content (disk w') bn = if bn =? block_number b then d else content (disk w) bn) by (intros bn; rewrite Hdk; by apply write_content).
  assert (Hne : forall bn, bn <> block_number b -> content (disk w') bn = content (disk w) bn) by (intros bn Hne; rewrite Hc; by rewrite (proj2 (Z.eqb_neq _ _) Hne)).
  destruct Hf as (F1 & F2 & F3 & F4 & F5 & F6 & F7 & F8). split; [| split; [done |]; split; [done |]; split; [by rewrite Hc, Z.eqb_refl |]; split; [done |]].
  - pose proof HI as [I1 I2 I3 I4 I5 I6 I7 I8 I9 I10 I11 I12 I13]. constructor; rewrite ?Hbs, ?F1, ?F2, ?F3, ?F4, ?F5, ?F6, ?F7, ?F8; try done.
    + by rewrite length_insert.
    + by apply (lru_insert _ _ _ _ _ b).
    + intros k j. rewrite I7. split; intros (Hj & y & Hy & Ek); (split; [done |]).
      * destruct (decide (j = i)) as [-> | Hji]; [exists (set_state Clean b); rewrite list_lookup_insert_eq by (by eapply lookup_lt_Some); split; [done |]; assert (y = b) as -> by congruence; done |].
        exists y. by rewrite list_lookup_insert_ne.
      * apply (blocks_insert _ _ b) in Hy as [[-> ->] | [_ Hy]]; [by exists b | by exists y | done].
    + intros j y Hj Hy. apply (blocks_insert _ _ b) in Hy as [[-> ->] | [_ Hy]]; [cbn; auto | by apply I8 with j | done].
    + intros j y Hj Hy. unfold synced. rewrite F2. apply (blocks_insert _ _ b) in Hy as [[-> ->] | [Hji Hy]]; [| | done].
      * right. right. split; [done |]. rewrite Hc. cbn. by rewrite Z.eqb_refl.
      * destruct (I9 j y Hj Hy) as [? | [? | [Sy Dy]]]; [by left | by right; left |]. right. right. split; [done |]. rewrite Dy. f_equal. symmetry. apply Hne.
        intros E. apply Hji. symmetry. by apply (numbers_differ x fid (cm w) (disk w) ord i j b y).
    + intros j y Hj Hy. apply (blocks_insert _ _ b) in Hy as [[-> ->] | [Hji Hy]]; [done | by apply (I10 j) | done].
  - intros bn. unfold view. rewrite F1, F2. destruct (hash_table (cm w) !! (fid, bn)) eqn:E; [done |]. apply Hne. intros ->.
    assert (hash_table (cm w) !! (fid, block_number b) = Some i) by (apply (iv_hash _ _ _ _ _ HI); split; [done |]; exists b; by rewrite Ef). congruence.
Qed.

Lemma same_core_fwd bs bs' i b : same_core bs bs' -> bs !! i = Some b -> exists b', bs' !! i = Some b' /\ core b' = core b.
Proof.
  intros [L Hc] Hb. destruct (lookup_lt_is_Some_2 bs' i) as [b' Hb']; [rewrite L; by eapply lookup_lt_Some |].
  exists b'. split; [done |]. destruct (Hc i b' Hb') as (b0 & Hb0 & E). congruence.
Qed.

Lemma core_eq a b : core a = core b -> file_id a = file_id b /\ block_number a = block_number b /\ state a = state b.
Proof. by intros [= -> -> ->]. Qed.

Lemma inv_ext x fid c c' d d' ord : blocks c' = blocks c -> same_frame c c' -> (forall bn, content d' bn = content d bn) ->
  inv_but x fid c d ord -> inv_but x fid c' d' ord.
Proof.
  intros Eb (F1 & F2 & F3 & F4 & F5 & F6 & F7 & F8) Hc [I1 I2 I3 I4 I5 I6 I7 I8 I9 I10 I11 I12 I13].
  constructor; rewrite ?Eb, ?F1, ?F2, ?F3, ?F4, ?F5, ?F6, ?F7, ?F8; try done.
  intros i b Hi Hb. unfold synced. rewrite F2, Hc. by apply I9.
Qed.

Lemma view_ext fid c c' d d' bn : hash_table c' = hash_table c -> data c' = data c -> content d' bn = content d bn -> view fid c' d' bn = view fid c d bn.
Proof. intros E1 E2 E3. unfold view. by rewrite E1, E2, E3. Qed.

(** The blocks change their links, and the list its order. *)
Lemma inv_links x fid c d ord bs head tail ord' : inv_but x fid c d ord -> same_core (blocks c) bs -> lru_ok bs head tail ord' -> ord' ≡ₚ ord ->
  inv_but x fid (set_list bs head tail c) d ord'.
Proof.
  intros [I1 I2 I3 I4 I5 I6 I7 I8 I9 I10 I11 I12 I13] Hc Hl Hp. constructor; cbn [set_list blocks hash_table data lru_head lru_tail blocks_used readahead_state dirty_queue policy]; try done.
  - by rewrite (proj1 Hc).
  - intros i. rewrite Hp. apply I6.
  - intros k i. rewrite I7, Hp. split; intros (Hi & b & Hb & E); (split; [done |]).
    + destruct (same_core_fwd _ _ _ _ Hc Hb) as (b' & Hb' & (E1 & E2 & _)%core_eq). exists b'. by rewrite E1, E2.
    + destruct (proj2 Hc i b Hb) as (b' & Hb' & (E1 & E2 & _)%core_eq). exists b'. by rewrite <- E1, <- E2.
  - intros i b Hi Hb. destruct (proj2 Hc i b Hb) as (b' & Hb' & (-> & -> & ->)%core_eq). apply (I8 i); [by rewrite <- Hp | done].
  - intros i b Hi Hb. destruct (proj2 Hc i b Hb) as (b' & Hb' & (E1 & E2 & E3)%core_eq). unfold synced. cbn. rewrite E2, E3. apply (I9 i); [by rewrite <- Hp | done].
  - intros i b Hi Hb. destruct (proj2 Hc i b Hb) as (b' & Hb' & (_ & _ & ->)%core_eq). apply (I10 i); [by rewrite <- Hp | done].
Qed.

(** A clean block leaves the map and the list. *)
Lemma forget_inv x fid c d l1 i l2 b : inv_but x fid c d (l1 ++ i :: l2) -> blocks c !! i = Some b -> state b <> Dirty ->
  exists bs head tail, remove_from_lru (set_hash (delete (file_id b, block_number b) (hash_table c)) c) i =
      Ret (set_list bs head tail (set_hash (delete (file_id b, block_number b) (hash_table c)) c)) /\
    inv_but x fid (set_list bs head tail (set_hash (delete (file_id b, block_number b) (hash_table c)) c)) d (l1 ++ l2).
Proof.
  intros HI Hb Hs. pose proof HI as [I1 I2 I3 I4 I5 I6 I7 I8 I9 I10 I11 I12 I13].
  destruct (remove_run (set_hash (delete (file_id b, block_number b) (hash_table c)) c) l1 i l2 I5) as (bs & head & tail & R & Hl & Hc). cbn [set_hash blocks] in Hc.
  exists bs, head, tail. split; [done |]. assert (Hi : i ∉ l1 ++ l2). { destruct I5 as [Hd _]. rewrite <- Permutation_middle in Hd. by apply NoDup_cons in Hd as [Hd _]. }
  assert (Hsub : forall j, j ∈ l1 ++ l2 -> j ∈ l1 ++ i :: l2) by set_solver.
  constructor; cbn [set_list set_hash blocks hash_table data lru_head lru_tail blocks_used readahead_state dirty_queue policy]; try done.
  - by rewrite (proj1 Hc).
  - intros j Hj. by apply I6, Hsub.
  - intros k j. rewrite lookup_delete_Some, I7. split.
    + intros (Hk & Hj & y & Hy & E). assert (Hji : j <> i) by (intros ->; apply Hk; congruence). split; [set_solver |].
      destruct (same_core_fwd _ _ _ _ Hc Hy) as (y' & Hy' & (E1 & E2 & _)%core_eq). exists y'. by rewrite E1, E2.
    + intros (Hj & y & Hy & E). destruct (proj2 Hc j y Hy) as (y' & Hy' & (E1 & E2 & _)%core_eq). rewrite E1, E2 in E. split; [| split; [by apply Hsub | by exists y']].
      intros <-. injection E as Ef En. apply Hi. replace i with j; [done |]. by apply (numbers_differ x fid c d (l1 ++ i :: l2) j i y' b); [| apply Hsub | set_solver | | |].
  - intros j y Hj Hy. destruct (proj2 Hc j y Hy) as (y' & Hy' & (-> & -> & ->)%core_eq). apply (I8 j); [by apply Hsub | done].
  - intros j y Hj Hy. destruct (proj2 Hc j y Hy) as (y' & Hy' & (E1 & E2 & E3)%core_eq). unfold synced. cbn. rewrite E2, E3. apply (I9 j); [by apply Hsub | done].
  - intros j y Hj Hy. destruct (proj2 Hc j y Hy) as (y' & Hy' & (_ & _ & ->)%core_eq).
    destruct (decide (j = i)) as [-> | Hji]; [congruence |]. apply (I10 j); [set_solver | done].
Qed.

(** A cached block is on the disk after the flush that precedes its removal. *)
Lemma clean_run x fid (w : World D) ord i b : inv_but x fid (cm w) (disk w) ord -> i ∈ ord -> blocks (cm w) !! i = Some b -> x <> Some i ->
  exists w' b', (if is_dirty b then flush_block w i else Ret w) = Ret w' /\ inv_but x fid (cm w') (disk w') ord /\ same_frame (cm w) (cm w') /\
    blocks (cm w') !! i = Some b' /\ file_id b' = fid /\ block_number b' = block_number b /\ state b' = Clean /\
    data (cm w) !! i = Some (content (disk w') (block_number b)) /\ forall bn, view fid (cm w') (disk w') bn = view fid (cm w) (disk w) bn.
Proof.
  intros HI Hi Hb Hx. destruct (iv_cached _ _ _ _ _ HI i b Hi Hb) as (Ef & _ & Hst). unfold is_dirty. case_bool_decide as Hs.
  - destruct (flush_inv x fid w ord i b HI Hb Hs) as (w' & -> & HI' & Hf & Hbs & Hd & _ & Hv). exists w', (set_state Clean b). split; [done |].
    split; [done |]. split; [done |]. split; [by rewrite Hbs, list_lookup_insert_eq by (by eapply lookup_lt_Some) |]. done.
  - exists w, b. destruct (iv_synced _ _ _ _ _ HI i b Hi Hb) as [? | [? | [? ?]]]; [congruence | done |]. done.
Qed.

(** Dropping a block changes no view. *)
Lemma drop_run x fid (w : World D) l1 i l2 b : inv_but x fid (cm w) (disk w) (l1 ++ i :: l2) -> blocks (cm w) !! i = Some b -> x <> Some i ->
  exists w', drop_block w (fid, block_number b) i = Ret w' /\ inv_but x fid (cm w') (disk w') (l1 ++ l2) /\
    hash_table (cm w') = delete (fid, block_number b) (hash_table (cm w)) /\ data (cm w') = data (cm w) /\ blocks_used (cm w') = blocks_used (cm w) /\
    dirty_queue (cm w') = dirty_queue (cm w) /\ readahead_state (cm w') = readahead_state (cm w) /\
    forall bn, view fid (cm w') (disk w') bn = view fid (cm w) (disk w) bn.
Proof.
  intros HI Hb Hx. assert (Hi : i ∈ l1 ++ i :: l2) by set_solver. destruct (clean_run x fid w _ i b HI Hi Hb Hx) as (w1 & b1 & R & HI1 & Hf & Hb1 & Ef & En & Es & Hd & Hv).
  unfold drop_block. rewrite (rd_lookup _ _ _ Hb). autorewrite with nt. rewrite R. autorewrite with nt.
  destruct (forget_inv x fid (cm w1) (disk w1) l1 i l2 b1 HI1 Hb1) as (bs & h & t & R2 & HI2); [by rewrite Es |]. rewrite Ef, En in R2, HI2. rewrite R2. autorewrite with nt.
  eexists. split; [done |]. split; [exact HI2 |]. destruct Hf as (F1 & F2 & F3 & F4 & F5 & F6 & F7 & F8).
  cbn [cm disk set_cm set_list set_hash hash_table data blocks_used dirty_queue readahead_state]. rewrite F1. repeat (split; [done |]). intros bn. rewrite <- Hv.
  unfold view. cbn [set_list set_hash hash_table data]. rewrite F1, F2. destruct (decide (bn = block_number b)) as [-> | Hne].
  - rewrite lookup_delete_eq. assert (hash_table (cm w) !! (fid, block_number b) = Some i) as ->; [| by rewrite Hd].
    apply (iv_hash _ _ _ _ _ HI). split; [done |]. exists b. split; [done |]. by destruct (iv_cached _ _ _ _ _ HI i b Hi Hb) as [-> _].
  - by rewrite lookup_delete_ne by congruence.
Qed.

(** ** Looking up *)

Lemma elem_split (i : nat) l : i ∈ l -> exists l1 l2, l = l1 ++ i :: l2.
Proof. apply list_elem_of_split. Qed.

(** A field that the invariant does not read changes in one block. *)
Lemma upd_inv x fid c d ord i b f : inv_but x fid c d ord -> blocks c !! i = Some b -> core (f b) = core b -> lru_prev (f b) = lru_prev b -> lru_next (f b) = lru_next b ->
  upd_block c i f = Ret (set_blocks (<[i := f b]> (blocks c)) c) /\ inv_but x fid (set_blocks (<[i := f b]> (blocks c)) c) d ord.
Proof.
  intros HI Hb Ec E1 E2. unfold upd_block. rewrite (upd_run _ _ _ _ Hb). split; [done |].
  pose proof (inv_links x fid c d ord (<[i := f b]> (blocks c)) (lru_head c) (lru_tail c) ord HI) as HL. apply HL; [by eapply same_core_insert | | done].
  apply (lru_insert _ _ _ _ _ b); [apply HI | done | done | done].
Qed.

(** A hit moves the block to the front. *)
Lemma touch_run x fid (w : World D) l1 i l2 : inv_but x fid (cm w) (disk w) (l1 ++ i :: l2) ->
  exists w', touch_block w i = Ret w' /\ inv_but x fid (cm w') (disk w') (i :: l1 ++ l2) /\ hash_table (cm w') = hash_table (cm w) /\ data (cm w') = data (cm w) /\
    blocks_used (cm w') = blocks_used (cm w) /\ readahead_state (cm w') = readahead_state (cm w) /\ disk w' = disk w.
Proof.
  intros HI. destruct (iv_list _ _ _ _ _ HI) as (_ & _ & _ & Hs). destruct (seg_elem _ _ _ _ i Hs ltac:(set_solver)) as [b Hb]. unfold touch_block. cbn [current_time cm].
  destruct (upd_inv x fid (cm w) (disk w) _ i b (fun b => set_access (access_count b +[32] 1) (counter w) b) HI Hb eq_refl eq_refl eq_refl) as [-> HI1]. autorewrite with nt.
  set (c1 := set_blocks _ _) in *. rewrite (iv_policy _ _ _ _ _ HI1). destruct (move_run c1 l1 i l2 (iv_list _ _ _ _ _ HI1)) as (bs & h & t & -> & Hl & Hc).
  autorewrite with nt. eexists. split; [done |]. split; [| done]. cbn [cm set_cm disk]. apply (inv_links x fid c1 (disk w) (l1 ++ i :: l2)); [done | done | done | by rewrite Permutation_middle].
Qed.

Lemma lookup_run x fid (w : World D) ord bn : inv_but x fid (cm w) (disk w) ord -> 0 <= bn < 2 ^ 51 ->
  exists w' ord', lookup w fid bn = Ret (hash_table (cm w) !! (fid, bn), w') /\ inv_but x fid (cm w') (disk w') ord' /\ ord' ≡ₚ ord /\
    hash_table (cm w') = hash_table (cm w) /\ data (cm w') = data (cm w) /\ blocks_used (cm w') = blocks_used (cm w) /\ disk w' = disk w.
Proof.
  intros HI Hbn. unfold lookup. destruct (hash_table (cm w) !! (fid, bn)) as [i |] eqn:E.
  - assert (Hi : i ∈ ord) by (by apply (iv_hash _ _ _ _ _ HI) in E as [Hi _]). apply elem_split in Hi as (l1 & l2 & ->).
    destruct (touch_run x fid (set_cm (count bump_hits (cm w)) w) l1 i l2) as (w1 & -> & HI1 & F1 & F2 & F3 & F4 & F5); [by apply (inv_ext x fid (cm w) _ (disk w)) |].
    autorewrite with nt. cbn [current_time]. eexists. exists (i :: l1 ++ l2). split; [done |]. split; [| split; [by rewrite Permutation_middle | done]].
    pose proof HI1 as [I1 I2 I3 I4 I5 I6 I7 I8 I9 I10 I11 I12 I13]. constructor; try done. cbn [cm set_cm set_readahead readahead_state].
    intros s. rewrite lookup_insert_eq. intros [= <-]. unfold readahead_update, READAHEAD_MAX, READAHEAD_MIN in *. rewrite (wrap_small 64 (bn + 1)) by (unfold u_ty; lia).
    assert (Hw : 0 <= window_size (default readahead_new (readahead_state (cm w1) !! fid)) <= 32).
    { destruct (readahead_state (cm w1) !! fid) as [s |] eqn:Es; [by apply I13 | done]. }
    set (s := default _ _) in *. destruct (bn =? _); [destruct (_ <=? _) |]; cbn; pose proof (wrap_ty 64 (window_size s * 2) ltac:(lia)) as [? _]; lia.
  - eexists. exists ord. split; [done |]. split; [| done]. by apply (inv_ext x fid (cm w) _ (disk w)).
Qed.

(** ** Allocating *)

(** A slot that is not in the list takes a new block. *)
Lemma claim_inv fid c d ord i bn now sq : inv fid c d ord -> i ∉ ord -> (i < blocks_used c)%nat -> hash_table c !! (fid, bn) = None -> 0 <= bn < 2 ^ 52 ->
  exists c' b', (c ← upd_block c i (claim fid bn now sq); add_to_lru (set_hash (<[(fid, bn) := i]> (hash_table c)) c) i) = Ret c' /\
    inv_but (Some i) fid c' d (i :: ord) /\ hash_table c' = <[(fid, bn) := i]> (hash_table c) /\ data c' = data c /\ blocks_used c' = blocks_used c /\
    readahead_state c' = readahead_state c /\ blocks c' !! i = Some b' /\ block_number b' = bn /\ state b' = Clean.
Proof.
  intros HI Hi Hu Hh Hbn. pose proof HI as [I1 I2 I3 I4 I5 I6 I7 I8 I9 I10 I11 I12 I13]. destruct (lookup_lt_is_Some_2 (blocks c) i ltac:(lia)) as [b Hb].
  unfold upd_block. rewrite (upd_run _ _ _ _ Hb). autorewrite with nt. set (c1 := set_hash _ _). set (b1 := claim fid bn now sq b) in *.
  assert (Hl1 : lru_ok (blocks c1) (lru_head c1) (lru_tail c1) ord) by (apply (lru_insert _ _ _ _ _ b); done).
  destruct (add_to_lru_run c1 ord i Hl1 Hi) as (bs & t & R & Hl & Hc); [cbn; rewrite length_insert; lia |].
  assert (Hb1 : blocks c1 !! i = Some b1) by (cbn; apply list_lookup_insert_eq; lia). destruct (same_core_fwd _ _ _ _ Hc Hb1) as (b' & Hb' & (K1 & K2 & K3)%core_eq).
  exists (set_list bs (Some i) t c1), b'. split; [exact R |]. split; [| by repeat (split; [done |])].
  assert (Hold : forall j y, j <> i -> bs !! j = Some y -> exists y', blocks c !! j = Some y' /\ file_id y = file_id y' /\ block_number y = block_number y' /\ state y = state y').
  { intros j y Hj Hy. destruct (proj2 Hc j y Hy) as (y' & Hy' & (E1 & E2 & E3)%core_eq). cbn in Hy'. rewrite list_lookup_insert_ne in Hy' by done. by exists y'. }
  assert (Hnew : forall y, bs !! i = Some y -> y = b') by (intros y Hy; cbn in Hb'; congruence).
  constructor; cbn [set_list c1 set_hash set_blocks blocks hash_table data lru_head lru_tail blocks_used readahead_state dirty_queue policy]; try done.
  - rewrite (proj1 Hc). cbn. by rewrite length_insert.
  - intros j. rewrite elem_of_cons. intros [-> | Hj]; [done | by apply I6].
  - intros k j. rewrite lookup_insert_Some, I7, elem_of_cons. split.
    + intros [[<- <-] | (Hk & Hj & y & Hy & E)]; [split; [by left |]; exists b'; by rewrite K1, K2 |]. split; [by right |].
      assert (Hji : j <> i) by (intros ->; done). destruct (same_core_fwd _ _ j y Hc) as (y' & Hy' & (E1 & E2 & _)%core_eq); [cbn; by rewrite list_lookup_insert_ne |].
      exists y'. by rewrite E1, E2.
    + intros ([-> | Hj] & y & Hy & E); [left; rewrite (Hnew y Hy), K1, K2 in E; done |]. right. assert (Hji : j <> i) by (intros ->; done).
      destruct (Hold j y Hji Hy) as (y' & Hy' & E1 & E2 & _). rewrite E1, E2 in E. assert (Hk : hash_table c !! k = Some j) by (apply I7; split; [done |]; by exists y').
      split; [intros <-; congruence |]. split; [done |]. by exists y'.
  - intros j y. rewrite elem_of_cons. intros [-> | Hj] Hy; [rewrite (Hnew y Hy), K1, K2, K3; cbn; auto |].
    assert (Hji : j <> i) by (intros ->; done). destruct (Hold j y Hji Hy) as (y' & Hy' & -> & -> & ->). by apply (I8 j).
  - intros j y. rewrite elem_of_cons. intros [-> | Hj] Hy; [by left |].
    assert (Hji : j <> i) by (intros ->; done). destruct (Hold j y Hji Hy) as (y' & Hy' & E1 & E2 & E3). destruct (I9 j y' Hj Hy') as [? | G]; [done |]. right. by rewrite E2, E3.
  - intros j y Hj Hy. apply not_elem_of_cons in Hj as [Hji Hj]. destruct (Hold j y Hji Hy) as (y' & Hy' & _ & _ & ->). by apply (I10 j).
Qed.

(** The block that is evicted is the last of the list that can go. *)
Lemma evict_run fid (w : World D) ord : inv fid (cm w) (disk w) ord ->
  match List.find (evictable (blocks (cm w))) (rev ord) with
  | None => evict_block w = Ret (None, w)
  | Some v => exists w' l1 l2, evict_block w = Ret (Some v, w') /\ ord = l1 ++ v :: l2 /\ inv fid (cm w') (disk w') (l1 ++ l2) /\
      (exists k, hash_table (cm w') = delete k (hash_table (cm w))) /\ blocks_used (cm w') = blocks_used (cm w) /\
      readahead_state (cm w') = readahead_state (cm w) /\ forall bn, view fid (cm w') (disk w') bn = view fid (cm w) (disk w) bn
  end.
Proof.
  intros HI. pose proof (iv_list _ _ _ _ _ HI) as (Hd & _ & Ht & Hs). unfold evict_block, victim_of, evict_lru. rewrite (iv_policy _ _ _ _ _ HI), Ht.
  rewrite (lru_walk_run slots _ ord None Hs).
  2:{ rewrite <- (length_seq slots 0). apply submseteq_length, NoDup_submseteq; [done |]. intros i Hi. apply elem_of_seq. pose proof (iv_ord _ _ _ _ _ HI i Hi). pose proof (iv_used _ _ _ _ _ HI). lia. }
  autorewrite with nt. destruct (List.find _ (rev ord)) as [v |] eqn:E; [| done]. apply find_Some_elem in E as [Hv _].
  rewrite list_elem_of_In, <- in_rev, <- list_elem_of_In in Hv. apply elem_split in Hv as (l1 & l2 & ->).
  destruct (seg_elem _ _ _ _ v Hs ltac:(set_solver)) as [b Hb]. rewrite (rd_lookup _ _ _ Hb). autorewrite with nt.
  destruct (iv_cached _ _ _ _ _ HI v b ltac:(set_solver) Hb) as [-> _]. destruct (drop_run None fid w l1 v l2 b HI Hb) as (w' & -> & HI' & F1 & F2 & F3 & F4 & F5 & Hview); [done |].
  autorewrite with nt. eexists. exists l1, l2. split; [done |]. split; [done |]. split; [by apply (inv_ext None fid (cm w') _ (disk w')) |].
  split; [by exists (fid, block_number b) |]. done.
Qed.

Lemma allocate_run fid (w : World D) ord bn : inv fid (cm w) (disk w) ord -> hash_table (cm w) !! (fid, bn) = None -> 0 <= bn < 2 ^ 52 ->
  exists r w', allocate w fid bn = Ret (r, w') /\
    match r with
    | None => w' = w /\ blocks_used (cm w) = slots /\ List.find (evictable (blocks (cm w))) (rev ord) = None
    | Some i => exists ord0 b, inv_but (Some i) fid (cm w') (disk w') (i :: ord0) /\ hash_table (cm w') !! (fid, bn) = Some i /\
        blocks (cm w') !! i = Some b /\ block_number b = bn /\ state b = Clean /\ readahead_state (cm w') = readahead_state (cm w) /\
        (forall b, b <> bn -> view fid (cm w') (disk w') b = view fid (cm w) (disk w) b) /\ content (disk w') bn = view fid (cm w) (disk w) bn /\
        if (blocks_used (cm w) <? slots)%nat then blocks_used (cm w') = S (blocks_used (cm w)) /\ hash_table (cm w') = <[(fid, bn) := i]> (hash_table (cm w))
        else blocks_used (cm w') = slots
    end.
Proof.
  intros HI Hh Hbn. unfold allocate.
  assert (Hclaim : forall i (w1 : World D) ord1, inv fid (cm w1) (disk w1) ord1 -> i ∉ ord1 -> (i < blocks_used (cm w1))%nat -> hash_table (cm w1) !! (fid, bn) = None ->
    readahead_state (cm w1) = readahead_state (cm w) -> (forall b, view fid (cm w1) (disk w1) b = view fid (cm w) (disk w) b) ->
    exists w' b, (let '(now, w) := current_time w1 in c ← upd_block (cm w) i (claim fid bn now (reads (stats (cm w))));
        c ← add_to_lru (set_hash (<[(fid, bn) := i]> (hash_table c)) c) i; Ret (Some i, set_cm c w)) = Ret (Some i, w') /\
      inv_but (Some i) fid (cm w') (disk w') (i :: ord1) /\ hash_table (cm w') = <[(fid, bn) := i]> (hash_table (cm w1)) /\
      blocks (cm w') !! i = Some b /\ block_number b = bn /\ state b = Clean /\ readahead_state (cm w') = readahead_state (cm w) /\
      (forall b, b <> bn -> view fid (cm w') (disk w') b = view fid (cm w) (disk w) b) /\ content (disk w') bn = view fid (cm w) (disk w) bn /\
      blocks_used (cm w') = blocks_used (cm w1)).
  { intros i w1 ord1 HI1 Hi Hu Hh1 Er Hv. cbn [current_time cm]. destruct (claim_inv fid (cm w1) (disk w1) ord1 i bn (counter w1) (reads (stats (cm w1))) HI1 Hi Hu Hh1 Hbn)
      as (c' & b' & R & HI2 & F1 & F2 & F3 & F4 & F5 & F6 & F7). apply outcome_bind_Ret in R as (c2 & -> & R). autorewrite with nt. rewrite R. autorewrite with nt.
    eexists. exists b'. split; [done |]. cbn [cm set_cm disk]. repeat (split; [done |]). split; [by rewrite F4 |]. split; [| split; [rewrite <- Hv; unfold view; by rewrite Hh1 | done]].
    intros b Hb. rewrite <- Hv. unfold view. rewrite F1, F2. by rewrite lookup_insert_ne by congruence. }
  destruct (Nat.ltb_spec (blocks_used (cm w)) slots) as [Hu | Hu].
  - autorewrite with nt. destruct (Hclaim (blocks_used (cm w)) (set_cm (set_used (S (blocks_used (cm w))) (cm w)) w) ord) as (w' & b & -> & HI2 & F1 & F2 & F3 & F4 & F5 & F6 & F8 & F7);
      [| intros Hi; pose proof (iv_ord _ _ _ _ _ HI _ Hi); lia | cbn; lia | done | done | done |].
    + destruct HI as [I1 I2 I3 I4 I5 I6 I7 I8 I9 I10 I11 I12 I13]. constructor; try done. intros i Hi. cbn. specialize (I6 i Hi). lia.
    + eexists _, _. split; [done |]. exists ord, b. split; [done |]. rewrite F1, lookup_insert_eq. repeat (split; [done |]). done.
  - pose proof (evict_run fid w ord HI) as He. pose proof (iv_used _ _ _ _ _ HI). destruct (List.find _ (rev ord)) as [v |].
    + destruct He as (w1 & l1 & l2 & -> & -> & HI1 & (k & Hk) & Eu & Er & Hv). autorewrite with nt.
      destruct (Hclaim v w1 (l1 ++ l2)) as (w' & b & -> & HI2 & F1 & F2 & F3 & F4 & F5 & F6 & F8 & F7); [done | | | | done | done |].
      * destruct (iv_list _ _ _ _ _ HI) as [Hd _]. rewrite <- Permutation_middle in Hd. by apply NoDup_cons in Hd as [Hd _].
      * rewrite Eu. apply (iv_ord _ _ _ _ _ HI). set_solver.
      * rewrite Hk. apply lookup_delete_None. by right.
      * eexists _, _. split; [done |]. exists (l1 ++ l2), b. split; [done |]. rewrite F1, lookup_insert_eq. repeat (split; [done |]). rewrite F7, Eu. lia.
    + rewrite He. autorewrite with nt. eexists _, _. split; [done |]. split; [done |]. split; [lia | done].
Qed.

(** The slot that is being filled gets new bytes. *)
Lemma data_inv fid c d ord i y : inv_but (Some i) fid c d ord -> length y = block_bytes -> inv_but (Some i) fid (set_data (<[i := y]> (data c)) c) d ord.
Proof.
  intros [I1 I2 I3 I4 I5 I6 I7 I8 I9 I10 I11 I12 I13] Hy. constructor; cbn [set_data data]; try done.
  - by rewrite length_insert.
  - intros j z. rewrite list_lookup_insert. case_decide as E; [by intros [= <-] | by apply I3].
  - intros j b Hj Hb. destruct (I9 j b Hj Hb) as [? | [? | [? Hd]]]; [by left | by right; left |]. destruct (decide (j = i)) as [-> | Hji]; [by left |].
    right. right. split; [done |]. cbn. by rewrite list_lookup_insert_ne.
Qed.

Lemma data_view x fid c d ord i b y bn : inv_but x fid c d ord -> i ∈ ord -> blocks c !! i = Some b ->
  view fid (set_data (<[i := y]> (data c)) c) d bn = if bn =? block_number b then y else view fid c d bn.
Proof.
  intros HI Hi Hb. destruct (iv_cached _ _ _ _ _ HI i b Hi Hb) as [Ef _]. pose proof (iv_hash _ _ _ _ _ HI (fid, bn)) as Hh. unfold view. cbn [set_data hash_table data].
  destruct (Z.eqb_spec bn (block_number b)) as [-> | Hne].
  - rewrite (proj2 (Hh i)) by (split; [done |]; exists b; by rewrite Ef). rewrite list_lookup_insert_eq; [done |].
    rewrite (iv_data _ _ _ _ _ HI), <- (iv_blocks _ _ _ _ _ HI). by eapply lookup_lt_Some.
  - destruct (hash_table c !! (fid, bn)) as [j |]; [| done]. destruct (proj1 (Hh j) eq_refl) as (_ & b' & Hb' & E). by rewrite list_lookup_insert_ne by congruence.
Qed.

(** The exception ends when the slot is dirty or equal to the disk. *)
Lemma inv_settle fid c d ord i b : inv_but (Some i) fid c d ord -> blocks c !! i = Some b -> state b = Dirty \/ state b = Clean /\ data c !! i = Some (content d (block_number b)) ->
  inv fid c d ord.
Proof.
  intros [I1 I2 I3 I4 I5 I6 I7 I8 I9 I10 I11 I12 I13] Hb Hs. constructor; try done. intros j y Hj Hy.
  destruct (I9 j y Hj Hy) as [[= ->] | ?]; [| by right]. right. by assert (y = b) as -> by congruence.
Qed.

Lemma fill_run fid (w : World D) ord i b : inv_but (Some i) fid (cm w) (disk w) ord -> i ∈ ord -> blocks (cm w) !! i = Some b -> state b = Clean ->
  exists w', fill w i (block_number b) = Ret w' /\ inv fid (cm w') (disk w') ord /\ hash_table (cm w') = hash_table (cm w) /\ blocks_used (cm w') = blocks_used (cm w) /\
    readahead_state (cm w') = readahead_state (cm w) /\
    forall bn, view fid (cm w') (disk w') bn = if bn =? block_number b then content (disk w) bn else view fid (cm w) (disk w) bn.
Proof.
  intros HI Hi Hb Hs. destruct (iv_cached _ _ _ _ _ HI i b Hi Hb) as (_ & Hbn & _). unfold fill. rewrite (wrap_offset _ Hbn).
  pose proof (read_content (disk w) _ Hbn) as Hr. pose proof (read_keeps (disk w) (block_number b)) as Hk. destruct (disk_read _ _ _) as [bytes dk]. cbn [fst snd] in *. subst bytes.
  pose proof (content_length (disk w) (block_number b)) as Hlen. rewrite (proj2 (Nat.ltb_lt _ _)) by (rewrite Hlen; unfold block_bytes, CACHE_BLOCK_SIZE; lia).
  assert (Hlt : (i < length (data (cm w)))%nat) by (rewrite (iv_data _ _ _ _ _ HI), <- (iv_blocks _ _ _ _ _ HI); by eapply lookup_lt_Some).
  destruct (lookup_lt_is_Some_2 _ _ Hlt) as [y Hy]. pose proof (iv_sizes _ _ _ _ _ HI i y Hy) as Hly. change (data (count bump_reads (cm w))) with (data (cm w)).
  rewrite (rd_lookup _ _ _ Hy). autorewrite with nt. rewrite copy_at_in by lia. autorewrite with nt. rewrite drop_ge by lia. cbn [take app]. rewrite app_nil_r.
  rewrite wr_in by done. autorewrite with nt. eexists. split; [done |]. cbn [cm disk]. set (c2 := set_data _ _).
  assert (HI2 : inv_but (Some i) fid c2 dk ord).
  { apply (inv_ext (Some i) fid (set_data (<[i := content (disk w) (block_number b)]> (data (cm w))) (cm w)) _ (disk w)); [done | done | done |]. by apply data_inv. }
  split; [| split; [done |]; split; [done |]; split; [done |]].
  - eapply inv_settle; [exact HI2 | exact Hb |]. right. split; [done |]. cbn. rewrite list_lookup_insert_eq by done. by rewrite Hk.
  - intros bn. etrans; [apply (view_ext fid (set_data (<[i := content (disk w) (block_number b)]> (data (cm w))) (cm w)) _ (disk w)); [done | done | by rewrite Hk] |].
    rewrite (data_view (Some i) fid (cm w) (disk w) ord i b) by done. by destruct (Z.eqb_spec bn (block_number b)) as [-> |].
Qed.

(** A block of the file that is not cached is read from the disk, or there is no slot for it. *)
Lemma load_run fid (w : World D) ord bn : inv fid (cm w) (disk w) ord -> hash_table (cm w) !! (fid, bn) = None -> 0 <= bn < 2 ^ 52 ->
  exists r w' ord', ('(r, w) ← allocate w fid bn; match r with Some i => w ← fill w i bn; Ret (Some i, w) | None => Ret (None, w) end) = Ret (r, w') /\
    inv fid (cm w') (disk w') ord' /\ readahead_state (cm w') = readahead_state (cm w) /\ (forall b, view fid (cm w') (disk w') b = view fid (cm w) (disk w) b) /\
    match r with
    | None => w' = w /\ blocks_used (cm w) = slots /\ List.find (evictable (blocks (cm w))) (rev ord) = None
    | Some i => hash_table (cm w') !! (fid, bn) = Some i /\
        if (blocks_used (cm w) <? slots)%nat then blocks_used (cm w') = S (blocks_used (cm w)) /\ hash_table (cm w') = <[(fid, bn) := i]> (hash_table (cm w))
        else blocks_used (cm w') = slots
    end.
Proof.
  intros HI Hh Hbn. destruct (allocate_run fid w ord bn HI Hh Hbn) as ([i |] & w1 & -> & Hr); autorewrite with nt; cbv beta iota.
  - destruct Hr as (ord0 & b & HI1 & Hh1 & Hb & En & Es & Er & Hv & Hc & Hu). subst bn.
    destruct (fill_run fid w1 (i :: ord0) i b HI1 ltac:(set_solver) Hb Es) as (w2 & -> & HI2 & F1 & F2 & F3 & Hv2). autorewrite with nt.
    eexists _, w2, _. split; [done |]. split; [done |]. split; [congruence |]. rewrite F1, F2. split; [| done].
    intros bn. rewrite Hv2. destruct (Z.eqb_spec bn (block_number b)) as [-> | Hne]; [done | by apply Hv].
  - destruct Hr as (-> & Hu & He). eexists _, w, ord. split; [done |]. done.
Qed.

(** New bytes in a slot make it dirty. *)
Lemma store_run fid (w : World D) ord i b y : inv_but (Some i) fid (cm w) (disk w) ord -> i ∈ ord -> blocks (cm w) !! i = Some b -> length y = block_bytes ->
  exists w', mark_dirty (set_cm (set_data (<[i := y]> (data (cm w))) (cm w)) w) i = Ret w' /\ inv fid (cm w') (disk w') ord /\
    hash_table (cm w') = hash_table (cm w) /\ blocks_used (cm w') = blocks_used (cm w) /\
    forall bn, view fid (cm w') (disk w') bn = if bn =? block_number b then y else view fid (cm w) (disk w) bn.
Proof.
  intros HI Hi Hb Hy. pose proof (data_inv fid _ _ ord i y HI Hy) as HI1. pose proof (fun bn => data_view _ fid (cm w) (disk w) ord i b y bn HI Hi Hb) as Hv.
  unfold mark_dirty. set (w1 := set_cm (set_data _ _) w). rewrite (rd_lookup _ i b) by exact Hb. autorewrite with nt. unfold is_dirty. case_bool_decide as Hs.
  { exists w1. split; [done |]. split; [eapply inv_settle; [exact HI1 | exact Hb | by left] |]. done. }
  cbn [current_time cm]. unfold upd_block. rewrite (upd_run _ i b) by exact Hb. autorewrite with nt. set (w2 := set_cm _ _).
  assert (HI2 : inv fid (cm w2) (disk w2) ord).
  { eapply (inv_settle _ _ _ _ i (set_dirty (counter w) b)); [| cbn; by rewrite list_lookup_insert_eq by (by eapply lookup_lt_Some) | by left].
    pose proof HI1 as [I1 I2 I3 I4 I5 I6 I7 I8 I9 I10 I11 I12 I13]. destruct (I8 i b Hi Hb) as (G1 & G2 & _).
    constructor; cbn [w2 set_cm cm set_queue count set_stats set_blocks blocks hash_table data lru_head lru_tail blocks_used readahead_state dirty_queue policy]; try done.
    - by rewrite length_insert.
    - by apply (lru_insert _ _ _ _ _ b).
    - intros k j. etrans; [apply (I7 k j) |]. split; intros (Hj & z & Hz & Ek); (split; [done |]).
      + destruct (decide (j = i)) as [-> | Hji]; [| exists z; by rewrite list_lookup_insert_ne].
        exists (set_dirty (counter w) b). rewrite list_lookup_insert_eq by (by eapply lookup_lt_Some). split; [done |]. by assert (z = b) as -> by (cbn in Hz; congruence).
      + apply (blocks_insert _ _ b) in Hz as [[-> ->] | [_ Hz]]; [by exists b | by exists z | done].
    - intros j z Hj Hz. apply (blocks_insert _ _ b) in Hz as [[-> ->] | [_ Hz]]; [cbn; auto | by apply I8 with j | done].
    - intros j z Hj Hz. apply (blocks_insert _ _ b) in Hz as [[-> ->] | [Hji Hz]]; [by left | by apply (I9 j) | done].
    - intros j z Hj Hz. apply (blocks_insert _ _ b) in Hz as [[-> ->] | [Hji Hz]]; [done | by apply (I10 j) | done].
    - apply Forall_app. split; [done |]. constructor; [| done]. rewrite <- I1. by eapply lookup_lt_Some. }
  assert (Hv2 : forall bn, view fid (cm w2) (disk w2) bn = if bn =? block_number b then y else view fid (cm w) (disk w) bn) by (intros bn; rewrite <- Hv; by apply view_ext).
  change (coherency_mode _) with (coherency_mode (cm w)). case_bool_decide.
  - destruct (flush_inv None fid w2 ord i (set_dirty (counter w) b) HI2) as (w3 & R & HI3 & (F1 & F2 & F3 & F4 & F5 & _) & _ & _ & _ & Hv3);
      [cbn; by rewrite list_lookup_insert_eq by (by eapply lookup_lt_Some) | done |].
    exists w3. split; [exact R |]. split; [done |]. rewrite F1, F5. split; [done |]. split; [done |]. intros bn. by rewrite Hv3.
  - exists w2. done.
Qed.

(** Slots are used up, and until they are no block leaves the cache. *)
Definition grows (c c' : CacheManager) : Prop :=
  (blocks_used c <= blocks_used c')%nat /\ ((blocks_used c' < slots)%nat -> hash_table c ⊆ hash_table c').

Lemma grows_same c c' : hash_table c' = hash_table c -> blocks_used c' = blocks_used c -> grows c c'.
Proof. intros E1 E2. unfold grows. by rewrite E1, E2. Qed.

Lemma grows_trans c1 c2 c3 : grows c1 c2 -> grows c2 c3 -> grows c1 c3.
Proof. intros [U1 H1] [U2 H2]. split; [lia |]. intros Hu. etrans; [apply H1; lia | by apply H2]. Qed.

Lemma load_grows fid (c c' : CacheManager) bn i : hash_table c !! (fid, bn) = None -> (blocks_used c <= slots)%nat ->
  (if (blocks_used c <? slots)%nat then blocks_used c' = S (blocks_used c) /\ hash_table c' = <[(fid, bn) := i]> (hash_table c) else blocks_used c' = slots) -> grows c c'.
Proof.
  intros Hh Hs. destruct (Nat.ltb_spec (blocks_used c) slots); intros Hu; [destruct Hu as [Hu Ht] |]; split; try lia.
  intros _. rewrite Ht. by apply insert_subseteq.
Qed.

(** Reading ahead changes no view. *)
Lemma readahead_loop_run n fid (w : World D) ord bn : inv fid (cm w) (disk w) ord -> 0 <= bn -> bn + Z.of_nat n < 2 ^ 52 ->
  exists w' ord', readahead_loop n w fid bn = Ret w' /\ inv fid (cm w') (disk w') ord' /\ grows (cm w) (cm w') /\
    forall b, view fid (cm w') (disk w') b = view fid (cm w) (disk w) b.
Proof.
  revert w ord bn. induction n as [| n IH]; intros w ord bn HI Hbn Hn; [by exists w, ord |]. cbn [readahead_loop].
  assert (Hstep : exists w1 ord1, match hash_table (cm w) !! (fid, bn) with
      | Some _ => Ret (set_cm (count bump_ra_hits (cm w)) w)
      | None => '(r, w) ← allocate w fid bn; match r with Some i => fill w i bn | None => Ret (set_cm (count bump_ra_misses (cm w)) w) end end = Ret w1 /\
    inv fid (cm w1) (disk w1) ord1 /\ grows (cm w) (cm w1) /\ forall b, view fid (cm w1) (disk w1) b = view fid (cm w) (disk w) b).
  { destruct (hash_table (cm w) !! (fid, bn)) as [j |] eqn:E.
    - eexists. exists ord. split; [done |]. split; [by apply (inv_ext None fid (cm w) _ (disk w)) |]. split; [by apply grows_same | done].
    - destruct (load_run fid w ord bn HI E ltac:(lia)) as (r & w1 & ord1 & R & HI1 & _ & Hv & Hr). destruct (allocate w fid bn) as [[r0 w0] | |]; [| done..].
      autorewrite with nt in *. destruct r0 as [i |].
      + apply outcome_bind_Ret in R as (w2 & -> & R). injection R as <- <-. exists w2, ord1. split; [done |]. split; [done |]. split; [| done].
        destruct Hr as [_ Hu]. eapply load_grows; [exact E | apply HI | exact Hu].
      + injection R as <- <-. destruct Hr as [-> _]. eexists. exists ord. split; [done |]. split; [by apply (inv_ext None fid (cm w) _ (disk w)) |]. split; [by apply grows_same | done]. }
  destruct Hstep as (w1 & ord1 & -> & HI1 & G1 & V1). autorewrite with nt. rewrite (wrap_small 64) by (unfold u_ty; lia).
  destruct (IH w1 ord1 (bn + 1) HI1) as (w2 & ord2 & -> & HI2 & G2 & V2); [lia | lia |]. exists w2, ord2. split; [done |]. split; [done |].
  split; [by eapply grows_trans |]. intros b. by rewrite V2, V1.
Qed.

Lemma readahead_run fid (w : World D) ord : inv fid (cm w) (disk w) ord ->
  exists w' ord', readahead w fid = Ret w' /\ inv fid (cm w') (disk w') ord' /\ grows (cm w) (cm w') /\
    forall b, view fid (cm w') (disk w') b = view fid (cm w) (disk w) b.
Proof.
  intros HI. unfold readahead. destruct (readahead_state (cm w) !! fid) as [s |] eqn:Es; [| exists w, ord; split; [done |]; split; [done |]; split; [by apply grows_same | done]].
  unfold get_readahead_range. destruct (should_readahead s); [| exists w, ord; split; [done |]; split; [done |]; split; [by apply grows_same | done]].
  destruct (iv_ahead _ _ _ _ _ HI s Es) as (H1 & H2 & H3). unfold READAHEAD_MAX in H3. eapply readahead_loop_run; [exact HI | lia | lia].
Qed.

(** ** Bytes *)

Definition byte_at (st : Z -> list Z) (a : Z) : Z := nth (Z.to_nat (a mod CACHE_BLOCK_SIZE)) (st (a / CACHE_BLOCK_SIZE)) 0.

(** [n] bytes of a memory, and a memory with some bytes replaced. *)
Definition bytes_at (m : Z -> Z) (offset : Z) (n : nat) : list Z := (fun k => m (offset + Z.of_nat k)) <$> seq 0 n.

Definition store_write (m : Z -> Z) (offset : Z) (buffer : list Z) : Z -> Z :=
  fun a => if (offset <=? a) && (a <? offset + Z.of_nat (length buffer)) then nth (Z.to_nat (a - offset)) buffer 0 else m a.

Lemma bytes_at_app m offset n k : bytes_at m offset (n + k) = bytes_at m offset n ++ bytes_at m (offset + Z.of_nat n) k.
Proof.
  unfold bytes_at. rewrite seq_app, fmap_app. f_equal. cbn [Nat.add]. rewrite <- (Nat.add_0_r n) at 1. rewrite <- fmap_add_seq, <- list_fmap_compose. apply list_fmap_ext. intros i j _.
  unfold compose. f_equal. lia.
Qed.

Lemma bytes_at_ext m m' offset n : (forall a, m a = m' a) -> bytes_at m offset n = bytes_at m' offset n.
Proof. intros E. apply list_fmap_ext. intros i k _. apply E. Qed.

Lemma store_write_app m offset b1 b2 a : store_write m offset (b1 ++ b2) a = store_write (store_write m offset b1) (offset + Z.of_nat (length b1)) b2 a.
Proof.
  unfold store_write. rewrite length_app. destruct (Z.leb_spec offset a), (Z.ltb_spec a (offset + Z.of_nat (length b1 + length b2))),
    (Z.leb_spec (offset + Z.of_nat (length b1)) a), (Z.ltb_spec a (offset + Z.of_nat (length b1) + Z.of_nat (length b2))),
    (Z.ltb_spec a (offset + Z.of_nat (length b1))); cbn [andb]; try lia; try done.
  - rewrite app_nth2 by lia. f_equal. lia.
  - rewrite app_nth1 by lia. done.
Qed.

Lemma store_write_ext m m' offset buffer a : m a = m' a -> store_write m offset buffer a = store_write m' offset buffer a.
Proof. intros E. unfold store_write. by rewrite E. Qed.

(** The address of a byte of a block. *)
Lemma address_in_block offset k : 0 <= offset -> offset mod CACHE_BLOCK_SIZE + k < CACHE_BLOCK_SIZE -> 0 <= k ->
  (offset + k) / CACHE_BLOCK_SIZE = offset / CACHE_BLOCK_SIZE /\ (offset + k) mod CACHE_BLOCK_SIZE = offset mod CACHE_BLOCK_SIZE + k.
Proof.
  unfold CACHE_BLOCK_SIZE. intros Ho Hk Hk0. pose proof (Z.mod_pos_bound offset 4096 eq_refl) as Hm. pose proof (Z.div_mod offset 4096 ltac:(done)) as Hdm.
  split; [symmetry; apply (Z.div_unique _ _ _ (offset mod 4096 + k)); lia | symmetry; apply (Z.mod_unique _ _ (offset / 4096)); lia].
Qed.

Lemma bytes_at_block st offset n : 0 <= offset -> (Z.to_nat (offset mod CACHE_BLOCK_SIZE) + n <= block_bytes)%nat -> length (st (offset / CACHE_BLOCK_SIZE)) = block_bytes ->
  take n (drop (Z.to_nat (offset mod CACHE_BLOCK_SIZE)) (st (offset / CACHE_BLOCK_SIZE))) = bytes_at (byte_at st) offset n.
Proof.
  intros Ho Hn Hl. apply list_eq. intros k. unfold bytes_at. rewrite list_lookup_fmap. pose proof (Z.mod_pos_bound offset CACHE_BLOCK_SIZE eq_refl) as Hm.
  destruct (decide (k < n)%nat) as [Hk | Hk]; [| rewrite lookup_take_ge, lookup_seq_ge by lia; done].
  rewrite lookup_take_lt, lookup_drop, lookup_seq_lt by lia. cbn [fmap option_fmap option_map Nat.add]. rewrite (lookup_nth _ _ 0) by lia. unfold byte_at.
  destruct (address_in_block offset (Z.of_nat k)) as [-> ->]; [lia | unfold block_bytes in Hn; lia | lia |]. do 2 f_equal. lia.
Qed.

Lemma nth_splice (d chunk : list Z) bo q : (bo + length chunk <= length d)%nat ->
  nth q (take bo d ++ chunk ++ drop (bo + length chunk) d) 0 = if decide (bo <= q < bo + length chunk)%nat then nth (q - bo) chunk 0 else nth q d 0.
Proof.
  intros Hl. assert (Ht : length (take bo d) = bo) by (rewrite length_take; lia). case_decide as Hq.
  - rewrite app_nth2, Ht, app_nth1 by lia. done.
  - destruct (decide (q < bo)%nat) as [Hb | Hb].
    + rewrite app_nth1 by lia. rewrite <- (take_drop bo d) at 2. by rewrite app_nth1 by lia.
    + rewrite app_nth2, Ht, app_nth2 by lia. rewrite <- (take_drop (bo + length chunk) d) at 2. rewrite app_nth2; rewrite length_take; [| lia]. f_equal. lia.
Qed.

(** A piece of one block is replaced. *)
Lemma splice_write st st' offset chunk d : 0 <= offset -> (Z.to_nat (offset mod CACHE_BLOCK_SIZE) + length chunk <= block_bytes)%nat -> length d = block_bytes ->
  d = st (offset / CACHE_BLOCK_SIZE) \/ length chunk = block_bytes ->
  (forall b, st' b = if b =? offset / CACHE_BLOCK_SIZE
     then take (Z.to_nat (offset mod CACHE_BLOCK_SIZE)) d ++ chunk ++ drop (Z.to_nat (offset mod CACHE_BLOCK_SIZE) + length chunk) d else st b) ->
  forall a, byte_at st' a = store_write (byte_at st) offset chunk a.
Proof.
  intros Ho Hn Hd Hw Hst a. pose proof (Z.mod_pos_bound offset CACHE_BLOCK_SIZE eq_refl) as Hm. pose proof (Z.mod_pos_bound a CACHE_BLOCK_SIZE eq_refl) as Hma.
  pose proof (Z.div_mod offset CACHE_BLOCK_SIZE ltac:(done)) as Eo. pose proof (Z.div_mod a CACHE_BLOCK_SIZE ltac:(done)) as Ea.
  unfold byte_at at 1. rewrite Hst. unfold store_write. destruct (Z.eqb_spec (a / CACHE_BLOCK_SIZE) (offset / CACHE_BLOCK_SIZE)) as [E | E].
  - rewrite nth_splice by lia. rewrite E in Ea. case_decide as Hq.
    + rewrite (proj2 (Z.leb_le _ _)), (proj2 (Z.ltb_lt _ _)) by lia. cbn [andb]. f_equal. lia.
    + destruct Hw as [-> | Hw]; [| unfold block_bytes in *; lia].
      destruct (Z.leb_spec offset a), (Z.ltb_spec a (offset + Z.of_nat (length chunk))); cbn [andb]; try (unfold byte_at; by rewrite E); lia.
  - assert ((offset <=? a) && (a <? offset + Z.of_nat (length chunk)) = false) as ->; [| done].
    apply andb_false_iff. destruct (Z.leb_spec offset a) as [H1 |]; [right | by left]. apply Z.ltb_ge. unfold block_bytes in Hn. unfold CACHE_BLOCK_SIZE in *.
    assert (offset / 4096 <= a / 4096) by (apply Z.div_le_mono; lia). nia.
Qed.

Lemma view_length x fid c d ord bn : inv_but x fid c d ord -> length (view fid c d bn) = block_bytes.
Proof.
  intros HI. unfold view. destruct (hash_table c !! (fid, bn)) as [i |] eqn:E; [| apply content_length]. apply (iv_hash _ _ _ _ _ HI) in E as (_ & b & Hb & _).
  destruct (lookup_lt_is_Some_2 (data c) i) as [y Hy]; [rewrite (iv_data _ _ _ _ _ HI), <- (iv_blocks _ _ _ _ _ HI); by eapply lookup_lt_Some |].
  rewrite Hy. by apply (iv_sizes _ _ _ _ _ HI i).
Qed.

Lemma to_copy_bounds offset n : (0 < n)%nat -> let k := to_copy offset n in (0 < k <= n)%nat /\ (Z.to_nat (offset mod CACHE_BLOCK_SIZE) + k <= block_bytes)%nat.
Proof.
  intros Hn. unfold to_copy, block_bytes. pose proof (Z.mod_pos_bound offset CACHE_BLOCK_SIZE eq_refl). unfold CACHE_BLOCK_SIZE in *. lia.
Qed.

(** The file as its clients see it. *)
Definition memory (fid : Z) (w : World D) : Z -> Z := byte_at (view fid (cm w) (disk w)).

Lemma memory_ext fid (w w' : World D) : (forall b, view fid (cm w') (disk w') b = view fid (cm w) (disk w) b) -> forall a, memory fid w' a = memory fid w a.
Proof. intros Hv a. unfold memory, byte_at. by rewrite Hv. Qed.

(** The block of an address is in the cache, from the map or from the disk. *)
Lemma fetch_run fid (w : World D) ord bn : inv fid (cm w) (disk w) ord -> 0 <= bn < 2 ^ 51 ->
  exists r w' ord', ('(r, w) ← lookup w fid bn;
      match r with
      | Some i => Ret (Some i, w)
      | None => '(r, w) ← allocate w fid bn; match r with Some i => w ← fill w i bn; Ret (Some i, w) | None => Ret (None, w) end
      end) = Ret (r, w') /\ inv fid (cm w') (disk w') ord' /\ grows (cm w) (cm w') /\ (forall b, view fid (cm w') (disk w') b = view fid (cm w) (disk w) b) /\
    match r with Some i => hash_table (cm w') !! (fid, bn) = Some i | None => blocks_used (cm w') = slots end.
Proof.
  intros HI Hbn. destruct (lookup_run None fid w ord bn HI Hbn) as (w1 & ord1 & -> & HI1 & _ & F1 & F2 & F3 & F4). autorewrite with nt. cbv beta iota.
  assert (Hv1 : forall b, view fid (cm w1) (disk w1) b = view fid (cm w) (disk w) b) by (intros b; apply view_ext; [done | done | by rewrite F4]).
  destruct (hash_table (cm w) !! (fid, bn)) as [i |] eqn:E.
  - exists (Some i), w1, ord1. split; [done |]. split; [done |]. split; [by apply grows_same |]. split; [done |]. by rewrite F1.
  - destruct (load_run fid w1 ord1 bn HI1) as (r & w2 & ord2 & -> & HI2 & _ & Hv2 & Hr); [by rewrite F1 | lia |]. exists r, w2, ord2. split; [done |]. split; [done |].
    split; [| split; [intros b; by rewrite Hv2, Hv1 |]; destruct r as [i |]; [by apply Hr | by destruct Hr as (-> & Hu & _)]].
    apply grows_trans with (cm w1); [by apply grows_same |]. destruct r as [i |]; [| destruct Hr as (-> & _); by apply grows_same].
    destruct Hr as [_ Hu]. eapply load_grows; [by rewrite F1 | apply HI1 | exact Hu].
Qed.

Lemma read_loop_run fuel fid (w : World D) ord offset n : inv fid (cm w) (disk w) ord -> 0 <= offset -> offset + Z.of_nat n <= 2 ^ 63 -> (n <= fuel)%nat ->
  exists r bytes w' ord', read_loop fuel w fid offset n = Ret (r, bytes, w') /\ inv fid (cm w') (disk w') ord' /\ grows (cm w) (cm w') /\
    (forall b, view fid (cm w') (disk w') b = view fid (cm w) (disk w) b) /\
    ((0 < n)%nat -> (blocks_used (cm w') < slots)%nat -> is_Some (hash_table (cm w') !! (fid, offset / CACHE_BLOCK_SIZE))) /\
    match r with
    | inl _ => bytes = bytes_at (memory fid w) offset n
    | inr e => e = STATUS_UNSUCCESSFUL /\ exists k, (k < n)%nat /\ bytes = bytes_at (memory fid w) offset k
    end.
Proof.
  revert w ord offset n. induction fuel as [| fuel IH]; intros w ord offset n HI Ho Hn Hf.
  { assert (n = 0%nat) as -> by lia. exists (inl ()), [], w, ord. split; [done |]. split; [done |]. split; [by apply grows_same |]. split; [done |]. split; [lia | done]. }
  destruct n as [| n0]; [exists (inl ()), [], w, ord; split; [done |]; split; [done |]; split; [by apply grows_same |]; split; [done |]; split; [lia | done] |].
  cbn [read_loop]. set (n := S n0) in *. destruct (to_copy_bounds offset n ltac:(lia)) as [Hk Hk2]. set (k := to_copy offset n) in *.
  assert (Hbn : 0 <= offset / CACHE_BLOCK_SIZE < 2 ^ 51).
  { unfold CACHE_BLOCK_SIZE. split; [apply Z.div_pos; lia |]. apply Z.div_lt_upper_bound; lia. }
  destruct (fetch_run fid w ord _ HI Hbn) as (r & w1 & ord1 & R & HI1 & G1 & V1 & Hr).
  destruct (lookup w fid (offset / CACHE_BLOCK_SIZE)) as [[r0 w0] | |]; [| done..]. autorewrite with nt in *. cbv beta iota in *. rewrite R. autorewrite with nt. cbv beta iota.
  destruct r as [i |].
  - pose proof (iv_hash _ _ _ _ _ HI1 (fid, offset / CACHE_BLOCK_SIZE) i) as [Hh _]. destruct (Hh Hr) as (_ & b & Hb & _).
    destruct (lookup_lt_is_Some_2 (data (cm w1)) i) as [d Hd]; [rewrite (iv_data _ _ _ _ _ HI1), <- (iv_blocks _ _ _ _ _ HI1); by eapply lookup_lt_Some |].
    assert (Ed : d = view fid (cm w1) (disk w1) (offset / CACHE_BLOCK_SIZE)) by (unfold view; by rewrite Hr, Hd).
    pose proof (view_length None fid _ _ _ (offset / CACHE_BLOCK_SIZE) HI1) as Hlen. rewrite (rd_lookup _ _ _ Hd). autorewrite with nt.
    rewrite slice_in by (rewrite Ed, Hlen; lia). autorewrite with nt. rewrite (wrap_small 64) by (unfold u_ty; lia).
    destruct (IH w1 ord1 (offset + Z.of_nat k) (n - k)%nat HI1) as (r' & bytes & w2 & ord2 & -> & HI2 & G2 & V2 & _ & Hr2); [lia | lia | lia |]. autorewrite with nt. cbv beta iota.
    rewrite Nat.add_sub_swap, Nat.sub_diag, Nat.add_0_l, Ed, (bytes_at_block (view fid (cm w1) (disk w1)) offset k Ho Hk2 Hlen) by lia.
    assert (Em : forall a, byte_at (view fid (cm w1) (disk w1)) a = memory fid w a) by (intros a; by apply memory_ext).
    rewrite (bytes_at_ext _ (memory fid w) offset k Em). eexists _, _, w2, ord2. split; [done |]. split; [done |]. split; [by eapply grows_trans |].
    split; [intros c; by rewrite V2, V1 |]. split; [intros _ Hu; destruct G2 as [_ G2]; exists i; by eapply lookup_weaken; [| apply G2] |].
    destruct r' as [u | e].
    + rewrite Hr2, (bytes_at_ext (memory fid w1) (memory fid w) _ _ Em), <- bytes_at_app. f_equal. lia.
    + destruct Hr2 as [-> (j & Hj & ->)]. split; [done |]. exists (k + j)%nat. split; [lia |]. by rewrite (bytes_at_ext (memory fid w1) (memory fid w) _ _ Em), <- bytes_at_app.
  - exists (inr STATUS_UNSUCCESSFUL), [], w1, ord1. split; [done |]. split; [done |]. split; [done |]. split; [done |]. split; [lia |]. split; [done |]. exists 0%nat. split; [lia | done].
Qed.

(** Whole blocks, or a piece of a block that is cached. *)
Definition writable (c : CacheManager) (fid offset : Z) (n : nat) : Prop :=
  (offset mod CACHE_BLOCK_SIZE = 0 /\ Z.of_nat n mod CACHE_BLOCK_SIZE = 0) \/
  (offset mod CACHE_BLOCK_SIZE + Z.of_nat n <= CACHE_BLOCK_SIZE /\ is_Some (hash_table c !! (fid, offset / CACHE_BLOCK_SIZE))).

Lemma inv_weaken x fid c d ord : inv fid c d ord -> inv_but x fid c d ord.
Proof.
  intros [I1 I2 I3 I4 I5 I6 I7 I8 I9 I10 I11 I12 I13]. constructor; try done. intros i b Hi Hb. destruct (I9 i b Hi Hb) as [? | ?]; [done | by right].
Qed.

(** The slot a write goes to, and what it holds. *)
Lemma slot_run fid (w : World D) ord bn : inv fid (cm w) (disk w) ord -> 0 <= bn < 2 ^ 51 ->
  exists r w', ('(r, w) ← lookup w fid bn; match r with Some i => Ret (Some i, w) | None => allocate w fid bn end) = Ret (r, w') /\
    match r with
    | None => exists ord', inv fid (cm w') (disk w') ord' /\ forall b, view fid (cm w') (disk w') b = view fid (cm w) (disk w) b
    | Some i => exists ord' b d, inv_but (Some i) fid (cm w') (disk w') ord' /\ i ∈ ord' /\ blocks (cm w') !! i = Some b /\ block_number b = bn /\
        data (cm w') !! i = Some d /\ length d = block_bytes /\ (is_Some (hash_table (cm w) !! (fid, bn)) -> d = view fid (cm w) (disk w) bn) /\
        forall b, b <> bn -> view fid (cm w') (disk w') b = view fid (cm w) (disk w) b
    end.
Proof.
  intros HI Hbn. destruct (lookup_run None fid w ord bn HI Hbn) as (w1 & ord1 & -> & HI1 & _ & F1 & F2 & F3 & F4). autorewrite with nt. cbv beta iota.
  assert (Hv1 : forall b, view fid (cm w1) (disk w1) b = view fid (cm w) (disk w) b) by (intros b; apply view_ext; [done | done | by rewrite F4]).
  assert (Hslot : forall x (w2 : World D) ord2 i, inv_but x fid (cm w2) (disk w2) ord2 -> i ∈ ord2 -> exists b d, blocks (cm w2) !! i = Some b /\ data (cm w2) !! i = Some d /\ length d = block_bytes).
  { intros x w2 ord2 i HI2 Hi. pose proof (iv_ord _ _ _ _ _ HI2 i Hi) as Hu. pose proof (iv_used _ _ _ _ _ HI2) as Hs.
    destruct (lookup_lt_is_Some_2 (blocks (cm w2)) i) as [b Hb]; [rewrite (iv_blocks _ _ _ _ _ HI2); lia |].
    destruct (lookup_lt_is_Some_2 (data (cm w2)) i) as [d Hd]; [rewrite (iv_data _ _ _ _ _ HI2); lia |]. exists b, d. split; [done |]. split; [done |]. by apply (iv_sizes _ _ _ _ _ HI2 i). }
  destruct (hash_table (cm w) !! (fid, bn)) as [i |] eqn:E.
  - exists (Some i), w1. split; [done |]. pose proof (iv_hash _ _ _ _ _ HI1 (fid, bn) i) as [Hh _]. rewrite F1 in Hh. destruct (Hh E) as (Hi & b & Hb & [= _ En]).
    destruct (Hslot None w1 ord1 i HI1 Hi) as (b' & d & Hb' & Hd & Hl). assert (b' = b) as -> by congruence. exists ord1, b, d.
    split; [by apply inv_weaken |]. repeat (split; [done |]). split; [| done]. intros _. unfold view. by rewrite E, <- F2, Hd.
  - destruct (allocate_run fid w1 ord1 bn HI1) as ([i |] & w2 & -> & Hr); [by rewrite F1 | lia | |].
    + exists (Some i), w2. split; [done |]. destruct Hr as (ord0 & b & HI2 & _ & Hb & En & _ & _ & Hv & _).
      destruct (Hslot (Some i) w2 (i :: ord0) i HI2 ltac:(set_solver)) as (b' & d & Hb' & Hd & Hl). exists (i :: ord0), b, d. split; [done |]. split; [set_solver |].
      repeat (split; [done |]). intros c Hc. by rewrite Hv, Hv1.
    + exists None, w2. split; [done |]. destruct Hr as [-> _]. by exists ord1.
Qed.

Lemma writable_next c fid offset n : 0 <= offset -> (0 < n)%nat -> writable c fid offset n -> let k := to_copy offset n in
  ((k < n)%nat -> (offset + Z.of_nat k) mod CACHE_BLOCK_SIZE = 0 /\ Z.of_nat (n - k) mod CACHE_BLOCK_SIZE = 0) /\
  (hash_table c !! (fid, offset / CACHE_BLOCK_SIZE) = None -> k = block_bytes).
Proof.
  intros Ho Hn Hw. pose proof (Z.mod_pos_bound offset CACHE_BLOCK_SIZE eq_refl) as Hm. pose proof (Z.div_mod offset CACHE_BLOCK_SIZE ltac:(done)) as Eo.
  pose proof (Z.div_mod (Z.of_nat n) CACHE_BLOCK_SIZE ltac:(done)) as En. cbv zeta. unfold to_copy, block_bytes. destruct Hw as [[H1 H2] | [H1 [i Hi]]].
  - rewrite H1, H2 in *. unfold CACHE_BLOCK_SIZE in *. assert (0 < Z.of_nat n / 4096) by lia. split; [| lia]. intros Hk.
    replace (Nat.min (Z.to_nat 4096 - Z.to_nat 0) n) with (Z.to_nat 4096) by lia. split.
    + replace (offset + Z.of_nat (Z.to_nat 4096)) with ((offset / 4096 + 1) * 4096) by lia. apply Z.mod_mul. lia.
    + replace (Z.of_nat (n - Z.to_nat 4096)) with ((Z.of_nat n / 4096 - 1) * 4096) by lia. apply Z.mod_mul. lia.
  - split; [unfold CACHE_BLOCK_SIZE in *; lia | congruence].
Qed.

Lemma write_loop_run fuel fid (w : World D) ord offset buffer : inv fid (cm w) (disk w) ord -> 0 <= offset -> offset + Z.of_nat (length buffer) <= 2 ^ 63 ->
  (length buffer <= fuel)%nat -> buffer = [] \/ writable (cm w) fid offset (length buffer) ->
  exists r w' ord', write_loop fuel w fid offset buffer = Ret (r, w') /\ inv fid (cm w') (disk w') ord' /\
    match r with
    | inl _ => forall a, memory fid w' a = store_write (memory fid w) offset buffer a
    | inr e => e = STATUS_UNSUCCESSFUL /\ exists k, (k < length buffer)%nat /\ forall a, memory fid w' a = store_write (memory fid w) offset (take k buffer) a
    end.
Proof.
  assert (Hnil : forall m o a, store_write m o [] a = m a).
  { intros m o a. unfold store_write. cbn [length]. destruct (Z.leb_spec o a), (Z.ltb_spec a (o + Z.of_nat 0)); try lia; done. }
  revert w ord offset buffer. induction fuel as [| fuel IH]; intros w ord offset buffer HI Ho Hn Hf Hw; (destruct buffer as [| x buffer0]; [exists (inl ()), w, ord; by split | cbn [length] in Hf; try lia]).
  destruct Hw as [? | Hw]; [done |]. set (buffer := x :: buffer0) in *. assert (Hlen : (0 < length buffer)%nat) by (cbn; lia). cbn [write_loop]. fold buffer.
  destruct (to_copy_bounds offset (length buffer) Hlen) as [Hk Hk2]. destruct (writable_next _ _ _ _ Ho Hlen Hw) as [Hnext Hmiss]. set (k := to_copy offset (length buffer)) in *.
  assert (Hbn : 0 <= offset / CACHE_BLOCK_SIZE < 2 ^ 51).
  { unfold CACHE_BLOCK_SIZE. split; [apply Z.div_pos; lia |]. apply Z.div_lt_upper_bound; lia. }
  destruct (slot_run fid w ord _ HI Hbn) as (r & w1 & R & Hr).
  destruct (lookup w fid (offset / CACHE_BLOCK_SIZE)) as [[r0 w0] | |]; [| done..]. autorewrite with nt in *. cbv beta iota in *. rewrite R. autorewrite with nt. cbv beta iota.
  destruct r as [i |].
  - destruct Hr as (ord1 & b & d & HI1 & Hi & Hb & En & Hd & Hl & Hhit & Hv). rewrite (rd_lookup _ _ _ Hd). autorewrite with nt.
    assert (Hlt : length (take k buffer) = k) by (rewrite length_take; lia). rewrite copy_at_in by lia. autorewrite with nt. rewrite wr_in by (by eapply lookup_lt_Some). autorewrite with nt.
    set (y := take _ d ++ _).
    destruct (store_run fid w1 ord1 i b y HI1 Hi Hb) as (w2 & -> & HI2 & Eh & _ & Hv2).
    { unfold y. rewrite !length_app, length_take, length_drop, Hlt. lia. }
    autorewrite with nt. set (w3 := set_cm (count bump_writes (cm w2)) w2). assert (HI3 : inv fid (cm w3) (disk w3) ord1) by (by apply (inv_ext None fid (cm w2) _ (disk w2))).
    assert (Hm : forall a, memory fid w3 a = store_write (memory fid w) offset (take k buffer) a).
    { apply (splice_write _ _ _ _ d); [done | by rewrite Hlt | done | | ].
      - rewrite Hlt. destruct (hash_table (cm w) !! (fid, offset / CACHE_BLOCK_SIZE)) eqn:E; [left; apply Hhit; by eexists | right; by apply Hmiss].
      - intros c. change (view fid (cm w3) (disk w3) c) with (view fid (cm w2) (disk w2) c). rewrite Hv2, En, Hlt. destruct (Z.eqb_spec c (offset / CACHE_BLOCK_SIZE)) as [-> | Hne]; [by unfold y; rewrite Hlt | by apply Hv]. }
    rewrite (wrap_small 64) by (unfold u_ty; lia).
    destruct (IH w3 ord1 (offset + Z.of_nat k) (drop k buffer) HI3) as (r & w4 & ord4 & -> & HI4 & Hr4); [lia | rewrite length_drop; lia | rewrite length_drop; cbn [length buffer] in *; lia | |].
    { destruct (decide (k < length buffer)%nat) as [Hlt2 |]; [right; left; rewrite length_drop; by apply Hnext | left; apply drop_ge; lia]. }
    exists r, w4, ord4. split; [done |]. split; [done |].
    assert (Happ : forall z a, store_write (memory fid w3) (offset + Z.of_nat k) z a = store_write (memory fid w) offset (take k buffer ++ z) a).
    { intros z a. rewrite store_write_app, Hlt. by apply store_write_ext. }
    destruct r as [u | e].
    + intros a. by rewrite Hr4, Happ, take_drop.
    + destruct Hr4 as [-> (j & Hj & Hm4)]. rewrite length_drop in Hj. split; [done |]. exists (k + j)%nat. split; [lia |]. intros a. by rewrite Hm4, Happ, take_take_drop.
  - destruct Hr as (ord1 & HI1 & Hv). exists (inr STATUS_UNSUCCESSFUL), w1, ord1. split; [done |]. split; [done |]. split; [done |]. exists 0%nat. split; [done |].
    intros a. cbn [take]. rewrite Hnil. by apply memory_ext.
Qed.

(** ** Flushing and dropping *)

Lemma flush_loop_run n fid (w : World D) ord i : inv fid (cm w) (disk w) ord -> (i + n <= slots)%nat ->
  (forall j b, (j < i)%nat -> blocks (cm w) !! j = Some b -> state b <> Dirty) ->
  exists w', flush_loop n w i = Ret w' /\ inv fid (cm w') (disk w') ord /\ (forall b, view fid (cm w') (disk w') b = view fid (cm w) (disk w) b) /\
    same_frame (cm w) (cm w') /\ forall j b, (j < i + n)%nat -> blocks (cm w') !! j = Some b -> state b <> Dirty.
Proof.
  revert w i. induction n as [| n IH]; intros w i HI Hn Hc; [exists w; split; [done |]; split; [done |]; split; [done |]; split; [done |]; intros j b Hj; apply Hc; lia |].
  cbn [flush_loop]. destruct (lookup_lt_is_Some_2 (blocks (cm w)) i) as [b Hb]; [rewrite (iv_blocks _ _ _ _ _ HI); lia |]. rewrite (rd_lookup _ _ _ Hb). autorewrite with nt.
  assert (Hstep : exists w1, (if is_dirty b then flush_block w i else Ret w) = Ret w1 /\ inv fid (cm w1) (disk w1) ord /\ (forall b, view fid (cm w1) (disk w1) b = view fid (cm w) (disk w) b) /\
    same_frame (cm w) (cm w1) /\ forall j b, (j < S i)%nat -> blocks (cm w1) !! j = Some b -> state b <> Dirty).
  { unfold is_dirty. case_bool_decide as Hs.
    - destruct (flush_inv None fid w ord i b HI Hb Hs) as (w1 & -> & HI1 & Hf & Hbs & _ & _ & Hv). exists w1. split; [done |]. split; [done |]. split; [done |]. split; [done |].
      intros j y Hj. rewrite Hbs. intros Hy. apply (blocks_insert _ _ b) in Hy as [[-> ->] | [Hji Hy]]; [done | apply (Hc j); [lia | done] | done].
    - exists w. split; [done |]. split; [done |]. split; [done |]. split; [done |]. intros j y Hj Hy. destruct (decide (j = i)) as [-> |]; [congruence | apply (Hc j); [lia | done]]. }
  destruct Hstep as (w1 & -> & HI1 & V1 & F1 & C1). autorewrite with nt. destruct (IH w1 (S i) HI1 ltac:(lia) C1) as (w2 & -> & HI2 & V2 & F2 & C2).
  exists w2. split; [done |]. split; [done |]. split; [intros c; by rewrite V2, V1 |]. split; [| intros j y Hj; apply C2; lia].
  destruct F1 as (? & ? & ? & ? & ? & ? & ? & ?), F2 as (? & ? & ? & ? & ? & ? & ? & ?). repeat split; congruence.
Qed.

(** After a flush the disk is what the clients see. *)
Lemma flush_all_run fid (w : World D) ord : inv fid (cm w) (disk w) ord ->
  exists w', flush_all w = Ret w' /\ inv fid (cm w') (disk w') ord /\ (forall b, view fid (cm w') (disk w') b = view fid (cm w) (disk w) b) /\
    blocks_used (cm w') = blocks_used (cm w) /\ forall b, content (disk w') b = view fid (cm w) (disk w) b.
Proof.
  intros HI. unfold flush_all. destruct (flush_loop_run (blocks_used (cm w)) fid w ord 0 HI) as (w1 & -> & HI1 & V1 & F1 & C1); [apply HI | lia |]. autorewrite with nt.
  eexists. split; [done |]. split.
  - pose proof HI1 as [I1 I2 I3 I4 I5 I6 I7 I8 I9 I10 I11 I12 I13]. by constructor.
  - split; [done |]. split; [apply F1 |]. intros bn. rewrite <- V1. unfold view. cbn [disk set_cm]. destruct (hash_table (cm w1) !! (fid, bn)) as [i |] eqn:E; [| done].
    apply (iv_hash _ _ _ _ _ HI1) in E as (Hi & b & Hb & [= _ En]). pose proof (iv_ord _ _ _ _ _ HI1 i Hi) as Hu. destruct F1 as (_ & _ & _ & _ & F5 & _). rewrite F5 in Hu.
    destruct (iv_synced _ _ _ _ _ HI1 i b Hi Hb) as [? | [Hs | [_ Hd]]]; [done | by destruct (C1 i b Hu Hb) |]. by rewrite Hd, En.
Qed.

Lemma writeback_loop_run n fid (w : World D) ord k : inv fid (cm w) (disk w) ord ->
  exists r w', writeback_loop n w k = Ret (r, w') /\ inv fid (cm w') (disk w') ord /\ blocks_used (cm w') = blocks_used (cm w) /\ forall b, view fid (cm w') (disk w') b = view fid (cm w) (disk w) b.
Proof.
  revert w k. induction n as [| n IH]; intros w k HI; cbn [writeback_loop]; [by exists k, w |]. pose proof HI as [I1 I2 I3 I4 I5 I6 I7 I8 I9 I10 I11 I12 I13].
  destruct (dirty_queue (cm w)) as [| i q] eqn:Eq; [by apply IH |]. apply Forall_cons in I12 as [Hi Hq].
  set (w1 := set_cm (set_queue q (cm w)) w). assert (HI1 : inv fid (cm w1) (disk w1) ord) by (by constructor).
  destruct (lookup_lt_is_Some_2 (blocks (cm w1)) i) as [b Hb]; [cbn; lia |]. rewrite (rd_lookup _ _ _ Hb). autorewrite with nt. unfold is_dirty. case_bool_decide as Hs.
  - destruct (flush_inv None fid w1 ord i b HI1 Hb Hs) as (w2 & -> & HI2 & F2 & _ & _ & _ & Hv). autorewrite with nt. destruct (IH w2 (k + 1) HI2) as (r & w3 & R & HI3 & U3 & V3).
    exists r, w3. split; [done |]. split; [done |]. split; [rewrite U3; apply F2 |]. intros c. by rewrite V3, Hv.
  - destruct (IH w1 k HI1) as (r & w3 & R & HI3 & U3 & V3). exists r, w3. done.
Qed.

Lemma writeback_run fid (w : World D) ord : inv fid (cm w) (disk w) ord ->
  exists r w', writeback_dirty w = Ret (r, w') /\ inv fid (cm w') (disk w') ord /\ blocks_used (cm w') = blocks_used (cm w) /\ forall b, view fid (cm w') (disk w') b = view fid (cm w) (disk w) b.
Proof.
  intros HI. unfold writeback_dirty. destruct (negb _); [by exists 0, w |]. cbn [current_time]. set (w1 := mk_world _ _ _). destruct (_ <? _); [by exists 0, w1 |].
  destruct (writeback_loop_run (flush_target (cm w1)) fid w1 ord 0 HI) as (r & w2 & -> & HI2 & U2 & V2). autorewrite with nt. eexists _, _. split; [done |]. split; [| done].
  by apply (inv_ext None fid (cm w2) _ (disk w2)).
Qed.

(** The block of a key of the map, dropped. *)
Lemma drop_key_run fid (w : World D) ord k i : inv fid (cm w) (disk w) ord -> hash_table (cm w) !! k = Some i ->
  exists w' ord', drop_block w k i = Ret w' /\ inv fid (cm w') (disk w') ord' /\ k.1 = fid /\ hash_table (cm w') = delete k (hash_table (cm w)) /\
    blocks_used (cm w') = blocks_used (cm w) /\ forall bn, view fid (cm w') (disk w') bn = view fid (cm w) (disk w) bn.
Proof.
  intros HI Hk. apply (iv_hash _ _ _ _ _ HI) in Hk as (Hi & b & Hb & <-). destruct (iv_cached _ _ _ _ _ HI i b Hi Hb) as (-> & _ & _).
  apply elem_split in Hi as (l1 & l2 & ->). destruct (drop_run None fid w l1 i l2 b HI Hb) as (w' & -> & HI' & F1 & _ & F3 & _ & _ & Hv); [done |].
  exists w', (l1 ++ l2). done.
Qed.

Lemma flush_queue (w w' : World D) i : flush_block w i = Ret w' -> (length (invalidation_queue (cm w')) <= S (length (invalidation_queue (cm w))))%nat.
Proof.
  unfold flush_block. intros (b & _ & R)%outcome_bind_Ret. destruct (is_dirty b); [| injection R as <-; lia]. apply outcome_bind_Ret in R as (c & Rc & R).
  apply outcome_bind_Ret in R as (d & _ & R). destruct (disk_write _ _ _ _) as [k dk]. apply outcome_bind_Ret in R as (c2 & Rc2 & R).
  unfold upd_block in Rc, Rc2. apply outcome_bind_Ret in Rc as (bs & _ & [= <-]). apply outcome_bind_Ret in Rc2 as (bs2 & _ & [= <-]). injection R as <-.
  case_bool_decide; cbn; rewrite ?length_app; cbn; lia.
Qed.

Lemma drop_queue (w w' : World D) k i : drop_block w k i = Ret w' -> (length (invalidation_queue (cm w')) <= S (length (invalidation_queue (cm w))))%nat.
Proof.
  unfold drop_block. intros (b & _ & R)%outcome_bind_Ret. apply outcome_bind_Ret in R as (w1 & R1 & R). apply outcome_bind_Ret in R as (c & Rc & [= <-]).
  assert (Hq : (length (invalidation_queue (cm w1)) <= S (length (invalidation_queue (cm w))))%nat) by (destruct (is_dirty b); [by eapply flush_queue | injection R1 as <-; lia]).
  unfold remove_from_lru in Rc. apply outcome_bind_Ret in Rc as (b' & _ & Rc). apply outcome_bind_Ret in Rc as (bs1 & _ & Rc). apply outcome_bind_Ret in Rc as (bs2 & _ & Rc).
  apply outcome_bind_Ret in Rc as (bs3 & _ & [= <-]). exact Hq.
Qed.

Lemma invalidation_loop_run fuel fid (w : World D) ord : inv fid (cm w) (disk w) ord ->
  (length (invalidation_queue (cm w)) + size (hash_table (cm w)) <= fuel)%nat ->
  exists w' ord', invalidation_loop fuel w = Ret w' /\ inv fid (cm w') (disk w') ord' /\ forall b, view fid (cm w') (disk w') b = view fid (cm w) (disk w) b.
Proof.
  revert w ord. induction fuel as [| fuel IH]; intros w ord HI Hf; cbn [invalidation_loop]; (destruct (invalidation_queue (cm w)) as [| n q] eqn:Eq; [by exists w, ord |]); cbn [length] in Hf; [lia |].
  set (w1 := set_cm (set_invalidations q (cm w)) w). assert (HI1 : inv fid (cm w1) (disk w1) ord) by (by apply (inv_ext None fid (cm w) _ (disk w))).
  destruct (hash_table (cm w1) !! (n_file_id n, n_block_number n)) as [i |] eqn:E.
  - destruct (drop_key_run fid w1 ord _ i HI1 E) as (w2 & ord2 & R & HI2 & _ & Eh & _ & Hv). rewrite R. autorewrite with nt. apply drop_queue in R. cbn in R.
    destruct (IH w2 ord2 HI2) as (w3 & ord3 & -> & HI3 & V3).
    { rewrite Eh, map_size_delete_Some by (by exists i). assert (0 < size (hash_table (cm w1)))%nat by (assert (Hne : size (hash_table (cm w1)) <> 0%nat) by (eapply map_size_ne_0_lookup_2; by exists i); lia). cbn in *. lia. }
    exists w3, ord3. split; [done |]. split; [done |]. intros c. by rewrite V3, Hv.
  - autorewrite with nt. destruct (IH w1 ord HI1) as (w3 & ord3 & -> & HI3 & V3); [cbn; lia |]. by exists w3, ord3.
Qed.

Lemma blocks_of_elem fid h b i : (b, i) ∈ blocks_of fid h <-> h !! (fid, b) = Some i.
Proof.
  unfold blocks_of. rewrite merge_sort_Permutation, list_elem_of_omap. split.
  - intros ([[f b'] i'] & Hin & E). destruct (Z.eqb_spec f fid) as [-> |]; [| done]. injection E as -> ->. by apply elem_of_map_to_list.
  - intros Hh. exists ((fid, b), i). split; [by apply elem_of_map_to_list |]. by rewrite Z.eqb_refl.
Qed.

Lemma blocks_of_nodup fid h : NoDup (blocks_of fid h).*1.
Proof.
  unfold blocks_of. rewrite merge_sort_Permutation. pose proof (NoDup_fst_map_to_list h) as Hd. induction (map_to_list h) as [| [[f b] i] l IH]; [constructor |].
  cbn in Hd. apply NoDup_cons in Hd as [Hn Hd]. cbn [omap list_omap]. destruct (Z.eqb_spec f fid) as [-> |]; [| by apply IH]. cbn. apply NoDup_cons. split; [| by apply IH].
  intros ([b' i'] & -> & Hin)%list_elem_of_fmap. apply list_elem_of_omap in Hin as ([[f2 b2] i2] & Hin & E). destruct (Z.eqb_spec f2 fid) as [-> |]; [| done]. injection E as -> ->.
  apply Hn. apply list_elem_of_fmap. by exists ((fid, b'), i').
Qed.

Lemma drop_loop_run fid (w : World D) ord l : inv fid (cm w) (disk w) ord -> NoDup l.*1 -> (forall b i, (b, i) ∈ l -> hash_table (cm w) !! (fid, b) = Some i) ->
  exists w' ord', drop_loop w fid l = Ret w' /\ inv fid (cm w') (disk w') ord' /\ blocks_used (cm w') = blocks_used (cm w) /\
    (forall b, hash_table (cm w') !! (fid, b) = if decide (b ∈ l.*1) then None else hash_table (cm w) !! (fid, b)) /\
    forall b, view fid (cm w') (disk w') b = view fid (cm w) (disk w) b.
Proof.
  revert w ord. induction l as [| [b i] l IH]; intros w ord HI Hd Hin; cbn [drop_loop]; [by exists w, ord |]. cbn in Hd. apply NoDup_cons in Hd as [Hb Hd].
  destruct (drop_key_run fid w ord (fid, b) i HI) as (w1 & ord1 & -> & HI1 & _ & Eh & Eu & Hv); [apply Hin; set_solver |]. autorewrite with nt.
  destruct (IH w1 ord1 HI1 Hd) as (w2 & ord2 & -> & HI2 & U2 & H2 & V2).
  { intros b' i' Hbi. rewrite Eh, lookup_delete_ne; [apply Hin; set_solver |]. intros [= <-]. apply Hb. apply list_elem_of_fmap. by exists (b, i'). }
  exists w2, ord2. split; [done |]. split; [done |]. split; [congruence |]. split; [| intros c; by rewrite V2, Hv]. intros c. rewrite H2, Eh. cbn [fmap list_fmap fst].
  destruct (decide (c = b)) as [-> | Hc].
  - rewrite (decide_True _ _ (list_elem_of_here _ _)), lookup_delete_eq. by case_decide.
  - rewrite lookup_delete_ne by congruence. repeat case_decide; set_solver.
Qed.

(** Dropping a file empties the map. *)
Lemma invalidate_file_run fid (w : World D) ord : inv fid (cm w) (disk w) ord ->
  exists w' ord', invalidate_file w fid = Ret w' /\ inv fid (cm w') (disk w') ord' /\ blocks_used (cm w') = blocks_used (cm w) /\ hash_table (cm w') = ∅ /\
    forall b, view fid (cm w') (disk w') b = view fid (cm w) (disk w) b.
Proof.
  intros HI. unfold invalidate_file. destruct (drop_loop_run fid w ord (blocks_of fid (hash_table (cm w))) HI) as (w1 & ord1 & -> & HI1 & U1 & H1 & V1);
    [apply blocks_of_nodup | intros b i; by rewrite blocks_of_elem |]. autorewrite with nt. eexists. exists ord1. split; [done |]. split; [| split; [done |]; split; [| done]].
  - pose proof HI1 as [I1 I2 I3 I4 I5 I6 I7 I8 I9 I10 I11 I12 I13]. constructor; try done. cbn. intros s. by rewrite lookup_delete_eq.
  - apply map_empty. intros [f b]. cbn [cm set_cm set_readahead hash_table]. destruct (hash_table (cm w1) !! (f, b)) as [i |] eqn:E; [| done].
    pose proof E as (Hi & y & Hy & [= Ef En])%(iv_hash _ _ _ _ _ HI1). destruct (iv_cached _ _ _ _ _ HI1 i y Hi Hy) as [Ef' _]. assert (f = fid) as -> by congruence.
    rewrite H1 in E. case_decide as Hn; [done |]. exfalso. apply Hn. apply list_elem_of_fmap. exists (b, i). split; [done |]. by apply blocks_of_elem.
Qed.

(** ** Histories of calls for one file *)

Inductive op :=
| ORead (offset : Z) (n : nat) | OWrite (offset : Z) (buffer : list Z) | OFlushAll | OFlushFile | OWriteback | OInvalidate
| OMode (m : CoherencyMode) | OEnable (e : bool) | OPin (bn : Z) | OUnpin (i : nat).

Inductive response := RRead (r : Z + Z) (bytes : list Z) | RWrite (r : Z + Z) | RDone.

Definition apply_op (s : Statics D) (fid : Z) (o : op) : outcome (response * Statics D) :=
  match o with
  | ORead offset n => '(r, bytes, s) ← cc_read s fid offset n; Ret (RRead r bytes, s)
  | OWrite offset buffer => '(r, s) ← cc_write s fid offset buffer; Ret (RWrite r, s)
  | OFlushAll => s ← cc_flush_all s; Ret (RDone, s)
  | OFlushFile => s ← cc_flush_file s fid; Ret (RDone, s)
  | OWriteback => '(_, s) ← cc_writeback s; Ret (RDone, s)
  | OInvalidate => s ← cc_process_invalidations s; Ret (RDone, s)
  | OMode m => Ret (RDone, cc_set_coherency_mode s m)
  | OEnable e => Ret (RDone, cc_set_writeback_enabled s e)
  | OPin bn => '(_, s) ← cc_pin_block s fid bn; Ret (RDone, s)
  | OUnpin i => '(_, s) ← cc_unpin_block s i; Ret (RDone, s)
  end.

Fixpoint apply_ops (s : Statics D) (fid : Z) (os : list op) : outcome (list response * Statics D) :=
  match os with
  | [] => Ret ([], s)
  | o :: os =>
      '(r, s) ← apply_op s fid o;
      '(rs, s) ← apply_ops s fid os;
      Ret (r :: rs, s)
  end.

(** Offsets below 2^63; a write covers whole blocks or a piece of a cached one; what is pinned is cached. *)
Definition allowed (s : Statics D) (fid : Z) (o : op) : Prop :=
  match o with
  | ORead offset n => 0 <= offset /\ offset + Z.of_nat n <= 2 ^ 63
  | OWrite offset buffer => 0 <= offset /\ offset + Z.of_nat (length buffer) <= 2 ^ 63 /\
      forall c, CACHE_MANAGER s = Some c -> buffer = [] \/ writable c fid offset (length buffer)
  | OPin bn => 0 <= bn < 2 ^ 51 /\ forall c, CACHE_MANAGER s = Some c -> is_Some (hash_table c !! (fid, bn))
  | _ => True
  end.

Fixpoint all_allowed (s : Statics D) (fid : Z) (os : list op) : Prop :=
  match os with
  | [] => True
  | o :: os => allowed s fid o /\ forall r s', apply_op s fid o = Ret (r, s') -> all_allowed s' fid os
  end.

(** The same, to be evaluated. *)
Definition writableb (c : CacheManager) (fid offset : Z) (n : nat) : bool :=
  ((offset mod CACHE_BLOCK_SIZE =? 0) && (Z.of_nat n mod CACHE_BLOCK_SIZE =? 0)) ||
  ((offset mod CACHE_BLOCK_SIZE + Z.of_nat n <=? CACHE_BLOCK_SIZE) && match hash_table c !! (fid, offset / CACHE_BLOCK_SIZE) with Some _ => true | None => false end).

Definition allowedb (s : Statics D) (fid : Z) (o : op) : bool :=
  match o with
  | ORead offset n => (0 <=? offset) && (offset + Z.of_nat n <=? 2 ^ 63)
  | OWrite offset buffer => (0 <=? offset) && (offset + Z.of_nat (length buffer) <=? 2 ^ 63) &&
      match CACHE_MANAGER s with Some c => writableb c fid offset (length buffer) | None => true end
  | OPin bn => (0 <=? bn) && (bn <? 2 ^ 51) &&
      match CACHE_MANAGER s with Some c => match hash_table c !! (fid, bn) with Some _ => true | None => false end | None => true end
  | _ => true
  end.

Fixpoint all_allowedb (s : Statics D) (fid : Z) (os : list op) : bool :=
  match os with
  | [] => true
  | o :: os => allowedb s fid o && match apply_op s fid o with Ret (_, s) => all_allowedb s fid os | _ => true end
  end.

Lemma allowedb_sound s fid o : allowedb s fid o = true -> allowed s fid o.
Proof.
  destruct o as [offset n | offset buffer | | | | | m | e | bn | i]; cbn [allowed allowedb]; try done.
  - intros [Hx Hy]%andb_true_iff. lia.
  - intros [[Hx Hy]%andb_true_iff Hz]%andb_true_iff. split; [lia |]. split; [lia |]. intros c Hc. rewrite Hc in Hz. right. unfold writable, writableb in *.
    apply orb_true_iff in Hz as [Hz | Hz]; [left; lia | right]. apply andb_true_iff in Hz as [Hz1 Hz2]. split; [lia |]. destruct (hash_table c !! _) as [i |]; [by exists i | done].
  - intros [[Hx Hy]%andb_true_iff Hz]%andb_true_iff. split; [lia |]. intros c Hc. rewrite Hc in Hz. destruct (hash_table c !! _) as [i |]; [by exists i | done].
Qed.

Lemma all_allowedb_sound s fid os : all_allowedb s fid os = true -> all_allowed s fid os.
Proof.
  revert s. induction os as [| o os IH]; intros s; cbn [all_allowedb all_allowed]; [done |]. intros [Ho Hos]%andb_true_iff. split; [by apply allowedb_sound |].
  intros r s' E. rewrite E in Hos. by apply IH.
Qed.

(** What a memory answers, and the memory afterwards. An error is answered with the bytes that come
    before it, and a write that fails has written a prefix. *)
Definition answers (m : Z -> Z) (o : op) (r : response) (m' : Z -> Z) : Prop :=
  match o, r with
  | ORead offset n, RRead (inl k) bytes => k = Z.of_nat n /\ bytes = bytes_at m offset n /\ forall a, m' a = m a
  | ORead offset n, RRead (inr e) bytes => (exists k, (k < n)%nat /\ bytes = bytes_at m offset k) /\ forall a, m' a = m a
  | OWrite offset buffer, RWrite (inl k) => k = Z.of_nat (length buffer) /\ forall a, m' a = store_write m offset buffer a
  | OWrite offset buffer, RWrite (inr e) => exists k, (k < length buffer)%nat /\ forall a, m' a = store_write m offset (take k buffer) a
  | ORead _ _, _ | OWrite _ _, _ => False
  | _, _ => r = RDone /\ forall a, m' a = m a
  end.

Fixpoint all_answers (m : Z -> Z) (os : list op) (rs : list response) (m' : Z -> Z) : Prop :=
  match os, rs with
  | [], [] => forall a, m' a = m a
  | o :: os, r :: rs => exists m1, answers m o r m1 /\ all_answers m1 os rs m'
  | _, _ => False
  end.

Lemma with_cache_run (w : World D) f w' : f w = Ret w' -> with_cache (close w) f = Ret (close w').
Proof. intros E. unfold with_cache, close, open. cbn. destruct w. cbn in *. by rewrite E. Qed.

Lemma open_close (w : World D) : open (close w) (cm w) = w.
Proof. by destruct w. Qed.

Lemma unpin_run fid (w : World D) ord i : inv fid (cm w) (disk w) ord ->
  exists r w', cc_unpin_block (close w) i = Ret (r, close w') /\ inv fid (cm w') (disk w') ord /\ blocks_used (cm w') = blocks_used (cm w) /\
    forall b, view fid (cm w') (disk w') b = view fid (cm w) (disk w) b.
Proof.
  intros HI. unfold cc_unpin_block. cbn [CACHE_MANAGER close]. fold (close w). destruct (Nat.ltb_spec i (length (blocks (cm w)))) as [Hi |]; [| by exists (inl ()), w].
  destruct (lookup_lt_is_Some_2 _ _ Hi) as [b Hb]. rewrite (rd_lookup _ _ _ Hb). autorewrite with nt. destruct (0 <? ref_count b); [| by exists (inl ()), w].
  destruct (upd_inv None fid (cm w) (disk w) ord i b (set_ref_count (ref_count b - 1)) HI Hb eq_refl eq_refl eq_refl) as [-> HI2]. autorewrite with nt.
  exists (inl ()). eexists (set_cm _ w). split; [done |]. split; [exact HI2 | done].
Qed.

Lemma op_run fid (w : World D) ord o : inv fid (cm w) (disk w) ord -> allowed (close w) fid o ->
  exists r w' ord', apply_op (close w) fid o = Ret (r, close w') /\ inv fid (cm w') (disk w') ord' /\ answers (memory fid w) o r (memory fid w').
Proof.
  intros HI Hal. assert (Hsame : forall w' : World D, (forall b, view fid (cm w') (disk w') b = view fid (cm w) (disk w) b) -> RDone = RDone /\ forall a, memory fid w' a = memory fid w a).
  { intros w' Hv. split; [done |]. by apply memory_ext. }
  destruct o as [offset n | offset buffer | | | | | m | e | bn | i]; cbn [apply_op].
  - destruct Hal as [Ho Hn]. unfold cc_read. cbn [CACHE_MANAGER close]. fold (close w). rewrite open_close.
    destruct (read_loop_run n fid w ord offset n HI Ho Hn ltac:(lia)) as (r & bytes & w1 & ord1 & -> & HI1 & _ & V1 & _ & Hr). autorewrite with nt. cbv beta iota.
    destruct r as [u | e].
    + destruct (readahead_run fid w1 ord1 HI1) as (w2 & ord2 & -> & HI2 & _ & V2). autorewrite with nt. eexists _, w2, ord2. split; [done |]. split; [done |].
      split; [done |]. split; [done |]. apply memory_ext. intros b. by rewrite V2, V1.
    + autorewrite with nt. eexists _, w1, ord1. split; [done |]. split; [done |]. split; [by destruct Hr | by apply memory_ext].
  - destruct Hal as (Ho & Hn & Hw). unfold cc_write. cbn [CACHE_MANAGER close]. fold (close w). rewrite open_close.
    destruct (write_loop_run (length buffer) fid w ord offset buffer HI Ho Hn ltac:(lia) (Hw _ eq_refl)) as (r & w1 & ord1 & -> & HI1 & Hr). autorewrite with nt. cbv beta iota.
    eexists _, w1, ord1. split; [done |]. split; [done |]. destruct r as [u | e]; [done | by destruct Hr].
  - destruct (flush_all_run fid w ord HI) as (w1 & R & HI1 & V1 & _ & _). unfold cc_flush_all. rewrite (with_cache_run w _ w1 R). autorewrite with nt. eexists _, w1, ord. split; [done |]. split; [done |]. by apply Hsame.
  - destruct (invalidate_file_run fid w ord HI) as (w1 & ord1 & R & HI1 & _ & _ & V1). unfold cc_flush_file. rewrite (with_cache_run w (fun w => invalidate_file w fid) w1 R). autorewrite with nt. eexists _, w1, ord1. split; [done |]. split; [done |]. by apply Hsame.
  - destruct (writeback_run fid w ord HI) as (k & w1 & R & HI1 & _ & V1). unfold cc_writeback. cbn [CACHE_MANAGER close]. fold (close w). rewrite open_close, R. autorewrite with nt. eexists _, w1, ord. split; [done |]. split; [done |]. by apply Hsame.
  - destruct (invalidation_loop_run _ fid w ord HI (Nat.le_refl _)) as (w1 & ord1 & R & HI1 & V1). unfold cc_process_invalidations. rewrite (with_cache_run w process_invalidations w1 R). autorewrite with nt. eexists _, w1, ord1. split; [done |]. split; [done |]. by apply Hsame.
  - eexists _, (set_cm (set_coherency_mode m (cm w)) w), ord. split; [done |]. split; [by apply (inv_ext None fid (cm w) _ (disk w)) |]. by apply Hsame.
  - eexists _, (set_cm (set_writeback_enabled e (cm w)) w), ord. split; [done |]. split; [by apply (inv_ext None fid (cm w) _ (disk w)) |]. by apply Hsame.
  - destruct Hal as [Hbn Hc]. destruct (Hc _ eq_refl) as [i Hi]. unfold cc_pin_block. cbn [CACHE_MANAGER close]. fold (close w). rewrite open_close.
    destruct (lookup_run None fid w ord bn HI Hbn) as (w1 & ord1 & -> & HI1 & _ & F1 & F2 & F3 & F4). rewrite Hi. autorewrite with nt. cbv beta iota.
    rewrite <- F1 in Hi. destruct (proj1 (iv_hash _ _ _ _ _ HI1 _ _) Hi) as (_ & b & Hb & _).
    destruct (upd_inv None fid (cm w1) (disk w1) ord1 i b (fun b => set_ref_count (ref_count b +[32] 1) b) HI1 Hb eq_refl eq_refl eq_refl) as [-> HI2]. autorewrite with nt.
    eexists _, (set_cm _ w1), ord1. split; [done |]. split; [exact HI2 |]. apply Hsame. intros c. apply view_ext; [done | done | cbn; by rewrite F4].
  - destruct (unpin_run fid w ord i HI) as (r & w1 & -> & HI1 & _ & V1). autorewrite with nt. eexists _, w1, ord. split; [done |]. split; [done |]. by apply Hsame.
Qed.

Lemma ops_run fid (w : World D) ord os : inv fid (cm w) (disk w) ord -> all_allowed (close w) fid os ->
  exists rs w' ord', apply_ops (close w) fid os = Ret (rs, close w') /\ inv fid (cm w') (disk w') ord' /\ all_answers (memory fid w) os rs (memory fid w').
Proof.
  revert w ord. induction os as [| o os IH]; intros w ord HI; cbn [all_allowed apply_ops]; [intros _; by exists [], w, ord |]. intros [Ho Hos].
  destruct (op_run fid w ord o HI Ho) as (r & w1 & ord1 & R & HI1 & Ha). rewrite R. autorewrite with nt. cbv beta iota.
  destruct (IH w1 ord1 HI1 (Hos _ _ R)) as (rs & w2 & ord2 & -> & HI2 & Hall). autorewrite with nt. exists (r :: rs), w2, ord2. split; [done |]. split; [done |]. by exists (memory fid w1).
Qed.

(** A cache in front of a disk. *)
Definition cached_disk (d : D) (time : Z) (mode : CoherencyMode) : Statics D := init_with_policy (mk_statics None time d) LRU mode.

Lemma manager_new_inv fid (d : D) mode : inv fid (manager_new LRU mode) d [].
Proof.
  constructor; cbn [manager_new blocks data hash_table lru_head lru_tail blocks_used readahead_state dirty_queue policy].
  - apply length_replicate.
  - apply length_replicate.
  - intros i y [-> _]%lookup_replicate. apply length_replicate.
  - apply Nat.le_0_l.
  - split; [constructor |]. split; [reflexivity |]. split; [reflexivity | exact I].
  - intros i Hi. by apply not_elem_of_nil in Hi.
  - intros k i. rewrite lookup_empty. split; [discriminate | intros [Hi _]; by apply not_elem_of_nil in Hi].
  - intros i b Hi. by apply not_elem_of_nil in Hi.
  - intros i b Hi. by apply not_elem_of_nil in Hi.
  - intros i b _ [-> _]%lookup_replicate. discriminate.
  - reflexivity.
  - constructor.
  - intros s. rewrite lookup_empty. discriminate.
Qed.


(** ** A cache without slots *)

(** Every slot has been used, and none is in the list. *)
Definition dead (fid : Z) (w : World D) : Prop := inv fid (cm w) (disk w) [] /\ blocks_used (cm w) = slots.

Lemma dead_hash fid (w : World D) : dead fid w -> hash_table (cm w) = ∅.
Proof.
  intros [HI _]. apply map_empty. intros k. destruct (hash_table (cm w) !! k) as [i |] eqn:E; [| done]. apply (iv_hash _ _ _ _ _ HI) in E as [Hi _]. by apply not_elem_of_nil in Hi.
Qed.

Lemma dead_ext fid (w w' : World D) : blocks (cm w') = blocks (cm w) -> same_frame (cm w) (cm w') -> disk w' = disk w -> dead fid w -> dead fid w'.
Proof.
  intros Eb Hf Ed [HI Hu]. split; [apply (inv_ext None fid (cm w) _ (disk w)); [done | done | by rewrite Ed | done] |]. destruct Hf as (_ & _ & _ & _ & -> & _). done.
Qed.

Lemma dead_allocate fid (w : World D) g bn : dead fid w -> allocate w g bn = Ret (None, w).
Proof.
  intros [HI Hu]. destruct (iv_list _ _ _ _ _ HI) as (_ & _ & Ht & _). unfold allocate. rewrite Hu, Nat.ltb_irrefl. unfold evict_block, victim_of, evict_lru.
  rewrite (iv_policy _ _ _ _ _ HI), Ht. by destruct slots.
Qed.

Lemma dead_lookup fid (w : World D) g bn : dead fid w -> exists w', lookup w g bn = Ret (None, w') /\ dead fid w'.
Proof. intros Hd. unfold lookup. rewrite (dead_hash _ _ Hd), lookup_empty. eexists. split; [done |]. by apply (dead_ext fid w). Qed.

Lemma dead_readahead n fid (w : World D) g bn : dead fid w -> exists w', readahead_loop n w g bn = Ret w' /\ dead fid w'.
Proof.
  revert w bn. induction n as [| n IH]; intros w bn Hd; cbn [readahead_loop]; [by exists w |].
  rewrite (dead_hash _ _ Hd), lookup_empty, (dead_allocate fid) by done. autorewrite with nt. cbv beta iota. autorewrite with nt. apply IH. by apply (dead_ext fid w).
Qed.

Lemma dead_invalidations fuel fid (w : World D) : dead fid w -> (length (invalidation_queue (cm w)) <= fuel)%nat -> exists w', invalidation_loop fuel w = Ret w' /\ dead fid w'.
Proof.
  revert w. induction fuel as [| fuel IH]; intros w Hd Hf; cbn [invalidation_loop]; (destruct (invalidation_queue (cm w)) as [| n q]; [by exists w |]); cbn [length] in Hf; [lia |].
  cbn [set_cm cm set_invalidations hash_table]. rewrite (dead_hash _ _ Hd), lookup_empty. autorewrite with nt. apply IH; [by apply (dead_ext fid w) | cbn; lia].
Qed.

(** A transfer of at least one byte, and an error without any. *)
Definition transfer (o : op) : bool := match o with ORead _ n => (0 <? n)%nat | OWrite _ b => (0 <? length b)%nat | _ => false end.
Definition refused (r : response) : bool := match r with RRead (inr _) [] | RWrite (inr _) => true | _ => false end.

Lemma dead_op fid (w : World D) g o : dead fid w ->
  exists r w', apply_op (close w) g o = Ret (r, close w') /\ dead fid w' /\ (transfer o = true -> refused r = true).
Proof.
  intros Hd. pose proof Hd as [HI Hu]. destruct o as [offset [| n] | offset [| x buffer] | | | | | m | e | bn | i]; cbn [apply_op].
  - unfold cc_read. cbn [CACHE_MANAGER close]. fold (close w). rewrite open_close. cbn [read_loop]. autorewrite with nt. cbv beta iota. unfold readahead.
    destruct (readahead_state (cm w) !! g) as [s |]; [| autorewrite with nt; by eexists _, w]. destruct (get_readahead_range s) as [[start k] |]; [| autorewrite with nt; by eexists _, w].
    destruct (dead_readahead (Z.to_nat k) fid w g start Hd) as (w1 & -> & Hd1). autorewrite with nt. by eexists _, w1.
  - unfold cc_read. cbn [CACHE_MANAGER close]. fold (close w). rewrite open_close. cbn [read_loop].
    destruct (dead_lookup fid w g (offset / CACHE_BLOCK_SIZE) Hd) as (w1 & -> & Hd1). autorewrite with nt. cbv beta iota. rewrite (dead_allocate fid w1) by done. autorewrite with nt. cbv beta iota.
    autorewrite with nt. cbv beta iota. autorewrite with nt. by eexists _, w1.
  - unfold cc_write. cbn [CACHE_MANAGER close]. fold (close w). rewrite open_close. cbn [write_loop length]. autorewrite with nt. by eexists _, w.
  - unfold cc_write. cbn [CACHE_MANAGER close]. fold (close w). rewrite open_close. cbn [write_loop length].
    destruct (dead_lookup fid w g (offset / CACHE_BLOCK_SIZE) Hd) as (w1 & -> & Hd1). autorewrite with nt. cbv beta iota. rewrite (dead_allocate fid w1) by done. autorewrite with nt. cbv beta iota.
    autorewrite with nt. by eexists _, w1.
  - destruct (flush_all_run fid w [] HI) as (w1 & R & HI1 & _ & U1 & _). unfold cc_flush_all. rewrite (with_cache_run w _ w1 R). autorewrite with nt. eexists _, w1.
    split; [done |]. split; [split; [done | congruence] | done].
  - unfold cc_flush_file, with_cache, invalidate_file. cbn [CACHE_MANAGER close]. fold (close w). rewrite open_close, (dead_hash _ _ Hd). change (blocks_of g ∅) with (@nil (Z * nat)).
    cbn [drop_loop]. autorewrite with nt. eexists _, (set_cm _ w). split; [done |]. split; [| done]. split; [| done].
    pose proof HI as [I1 I2 I3 I4 I5 I6 I7 I8 I9 I10 I11 I12 I13]. constructor; try done. cbn. intros s [_ Hs]%lookup_delete_Some. by apply I13.
  - destruct (writeback_run fid w [] HI) as (k & w1 & R & HI1 & U1 & _). unfold cc_writeback. cbn [CACHE_MANAGER close]. fold (close w). rewrite open_close, R. autorewrite with nt.
    eexists _, w1. split; [done |]. split; [split; [done | congruence] | done].
  - destruct (dead_invalidations (length (invalidation_queue (cm w)) + size (hash_table (cm w))) fid w Hd ltac:(lia)) as (w1 & R & Hd1).
    unfold cc_process_invalidations. rewrite (with_cache_run w process_invalidations w1 R). autorewrite with nt. by eexists _, w1.
  - eexists _, (set_cm (set_coherency_mode m (cm w)) w). split; [done |]. split; [by apply (dead_ext fid w) | done].
  - eexists _, (set_cm (set_writeback_enabled e (cm w)) w). split; [done |]. split; [by apply (dead_ext fid w) | done].
  - unfold cc_pin_block. cbn [CACHE_MANAGER close]. fold (close w). rewrite open_close. destruct (dead_lookup fid w g bn Hd) as (w1 & -> & Hd1). autorewrite with nt. cbv beta iota.
    rewrite (dead_allocate fid w1) by done. autorewrite with nt. cbv beta iota. autorewrite with nt. by eexists _, w1.
  - destruct (unpin_run fid w [] i HI) as (r & w1 & -> & HI1 & U1 & _). autorewrite with nt. eexists _, w1. split; [done |]. split; [split; [done | congruence] | done].
Qed.

(** Calls for several files. *)
Fixpoint apply_files (s : Statics D) (l : list (Z * op)) : outcome (list response * Statics D) :=
  match l with
  | [] => Ret ([], s)
  | (g, o) :: l => '(r, s) ← apply_op s g o; '(rs, s) ← apply_files s l; Ret (r :: rs, s)
  end.

Lemma dead_calls fid (w : World D) l : dead fid w ->
  exists rs s, apply_files (close w) l = Ret (rs, s) /\ Forall2 (fun x r => transfer x.2 = true -> refused r = true) l rs.
Proof.
  revert w. induction l as [| [g o] l IH]; intros w Hd; cbn [apply_files]; [by exists [], (close w) |].
  destruct (dead_op fid w g o Hd) as (r & w1 & -> & Hd1 & Hr). autorewrite with nt. cbv beta iota. destruct (IH w1 Hd1) as (rs & s & -> & Hf). autorewrite with nt.
  exists (r :: rs), s. split; [done |]. by constructor.
Qed.

(** Either every slot is used, or the first [k] blocks of the file are cached. *)
Definition filled (fid : Z) (w : World D) (k : Z) : Prop :=
  (blocks_used (cm w) < slots)%nat -> forall b, 0 <= b < k -> is_Some (hash_table (cm w) !! (fid, b)).

Lemma read_one fid (w : World D) ord k : inv fid (cm w) (disk w) ord -> 0 <= k < 2 ^ 50 -> filled fid w k ->
  exists r w' ord', apply_op (close w) fid (ORead (k * CACHE_BLOCK_SIZE) 1) = Ret (r, close w') /\ inv fid (cm w') (disk w') ord' /\ filled fid w' (k + 1).
Proof.
  intros HI Hk Hf. cbn [apply_op]. unfold cc_read. cbn [CACHE_MANAGER close]. fold (close w). rewrite open_close.
  assert (Ho : 0 <= k * CACHE_BLOCK_SIZE /\ k * CACHE_BLOCK_SIZE + Z.of_nat 1 <= 2 ^ 63) by (unfold CACHE_BLOCK_SIZE; lia).
  destruct (read_loop_run 1 fid w ord (k * CACHE_BLOCK_SIZE) 1 HI (proj1 Ho) (proj2 Ho) ltac:(lia)) as (r & bytes & w1 & ord1 & -> & HI1 & G1 & _ & Hh & _).
  rewrite Z.div_mul in Hh by done. autorewrite with nt. cbv beta iota.
  assert (Hgrow : forall w2 : World D, grows (cm w1) (cm w2) -> filled fid w2 (k + 1)).
  { intros w2 [U2 S2] Hu b Hb. specialize (S2 Hu). destruct G1 as [U1 S1]. destruct (decide (b = k)) as [-> | Hbk].
    - destruct (Hh ltac:(lia) ltac:(lia)) as [i Hi]. exists i. by eapply lookup_weaken.
    - destruct (Hf ltac:(lia) b ltac:(lia)) as [i Hi]. exists i. eapply lookup_weaken; [| exact S2]. eapply lookup_weaken; [exact Hi | apply S1; lia]. }
  destruct r as [u | e].
  - destruct (readahead_run fid w1 ord1 HI1) as (w2 & ord2 & -> & HI2 & G2 & _). autorewrite with nt. eexists _, w2, ord2. split; [done |]. split; [done |]. by apply Hgrow.
  - autorewrite with nt. eexists _, w1, ord1. split; [done |]. split; [done |]. apply Hgrow. by apply grows_same.
Qed.

Definition read_blocks (from : Z) (n : nat) : list op := (fun b => ORead (b * CACHE_BLOCK_SIZE) 1) <$> seqZ from (Z.of_nat n).

Lemma ops_app (s : Statics D) fid os os' : apply_ops s fid (os ++ os') = ('(rs, s) ← apply_ops s fid os; '(rs', s) ← apply_ops s fid os'; Ret (rs ++ rs', s)).
Proof.
  revert s. induction os as [| o os IH]; intros s; cbn [app apply_ops].
  - autorewrite with nt. cbv beta iota. by destruct (apply_ops s fid os') as [[rs' s'] | |].
  - destruct (apply_op s fid o) as [[r s1] | |]; [| done..]. autorewrite with nt. cbv beta iota. rewrite IH. destruct (apply_ops s1 fid os) as [[rs s2] | |]; [| done..].
    autorewrite with nt. cbv beta iota. by destruct (apply_ops s2 fid os') as [[rs' s3] | |].
Qed.

Lemma read_all n fid (w : World D) ord k : inv fid (cm w) (disk w) ord -> 0 <= k -> k + Z.of_nat n <= 2 ^ 50 -> filled fid w k ->
  exists rs w' ord', apply_ops (close w) fid (read_blocks k n) = Ret (rs, close w') /\ inv fid (cm w') (disk w') ord' /\ filled fid w' (k + Z.of_nat n).
Proof.
  revert w ord k. induction n as [| n IH]; intros w ord k HI Hk Hn Hf; [exists [], w, ord; rewrite Z.add_0_r; by split |].
  unfold read_blocks. rewrite seqZ_cons by lia. cbn [fmap list_fmap apply_ops]. destruct (read_one fid w ord k HI ltac:(lia) Hf) as (r & w1 & ord1 & -> & HI1 & Hf1).
  autorewrite with nt. cbv beta iota. destruct (IH w1 ord1 (k + 1) HI1 ltac:(lia) ltac:(lia) Hf1) as (rs & w2 & ord2 & R & HI2 & Hf2). unfold read_blocks in R.
  replace (Z.pred (Z.of_nat (S n))) with (Z.of_nat n) by lia. rewrite <- Z.add_1_r, R. autorewrite with nt. exists (r :: rs), w2, ord2. split; [done |]. split; [done |].
  by replace (k + Z.of_nat (S n)) with (k + 1 + Z.of_nat n) by lia.
Qed.

(** As many blocks as there are slots do not fit into fewer. *)
Lemma filled_full fid (w : World D) ord : inv fid (cm w) (disk w) ord -> filled fid w MAX_CACHE_BLOCKS -> blocks_used (cm w) = slots.
Proof.
  intros HI Hf. pose proof (iv_used _ _ _ _ _ HI) as Hu. destruct (decide (blocks_used (cm w) < slots)%nat) as [Hlt |]; [| lia]. exfalso. specialize (Hf Hlt).
  set (g := fun b => default 0%nat (hash_table (cm w) !! (fid, b))).
  assert (Hg : forall b, b ∈ seqZ 0 MAX_CACHE_BLOCKS -> hash_table (cm w) !! (fid, b) = Some (g b)).
  { intros b Hb%elem_of_seqZ. destruct (Hf b ltac:(lia)) as [i Hi]. unfold g. by rewrite Hi. }
  assert (Hn : NoDup (g <$> seqZ 0 MAX_CACHE_BLOCKS)).
  { apply NoDup_fmap_2_strong; [| apply NoDup_seqZ]. intros b b' Hb Hb' E. apply Hg in Hb, Hb'. rewrite E in Hb. apply (iv_hash _ _ _ _ _ HI) in Hb as (_ & y & Hy & Ey).
    apply (iv_hash _ _ _ _ _ HI) in Hb' as (_ & y' & Hy' & Ey'). congruence. }
  assert (Hlen : (length (g <$> seqZ 0 MAX_CACHE_BLOCKS) <= length (seq 0 (blocks_used (cm w))))%nat).
  { apply submseteq_length, NoDup_submseteq; [done |]. intros i (b & -> & Hb)%list_elem_of_fmap. apply Hg, (iv_hash _ _ _ _ _ HI) in Hb as [Hi _].
    apply elem_of_seq. pose proof (iv_ord _ _ _ _ _ HI _ Hi). lia. }
  rewrite length_fmap, length_seqZ, length_seq in Hlen. unfold slots in *. lia.
Qed.

Lemma empty_dead fid (w : World D) ord : inv fid (cm w) (disk w) ord -> hash_table (cm w) = ∅ -> blocks_used (cm w) = slots -> dead fid w.
Proof.
  intros HI Hh Hu. split; [| done]. destruct ord as [| i ord]; [done |]. destruct (iv_list _ _ _ _ _ HI) as (_ & _ & _ & Hs).
  destruct (seg_elem _ _ _ _ i Hs (list_elem_of_here _ _)) as [b Hb].
  assert (Hx : hash_table (cm w) !! (file_id b, block_number b) = Some i) by (apply (iv_hash _ _ _ _ _ HI); split; [apply list_elem_of_here | by exists b]). by rewrite Hh, lookup_empty in Hx.
Qed.

(** C33: Flushing a file destroys the cache. After as many blocks as there are slots have been read once,
    [cc_flush_file] drops them from the map and from the list but does not give their slots back:
    from then on, whatever calls follow for whatever files, none of them panics but every transfer of
    at least one byte is refused. *)
Theorem flushed_cache_refuses (d : D) (time fid : Z) (mode : CoherencyMode) :
  exists rs s, apply_ops (cached_disk d time mode) fid (read_blocks 0 slots ++ [OFlushFile]) = Ret (rs, s) /\
    forall l, exists rs s', apply_files s l = Ret (rs, s') /\ Forall2 (fun x r => transfer x.2 = true -> refused r = true) l rs.
Proof.
  destruct (read_all slots fid (mk_world (manager_new LRU mode) time d) [] 0 (manager_new_inv fid d mode)) as (rs & w & ord & R & HI & Hf);
    [lia | unfold slots, MAX_CACHE_BLOCKS; lia | intros _ b Hb; lia |].
  replace (0 + Z.of_nat slots) with MAX_CACHE_BLOCKS in Hf by (unfold slots, MAX_CACHE_BLOCKS; lia). pose proof (filled_full fid w ord HI Hf) as Hu.
  rewrite ops_app. change (cached_disk d time mode) with (close (mk_world (manager_new LRU mode) time d)). rewrite R. autorewrite with nt. cbv beta iota. cbn [apply_ops apply_op].
  destruct (invalidate_file_run fid w ord HI) as (w1 & ord1 & R1 & HI1 & U1 & Hh1 & _). unfold cc_flush_file. rewrite (with_cache_run w (fun w => invalidate_file w fid) w1 R1).
  autorewrite with nt. cbv beta iota. eexists _, (close w1). split; [done |]. intros l. apply (dead_calls fid). by apply (empty_dead fid w1 ord1 HI1); [| rewrite U1].
Qed.

End Laws.

(** ** A disk in memory *)

Definition zeros : list Z := replicate block_bytes 0.

(** The blocks that have been written; a block of another size reads as zeros. *)
Notation memory_disk := (gmap Z (list Z)).

Definition disk_block (d : memory_disk) (b : Z) : list Z :=
  match d !! b with Some x => if decide (length x = block_bytes) then x else zeros | None => zeros end.

#[export] Instance memory_backend : DiskBackend memory_disk := {
  disk_read d offset n := (take (Z.to_nat n) (disk_block d (offset / CACHE_BLOCK_SIZE)), d);
  disk_write d offset n x := (n, <[offset / CACHE_BLOCK_SIZE := x]> d) }.

Lemma disk_block_length (d : memory_disk) b : length (disk_block d b) = block_bytes.
Proof. unfold disk_block. destruct (d !! b) as [x |]; [case_decide; [done |] |]; apply length_replicate. Qed.

#[export] Instance memory_laws : DiskLaws memory_disk.
Proof.
  refine {| content := disk_block |}.
  - exact disk_block_length.
  - intros d b _. cbn [disk_read memory_backend fst]. rewrite Z.div_mul by done. apply take_ge. rewrite disk_block_length. apply Nat.le_refl.
  - intros d b b'. reflexivity.
  - intros d b x b' _ Hx. cbn [disk_write memory_backend snd]. rewrite Z.div_mul by done. unfold disk_block at 1. destruct (Z.eqb_spec b' b) as [-> | Hne].
    + rewrite lookup_insert_eq. by rewrite decide_True.
    + by rewrite lookup_insert_ne.
Defined.

(** A disk whose first block is all sevens. *)
Definition sevens : memory_disk := {[ 0 := replicate block_bytes 7 ]}.

Definition fresh (mode : CoherencyMode) : Statics memory_disk := cached_disk sevens 0 mode.

(** A read, a write into the block that it cached, the loss of the block, and another read. *)
Definition four_ops : list op := [ORead 10 2; OWrite 11 [1; 2]; OFlushFile; ORead 10 4].

Lemma four_allowed : all_allowed (fresh WriteBackInvalidate) 1 four_ops.
Proof. apply all_allowedb_sound. by vm_compute. Qed.

Definition responses (r : outcome (list response * Statics memory_disk)) : list response := match r with Ret (rs, _) => rs | _ => [] end.


Lemma flushed_cache_refuses_witness :
  exists rs s rs' s', apply_ops (fresh NoCoherency) 1 (read_blocks 0 slots ++ [OFlushFile]) = Ret (rs, s) /\
    apply_files s [(1, ORead 0 1); (2, OWrite 0 [5])] = Ret (rs', s') /\
    Forall2 (fun x r => transfer x.2 = true -> refused r = true) [(1, ORead 0 1); (2, OWrite 0 [5])] rs'.
Proof.
  destruct (flushed_cache_refuses sevens 0 1 NoCoherency) as (rs & s & R & Hall). destruct (Hall [(1, ORead 0 1); (2, OWrite 0 [5])]) as (rs' & s' & R' & Hr).
  exists rs, s, rs', s'. split; [exact R |]. split; [exact R' | exact Hr].
Defined.

(** ** What the contract leaves out *)

Definition run_files (mode : CoherencyMode) (l : list (Z * op)) : outcome (list response * Statics memory_disk) := apply_files (fresh mode) l.
Definition answers_of (r : outcome (list response * Statics memory_disk)) : list response := match r with Ret (rs, _) => rs | _ => [] end.
Definition disk_of (r : outcome (list response * Statics memory_disk)) : list Z := match r with Ret (_, s) => take 3 (disk_block (DISK s) 0) | _ => [] end.

(** A write of one byte to a block that is not cached replaces the whole block on the disk. *)
Example partial_write_clears_block : disk_of (run_files NoCoherency [(1, OWrite 0 [9]); (1, OFlushAll)]) = [9; 0; 0].
Proof. by vm_compute. Qed.

(** A block that is pinned before it is read has never been read. *)
Example pinned_block_not_read : answers_of (run_files NoCoherency [(1, OPin 0); (1, ORead 0 3)]) = [RDone; RRead (inl 3) [0; 0; 0]].
Proof. by vm_compute. Qed.

(** Two files share the blocks of the disk, but not those of the cache. *)
Example files_share_blocks :
  answers_of (run_files NoCoherency [(1, ORead 0 1); (2, ORead 0 1); (1, OWrite 0 [8]); (2, OWrite 1 [9]); (1, OFlushAll); (1, OFlushFile); (1, ORead 0 2)]) =
    [RRead (inl 1) [7]; RRead (inl 1) [7]; RWrite (inl 1); RWrite (inl 1); RDone; RDone; RRead (inl 2) [7; 9]].
Proof. by vm_compute. Qed.

(** A disk that refuses every write. *)
Definition read_only : DiskBackend unit := {| disk_read _ _ n := (replicate (Z.to_nat n) 7, tt); disk_write _ _ _ _ := (0, tt) |}.

(** A block whose write fails counts as clean, and its bytes are lost with it. *)
Example failed_write_is_clean :
  match @apply_files unit read_only (cached_disk tt 0 NoCoherency) [(1, ORead 0 1); (1, OWrite 0 [8]); (1, ORead 0 1); (1, OFlushFile); (1, ORead 0 1)] with
  | Ret (rs, _) => rs = [RRead (inl 1) [7]; RWrite (inl 1); RRead (inl 1) [8]; RDone; RRead (inl 1) [7]]
  | _ => False
  end.
Proof. by vm_compute. Qed.

(** A slot that is not in the list empties the list when it is removed from it. *)
Example remove_unlinked_empties : let c := set_list [set_links None (Some 1%nat) block_new; set_links (Some 0%nat) None block_new; block_new] (Some 0%nat) (Some 1%nat) (manager_new LFU NoCoherency) in
  match remove_from_lru c 2 with Ret c => lru_head c = None /\ lru_tail c = None | _ => False end.
Proof. by vm_compute. Qed.

End Cache.
