(* ===== verification/Text.v ===== *)
(** * Strings of the Rust standard library

    A [String] is the list of its Unicode scalar values. The encodings are the ones the
    sources call: [as_bytes], [encode_utf16], [String::from_utf16] and
    [String::from_utf8_lossy], the last one with a replacement character for each maximal
    ill-formed part, as the standard library documents it. *)

From S2P Require Import Prelude.

Module Text.

Definition scalar_ty (c : Z) : Prop := 0 <= c < 0xD800 \/ 0xE000 <= c < 0x110000.

#[export] Instance scalar_ty_dec c : Decision (scalar_ty c).
Proof. unfold scalar_ty. apply _. Defined.

Definition is_ascii (c : Z) : bool := c <? 0x80.

Definition to_ascii_lowercase (c : Z) : Z := if (65 <=? c) && (c <=? 90) then c + 32 else c.
Definition to_ascii_uppercase (c : Z) : Z := if (97 <=? c) && (c <=? 122) then c - 32 else c.

(** ** UTF-8 *)

Definition utf8_char (c : Z) : list Z :=
  if c <? 0x80 then [c]
  else if c <? 0x800 then [0xC0 + c / 64; 0x80 + c mod 64]
  else if c <? 0x10000 then [0xE0 + c / 4096; 0x80 + c / 64 mod 64; 0x80 + c mod 64]
  else [0xF0 + c / 262144; 0x80 + c / 4096 mod 64; 0x80 + c / 64 mod 64; 0x80 + c mod 64].

Definition as_bytes (s : list Z) : list Z := s ≫= utf8_char.

Definition REPLACEMENT : Z := 0xFFFD.

Definition in_range (lo hi b : Z) : bool := (lo <=? b) && (b <=? hi).
Definition is_cont (b : Z) : bool := in_range 0x80 0xBF b.

(** The second bytes that may follow the lead of a three- or four-byte sequence. *)
Definition second_of_3 (b c : Z) : bool :=
  if b =? 0xE0 then in_range 0xA0 0xBF c
  else if b =? 0xED then in_range 0x80 0x9F c
  else in_range 0x80 0xBF c.
Definition second_of_4 (b c : Z) : bool :=
  if b =? 0xF0 then in_range 0x90 0xBF c
  else if b =? 0xF4 then in_range 0x80 0x8F c
  else in_range 0x80 0xBF c.

Fixpoint from_utf8_lossy (l : list Z) : list Z :=
  match l with
  | [] => []
  | b :: l =>
      if b <? 0x80 then b :: from_utf8_lossy l
      else if in_range 0xC2 0xDF b then
        match l with
        | c :: l2 =>
            if is_cont c then (b - 0xC0) * 64 + (c - 0x80) :: from_utf8_lossy l2
            else REPLACEMENT :: from_utf8_lossy l
        | [] => [REPLACEMENT]
        end
      else if in_range 0xE0 0xEF b then
        match l with
        | c :: l2 =>
            if second_of_3 b c then
              match l2 with
              | d :: l3 =>
                  if is_cont d
                  then (b - 0xE0) * 4096 + (c - 0x80) * 64 + (d - 0x80) :: from_utf8_lossy l3
                  else REPLACEMENT :: from_utf8_lossy l2
              | [] => [REPLACEMENT]
              end
            else REPLACEMENT :: from_utf8_lossy l
        | [] => [REPLACEMENT]
        end
      else if in_range 0xF0 0xF4 b then
        match l with
        | c :: l2 =>
            if second_of_4 b c then
              match l2 with
              | d :: l3 =>
                  if is_cont d then
                    match l3 with
                    | e :: l4 =>
                        if is_cont e
                        then (b - 0xF0) * 262144 + (c - 0x80) * 4096 + (d - 0x80) * 64 + (e - 0x80)
                             :: from_utf8_lossy l4
                        else REPLACEMENT :: from_utf8_lossy l3
                    | [] => [REPLACEMENT]
                    end
                  else REPLACEMENT :: from_utf8_lossy l2
              | [] => [REPLACEMENT]
              end
            else REPLACEMENT :: from_utf8_lossy l
        | [] => [REPLACEMENT]
        end
      else REPLACEMENT :: from_utf8_lossy l
  end.

(** ** UTF-16 *)

Definition utf16_char (c : Z) : list Z :=
  if c <? 0x10000 then [c]
  else [0xD800 + (c - 0x10000) / 1024; 0xDC00 + (c - 0x10000) mod 1024].

Definition encode_utf16 (s : list Z) : list Z := s ≫= utf16_char.

Definition is_high (u : Z) : bool := in_range 0xD800 0xDBFF u.
Definition is_low (u : Z) : bool := in_range 0xDC00 0xDFFF u.

(** [String::from_utf16]: [None] on an unpaired surrogate. *)
Fixpoint from_utf16 (l : list Z) : option (list Z) :=
  match l with
  | [] => Some []
  | u :: l =>
      if is_high u then
        match l with
        | v :: l2 =>
            if is_low v
            then cons (0x10000 + (u - 0xD800) * 1024 + (v - 0xDC00)) <$> from_utf16 l2
            else None
        | [] => None
        end
      else if is_low u then None
      else cons u <$> from_utf16 l
  end.

(** [as_chunks::<2>().0] read as little-endian units; an odd last byte is left out. *)
Fixpoint le_units (l : list Z) : list Z :=
  match l with
  | a :: b :: l => from_le [a; b] :: le_units l
  | _ => []
  end.

Definition units_bytes (us : list Z) : list Z := us ≫= to_le 2.

(** ** Round trips *)

(** The six-bit groups of a scalar. *)
Lemma utf8_groups c :
  exists c3 c2 c1 c0,
    c = c3 * 262144 + c2 * 4096 + c1 * 64 + c0 /\ 0 <= c2 < 64 /\ 0 <= c1 < 64 /\ 0 <= c0 < 64 /\
    c / 64 = c3 * 4096 + c2 * 64 + c1 /\ c / 4096 = c3 * 64 + c2 /\ c / 262144 = c3 /\
    c mod 64 = c0 /\ c / 64 mod 64 = c1 /\ c / 4096 mod 64 = c2.
Proof.
  exists (c / 262144), (c / 4096 mod 64), (c / 64 mod 64), (c mod 64).
  change 262144 with (64 * 64 * 64). change 4096 with (64 * 64).
  rewrite <- !Z.div_div by lia.
  pose proof (Z.mod_pos_bound c 64). pose proof (Z.mod_pos_bound (c / 64) 64).
  pose proof (Z.mod_pos_bound (c / 64 / 64) 64).
  pose proof (Z.div_mod c 64). pose proof (Z.div_mod (c / 64) 64).
  pose proof (Z.div_mod (c / 64 / 64) 64). lia.
Qed.

(** Name the groups and forget the divisions. *)
Ltac utf8_split c :=
  destruct (utf8_groups c) as (c3 & c2 & c1 & c0 & Hc' & H2 & H1 & H0 & E1 & E2 & E3 & E4 & E5 & E6);
  rewrite ?E1, ?E2, ?E3, ?E4, ?E5, ?E6 in *; clear E1 E2 E3 E4 E5 E6.

Lemma utf8_char_bytes c : scalar_ty c -> Forall byte_ty (utf8_char c).
Proof.
  unfold scalar_ty, utf8_char. intros Hc. utf8_split c.
  repeat (case_match; rewrite ?Z.ltb_lt, ?Z.ltb_ge in *); repeat constructor;
    change (2 ^ 8) with 256; lia.
Qed.

Lemma as_bytes_bytes s : Forall scalar_ty s -> Forall byte_ty (as_bytes s).
Proof.
  unfold as_bytes. induction 1 as [| c s Hc Hs IH]; [constructor |].
  rewrite bind_cons. apply Forall_app. split; [by apply utf8_char_bytes | done].
Qed.

Lemma as_bytes_ascii s : forallb is_ascii s = true -> as_bytes s = s.
Proof.
  unfold as_bytes, is_ascii. induction s as [| c s IH]; [done |]. cbn [forallb].
  intros [Hc Hs]%andb_prop. rewrite bind_cons, IH by done. unfold utf8_char. by rewrite Hc.
Qed.

(** Decide the range test at the head of a decoder. *)
Ltac utf_case :=
  match goal with
  | |- (if ?c then _ else _) = _ =>
      let E := fresh "E" in
      destruct c eqn:E; unfold second_of_3, second_of_4, is_high, is_low, is_cont, in_range in E;
      repeat match type of E with context [if ?a =? ?b then _ else _] => destruct (Z.eqb_spec a b) in E end;
      rewrite ?andb_true_iff, ?andb_false_iff, ?Z.leb_le, ?Z.leb_gt, ?Z.ltb_lt, ?Z.ltb_ge in E;
      first [exfalso; lia | clear E]
  end.

(** Decoding inverts encoding, and what follows a character does not matter. *)
Lemma from_utf8_char c l :
  scalar_ty c -> from_utf8_lossy (utf8_char c ++ l) = c :: from_utf8_lossy l.
Proof.
  unfold scalar_ty, utf8_char. intros Hc. utf8_split c.
  destruct (Z.ltb_spec c 0x80); [cbn [app from_utf8_lossy]; by rewrite (proj2 (Z.ltb_lt c 128)) |].
  destruct (Z.ltb_spec c 0x800); [| destruct (Z.ltb_spec c 0x10000)];
    cbn [app from_utf8_lossy]; repeat utf_case; f_equal; lia.
Qed.

Lemma utf8_roundtrip s : Forall scalar_ty s -> from_utf8_lossy (as_bytes s) = s.
Proof.
  unfold as_bytes. induction 1 as [| c s Hc Hs IH]; [done |].
  rewrite bind_cons, from_utf8_char by done. by rewrite IH.
Qed.

Lemma utf16_halves c :
  exists h r, c = h * 1024 + r /\ 0 <= r < 1024 /\ c / 1024 = h /\ c mod 1024 = r.
Proof.
  exists (c / 1024), (c mod 1024). pose proof (Z.mod_pos_bound c 1024).
  pose proof (Z.div_mod c 1024). lia.
Qed.

Ltac utf16_split c :=
  destruct (utf16_halves (c - 0x10000)) as (h & r & Hc' & Hr & E1 & E2);
  rewrite ?E1, ?E2 in *; clear E1 E2.

Lemma utf16_char_units c : scalar_ty c -> Forall (u_ty 16) (utf16_char c).
Proof.
  unfold scalar_ty, utf16_char. intros Hc. utf16_split c. destruct (Z.ltb_spec c 0x10000);
    repeat constructor; change (2 ^ 16) with 65536; lia.
Qed.

Lemma encode_utf16_units s : Forall scalar_ty s -> Forall (u_ty 16) (encode_utf16 s).
Proof.
  unfold encode_utf16. induction 1 as [| c s Hc Hs IH]; [constructor |].
  rewrite bind_cons. apply Forall_app. split; [by apply utf16_char_units | done].
Qed.

Lemma utf16_roundtrip s : Forall scalar_ty s -> from_utf16 (encode_utf16 s) = Some s.
Proof.
  unfold encode_utf16. induction 1 as [| c s Hc Hs IH]; [done |].
  rewrite bind_cons. unfold scalar_ty in Hc. unfold utf16_char at 1. utf16_split c.
  destruct (Z.ltb_spec c 0x10000); cbn [app from_utf16];
    repeat utf_case.
  all: rewrite IH; cbn; do 2 f_equal; lia.
Qed.

Lemma le_units_bytes us : Forall (u_ty 16) us -> le_units (units_bytes us) = us.
Proof.
  unfold units_bytes. induction 1 as [| u us Hu Hs IH]; [done |].
  rewrite bind_cons. change (to_le 2 u) with [u mod 256; u / 256 mod 256].
  cbn [app le_units]. rewrite IH. f_equal. exact (from_to_le 2 u Hu).
Qed.

Lemma length_units_bytes us : length (units_bytes us) = (2 * length us)%nat.
Proof.
  unfold units_bytes. induction us as [| u us IH]; [done |]. rewrite bind_cons, length_app, IH.
  rewrite length_to_le. cbn [length]. lia.
Qed.

Lemma units_bytes_ty us : Forall byte_ty (units_bytes us).
Proof.
  unfold units_bytes. induction us as [| u us IH]; [constructor |]. rewrite bind_cons.
  apply Forall_app. split; [apply to_le_bytes | done].
Qed.

End Text.
