(* ===== verification/Hive.v ===== *)
(** * Registry hive reader

    Models [registry/hive.rs]: the parser of [regf] files. A file is a list of bytes, offsets
    are [Z], and a method of [Hive] takes the record of the parsed file. [res A] is
    [Result<A, HiveError>] of code that may also panic. *)

From S2P Require Import Prelude CellAllocator Text.

Module Hive.

Import CellAllocator(HiveError, TooSmall, BadMagic, UnsupportedVersion, BadChecksum, Truncated,
  BadCellKind, BadUtf16, OutOfBounds, InvalidPointer).

Notation res A := (outcome (A + HiveError)).
Definition ok {A} (a : A) : res A := Ret (inl a).
Definition err {A} (e : HiveError) : res A := Ret (inr e).

(** The [?] operator. *)
Definition try {A B} (m : res A) (k : A -> res B) : res B :=
  r ← m; match r with inl a => k a | inr e => err e end.
Notation "'let?' x ':=' m 'in' k" := (try m (fun x => k))
  (at level 200, x binder, m at level 100, k at level 200, format "'let?'  x  ':='  m  'in' '//' k").

Definition ok_or {A} (o : option A) (e : HiveError) : res A :=
  match o with Some a => ok a | None => err e end.

(** ** Layout *)

Definition REGF_MAGIC : list Z := [114; 101; 103; 102].
Definition HBIN_MAGIC : list Z := [104; 98; 105; 110].
Definition REGF_HEADER_SIZE : Z := 0x1000.
Definition HBIN_BASE : Z := 0x1000.
Definition HBIN_SIZE : Z := 0x1000.
Definition HBIN_HEADER_SIZE : Z := 32.
Definition REGF_MAJOR_VERSION : Z := 1.
Definition MAJOR_VERSION_FIELD : Z := 0x14.
Definition ROOT_OFFSET_FIELD : Z := 0x24.
Definition CHECKSUM_OFFSET : Z := 0x1FC.

Definition ID_NK : list Z := [110; 107].
Definition ID_VK : list Z := [118; 107].
Definition ID_LF : list Z := [108; 102].
Definition ID_LH : list Z := [108; 104].
Definition ID_LI : list Z := [108; 105].
Definition ID_RI : list Z := [114; 105].

Definition NK_FLAGS : Z := 0x06.
Definition NK_NR_SUBKEYS : Z := 0x18.
Definition NK_SUBKEY_LF : Z := 0x20.
Definition NK_NR_VALUES : Z := 0x28.
Definition NK_VALLIST : Z := 0x2C.
Definition NK_NAME_LEN : Z := 0x4C.
Definition NK_NAME : Z := 0x50.
Definition NK_FLAG_ASCII_NAME : Z := 0x0020.

Definition VK_NAME_LEN : Z := 0x06.
Definition VK_DATA_SIZE : Z := 0x08.
Definition VK_DATA_OFFSET : Z := 0x0C.
Definition VK_DATA_TYPE : Z := 0x10.
Definition VK_FLAGS : Z := 0x14.
Definition VK_NAME : Z := 0x18.
Definition VK_FLAG_ASCII_NAME : Z := 0x00000001.
Definition VK_DATA_INLINE_FLAG : Z := 0x80000000.
Definition VK_INLINE_MAX : Z := 4.
Definition NO_OFFSET : Z := 0xFFFFFFFF.

(** ** Data *)

Inductive ValueType : Type :=
| VNone
| VString
| VExpandString
| VBinary
| VDWord
| VDWordBigEndian
| VLink
| VMultiString
| VResourceList
| VFullResourceDescriptor
| VResourceRequirementsList
| VQWord.

Definition from_u32 (v : Z) : ValueType :=
  match v with
  | 0 => VNone
  | 1 => VString
  | 2 => VExpandString
  | 3 => VBinary
  | 4 => VDWord
  | 5 => VDWordBigEndian
  | 6 => VLink
  | 7 => VMultiString
  | 8 => VResourceList
  | 9 => VFullResourceDescriptor
  | 10 => VResourceRequirementsList
  | 11 => VQWord
  | _ => VNone
  end.

Definition to_u32 (t : ValueType) : Z :=
  match t with
  | VNone => 0
  | VString => 1
  | VExpandString => 2
  | VBinary => 3
  | VDWord => 4
  | VDWordBigEndian => 5
  | VLink => 6
  | VMultiString => 7
  | VResourceList => 8
  | VFullResourceDescriptor => 9
  | VResourceRequirementsList => 10
  | VQWord => 11
  end.

Record Value : Type := mk_value { name : list Z; value_type : ValueType; data : list Z }.

Definition as_utf16_string (v : Value) : option (list Z) :=
  let len := Z.of_nat (length (data v)) in
  if (len <? 2) || negb (len mod 2 =? 0) then None
  else Text.from_utf16
         ((fix take_while us := match us with
                                | u :: us => if u =? 0 then [] else u :: take_while us
                                | [] => []
                                end) (Text.le_units (data v))).

Definition as_u32 (v : Value) : option Z :=
  if decide (length (data v) < 4)%nat then None else Some (from_le (take 4 (data v))).

Definition as_u64 (v : Value) : option Z :=
  if decide (length (data v) < 8)%nat then None else Some (from_le (take 8 (data v))).

Record KeyNode : Type := mk_node { node_offset : Z; node_name : list Z; node_flags : Z }.

Record Hive : Type := mk_hive { bytes : list Z; root_offset : Z; cell_count : Z }.

(** ** Field access *)

Definition read_u32 (data : list Z) (off : Z) : option Z :=
  if Z.of_nat (length data) <? off + 4 then None
  else Some (from_le (take 4 (drop (Z.to_nat off) data))).

Definition read_i32 (data : list Z) (off : Z) : option Z :=
  if Z.of_nat (length data) <? off + 4 then None
  else Some (to_signed 32 (from_le (take 4 (drop (Z.to_nat off) data)))).

Definition read_u16 (data : list Z) (off : Z) : option Z :=
  if Z.of_nat (length data) <? off + 2 then None
  else Some (from_le (take 2 (drop (Z.to_nat off) data))).

Definition offset_field (data : list Z) (cell_offset field_offset : Z) : res Z :=
  ok_or (read_u32 data (cell_offset + field_offset)) Truncated.

(** [&data[a..b]] *)
Definition sub_slice (data : list Z) (a b : Z) : outcome (list Z) :=
  slice data (Z.to_nat a) (Z.to_nat b).

(** [while off + 4 <= CHECKSUM_OFFSET]: [n] dwords from [off] on. *)
Fixpoint checksum_loop (n : nat) (data : list Z) (off sum : Z) : Z :=
  match n with
  | O => sum
  | S n =>
      checksum_loop n data (off + 4)
        (match read_u32 data off with Some v => Z.lxor sum v | None => sum end)
  end.

Definition compute_header_checksum (data : list Z) : Z :=
  checksum_loop (Z.to_nat (CHECKSUM_OFFSET / 4)) data 0 0.

Definition decode_hive_name (data : list Z) : list Z :=
  if decide (data = []) then []
  else if negb (Z.of_nat (length data) mod 2 =? 0) then Text.from_utf8_lossy data
  else match Text.from_utf16 (Text.le_units data) with
       | Some s => s
       | None => Text.from_utf8_lossy data
       end.

(** ** Parsing *)

(** The cells of one bin, between [cell_off] and [hbin_end]. *)
Fixpoint cell_loop (fuel : nat) (data : list Z) (hbin_end cell_off count : Z) : res Z :=
  match fuel with
  | O => OutOfFuel
  | S fuel =>
      if (cell_off + 4 <=? hbin_end) && (cell_off + 4 <=? Z.of_nat (length data)) then
        let? seg_len := ok_or (read_i32 data cell_off) Truncated in
        if seg_len =? 0 then ok count
        else
          let abs_len := Z.abs seg_len in
          if abs_len =? 0 then ok count
          else cell_loop fuel data hbin_end (cell_off + abs_len)
                 (if seg_len <? 0 then count +[32] 1 else count)
      else ok count
  end.

Fixpoint hbin_loop (fuel : nat) (data : list Z) (hbin_off count : Z) : res Z :=
  match fuel with
  | O => OutOfFuel
  | S fuel =>
      if hbin_off + HBIN_HEADER_SIZE <=? Z.of_nat (length data) then
        magic ← sub_slice data hbin_off (hbin_off + 4);
        if bool_decide (magic <> HBIN_MAGIC) then ok count
        else
          let? hbin_size := ok_or (read_u32 data (hbin_off + 8)) Truncated in
          if (hbin_size =? 0) || (hbin_size <? HBIN_HEADER_SIZE) then ok count
          else
            let? count := cell_loop (S (length data)) data (hbin_off + hbin_size)
                            (hbin_off + HBIN_HEADER_SIZE) count in
            hbin_loop fuel data (hbin_off + hbin_size) count
      else ok count
  end.

Definition count_cells (data : list Z) : res Z :=
  if Z.of_nat (length data) <? HBIN_BASE + HBIN_HEADER_SIZE then err TooSmall
  else
    magic ← sub_slice data HBIN_BASE (HBIN_BASE + 4);
    if bool_decide (magic <> HBIN_MAGIC) then err BadMagic
    else hbin_loop (S (length data)) data HBIN_BASE 0.

Definition parse (bytes : list Z) : res Hive :=
  if Z.of_nat (length bytes) <? REGF_HEADER_SIZE then err TooSmall
  else
    magic ← sub_slice bytes 0 4;
    if bool_decide (magic <> REGF_MAGIC) then err BadMagic
    else
      let? major := ok_or (read_u32 bytes MAJOR_VERSION_FIELD) TooSmall in
      if negb (major =? REGF_MAJOR_VERSION) then err (UnsupportedVersion major)
      else
        let? stored := ok_or (read_u32 bytes CHECKSUM_OFFSET) TooSmall in
        if negb (stored =? compute_header_checksum bytes) then err BadChecksum
        else
          let? root_rel := ok_or (read_u32 bytes ROOT_OFFSET_FIELD) TooSmall in
          let root_abs := HBIN_BASE + root_rel in
          if Z.of_nat (length bytes) <=? root_abs then err OutOfBounds
          else
            let? cell_count := count_cells bytes in
            ok (mk_hive bytes root_abs cell_count).

(** ** Keys *)

(** The name of a key or value, at [start] in the file. *)
Definition read_name (data : list Z) (ascii : bool) (start len : Z) : outcome (list Z) :=
  s ← sub_slice data start (start + len);
  Ret (if ascii then Text.from_utf8_lossy s else decode_hive_name s).

Definition read_nk (h : Hive) (offset : Z) : res KeyNode :=
  let data := bytes h in
  if Z.of_nat (length data) <? offset + NK_NAME then err Truncated
  else
    let? seg_len := ok_or (read_i32 data offset) Truncated in
    if 0 <=? seg_len then err Truncated
    else
      id ← sub_slice data (offset + 4) (offset + 6);
      if bool_decide (id <> ID_NK) then err (BadCellKind 107)
      else
        let? flags := ok_or (read_u16 data (offset + NK_FLAGS)) Truncated in
        let? name_len := ok_or (read_u16 data (offset + NK_NAME_LEN)) Truncated in
        let name_start := offset + NK_NAME in
        if Z.of_nat (length data) <? name_start + name_len then err Truncated
        else
          name ← read_name data (has_bits flags NK_FLAG_ASCII_NAME) name_start name_len;
          ok (mk_node (wrap 32 offset) name flags).

Definition root (h : Hive) : res KeyNode := read_nk h (root_offset h).

(** [for i in 0..nr]: the entries of an index, [step] bytes apart; [n] are left. *)
Fixpoint entry_loop (n : nat) (data : list Z) (entry step : Z) (offsets : list Z) : res (list Z) :=
  match n with
  | O => ok offsets
  | S n =>
      if Z.of_nat (length data) <? entry + 4 then ok offsets
      else
        let? rel := ok_or (read_u32 data entry) Truncated in
        entry_loop n data (entry + step) step (offsets ++ [HBIN_BASE + rel])
  end.

Definition read_lf_lh (h : Hive) (offset : Z) : res (list Z) :=
  let? nr := ok_or (read_u16 (bytes h) (offset + 6)) Truncated in
  entry_loop (Z.to_nat nr) (bytes h) (offset + 8) 8 [].

Definition read_li (h : Hive) (offset : Z) : res (list Z) :=
  let? nr := ok_or (read_u16 (bytes h) (offset + 6)) Truncated in
  entry_loop (Z.to_nat nr) (bytes h) (offset + 8) 4 [].

(** The loop of [read_ri]; [rec] is the recursive call. *)
Fixpoint ri_loop (rec : Z -> res (list Z)) (n : nat) (h : Hive) (entry : Z) (offsets : list Z)
    : res (list Z) :=
  match n with
  | O => ok offsets
  | S n =>
      let data := bytes h in
      if Z.of_nat (length data) <? entry + 4 then ok offsets
      else
        let? rel := ok_or (read_u32 data entry) Truncated in
        let sub_abs := HBIN_BASE + rel in
        if Z.of_nat (length data) <? sub_abs + 6 then ri_loop rec n h (entry + 4) offsets
        else
          sub_id ← sub_slice data (sub_abs + 4) (sub_abs + 6);
          if bool_decide (sub_id = ID_LF) || bool_decide (sub_id = ID_LH) then
            let? sub := read_lf_lh h sub_abs in ri_loop rec n h (entry + 4) (offsets ++ sub)
          else if bool_decide (sub_id = ID_LI) then
            let? sub := read_li h sub_abs in ri_loop rec n h (entry + 4) (offsets ++ sub)
          else if bool_decide (sub_id = ID_RI) then
            let? sub := rec sub_abs in ri_loop rec n h (entry + 4) (offsets ++ sub)
          else ri_loop rec n h (entry + 4) offsets
  end.

(** [fuel] bounds the depth of the recursion. *)
Fixpoint read_ri (fuel : nat) (h : Hive) (offset : Z) : res (list Z) :=
  match fuel with
  | O => OutOfFuel
  | S fuel =>
      let? nr := ok_or (read_u16 (bytes h) (offset + 6)) Truncated in
      ri_loop (read_ri fuel h) (Z.to_nat nr) h (offset + 8) []
  end.

(** [if let Ok(x) = read(off) { result.push(x) }] over a list of offsets. *)
Fixpoint push_ok {A} (read : Z -> res A) (offs : list Z) (result : list A) : res (list A) :=
  match offs with
  | [] => ok result
  | off :: offs =>
      r ← read off;
      push_ok read offs (match r with inl a => result ++ [a] | inr _ => result end)
  end.

(** The choice of [subkeys] by the kind of the index cell. *)
Definition read_index (fuel : nat) (h : Hive) (id : list Z) (subkey_abs : Z) : res (list Z) :=
  if bool_decide (id = ID_LF) || bool_decide (id = ID_LH) then read_lf_lh h subkey_abs
  else if bool_decide (id = ID_LI) then read_li h subkey_abs
  else if bool_decide (id = ID_RI) then read_ri fuel h subkey_abs
  else b ← rd (bytes h) (Z.to_nat (subkey_abs + 4)); err (BadCellKind b).

Definition subkeys (fuel : nat) (h : Hive) (node : KeyNode) : res (list KeyNode) :=
  let data := bytes h in
  let? nr := offset_field data (node_offset node) NK_NR_SUBKEYS in
  if nr =? 0 then ok []
  else
    let? subkey_rel := ok_or (read_u32 data (node_offset node + NK_SUBKEY_LF)) Truncated in
    if (subkey_rel =? NO_OFFSET) || (subkey_rel =? 0) then ok []
    else
      let subkey_abs := HBIN_BASE + subkey_rel in
      if Z.of_nat (length data) <? subkey_abs + 6 then err OutOfBounds
      else
        id ← sub_slice data (subkey_abs + 4) (subkey_abs + 6);
        let? nk_offsets := read_index fuel h id subkey_abs in
        push_ok (read_nk h) nk_offsets [].

(** ** Values *)

(** The data of a value: inside the offset field, or at the offset. *)
Definition read_data (data : list Z) (data_size_raw data_offset_raw : Z) : res (list Z) :=
  let inline := has_bits data_size_raw VK_DATA_INLINE_FLAG in
  let data_len := Z.land data_size_raw (wnot 32 VK_DATA_INLINE_FLAG) in
  if inline then
    v ← slice (to_le 4 data_offset_raw) 0 (Z.to_nat (Z.min data_len VK_INLINE_MAX)); ok v
  else
    let data_abs := HBIN_BASE + data_offset_raw in
    if Z.of_nat (length data) <? data_abs + data_len then err Truncated
    else v ← sub_slice data data_abs (data_abs + data_len); ok v.

Definition read_vk (h : Hive) (offset : Z) : res Value :=
  let data := bytes h in
  if Z.of_nat (length data) <? offset + VK_NAME then err Truncated
  else
    let? seg_len := ok_or (read_i32 data offset) Truncated in
    if 0 <=? seg_len then err Truncated
    else
      id ← sub_slice data (offset + 4) (offset + 6);
      if bool_decide (id <> ID_VK) then err (BadCellKind 118)
      else
        let? name_len := ok_or (read_u16 data (offset + VK_NAME_LEN)) Truncated in
        let? data_size_raw := ok_or (read_u32 data (offset + VK_DATA_SIZE)) Truncated in
        let? data_offset_raw := ok_or (read_u32 data (offset + VK_DATA_OFFSET)) Truncated in
        let? data_type_raw := ok_or (read_u32 data (offset + VK_DATA_TYPE)) Truncated in
        let? flags := ok_or (read_u32 data (offset + VK_FLAGS)) Truncated in
        let name_start := offset + VK_NAME in
        if Z.of_nat (length data) <? name_start + name_len then err Truncated
        else
          name ← read_name data (has_bits flags VK_FLAG_ASCII_NAME) name_start name_len;
          let? value := read_data data data_size_raw data_offset_raw in
          ok (mk_value name (from_u32 data_type_raw) value).

(** The offsets of a value list: [n] entries from [entry] on, then [read_vk] for each. *)
Fixpoint value_loop (n : nat) (h : Hive) (entry : Z) (result : list Value) : res (list Value) :=
  match n with
  | O => ok result
  | S n =>
      let? vk_rel := ok_or (read_u32 (bytes h) entry) Truncated in
      r ← read_vk h (HBIN_BASE + vk_rel);
      value_loop n h (entry + 4) (match r with inl v => result ++ [v] | inr _ => result end)
  end.

Definition values (h : Hive) (node : KeyNode) : res (list Value) :=
  let data := bytes h in
  let? nr_values := ok_or (read_u32 data (node_offset node + NK_NR_VALUES)) Truncated in
  let? vallist_rel := ok_or (read_u32 data (node_offset node + NK_VALLIST)) Truncated in
  if (nr_values =? 0) || (vallist_rel =? NO_OFFSET) || (vallist_rel =? 0) then ok []
  else
    let list_start := HBIN_BASE + vallist_rel + 4 in
    if Z.of_nat (length data) <? list_start + nr_values * 4 then err Truncated
    else value_loop (Z.to_nat nr_values) h list_start [].

(** ** Lookups *)

Definition find_subkey (fuel : nat) (h : Hive) (node : KeyNode) (nm : list Z) : res (option KeyNode) :=
  let? ks := subkeys fuel h node in
  ok (List.find (fun k => bool_decide (node_name k = nm)) ks).

Definition find_value (h : Hive) (node : KeyNode) (nm : list Z) : res (option Value) :=
  let? vs := values h node in
  ok (List.find (fun v => bool_decide (name v = nm)) vs).

Fixpoint path_loop (fuel : nat) (h : Hive) (current : KeyNode) (path : list (list Z))
    : res (option KeyNode) :=
  match path with
  | [] => ok (Some current)
  | component :: path =>
      let? next := find_subkey fuel h current component in
      match next with
      | Some next => path_loop fuel h next path
      | None => ok None
      end
  end.

Definition open_path (fuel : nat) (h : Hive) (path : list (list Z)) : res (option KeyNode) :=
  let? current := root h in path_loop fuel h current path.

(** ** Reading never panics *)

(** The code returned, with a result or an error. *)
Definition returns {A} (m : outcome A) : Prop := exists r, m = Ret r.

Lemma returns_ok {A} (a : A) : returns (ok a).
Proof. by eexists. Qed.

Lemma returns_err {A} e : returns (err e : res A).
Proof. by eexists. Qed.

Lemma returns_bind {A B} (m : outcome A) (k : A -> outcome B) :
  returns m -> (forall a, m = Ret a -> returns (k a)) -> returns (m ≫= k).
Proof. intros [a ->] Hk. by apply Hk. Qed.

Lemma returns_try {A B} (m : res A) (k : A -> res B) :
  returns m -> (forall a, m = ok a -> returns (k a)) -> returns (try m k).
Proof. intros [[a | e] ->] Hk; cbn; [by apply Hk | apply returns_err]. Qed.

Lemma returns_ok_or {A} (o : option A) e : returns (ok_or o e).
Proof. destruct o; by eexists. Qed.

Lemma returns_sub_slice data a b :
  0 <= a <= b -> b <= Z.of_nat (length data) -> returns (sub_slice data a b).
Proof. intros. eexists. unfold sub_slice. rewrite slice_in by lia. done. Qed.

Lemma ok_or_Some {A} (o : option A) e a : ok_or o e = ok a -> o = Some a.
Proof. destruct o; cbn; [by intros [= ->] | done]. Qed.

Lemma read_u16_nonneg data off n : Forall byte_ty data -> read_u16 data off = Some n -> 0 <= n < 65536.
Proof.
  unfold read_u16. intros Hd. case_match; [done |]. intros [= <-].
  pose proof (from_le_ty (take 2 (drop (Z.to_nat off) data)) ltac:(by apply Forall_take, Forall_drop)) as Ht.
  unfold u_ty in Ht. rewrite length_take in Ht.
  assert (2 ^ (8 * Z.of_nat (2 `min` length (drop (Z.to_nat off) data))) <= 2 ^ 16)
    by (apply Z.pow_le_mono_r; lia). lia.
Qed.

Lemma read_u32_nonneg data off n : Forall byte_ty data -> read_u32 data off = Some n -> 0 <= n < 2 ^ 32.
Proof.
  unfold read_u32. intros Hd. case_match; [done |]. intros [= <-].
  pose proof (from_le_ty (take 4 (drop (Z.to_nat off) data)) ltac:(by apply Forall_take, Forall_drop)) as Ht.
  unfold u_ty in Ht. rewrite length_take in Ht.
  assert (2 ^ (8 * Z.of_nat (4 `min` length (drop (Z.to_nat off) data))) <= 2 ^ 32)
    by (apply Z.pow_le_mono_r; lia). lia.
Qed.

#[local] Hint Resolve returns_ok returns_err returns_ok_or : hive.

(** Step through a reader: one bind, one [?] or one branch at a time. *)
Ltac returns_step :=
  match goal with
  | |- returns (ok _) => apply returns_ok
  | |- returns (err _) => apply returns_err
  | |- returns (ok_or _ _) => apply returns_ok_or
  | |- returns (try (ok_or _ _) _) =>
      apply returns_try; [apply returns_ok_or | intros ? ?%ok_or_Some]
  | |- returns (if ?c then _ else _) => destruct c eqn:?
  | |- returns (let _ := _ in _) => intros ?
  end.

Lemma read_i32_in data off : off + 4 <= Z.of_nat (length data) -> exists x, read_i32 data off = Some x.
Proof. intros. unfold read_i32. rewrite (proj2 (Z.ltb_ge _ _)) by lia. by eexists. Qed.

Lemma read_u32_in data off : off + 4 <= Z.of_nat (length data) -> exists x, read_u32 data off = Some x.
Proof. intros. unfold read_u32. rewrite (proj2 (Z.ltb_ge _ _)) by lia. by eexists. Qed.

Lemma cell_loop_ok fuel data hbin_end cell_off count :
  (0 < fuel)%nat -> Z.of_nat (length data) < cell_off + Z.of_nat fuel ->
  exists n, cell_loop fuel data hbin_end cell_off count = ok n.
Proof.
  revert cell_off count. induction fuel as [| fuel IH]; intros cell_off count Hf Hlen; [lia |].
  cbn [cell_loop]. destruct (_ && _) eqn:E; [| by eexists].
  rewrite andb_true_iff, !Z.leb_le in E. destruct (read_i32_in data cell_off) as [seg Hseg]; [lia |].
  rewrite Hseg. cbn [ok_or try ok mbind outcome_bind]. destruct (seg =? 0); [by eexists |].
  destruct (Z.eqb_spec (Z.abs seg) 0); [by eexists |]. apply IH; lia.
Qed.

Lemma hbin_loop_ok fuel data hbin_off count :
  0 <= hbin_off -> (0 < fuel)%nat -> Z.of_nat (length data) < hbin_off + Z.of_nat fuel ->
  exists n, hbin_loop fuel data hbin_off count = ok n.
Proof.
  revert hbin_off count. induction fuel as [| fuel IH]; intros hbin_off count H0 Hf Hlen; [lia |].
  cbn [hbin_loop]. unfold HBIN_HEADER_SIZE. destruct (Z.leb_spec (hbin_off + 32) (Z.of_nat (length data)));
    [| by eexists].
  destruct (returns_sub_slice data hbin_off (hbin_off + 4)) as [magic ->]; [lia .. |].
  cbn [mbind outcome_bind]. case_bool_decide; [by eexists |].
  destruct (read_u32_in data (hbin_off + 8)) as [sz ->]; [lia |]. cbn [ok_or try ok mbind outcome_bind].
  destruct (_ || _) eqn:E; [by eexists |]. rewrite orb_false_iff, Z.eqb_neq, Z.ltb_ge in E.
  destruct (cell_loop_ok (S (length data)) data (hbin_off + sz) (hbin_off + 32) count) as [n ->]; [lia .. |].
  cbn [ok_or try ok mbind outcome_bind]. apply IH; lia.
Qed.

(** A file with a first bin has a cell count. *)
Lemma count_cells_ok data :
  HBIN_BASE + HBIN_HEADER_SIZE <= Z.of_nat (length data) ->
  sub_slice data HBIN_BASE (HBIN_BASE + 4) = Ret HBIN_MAGIC -> exists n, count_cells data = ok n.
Proof.
  intros Hl Hm. unfold count_cells. rewrite (proj2 (Z.ltb_ge _ _)), Hm by done. cbn [mbind outcome_bind].
  rewrite bool_decide_false by naive_solver. apply hbin_loop_ok; unfold HBIN_BASE in *; lia.
Qed.

Lemma parse_returns bs : Forall byte_ty bs -> returns (parse bs).
Proof.
  intros Hb. unfold parse. returns_step; [apply returns_err |].
  rewrite Z.ltb_ge in *. unfold REGF_HEADER_SIZE in *.
  apply returns_bind; [apply returns_sub_slice; lia | intros magic _]. repeat returns_step.
  apply returns_try; [| auto with hive]. unfold count_cells, HBIN_BASE, HBIN_HEADER_SIZE.
  returns_step; [apply returns_err |]. rewrite Z.ltb_ge in *.
  apply returns_bind; [apply returns_sub_slice; lia | intros magic' _]. returns_step; [apply returns_err |].
  destruct (hbin_loop_ok (S (length bs)) bs 0x1000 0) as [n ->]; [lia .. | apply returns_ok].
Qed.

Lemma read_name_returns data ascii start len :
  0 <= start -> 0 <= len -> start + len <= Z.of_nat (length data) ->
  returns (read_name data ascii start len).
Proof.
  intros. apply returns_bind; [apply returns_sub_slice; lia | intros]. by eexists.
Qed.

Lemma read_nk_returns h offset :
  Forall byte_ty (bytes h) -> 0 <= offset -> returns (read_nk h offset).
Proof.
  intros Hb Ho. unfold read_nk. returns_step; [apply returns_err |]. rewrite Z.ltb_ge in *.
  unfold NK_NAME in *. repeat returns_step.
  apply returns_bind; [apply returns_sub_slice; lia | intros id _]. repeat returns_step.
  apply returns_bind; [| intros; apply returns_ok].
  rewrite Z.ltb_ge in *.
  repeat match goal with H : read_u16 _ _ = Some _ |- _ => apply read_u16_nonneg in H; [| done] end.
  apply read_name_returns; lia.
Qed.

Lemma read_data_returns data size off :
  0 <= size -> 0 <= off -> returns (read_data data size off).
Proof.
  intros. unfold read_data. cbv zeta.
  assert (0 <= Z.land size (wnot 32 VK_DATA_INLINE_FLAG)) by (apply Z.land_nonneg; lia).
  repeat returns_step.
  - apply returns_bind; [| intros; apply returns_ok]. eexists. apply slice_in.
    rewrite length_to_le. unfold VK_INLINE_MAX. lia.
  - rewrite Z.ltb_ge in *. unfold HBIN_BASE in *.
    apply returns_bind; [apply returns_sub_slice; lia | intros; apply returns_ok].
Qed.

Lemma read_vk_returns h offset :
  Forall byte_ty (bytes h) -> 0 <= offset -> returns (read_vk h offset).
Proof.
  intros Hb Ho. unfold read_vk. returns_step; [apply returns_err |]. rewrite Z.ltb_ge in *.
  unfold VK_NAME in *. repeat returns_step.
  apply returns_bind; [apply returns_sub_slice; lia | intros id _]. repeat returns_step.
  rewrite Z.ltb_ge in *.
  repeat match goal with
    | H : read_u16 _ _ = Some _ |- _ => apply read_u16_nonneg in H; [| done]
    | H : read_u32 _ _ = Some _ |- _ => apply read_u32_nonneg in H; [| done]
    end.
  apply returns_bind; [apply read_name_returns; lia | intros nm _].
  apply returns_try; [apply read_data_returns; lia | intros; apply returns_ok].
Qed.

Lemma entry_loop_returns n data entry step offsets :
  returns (entry_loop n data entry step offsets).
Proof.
  revert entry offsets. induction n as [| n IH]; intros; cbn [entry_loop]; [apply returns_ok |].
  repeat returns_step. apply IH.
Qed.

(** Offsets that an index yields are positions behind the header. *)
Lemma entry_loop_offsets n data entry step offsets r :
  Forall byte_ty data -> Forall (Z.le HBIN_BASE) offsets ->
  entry_loop n data entry step offsets = ok r -> Forall (Z.le HBIN_BASE) r.
Proof.
  intros Hd. revert entry offsets. induction n as [| n IH]; intros entry offsets Ho; cbn [entry_loop].
  { by intros [= ->]. }
  case_match; [by intros [= ->] |].
  destruct (read_u32 data entry) as [rel |] eqn:Hrel; cbn; [| done].
  apply IH. apply Forall_app. split; [done |]. apply read_u32_nonneg in Hrel; [| done].
  constructor; [unfold HBIN_BASE; lia | done].
Qed.

Lemma index_offsets h offset step r :
  Forall byte_ty (bytes h) ->
  (let? nr := ok_or (read_u16 (bytes h) (offset + 6)) Truncated in
   entry_loop (Z.to_nat nr) (bytes h) (offset + 8) step []) = ok r -> Forall (Z.le HBIN_BASE) r.
Proof.
  intros Hb. destruct (read_u16 _ _); cbn; [| done]. by apply entry_loop_offsets.
Qed.

Lemma index_returns h offset step :
  returns (let? nr := ok_or (read_u16 (bytes h) (offset + 6)) Truncated in
           entry_loop (Z.to_nat nr) (bytes h) (offset + 8) step []).
Proof. repeat returns_step. apply entry_loop_returns. Qed.

Definition offsets_ok (r : list Z + HiveError) : Prop :=
  match r with inl os => Forall (Z.le HBIN_BASE) os | inr _ => True end.

(** The [ri] cells below [offset] nest less than [d] deep. *)
Fixpoint ri_depth (d : nat) (h : Hive) (offset : Z) : Prop :=
  match d with
  | O => False
  | S d => forall i rel,
      read_u32 (bytes h) (offset + 8 + 4 * i) = Some rel ->
      sub_slice (bytes h) (HBIN_BASE + rel + 4) (HBIN_BASE + rel + 6) = Ret ID_RI ->
      ri_depth d h (HBIN_BASE + rel)
  end.

Lemma ri_loop_returns rec n h entry offsets :
  Forall byte_ty (bytes h) -> Forall (Z.le HBIN_BASE) offsets ->
  (forall i rel, read_u32 (bytes h) (entry + 4 * i) = Some rel ->
    sub_slice (bytes h) (HBIN_BASE + rel + 4) (HBIN_BASE + rel + 6) = Ret ID_RI ->
    exists r, rec (HBIN_BASE + rel) = Ret r /\ offsets_ok r) ->
  exists r, ri_loop rec n h entry offsets = Ret r /\ offsets_ok r.
Proof.
  intros Hb. revert entry offsets. induction n as [| n IH]; intros entry offsets Ho Hrec.
  { cbn. by eexists. }
  assert (forall os, Forall (Z.le HBIN_BASE) os -> exists r,
    ri_loop rec n h (entry + 4) (offsets ++ os) = Ret r /\ offsets_ok r) as IH'.
  { intros os Hos. apply IH; [by apply Forall_app |]. intros i rel Hr. apply (Hrec (i + 1)).
    by replace (entry + 4 * (i + 1)) with (entry + 4 + 4 * i) by lia. }
  cbn [ri_loop]. case_match; [by eexists |].
  destruct (read_u32 (bytes h) entry) as [rel |] eqn:Hrel; cbn [ok_or try err mbind outcome_bind ok];
    [| by eexists].
  pose proof (read_u32_nonneg _ _ _ Hb Hrel). unfold HBIN_BASE in *.
  case_match eqn:Hl; [destruct (IH' [] ltac:(done)) as (r & Hr); rewrite app_nil_r in Hr; by exists r |].
  rewrite Z.ltb_ge in Hl.
  destruct (returns_sub_slice (bytes h) (0x1000 + rel + 4) (0x1000 + rel + 6)) as [id Hid]; [lia .. |].
  rewrite Hid. cbn [mbind outcome_bind].
  assert (forall step, exists r,
    (let? sub := (let? nr := ok_or (read_u16 (bytes h) (0x1000 + rel + 6)) Truncated in
      entry_loop (Z.to_nat nr) (bytes h) (0x1000 + rel + 8) step []) in
     ri_loop rec n h (entry + 4) (offsets ++ sub)) = Ret r /\ offsets_ok r) as Hidx.
  { intros step. destruct (index_returns h (0x1000 + rel) step) as [[os | e] Hos]; rewrite Hos; cbn.
    - apply IH'. by apply (index_offsets h (0x1000 + rel) step).
    - by eexists. }
  repeat case_bool_decide; subst; cbn [orb]; try apply Hidx.
  - destruct (Hrec 0 rel) as ([os | e] & Hr & Hos); [by rewrite Z.add_0_r | done | |];
      rewrite Hr; cbn; [by apply IH' | by eexists].
  - destruct (IH' [] ltac:(done)) as (r & Hr). rewrite app_nil_r in Hr. by exists r.
Qed.

Lemma read_ri_returns d h offset :
  Forall byte_ty (bytes h) -> ri_depth d h offset ->
  exists r, read_ri d h offset = Ret r /\ offsets_ok r.
Proof.
  intros Hb. revert offset. induction d as [| d IH]; intros offset Hd; [done |].
  cbn [read_ri]. destruct (read_u16 _ _); cbn [ok_or try err mbind outcome_bind ok]; [| by eexists].
  apply ri_loop_returns; [done .. |]. intros i rel Hr Hs. apply IH. by apply (Hd i).
Qed.

Lemma push_ok_returns {A} (read : Z -> res A) offs result :
  (forall off, off ∈ offs -> returns (read off)) -> returns (push_ok read offs result).
Proof.
  revert result. induction offs as [| off offs IH]; intros result H; cbn [push_ok]; [apply returns_ok |].
  apply returns_bind; [apply H; by apply elem_of_cons; left |].
  intros. apply IH. intros o Ho. apply H. by apply elem_of_cons; right.
Qed.

Lemma value_loop_returns n h entry result :
  Forall byte_ty (bytes h) -> returns (value_loop n h entry result).
Proof.
  intros Hb. revert entry result. induction n as [| n IH]; intros; cbn [value_loop]; [apply returns_ok |].
  repeat returns_step.
  match goal with H : read_u32 _ _ = Some _ |- _ => apply read_u32_nonneg in H; [| done] end.
  apply returns_bind; [apply read_vk_returns; [done | unfold HBIN_BASE; lia] |]. intros. apply IH.
Qed.

Lemma values_returns h node : Forall byte_ty (bytes h) -> returns (values h node).
Proof. intros. unfold values. repeat returns_step. by apply value_loop_returns. Qed.

Lemma read_index_returns d h id abs :
  Forall byte_ty (bytes h) -> 0 <= abs -> abs + 6 <= Z.of_nat (length (bytes h)) ->
  (id = ID_RI -> ri_depth d h abs) ->
  exists r, read_index d h id abs = Ret r /\ offsets_ok r.
Proof.
  intros Hb H0 Hl Hri. unfold read_index.
  assert (forall step, exists r,
    (let? nr := ok_or (read_u16 (bytes h) (abs + 6)) Truncated in
     entry_loop (Z.to_nat nr) (bytes h) (abs + 8) step []) = Ret r /\ offsets_ok r) as Hidx.
  { intros step. destruct (index_returns h abs step) as [[os | e] Hos];
      eexists; (split; [exact Hos |]); [by apply (index_offsets h abs step) | done]. }
  repeat case_bool_decide; subst; cbn [orb]; try apply Hidx; [by apply read_ri_returns; auto |].
  destruct (rd_total byte_ty (bytes h) (Z.to_nat (abs + 4))) as (b & -> & _); [lia | done | by eexists].
Qed.

(** What [subkeys] needs of a node to return: its [ri] cells, if any, nest. *)
Definition index_depth (d : nat) (h : Hive) (node : KeyNode) : Prop :=
  forall rel, read_u32 (bytes h) (node_offset node + NK_SUBKEY_LF) = Some rel ->
    sub_slice (bytes h) (HBIN_BASE + rel + 4) (HBIN_BASE + rel + 6) = Ret ID_RI ->
    ri_depth d h (HBIN_BASE + rel).

Lemma subkeys_returns d h node :
  Forall byte_ty (bytes h) -> index_depth d h node -> returns (subkeys d h node).
Proof.
  intros Hb Hri. unfold subkeys, offset_field. repeat returns_step.
  match goal with H : read_u32 _ (node_offset node + NK_SUBKEY_LF) = Some ?a |- _ =>
    rename a into rel; rename H into Hrel end.
  specialize (Hri _ Hrel). pose proof (read_u32_nonneg _ _ _ Hb Hrel) as Hnn.
  rewrite Z.ltb_ge in *. unfold HBIN_BASE in *.
  apply returns_bind; [apply returns_sub_slice; lia | intros id Hid].
  destruct (read_index_returns d h id (0x1000 + rel)) as (r & Hr & Hos); [done | lia | lia | |].
  { intros ->. by apply Hri. }
  rewrite Hr. destruct r as [os | e]; cbn; [| by eexists].
  apply push_ok_returns. intros off Hoff. apply read_nk_returns; [done |].
  cbn in Hos. rewrite Forall_forall in Hos. specialize (Hos _ Hoff). unfold HBIN_BASE in Hos. lia.
Qed.

Lemma parse_bytes bs h : Forall byte_ty bs -> parse bs = ok h -> bytes h = bs /\ HBIN_BASE <= root_offset h.
Proof.
  intros Hb. unfold parse. case_match; [done |].
  destruct (sub_slice bs 0 4); cbn; [| done ..]. case_match; [done |].
  destruct (read_u32 bs MAJOR_VERSION_FIELD); cbn; [| done]. case_match; [done |].
  destruct (read_u32 bs CHECKSUM_OFFSET); cbn; [| done]. case_match; [done |].
  destruct (read_u32 bs ROOT_OFFSET_FIELD) as [rel |] eqn:Hr; cbn; [| done]. case_match; [done |].
  destruct (count_cells bs) as [[n | e] | |]; cbn; [| done ..]. intros [= <-].
  apply read_u32_nonneg in Hr; [| done]. cbn. split; [done | lia].
Qed.

(** ** Sample files *)

(** Overwrite bytes of a file. *)
Definition poke (pos : nat) (xs data : list Z) : list Z :=
  take pos data ++ xs ++ drop (pos + length xs) data.

(** One bin: a root key whose index is a cell of kind [id] with itself as its only entry. *)
Definition index_hive (id : list Z) : list Z :=
  let data := replicate (Z.to_nat 8192) 0 in
  let data := poke 0 REGF_MAGIC data in
  let data := poke 0x14 (to_le 4 1) data in
  let data := poke 0x24 (to_le 4 32) data in
  let data := poke 4096 HBIN_MAGIC data in
  let data := poke 4104 (to_le 4 4096) data in
  let data := poke 4128 (to_le 4 (wrap 32 (-80)) ++ ID_NK) data in
  let data := poke (4128 + 0x18) (to_le 4 1) data in
  let data := poke (4128 + 0x20) (to_le 4 112) data in
  let data := poke 4208 (to_le 4 (wrap 32 (-16)) ++ id ++ to_le 2 1 ++ to_le 4 112) data in
  poke 0x1FC (to_le 4 (compute_header_checksum data)) data.

Definition cyclic_hive : list Z := index_hive ID_RI.



(** ** A hostile file *)

Lemma ri_cycle h off rel nr fuel :
  off = HBIN_BASE + rel -> off + 12 <= Z.of_nat (length (bytes h)) ->
  read_u16 (bytes h) (off + 6) = Some nr -> 0 < nr ->
  read_u32 (bytes h) (off + 8) = Some rel ->
  sub_slice (bytes h) (off + 4) (off + 6) = Ret ID_RI ->
  read_ri fuel h off = OutOfFuel.
Proof.
  intros Hoff Hl Hnr Hpos Hrel Hid. induction fuel as [| fuel IH]; [done |].
  cbn [read_ri]. rewrite Hnr. cbn [ok_or try mbind outcome_bind ok].
  destruct (Z.to_nat nr) as [| n] eqn:En; [lia |]. cbn [ri_loop].
  rewrite (proj2 (Z.ltb_ge _ _)) by lia. rewrite Hrel. cbn [ok_or try mbind outcome_bind ok].
  rewrite <- Hoff, (proj2 (Z.ltb_ge _ _)) by lia. rewrite Hid. cbn [mbind outcome_bind].
  rewrite !bool_decide_false by done. cbn [orb]. rewrite bool_decide_true by done.
  by rewrite IH.
Qed.

(** A registry file can send the reader into unbounded recursion. [parse] accepts
    [cyclic_hive] and [root] returns its key, but the key's index is an [ri] cell that lists
    itself, and [subkeys] returns at no depth of recursion. *)
Theorem cyclic_index_never_returns :
  exists h node, parse cyclic_hive = ok h /\ root h = ok node /\
    forall fuel, subkeys fuel h node = OutOfFuel.
Proof.
  exists (mk_hive cyclic_hive 4128 2), (mk_node 4128 [] 0).
  split; [vm_compute; reflexivity |]. split; [vm_compute; reflexivity |]. intros fuel.
  assert (read_ri fuel (mk_hive cyclic_hive 4128 2) (HBIN_BASE + 112) = OutOfFuel) as H.
  { apply (ri_cycle _ _ 112 1); [done | vm_compute; congruence | by vm_compute | lia | by vm_compute ..]. }
  unfold subkeys, offset_field. cbn [bytes node_offset].
  replace (read_u32 cyclic_hive (4128 + NK_NR_SUBKEYS)) with (Some 1) by (by vm_compute).
  replace (read_u32 cyclic_hive (4128 + NK_SUBKEY_LF)) with (Some 112) by (by vm_compute).
  cbn [ok_or try mbind outcome_bind ok]. change (112 =? NO_OFFSET) with false.
  change (1 =? 0) with false. change (112 =? 0) with false. cbn [orb].
  replace (Z.of_nat (length cyclic_hive) <? HBIN_BASE + 112 + 6) with false by (by vm_compute).
  replace (sub_slice cyclic_hive (HBIN_BASE + 112 + 4) (HBIN_BASE + 112 + 6)) with (Ret ID_RI)
    by (by vm_compute).
  cbn [mbind outcome_bind]. unfold read_index. rewrite !bool_decide_false by done. cbn [orb].
  rewrite bool_decide_true by done. by rewrite H.
Qed.

End Hive.
