(* ===== verification/HiveWriter.v ===== *)
(** * Registry hive writer

    Models [registry/hive_writer.rs]: a key tree is laid out in cells inside 4096-byte bins and
    framed as a [regf] file. The writer is the state of a monad [M]; [None] is the only error,
    "cell too large for one HBIN". After an error the writer is not returned, since
    [serialise] clears it before it is used again. *)

From S2P Require Import Prelude Text Hive.

Module HiveWriter.

Import Hive(HBIN_BASE, HBIN_SIZE, HBIN_HEADER_SIZE, HBIN_MAGIC, REGF_MAGIC, REGF_HEADER_SIZE,
  REGF_MAJOR_VERSION, CHECKSUM_OFFSET, ID_NK, ID_VK, ID_LH, NK_FLAGS, NK_NR_SUBKEYS, NK_SUBKEY_LF,
  NK_NR_VALUES, NK_VALLIST, NK_NAME_LEN, NK_NAME, NK_FLAG_ASCII_NAME, VK_NAME_LEN, VK_DATA_SIZE,
  VK_DATA_OFFSET, VK_DATA_TYPE, VK_FLAGS, VK_NAME, VK_FLAG_ASCII_NAME, VK_DATA_INLINE_FLAG,
  VK_INLINE_MAX, ValueType, Hive, KeyNode, bytes, node_offset, node_name, node_flags).

Definition LH_ENTRY_SIZE : Z := 8.
Definition NK_PARENT : Z := 0x14.

Record HiveValue : Type := mk_hive_value { hv_name : list Z; hv_type : ValueType; hv_data : list Z }.

Inductive HiveKey : Type :=
| mk_key (name : list Z) (flags : Z) (subkeys : list HiveKey) (values : list HiveValue).

Definition key_name (k : HiveKey) : list Z := let 'mk_key n _ _ _ := k in n.
Definition key_subkeys (k : HiveKey) : list HiveKey := let 'mk_key _ _ s _ := k in s.
Definition key_values (k : HiveKey) : list HiveValue := let 'mk_key _ _ _ v := k in v.

Definition new_key (name : list Z) : HiveKey := mk_key name 0 [] [].

Record HiveWriter : Type := mk_writer { body : list Z; hbin_headers : list Z }.

Definition new : HiveWriter := mk_writer [] [].

(** ** The writer monad *)

Definition M (A : Type) : Type := HiveWriter -> outcome (option (A * HiveWriter)).
Definition ret {A} (a : A) : M A := fun w => Ret (Some (a, w)).
Definition bind {A B} (m : M A) (k : A -> M B) : M B := fun w =>
  r ← m w; match r with Some (a, w) => k a w | None => Ret None end.
Notation "'let*' x ':=' m 'in' k" := (bind m (fun x => k))
  (at level 200, x binder, m at level 100, k at level 200, format "'let*'  x  ':='  m  'in' '//' k").

Section Traverse.
Context {A B : Type} (f : A -> M B).

(** [for x in xs { results.push(f(x)?) }] *)
Fixpoint traverse (xs : list A) : M (list B) :=
  match xs with
  | [] => ret []
  | x :: xs =>
      let* y := f x in
      let* ys := traverse xs in
      ret (y :: ys)
  end.

End Traverse.

Definition len (w : HiveWriter) : Z := Z.of_nat (length (body w)).
Definition zeros (n : Z) : list Z := replicate (Z.to_nat n) 0.

Definition extend (xs : list Z) : M unit := fun w =>
  Ret (Some (tt, mk_writer (body w ++ xs) (hbin_headers w))).

(** [self.body[pos..pos + bs.len()].copy_from_slice(bs)] *)
Definition patch (pos : Z) (bs : list Z) : M unit := fun w =>
  body ← copy_at (body w) (Z.to_nat pos) bs;
  Ret (Some (tt, mk_writer body (hbin_headers w))).

Fixpoint patch_all (l : list (Z * list Z)) : M unit :=
  match l with
  | [] => ret tt
  | (pos, bs) :: l => let* _ := patch pos bs in patch_all l
  end.

(** ** Cells *)

Definition ensure_room (total_aligned : Z) : M unit := fun w =>
  let hbin_data_cap := HBIN_SIZE - HBIN_HEADER_SIZE in
  if hbin_data_cap <? total_aligned then Ret None
  else
    let '(cur_header, w) :=
      match last (hbin_headers w) with
      | Some pos => (pos, w)
      | None => (0, mk_writer (body w ++ zeros HBIN_HEADER_SIZE) (hbin_headers w ++ [0]))
      end in
    let hbin_end := cur_header + HBIN_SIZE in
    if hbin_end <? len w + total_aligned then
      let body := resize (Z.to_nat hbin_end) 0 (body w) in
      Ret (Some (tt, mk_writer (body ++ zeros HBIN_HEADER_SIZE)
                       (hbin_headers w ++ [Z.of_nat (length body)])))
    else Ret (Some (tt, w)).

Definition align_up (offset alignment : Z) : Z :=
  Z.land (offset + alignment - 1) (wnot 64 (alignment - 1)).

(** Room for a cell, its file offset, its bytes: the common end of the two appends. *)
Definition emit (total : Z) (cell : list Z) : M Z :=
  let* _ := ensure_room total in
  let* file_off := (fun w => ret (wrap 32 (HBIN_BASE + len w)) w) in
  let* _ := extend cell in
  ret file_off.

Definition append_cell (id payload : list Z) : M Z :=
  let total := 8 + Z.of_nat (length payload) in
  let total_aligned := align_up total 8 in
  let pad := total_aligned - total in
  emit total_aligned (to_le 4 (wrap 32 (- total_aligned)) ++ id ++ [0; 0] ++ payload ++ zeros pad).

Definition append_raw_cell (total_size : Z) : M Z :=
  emit total_size (to_le 4 (wrap 32 (- total_size)) ++ zeros (total_size - 4)).

Definition to_hbin_rel (abs : Z) : Z := if abs =? 0 then 0 else abs -[32] HBIN_BASE.

(** ** Names *)

Definition encode_name (s : list Z) : list Z * bool :=
  if forallb (fun c => c <? 0x80) s then (Text.as_bytes s, true)
  else (Text.units_bytes (Text.encode_utf16 s), false).

(** [for (i, c) in name.chars().take(4).enumerate()] *)
Fixpoint hash_loop (i : Z) (cs : list Z) (hash : Z) : Z :=
  match cs with
  | [] => hash
  | c :: cs =>
      hash_loop (i + 1) cs
        (Z.lor hash (wrap 32 (Z.shiftl (Text.to_ascii_lowercase c) (8 * i))))
  end.

Definition entry_hash (name : list Z) : Z := hash_loop 0 (take 4 name) 0.

(** ** Values *)

Fixpoint inline_loop (j : nat) (data le : list Z) : list Z :=
  match data with
  | [] => le
  | b :: data =>
      inline_loop (S j) data (if Z.of_nat j <? VK_INLINE_MAX then <[j := b]> le else le)
  end.

(** [self.body[pos + j] = b], byte after byte. *)
Fixpoint fill_bytes (pos : Z) (data : list Z) : M unit :=
  match data with
  | [] => ret tt
  | b :: data =>
      let* _ := (fun w => body ← wr (body w) (Z.to_nat pos) b;
                          Ret (Some (tt, mk_writer body (hbin_headers w)))) in
      fill_bytes (pos + 1) data
  end.

(** The data block of a value: [(data_size, data_offset)]. *)
Definition write_data (data : list Z) : M (Z * Z) :=
  let n := Z.of_nat (length data) in
  if n <=? VK_INLINE_MAX then
    ret (Z.lor VK_DATA_INLINE_FLAG (wrap 32 n), from_le (inline_loop 0 data [0; 0; 0; 0]))
  else
    let ds_size := align_up (4 + n) 8 in
    let* ds_off := append_raw_cell ds_size in
    let ds_body := ds_off +[32] 4 in
    let* _ := fill_bytes (ds_body -[64] HBIN_BASE) data in
    ret (wrap 32 n, to_hbin_rel (ds_off +[32] 4)).

Definition write_value (v : HiveValue) : M Z :=
  let '(name_bytes, name_is_ascii) := encode_name (hv_name v) in
  let vk_cell_size := align_up (VK_NAME + Z.of_nat (length name_bytes)) 8 in
  let payload_len := vk_cell_size - 8 in
  let* vk_off := append_cell ID_VK (zeros payload_len) in
  let* '(data_size, data_offset) := write_data (hv_data v) in
  let vk_body := vk_off -[32] HBIN_BASE in
  let vk_flags := if name_is_ascii then VK_FLAG_ASCII_NAME else 0 in
  let* _ := patch_all
    [(vk_body + VK_NAME_LEN, to_le 2 (wrap 16 (Z.of_nat (length name_bytes))));
     (vk_body + VK_DATA_SIZE, to_le 4 data_size);
     (vk_body + VK_DATA_OFFSET, to_le 4 data_offset);
     (vk_body + VK_DATA_TYPE, to_le 4 (Hive.to_u32 (hv_type v)));
     (vk_body + VK_FLAGS, to_le 4 vk_flags);
     (vk_body + VK_NAME, name_bytes)] in
  ret vk_off.

(** ** Keys *)

(** The offsets of a value list, entry [i] on. *)
Fixpoint fill_vallist (vl_off i : Z) (vk_offsets : list Z) : M unit :=
  match vk_offsets with
  | [] => ret tt
  | vk_abs :: vk_offsets =>
      let entry := wrap 32 (vl_off + 4 + i * 4) in
      let* _ := patch (entry -[64] HBIN_BASE) (to_le 4 (to_hbin_rel vk_abs)) in
      fill_vallist vl_off (i + 1) vk_offsets
  end.

Definition write_vallist (vk_offsets : list Z) : M Z :=
  if decide (vk_offsets = []) then ret 0
  else
    let vl_size := align_up (4 + Z.of_nat (length vk_offsets) * 4) 8 in
    let* vl_off := append_raw_cell vl_size in
    let* _ := fill_vallist vl_off 0 vk_offsets in
    ret vl_off.

(** The entries of an [lh] index: offset and hash of each child. *)
Fixpoint fill_lh (lh_body_start i : Z) (children : list (Z * list Z)) : M unit :=
  match children with
  | [] => ret tt
  | (child_abs, child_name) :: children =>
      let entry := lh_body_start + i * LH_ENTRY_SIZE in
      let* _ := patch (entry -[64] HBIN_BASE) (to_le 4 (to_hbin_rel child_abs)) in
      let* _ := patch ((entry -[64] HBIN_BASE) + 4) (to_le 4 (entry_hash child_name)) in
      fill_lh lh_body_start (i + 1) children
  end.

Definition write_index (child_offsets : list Z) (child_names : list (list Z)) : M Z :=
  let n := Z.of_nat (length child_offsets) in
  let lh_size := align_up (8 + n * LH_ENTRY_SIZE) 8 in
  let lh_payload_len := lh_size - 8 in
  let* lh_off := append_cell ID_LH (zeros lh_payload_len) in
  let nr_pos := lh_off +[32] 6 in
  let* _ := patch (nr_pos -[64] HBIN_BASE) (to_le 2 (wrap 16 n)) in
  let lh_body_start := lh_off +[32] 8 in
  let* _ := fill_lh lh_body_start 0 (zip child_offsets child_names) in
  ret lh_off.

Definition patch_nk_cell (nk_off : Z) (key : HiveKey) (parent_off subk_off vallist_off : Z)
    (vk_offsets : list Z) (name_is_ascii : bool) : M unit :=
  let nk_body := nk_off -[32] HBIN_BASE in
  let nk_flags := if name_is_ascii then NK_FLAG_ASCII_NAME else 0 in
  let rel off := if off =? 0 then 0xFFFFFFFF else to_hbin_rel off in
  let '(name_bytes, _) := encode_name (key_name key) in
  patch_all
    [(nk_body + NK_FLAGS, to_le 2 nk_flags);
     (nk_body + NK_PARENT, to_le 4 (to_hbin_rel parent_off));
     (nk_body + NK_NR_SUBKEYS, to_le 4 (wrap 32 (Z.of_nat (length (key_subkeys key)))));
     (nk_body + NK_SUBKEY_LF, to_le 4 (rel subk_off));
     (nk_body + NK_NR_VALUES, to_le 4 (wrap 32 (Z.of_nat (length vk_offsets))));
     (nk_body + NK_VALLIST, to_le 4 (rel vallist_off));
     (nk_body + NK_NAME_LEN, to_le 2 (wrap 16 (Z.of_nat (length name_bytes))));
     (nk_body + NK_NAME, name_bytes)].

Fixpoint write_key (key : HiveKey) (parent_off : Z) {struct key} : M Z :=
  let 'mk_key name _ subkeys values := key in
  let '(name_bytes, name_is_ascii) := encode_name name in
  let nk_cell_size := align_up (NK_NAME + Z.of_nat (length name_bytes)) 8 in
  let payload_len := nk_cell_size - 8 in
  let* nk_off := append_cell ID_NK (zeros payload_len) in
  let* vk_offsets := traverse write_value values in
  let* vallist_off := write_vallist vk_offsets in
  let* subk_off :=
    match subkeys with
    | [] => ret 0
    | _ =>
        let* child_offsets := traverse (fun child => write_key child nk_off) subkeys in
        write_index child_offsets (key_name <$> subkeys)
    end in
  let* _ := patch_nk_cell nk_off key parent_off subk_off vallist_off vk_offsets name_is_ascii in
  ret nk_off.

(** ** The file *)

(** [while off + 4 <= CHECKSUM_OFFSET] *)
Fixpoint sum_loop (n : nat) (data : list Z) (off sum : Z) : Z :=
  match n with
  | O => sum
  | S n =>
      sum_loop n data (off + 4)
        (if off + 4 <=? Z.of_nat (length data)
         then Z.lxor sum (from_le (take 4 (drop (Z.to_nat off) data))) else sum)
  end.

Definition compute_checksum (data : list Z) : Z :=
  sum_loop (Z.to_nat (CHECKSUM_OFFSET / 4)) data 0 0.

(** The stamp of one bin header. *)
Definition stamp (pos : Z) : list (Z * list Z) :=
  [(pos, HBIN_MAGIC); (pos + 4, to_le 4 (wrap 32 (HBIN_BASE + pos)));
   (pos + 8, to_le 4 (wrap 32 HBIN_SIZE))].

(** A sequence of [copy_from_slice] into a buffer. *)
Fixpoint copy_all (buf : list Z) (l : list (Z * list Z)) : outcome (list Z) :=
  match l with
  | [] => Ret buf
  | (pos, bs) :: l => buf ← copy_at buf (Z.to_nat pos) bs; copy_all buf l
  end.

(** The REGF header. *)
Definition regf_header (timestamp root_abs data_len : Z) : outcome (list Z) :=
  header ← copy_all (zeros REGF_HEADER_SIZE)
    [(0, REGF_MAGIC);
     (0x04, to_le 4 1);
     (0x08, to_le 4 1);
     (0x0C, to_le 8 timestamp);
     (0x14, to_le 4 REGF_MAJOR_VERSION);
     (0x18, to_le 4 5);
     (0x20, to_le 4 1);
     (0x24, to_le 4 (to_hbin_rel root_abs));
     (0x28, to_le 4 (wrap 32 (REGF_HEADER_SIZE + data_len)));
     (0x2C, to_le 4 1)];
  copy_at header (Z.to_nat CHECKSUM_OFFSET) (to_le 4 (compute_checksum header)).

Definition serialise (root : HiveKey) (timestamp : Z) : outcome (option (list Z)) :=
  let w := mk_writer (zeros HBIN_HEADER_SIZE) [0] in
  r ← write_key root 0 w;
  match r with
  | None => Ret None
  | Some (root_abs, w) =>
      let hbin_count := Z.of_nat (length (hbin_headers w)) in
      let data_len := hbin_count * HBIN_SIZE in
      body ← copy_all (resize (Z.to_nat data_len) 0 (body w)) (hbin_headers w ≫= stamp);
      header ← regf_header timestamp root_abs data_len;
      Ret (Some (header ++ body))
  end.

End HiveWriter.
