(* ===== verification/HiveLayout.v ===== *)
(** * The layout of a written hive

    The writer of [HiveWriter] appends cells and fills them in later. This file describes what
    is in the body in terms of fields: which bytes are where, which cells they belong to, and
    which later steps leave them alone. The results are one lemma per writer operation, up to
    [write_key_ok]: a key tree that fits is written, and one that does not is refused. *)

From S2P Require Import Prelude Text Hive HiveWriter.

Module HiveLayout.

Import HiveWriter.
Import Hive(HBIN_BASE, HBIN_SIZE, HBIN_HEADER_SIZE, ID_NK, ID_VK, ID_LH).

(** ** Fields *)

(** [bs] is in [buf] at [o]. *)
Definition field_at (buf : list Z) (o : Z) (bs : list Z) : Prop :=
  0 <= o /\ forall k x, bs !! k = Some x -> buf !! (Z.to_nat o + k)%nat = Some x.

(** [n] bytes at [o] inside [a .. b) and inside the data part of one bin. *)
Definition slot (a b o n : Z) : Prop :=
  a <= o /\ o + n <= b /\ (0 < n -> 32 <= o mod 4096 /\ o mod 4096 + n <= 4096).

Definition field (a b : Z) (buf : list Z) (o : Z) (bs : list Z) : Prop :=
  slot a b o (Z.of_nat (length bs)) /\ field_at buf o bs.

(** [buf'] keeps the cell bytes of [buf] in [a .. b). *)
Definition agree (a b : Z) (buf buf' : list Z) : Prop :=
  forall i x, a <= Z.of_nat i < b -> 32 <= Z.of_nat i mod 4096 -> buf !! i = Some x -> buf' !! i = Some x.

Lemma slot_sub a b o n d m :
  slot a b o n -> 0 <= d -> 0 <= m -> d + m <= n -> slot a b (o + d) m.
Proof.
  intros (Ha & Hb & Hp) Hd Hm Hn. split_and!; [lia | lia |]. intros Hm'.
  destruct Hp as [Hp Hq]; [lia |]. assert ((o + d) mod 4096 = o mod 4096 + d) as E; [| lia].
  rewrite Z.add_mod by lia. rewrite (Z.mod_small d 4096) by lia. apply Z.mod_small. lia.
Qed.

Lemma slot_widen a b a' b' o n : slot a b o n -> a' <= a -> b <= b' -> slot a' b' o n.
Proof. unfold slot. lia. Qed.

Lemma field_widen a b a' b' buf o bs : field a b buf o bs -> a' <= a -> b <= b' -> field a' b' buf o bs.
Proof. intros [Hs Hf]. split; [by eapply slot_widen | done]. Qed.

Lemma field_at_agree a b buf buf' o bs :
  slot a b o (Z.of_nat (length bs)) -> field_at buf o bs -> agree a b buf buf' -> field_at buf' o bs.
Proof.
  intros (Ha & Hb & Hp) [H0 Hf] Hag. split; [done |]. intros k x Hk.
  pose proof (lookup_lt_Some _ _ _ Hk). destruct Hp as [Hp Hq]; [lia |]. apply Hag; [lia | | by apply Hf].
  rewrite Nat2Z.inj_add, Z2Nat.id, Z.add_mod, (Z.mod_small (Z.of_nat k) 4096) by lia.
  rewrite Z.mod_small; lia.
Qed.

Lemma field_agree a b buf buf' o bs : field a b buf o bs -> agree a b buf buf' -> field a b buf' o bs.
Proof. intros [Hs Hf] Hag. split; [done | by eapply field_at_agree]. Qed.

Lemma field_at_take buf o bs : field_at buf o bs -> take (length bs) (drop (Z.to_nat o) buf) = bs.
Proof.
  intros [_ Hf]. apply list_eq. intros k. destruct (decide (k < length bs)%nat) as [Hk | Hk].
  - rewrite lookup_take_lt, lookup_drop by done. destruct (lookup_lt_is_Some_2 bs k Hk) as [x Hx].
    rewrite Hx. by apply Hf.
  - rewrite lookup_take_ge, lookup_ge_None_2 by lia. done.
Qed.

Lemma field_at_app buf o xs ys :
  field_at buf o (xs ++ ys) -> field_at buf o xs /\ field_at buf (o + Z.of_nat (length xs)) ys.
Proof.
  intros [H0 Hf]. split; (split; [lia |]); intros k x Hk.
  - apply Hf. rewrite lookup_app_l; [done | by eapply lookup_lt_Some].
  - replace (Z.to_nat (o + Z.of_nat (length xs)) + k)%nat with (Z.to_nat o + (length xs + k))%nat by lia.
    apply Hf. by rewrite lookup_app_r, Nat.add_comm, Nat.add_sub by lia.
Qed.

(** ** Running the writer *)

Lemma bind_some {A B} (m : M A) (k : A -> M B) w a w' :
  m w = Ret (Some (a, w')) -> (let* x := m in k x) w = k a w'.
Proof. intros H. unfold bind. by rewrite H. Qed.

Lemma bind_none {A B} (m : M A) (k : A -> M B) w :
  m w = Ret None -> (let* x := m in k x) w = Ret None.
Proof. intros H. unfold bind. by rewrite H. Qed.

(** ** In-place updates *)

Lemma copy_at_lookup {A} (l l' : list A) a xs :
  copy_at l a xs = Ret l' ->
  length l' = length l /\
  (forall i, ~ (a <= i < a + length xs)%nat -> l' !! i = l !! i) /\
  (forall k x, xs !! k = Some x -> l' !! (a + k)%nat = Some x).
Proof.
  unfold copy_at. case_decide as Hl; [| done]. intros [= <-]. split_and!.
  - rewrite !length_app, length_take, length_drop. lia.
  - intros i Hi. destruct (decide (i < a)%nat).
    + by rewrite lookup_app_l, lookup_take_lt by (rewrite ?length_take; lia).
    + rewrite lookup_app_r, length_take by (rewrite length_take; lia).
      rewrite lookup_app_r by lia. rewrite lookup_drop. f_equal. lia.
  - intros k x Hk. pose proof (lookup_lt_Some _ _ _ Hk).
    rewrite lookup_app_r, length_take by (rewrite length_take; lia).
    replace (a + k - a `min` length l)%nat with k by lia. by rewrite lookup_app_l.
Qed.

(** Patches in increasing, disjoint positions of [lo .. hi). *)
Fixpoint in_order (lo hi : Z) (l : list (Z * list Z)) : Prop :=
  match l with
  | [] => lo <= hi
  | (p, bs) :: l => lo <= p /\ in_order (p + Z.of_nat (length bs)) hi l
  end.

Definition outside (i : nat) (p : Z * list Z) : Prop :=
  ~ (p.1 <= Z.of_nat i < p.1 + Z.of_nat (length p.2)).

Lemma in_order_le lo hi l : in_order lo hi l -> lo <= hi.
Proof. revert lo. induction l as [| [p bs] l IH]; intros lo H; cbn in H; [done |]. destruct H as [? H%IH]. lia. Qed.

Lemma in_order_outside lo hi l i :
  in_order lo hi l -> Z.of_nat i < lo \/ hi <= Z.of_nat i -> Forall (outside i) l.
Proof.
  revert lo. induction l as [| [p bs] l IH]; intros lo H Hi; [constructor |]. cbn in H.
  destruct H as [Hp H]. pose proof (in_order_le _ _ _ H). constructor.
  - unfold outside. cbn. lia.
  - apply (IH (p + Z.of_nat (length bs))); [done | lia].
Qed.

Lemma copy_all_ok lo hi l buf :
  in_order lo hi l -> 0 <= lo -> hi <= Z.of_nat (length buf) ->
  exists buf', copy_all buf l = Ret buf' /\ length buf' = length buf /\
    (forall i, Forall (outside i) l -> buf' !! i = buf !! i) /\
    Forall (fun p => field_at buf' p.1 p.2) l.
Proof.
  revert lo buf. induction l as [| [p bs] l IH]; intros lo buf Hio H0 Hhi; cbn [copy_all].
  { exists buf. split_and!; [done .. |]. constructor. }
  cbn in Hio. destruct Hio as [Hp Hio]. pose proof (in_order_le _ _ _ Hio) as Hle.
  assert (exists b1, copy_at buf (Z.to_nat p) bs = Ret b1) as [b1 Hb1].
  { eexists. apply copy_at_in. lia. }
  rewrite Hb1. cbn [mbind outcome_bind]. destruct (copy_at_lookup _ _ _ _ Hb1) as (Hl1 & Ho1 & Hf1).
  destruct (IH (p + Z.of_nat (length bs)) b1) as (b2 & Hb2 & Hl2 & Ho2 & Hf2); [done | lia | lia |].
  exists b2. split_and!; [done | lia | |].
  - intros i Hi. rewrite Forall_cons in Hi. destruct Hi as [Hi Hr]. rewrite Ho2, Ho1; [done | | done].
    unfold outside in Hi. cbn in Hi. lia.
  - constructor; [| done]. cbn. split; [lia |]. intros k x Hk.
    pose proof (lookup_lt_Some _ _ _ Hk). rewrite Ho2; [by apply Hf1 |].
    apply (in_order_outside (p + Z.of_nat (length bs)) hi); [done | lia].
Qed.

Lemma patch_all_copy l w :
  patch_all l w = (b ← copy_all (body w) l; Ret (Some (tt, mk_writer b (hbin_headers w)))).
Proof.
  revert w. induction l as [| [p bs] l IH]; intros [b hs]; [done |].
  cbn [patch_all copy_all]. unfold bind, patch. cbn [body hbin_headers].
  destruct (copy_at b (Z.to_nat p) bs) as [b' | |]; cbn; [| done ..]. by rewrite IH.
Qed.

(** [w'] is [w] with bytes of [a .. b) changed. *)
Definition upd (a b : Z) (w w' : HiveWriter) : Prop :=
  hbin_headers w' = hbin_headers w /\ len w' = len w /\
  forall i, ~ (a <= Z.of_nat i < b) -> body w' !! i = body w !! i.

(** [w'] has all bytes of [w]. *)
Definition ext (w w' : HiveWriter) : Prop :=
  forall i x, body w !! i = Some x -> body w' !! i = Some x.

Lemma patch_all_ok lo hi l w :
  in_order lo hi l -> 0 <= lo -> hi <= len w ->
  exists w', patch_all l w = Ret (Some (tt, w')) /\ upd lo hi w w' /\
    Forall (fun p => field_at (body w') p.1 p.2) l.
Proof.
  intros Hio H0 Hhi. rewrite patch_all_copy.
  destruct (copy_all_ok lo hi l (body w)) as (b & -> & Hl & Ho & Hf); [done .. |].
  cbn. eexists. split; [done |]. split; [| done]. unfold upd, len. cbn. split_and!; [done | lia |].
  intros i Hi. apply Ho. apply (in_order_outside lo hi); [done | lia].
Qed.

Lemma patch_ok pos bs w :
  0 <= pos -> pos + Z.of_nat (length bs) <= len w ->
  exists w', patch pos bs w = Ret (Some (tt, w')) /\
    upd pos (pos + Z.of_nat (length bs)) w w' /\ field_at (body w') pos bs.
Proof.
  intros H0 Hl. destruct (patch_all_ok pos (pos + Z.of_nat (length bs)) [(pos, bs)] w)
    as (w' & Hp & Hu & Hf); [cbn; lia | lia | lia |].
  exists w'. rewrite Forall_singleton in Hf. split_and!; [| done | done].
  cbn [patch_all] in Hp. unfold bind in Hp. destruct (patch pos bs w) as [[[[] w1] |] | |]; cbn in *;
    [| done ..]. by injection Hp as ->.
Qed.

Lemma upd_refl a b w : upd a b w w.
Proof. by split_and!. Qed.

Lemma upd_trans a b a' b' c d w w' w'' :
  upd a b w w' -> upd a' b' w' w'' -> c <= a -> b <= d -> c <= a' -> b' <= d -> upd c d w w''.
Proof.
  intros (H1 & H2 & H3) (G1 & G2 & G3) ????. split_and!; [congruence | congruence |].
  intros i Hi. rewrite G3, H3 by lia. done.
Qed.

Lemma upd_agree a b c d w w' : upd c d w w' -> b <= c \/ d <= a -> agree a b (body w) (body w').
Proof. intros (_ & _ & H) Hd i x Hi _ Hx. rewrite H by lia. done. Qed.

Lemma upd_field_at c d w w' o bs :
  upd c d w w' -> o + Z.of_nat (length bs) <= c \/ d <= o -> field_at (body w) o bs ->
  field_at (body w') o bs.
Proof.
  intros (_ & _ & H) Hd [H0 Hf]. split; [done |]. intros k x Hk. pose proof (lookup_lt_Some _ _ _ Hk).
  rewrite H by lia. by apply Hf.
Qed.

Lemma ext_refl w : ext w w.
Proof. by intros i x. Qed.

Lemma ext_trans w w' w'' : ext w w' -> ext w' w'' -> ext w w''.
Proof. intros H G i x Hx. by apply G, H. Qed.

Lemma ext_len w w' : ext w w' -> len w <= len w'.
Proof.
  intros H. unfold len. destruct (decide (length (body w) = 0)%nat); [lia |].
  destruct (lookup_lt_is_Some_2 (body w) (length (body w) - 1)) as [x Hx]; [lia |].
  apply H, lookup_lt_Some in Hx. lia.
Qed.

Lemma ext_agree a b w w' : ext w w' -> agree a b (body w) (body w').
Proof. intros H i x _ _. apply H. Qed.

Lemma ext_upd w w1 a b w2 : ext w w1 -> upd a b w1 w2 -> len w <= a -> ext w w2.
Proof.
  intros H (_ & _ & G) Ha i x Hx. pose proof (lookup_lt_Some _ _ _ Hx). unfold len in *.
  rewrite G by lia. by apply H.
Qed.

(** ** Bins *)

(** The bins cover the body: headers every 4096 bytes, the last bin not overfull. *)
Definition wf (w : HiveWriter) : Prop :=
  exists n, hbin_headers w = (fun k => 4096 * Z.of_nat k) <$> seq 0 (S n) /\
    4096 * Z.of_nat n + 32 <= len w <= 4096 * (Z.of_nat n + 1).

(** [w'] extends [w] by at most [n] cells. *)
Definition grown (w w' : HiveWriter) (n : Z) : Prop :=
  wf w' /\ ext w w' /\ len w' <= len w + 8192 * n.

Lemma wf_upd a b w w' : wf w -> upd a b w w' -> wf w'.
Proof. intros (n & Hh & Hl) (Hh' & Hl' & _). exists n. rewrite Hh', Hl'. done. Qed.

Lemma grown_refl w : wf w -> grown w w 0.
Proof. intros. split_and!; [done | apply ext_refl | lia]. Qed.

Lemma grown_trans w w1 w2 n m k : grown w w1 n -> grown w1 w2 m -> n + m <= k -> grown w w2 k.
Proof. intros (_ & H1 & H2) (G0 & G1 & G2) ?. split_and!; [done | by eapply ext_trans | lia]. Qed.

Lemma grown_upd w w1 w2 n a b : grown w w1 n -> upd a b w1 w2 -> len w <= a -> grown w w2 n.
Proof.
  intros (H0 & H1 & H2) Hu Ha. pose proof Hu as (_ & Hl & _).
  split_and!; [by eapply wf_upd | by eapply ext_upd | lia].
Qed.

Lemma grown_len w w' n : grown w w' n -> len w <= len w' <= len w + 8192 * n.
Proof. intros (_ & H%ext_len & ?). lia. Qed.

Lemma length_zeros n : 0 <= n -> Z.of_nat (length (zeros n)) = n.
Proof. intros. unfold zeros. rewrite length_replicate. lia. Qed.

Lemma last_header k :
  last ((fun k => 4096 * Z.of_nat k) <$> seq 0 (S k)) = Some (4096 * Z.of_nat k).
Proof. rewrite seq_S, fmap_app. apply last_snoc. Qed.

Lemma ensure_room_ok n w :
  wf w -> 0 < n <= 4064 ->
  exists w', ensure_room n w = Ret (Some (tt, w')) /\
    wf w' /\ ext w w' /\ len w' <= len w + 4096 /\
    32 <= len w' mod 4096 /\ len w' mod 4096 + n <= 4096.
Proof.
  intros (k & Hh & Hl) Hn. unfold ensure_room, HBIN_SIZE, HBIN_HEADER_SIZE.
  rewrite (proj2 (Z.ltb_ge _ _)) by lia.
  rewrite Hh, last_header.
  destruct (Z.ltb_spec (4096 * Z.of_nat k + 4096) (len w + n)) as [Hlt | Hge].
  - eexists. split; [done |]. cbn [body hbin_headers].
    rewrite length_resize, Z2Nat.id by lia.
    set (w' := mk_writer _ _).
    assert (len w' = 4096 * (Z.of_nat k + 1) + 32) as Hl'.
    { unfold len, w'. cbn [body]. rewrite length_app, length_resize, Nat2Z.inj_add, length_zeros by lia. lia. }
    assert (len w' mod 4096 = 32) as Em.
    { symmetry. apply (Z.mod_unique_pos _ _ (Z.of_nat k + 1)); lia. }
    split_and!.
    + exists (S k). rewrite Hl'. split; [| lia]. unfold w'. cbn [hbin_headers].
      rewrite Hh, (seq_S (S k)), fmap_app. f_equal. cbn. f_equal. lia.
    + intros i x Hx. unfold w'. cbn [body]. pose proof (lookup_lt_Some _ _ _ Hx). unfold len in *.
      rewrite lookup_app_l by (rewrite length_resize; lia). rewrite lookup_resize by lia. done.
    + lia.
    + lia.
    + lia.
  - exists w. assert (len w mod 4096 = len w - 4096 * Z.of_nat k) as Em.
    { symmetry. apply (Z.mod_unique_pos _ _ (Z.of_nat k)); lia. }
    split_and!; [done | by exists k | apply ext_refl | lia ..].
Qed.

Lemma emit_ok n cell w :
  wf w -> 0 < n <= 4064 -> Z.of_nat (length cell) = n -> len w + 8192 <= 2 ^ 31 ->
  exists o w', emit n cell w = Ret (Some (4096 + o, w')) /\ grown w w' 1 /\ len w' = o + n /\
    field (len w) (len w') (body w') o cell.
Proof.
  intros Hw Hn Hc Hlim. destruct (ensure_room_ok n w) as (w1 & Hr & Hw1 & He & Hb & Hm1 & Hm2); [done .. |].
  exists (len w1), (mk_writer (body w1 ++ cell) (hbin_headers w1)).
  set (w2 := mk_writer _ _). assert (len w2 = len w1 + n) as Hl2.
  { unfold len, w2. cbn [body]. rewrite length_app. lia. }
  pose proof (ext_len _ _ He). split_and!.
  - unfold emit, bind. rewrite Hr. cbn. rewrite wrap_small; [done |].
    unfold u_ty, HBIN_BASE, len in *. lia.
  - split_and!; [| | lia].
    + destruct Hw1 as (k & Hh & Hl). exists k. split; [done |].
      assert (len w1 < 4096 * (Z.of_nat k + 1)) as Hlt.
      { destruct (decide (len w1 = 4096 * (Z.of_nat k + 1))) as [E |]; [| lia].
        rewrite E, Z.mul_comm, Z.mod_mul in Hm1; lia. }
      assert (len w1 mod 4096 = len w1 - 4096 * Z.of_nat k) as Em.
      { symmetry. apply (Z.mod_unique_pos _ _ (Z.of_nat k)); lia. }
      lia.
    + intros i x Hx. apply He in Hx. unfold w2. cbn [body]. rewrite lookup_app_l; [done |].
      by eapply lookup_lt_Some.
  - done.
  - split; [unfold slot; lia |]. split; [unfold len; lia |]. intros k x Hk.
    unfold w2, len. cbn [body]. rewrite Nat2Z.id, lookup_app_r, Nat.add_comm, Nat.add_sub by lia. done.
Qed.

Lemma emit_too_large n cell w : 4064 < n -> emit n cell w = Ret None.
Proof.
  intros. unfold emit, bind, ensure_room, HBIN_SIZE, HBIN_HEADER_SIZE.
  by rewrite (proj2 (Z.ltb_lt _ _)) by lia.
Qed.

Lemma align_up_8 x : 0 <= x < 2 ^ 61 -> align_up x 8 = (x + 7) / 8 * 8.
Proof.
  intros H. unfold align_up. change (8 - 1) with (Z.ones 3). replace (x + 8 - 1) with (x + 7) by lia.
  change 8 with (2 ^ 3). rewrite <- Z.shiftr_div_pow2, <- Z.shiftl_mul_pow2 by lia.
  assert (u_ty 64 (x + 7)) as Hty by (unfold u_ty; lia).
  apply Z.bits_inj'. intros i Hi. rewrite Z.land_spec, wnot_testbit by lia.
  rewrite Z.testbit_ones_nonneg by lia.
  destruct (Z.ltb_spec i 3).
  - rewrite Z.shiftl_spec_low by lia. by rewrite !andb_false_r.
  - rewrite Z.shiftl_spec, Z.shiftr_spec by lia. replace (i - 3 + 3) with i by lia.
    destruct (Z.ltb_spec i 64); [by rewrite !andb_true_r |].
    by rewrite (u_ty_testbit 64 (x + 7)).
Qed.

(** ** What an operation writes *)

(** [m] writes an object of at most [n] cells when it [fits], and is refused otherwise; [P]
    describes the object by the range of the body it is in, the body and its position. *)
Definition writes (m : M Z) (fits : bool) (n : Z) (P : Z -> Z -> list Z -> Z -> Prop) : Prop :=
  forall w, wf w -> len w + 8192 * n <= 2 ^ 31 ->
    if fits then
      exists o w', m w = Ret (Some (4096 + o, w')) /\ grown w w' n /\
        P (len w) (len w') (body w') o
    else m w = Ret None.

(** A description that only depends on cell bytes of its range. *)
Definition stable {A} (P : Z -> Z -> list Z -> A -> Prop) : Prop :=
  forall a b a' b' buf buf' x,
    P a b buf x -> agree a b buf buf' -> a' <= a -> b <= b' -> P a' b' buf' x.

Lemma traverse_ok {A} (f : A -> M Z) (fits : A -> bool) (n : A -> Z)
    (P : A -> Z -> Z -> list Z -> Z -> Prop) xs :
  (forall x, x ∈ xs -> writes (f x) (fits x) (n x) (P x)) ->
  (forall x, stable (P x)) -> (forall x, x ∈ xs -> 0 <= n x) ->
  forall w, wf w -> len w + 8192 * msum n xs <= 2 ^ 31 ->
    if forallb fits xs then
      exists os w', traverse f xs w = Ret (Some (Z.add 4096 <$> os, w')) /\ grown w w' (msum n xs) /\
        Forall2 (fun o x => P x (len w) (len w') (body w') o) os xs
    else traverse f xs w = Ret None.
Proof.
  intros Hf HP. revert Hf. induction xs as [| x xs IH]; intros Hf Hn w Hw Hl; cbn [forallb traverse].
  { exists [], w. split; [done |]. split; [by apply grown_refl | constructor]. }
  rewrite msum_cons in Hl. assert (0 <= n x) by (apply Hn; by apply elem_of_cons; left).
  assert (0 <= msum n xs).
  { apply msum_nonneg, Forall_forall. intros y Hy. apply Hn. by apply elem_of_cons; right. }
  pose proof (Hf x ltac:(by apply elem_of_cons; left) w Hw ltac:(lia)) as Hx.
  destruct (fits x); cbn [andb]; [| by apply bind_none].
  destruct Hx as (o & w1 & Hx & Hg1 & Ho). rewrite (bind_some _ _ _ _ _ Hx).
  assert (wf w1) as Hw1 by apply Hg1. pose proof (grown_len _ _ _ Hg1).
  specialize (IH ltac:(intros; apply Hf; by apply elem_of_cons; right)
                 ltac:(intros; apply Hn; by apply elem_of_cons; right) w1 Hw1 ltac:(lia)).
  destruct (forallb fits xs); [| by apply bind_none].
  destruct IH as (os & w2 & Hxs & Hg2 & Hos). rewrite (bind_some _ _ _ _ _ Hxs). pose proof (grown_len _ _ _ Hg2).
  exists (o :: os), w2. split; [done |]. split; [eapply grown_trans; [done | done |]; by rewrite msum_cons |].
  constructor.
  - eapply HP; [exact Ho | apply ext_agree, Hg2 | lia | lia].
  - eapply Forall2_impl; [exact Hos |]. intros o' x' Ho'.
    eapply HP; [exact Ho' | by intros ? | lia | lia].
Qed.

(** *** Values *)

Definition fits_in_bin (total : Z) : bool := align_up total 8 <=? 4064.

Definition data_fits (data : list Z) : bool :=
  (Z.of_nat (length data) <=? 4) || fits_in_bin (4 + Z.of_nat (length data)).

Definition value_fits (v : HiveValue) : bool :=
  fits_in_bin (0x18 + Z.of_nat (length (encode_name (hv_name v)).1)) && data_fits (hv_data v).

(** The [data_size] and [data_offset] fields say where the data is. *)
Definition data_at (data : list Z) (a b : Z) (buf : list Z) (so : Z * Z) : Prop :=
  let n := Z.of_nat (length data) in
  if n <=? 4 then so = (0x80000000 + n, from_le (data ++ zeros (4 - n)))
  else so.1 = n /\ 0 < so.2 < 2 ^ 31 /\ field a b buf so.2 data.

(** The head of a cell of kind [id]: a negative length and the tag. *)
Definition cell_head (id : list Z) (a b : Z) (buf : list Z) (o : Z) : Prop :=
  exists n, 0 < n <= 4064 /\ field a b buf o (to_le 4 (wrap 32 (- n)) ++ id).

Definition value_at (v : HiveValue) (a b : Z) (buf : list Z) (o : Z) : Prop :=
  let '(nb, ascii) := encode_name (hv_name v) in
  exists so,
    cell_head ID_VK a b buf o /\
    field a b buf (o + 0x06) (to_le 2 (Z.of_nat (length nb))) /\
    field a b buf (o + 0x08) (to_le 4 so.1) /\
    field a b buf (o + 0x0C) (to_le 4 so.2) /\
    field a b buf (o + 0x10) (to_le 4 (Hive.to_u32 (hv_type v))) /\
    field a b buf (o + 0x14) (to_le 4 (if ascii then 1 else 0)) /\
    field a b buf (o + 0x18) nb /\
    data_at (hv_data v) a b buf so.

Lemma field_stable bs : stable (fun a b buf o => field a b buf o bs).
Proof. intros a b a' b' buf buf' o Hf Hag Haa Hbb. eapply field_widen; [by eapply field_agree | done ..]. Qed.

Lemma data_at_stable data : stable (data_at data).
Proof.
  intros a b a' b' buf buf' so H Hag Haa Hbb. unfold data_at in *. destruct (_ <=? 4); [done |].
  destruct H as (H1 & H2 & H3). split; [done |]. split; [done |]. by eapply (field_stable data).
Qed.

Lemma cell_head_stable id : stable (cell_head id).
Proof.
  intros a b a' b' buf buf' o (n & Hn & H) Hag Haa Hbb. exists n. split; [done |].
  by eapply (field_stable (_ ++ _)).
Qed.

Lemma value_at_stable v : stable (value_at v).
Proof.
  intros a b a' b' buf buf' o. unfold value_at. destruct (encode_name _) as [nb ascii].
  intros (so & H0 & H1 & H2 & H3 & H4 & H5 & H6 & H7) Hag Haa Hbb. exists so.
  split_and!; first [ by eapply (cell_head_stable ID_VK) | by eapply data_at_stable
                    | by eapply (field_stable (to_le _ _)) | by eapply (field_stable nb) ].
Qed.

Lemma align_up_bounds_8 x :
  0 <= x < 2 ^ 60 -> x <= align_up x 8 < x + 8 /\ align_up (align_up x 8) 8 = align_up x 8.
Proof.
  intros Hx. rewrite align_up_8 by lia.
  assert (x <= (x + 7) / 8 * 8 < x + 8) as Hb.
  { pose proof (Z.div_mod (x + 7) 8). pose proof (Z.mod_pos_bound (x + 7) 8). lia. }
  split; [done |]. rewrite align_up_8 by lia. f_equal.
  symmetry. apply (Z.div_unique_pos _ _ _ 7); lia.
Qed.

Lemma append_cell_ok id base w :
  length id = 2%nat -> 8 <= base < 2 ^ 60 -> wf w -> len w + 8192 <= 2 ^ 31 ->
  let sz := align_up base 8 in
  if fits_in_bin base then
    exists o w', append_cell id (zeros (sz - 8)) w = Ret (Some (4096 + o, w')) /\ grown w w' 1 /\
      len w' = o + sz /\ slot (len w) (len w') o sz /\ cell_head id (len w) (len w') (body w') o
  else append_cell id (zeros (sz - 8)) w = Ret None.
Proof.
  intros Hid Hbase Hw Hl sz. destruct (align_up_bounds_8 base ltac:(lia)) as [Hb Ha]. fold sz in Hb, Ha.
  unfold append_cell. rewrite length_zeros by lia. replace (8 + (sz - 8)) with sz by lia. rewrite Ha.
  replace (sz - sz) with 0 by lia. unfold fits_in_bin. fold sz.
  destruct (Z.leb_spec sz 4064); [| by apply emit_too_large].
  match goal with |- context [emit sz ?c] => set (cell := c) end.
  assert (Z.of_nat (length cell) = sz) as Hc.
  { unfold cell. rewrite !length_app, length_to_le, Hid. cbn [length].
    rewrite !Nat2Z.inj_add, !length_zeros by lia. lia. }
  destruct (emit_ok sz cell w) as (o & w' & He & Hg & Ho & Hs & Hf); [done | lia | done | done |].
  exists o, w'. rewrite Hc in Hs. split_and!; [done .. |]. exists sz. split; [lia |].
  unfold cell in Hf. rewrite app_assoc in Hf. apply field_at_app in Hf as [Hf _].
  split; [| done]. rewrite length_app, length_to_le, Hid. replace o with (o + 0) by lia.
  apply (slot_sub _ _ _ sz); [done | lia ..].
Qed.

Lemma append_raw_cell_ok sz w :
  4 <= sz -> wf w -> len w + 8192 <= 2 ^ 31 ->
  if sz <=? 4064 then
    exists o w', append_raw_cell sz w = Ret (Some (4096 + o, w')) /\ grown w w' 1 /\
      len w' = o + sz /\ slot (len w) (len w') o sz
  else append_raw_cell sz w = Ret None.
Proof.
  intros Hsz Hw Hl. unfold append_raw_cell.
  destruct (Z.leb_spec sz 4064); [| by apply emit_too_large].
  match goal with |- context [emit sz ?c] => set (cell := c) end.
  assert (Z.of_nat (length cell) = sz) as Hc.
  { unfold cell. rewrite length_app, length_to_le, Nat2Z.inj_add, length_zeros by lia. lia. }
  destruct (emit_ok sz cell w) as (o & w' & He & Hg & Ho & Hs & Hf); [done | lia | done | done |].
  exists o, w'. rewrite Hc in Hs. done.
Qed.

Lemma slot_pos a b o n : slot a b o n -> 0 <= a -> 0 < n -> 32 <= o.
Proof.
  intros (Ha & _ & Hm) H0 Hn. destruct (Hm Hn) as [H _]. pose proof (Z.mod_le o 4096). lia.
Qed.

Lemma file_rel pos : 0 <= pos < 2 ^ 31 + 8192 -> wrap 32 (4096 + pos) -[64] HBIN_BASE = pos.
Proof.
  intros. unfold HBIN_BASE. rewrite (wrap_small 32), wrap_small; unfold u_ty; lia.
Qed.

Lemma file_rel32 pos : 0 <= pos < 2 ^ 31 + 8192 -> (4096 + pos) -[32] HBIN_BASE = pos.
Proof. intros. unfold HBIN_BASE. rewrite wrap_small; unfold u_ty; lia. Qed.

Lemma to_hbin_rel_add pos : 0 <= pos < 2 ^ 31 + 8192 -> to_hbin_rel (4096 + pos) = pos.
Proof.
  intros. unfold to_hbin_rel. rewrite (proj2 (Z.eqb_neq _ _)) by lia. by apply file_rel32.
Qed.

Lemma field_at_cons buf o b bs : field_at buf o [b] -> field_at buf (o + 1) bs -> field_at buf o (b :: bs).
Proof.
  intros [H0 H1] [_ H2]. split; [done |]. intros [| k] x Hk; [by apply H1 |].
  replace (Z.to_nat o + S k)%nat with (Z.to_nat (o + 1) + k)%nat by lia. by apply H2.
Qed.

Lemma wr_copy_at {A} (l : list A) i x : wr l i x = copy_at l i [x].
Proof.
  unfold wr, copy_at. cbn [length]. destruct (decide (i < length l)%nat) as [Hi | Hi].
  - rewrite decide_True by lia. f_equal. rewrite insert_take_drop by done.
    by rewrite Nat.add_1_r.
  - by rewrite decide_False by lia.
Qed.

Lemma fill_bytes_ok pos data w :
  0 <= pos -> pos + Z.of_nat (length data) <= len w ->
  exists w', fill_bytes pos data w = Ret (Some (tt, w')) /\
    upd pos (pos + Z.of_nat (length data)) w w' /\ field_at (body w') pos data.
Proof.
  revert pos w. induction data as [| b data IH]; intros pos w H0 Hl; cbn [fill_bytes].
  { exists w. split_and!; [done | apply upd_refl | by split]. }
  cbn [length] in Hl. destruct (patch_ok pos [b] w) as (w1 & Hp & Hu & Hf); [done | cbn; lia |].
  erewrite bind_some; [| rewrite wr_copy_at; exact Hp].
  destruct (IH (pos + 1) w1) as (w2 & -> & Hu2 & Hf2); [lia | destruct Hu as (_ & -> & _); lia |].
  exists w2. split; [done |]. cbn [length] in *. split.
  - eapply upd_trans; [exact Hu | exact Hu2 | lia ..].
  - apply field_at_cons; [| done]. eapply upd_field_at; [exact Hu2 | cbn; lia | done].
Qed.

Lemma inline_data data :
  (length data <= 4)%nat ->
  inline_loop 0 data [0; 0; 0; 0] = data ++ zeros (4 - Z.of_nat (length data)).
Proof.
  intros H. destruct data as [| b0 [| b1 [| b2 [| b3 [| b4 data]]]]]; cbn in H; try lia; reflexivity.
Qed.

Lemma inline_size n : 0 <= n <= 4 -> Z.lor 0x80000000 (wrap 32 n) = 0x80000000 + n.
Proof.
  intros. rewrite wrap_small by (unfold u_ty; lia). change 0x80000000 with (1 * 2 ^ 31).
  apply lor_mul_add; [lia | unfold u_ty; lia].
Qed.

Lemma write_data_ok data w :
  Z.of_nat (length data) < 2 ^ 50 -> wf w -> len w + 8192 <= 2 ^ 31 ->
  if data_fits data then
    exists so w', write_data data w = Ret (Some (so, w')) /\ grown w w' 1 /\
      data_at data (len w) (len w') (body w') so
  else write_data data w = Ret None.
Proof.
  intros Hn Hw Hl. unfold data_fits, data_at, write_data, Hive.VK_INLINE_MAX, Hive.VK_DATA_INLINE_FLAG.
  destruct (Z.leb_spec (Z.of_nat (length data)) 4) as [Hs | Hs]; cbn [orb].
  { exists (0x80000000 + Z.of_nat (length data), from_le (data ++ zeros (4 - Z.of_nat (length data)))), w.
    split; [| split; [| done]].
    - rewrite inline_size, inline_data by lia. done.
    - eapply grown_trans; [by apply grown_refl | by apply grown_refl | lia]. }
  destruct (align_up_bounds_8 (4 + Z.of_nat (length data))) as [Hb _]; [lia |].
  pose proof (append_raw_cell_ok (align_up (4 + Z.of_nat (length data)) 8) w ltac:(lia) Hw Hl) as Ha.
  unfold fits_in_bin. destruct (_ <=? 4064); [| by apply bind_none].
  destruct Ha as (o & w1 & Ha & Hg & Ho & Hsl). rewrite (bind_some _ _ _ _ _ Ha). cbn beta.
  assert (32 <= o) as Ho32 by (eapply slot_pos; [done | unfold len; lia | lia]).
  pose proof (grown_len _ _ _ Hg). assert (len w <= o) by apply Hsl.
  replace (4096 + o + 4) with (4096 + (o + 4)) by lia. rewrite file_rel by lia.
  destruct (fill_bytes_ok (o + 4) data w1) as (w2 & Hf & Hu & Hd); [lia | lia |].
  rewrite (bind_some _ _ _ _ _ Hf). rewrite !wrap_small by (unfold u_ty; lia).
  rewrite to_hbin_rel_add by lia. assert (len w2 = len w1) as Hl2 by apply Hu.
  eexists (_, _), w2. split; [done |]. cbn [fst snd]. split; [eapply grown_upd; [done | done |]; lia |].
  split; [done |]. split; [lia |]. split; [| done]. rewrite Hl2.
  apply (slot_sub _ _ _ (align_up (4 + Z.of_nat (length data)) 8)); [done | lia ..].
Qed.

Lemma length_encode_name s : (length (encode_name s).1 <= 4 * length s)%nat.
Proof.
  unfold encode_name. destruct (forallb _ s) eqn:E; cbn [fst].
  { rewrite Text.as_bytes_ascii by exact E. lia. }
  rewrite Text.length_units_bytes. unfold Text.encode_utf16.
  clear E. induction s as [| c s IH]; [done |]. rewrite bind_cons, length_app. cbn [length].
  assert (length (Text.utf16_char c) <= 2)%nat by (unfold Text.utf16_char; case_match; cbn; lia). lia.
Qed.

(** What the types of the source guarantee; no string or vector fills the address space. *)
Definition value_ty (v : HiveValue) : Prop :=
  Forall Text.scalar_ty (hv_name v) /\ Forall byte_ty (hv_data v) /\
  Z.of_nat (length (hv_name v)) < 2 ^ 48 /\ Z.of_nat (length (hv_data v)) < 2 ^ 48.

(** Fields of a cell at [o] of [sz] bytes, after patches at the offsets of [l]. *)
Lemma patched_field a b buf o sz n d bs l :
  slot a b o sz -> Forall (fun p => field_at buf p.1 p.2) l ->
  l !! n = Some (o + d, bs) -> 0 <= d -> d + Z.of_nat (length bs) <= sz -> field a b buf (o + d) bs.
Proof.
  intros Hs Hl Hn Hd Hsz. rewrite Forall_lookup in Hl. apply Hl in Hn. cbn in Hn.
  split; [apply (slot_sub _ _ _ sz); [done | lia ..] | done].
Qed.

Ltac patched o sz ps n :=
  apply (patched_field _ _ _ o sz n _ _ ps); rewrite ?length_to_le; [done .. | lia | lia].

(** The head of a cell survives later cells and the patches behind it. *)
Lemma cell_head_kept id a b b' w1 w2 w3 o q :
  length id = 2%nat -> cell_head id a b (body w1) o -> ext w1 w2 -> upd (o + 6) q w2 w3 -> b <= b' ->
  cell_head id a b' (body w3) o.
Proof.
  intros Hid (n & Hn & Hs & Hf) He Hu Hb. exists n. split; [done |].
  split; [by eapply slot_widen |].
  eapply upd_field_at; [exact Hu | rewrite length_app, length_to_le, Hid; lia |].
  eapply field_at_agree; [exact Hs | exact Hf | by apply ext_agree].
Qed.

Lemma write_value_ok v : value_ty v -> writes (write_value v) (value_fits v) 2 (value_at v).
Proof.
  intros (_ & _ & Hn & Hd) w Hw Hl. unfold write_value, value_fits, value_at.
  pose proof (length_encode_name (hv_name v)) as Hnb.
  destruct (encode_name (hv_name v)) as [nb ascii]. cbn [fst] in *. unfold Hive.VK_NAME.
  destruct (align_up_bounds_8 (0x18 + Z.of_nat (length nb))) as [Hb _]; [lia |].
  pose proof (append_cell_ok ID_VK (0x18 + Z.of_nat (length nb)) w eq_refl ltac:(lia) Hw ltac:(lia)) as Ha.
  cbv zeta in Ha. unfold fits_in_bin in *.
  destruct (Z.leb_spec (align_up (24 + Z.of_nat (length nb)) 8) 4064); cbn [andb]; [| by apply bind_none].
  set (sz := align_up _ _) in *.
  destruct Ha as (o & w1 & Ha & Hg1 & Ho & Hs & Hh). rewrite (bind_some _ _ _ _ _ Ha). cbn beta.
  assert (wf w1) as Hw1 by apply Hg1. pose proof (grown_len _ _ _ Hg1). assert (len w <= o) by apply Hs.
  assert (0 <= len w) by (unfold len; lia).
  pose proof (write_data_ok (hv_data v) w1 ltac:(lia) Hw1 ltac:(lia)) as Hdata.
  destruct (data_fits (hv_data v)); [| by apply bind_none].
  destruct Hdata as ([ds doff] & w2 & Hdata & Hg2 & Hat). rewrite (bind_some _ _ _ _ _ Hdata). cbn beta iota.
  pose proof (grown_len _ _ _ Hg2). rewrite file_rel32 by lia.
  match goal with |- context [patch_all ?l] => set (ps := l) end.
  destruct (patch_all_ok (o + 6) (o + sz) ps w2) as (w3 & Hp & Hu & Hf).
  { unfold ps. cbn [in_order]. rewrite !length_to_le.
    unfold Hive.VK_NAME_LEN, Hive.VK_DATA_SIZE, Hive.VK_DATA_OFFSET, Hive.VK_DATA_TYPE, Hive.VK_FLAGS. lia. }
  { lia. } { lia. }
  rewrite (bind_some _ _ _ _ _ Hp). exists o, w3. assert (len w3 = len w2) as Hl3 by apply Hu.
  split; [done |]. split.
  { eapply grown_upd; [eapply grown_trans; [exact Hg1 | exact Hg2 | lia] | exact Hu | lia]. }
  assert (slot (len w) (len w3) o sz) as Hs3 by (eapply slot_widen; [exact Hs | lia | lia]).
  exists (ds, doff). cbn [fst snd].
  assert (wrap 16 (Z.of_nat (length nb)) = Z.of_nat (length nb)) as Hwn
    by (apply wrap_small; unfold u_ty; lia).
  split_and!.
  - eapply cell_head_kept; [done | exact Hh | apply Hg2 | exact Hu | lia].
  - rewrite <- Hwn. patched o sz ps 0%nat.
  - patched o sz ps 1%nat.
  - patched o sz ps 2%nat.
  - patched o sz ps 3%nat.
  - patched o sz ps 4%nat.
  - patched o sz ps 5%nat.
  - eapply data_at_stable; [exact Hat | eapply upd_agree; [exact Hu | lia] | lia | lia].
Qed.

(** *** Lists of offsets *)

(** The offsets [xs], [step] bytes apart from [base] on. *)
Definition entries_at (step : Z) (xs : list Z) (a b : Z) (buf : list Z) (base : Z) : Prop :=
  forall i x, xs !! i = Some x -> field a b buf (base + step * Z.of_nat i) (to_le 4 x).

Lemma entries_at_stable step xs : stable (entries_at step xs).
Proof.
  intros a b a' b' buf buf' base H Hag Haa Hbb i x Hi. apply H in Hi.
  by eapply (field_stable (to_le 4 x)).
Qed.

(** Offsets of objects in the body. *)
Definition offs_ty (xs : list Z) : Prop := Forall (fun x => 0 <= x < 2 ^ 31) xs.

Lemma fill_vallist_ok o i xs w :
  offs_ty xs -> 0 <= o -> 0 <= i -> o + 4 + 4 * (i + Z.of_nat (length xs)) <= len w -> len w <= 2 ^ 31 ->
  exists w', fill_vallist (4096 + o) i (Z.add 4096 <$> xs) w = Ret (Some (tt, w')) /\
    upd (o + 4 + 4 * i) (o + 4 + 4 * (i + Z.of_nat (length xs))) w w' /\
    forall j x, xs !! j = Some x -> field_at (body w') (o + 4 + 4 * (i + Z.of_nat j)) (to_le 4 x).
Proof.
  intros Hxs H0. revert i w. induction Hxs as [| x xs Hx Hxs IH]; intros i w Hi Hl Hlim; cbn [fmap list_fmap fill_vallist].
  { exists w. split_and!; [done | apply upd_refl | done]. }
  cbn [length] in Hl. rewrite to_hbin_rel_add by lia.
  replace (4096 + o + 4 + i * 4) with (4096 + (o + 4 + 4 * i)) by lia. rewrite file_rel by lia.
  destruct (patch_ok (o + 4 + 4 * i) (to_le 4 x) w) as (w1 & Hp & Hu & Hf);
    rewrite ?length_to_le in *; [lia | lia |].
  rewrite (bind_some _ _ _ _ _ Hp). assert (len w1 = len w) as Hl1 by apply Hu.
  destruct (IH (i + 1) w1) as (w2 & -> & Hu2 & Hf2); [lia | lia | lia |].
  exists w2. split; [done |]. cbn [length]. split.
  - eapply upd_trans; [exact Hu | exact Hu2 | lia ..].
  - intros [| j] y Hy; cbn in Hy.
    + injection Hy as <-. eapply upd_field_at; [exact Hu2 | rewrite length_to_le; lia |].
      by replace (o + 4 + 4 * (i + Z.of_nat 0)) with (o + 4 + 4 * i) by lia.
    + replace (i + Z.of_nat (S j)) with (i + 1 + Z.of_nat j) by lia. by apply Hf2.
Qed.

(** The reference to a value list: none, or the list at the offset. *)
Definition vallist_ref (xs : list Z) (r : Z) (a b : Z) (buf : list Z) : Prop :=
  if decide (xs = []) then r = 0
  else exists o, r = 4096 + o /\ 0 < o < 2 ^ 31 /\ entries_at 4 xs a b buf (o + 4).

Lemma write_vallist_ok xs w :
  offs_ty xs -> Z.of_nat (length xs) < 2 ^ 48 -> wf w -> len w + 8192 <= 2 ^ 31 ->
  if bool_decide (xs = []) || fits_in_bin (4 + Z.of_nat (length xs) * 4) then
    exists r w', write_vallist (Z.add 4096 <$> xs) w = Ret (Some (r, w')) /\ grown w w' 1 /\
      vallist_ref xs r (len w) (len w') (body w')
  else write_vallist (Z.add 4096 <$> xs) w = Ret None.
Proof.
  intros Hxs Hlen Hw Hl. unfold write_vallist, vallist_ref. destruct (decide (xs = [])) as [-> | Hne].
  { rewrite bool_decide_true by done. exists 0, w. split; [done |].
    split; [eapply grown_trans; [by apply grown_refl | by apply grown_refl | lia] | done]. }
  rewrite bool_decide_false by done. cbn [orb].
  rewrite decide_False by (by intros ?%fmap_nil_inv). rewrite length_fmap.
  destruct (align_up_bounds_8 (4 + Z.of_nat (length xs) * 4)) as [Hb _]; [lia |].
  unfold fits_in_bin. set (sz := align_up _ _) in *.
  pose proof (append_raw_cell_ok sz w ltac:(lia) Hw Hl) as Ha.
  destruct (sz <=? 4064); [| by apply bind_none].
  destruct Ha as (o & w1 & Ha & Hg & Ho & Hs). rewrite (bind_some _ _ _ _ _ Ha).
  pose proof (grown_len _ _ _ Hg). assert (0 <= len w) by (unfold len; lia).
  assert (len w <= o) by apply Hs. assert (32 <= o) by (eapply slot_pos; [done | lia | lia]).
  destruct (fill_vallist_ok o 0 xs w1) as (w2 & Hf & Hu & He); [done | lia .. |].
  rewrite (bind_some _ _ _ _ _ Hf). exists (4096 + o), w2. assert (len w2 = len w1) as Hl2 by apply Hu.
  split; [done |]. split; [eapply grown_upd; [done | done | lia] |].
  exists o. split; [done |]. split; [lia |]. intros i x Hi. pose proof (lookup_lt_Some _ _ _ Hi).
  replace (o + 4 + 4 * Z.of_nat i) with (o + (4 + 4 * (0 + Z.of_nat i))) by lia.
  split; [rewrite Hl2, length_to_le; apply (slot_sub _ _ _ sz); [done | lia ..] |].
  replace (o + (4 + 4 * (0 + Z.of_nat i))) with (o + 4 + 4 * (0 + Z.of_nat i)) by lia. by apply He.
Qed.

Lemma entry_rel pos : 0 <= pos < 2 ^ 31 + 8192 -> (4096 + pos) -[64] HBIN_BASE = pos.
Proof. intros. unfold HBIN_BASE. rewrite wrap_small; unfold u_ty; lia. Qed.

Lemma fill_lh_ok o i xs nms w :
  offs_ty xs -> length nms = length xs -> 0 <= o -> 0 <= i ->
  o + 8 + 8 * (i + Z.of_nat (length xs)) <= len w -> len w <= 2 ^ 31 ->
  exists w', fill_lh (4096 + (o + 8)) i (zip (Z.add 4096 <$> xs) nms) w = Ret (Some (tt, w')) /\
    upd (o + 8 + 8 * i) (o + 8 + 8 * (i + Z.of_nat (length xs))) w w' /\
    forall j x, xs !! j = Some x -> field_at (body w') (o + 8 + 8 * (i + Z.of_nat j)) (to_le 4 x).
Proof.
  intros Hxs. revert i nms w. induction Hxs as [| x xs Hx Hxs IH]; intros i nms w Hnm H0 Hi Hl Hlim.
  { exists w. split_and!; [done | apply upd_refl | done]. }
  destruct nms as [| nm nms]; [done |]. cbn [fmap list_fmap zip zip_with fill_lh].
  cbn [length] in Hl, Hnm. rewrite to_hbin_rel_add by lia. unfold LH_ENTRY_SIZE.
  replace (4096 + (o + 8) + i * 8) with (4096 + (o + 8 + 8 * i)) by lia. rewrite entry_rel by lia.
  destruct (patch_ok (o + 8 + 8 * i) (to_le 4 x) w) as (w1 & Hp1 & Hu1 & Hf1);
    rewrite ?length_to_le in *; [lia | lia |].
  rewrite (bind_some _ _ _ _ _ Hp1). assert (len w1 = len w) as Hl1 by apply Hu1.
  destruct (patch_ok (o + 8 + 8 * i + 4) (to_le 4 (entry_hash nm)) w1) as (w2 & Hp2 & Hu2 & _);
    rewrite ?length_to_le in *; [lia | lia |].
  rewrite (bind_some _ _ _ _ _ Hp2). assert (len w2 = len w) as Hl2 by (destruct Hu2 as (_ & -> & _); lia).
  destruct (IH (i + 1) nms w2) as (w3 & -> & Hu3 & Hf3); [lia .. |].
  exists w3. split; [done |]. cbn [length]. split.
  - assert (upd (o + 8 + 8 * i) (o + 8 + 8 * i + 8) w w2) as Hu12
      by (eapply upd_trans; [exact Hu1 | exact Hu2 | lia ..]).
    eapply upd_trans; [exact Hu12 | exact Hu3 | lia ..].
  - intros [| j] y Hy; cbn in Hy.
    + injection Hy as <-. eapply upd_field_at; [exact Hu3 | rewrite length_to_le; lia |].
      eapply upd_field_at; [exact Hu2 | rewrite length_to_le; lia |].
      by replace (o + 8 + 8 * (i + Z.of_nat 0)) with (o + 8 + 8 * i) by lia.
    + replace (i + Z.of_nat (S j)) with (i + 1 + Z.of_nat j) by lia. by apply Hf3.
Qed.

Definition index_at (kids : list Z) (a b : Z) (buf : list Z) (o : Z) : Prop :=
  cell_head ID_LH a b buf o /\ field a b buf (o + 6) (to_le 2 (Z.of_nat (length kids))) /\
  entries_at 8 kids a b buf (o + 8).

Lemma index_at_stable kids : stable (index_at kids).
Proof.
  intros a b a' b' buf buf' o (H1 & H2 & H3) Hag Haa Hbb. split_and!.
  - by eapply (cell_head_stable ID_LH).
  - by eapply (field_stable (to_le _ _)).
  - by eapply entries_at_stable.
Qed.

Lemma write_index_ok kids nms :
  offs_ty kids -> length nms = length kids -> 0 < Z.of_nat (length kids) < 2 ^ 48 ->
  writes (write_index (Z.add 4096 <$> kids) nms) (fits_in_bin (8 + Z.of_nat (length kids) * 8)) 1
    (fun a b buf o => 0 < o < 2 ^ 31 /\ index_at kids a b buf o).
Proof.
  intros Hk Hnm Hlen w Hw Hl. unfold write_index, LH_ENTRY_SIZE. rewrite length_fmap.
  destruct (align_up_bounds_8 (8 + Z.of_nat (length kids) * 8)) as [Hb _]; [lia |].
  pose proof (append_cell_ok ID_LH (8 + Z.of_nat (length kids) * 8) w eq_refl ltac:(lia) Hw ltac:(lia)) as Ha.
  cbv zeta in Ha. unfold fits_in_bin in *. set (sz := align_up _ _) in *.
  destruct (Z.leb_spec sz 4064); [| by apply bind_none].
  destruct Ha as (o & w1 & Ha & Hg & Ho & Hs & Hh). rewrite (bind_some _ _ _ _ _ Ha). cbn beta.
  pose proof (grown_len _ _ _ Hg). assert (0 <= len w) by (unfold len; lia).
  assert (len w <= o) by apply Hs. assert (32 <= o) by (eapply slot_pos; [done | lia | lia]).
  replace (4096 + o + 6) with (4096 + (o + 6)) by lia. rewrite file_rel by lia.
  rewrite (wrap_small 16) by (unfold u_ty; lia).
  destruct (patch_ok (o + 6) (to_le 2 (Z.of_nat (length kids))) w1) as (w2 & Hp & Hu2 & Hf2);
    rewrite ?length_to_le in *; [lia | lia |].
  rewrite (bind_some _ _ _ _ _ Hp). assert (len w2 = len w1) as Hl2 by apply Hu2.
  replace (4096 + o + 8) with (4096 + (o + 8)) by lia. rewrite (wrap_small 32) by (unfold u_ty; lia).
  destruct (fill_lh_ok o 0 kids nms w2) as (w3 & Hf & Hu3 & He); [done | done | lia .. |].
  rewrite (bind_some _ _ _ _ _ Hf). assert (len w3 = len w1) as Hl3 by (destruct Hu3 as (_ & -> & _); lia).
  assert (upd (o + 6) (o + sz) w1 w3) as Hu by (eapply upd_trans; [exact Hu2 | exact Hu3 | lia ..]).
  exists o, w3. split; [done |]. split; [eapply grown_upd; [done | done | lia] |].
  split; [lia |]. rewrite Hl3. split_and!.
  - eapply cell_head_kept; [done | exact Hh | apply ext_refl | exact Hu | lia].
  - split; [rewrite length_to_le; apply (slot_sub _ _ _ sz); [done | lia ..] |].
    eapply upd_field_at; [exact Hu3 | rewrite length_to_le; lia | done].
  - intros i x Hi. pose proof (lookup_lt_Some _ _ _ Hi).
    replace (o + 8 + 8 * Z.of_nat i) with (o + (8 + 8 * (0 + Z.of_nat i))) by lia.
    split; [rewrite length_to_le; apply (slot_sub _ _ _ sz); [done | lia ..] |].
    replace (o + (8 + 8 * (0 + Z.of_nat i))) with (o + 8 + 8 * (0 + Z.of_nat i)) by lia. by apply He.
Qed.

(** *** Keys *)

Lemma HiveKey_tree_ind (P : HiveKey -> Prop) :
  (forall nm fl subs vals, Forall P subs -> P (mk_key nm fl subs vals)) -> forall k, P k.
Proof.
  intros H. fix IH 1. intros [nm fl subs vals]. apply H.
  induction subs as [| s subs IHs]; constructor; [apply IH | exact IHs].
Qed.

Definition index_ref (kids : list Z) (r : Z) (a b : Z) (buf : list Z) : Prop :=
  if decide (kids = []) then r = 0
  else exists o, r = 4096 + o /\ 0 < o < 2 ^ 31 /\ index_at kids a b buf o.

(** The reference as it is stored. *)
Definition stored (r : Z) : Z := if r =? 0 then 0xFFFFFFFF else r - 4096.

(** The fields of the [nk] cell of a key. *)
Definition nk_at (nm : list Z) (nsubs nvals ri rv : Z) (a b : Z) (buf : list Z) (o : Z) : Prop :=
  let '(nb, ascii) := encode_name nm in
  cell_head ID_NK a b buf o /\
  field a b buf (o + 0x06) (to_le 2 (if ascii then 0x20 else 0)) /\
  field a b buf (o + 0x18) (to_le 4 nsubs) /\
  field a b buf (o + 0x20) (to_le 4 (stored ri)) /\
  field a b buf (o + 0x28) (to_le 4 nvals) /\
  field a b buf (o + 0x2C) (to_le 4 (stored rv)) /\
  field a b buf (o + 0x4C) (to_le 2 (Z.of_nat (length nb))) /\
  field a b buf (o + 0x50) nb.

Inductive key_at (a b : Z) (buf : list Z) : Z -> HiveKey -> Prop :=
| key_at_intro o nm fl subs vals vks kids ri rv :
    nk_at nm (Z.of_nat (length subs)) (Z.of_nat (length vals)) ri rv a b buf o ->
    offs_ty vks -> vallist_ref vks rv a b buf -> Forall2 (fun o v => value_at v a b buf o) vks vals ->
    offs_ty kids -> index_ref kids ri a b buf -> Forall2 (key_at a b buf) kids subs ->
    key_at a b buf o (mk_key nm fl subs vals).

Lemma nk_at_stable nm nsubs nvals ri rv : stable (nk_at nm nsubs nvals ri rv).
Proof.
  intros a b a' b' buf buf' o. unfold nk_at. destruct (encode_name nm) as [nb ascii].
  intros (H0 & H1 & H2 & H3 & H4 & H5 & H6 & H7) Hag Haa Hbb.
  split_and!; first [ by eapply (cell_head_stable ID_NK) | by eapply (field_stable (to_le _ _))
                    | by eapply (field_stable nb) ].
Qed.

Lemma vallist_ref_stable xs : stable (fun a b buf r => vallist_ref xs r a b buf).
Proof.
  intros a b a' b' buf buf' r H Hag Haa Hbb. unfold vallist_ref in *. case_decide; [done |].
  destruct H as (o & H1 & H2 & H3). exists o. split; [done |]. split; [done |].
  by eapply entries_at_stable.
Qed.

Lemma index_ref_stable kids : stable (fun a b buf r => index_ref kids r a b buf).
Proof.
  intros a b a' b' buf buf' r H Hag Haa Hbb. unfold index_ref in *. case_decide; [done |].
  destruct H as (o & H1 & H2 & H3). exists o. split; [done |]. split; [done |].
  by eapply index_at_stable.
Qed.

Lemma key_at_stable key : stable (fun a b buf o => key_at a b buf o key).
Proof.
  induction key as [nm fl subs vals IH] using HiveKey_tree_ind.
  intros a b a' b' buf buf' o Hk Hag Haa Hbb.
  inversion Hk as [? ? ? ? ? vks kids ri rv Hnk Hvt Hv Hvs Hkt Hi Hks]; subst.
  apply (key_at_intro _ _ _ _ _ _ _ _ vks kids ri rv); [| done | | | done | |].
  - by eapply nk_at_stable.
  - by eapply (vallist_ref_stable vks).
  - eapply Forall2_impl; [exact Hvs |]. intros o' v Hov.
    eapply (value_at_stable v); [exact Hov | done ..].
  - by eapply (index_ref_stable kids).
  - clear - IH Hks Hag Haa Hbb. revert kids Hks.
    induction IH as [| k subs Hk _ IHs]; intros kids Hks; inversion Hks; subst; constructor; [| by apply IHs].
    by eapply Hk.
Qed.

Fixpoint key_fits (key : HiveKey) : bool :=
  let 'mk_key nm _ subs vals := key in
  fits_in_bin (0x50 + Z.of_nat (length (encode_name nm).1)) && forallb value_fits vals &&
  (bool_decide (length vals = 0%nat) || fits_in_bin (4 + Z.of_nat (length vals) * 4)) &&
  (bool_decide (length subs = 0%nat) ||
   (forallb key_fits subs && fits_in_bin (8 + Z.of_nat (length subs) * 8))).

(** A bound on the number of cells of a tree. *)
Fixpoint key_cells (key : HiveKey) : Z :=
  let 'mk_key _ _ subs vals := key in
  3 + msum (fun _ => 2) vals + msum key_cells subs.

Inductive key_ty : HiveKey -> Prop :=
| key_ty_intro nm fl subs vals :
    Forall Text.scalar_ty nm -> Z.of_nat (length nm) < 2 ^ 48 -> Forall value_ty vals ->
    Forall key_ty subs -> key_ty (mk_key nm fl subs vals).

Lemma key_cells_pos key : 3 <= key_cells key.
Proof.
  induction key as [nm fl subs vals IH] using HiveKey_tree_ind. cbn [key_cells].
  assert (0 <= msum (fun _ : HiveValue => 2) vals) by (apply msum_nonneg, Forall_true; lia).
  assert (0 <= msum key_cells subs); [| lia].
  apply msum_nonneg. eapply Forall_impl; [exact IH |]. cbn. lia.
Qed.

Lemma msum_const {A} (c : Z) (l : list A) : msum (fun _ => c) l = c * Z.of_nat (length l).
Proof. induction l as [| x l IH]; rewrite ?msum_nil, ?msum_cons; cbn [length]; lia. Qed.

Lemma msum_length (l : list HiveKey) : Z.of_nat (length l) <= msum key_cells l.
Proof.
  induction l as [| k l IH]; rewrite ?msum_nil, ?msum_cons; cbn [length]; [lia |].
  pose proof (key_cells_pos k). lia.
Qed.

(** Objects that were written are inside the body. *)
Lemma cell_head_range id a b buf o :
  length id = 2%nat -> cell_head id a b buf o -> 0 <= a -> b <= 2 ^ 31 -> 0 <= o < 2 ^ 31.
Proof.
  intros Hid (n & _ & (Ha & Hb & _) & _) H0 Hl. rewrite length_app, length_to_le, Hid in Hb. lia.
Qed.

Lemma value_offs a b buf vks vals :
  Forall2 (fun o v => value_at v a b buf o) vks vals -> 0 <= a -> b <= 2 ^ 31 -> offs_ty vks.
Proof.
  intros H Ha Hb. eapply Forall2_Forall_l; [exact H |]. apply Forall_true. intros v o Hv.
  unfold value_at in Hv. destruct (encode_name _). destruct Hv as (so & Hh & _).
  eapply cell_head_range; [| exact Hh | done ..]; done.
Qed.

Lemma key_offs a b buf kids subs :
  Forall2 (key_at a b buf) kids subs -> 0 <= a -> b <= 2 ^ 31 -> offs_ty kids.
Proof.
  intros H Ha Hb. eapply Forall2_Forall_l; [exact H |]. apply Forall_true. intros k o Hk.
  inversion Hk as [? ? ? ? ? ? ? ? ? Hnk]; subst. unfold nk_at in Hnk. destruct (encode_name _).
  destruct Hnk as [Hh _]. eapply cell_head_range; [| exact Hh | done ..]; done.
Qed.

(** The part of [write_key] between the values and the final patches. *)
Definition write_subkeys (subs : list HiveKey) (nk_off : Z) : M Z :=
  match subs with
  | [] => ret 0
  | _ =>
      let* child_offsets := traverse (fun child => write_key child nk_off) subs in
      write_index child_offsets (key_name <$> subs)
  end.

Lemma write_subkeys_ok subs nk_off w :
  Forall (fun k => forall parent, writes (write_key k parent) (key_fits k) (key_cells k)
                     (fun a b buf o => key_at a b buf o k)) subs ->
  wf w -> len w + 8192 * (1 + msum key_cells subs) <= 2 ^ 31 ->
  if bool_decide (length subs = 0%nat) ||
     (forallb key_fits subs && fits_in_bin (8 + Z.of_nat (length subs) * 8)) then
    exists r kids w', write_subkeys subs nk_off w = Ret (Some (r, w')) /\
      grown w w' (1 + msum key_cells subs) /\ offs_ty kids /\
      index_ref kids r (len w) (len w') (body w') /\
      Forall2 (key_at (len w) (len w') (body w')) kids subs
  else write_subkeys subs nk_off w = Ret None.
Proof.
  intros IH Hw Hl. assert (0 <= len w) by (unfold len; lia).
  destruct (decide (length subs = 0%nat)) as [E | Hne].
  { rewrite bool_decide_true by done. apply length_zero_iff_nil in E as ->. cbn [orb].
    exists 0, [], w. split; [done |]. split; [| split; [constructor | split; [done | constructor]]].
    eapply grown_trans; [by apply grown_refl | by apply grown_refl | cbn; lia]. }
  rewrite bool_decide_false by done. cbn [orb].
  pose proof (msum_length subs) as Hml.
  assert (write_subkeys subs nk_off = (let* child_offsets := traverse (fun child => write_key child nk_off) subs in
    write_index child_offsets (key_name <$> subs))) as -> by (by destruct subs).
  rewrite Forall_forall in IH.
  pose proof (traverse_ok (fun child => write_key child nk_off) key_fits key_cells
    (fun k a b buf o => key_at a b buf o k) subs ltac:(intros k Hk; by apply IH) key_at_stable
    ltac:(intros k _; pose proof (key_cells_pos k); lia) w Hw ltac:(lia)) as Ht.
  destruct (forallb key_fits subs); cbn [andb]; [| by apply bind_none].
  destruct Ht as (kids & w1 & Ht & Hg1 & Hks). rewrite (bind_some _ _ _ _ _ Ht).
  pose proof (grown_len _ _ _ Hg1). assert (wf w1) as Hw1 by apply Hg1.
  assert (offs_ty kids) as Hkt by (eapply key_offs; [exact Hks | lia | lia]).
  pose proof (Forall2_length _ _ _ Hks) as Hkl.
  pose proof (write_index_ok kids (key_name <$> subs) Hkt ltac:(by rewrite length_fmap) ltac:(lia)
    w1 Hw1 ltac:(lia)) as Hi. rewrite Hkl in Hi.
  destruct (fits_in_bin _); [| done].
  destruct Hi as (o & w2 & Hi & Hg2 & Ho & Hat). pose proof (grown_len _ _ _ Hg2).
  exists (4096 + o), kids, w2. split; [done |]. split; [eapply grown_trans; [done | done | lia] |].
  split; [done |]. split.
  - unfold index_ref. rewrite decide_False by (intros ->; cbn in Hkl; lia).
    exists o. split; [done |]. split; [done |].
    eapply index_at_stable; [exact Hat | by intros ? | lia | lia].
  - eapply Forall2_impl; [exact Hks |]. intros k s Hk.
    eapply (key_at_stable s); [exact Hk | apply ext_agree, Hg2 | lia | lia].
Qed.

Lemma write_key_eq nm fl subs vals parent :
  write_key (mk_key nm fl subs vals) parent =
  (let '(nb, ascii) := encode_name nm in
   let* nk_off := append_cell ID_NK (zeros (align_up (0x50 + Z.of_nat (length nb)) 8 - 8)) in
   let* vk_offsets := traverse write_value vals in
   let* vallist_off := write_vallist vk_offsets in
   let* subk_off := write_subkeys subs nk_off in
   let* _ := patch_nk_cell nk_off (mk_key nm fl subs vals) parent subk_off vallist_off vk_offsets ascii in
   ret nk_off).
Proof. cbn [write_key]. destruct (encode_name nm). by destruct subs. Qed.

Lemma stored_ref r : r = 0 \/ (exists o, r = 4096 + o /\ 0 < o < 2 ^ 31) ->
  (if r =? 0 then 0xFFFFFFFF else to_hbin_rel r) = stored r.
Proof.
  intros [-> | (o & -> & Ho)]; [done |]. unfold stored. rewrite !(proj2 (Z.eqb_neq _ _)) by lia.
  rewrite to_hbin_rel_add; lia.
Qed.

Lemma vallist_ref_cases xs r a b buf :
  vallist_ref xs r a b buf -> r = 0 \/ (exists o, r = 4096 + o /\ 0 < o < 2 ^ 31).
Proof. unfold vallist_ref. case_decide; [by left |]. intros (o & -> & Ho & _). right. by exists o. Qed.

Lemma index_ref_cases xs r a b buf :
  index_ref xs r a b buf -> r = 0 \/ (exists o, r = 4096 + o /\ 0 < o < 2 ^ 31).
Proof. unfold index_ref. case_decide; [by left |]. intros (o & -> & Ho & _). right. by exists o. Qed.

(** The final patches turn a reserved cell into the [nk] cell of the key. *)
Lemma patch_nk_cell_ok nm fl subs vals parent ri rv (vks : list Z) a b w1 w o :
  let '(nb, ascii) := encode_name nm in
  let sz := align_up (0x50 + Z.of_nat (length nb)) 8 in
  0 <= o -> Z.of_nat (length nb) < 2 ^ 16 -> Z.of_nat (length subs) < 2 ^ 31 -> length vks = length vals ->
  Z.of_nat (length vals) < 2 ^ 31 -> slot a b o sz -> b <= len w -> len w <= 2 ^ 31 ->
  cell_head ID_NK a b (body w1) o -> ext w1 w ->
  ri = 0 \/ (exists o, ri = 4096 + o /\ 0 < o < 2 ^ 31) ->
  rv = 0 \/ (exists o, rv = 4096 + o /\ 0 < o < 2 ^ 31) ->
  exists w',
    patch_nk_cell (4096 + o) (mk_key nm fl subs vals) parent ri rv (Z.add 4096 <$> vks) ascii w
    = Ret (Some (tt, w')) /\
    upd (o + 6) (o + sz) w w' /\
    nk_at nm (Z.of_nat (length subs)) (Z.of_nat (length vals)) ri rv a (len w') (body w') o.
Proof.
  unfold nk_at, patch_nk_cell. cbn [key_name key_subkeys]. destruct (encode_name nm) as [nb ascii].
  intros H0 Hnb Hsubs Hvk Hvals Hs Hb Hl Hh He Hri Hrv.
  destruct (align_up_bounds_8 (0x50 + Z.of_nat (length nb))) as [Hsz _]; [lia |].
  set (sz := align_up _ _) in *.
  assert (o + sz <= b) as Hsb by apply Hs.
  rewrite file_rel32 by lia. rewrite (stored_ref ri), (stored_ref rv) by done.
  rewrite length_fmap, Hvk, !(wrap_small 32), (wrap_small 16) by (unfold u_ty; lia).
  match goal with |- context [patch_all ?l] => set (ps := l) end.
  destruct (patch_all_ok (o + 6) (o + sz) ps w) as (w' & Hp & Hu & Hf); [| lia | lia |].
  { unfold ps. cbn [in_order]. rewrite !length_to_le.
    unfold Hive.NK_FLAGS, NK_PARENT, Hive.NK_NR_SUBKEYS, Hive.NK_SUBKEY_LF, Hive.NK_NR_VALUES,
      Hive.NK_VALLIST, Hive.NK_NAME_LEN, Hive.NK_NAME. lia. }
  exists w'. split; [done |]. split; [done |]. assert (len w' = len w) as Hl' by apply Hu.
  assert (slot a (len w') o sz) as Hs' by (eapply slot_widen; [exact Hs | lia | lia]).
  split_and!.
  - eapply cell_head_kept; [done | exact Hh | exact He | exact Hu | lia].
  - patched o sz ps 0%nat.
  - patched o sz ps 2%nat.
  - patched o sz ps 3%nat.
  - patched o sz ps 4%nat.
  - patched o sz ps 5%nat.
  - patched o sz ps 6%nat.
  - patched o sz ps 7%nat.
Qed.

Lemma write_key_ok key :
  key_ty key -> forall parent, writes (write_key key parent) (key_fits key) (key_cells key)
    (fun a b buf o => key_at a b buf o key).
Proof.
  induction key as [nm fl subs vals IH] using HiveKey_tree_ind. intros Hty parent w Hw Hl.
  inversion Hty as [? ? ? ? _ Hnm Hvt Hst]; subst.
  assert (Forall (fun k => forall parent, writes (write_key k parent) (key_fits k) (key_cells k)
                     (fun a b buf o => key_at a b buf o k)) subs) as IH'.
  { clear - IH Hst. induction IH; inversion Hst; subst; constructor; auto. }
  clear IH Hst. rewrite write_key_eq. cbn [key_fits]. cbn [key_cells] in Hl |- *.
  pose proof (length_encode_name nm) as Hnb.
  pose proof (fun ri rv vks a b w1 w o => patch_nk_cell_ok nm fl subs vals parent ri rv vks a b w1 w o) as Hpatch.
  destruct (encode_name nm) as [nb ascii] eqn:Een. cbn [fst] in *.
  rewrite msum_const in *. pose proof (msum_length subs). assert (0 <= len w) by (unfold len; lia).
  pose proof (append_cell_ok ID_NK (0x50 + Z.of_nat (length nb)) w eq_refl ltac:(lia) Hw ltac:(lia)) as Ha.
  cbv zeta in Ha. destruct (fits_in_bin (80 + Z.of_nat (length nb))) eqn:Hfit; cbn [andb];
    [| by apply bind_none].
  destruct (align_up_bounds_8 (0x50 + Z.of_nat (length nb))) as [Hsz _]; [lia |].
  unfold fits_in_bin in Hfit. apply Z.leb_le in Hfit. set (sz := align_up _ _) in *.
  destruct Ha as (o & w1 & Ha & Hg1 & Ho & Hs & Hh). rewrite (bind_some _ _ _ _ _ Ha).
  pose proof (grown_len _ _ _ Hg1). assert (wf w1) as Hw1 by apply Hg1. assert (len w <= o) by apply Hs.
  rewrite Forall_forall in Hvt.
  pose proof (traverse_ok write_value value_fits (fun _ => 2) value_at vals
    ltac:(intros v Hv; by apply write_value_ok, Hvt) value_at_stable ltac:(intros; lia) w1 Hw1) as Ht.
  rewrite msum_const in Ht. specialize (Ht ltac:(lia)).
  destruct (forallb value_fits vals); cbn [andb]; [| by apply bind_none].
  destruct Ht as (vks & w2 & Ht & Hg2 & Hvs). rewrite (bind_some _ _ _ _ _ Ht).
  pose proof (grown_len _ _ _ Hg2). assert (wf w2) as Hw2 by apply Hg2.
  pose proof (Forall2_length _ _ _ Hvs) as Hvl.
  assert (offs_ty vks) as Hvo by (eapply value_offs; [exact Hvs | lia | lia]).
  pose proof (write_vallist_ok vks w2 Hvo ltac:(lia) Hw2 ltac:(lia)) as Hv. rewrite Hvl in Hv.
  replace (bool_decide (vks = [])) with (bool_decide (length vals = 0%nat)) in Hv
    by (apply bool_decide_ext; rewrite <- Hvl; apply length_zero_iff_nil).
  destruct (bool_decide (length vals = 0%nat) || _); cbn [andb]; [| by apply bind_none].
  destruct Hv as (rv & w3 & Hv & Hg3 & Hrv). rewrite (bind_some _ _ _ _ _ Hv).
  pose proof (grown_len _ _ _ Hg3). assert (wf w3) as Hw3 by apply Hg3.
  pose proof (write_subkeys_ok subs (4096 + o) w3 IH' Hw3 ltac:(lia)) as Hk.
  destruct (bool_decide (length subs = 0%nat) || _); [| by apply bind_none].
  destruct Hk as (ri & kids & w4 & Hk & Hg4 & Hkt & Hri & Hks). rewrite (bind_some _ _ _ _ _ Hk).
  pose proof (grown_len _ _ _ Hg4).
  destruct (Hpatch ri rv vks (len w) (len w1) w1 w4 o) as (w5 & Hp & Hu & Hnk);
    [lia | lia | lia | done | lia | done | lia | lia | done | | by eapply index_ref_cases
    | by eapply vallist_ref_cases |].
  { eapply ext_trans; [apply Hg2 |]. eapply ext_trans; [apply Hg3 | apply Hg4]. }
  rewrite (bind_some _ _ _ _ _ Hp). assert (len w5 = len w4) as Hl5 by apply Hu.
  assert (ext w2 w4) as He24 by (eapply ext_trans; [apply Hg3 | apply Hg4]).
  assert (forall a b, len w1 <= a -> agree a b (body w4) (body w5)) as Hag.
  { intros a b Hab. eapply upd_agree; [exact Hu | lia]. }
  exists o, w5. split; [done |]. split.
  { eapply grown_upd; [| exact Hu | lia].
    eapply grown_trans; [exact Hg1 |
      eapply grown_trans; [exact Hg2 | eapply grown_trans; [exact Hg3 | exact Hg4 | reflexivity] | reflexivity] | lia]. }
  apply (key_at_intro _ _ _ _ _ _ _ _ vks kids ri rv); [done | done | | | done | |].
  - eapply (vallist_ref_stable vks); [exact Hrv | | lia | lia].
    intros i x Hi Hm Hx. apply (Hag (len w2) (len w3) ltac:(lia) i x Hi Hm). by apply Hg4.
  - eapply Forall2_impl; [exact Hvs |]. intros vo v Hvo'.
    eapply (value_at_stable v); [exact Hvo' | | lia | lia].
    intros i x Hi Hm Hx. apply (Hag (len w1) (len w2) ltac:(lia) i x Hi Hm). by apply He24.
  - eapply (index_ref_stable kids); [exact Hri | apply Hag; lia | lia | lia].
  - eapply Forall2_impl; [exact Hks |]. intros k s Hks'.
    eapply (key_at_stable s); [exact Hks' | apply Hag; lia | lia | lia].
Qed.

End HiveLayout.
