(* ===== verification/HiveRoundtrip.v ===== *)
(** * Reading back a written hive

    Composes the writer of [HiveWriter] with the reader of [Hive]: the layout lemmas of
    [HiveLayout] say what the body holds, and the lemmas here say what the reader makes of
    it. [represents] relates a node of an open hive to a key tree. *)

From S2P Require Import Prelude Text Hive HiveWriter HiveLayout.

Module HiveRoundtrip.

Import HiveWriter HiveLayout.
Import Hive(Hive, KeyNode, Value, mk_hive, mk_node, mk_value, bytes, root_offset, node_offset, node_name,
  node_flags, HBIN_BASE, ok, err, try, read_u16, read_u32, read_i32, sub_slice, parse, root, subkeys,
  values, find_subkey, find_value, open_path, ID_NK, ID_VK, ID_LH).

(** ** Specification *)

Definition to_value (v : HiveValue) : Value := mk_value (hv_name v) (hv_type v) (hv_data v).

(** The node has the name, the values and, recursively, the subkeys of the key. *)
Inductive represents (h : Hive) : KeyNode -> HiveKey -> Prop :=
| represents_intro n nm fl subs vals nodes :
    node_name n = nm ->
    node_flags n = (if (encode_name nm).2 then 0x20 else 0) ->
    values h n = ok (to_value <$> vals) ->
    (forall fuel, subkeys fuel h n = ok nodes) ->
    Forall2 (represents h) nodes subs ->
    represents h n (mk_key nm fl subs vals).

(** The key at the end of a path: the first child of each name. *)
Fixpoint lookup_path (key : HiveKey) (path : list (list Z)) : option HiveKey :=
  match path with
  | [] => Some key
  | c :: path =>
      k ← List.find (fun k => bool_decide (key_name k = c)) (key_subkeys key); lookup_path k path
  end.

(** ** Fields of the file *)

Section Reading.
Context (hdr buf : list Z) (a b : Z).
Context (Hhdr : Z.of_nat (length hdr) = 4096) (Ha : 0 <= a) (Hb : b <= Z.of_nat (length buf))
  (Hlim : b <= 2 ^ 31).

Notation file := (hdr ++ buf).

Lemma drop_file o : 0 <= o -> drop (Z.to_nat (4096 + o)) file = drop (Z.to_nat o) buf.
Proof.
  intros. replace (Z.to_nat (4096 + o)) with (length hdr + Z.to_nat o)%nat by lia.
  by rewrite <- drop_drop, drop_app_length.
Qed.

Lemma field_range o bs : field a b buf o bs ->
  0 <= o /\ o + Z.of_nat (length bs) <= b /\ 4096 + o + Z.of_nat (length bs) <= Z.of_nat (length file).
Proof. intros [(H1 & H2 & _) [H0 _]]. rewrite length_app. lia. Qed.

Lemma read_u32_field o x :
  field a b buf o (to_le 4 x) -> u_ty 32 x -> read_u32 file (4096 + o) = Some x.
Proof.
  intros H Hx. pose proof (field_range _ _ H) as (H0 & _ & Hl). rewrite length_to_le in Hl.
  unfold read_u32. rewrite (proj2 (Z.ltb_ge _ _)) by lia. rewrite drop_file by done.
  destruct H as [_ H%field_at_take]. rewrite length_to_le in H. by rewrite H, from_to_le.
Qed.

Lemma read_u16_field o x :
  field a b buf o (to_le 2 x) -> u_ty 16 x -> read_u16 file (4096 + o) = Some x.
Proof.
  intros H Hx. pose proof (field_range _ _ H) as (H0 & _ & Hl). rewrite length_to_le in Hl.
  unfold read_u16. rewrite (proj2 (Z.ltb_ge _ _)) by lia. rewrite drop_file by done.
  destruct H as [_ H%field_at_take]. rewrite length_to_le in H. by rewrite H, from_to_le.
Qed.

Lemma sub_slice_field o bs n :
  field a b buf o bs -> n = Z.of_nat (length bs) -> sub_slice file (4096 + o) (4096 + o + n) = Ret bs.
Proof.
  intros H ->. pose proof (field_range _ _ H) as (H0 & _ & Hl).
  unfold sub_slice. rewrite slice_in by lia. rewrite drop_file by done.
  replace (Z.to_nat (4096 + o + Z.of_nat (length bs)) - Z.to_nat (4096 + o))%nat with (length bs) by lia.
  destruct H as [_ H%field_at_take]. by rewrite H.
Qed.

(** The head of a cell passes the checks of the readers. *)
Lemma cell_head_read id o :
  length id = 2%nat -> cell_head id a b buf o ->
  (exists n, 0 < n /\ read_i32 file (4096 + o) = Some (- n)) /\
  sub_slice file (4096 + o + 4) (4096 + o + 6) = Ret id.
Proof.
  intros Hid (n & Hn & Hs & Hf). rewrite length_app, length_to_le, Hid in Hs.
  apply field_at_app in Hf as [H1 H2]. rewrite length_to_le in H2. split.
  - exists n. split; [lia |].
    assert (field a b buf o (to_le 4 (wrap 32 (- n)))) as H.
    { split; [| done]. rewrite length_to_le. replace o with (o + 0) by lia.
      apply (slot_sub _ _ _ 6); [done | lia ..]. }
    pose proof (read_u32_field _ _ H ltac:(auto with nt)) as Hr. unfold read_u32 in Hr. unfold read_i32.
    case_match; [done |]. injection Hr as ->. f_equal. unfold to_signed, wrap.
    rewrite Z.mod_mod by lia. rewrite <- (Z.mod_add (- n) 1), Z.mod_small by lia.
    rewrite (proj2 (Z.ltb_ge _ _)); lia.
  - replace (4096 + o + 4) with (4096 + (o + 4)) by lia.
    replace (4096 + o + 6) with (4096 + (o + 4) + 2) by lia.
    apply sub_slice_field; [| by rewrite Hid]. split; [| done]. rewrite Hid.
    apply (slot_sub _ _ _ 6); [done | lia ..].
Qed.

Lemma cell_head_off id o : cell_head id a b buf o -> 0 <= o < 2 ^ 31.
Proof.
  intros (n & _ & (H1 & H2 & _) & _). rewrite length_app, length_to_le in H2. lia.
Qed.

Lemma decode_name nm :
  Forall Text.scalar_ty nm ->
  let '(nb, ascii) := encode_name nm in
  (if ascii then Text.from_utf8_lossy nb else Hive.decode_hive_name nb) = nm.
Proof.
  intros Hnm. unfold encode_name. destruct (forallb _ nm) eqn:E; [by apply Text.utf8_roundtrip |].
  unfold Hive.decode_hive_name. rewrite decide_False.
  - rewrite Text.length_units_bytes.
    replace (Z.of_nat (2 * length (Text.encode_utf16 nm)) mod 2) with 0.
    + cbn [negb Z.eqb]. rewrite Text.le_units_bytes, Text.utf16_roundtrip by (try done; by apply Text.encode_utf16_units).
      done.
    + rewrite Nat2Z.inj_mul, Z.mul_comm. symmetry. by apply Z.mod_mul.
  - intros Hnil. apply (f_equal length) in Hnil. rewrite Text.length_units_bytes in Hnil.
    destruct nm as [| c nm]; [done |]. unfold Text.encode_utf16 in Hnil. rewrite bind_cons, length_app in Hnil.
    unfold Text.utf16_char in Hnil. case_match; cbn in Hnil; lia.
Qed.

Lemma read_name_field nm o :
  Forall Text.scalar_ty nm ->
  let '(nb, ascii) := encode_name nm in
  field a b buf o nb ->
  Hive.read_name file ascii (4096 + o) (Z.of_nat (length nb)) = Ret nm.
Proof.
  intros Hnm. pose proof (decode_name nm Hnm) as Hd. destruct (encode_name nm) as [nb ascii].
  intros Hf. unfold Hive.read_name. rewrite (sub_slice_field _ _ _ Hf eq_refl). cbn. by rewrite Hd.
Qed.

Section Objects.
Context (h : Hive) (Hfile : bytes h = file).

Lemma read_nk_field nm nsubs nvals ri rv o :
  Forall Text.scalar_ty nm -> nk_at nm nsubs nvals ri rv a b buf o ->
  Hive.read_nk h (4096 + o)
  = ok (mk_node (4096 + o) nm (if (encode_name nm).2 then 0x20 else 0)).
Proof.
  intros Hnm Hat. pose proof (read_name_field nm (o + 0x50) Hnm) as Hrn. unfold nk_at in Hat.
  destruct (encode_name nm) as [nb ascii] eqn:Een. cbn [snd].
  destruct Hat as (Hh & Hfl & _ & _ & _ & _ & Hnl & Hnb). specialize (Hrn Hnb).
  destruct (cell_head_read ID_NK o eq_refl Hh) as [(n & Hn & Hi) Hid].
  pose proof (cell_head_off _ _ Hh) as Ho.
  pose proof (field_range _ _ Hnb) as (_ & Hr1 & Hr2). pose proof (proj1 Hnb) as (_ & _ & Hpg).
  assert (Z.of_nat (length nb) <= 4096) by (destruct (length nb); [lia |]; destruct Hpg; lia).
  unfold Hive.read_nk. rewrite Hfile.
  unfold Hive.NK_NAME, Hive.NK_FLAGS, Hive.NK_NAME_LEN. rewrite (proj2 (Z.ltb_ge _ _)) by lia.
  rewrite Hi. cbn [Hive.ok_or Hive.try ok mbind outcome_bind]. rewrite (proj2 (Z.leb_gt _ _)) by lia.
  rewrite Hid. cbn [mbind outcome_bind]. rewrite bool_decide_false by naive_solver.
  replace (4096 + o + 6) with (4096 + (o + 6)) by lia. replace (4096 + o + 76) with (4096 + (o + 76)) by lia.
  replace (4096 + o + 80) with (4096 + (o + 80)) by lia.
  rewrite (read_u16_field _ _ Hfl) by (destruct ascii; by unfold u_ty).
  rewrite (read_u16_field _ _ Hnl) by (unfold u_ty; lia).
  cbn [Hive.ok_or Hive.try ok mbind outcome_bind]. rewrite (proj2 (Z.ltb_ge _ _)) by lia.
  replace (has_bits (if ascii then 32 else 0) Hive.NK_FLAG_ASCII_NAME) with ascii by (by destruct ascii).
  rewrite Hrn. cbn [mbind outcome_bind]. rewrite wrap_small by (unfold u_ty; lia). done.
Qed.

Lemma from_to_u32 t : Hive.from_u32 (Hive.to_u32 t) = t.
Proof. by destruct t. Qed.

Lemma to_u32_ty t : u_ty 32 (Hive.to_u32 t).
Proof. destruct t; by unfold u_ty. Qed.

Lemma inline_flag n : 0 <= n < 2 ^ 31 ->
  has_bits (0x80000000 + n) 0x80000000 = true /\
  Z.land (0x80000000 + n) (wnot 32 0x80000000) = n.
Proof.
  intros Hn. change 0x80000000 with (1 * 2 ^ 31). rewrite <- lor_mul_add by (unfold u_ty; lia).
  assert (forall i, 31 <= i -> Z.testbit n i = false) as Hhi by (intros; by apply (u_ty_testbit 31)).
  split.
  - rewrite Z.mul_1_l, has_bits_pow2, Z.lor_spec, Z.pow2_bits_true by lia. done.
  - rewrite Z.mul_1_l. apply Z.bits_inj'. intros i Hi.
    rewrite Z.land_spec, Z.lor_spec, wnot_testbit, Z.pow2_bits_eqb by lia.
    destruct (Z.eqb_spec 31 i) as [<- | Hne]; cbn [negb orb andb].
    + rewrite andb_false_r. by rewrite Hhi.
    + destruct (Z.ltb_spec i 32); [by rewrite andb_true_r |].
      rewrite andb_false_l, andb_false_r. by rewrite Hhi by lia.
Qed.

Lemma outline_flag n : 0 <= n < 2 ^ 31 ->
  has_bits n 0x80000000 = false /\ Z.land n (wnot 32 0x80000000) = n.
Proof.
  intros Hn.
  assert (forall i, 31 <= i -> Z.testbit n i = false) as Hhi by (intros; by apply (u_ty_testbit 31)).
  change 0x80000000 with (2 ^ 31). split.
  - rewrite has_bits_pow2 by lia. by apply Hhi.
  - apply Z.bits_inj'. intros i Hi. rewrite Z.land_spec, wnot_testbit, Z.pow2_bits_eqb by lia.
    destruct (Z.eqb_spec 31 i) as [<- | Hne]; cbn [negb].
    + rewrite andb_false_r. by rewrite Hhi.
    + destruct (Z.ltb_spec i 32); [by rewrite andb_true_r |].
      rewrite andb_false_l, andb_false_r. by rewrite Hhi by lia.
Qed.

(** The stored size and offset of the data lead back to the data. *)
Lemma read_data_field data so :
  Forall byte_ty data -> data_at data a b buf so ->
  u_ty 32 so.1 /\ u_ty 32 so.2 /\
  Hive.read_data file so.1 so.2 = ok data.
Proof.
  intros Hd Hat. unfold data_at in Hat. unfold Hive.read_data, Hive.VK_DATA_INLINE_FLAG, Hive.VK_INLINE_MAX, HBIN_BASE.
  destruct (Z.leb_spec (Z.of_nat (length data)) 4) as [Hs | Hs].
  - subst so. cbn [fst snd].
    destruct (inline_flag (Z.of_nat (length data)) ltac:(lia)) as [-> ->].
    set (le := data ++ zeros (4 - Z.of_nat (length data))).
    assert (length le = 4%nat) as Hle.
    { unfold le. rewrite length_app. unfold zeros. rewrite length_replicate. lia. }
    assert (Forall byte_ty le) as Hty.
    { apply Forall_app. split; [done |]. apply Forall_replicate. by unfold byte_ty, u_ty. }
    split; [unfold u_ty; lia |]. split; [pose proof (from_le_ty le Hty) as Ht; by rewrite Hle in Ht |].
    rewrite <- Hle at 1. rewrite to_from_le by done.
    rewrite Z.min_l, Nat2Z.id by lia. rewrite slice_in by lia.
    rewrite drop_0, Nat.sub_0_r. unfold le. by rewrite take_app_length.
  - destruct Hat as (-> & Hso & Hf). pose proof (field_range _ _ Hf) as (_ & Hr1 & Hr2).
    destruct (outline_flag (Z.of_nat (length data)) ltac:(lia)) as [-> ->].
    split; [unfold u_ty; lia |]. split; [unfold u_ty; lia |].
    rewrite (proj2 (Z.ltb_ge _ _)) by lia. by rewrite (sub_slice_field _ _ _ Hf eq_refl).
Qed.

Lemma read_vk_field v o :
  value_ty v -> value_at v a b buf o -> Hive.read_vk h (4096 + o) = ok (to_value v).
Proof.
  intros (Hnm & Hd & _) Hat. pose proof (read_name_field (hv_name v) (o + 0x18) Hnm) as Hrn.
  unfold value_at in Hat. destruct (encode_name (hv_name v)) as [nb ascii].
  destruct Hat as (so & Hh & Hnl & Hsz & Hof & Hty & Hfl & Hnb & Hdata). specialize (Hrn Hnb).
  destruct (read_data_field _ _ Hd Hdata) as (Ht1 & Ht2 & Hrd). clear Hdata.
  destruct (cell_head_read ID_VK o eq_refl Hh) as [(n & Hn & Hi) Hid].
  pose proof (field_range _ _ Hnb) as (_ & Hr1 & Hr2). pose proof (proj1 Hnb) as (_ & _ & Hpg).
  assert (Z.of_nat (length nb) <= 4096) by (destruct (length nb); [lia |]; destruct Hpg; lia).
  unfold Hive.read_vk. rewrite Hfile.
  unfold Hive.VK_NAME, Hive.VK_NAME_LEN, Hive.VK_DATA_SIZE, Hive.VK_DATA_OFFSET, Hive.VK_DATA_TYPE, Hive.VK_FLAGS.
  rewrite (proj2 (Z.ltb_ge _ _)) by lia.
  rewrite Hi. cbn [Hive.ok_or Hive.try ok mbind outcome_bind]. rewrite (proj2 (Z.leb_gt _ _)) by lia.
  rewrite Hid. cbn [mbind outcome_bind]. rewrite bool_decide_false by naive_solver.
  rewrite <- !Z.add_assoc.
  rewrite (read_u16_field _ _ Hnl) by (unfold u_ty; lia).
  rewrite (read_u32_field _ _ Hsz), (read_u32_field _ _ Hof) by done.
  rewrite (read_u32_field _ _ Hty) by apply to_u32_ty.
  rewrite (read_u32_field _ _ Hfl) by (destruct ascii; by unfold u_ty).
  cbn [Hive.ok_or Hive.try ok mbind outcome_bind]. rewrite (proj2 (Z.ltb_ge _ _)) by lia.
  replace (has_bits (if ascii then 1 else 0) Hive.VK_FLAG_ASCII_NAME) with ascii by (by destruct ascii).
  rewrite Hrn. cbn [mbind outcome_bind]. rewrite Hrd. cbn. by rewrite from_to_u32.
Qed.

Lemma entries_cons step x xs base :
  entries_at step (x :: xs) a b buf base ->
  field a b buf base (to_le 4 x) /\ entries_at step xs a b buf (base + step).
Proof.
  intros H. split.
  - replace base with (base + step * Z.of_nat 0) by lia. by apply H.
  - intros i y Hy. replace (base + step + step * Z.of_nat i) with (base + step * Z.of_nat (S i)) by lia.
    by apply H.
Qed.

Lemma value_loop_ok vks vals base acc :
  Forall value_ty vals -> offs_ty vks -> Forall2 (fun o v => value_at v a b buf o) vks vals ->
  entries_at 4 vks a b buf base ->
  Hive.value_loop (length vks) h (4096 + base) acc = ok (acc ++ (to_value <$> vals)).
Proof.
  intros Hty Ho Hvs. revert base acc. induction Hvs as [| o v vks vals Hv Hvs IH]; intros base acc He.
  { cbn. by rewrite app_nil_r. }
  inversion Hty; subst. inversion Ho; subst. apply entries_cons in He as [Hf He].
  cbn [length Hive.value_loop]. rewrite Hfile, (read_u32_field _ _ Hf) by (unfold u_ty; lia).
  cbn [Hive.ok_or Hive.try ok mbind outcome_bind]. unfold HBIN_BASE. rewrite (read_vk_field v) by done.
  cbn [mbind outcome_bind ok]. replace (4096 + base + 4) with (4096 + (base + 4)) by lia.
  rewrite IH by done. by rewrite <- app_assoc.
Qed.

Lemma stored_ty xs r : vallist_ref xs r a b buf \/ index_ref xs r a b buf -> u_ty 32 (stored r).
Proof.
  intros H. assert (r = 0 \/ (exists o, r = 4096 + o /\ 0 < o < 2 ^ 31)) as [-> | (o & -> & Ho)].
  { destruct H; [by eapply vallist_ref_cases | by eapply index_ref_cases]. }
  - by vm_compute.
  - unfold stored, u_ty. rewrite (proj2 (Z.eqb_neq _ _)); lia.
Qed.

Lemma values_ok nm subs nvals ri rv vks vals o fl :
  nk_at nm subs nvals ri rv a b buf o -> nvals = Z.of_nat (length vals) -> nvals < 2 ^ 31 ->
  Forall value_ty vals -> offs_ty vks -> vallist_ref vks rv a b buf ->
  Forall2 (fun o v => value_at v a b buf o) vks vals ->
  values h (mk_node (4096 + o) nm fl) = ok (to_value <$> vals).
Proof.
  intros Hat -> Hn Hty Ho Hrv Hvs. pose proof (Forall2_length _ _ _ Hvs) as Hl.
  unfold nk_at in Hat. destruct (encode_name nm) as [nb ascii].
  destruct Hat as (_ & _ & _ & _ & Hnv & Hvl & _ & _).
  unfold values, Hive.NK_NR_VALUES, Hive.NK_VALLIST. rewrite Hfile. cbn [node_offset].
  rewrite <- !Z.add_assoc. rewrite (read_u32_field _ _ Hnv) by (unfold u_ty; lia).
  rewrite (read_u32_field _ _ Hvl) by (eapply stored_ty; by left).
  cbn [Hive.ok_or Hive.try ok mbind outcome_bind].
  unfold vallist_ref in Hrv. case_decide as Hd.
  { subst vks. destruct vals; [| done]. done. }
  assert (vals <> []) by (by intros ->; apply nil_length_inv in Hl).
  destruct Hrv as (vl & -> & Hvl' & He). unfold stored, Hive.NO_OFFSET, HBIN_BASE.
  rewrite (proj2 (Z.eqb_neq (4096 + vl) 0)) by lia. replace (4096 + vl - 4096) with vl by lia.
  rewrite !(proj2 (Z.eqb_neq _ _)) by (try destruct vals; cbn; (done || lia)). cbn [orb].
  assert (4096 + (vl + 4) + Z.of_nat (length vals) * 4 <= Z.of_nat (length file)) as Hle.
  { destruct (lookup_lt_is_Some_2 vks (length vks - 1)) as [x Hx]; [destruct vks; [done | cbn; lia] |].
    pose proof (field_range _ _ (He _ _ Hx)) as (_ & _ & Hr). rewrite length_to_le in Hr.
    destruct vks; [done |]. cbn [length] in *. lia. }
  rewrite (proj2 (Z.ltb_ge _ _)) by lia. rewrite Nat2Z.id, <- Hl, <- Z.add_assoc.
  rewrite (value_loop_ok vks vals) by done. done.
Qed.

Lemma entry_loop_ok xs base acc :
  offs_ty xs -> entries_at 8 xs a b buf base ->
  Hive.entry_loop (length xs) file (4096 + base) 8 acc = ok (acc ++ (Z.add 4096 <$> xs)).
Proof.
  intros Ho. revert base acc. induction Ho as [| x xs Hx Ho IH]; intros base acc He.
  { cbn. by rewrite app_nil_r. }
  apply entries_cons in He as [Hf He]. cbn [length Hive.entry_loop].
  pose proof (field_range _ _ Hf) as (_ & _ & Hr). rewrite length_to_le in Hr.
  rewrite (proj2 (Z.ltb_ge _ _)) by lia. rewrite (read_u32_field _ _ Hf) by (unfold u_ty; lia).
  cbn [Hive.ok_or Hive.try ok mbind outcome_bind]. unfold HBIN_BASE.
  replace (4096 + base + 8) with (4096 + (base + 8)) by lia. rewrite IH by done. by rewrite <- app_assoc.
Qed.

Lemma push_ok_map {A B} (read : Z -> outcome (A + CellAllocator.CellAllocator.HiveError)) (f : B -> A) offs xs acc :
  Forall2 (fun o x => read o = ok (f x)) offs xs ->
  Hive.push_ok read offs acc = ok (acc ++ (f <$> xs)).
Proof.
  intros H. revert acc. induction H as [| o x offs xs Hr H IH]; intros acc; cbn [Hive.push_ok].
  { by rewrite app_nil_r. }
  rewrite Hr. cbn [mbind outcome_bind ok]. rewrite IH. by rewrite <- app_assoc.
Qed.

(** The node that [read_nk] returns for the key at [o]. *)
Definition node_of (ok : Z * HiveKey) : KeyNode :=
  mk_node (4096 + ok.1) (key_name ok.2) (if (encode_name (key_name ok.2)).2 then 0x20 else 0).

Lemma subkeys_ok nm nsubs nvals ri rv kids subs o fl fuel :
  nk_at nm nsubs nvals ri rv a b buf o -> nsubs = Z.of_nat (length subs) -> nsubs < 2 ^ 16 ->
  Forall key_ty subs -> offs_ty kids -> index_ref kids ri a b buf -> Forall2 (key_at a b buf) kids subs ->
  subkeys fuel h (mk_node (4096 + o) nm fl) = ok (node_of <$> zip kids subs).
Proof.
  intros Hat -> Hn Hty Ho Hri Hks. pose proof (Forall2_length _ _ _ Hks) as Hl.
  unfold nk_at in Hat. destruct (encode_name nm) as [nb ascii].
  destruct Hat as (_ & _ & Hns & Hsl & _ & _ & _ & _).
  unfold subkeys, Hive.offset_field, Hive.NK_NR_SUBKEYS, Hive.NK_SUBKEY_LF. rewrite Hfile. cbn [node_offset].
  rewrite <- !Z.add_assoc. rewrite (read_u32_field _ _ Hns) by (unfold u_ty; lia).
  rewrite (read_u32_field _ _ Hsl) by (eapply stored_ty; by right).
  cbn [Hive.ok_or Hive.try ok mbind outcome_bind].
  unfold index_ref in Hri. case_decide as Hd.
  { subst kids. by destruct subs. }
  assert (subs <> []) by (by intros ->; apply nil_length_inv in Hl).
  rewrite (proj2 (Z.eqb_neq _ _)) by (destruct subs; cbn; (done || lia)).
  destruct Hri as (io & -> & Hio & Hh & Hnr & He). unfold stored, Hive.NO_OFFSET, HBIN_BASE.
  rewrite (proj2 (Z.eqb_neq (4096 + io) 0)) by lia. replace (4096 + io - 4096) with io by lia.
  rewrite !(proj2 (Z.eqb_neq _ _)) by lia. cbn [orb].
  pose proof (field_range _ _ Hnr) as (_ & _ & Hr). rewrite length_to_le in Hr.
  rewrite (proj2 (Z.ltb_ge _ _)) by lia.
  destruct (cell_head_read ID_LH io eq_refl Hh) as [_ ->]. cbn [mbind outcome_bind].
  unfold Hive.read_index. rewrite bool_decide_false by done. rewrite bool_decide_true by done. cbn [orb].
  unfold Hive.read_lf_lh. rewrite Hfile, <- !Z.add_assoc.
  rewrite (read_u16_field _ _ Hnr) by (unfold u_ty; lia).
  cbn [Hive.ok_or Hive.try ok mbind outcome_bind]. rewrite Nat2Z.id, (entry_loop_ok kids) by done.
  cbn [Hive.try ok mbind outcome_bind app]. rewrite (push_ok_map _ node_of _ (zip kids subs)); [done |].
  clear - Hks Hty Hfile Ha Hb Hlim Hhdr. induction Hks as [| k s kids subs Hk Hks IH]; [constructor |].
  inversion Hty as [| ? ? Hs Hss]; subst. cbn [zip zip_with fmap list_fmap]. constructor; [| by apply IH].
  inversion Hk as [? nm' ? ? ? ? ? ? ? Hnk]; subst. inversion Hs; subst.
  unfold node_of. cbn [fst snd key_name]. by eapply read_nk_field.
Qed.

(** What is in the body is what the reader sees. *)
Lemma key_at_represents key o :
  key_ty key -> key_fits key = true -> 8192 * key_cells key <= 2 ^ 31 -> key_at a b buf o key ->
  represents h (node_of (o, key)) key.
Proof.
  revert o. induction key as [nm fl subs vals IH] using HiveKey_tree_ind. intros o Hty Hfit Hcells Hk.
  inversion Hty as [? ? ? ? Hnm Hnl Hvt Hst]; subst.
  inversion Hk as [? ? ? ? ? vks kids ri rv Hnk Hvo Hrv Hvs Hko Hri Hks]; subst.
  cbn [key_fits] in Hfit. rewrite !andb_true_iff in Hfit. destruct Hfit as (_ & Hfs).
  cbn [key_cells] in Hcells. rewrite msum_const in Hcells. pose proof (msum_length subs) as Hml.
  assert (Forall (fun k => key_fits k = true) subs /\ Z.of_nat (length subs) < 2 ^ 16) as [Hfs' Hsn].
  { apply orb_true_iff in Hfs as [E | E].
    - apply bool_decide_eq_true, length_zero_iff_nil in E as ->. split; [constructor | done].
    - apply andb_true_iff in E as [E1 E2]. unfold fits_in_bin in E2. apply Z.leb_le in E2.
      destruct (align_up_bounds_8 (8 + Z.of_nat (length subs) * 8)); [lia |].
      split; [| lia]. apply Forall_forall. intros k Hin. rewrite forallb_forall in E1.
      by apply E1, list_elem_of_In. }
  assert (Forall (fun k => key_cells k <= msum key_cells subs) subs) as Hcs.
  { apply Forall_forall. intros k Hin. apply (msum_elem key_cells); [| done].
    apply Forall_true. intros k'. pose proof (key_cells_pos k'). lia. }
  apply (represents_intro _ _ _ _ _ _ (node_of <$> zip kids subs));
    unfold node_of; cbn [key_name fst snd node_name node_flags].
  - done.
  - done.
  - eapply values_ok; [exact Hnk | done | lia | exact Hvt | exact Hvo | exact Hrv | exact Hvs].
  - intros fuel. eapply subkeys_ok; [exact Hnk | done | done | exact Hst | exact Hko | exact Hri | exact Hks].
  - assert (8192 * msum key_cells subs <= 2 ^ 31) as Hms by lia.
    clear - IH Hst Hks Hfs' Hcs Hms. fold node_of. revert kids Hks.
    generalize dependent (msum key_cells subs). intros m Hcs Hms.
    induction IH as [| k subs Hk _ IHs]; intros kids Hks; inversion Hks; subst; [constructor |].
    inversion Hst; subst. inversion Hfs'; subst. inversion Hcs; subst.
    cbn [zip zip_with fmap list_fmap]. constructor; [apply Hk; (done || lia) | by apply IHs].
Qed.

End Objects.
End Reading.

(** ** The frame of the file *)

Lemma stamps_in_order s n :
  in_order (4096 * Z.of_nat s) (4096 * Z.of_nat (s + n))
    (((fun k => 4096 * Z.of_nat k) <$> seq s n) ≫= stamp).
Proof.
  revert s. induction n as [| n IH]; intros s; cbn [seq fmap list_fmap].
  { cbn. lia. }
  rewrite bind_cons. cbn [app in_order stamp]. rewrite !length_to_le. cbn [length Hive.HBIN_MAGIC].
  specialize (IH (S s)). replace (S s + n)%nat with (s + S n)%nat in IH by lia.
  split_and!; [lia .. |].
  destruct ((_ <$> seq (S s) n) ≫= stamp) as [| [p bs] l]; cbn [in_order] in *; [lia |].
  destruct IH as [IH1 IH2]. split; [lia | done].
Qed.

(** Stamping does not touch cells. *)
Lemma stamps_outside s n i :
  32 <= Z.of_nat i mod 4096 -> Forall (outside i) (((fun k => 4096 * Z.of_nat k) <$> seq s n) ≫= stamp).
Proof.
  intros Hi. revert s. induction n as [| n IH]; intros s; cbn [seq fmap list_fmap]; [constructor |].
  rewrite bind_cons. apply Forall_app. split; [| apply IH].
  assert (~ (4096 * Z.of_nat s <= Z.of_nat i < 4096 * Z.of_nat s + 32)) as Hn.
  { intros Hr. rewrite <- (Z.mod_unique_pos (Z.of_nat i) 4096 (Z.of_nat s) (Z.of_nat i - 4096 * Z.of_nat s)) in Hi; lia. }
  unfold stamp, outside. repeat constructor; cbn [fst snd]; rewrite ?length_to_le; cbn [length Hive.HBIN_MAGIC]; lia.
Qed.

(** The body of the file: the written cells, padded and stamped. *)
Lemma stamped_body w n :
  hbin_headers w = (fun k => 4096 * Z.of_nat k) <$> seq 0 (S n) -> len w <= 4096 * (Z.of_nat n + 1) ->
  exists buf,
    copy_all (resize (Z.to_nat (Z.of_nat (length (hbin_headers w)) * Hive.HBIN_SIZE)) 0 (body w))
      (hbin_headers w ≫= stamp) = Ret buf /\
    Z.of_nat (length buf) = 4096 * (Z.of_nat n + 1) /\
    agree 0 (len w) (body w) buf /\ field_at buf 0 Hive.HBIN_MAGIC.
Proof.
  intros Hh Hl. rewrite Hh, length_fmap, length_seq. unfold Hive.HBIN_SIZE.
  pose proof (stamps_in_order 0 (S n)) as Hio.
  destruct (copy_all_ok _ _ _ (resize (Z.to_nat (Z.of_nat (S n) * 0x1000)) 0 (body w)) Hio)
    as (buf & Hc & Hlen & Ho & Hf); [lia | rewrite length_resize; lia |].
  rewrite length_resize in Hlen. exists buf. split_and!; [exact Hc | lia | |].
  - intros i x Hi Hm Hx. rewrite Ho by (by apply stamps_outside).
    rewrite lookup_resize; [done | lia | by eapply lookup_lt_Some].
  - cbn [seq fmap list_fmap] in Hf. rewrite bind_cons in Hf. cbn [app stamp] in Hf.
    by inversion Hf.
Qed.

Lemma copy_all_bytes buf l buf' :
  copy_all buf l = Ret buf' -> Forall byte_ty buf -> Forall (fun p => Forall byte_ty p.2) l ->
  Forall byte_ty buf'.
Proof.
  revert buf. induction l as [| [p bs] l IH]; intros buf H Hb Hl; cbn [copy_all] in H.
  { by injection H as <-. }
  inversion Hl; subst. unfold copy_at in H. case_decide; [| done]. cbn in H.
  apply IH in H; [done | | done]. cbn in *.
  apply Forall_app. split; [by apply Forall_take |]. apply Forall_app. split; [done | by apply Forall_drop].
Qed.

Lemma zeros_bytes n : Forall byte_ty (zeros n).
Proof. apply Forall_replicate. by unfold byte_ty, u_ty. Qed.

(** The checksums of the writer and of the reader are the same function of the header. *)
Lemma checksums_agree n hdr hdr' buf off sum :
  length hdr' = length hdr -> 0 <= off -> off + 4 * Z.of_nat n <= Z.of_nat (length hdr) ->
  (forall i, Z.of_nat i < off + 4 * Z.of_nat n -> hdr' !! i = hdr !! i) ->
  Hive.checksum_loop n (hdr' ++ buf) off sum = sum_loop n hdr off sum.
Proof.
  intros Hlen. revert off sum. induction n as [| n IH]; intros off sum H0 Hl Heq; [done |].
  cbn [Hive.checksum_loop sum_loop]. unfold read_u32. rewrite length_app.
  rewrite (proj2 (Z.ltb_ge _ _)), (proj2 (Z.leb_le _ _)) by lia. rewrite IH by (try lia; intros; apply Heq; lia).
  do 3 f_equal. apply list_eq. intros i. destruct (decide (i < 4)%nat) as [Hi | Hi].
  - rewrite !lookup_take_lt, !lookup_drop, lookup_app_l by lia. apply Heq. lia.
  - by rewrite !lookup_take_ge by lia.
Qed.

Lemma sum_loop_ty n data off sum : Forall byte_ty data -> u_ty 32 sum -> u_ty 32 (sum_loop n data off sum).
Proof.
  intros Hd. revert off sum. induction n as [| n IH]; intros off sum Hs; [done |]. cbn [sum_loop].
  apply IH. case_match; [| done]. apply u_ty_lxor; [lia | done |].
  pose proof (from_le_ty (take 4 (drop (Z.to_nat off) data)) ltac:(by apply Forall_take, Forall_drop)) as Ht.
  unfold u_ty in *. rewrite length_take in Ht.
  assert (2 ^ (8 * Z.of_nat (4 `min` length (drop (Z.to_nat off) data))) <= 2 ^ 32)
    by (apply Z.pow_le_mono_r; lia). lia.
Qed.

(** What [parse] checks of the header that [serialise] builds. *)
Lemma regf_header_ok timestamp o data_len buf :
  0 <= o < 2 ^ 31 ->
  exists hdr, regf_header timestamp (4096 + o) data_len = Ret hdr /\ Z.of_nat (length hdr) = 4096 /\
    sub_slice (hdr ++ buf) 0 4 = Ret Hive.REGF_MAGIC /\
    read_u32 (hdr ++ buf) Hive.MAJOR_VERSION_FIELD = Some 1 /\
    read_u32 (hdr ++ buf) Hive.ROOT_OFFSET_FIELD = Some o /\
    read_u32 (hdr ++ buf) Hive.CHECKSUM_OFFSET = Some (Hive.compute_header_checksum (hdr ++ buf)).
Proof.
  intros Ho. unfold regf_header. rewrite to_hbin_rel_add by lia.
  match goal with |- context [copy_all _ ?l] => set (ps := l) end.
  assert (Z.of_nat (length (zeros Hive.REGF_HEADER_SIZE)) = 4096) as Hz by (by apply length_zeros).
  destruct (copy_all_ok 0 48 ps (zeros Hive.REGF_HEADER_SIZE)) as (h0 & Hc & Hl & _ & Hf); [| lia | lia |].
  { unfold ps. cbn [in_order]. rewrite !length_to_le. cbn [length Hive.REGF_MAGIC]. lia. }
  assert (Forall byte_ty h0) as Hty.
  { eapply copy_all_bytes; [exact Hc | apply zeros_bytes |].
    unfold ps. repeat (apply List.Forall_cons;
      [cbn [snd]; first [apply to_le_bytes | apply (bool_decide_unpack _); by vm_compute] |]). constructor. }
  rewrite Hc. cbn [mbind outcome_bind]. unfold Hive.CHECKSUM_OFFSET.
  destruct (copy_at h0 (Z.to_nat 0x1FC) (to_le 4 (compute_checksum h0))) as [hdr | |] eqn:Hcs;
    [| unfold copy_at in Hcs; by case_decide; [| rewrite length_to_le in *; lia] ..].
  destruct (copy_at_lookup _ _ _ _ Hcs) as (Hl1 & Ho1 & Hf1). rewrite length_to_le in Ho1.
  exists hdr. split; [done |]. split; [lia |].
  assert (forall p bs, (p, bs) ∈ ps -> p + Z.of_nat (length bs) <= 0x1FC -> field_at (hdr ++ buf) p bs) as Hfield.
  { intros p bs Hin Hle. rewrite Forall_forall in Hf. specialize (Hf _ Hin) as [H0 Hf']. split; [done |].
    intros k x Hk. pose proof (lookup_lt_Some _ _ _ Hk). cbn [fst snd] in *.
    apply lookup_app_l_Some. rewrite Ho1 by lia. by apply Hf'. }
  assert (forall p x, (p, to_le 4 x) ∈ ps -> p + 4 <= 0x1FC -> u_ty 32 x -> read_u32 (hdr ++ buf) p = Some x) as Hread.
  { intros p x Hin Hle Hx. pose proof (Hfield _ _ Hin ltac:(rewrite length_to_le; lia)) as Hfa.
    apply field_at_take in Hfa. rewrite length_to_le in Hfa. unfold read_u32.
    rewrite (proj2 (Z.ltb_ge _ _)) by (rewrite length_app; lia). by rewrite Hfa, from_to_le. }
  split_and!.
  - pose proof (Hfield 0 Hive.REGF_MAGIC ltac:(by apply (list_elem_of_lookup_2 ps 0)) ltac:(cbn; lia)) as Hfa.
    apply field_at_take in Hfa. unfold sub_slice. rewrite slice_in by (rewrite length_app; lia). by f_equal.
  - unfold Hive.MAJOR_VERSION_FIELD. apply Hread; [exact (list_elem_of_lookup_2 ps 4 _ eq_refl) | lia | unfold u_ty; lia].
  - unfold Hive.ROOT_OFFSET_FIELD. apply Hread; [exact (list_elem_of_lookup_2 ps 7 _ eq_refl) | lia | unfold u_ty; lia].
  - unfold read_u32. rewrite (proj2 (Z.ltb_ge _ _)) by (rewrite length_app; lia). f_equal.
    assert (field_at (hdr ++ buf) 0x1FC (to_le 4 (compute_checksum h0))) as Hfa.
    { split; [lia |]. intros k x Hk. apply lookup_app_l_Some. by apply Hf1. }
    apply field_at_take in Hfa. rewrite length_to_le in Hfa. rewrite Hfa, from_to_le.
    + unfold Hive.compute_header_checksum, compute_checksum.
      assert (4 * Z.of_nat (Z.to_nat (Hive.CHECKSUM_OFFSET / 4)) = 508) as Hn by reflexivity.
      revert Hn. generalize (Z.to_nat (Hive.CHECKSUM_OFFSET / 4)) as n. intros n Hn. symmetry.
      apply checksums_agree; [done | lia | lia |]. intros i Hi. apply Ho1. lia.
    + change (8 * Z.of_nat 4) with 32. unfold compute_checksum.
      apply sum_loop_ty; [exact Hty | unfold u_ty; lia].
Qed.

(** ** Round trip *)

(** At most 2^18 cells, so that every offset of the file fits 32 bits. *)
Definition small (key : HiveKey) : Prop := 32 + 8192 * key_cells key <= 2 ^ 31.

Lemma first_bin_wf : wf (mk_writer (zeros Hive.HBIN_HEADER_SIZE) [0]).
Proof. exists 0%nat. split; [done |]. split; vm_compute; congruence. Qed.

(** A tree that fits is written, and the file reads back as the tree. *)
Lemma serialise_ok key timestamp :
  key_ty key -> small key -> key_fits key = true ->
  exists file h n, serialise key timestamp = Ret (Some file) /\ parse file = ok h /\ root h = ok n /\
    represents h n key.
Proof.
  intros Hty Hsm Hfit. unfold small in Hsm.
  pose proof (write_key_ok key Hty 0 _ first_bin_wf) as Hw. unfold len in Hw at 1. cbn [body] in Hw.
  rewrite length_zeros in Hw by done. specialize (Hw ltac:(unfold Hive.HBIN_HEADER_SIZE; lia)).
  rewrite Hfit in Hw. destruct Hw as (o & w & Hwk & Hg & Hk). set (w0 := mk_writer _ _) in *.
  assert (len w0 = 32) as Hl0 by reflexivity. pose proof (grown_len _ _ _ Hg) as Hlen.
  destruct Hg as ((n & Hh & Hwl) & _). destruct (stamped_body w n Hh ltac:(lia)) as (buf & Hbuf & Hbl & Hag & Hm).
  assert (key_at 32 (len w) buf o key) as Hk'.
  { eapply (key_at_stable key); [exact Hk | | lia | lia]. intros i x Hi. apply Hag. lia. }
  assert (0 <= o < len w) as Ho.
  { inversion Hk' as [? ? ? ? ? ? ? ? ? Hnk]; subst. unfold nk_at in Hnk. destruct (encode_name _).
    destruct Hnk as ((m & _ & (Hlo & Hhi & _) & _) & _). rewrite length_app, length_to_le in Hhi. lia. }
  destruct (regf_header_ok timestamp o (Z.of_nat (length (hbin_headers w)) * Hive.HBIN_SIZE) buf ltac:(lia))
    as (hdr & Hhdr & Hhl & Hmg & Hver & Hroot & Hsum).
  destruct (Hive.count_cells_ok (hdr ++ buf)) as [cells Hcells].
  { rewrite length_app. unfold HBIN_BASE, Hive.HBIN_HEADER_SIZE. lia. }
  { unfold HBIN_BASE, sub_slice. rewrite slice_in by (rewrite length_app; lia).
    replace (Z.to_nat 0x1000) with (length hdr) by lia. rewrite drop_app_length. f_equal.
    replace (Z.to_nat (0x1000 + 4) - length hdr)%nat with 4%nat by lia.
    exact (field_at_take buf 0 Hive.HBIN_MAGIC Hm). }
  exists (hdr ++ buf), (mk_hive (hdr ++ buf) (4096 + o) cells), (node_of (o, key)). split_and!.
  - unfold serialise. fold w0. rewrite Hwk. cbn [mbind outcome_bind]. rewrite Hbuf. cbn [mbind outcome_bind].
    by rewrite Hhdr.
  - unfold parse, Hive.REGF_HEADER_SIZE. rewrite (proj2 (Z.ltb_ge _ _)) by (rewrite length_app; lia).
    rewrite Hmg. cbn [mbind outcome_bind]. rewrite bool_decide_false by naive_solver.
    rewrite Hver, Hsum, Hroot. cbn [Hive.ok_or Hive.try ok mbind outcome_bind].
    rewrite !Z.eqb_refl. unfold HBIN_BASE. rewrite (proj2 (Z.leb_gt _ _)) by (rewrite length_app; lia).
    rewrite Hcells. reflexivity.
  - inversion Hk' as [? nm ? ? ? ? ? ? ? Hnk]; subst. inversion Hty; subst. unfold root. cbn [root_offset].
    eapply (read_nk_field hdr buf 32 (len w)); [done | lia | lia | lia | done | done | exact Hnk].
  - eapply (key_at_represents hdr buf 32 (len w)); [done | lia | lia | lia | done | done | done | lia | done].
Qed.

Lemma serialise_too_large key timestamp :
  key_ty key -> small key -> key_fits key = false -> serialise key timestamp = Ret None.
Proof.
  intros Hty Hsm Hfit. unfold small in Hsm.
  pose proof (write_key_ok key Hty 0 _ first_bin_wf) as Hw. unfold len in Hw at 1. cbn [body] in Hw.
  rewrite length_zeros in Hw by done. specialize (Hw ltac:(unfold Hive.HBIN_HEADER_SIZE; lia)).
  rewrite Hfit in Hw. unfold serialise. by rewrite Hw.
Qed.

(** C2: Writing and reading a registry hive are inverse. For every key tree of at most 2^18
    cells, [serialise] returns: an error exactly when some name, value or list of the tree
    does not fit a bin, and otherwise a file that [parse] accepts and whose root, read with
    [root], [values] and [subkeys], is the tree again, with every name in ASCII or UTF-16,
    every value with its type and data, inline or in a cell of its own, and every subkey in
    order, over as many bins as it takes. *)
Theorem hive_roundtrip key timestamp :
  key_ty key -> small key ->
  if key_fits key then
    exists file h n, serialise key timestamp = Ret (Some file) /\ parse file = ok h /\
      root h = ok n /\ represents h n key
  else serialise key timestamp = Ret None.
Proof.
  intros Hty Hsm. destruct (key_fits key) eqn:Hfit; [by apply serialise_ok | by apply serialise_too_large].
Qed.

(** A sample with a UTF-16 name, nested keys, inline and cell data. *)
Definition sample_key : HiveKey :=
  mk_key [] 0
    [mk_key [0x7cfb; 0x1F600] 0 [] [mk_hive_value [67; 108; 0xe9] Hive.VBinary [1; 2; 3]];
     mk_key [65] 0 [new_key [66]] [mk_hive_value [86] Hive.VString [104; 0; 105; 0; 0; 0]]]
    [].

Lemma sample_key_ty : key_ty sample_key.
Proof.
  repeat first [ apply key_ty_intro | apply List.Forall_cons | apply List.Forall_nil ];
    repeat split; cbn; try lia;
    repeat first [ apply List.Forall_cons | apply List.Forall_nil ];
    try (unfold Text.scalar_ty; lia); try (by unfold byte_ty, u_ty).
Qed.

Lemma hive_roundtrip_witness :
  exists file h n, serialise sample_key 7 = Ret (Some file) /\ parse file = ok h /\
    root h = ok n /\ represents h n sample_key.
Proof.
  pose proof (hive_roundtrip sample_key 7 sample_key_ty ltac:(by vm_compute)) as H.
  replace (key_fits sample_key) with true in H by (by vm_compute). exact H.
Defined.

(** The [flags] of a key are not written: the file does not depend on them. *)
Lemma key_flags_ignored nm fl fl' subs vals timestamp :
  serialise (mk_key nm fl subs vals) timestamp = serialise (mk_key nm fl' subs vals) timestamp.
Proof. reflexivity. Qed.

(** ** Lookups *)

Lemma find_Forall2 {A B} (R : A -> B -> Prop) (f : A -> bool) (g : B -> bool) l k :
  (forall a b, R a b -> f a = g b) -> Forall2 R l k ->
  match List.find g k with
  | Some b => exists a, List.find f l = Some a /\ R a b
  | None => List.find f l = None
  end.
Proof.
  intros Hfg. induction 1 as [| a b l k Hab Hlk IH]; [done |]. cbn.
  rewrite (Hfg _ _ Hab). destruct (g b); [by exists a | done].
Qed.

Lemma represents_name h n key : represents h n key -> node_name n = key_name key.
Proof. by intros []. Qed.

Lemma path_loop_ok h path : forall n key fuel, represents h n key ->
  match lookup_path key path with
  | Some k => exists m, Hive.path_loop fuel h n path = ok (Some m) /\ represents h m k
  | None => Hive.path_loop fuel h n path = ok None
  end.
Proof.
  induction path as [| c path IH]; intros n key fuel Hr; cbn [lookup_path Hive.path_loop].
  { by exists n. }
  destruct Hr as [n nm fl subs vals nodes Hnm Hfl Hv Hs Hk]. cbn [key_subkeys].
  unfold find_subkey. rewrite Hs. cbn [Hive.try ok mbind outcome_bind].
  pose proof (find_Forall2 (represents h) (fun k => bool_decide (node_name k = c))
    (fun k => bool_decide (key_name k = c)) nodes subs) as Hf.
  specialize (Hf ltac:(intros a b Hab; cbn beta; by rewrite (represents_name _ _ _ Hab)) Hk).
  destruct (List.find _ subs) as [k |]; cbn.
  - destruct Hf as (m & -> & Hm). by apply IH.
  - by rewrite Hf.
Qed.

Lemma find_value_ok h n key nm : represents h n key ->
  find_value h n nm = ok (to_value <$> List.find (fun v => bool_decide (hv_name v = nm)) (key_values key)).
Proof.
  intros [n' nm' fl subs vals nodes _ _ Hv _ _]. unfold find_value. rewrite Hv.
  cbn [Hive.try ok mbind outcome_bind key_values]. unfold ok. do 2 f_equal.
  clear Hv. induction vals as [| v vals IH]; [done |]. cbn [fmap list_fmap List.find to_value Hive.name]. case_bool_decide; [done | exact IH].
Qed.

(** C10: Opening a path in a written hive is looking it up in the tree. Whatever file
    [serialise] returns, [open_path] on the parsed file finds a node exactly when each
    component of the path names a child in the tree, the node represents that child (the
    first of its name), and [find_value] returns its first value of a given name, or none
    when it has none. *)
Theorem open_path_refines_tree key timestamp file path fuel :
  key_ty key -> small key -> serialise key timestamp = Ret (Some file) ->
  exists h, parse file = ok h /\
    match lookup_path key path with
    | Some k => exists m, open_path fuel h path = ok (Some m) /\ represents h m k /\
        forall nm, find_value h m nm =
          ok (to_value <$> List.find (fun v => bool_decide (hv_name v = nm)) (key_values k))
    | None => open_path fuel h path = ok None
    end.
Proof.
  intros Hty Hsm Hser. destruct (key_fits key) eqn:Hfit.
  - destruct (serialise_ok key timestamp) as (file' & h & n & Hs & Hp & Hr & Hrep); [done .. |].
    rewrite Hser in Hs. injection Hs as <-. exists h. split; [done |].
    pose proof (path_loop_ok h path n key fuel Hrep) as Hpl.
    unfold open_path. rewrite Hr. cbn [Hive.try ok mbind outcome_bind].
    destruct (lookup_path key path) as [k |]; [| done]. destruct Hpl as (m & Hm & Hk).
    exists m. split; [done |]. split; [done |]. intros nm. by apply find_value_ok.
  - by rewrite serialise_too_large in Hser.
Qed.

Lemma open_path_refines_tree_witness :
  exists file h m, serialise sample_key 7 = Ret (Some file) /\ parse file = ok h /\
    open_path 0 h [[65]; [66]] = ok (Some m) /\ represents h m (new_key [66]).
Proof.
  destruct (serialise sample_key 7) as [[file |] | |] eqn:E; [| by vm_compute in E ..].
  destruct (open_path_refines_tree sample_key 7 file [[65]; [66]] 0 sample_key_ty ltac:(by vm_compute) E)
    as (h & Hp & H).
  replace (lookup_path sample_key [[65]; [66]]) with (Some (new_key [66])) in H by (by vm_compute).
  destruct H as (m & Hm & Hrep & _). exists file, h, m.
  split; [reflexivity |]. split; [exact Hp |]. split; [exact Hm | exact Hrep].
Defined.

End HiveRoundtrip.
