(* ===== verification/Aes.v ===== *)
(** * The block cipher AES ([crypto/cipher.rs])

    The tables, the field multiplication, the key schedules and the rounds of [Aes128] and
    [Aes256]. A block, a round key and a key are arrays of fixed size; every index of the
    code is a constant or a loop counter inside that size, or a byte into a table of 256
    entries, so that no access can panic. *)

From Stdlib Require Import ZArith Lia Ring.
From S2P Require Import Prelude Bytes.

Module Aes.

(** ** Tables and field multiplication *)

Definition SBOX : list Z :=
  [99; 124; 119; 123; 242; 107; 111; 197; 48; 1; 103; 43; 254; 215; 171; 118;
   202; 130; 201; 125; 250; 89; 71; 240; 173; 212; 162; 175; 156; 164; 114; 192;
   183; 253; 147; 38; 54; 63; 247; 204; 52; 165; 229; 241; 113; 216; 49; 21;
   4; 199; 35; 195; 24; 150; 5; 154; 7; 18; 128; 226; 235; 39; 178; 117;
   9; 131; 44; 26; 27; 110; 90; 160; 82; 59; 214; 179; 41; 227; 47; 132;
   83; 209; 0; 237; 32; 252; 177; 91; 106; 203; 190; 57; 74; 76; 88; 207;
   208; 239; 170; 251; 67; 77; 51; 133; 69; 249; 2; 127; 80; 60; 159; 168;
   81; 163; 64; 143; 146; 157; 56; 245; 188; 182; 218; 33; 16; 255; 243; 210;
   205; 12; 19; 236; 95; 151; 68; 23; 196; 167; 126; 61; 100; 93; 25; 115;
   96; 129; 79; 220; 34; 42; 144; 136; 70; 238; 184; 20; 222; 94; 11; 219;
   224; 50; 58; 10; 73; 6; 36; 92; 194; 211; 172; 98; 145; 149; 228; 121;
   231; 200; 55; 109; 141; 213; 78; 169; 108; 86; 244; 234; 101; 122; 174; 8;
   186; 120; 37; 46; 28; 166; 180; 198; 232; 221; 116; 31; 75; 189; 139; 138;
   112; 62; 181; 102; 72; 3; 246; 14; 97; 53; 87; 185; 134; 193; 29; 158;
   225; 248; 152; 17; 105; 217; 142; 148; 155; 30; 135; 233; 206; 85; 40; 223;
   140; 161; 137; 13; 191; 230; 66; 104; 65; 153; 45; 15; 176; 84; 187; 22].

Definition INV_SBOX : list Z :=
  [82; 9; 106; 213; 48; 54; 165; 56; 191; 64; 163; 158; 129; 243; 215; 251;
   124; 227; 57; 130; 155; 47; 255; 135; 52; 142; 67; 68; 196; 222; 233; 203;
   84; 123; 148; 50; 166; 194; 35; 61; 238; 76; 149; 11; 66; 250; 195; 78;
   8; 46; 161; 102; 40; 217; 36; 178; 118; 91; 162; 73; 109; 139; 209; 37;
   114; 248; 246; 100; 134; 104; 152; 22; 212; 164; 92; 204; 93; 101; 182; 146;
   108; 112; 72; 80; 253; 237; 185; 218; 94; 21; 70; 87; 167; 141; 157; 132;
   144; 216; 171; 0; 140; 188; 211; 10; 247; 228; 88; 5; 184; 179; 69; 6;
   208; 44; 30; 143; 202; 63; 15; 2; 193; 175; 189; 3; 1; 19; 138; 107;
   58; 145; 17; 65; 79; 103; 220; 234; 151; 242; 207; 206; 240; 180; 230; 115;
   150; 172; 116; 34; 231; 173; 53; 133; 226; 249; 55; 232; 28; 117; 223; 110;
   71; 241; 26; 113; 29; 41; 197; 137; 111; 183; 98; 14; 170; 24; 190; 27;
   252; 86; 62; 75; 198; 210; 121; 32; 154; 219; 192; 254; 120; 205; 90; 244;
   31; 221; 168; 51; 136; 7; 199; 49; 177; 18; 16; 89; 39; 128; 236; 95;
   96; 81; 127; 169; 25; 181; 74; 13; 45; 229; 122; 159; 147; 201; 156; 239;
   160; 224; 59; 77; 174; 42; 245; 176; 200; 235; 187; 60; 131; 83; 153; 97;
   23; 43; 4; 126; 186; 119; 214; 38; 225; 105; 20; 99; 85; 33; 12; 125].

Definition sbox (b : Z) : Z := idx SBOX (Z.to_nat b).
Definition inv_sbox (b : Z) : Z := idx INV_SBOX (Z.to_nat b).

(** The body of the loop of [gmul] on its variables [p], [a] and [b]. *)
Definition gmul_round (pab : Z * Z * Z) : Z * Z * Z :=
  let '(p, a, b) := pab in
  let p := if has_bits b 1 then Z.lxor p a else p in
  let hi_bit_set := has_bits a 0x80 in
  let a := wrap 8 (Z.shiftl a 1) in
  let a := if hi_bit_set then Z.lxor a 0x1b else a in
  (p, a, Z.shiftr b 1).

Definition gmul (a b : Z) : Z := fst (fst (Nat.iter 8 gmul_round (0, a, b))).

(** ** Rounds *)

Definition add_round_key (state key : list Z) : list Z := xor_bytes state key.

Definition sub_bytes (state : list Z) : list Z := sbox <$> state.
Definition inv_sub_bytes (state : list Z) : list Z := inv_sbox <$> state.

Definition shift_rows (tmp : list Z) : list Z :=
  idx tmp <$> [0; 5; 10; 15; 4; 9; 14; 3; 8; 13; 2; 7; 12; 1; 6; 11]%nat.

Definition inv_shift_rows (tmp : list Z) : list Z :=
  idx tmp <$> [0; 13; 10; 7; 4; 1; 14; 11; 8; 5; 2; 15; 12; 9; 6; 3]%nat.

Definition mix_column (s0 s1 s2 s3 : Z) : list Z :=
  [Z.lxor (Z.lxor (Z.lxor (gmul s0 2) (gmul s1 3)) s2) s3;
   Z.lxor (Z.lxor (Z.lxor s0 (gmul s1 2)) (gmul s2 3)) s3;
   Z.lxor (Z.lxor (Z.lxor s0 s1) (gmul s2 2)) (gmul s3 3);
   Z.lxor (Z.lxor (Z.lxor (gmul s0 3) s1) s2) (gmul s3 2)].

Definition inv_mix_column (s0 s1 s2 s3 : Z) : list Z :=
  [Z.lxor (Z.lxor (Z.lxor (gmul s0 14) (gmul s1 11)) (gmul s2 13)) (gmul s3 9);
   Z.lxor (Z.lxor (Z.lxor (gmul s0 9) (gmul s1 14)) (gmul s2 11)) (gmul s3 13);
   Z.lxor (Z.lxor (Z.lxor (gmul s0 13) (gmul s1 9)) (gmul s2 14)) (gmul s3 11);
   Z.lxor (Z.lxor (Z.lxor (gmul s0 11) (gmul s1 13)) (gmul s2 9)) (gmul s3 14)].

(** The loop over the four columns; each iteration reads and writes its own column. *)
Definition on_columns (f : Z -> Z -> Z -> Z -> list Z) (state : list Z) : list Z :=
  concat ((fun i => f (idx state (i * 4)) (idx state (i * 4 + 1))
                      (idx state (i * 4 + 2)) (idx state (i * 4 + 3)))
          <$> [0; 1; 2; 3]%nat).

Definition mix_columns : list Z -> list Z := on_columns mix_column.
Definition inv_mix_columns : list Z -> list Z := on_columns inv_mix_column.

(** [round_keys[i]] *)
Definition round_key (round_keys : list (list Z)) (i : nat) : list Z := nth i round_keys [].

Definition cipher (state : list Z) (round_keys : list (list Z)) (rounds : nat) : list Z :=
  let state := add_round_key state (round_key round_keys 0) in
  let state := fold_left (fun state round =>
    add_round_key (mix_columns (shift_rows (sub_bytes state))) (round_key round_keys round))
    (seq 1 (rounds - 1)) state in
  add_round_key (shift_rows (sub_bytes state)) (round_key round_keys rounds).

Definition inv_cipher (state : list Z) (round_keys : list (list Z)) (rounds : nat) : list Z :=
  let state := add_round_key state (round_key round_keys rounds) in
  let state := fold_left (fun state round =>
    inv_mix_columns (add_round_key (inv_sub_bytes (inv_shift_rows state))
                                   (round_key round_keys round)))
    (rev (seq 1 (rounds - 1))) state in
  add_round_key (inv_sub_bytes (inv_shift_rows state)) (round_key round_keys 0).

(** ** Key schedules *)

Definition rotate_left1 (l : list Z) : list Z := drop 1 l ++ take 1 l.

(** [temp[0] ^= c] *)
Definition xor_first (temp : list Z) (c : Z) : list Z :=
  match temp with t0 :: temp => Z.lxor t0 c :: temp | [] => [] end.

Definition last_word (prev : list Z) : list Z := idx prev <$> [12; 13; 14; 15]%nat.

(** The two loops that fill [round_keys[i]] from the key [base] and the word [temp]. *)
Definition fill_key (base temp : list Z) : list Z :=
  fold_left (fun key j =>
    key ++ [Z.lxor (idx base j) (if (j <? 4)%nat then idx temp j else idx key (j - 4))])
    (seq 0 16) [].

Definition RCON : list Z := [0x01; 0x02; 0x04; 0x08; 0x10; 0x20; 0x40; 0x80; 0x1b; 0x36].

Definition key_expansion128 (key : list Z) (rounds : nat) : list (list Z) :=
  fold_left (fun round_keys i =>
    let prev := round_key round_keys (i - 1) in
    let temp := sbox <$> rotate_left1 (last_word prev) in
    let temp := xor_first temp (idx RCON (i - 1)) in
    round_keys ++ [fill_key prev temp])
    (seq 1 rounds) [key].

Definition RCON256 : list Z := [0x01; 0x02; 0x04; 0x08; 0x10; 0x20; 0x40].

Definition key_expansion256 (key : list Z) : list (list Z) :=
  fold_left (fun round_keys i =>
    let prev := round_key round_keys (i - 1) in
    let prev2 := round_key round_keys (i - 2) in
    if (i mod 2 =? 0)%nat then
      let temp := sbox <$> rotate_left1 (last_word prev) in
      let temp := xor_first temp (idx RCON256 (i / 2 - 1)) in
      round_keys ++ [fill_key prev2 temp]
    else
      let temp := sbox <$> last_word prev in
      round_keys ++ [fill_key prev2 temp])
    (seq 2 13) [take 16 key; drop 16 key].

Record Aes128 := mk_aes128 { round_keys128 : list (list Z) }.
Record Aes256 := mk_aes256 { round_keys256 : list (list Z) }.

Definition new128 (key : list Z) : Aes128 := mk_aes128 (key_expansion128 key 10).
Definition encrypt_block128 (c : Aes128) (block : list Z) : list Z :=
  cipher block (round_keys128 c) 10.
Definition decrypt_block128 (c : Aes128) (block : list Z) : list Z :=
  inv_cipher block (round_keys128 c) 10.

Definition new256 (key : list Z) : Aes256 := mk_aes256 (key_expansion256 key).
Definition encrypt_block256 (c : Aes256) (block : list Z) : list Z :=
  cipher block (round_keys256 c) 14.
Definition decrypt_block256 (c : Aes256) (block : list Z) : list Z :=
  inv_cipher block (round_keys256 c) 14.

(** ** Specification: the field of 256 elements and the schedule of FIPS 197 *)

(** Product of polynomials over the field of two elements, and the remainder modulo
    x^8 + x^4 + x^3 + x + 1. *)
Definition poly_mul (a b : Z) : Z :=
  fold_left (fun p i => Z.lxor p (if Z.testbit b (Z.of_nat i) then Z.shiftl a (Z.of_nat i) else 0))
    (seq 0 8) 0.

Definition poly_mod (x : Z) : Z :=
  fold_left (fun x i =>
    Z.lxor x (if Z.testbit x (8 + Z.of_nat i) then Z.shiftl 0x11b (Z.of_nat i) else 0))
    [6; 5; 4; 3; 2; 1; 0]%nat x.

Definition field_mul (a b : Z) : Z := poly_mod (poly_mul a b).

(** The inverse, b^254, and the affine map of the S-box. *)
Definition field_inv (b : Z) : Z :=
  let r := Nat.iter 6 (fun r => field_mul b (field_mul r r)) b in field_mul r r.

Definition rotl8 (b k : Z) : Z := Z.lor (wrap 8 (Z.shiftl b k)) (Z.shiftr b (8 - k)).

Definition affine (b : Z) : Z :=
  Z.lxor 0x63 (Z.lxor b (Z.lxor (rotl8 b 1) (Z.lxor (rotl8 b 2) (Z.lxor (rotl8 b 3) (rotl8 b 4))))).

(** Word [i] of the expanded key, for a key of [nk] words; [w] holds the words before it. *)
Definition fips_word (nk : nat) (w : list (list Z)) (i : nat) : list Z :=
  let temp := nth (i - 1) w [] in
  let temp :=
    if (i mod nk =? 0)%nat then
      xor_bytes (sbox <$> rotate_left1 temp) [Nat.iter (i / nk - 1) (field_mul 2) 1; 0; 0; 0]
    else if ((6 <? nk) && (i mod nk =? 4))%nat then sbox <$> temp
    else temp in
  xor_bytes (nth (i - nk) w []) temp.

Definition fips_expand (nk rounds : nat) (key : list Z) : list (list Z) :=
  fold_left (fun w i => w ++ [fips_word nk w i]) (seq nk (4 * (rounds + 1) - nk)) (chunks 4 key).

(** The round key made of four words. *)
Definition word (w : list (list Z)) (i : nat) : list Z := nth i w [].
Definition key_words (w : list (list Z)) (i : nat) : list Z :=
  word w (4 * i) ++ word w (4 * i + 1) ++ word w (4 * i + 2) ++ word w (4 * i + 3).

(** ** Multiplication *)

(** Multiplication by x, the update of [a] in [gmul]. *)
Definition xtime (a : Z) : Z :=
  Z.lxor (wrap 8 (Z.shiftl a 1)) (if Z.testbit a 7 then 0x1b else 0).

Definition select (b i x : Z) : Z := if Z.testbit b i then x else 0.

Lemma gmul_round_eq p a b :
  gmul_round (p, a, b) = (Z.lxor p (select b 0 a), xtime a, Z.shiftr b 1).
Proof.
  unfold gmul_round, xtime, select.
  rewrite (has_bits_pow2 b 0 ltac:(lia) : has_bits b 1 = _).
  rewrite (has_bits_pow2 a 7 ltac:(lia) : has_bits a 128 = _).
  by destruct (Z.testbit b 0), (Z.testbit a 7); rewrite ?Z.lxor_0_r.
Qed.

(** The loop as a sum over the bits of [b]. *)
Definition gmul_fold (b : Z) (l : list nat) (pa : Z * Z) : Z :=
  fst (fold_left (fun pa i => (Z.lxor pa.1 (select b (Z.of_nat i) pa.2), xtime pa.2)) l pa).

Lemma gmul_sum a b : gmul a b = gmul_fold b (seq 0 8) (0, a).
Proof.
  unfold gmul, gmul_fold, Nat.iter. cbn [nat_rect seq fold_left fst snd].
  rewrite !gmul_round_eq.
  cbn [fst snd]. unfold select. rewrite !Z.shiftr_spec by lia. reflexivity.
Qed.

Lemma additive_if (c : bool) f : additive f -> additive (fun x => if c then f x else 0).
Proof. by destruct c. Qed.

Lemma additive_xtime : additive xtime.
Proof.
  apply (additive_lxor (fun a => wrap 8 (Z.shiftl a 1))).
  - by apply (additive_comp (wrap 8)); [apply additive_wrap | apply (additive_shiftl 1)].
  - by apply additive_bit.
Qed.

Lemma additive_select b i : additive (select b i).
Proof. apply (additive_if _ (fun x => x)), additive_id. Qed.

Lemma gmul_fold_l b l p p' a a' :
  gmul_fold b l (Z.lxor p p', Z.lxor a a') = Z.lxor (gmul_fold b l (p, a)) (gmul_fold b l (p', a')).
Proof.
  unfold gmul_fold. revert p p' a a'. induction l as [| i l IH]; intros p p' a a'; [done |].
  cbn [fold_left fst snd]. rewrite <- IH, additive_select, additive_xtime. do 3 f_equal. xor_ring.
Qed.

Lemma select_lxor b b' i x : 0 <= i ->
  select (Z.lxor b b') i x = Z.lxor (select b i x) (select b' i x).
Proof. intros Hi. apply (additive_bit i x Hi b b'). Qed.

Lemma gmul_fold_r b b' l p p' a :
  gmul_fold (Z.lxor b b') l (Z.lxor p p', a) = Z.lxor (gmul_fold b l (p, a)) (gmul_fold b' l (p', a)).
Proof.
  unfold gmul_fold. revert p p' a. induction l as [| i l IH]; intros p p' a; [done |].
  cbn [fold_left fst snd]. rewrite <- IH, select_lxor by lia. do 3 f_equal. xor_ring.
Qed.

Lemma additive_gmul_l b : additive (fun a => gmul a b).
Proof. intros x y. rewrite !gmul_sum. apply (gmul_fold_l _ _ 0 0). Qed.

Lemma additive_gmul_r a : additive (gmul a).
Proof. intros x y. rewrite !gmul_sum. apply (gmul_fold_r _ _ _ 0 0). Qed.

(** The reference multiplication is additive too, so that the two agree when they agree on
    the powers of x. *)
Lemma additive_fold {A} (g : A -> Z -> Z) (l : list A) :
  (forall i, additive (g i)) -> additive (fun x => fold_left (fun x i => g i x) l x).
Proof.
  intros Hg. induction l as [| i l IH]; [apply additive_id |].
  by apply (additive_comp _ (g i)).
Qed.

Lemma additive_poly_mod : additive poly_mod.
Proof.
  apply (additive_fold (fun i x =>
    Z.lxor x (if Z.testbit x (8 + Z.of_nat i) then Z.shiftl 0x11b (Z.of_nat i) else 0))).
  intros i. apply (additive_lxor (fun x => x)); [apply additive_id |]. apply additive_bit. lia.
Qed.

Lemma fold_sum {A} (f : A -> Z) (l : list A) p :
  fold_left (fun p i => Z.lxor p (f i)) l p = Z.lxor p (fold_left (fun p i => Z.lxor p (f i)) l 0).
Proof.
  revert p. induction l as [| i l IH]; intros p; cbn [fold_left]; [by rewrite Z.lxor_0_r |].
  rewrite (IH (Z.lxor p (f i))), (IH (Z.lxor 0 (f i))), Z.lxor_0_l. xor_ring.
Qed.

Lemma additive_sum {A} (f : A -> Z -> Z) (l : list A) :
  (forall i, additive (f i)) -> additive (fun x => fold_left (fun p i => Z.lxor p (f i x)) l 0).
Proof.
  intros Hf. induction l as [| i l IH]; intros x y; [done |]. cbn [fold_left].
  rewrite !(fold_sum (fun i => f i _) l (Z.lxor 0 _)), (IH x y), Hf. xor_ring.
Qed.

Lemma additive_field_mul_l b : additive (fun a => field_mul a b).
Proof.
  apply (additive_comp poly_mod); [apply additive_poly_mod |].
  apply (additive_sum (fun i a => if Z.testbit b (Z.of_nat i) then Z.shiftl a (Z.of_nat i) else 0)).
  intros i. apply (additive_if _ (fun a => Z.shiftl a (Z.of_nat i))), additive_shiftl. lia.
Qed.

Lemma additive_field_mul_r a : additive (field_mul a).
Proof.
  apply (additive_comp poly_mod); [apply additive_poly_mod |].
  apply (additive_sum (fun i b => if Z.testbit b (Z.of_nat i) then Z.shiftl a (Z.of_nat i) else 0)).
  intros i. apply additive_bit. lia.
Qed.

Lemma gmul_field a b : byte_ty a -> byte_ty b -> gmul a b = field_mul a b.
Proof.
  intros Ha Hb. apply (additive_ext 8 (fun a => gmul a b) (fun a => field_mul a b));
    [apply additive_gmul_l | apply additive_field_mul_l | | done].
  intros i Hi. apply (additive_ext 8); [apply additive_gmul_r | apply additive_field_mul_r | | done].
  intros j Hj.
  do 8 (destruct i as [| i]; [do 8 (destruct j as [| j]; [reflexivity |]); lia |]). lia.
Qed.

Lemma xtime_ty a : byte_ty (xtime a).
Proof. apply u_ty_lxor; [lia | by apply wrap_ty |]. by destruct (Z.testbit a 7). Qed.

Lemma gmul_ty a b : byte_ty a -> byte_ty (gmul a b).
Proof.
  rewrite gmul_sum. assert (Hp : byte_ty 0) by done. revert Hp.
  generalize 0, (seq 0 8). intros p l. revert p a. induction l as [| i l IH]; intros p a Hp Ha; [done |].
  apply IH; [| apply xtime_ty]. apply u_ty_lxor; [lia | done |].
  cbn [fst snd]. unfold select. by destruct (Z.testbit b _).
Qed.

(** ** The steps of a round are bijections *)

Lemma sbox_ty b : byte_ty (sbox b).
Proof. apply idx_ty. apply (bool_decide_unpack _). reflexivity. Qed.

Lemma inv_sbox_ty b : byte_ty (inv_sbox b).
Proof. apply idx_ty. apply (bool_decide_unpack _). reflexivity. Qed.

Lemma inv_sbox_sbox b : byte_ty b -> inv_sbox (sbox b) = b.
Proof. intros Hb. apply Z.eqb_eq. revert b Hb. apply byte_forall. reflexivity. Qed.

Lemma sbox_inv_sbox b : byte_ty b -> sbox (inv_sbox b) = b.
Proof. intros Hb. apply Z.eqb_eq. revert b Hb. apply byte_forall. reflexivity. Qed.

(** A statement about a byte that is additive on both sides needs eight evaluations. *)
Ltac additive_tac :=
  repeat match goal with
    | |- additive (fun x => Z.lxor (@?f x) (@?g x)) => apply (additive_lxor f g)
    | |- additive (fun x => gmul (@?f x) ?k) =>
        apply (additive_comp (fun x => gmul x k) f); [apply additive_gmul_l |]
    | |- additive (fun x => x) => apply additive_id
    | |- additive (fun _ => 0) => apply additive_const0
    end.

Ltac basis_check f g s :=
  apply (additive_ext 8 f g s); [additive_tac .. | | assumption];
  let i := fresh "i" in intros i ?; do 8 (destruct i as [| i]; [reflexivity |]); lia.

(** A row of a matrix on a column; the contribution of one variable to a product of a row
    with a matrix. *)
Definition lin (a b c d s0 s1 s2 s3 : Z) : Z :=
  Z.lxor (Z.lxor (Z.lxor (gmul s0 a) (gmul s1 b)) (gmul s2 c)) (gmul s3 d).

Definition path (a b c d p q r t s : Z) : Z :=
  lin a b c d (gmul s p) (gmul s q) (gmul s r) (gmul s t).

Lemma lin_lin a b c d p0 q0 r0 t0 p1 q1 r1 t1 p2 q2 r2 t2 p3 q3 r3 t3 s0 s1 s2 s3 :
  lin a b c d (lin p0 q0 r0 t0 s0 s1 s2 s3) (lin p1 q1 r1 t1 s0 s1 s2 s3)
              (lin p2 q2 r2 t2 s0 s1 s2 s3) (lin p3 q3 r3 t3 s0 s1 s2 s3) =
  Z.lxor (Z.lxor (Z.lxor (path a b c d p0 p1 p2 p3 s0) (path a b c d q0 q1 q2 q3 s1))
                 (path a b c d r0 r1 r2 r3 s2)) (path a b c d t0 t1 t2 t3 s3).
Proof.
  unfold path, lin. rewrite !(additive_gmul_l a), !(additive_gmul_l b), !(additive_gmul_l c),
    !(additive_gmul_l d). xor_ring.
Qed.

(** The product of the two matrices: a path contributes its variable on the diagonal and
    nothing elsewhere. *)
Ltac path_tac a b c d p q r t s g :=
  let f := constr:(fun s => Z.lxor (Z.lxor (Z.lxor (gmul (gmul s p) a) (gmul (gmul s q) b))
                                           (gmul (gmul s r) c)) (gmul (gmul s t) d)) in
  unfold path, lin; symmetry; basis_check f g s.

Ltac paths_tac :=
  repeat match goal with
    | |- context [path ?a ?b ?c ?d ?p ?q ?r ?t ?s] =>
        first [ replace (path a b c d p q r t s) with s by path_tac a b c d p q r t s (fun s : Z => s)
              | replace (path a b c d p q r t s) with 0 by path_tac a b c d p q r t s (fun _ : Z => 0) ]
    end;
  rewrite ?Z.lxor_0_l, ?Z.lxor_0_r.

Lemma gmul_1_r s : byte_ty s -> gmul s 1 = s.
Proof. intros H. basis_check (fun s => gmul s 1) (fun s : Z => s) s. Qed.

Lemma mix_column_lin s0 s1 s2 s3 :
  byte_ty s0 -> byte_ty s1 -> byte_ty s2 -> byte_ty s3 ->
  mix_column s0 s1 s2 s3 =
  [lin 2 3 1 1 s0 s1 s2 s3; lin 1 2 3 1 s0 s1 s2 s3; lin 1 1 2 3 s0 s1 s2 s3; lin 3 1 1 2 s0 s1 s2 s3].
Proof. intros. unfold mix_column, lin. by rewrite !gmul_1_r. Qed.

Lemma inv_mix_column_lin s0 s1 s2 s3 :
  inv_mix_column s0 s1 s2 s3 =
  [lin 14 11 13 9 s0 s1 s2 s3; lin 9 14 11 13 s0 s1 s2 s3;
   lin 13 9 14 11 s0 s1 s2 s3; lin 11 13 9 14 s0 s1 s2 s3].
Proof. reflexivity. Qed.

Lemma lin_ty a b c d s0 s1 s2 s3 :
  byte_ty s0 -> byte_ty s1 -> byte_ty s2 -> byte_ty s3 -> byte_ty (lin a b c d s0 s1 s2 s3).
Proof. intros. unfold lin. repeat (apply u_ty_lxor; [lia | | by apply gmul_ty]). by apply gmul_ty. Qed.

(** Four bytes, and a function of four bytes. *)
Definition on_word (f : Z -> Z -> Z -> Z -> list Z) (w : list Z) : list Z :=
  f (idx w 0) (idx w 1) (idx w 2) (idx w 3).

Lemma inv_mix_mix s0 s1 s2 s3 :
  byte_ty s0 -> byte_ty s1 -> byte_ty s2 -> byte_ty s3 ->
  on_word inv_mix_column (mix_column s0 s1 s2 s3) = [s0; s1; s2; s3].
Proof.
  intros. rewrite mix_column_lin by done. unfold on_word. rewrite inv_mix_column_lin.
  cbn [idx nth]. rewrite !lin_lin. paths_tac. done.
Qed.

Lemma mix_inv_mix s0 s1 s2 s3 :
  byte_ty s0 -> byte_ty s1 -> byte_ty s2 -> byte_ty s3 ->
  on_word mix_column (inv_mix_column s0 s1 s2 s3) = [s0; s1; s2; s3].
Proof.
  intros. unfold on_word. rewrite inv_mix_column_lin, mix_column_lin by (by apply lin_ty).
  cbn [idx nth]. rewrite !lin_lin. paths_tac. done.
Qed.

(** Sixteen bytes by name. *)
Lemma block16 s : block_ty 16 s ->
  exists a0 a1 a2 a3 b0 b1 b2 b3 c0 c1 c2 c3 d0 d1 d2 d3,
    s = [a0; a1; a2; a3; b0; b1; b2; b3; c0; c1; c2; c3; d0; d1; d2; d3].
Proof. intros [Hl _]. do 17 (destruct s as [| ? s]; try done). by repeat eexists. Qed.

Section Columns.
  Context (f g : Z -> Z -> Z -> Z -> list Z).
  Context (f_ty : forall s0 s1 s2 s3, byte_ty s0 -> byte_ty s1 -> byte_ty s2 -> byte_ty s3 ->
                    block_ty 4 (f s0 s1 s2 s3)).
  Context (g_f : forall s0 s1 s2 s3, byte_ty s0 -> byte_ty s1 -> byte_ty s2 -> byte_ty s3 ->
                   on_word g (f s0 s1 s2 s3) = [s0; s1; s2; s3]).

Lemma on_columns_inv s :
  block_ty 16 s -> block_ty 16 (on_columns f s) /\ on_columns g (on_columns f s) = s.
Proof.
  intros Hs. pose proof Hs as [_ Ht].
  destruct (block16 s Hs) as (a0&a1&a2&a3&b0&b1&b2&b3&c0&c1&c2&c3&d0&d1&d2&d3&->).
  rewrite !Forall_cons in Ht. destruct_and! Ht.
  unfold on_columns at 1 3. cbn [fmap list_fmap idx nth Nat.mul Nat.add concat].
  destruct (f_ty a0 a1 a2 a3) as [La Fa], (f_ty b0 b1 b2 b3) as [Lb Fb],
    (f_ty c0 c1 c2 c3) as [Lc Fc], (f_ty d0 d1 d2 d3) as [Ld Fd]; try done.
  split; [split; [rewrite !length_app; simpl; lia | by repeat apply Forall_app_2] |].
  pose proof (g_f a0 a1 a2 a3) as Ga. pose proof (g_f b0 b1 b2 b3) as Gb.
  pose proof (g_f c0 c1 c2 c3) as Gc. pose proof (g_f d0 d1 d2 d3) as Gd.
  destruct (f a0 a1 a2 a3) as [| ? [| ? [| ? [| ? [|]]]]]; try done.
  destruct (f b0 b1 b2 b3) as [| ? [| ? [| ? [| ? [|]]]]]; try done.
  destruct (f c0 c1 c2 c3) as [| ? [| ? [| ? [| ? [|]]]]]; try done.
  destruct (f d0 d1 d2 d3) as [| ? [| ? [| ? [| ? [|]]]]]; try done.
  unfold on_columns, on_word, idx in *. cbn in Ga, Gb, Gc, Gd |- *. by rewrite Ga, Gb, Gc, Gd.
Qed.

End Columns.

Lemma mix_column_ty s0 s1 s2 s3 :
  byte_ty s0 -> byte_ty s1 -> byte_ty s2 -> byte_ty s3 -> block_ty 4 (mix_column s0 s1 s2 s3).
Proof.
  intros. rewrite mix_column_lin by done. split; [done |].
  repeat constructor; by apply lin_ty.
Qed.

Lemma inv_mix_column_ty s0 s1 s2 s3 :
  byte_ty s0 -> byte_ty s1 -> byte_ty s2 -> byte_ty s3 -> block_ty 4 (inv_mix_column s0 s1 s2 s3).
Proof.
  intros. rewrite inv_mix_column_lin. split; [done |]. repeat constructor; by apply lin_ty.
Qed.

Lemma mix_columns_inv s :
  block_ty 16 s -> block_ty 16 (mix_columns s) /\ inv_mix_columns (mix_columns s) = s.
Proof. apply on_columns_inv; [apply mix_column_ty | apply inv_mix_mix]. Qed.

Lemma inv_mix_columns_inv s :
  block_ty 16 s -> block_ty 16 (inv_mix_columns s) /\ mix_columns (inv_mix_columns s) = s.
Proof. apply on_columns_inv; [apply inv_mix_column_ty | apply mix_inv_mix]. Qed.

Lemma table_inv (f g : Z -> Z) n s :
  (forall b, byte_ty (f b)) -> (forall b, byte_ty b -> g (f b) = b) ->
  block_ty n s -> block_ty n (f <$> s) /\ g <$> (f <$> s) = s.
Proof.
  intros Hf Hg [Hl Ht]. split; [split; [by rewrite length_fmap |] |].
  - apply Forall_fmap, Forall_true. intros b. apply Hf.
  - rewrite <- list_fmap_compose. rewrite <- (list_fmap_id s) at 2.
    apply list_fmap_ext. intros i b Hb. apply Hg. by apply (Forall_lookup_1 _ _ _ _ Ht Hb).
Qed.

Lemma shift_rows_inv s :
  block_ty 16 s -> block_ty 16 (shift_rows s) /\ inv_shift_rows (shift_rows s) = s.
Proof.
  intros Hs. split.
  - split; [done |]. apply Forall_fmap, Forall_true. intros i. apply idx_ty, Hs.
  - by destruct (block16 s Hs) as (a0&a1&a2&a3&b0&b1&b2&b3&c0&c1&c2&c3&d0&d1&d2&d3&->).
Qed.

Lemma inv_shift_rows_inv s :
  block_ty 16 s -> block_ty 16 (inv_shift_rows s) /\ shift_rows (inv_shift_rows s) = s.
Proof.
  intros Hs. split.
  - split; [done |]. apply Forall_fmap, Forall_true. intros i. apply idx_ty, Hs.
  - by destruct (block16 s Hs) as (a0&a1&a2&a3&b0&b1&b2&b3&c0&c1&c2&c3&d0&d1&d2&d3&->).
Qed.

(** ** Rounds in opposite order *)

Lemma fold_rounds {A} (P : A -> Prop) (enc dec : A -> nat -> A) (g : A -> A) l s :
  (forall s r, P s -> P (enc s r) /\ dec (g (enc s r)) r = g s) -> P s ->
  P (fold_left enc l s) /\ fold_left dec (rev l) (g (fold_left enc l s)) = g s.
Proof.
  intros Hstep. revert s. induction l as [| r l IH]; intros s Hs; [done |].
  cbn [rev fold_left]. destruct (Hstep s r Hs) as [Hp Hd]. destruct (IH (enc s r) Hp) as [HP IHd].
  split; [done |]. by rewrite fold_left_app, IHd.
Qed.

Section Rounds.
  Context (ks : list (list Z)) (rounds : nat).
  Context (ks_ty : forall i, (i <= rounds)%nat -> block_ty 16 (round_key ks i)).

(** Only the keys up to [rounds] are used; elsewhere any block would do. *)
Let key (i : nat) : list Z := if decide (i <= rounds)%nat then round_key ks i else replicate 16 0.

Lemma key_block i : block_ty 16 (key i).
Proof.
  unfold key. case_decide; [by apply ks_ty |]. split; [done |]. by apply Forall_replicate.
Qed.

Lemma fold_keys {A} (f : A -> list Z -> A) l s :
  Forall (fun i => (i <= rounds)%nat) l ->
  fold_left (fun s i => f s (round_key ks i)) l s = fold_left (fun s i => f s (key i)) l s.
Proof.
  intros Hl. revert s. induction Hl as [| i l Hi _ IH]; intros s; [done |].
  cbn [fold_left]. rewrite <- IH. unfold key. by rewrite decide_True.
Qed.

Lemma rounds_seq : (0 < rounds)%nat -> Forall (fun i => (i <= rounds)%nat) (seq 1 (rounds - 1)).
Proof. intros. apply Forall_forall. intros i Hi%elem_of_seq. lia. Qed.

Lemma sub_shift_inv s : block_ty 16 s ->
  block_ty 16 (shift_rows (sub_bytes s)) /\
  inv_sub_bytes (inv_shift_rows (shift_rows (sub_bytes s))) = s.
Proof.
  intros Hs. destruct (table_inv sbox inv_sbox 16 s sbox_ty inv_sbox_sbox Hs) as [Hb Hi].
  destruct (shift_rows_inv _ Hb) as [Hb' Hi']. split; [done |]. unfold sub_bytes. by rewrite Hi'.
Qed.

Lemma inv_shift_sub_inv s : block_ty 16 s ->
  block_ty 16 (inv_sub_bytes (inv_shift_rows s)) /\
  shift_rows (sub_bytes (inv_sub_bytes (inv_shift_rows s))) = s.
Proof.
  intros Hs. destruct (inv_shift_rows_inv _ Hs) as [Hb Hi].
  destruct (table_inv inv_sbox sbox 16 _ inv_sbox_ty sbox_inv_sbox Hb) as [Hb' Hi'].
  split; [done |]. unfold sub_bytes, inv_sub_bytes. by rewrite Hi'.
Qed.

Lemma inv_cipher_cipher s : (0 < rounds)%nat -> block_ty 16 s ->
  block_ty 16 (cipher s ks rounds) /\ inv_cipher (cipher s ks rounds) ks rounds = s.
Proof.
  intros Hr Hs. pose proof (ks_ty 0 ltac:(lia)) as H0. pose proof (ks_ty rounds ltac:(lia)) as HN.
  unfold cipher, inv_cipher, add_round_key. rewrite !(fold_keys (fun s k =>
    xor_bytes (mix_columns (shift_rows (sub_bytes s))) k)) by (by apply rounds_seq).
  rewrite (fold_keys (fun s k => inv_mix_columns (xor_bytes (inv_sub_bytes (inv_shift_rows s)) k)))
    by (by apply Forall_rev, rounds_seq).
  destruct (fold_rounds (block_ty 16)
    (fun s i => xor_bytes (mix_columns (shift_rows (sub_bytes s))) (key i))
    (fun s i => inv_mix_columns (xor_bytes (inv_sub_bytes (inv_shift_rows s)) (key i)))
    (fun s => shift_rows (sub_bytes s)) (seq 1 (rounds - 1)) (xor_bytes s (round_key ks 0)))
    as [Hty Hfold].
  - intros t r Ht. destruct (sub_shift_inv t Ht) as [Hg _].
    destruct (mix_columns_inv _ Hg) as [Hm Hi]. pose proof (key_block r) as Hk.
    assert (Hx : block_ty 16 (xor_bytes (mix_columns (shift_rows (sub_bytes t))) (key r)))
      by (by apply xor_block_ty).
    split; [done |]. destruct (sub_shift_inv _ Hx) as [_ ->].
    by rewrite (xor_block_cancel 16).
  - by apply xor_block_ty.
  - destruct (sub_shift_inv _ Hty) as [Hg _]. split; [by apply xor_block_ty |].
    rewrite (xor_block_cancel 16 _ (round_key ks rounds)) by done. rewrite Hfold.
    assert (Hx : block_ty 16 (xor_bytes s (round_key ks 0))) by (by apply xor_block_ty).
    destruct (sub_shift_inv _ Hx) as [_ ->]. by rewrite (xor_block_cancel 16).
Qed.

Lemma cipher_inv_cipher s : (0 < rounds)%nat -> block_ty 16 s ->
  block_ty 16 (inv_cipher s ks rounds) /\ cipher (inv_cipher s ks rounds) ks rounds = s.
Proof.
  intros Hr Hs. pose proof (ks_ty 0 ltac:(lia)) as H0. pose proof (ks_ty rounds ltac:(lia)) as HN.
  unfold cipher, inv_cipher, add_round_key. rewrite (fold_keys (fun s k =>
    xor_bytes (mix_columns (shift_rows (sub_bytes s))) k)) by (by apply rounds_seq).
  rewrite !(fold_keys (fun s k => inv_mix_columns (xor_bytes (inv_sub_bytes (inv_shift_rows s)) k)))
    by (by apply Forall_rev, rounds_seq).
  destruct (fold_rounds (block_ty 16)
    (fun s i => inv_mix_columns (xor_bytes (inv_sub_bytes (inv_shift_rows s)) (key i)))
    (fun s i => xor_bytes (mix_columns (shift_rows (sub_bytes s))) (key i))
    (fun s => inv_sub_bytes (inv_shift_rows s)) (rev (seq 1 (rounds - 1)))
    (xor_bytes s (round_key ks rounds))) as [Hty Hfold].
  - intros t r Ht. destruct (inv_shift_sub_inv t Ht) as [Hg _]. pose proof (key_block r) as Hk.
    assert (Hx : block_ty 16 (xor_bytes (inv_sub_bytes (inv_shift_rows t)) (key r)))
      by (by apply xor_block_ty).
    destruct (inv_mix_columns_inv _ Hx) as [Hm Hi]. split; [done |].
    destruct (inv_shift_sub_inv _ Hm) as [_ ->]. rewrite Hi. by apply (xor_block_cancel 16).
  - by apply xor_block_ty.
  - rewrite rev_involutive in Hfold.
    destruct (inv_shift_sub_inv _ Hty) as [Hg _]. split; [by apply xor_block_ty |].
    rewrite (xor_block_cancel 16 _ (round_key ks 0)) by done. rewrite Hfold.
    assert (Hx : block_ty 16 (xor_bytes s (round_key ks rounds))) by (by apply xor_block_ty).
    destruct (inv_shift_sub_inv _ Hx) as [_ ->]. by apply (xor_block_cancel 16).
Qed.

End Rounds.

(** ** Key schedules *)

Lemma block4 w : block_ty 4 w -> exists a b c d, w = [a; b; c; d].
Proof. intros [Hl _]. do 5 (destruct w as [| ? w]; try done). by repeat eexists. Qed.

Ltac split_words :=
  repeat match goal with
    | H : block_ty 4 ?w |- _ => is_var w; destruct (block4 w H) as (?&?&?&?&->); clear H
    end.

Lemma fill_key_words a b c d t :
  block_ty 4 a -> block_ty 4 b -> block_ty 4 c -> block_ty 4 d -> block_ty 4 t ->
  fill_key (a ++ b ++ c ++ d) t =
  xor_bytes a t ++ xor_bytes b (xor_bytes a t) ++ xor_bytes c (xor_bytes b (xor_bytes a t))
  ++ xor_bytes d (xor_bytes c (xor_bytes b (xor_bytes a t))).
Proof. intros. split_words. reflexivity. Qed.

Lemma last_word_words a b c d :
  block_ty 4 a -> block_ty 4 b -> block_ty 4 c -> block_ty 4 d -> last_word (a ++ b ++ c ++ d) = d.
Proof. intros. split_words. reflexivity. Qed.

Lemma xor_first_word t c : block_ty 4 t -> xor_first t c = xor_bytes t [c; 0; 0; 0].
Proof. intros. split_words. cbn. by rewrite !Z.lxor_0_r. Qed.

Lemma sub_word_ty t : block_ty 4 t -> block_ty 4 (sbox <$> t).
Proof.
  intros [Hl _]. split; [by rewrite length_fmap |].
  apply Forall_fmap, Forall_true. intros. apply sbox_ty.
Qed.

Lemma rotate_ty t : block_ty 4 t -> block_ty 4 (rotate_left1 t).
Proof.
  intros [Hl Ht]. unfold rotate_left1. split; [rewrite length_app, length_drop, length_take; lia |].
  apply Forall_app_2; [by apply Forall_drop | by apply Forall_take].
Qed.

Lemma word_app_l w w' i : (i < length w)%nat -> word (w ++ w') i = word w i.
Proof. intros. unfold word. by rewrite app_nth1. Qed.

Lemma word_app_r w w' i : (length w <= i)%nat -> word (w ++ w') i = word w' (i - length w).
Proof. intros. unfold word. by rewrite app_nth2. Qed.

Lemma word_block w i : Forall (block_ty 4) w -> (i < length w)%nat -> block_ty 4 (word w i).
Proof.
  intros Hw Hi. apply (Forall_lookup_1 _ w i); [done |]. by rewrite (lookup_nth w i []).
Qed.

(** The word that starts key [i]: what the schedule makes of the last word of the key before. *)
Definition fips_temp (nk i : nat) (t : list Z) : list Z :=
  if (i mod nk =? 0)%nat then
    xor_bytes (sbox <$> rotate_left1 t) [Nat.iter (i / nk - 1) (field_mul 2) 1; 0; 0; 0]
  else if ((6 <? nk) && (i mod nk =? 4))%nat then sbox <$> t else t.

Lemma fips_word_eq nk w i :
  fips_word nk w i = xor_bytes (word w (i - nk)) (fips_temp nk i (word w (i - 1))).
Proof. reflexivity. Qed.

Lemma fips_temp_inner nk i k t :
  (nk = 4 \/ nk = 8)%nat -> (0 < k < 4)%nat -> fips_temp nk (4 * i + k) t = t.
Proof.
  intros Hnk Hk. unfold fips_temp.
  assert (Hm : (((4 * i + k) mod nk) mod 4 = k)%nat).
  { replace (4 * i + k)%nat with (k + i * 4)%nat by lia.
    assert (H4 : ((k + i * 4) mod 4 = k)%nat)
      by (rewrite Nat.Div0.mod_add; apply Nat.mod_small; lia).
    destruct Hnk as [-> | ->]; [by rewrite Nat.Div0.mod_mod |].
    change 8%nat with (4 * 2)%nat. rewrite Nat.Div0.mod_mul_r, H4, Nat.mul_comm, Nat.Div0.mod_add.
    apply Nat.mod_small. lia. }
  destruct (Nat.eqb_spec ((4 * i + k) mod nk) 0) as [E | _]; [rewrite E in Hm; simpl in Hm; lia |].
  destruct (Nat.eqb_spec ((4 * i + k) mod nk) 4) as [E | _]; [rewrite E in Hm; simpl in Hm; lia |].
  by rewrite andb_false_r.
Qed.

(** Four words of the schedule. *)
Definition next_words (nk i : nat) (w : list (list Z)) (t : list Z) : list (list Z) :=
  let n0 := xor_bytes (word w (4 * i - nk)) t in
  let n1 := xor_bytes (word w (4 * i + 1 - nk)) n0 in
  let n2 := xor_bytes (word w (4 * i + 2 - nk)) n1 in
  let n3 := xor_bytes (word w (4 * i + 3 - nk)) n2 in
  [n0; n1; n2; n3].

Lemma fips_word_last nk i k w n :
  (nk = 4 \/ nk = 8)%nat -> (0 < k < 4)%nat -> length n = k -> length w = (4 * i)%nat ->
  (nk <= 4 * i)%nat ->
  fips_word nk (w ++ n) (4 * i + k) = xor_bytes (word w (4 * i + k - nk)) (word n (k - 1)).
Proof.
  intros Hnk Hk Hn Hw Hi. rewrite fips_word_eq, fips_temp_inner by done.
  rewrite (word_app_l w) by lia. rewrite (word_app_r w) by lia.
  by replace (4 * i + k - 1 - length w)%nat with (k - 1)%nat by lia.
Qed.

Lemma fips_words4 nk i w :
  (nk = 4 \/ nk = 8)%nat -> length w = (4 * i)%nat -> (nk <= 4 * i)%nat ->
  fold_left (fun w i => w ++ [fips_word nk w i]) (seq (4 * i) 4) w =
  w ++ next_words nk i w (fips_temp nk (4 * i) (word w (4 * i - 1))).
Proof.
  intros Hnk Hl Hi.
  replace (seq (4 * i) 4) with [4 * i; 4 * i + 1; 4 * i + 2; 4 * i + 3]%nat
    by (cbn [seq]; repeat f_equal; lia).
  cbn [fold_left]. rewrite (fips_word_eq nk w (4 * i)).
  set (n0 := xor_bytes _ (fips_temp _ _ _)).
  rewrite (fips_word_last nk i 1 w [n0]) by (done || lia).
  set (n1 := xor_bytes _ (word [n0] _)). rewrite <- !(app_assoc w [n0]). cbn [app].
  rewrite (fips_word_last nk i 2 w [n0; n1]) by (done || lia).
  set (n2 := xor_bytes _ (word [n0; n1] _)). rewrite <- !(app_assoc w [n0; n1]). cbn [app].
  rewrite (fips_word_last nk i 3 w [n0; n1; n2]) by (done || lia).
  by rewrite <- app_assoc.
Qed.

Lemma fill_key_next nk i w t :
  (nk = 4 \/ nk = 8)%nat -> length w = (4 * i)%nat -> (nk <= 4 * i)%nat ->
  Forall (block_ty 4) w -> block_ty 4 t ->
  fill_key (key_words w (i - nk / 4)) t = concat (next_words nk i w t) /\
  Forall (block_ty 4) (next_words nk i w t).
Proof.
  intros Hnk Hl Hi Hw Ht. unfold key_words.
  assert (Hb : forall k, (k < 4)%nat -> block_ty 4 (word w (4 * i + k - nk))).
  { intros k Hk. apply word_block; [done |]. lia. }
  assert (He : forall k, (4 * (i - nk / 4) + k = 4 * i + k - nk)%nat).
  { intros k. destruct Hnk as [-> | ->]; simpl; lia. }
  pose proof (He 0%nat) as E0. rewrite !Nat.add_0_r in E0. rewrite (He 1%nat), (He 2%nat), (He 3%nat), E0.
  pose proof (Hb 0%nat ltac:(lia)) as B0. rewrite Nat.add_0_r in B0.
  rewrite fill_key_words by (done || (apply Hb; lia)). split; [by cbn; rewrite !app_nil_r |].
  unfold next_words.
  repeat (constructor; [repeat (apply xor_block_ty; [first [done | apply Hb; lia] |]); done |]).
  constructor.
Qed.

(** The code's round keys and the words of the schedule, after [i] keys. *)
Definition keys_agree (i : nat) (ks w : list (list Z)) : Prop :=
  length ks = i /\ length w = (4 * i)%nat /\ Forall (block_ty 4) w /\
  forall k, (k < i)%nat -> round_key ks k = key_words w k.

Lemma keys_agree_snoc nk i ks w t :
  (nk = 4 \/ nk = 8)%nat -> (nk <= 4 * i)%nat -> keys_agree i ks w ->
  t = fips_temp nk (4 * i) (last_word (round_key ks (i - 1))) -> block_ty 4 t ->
  keys_agree (S i) (ks ++ [fill_key (round_key ks (i - nk / 4)) t])
    (fold_left (fun w i => w ++ [fips_word nk w i]) (seq (4 * i) 4) w).
Proof.
  intros Hnk Hi (Hks & Hl & Hw & Heq) Ht Hty.
  assert (Hi0 : (0 < i)%nat) by lia.
  assert (Hq : (i - nk / 4 < i)%nat) by (destruct Hnk as [-> | ->]; simpl; lia).
  assert (Hlast : last_word (round_key ks (i - 1)) = word w (4 * i - 1)).
  { rewrite Heq by lia. unfold key_words. rewrite last_word_words by (apply word_block; [done | lia]).
    f_equal. lia. }
  rewrite fips_words4 by done. rewrite <- Hlast, <- Ht, (Heq _ Hq).
  destruct (fill_key_next nk i w t) as [Hf Hn]; [done .. |].
  assert (Hln : length (next_words nk i w t) = 4%nat) by done.
  split_and!.
  - rewrite length_app. simpl. lia.
  - rewrite length_app, Hln. lia.
  - by apply Forall_app_2.
  - intros k Hk. rewrite Hf. unfold round_key. fold (word (ks ++ [concat (next_words nk i w t)]) k). unfold key_words.
    destruct (decide (k < i)%nat) as [Hlt | Hge].
    + rewrite !word_app_l by lia. exact (Heq k Hlt).
    + assert (k = i) as -> by lia. rewrite !word_app_r by lia. rewrite Hks, Hl, Nat.sub_diag.
      replace (4 * i - 4 * i)%nat with 0%nat by lia.
      replace (4 * i + 1 - 4 * i)%nat with 1%nat by lia.
      replace (4 * i + 2 - 4 * i)%nat with 2%nat by lia.
      replace (4 * i + 3 - 4 * i)%nat with 3%nat by lia.
      cbn. by rewrite app_nil_r.
Qed.

Lemma fold_left_concat {A B} (f : A -> B -> A) (ll : list (list B)) s :
  fold_left f (concat ll) s = fold_left (fun s l => fold_left f l s) ll s.
Proof.
  revert s. induction ll as [| l ll IH]; intros s; [done |].
  cbn [concat fold_left]. by rewrite fold_left_app, IH.
Qed.

Lemma fold_left_map {A B C} (f : A -> B -> A) (g : C -> B) l s :
  fold_left f (map g l) s = fold_left (fun s c => f s (g c)) l s.
Proof. revert s. induction l as [| c l IH]; intros s; [done |]. cbn. apply IH. Qed.

Lemma keys_agree_fold nk (step : list (list Z) -> nat -> list (list Z)) start n ks w :
  keys_agree start ks w ->
  (forall i ks w, (start <= i < start + n)%nat -> keys_agree i ks w ->
     keys_agree (S i) (step ks i)
       (fold_left (fun w i => w ++ [fips_word nk w i]) (seq (4 * i) 4) w)) ->
  keys_agree (start + n) (fold_left step (seq start n) ks)
    (fold_left (fun w i => w ++ [fips_word nk w i])
       (concat (map (fun i => seq (4 * i) 4) (seq start n))) w).
Proof.
  intros H0 Hs. rewrite fold_left_concat, fold_left_map. revert start ks w H0 Hs.
  induction n as [| n IH]; intros start ks w H0 Hs; [by rewrite Nat.add_0_r |].
  cbn [seq fold_left]. replace (start + S n)%nat with (S start + n)%nat by lia.
  apply IH; [apply Hs; [lia | done] |]. intros i ks' w' Hi. apply Hs. lia.
Qed.

(** The round constants are the powers of x. *)
Lemma rcon_power i : (1 <= i <= 10)%nat ->
  idx RCON (i - 1) = Nat.iter (i - 1) (field_mul 2) 1 /\ byte_ty (idx RCON (i - 1)).
Proof.
  intros Hi. destruct i as [| i]; [lia |]. rewrite Nat.sub_succ, Nat.sub_0_r.
  do 10 (destruct i as [| i]; [by split |]). lia.
Qed.

Lemma rcon256_eq i : (1 <= i <= 7)%nat -> idx RCON256 (i - 1) = idx RCON (i - 1).
Proof.
  intros Hi. destruct i as [| i]; [lia |]. rewrite Nat.sub_succ, Nat.sub_0_r.
  do 7 (destruct i as [| i]; [done |]). lia.
Qed.

Lemma round_word_ty d c : block_ty 4 d -> byte_ty c ->
  block_ty 4 (xor_first (sbox <$> rotate_left1 d) c).
Proof.
  intros Hd Hc. rewrite xor_first_word by (by apply sub_word_ty, rotate_ty).
  apply xor_block_ty; [by apply sub_word_ty, rotate_ty |].
  split; [done |]. by repeat (apply Forall_cons; split; [done |]).
Qed.

Lemma round_key_last i ks w : keys_agree i ks w -> (0 < i)%nat -> block_ty 4 (last_word (round_key ks (i - 1))).
Proof.
  intros (Hks & Hl & Hw & Heq) Hi. rewrite Heq by lia. unfold key_words.
  rewrite last_word_words by (apply word_block; [done | lia]). apply word_block; [done | lia].
Qed.

Ltac forall_words :=
  repeat (apply Forall_cons; split; [split; [done |]; by repeat (apply Forall_cons; split; [done |]) |]);
  done.

Lemma expansion128 key : block_ty 16 key ->
  keys_agree 11 (key_expansion128 key 10) (fips_expand 4 10 key).
Proof.
  intros Hk. unfold fips_expand, key_expansion128.
  change (seq 4 (4 * (10 + 1) - 4)) with (concat (map (fun i => seq (4 * i) 4) (seq 1 10))).
  apply (keys_agree_fold 4 _ 1 10).
  - destruct (block16 key Hk) as (a0&a1&a2&a3&b0&b1&b2&b3&c0&c1&c2&c3&d0&d1&d2&d3&->).
    destruct Hk as [_ Ht]. rewrite !Forall_cons in Ht. destruct_and! Ht.
    split; [done |]. split; [done |]. split; [forall_words |].
    intros k Hk. by assert (k = 0%nat) as -> by lia.
  - intros i ks w Hi Ha. pose proof (round_key_last i ks w Ha ltac:(lia)) as Hd.
    destruct (rcon_power i ltac:(lia)) as [Hr Hb].
    apply (keys_agree_snoc 4); [by left | lia | done | | by apply round_word_ty].
    rewrite xor_first_word by (by apply sub_word_ty, rotate_ty). unfold fips_temp.
    rewrite Nat.mul_comm, Nat.Div0.mod_mul, Nat.div_mul by lia. cbn [Nat.eqb]. by rewrite Hr.
Qed.

Lemma expansion256 key : block_ty 32 key ->
  keys_agree 15 (key_expansion256 key) (fips_expand 8 14 key).
Proof.
  intros Hk. unfold fips_expand, key_expansion256.
  change (seq 8 (4 * (14 + 1) - 8)) with (concat (map (fun i => seq (4 * i) 4) (seq 2 13))).
  apply (keys_agree_fold 8 _ 2 13).
  - assert (Ha : block_ty 16 (take 16 key)).
    { destruct Hk. split; [rewrite length_take; lia | by apply Forall_take]. }
    assert (Hb : block_ty 16 (drop 16 key)).
    { destruct Hk. split; [rewrite length_drop; lia | by apply Forall_drop]. }
    rewrite <- (take_drop 16 key) at 3. revert Ha Hb. generalize (take 16 key), (drop 16 key).
    clear Hk. intros k1 k2 H1 H2.
    destruct (block16 k1 H1) as (a0&a1&a2&a3&b0&b1&b2&b3&c0&c1&c2&c3&d0&d1&d2&d3&->).
    destruct (block16 k2 H2) as (e0&e1&e2&e3&f0&f1&f2&f3&g0&g1&g2&g3&h0&h1&h2&h3&->).
    destruct H1 as [_ H1], H2 as [_ H2]. rewrite !Forall_cons in H1, H2.
    destruct_and! H1. destruct_and! H2.
    split; [done |]. split; [done |]. split; [forall_words |].
    intros k Hk. by destruct k as [| [|]]; [.. | lia].
  - intros i ks w Hi Ha. pose proof (round_key_last i ks w Ha ltac:(lia)) as Hd.
    destruct (Nat.eqb_spec (i mod 2) 0) as [Hev | Hodd].
    + destruct (proj1 (Nat.Div0.mod_divides i 2) Hev) as [j ->].
      rewrite (Nat.mul_comm 2 j), Nat.div_mul by lia.
      destruct (rcon_power j ltac:(lia)) as [Hr Hb].
      rewrite rcon256_eq by lia.
      apply (keys_agree_snoc 8); [by right | lia | by rewrite Nat.mul_comm | |].
      * rewrite xor_first_word by (apply sub_word_ty, rotate_ty; by rewrite Nat.mul_comm).
        unfold fips_temp. replace (4 * (j * 2))%nat with (j * 8)%nat by lia.
        rewrite Nat.Div0.mod_mul, Nat.div_mul by lia. cbn [Nat.eqb]. by rewrite Hr.
      * apply round_word_ty; [by rewrite Nat.mul_comm | done].
    + apply (keys_agree_snoc 8); [by right | lia | done | | by apply sub_word_ty].
      unfold fips_temp. assert (Hm : ((4 * i) mod 8 = 4)%nat).
      { change 8%nat with (4 * 2)%nat. rewrite Nat.Div0.mul_mod_distr_l.
        pose proof (Nat.mod_upper_bound i 2). lia. }
      by rewrite Hm.
Qed.

Lemma keys_agree_block n ks w i : keys_agree n ks w -> (i < n)%nat -> block_ty 16 (round_key ks i).
Proof.
  intros (Hks & Hl & Hw & Heq) Hi. rewrite Heq by done. unfold key_words.
  assert (Hb : forall k, (k < 4)%nat -> block_ty 4 (word w (4 * i + k)))
    by (intros k Hk; apply word_block; [done | lia]).
  pose proof (Hb 0%nat ltac:(lia)) as [L0 F0]. rewrite Nat.add_0_r in L0, F0.
  pose proof (Hb 1%nat ltac:(lia)) as [L1 F1]. pose proof (Hb 2%nat ltac:(lia)) as [L2 F2].
  pose proof (Hb 3%nat ltac:(lia)) as [L3 F3].
  split; [rewrite !length_app; lia | by repeat apply Forall_app_2].
Qed.

Lemma aes128_inverse key block : block_ty 16 key -> block_ty 16 block ->
  (block_ty 16 (encrypt_block128 (new128 key) block) /\
   decrypt_block128 (new128 key) (encrypt_block128 (new128 key) block) = block) /\
  (block_ty 16 (decrypt_block128 (new128 key) block) /\
   encrypt_block128 (new128 key) (decrypt_block128 (new128 key) block) = block).
Proof.
  intros Hk Hb. assert (Hks : forall i, (i <= 10)%nat -> block_ty 16 (round_key (key_expansion128 key 10) i))
    by (intros i Hi; apply (keys_agree_block 11 _ (fips_expand 4 10 key)); [by apply expansion128 | lia]).
  split; [apply inv_cipher_cipher | apply cipher_inv_cipher]; (done || lia).
Qed.

Lemma aes256_inverse key block : block_ty 32 key -> block_ty 16 block ->
  (block_ty 16 (encrypt_block256 (new256 key) block) /\
   decrypt_block256 (new256 key) (encrypt_block256 (new256 key) block) = block) /\
  (block_ty 16 (decrypt_block256 (new256 key) block) /\
   encrypt_block256 (new256 key) (decrypt_block256 (new256 key) block) = block).
Proof.
  intros Hk Hb. assert (Hks : forall i, (i <= 14)%nat -> block_ty 16 (round_key (key_expansion256 key) i))
    by (intros i Hi; apply (keys_agree_block 15 _ (fips_expand 8 14 key)); [by apply expansion256 | lia]).
  split; [apply inv_cipher_cipher | apply cipher_inv_cipher]; (done || lia).
Qed.

(** ** Properties *)

(** C7: for every key and every block, decryption inverts encryption and encryption inverts
    decryption, for AES-128 and for AES-256: both are permutations of the blocks. *)
Theorem aes_roundtrip key128 key256 block :
  block_ty 16 key128 -> block_ty 32 key256 -> block_ty 16 block ->
  decrypt_block128 (new128 key128) (encrypt_block128 (new128 key128) block) = block /\
  encrypt_block128 (new128 key128) (decrypt_block128 (new128 key128) block) = block /\
  decrypt_block256 (new256 key256) (encrypt_block256 (new256 key256) block) = block /\
  encrypt_block256 (new256 key256) (decrypt_block256 (new256 key256) block) = block.
Proof.
  intros H1 H2 Hb. destruct (aes128_inverse _ _ H1 Hb) as [[_ E1] [_ D1]].
  by destruct (aes256_inverse _ _ H2 Hb) as [[_ E2] [_ D2]].
Qed.

(** The example vectors of FIPS 197, appendix C. *)
Definition fips_plain : list Z := (fun i => 17 * Z.of_nat i) <$> seq 0 16.
Definition fips_key (n : nat) : list Z := Z.of_nat <$> seq 0 n.

Lemma aes_roundtrip_witness :
  encrypt_block128 (new128 (fips_key 16)) fips_plain =
    [0x69; 0xc4; 0xe0; 0xd8; 0x6a; 0x7b; 0x04; 0x30; 0xd8; 0xcd; 0xb7; 0x80; 0x70; 0xb4; 0xc5; 0x5a] /\
  encrypt_block256 (new256 (fips_key 32)) fips_plain =
    [0x8e; 0xa2; 0xb7; 0xca; 0x51; 0x67; 0x45; 0xbf; 0xea; 0xfc; 0x49; 0x90; 0x4b; 0x49; 0x60; 0x89] /\
  decrypt_block128 (new128 (fips_key 16)) (encrypt_block128 (new128 (fips_key 16)) fips_plain)
    = fips_plain.
Proof.
  split; [vm_compute; reflexivity |]. split; [vm_compute; reflexivity |].
  apply (aes_roundtrip (fips_key 16) (fips_key 32) fips_plain); apply (bool_decide_unpack _); reflexivity.
Defined.

(** C16: the round keys of the code, filled byte by byte in blocks of sixteen, are the words of
    the key schedule of FIPS 197, for keys of four and of eight words. *)
Theorem key_schedule_fips key128 key256 i :
  block_ty 16 key128 -> block_ty 32 key256 ->
  ((i <= 10)%nat -> round_key (round_keys128 (new128 key128)) i = key_words (fips_expand 4 10 key128) i) /\
  ((i <= 14)%nat -> round_key (round_keys256 (new256 key256)) i = key_words (fips_expand 8 14 key256) i).
Proof.
  intros H1 H2. destruct (expansion128 _ H1) as (_ & _ & _ & E1).
  destruct (expansion256 _ H2) as (_ & _ & _ & E2).
  split; intros Hi; [apply E1 | apply E2]; lia.
Qed.

Lemma key_schedule_fips_witness :
  round_key (round_keys128 (new128 (fips_key 16))) 10 = key_words (fips_expand 4 10 (fips_key 16)) 10 /\
  round_key (round_keys256 (new256 (fips_key 32))) 10 = key_words (fips_expand 8 14 (fips_key 32)) 10.
Proof.
  destruct (key_schedule_fips (fips_key 16) (fips_key 32) 10) as [E1 E2];
    [apply (bool_decide_unpack _); reflexivity .. |].
  split; [apply E1; lia | apply E2; lia].
Defined.

(** The tables and the multiplication are those of the field with 256 elements: [gmul] is
    the product of polynomials modulo x^8 + x^4 + x^3 + x + 1, an entry of [SBOX] is the affine
    map of the inverse, and [INV_SBOX] is the inverse table in both directions. *)
Theorem aes_field a b :
  byte_ty a -> byte_ty b ->
  gmul a b = field_mul a b /\
  (a <> 0 -> field_mul a (field_inv a) = 1) /\
  sbox a = affine (field_inv a) /\ inv_sbox (sbox a) = a /\ sbox (inv_sbox a) = a.
Proof.
  intros Ha Hb. split; [by apply gmul_field |].
  assert (H : forall a, byte_ty a ->
    ((a =? 0) || (field_mul a (field_inv a) =? 1)) && (sbox a =? affine (field_inv a)) = true)
    by (apply byte_forall; vm_compute; reflexivity).
  specialize (H a Ha). apply andb_true_iff in H as [H1 H2]. apply orb_true_iff in H1.
  split_and!; [| by apply Z.eqb_eq | by apply inv_sbox_sbox | by apply sbox_inv_sbox].
  intros Hne. destruct H1 as [H1 | H1]; [by apply Z.eqb_eq in H1 | by apply Z.eqb_eq].
Qed.

Lemma aes_field_witness : gmul 0x57 0x83 = field_mul 0x57 0x83 /\ gmul 0x57 0x83 = 0xc1.
Proof. split; [apply (aes_field 0x57 0x83); done | reflexivity]. Defined.

End Aes.
