(* ===== verification/CipherModes.v ===== *)
(** * Block cipher modes, RC4 and the authenticated mode ([crypto/cipher.rs])

    ECB, CBC and CTR over an interface of block ciphers that [Aes128], [Aes256] and Triple DES
    implement, the stream cipher [Rc4], and [Gcm] with its hash. Triple DES is the code of
    the [des] crate: a parameter of the definitions that use it. *)

From Stdlib Require Import ZArith Lia Ring.
From S2P Require Import Prelude Bytes Aes.

Module CipherModes.
Import Aes.

(** ** Block ciphers *)

Class BlockCipher (C : Type) := {
  block_size : nat;
  encrypt_block : C -> list Z -> list Z;
  decrypt_block : C -> list Z -> list Z }.

(** What the modes rely on, for the ciphers [ok] that a constructor returns. *)
Class BlockCipherLaws (C : Type) `{BlockCipher C} (ok : C -> Prop) := {
  block_size_pos : (0 < block_size)%nat;
  encrypt_block_ty c b : ok c -> block_ty block_size b -> block_ty block_size (encrypt_block c b);
  decrypt_encrypt c b : ok c -> block_ty block_size b ->
    decrypt_block c (encrypt_block c b) = b }.

Definition AES_BLOCK_SIZE : nat := 16.

#[export] Instance aes128_cipher : BlockCipher Aes128 := {|
  block_size := AES_BLOCK_SIZE;
  encrypt_block := encrypt_block128;
  decrypt_block := decrypt_block128 |}.

#[export] Instance aes256_cipher : BlockCipher Aes256 := {|
  block_size := AES_BLOCK_SIZE;
  encrypt_block := encrypt_block256;
  decrypt_block := decrypt_block256 |}.

Definition aes128_ok (c : Aes128) : Prop := exists key, block_ty 16 key /\ c = new128 key.
Definition aes256_ok (c : Aes256) : Prop := exists key, block_ty 32 key /\ c = new256 key.

#[export] Instance aes128_laws : BlockCipherLaws Aes128 aes128_ok.
Proof.
  split; [unfold block_size; simpl; unfold AES_BLOCK_SIZE; lia | |].
  - intros c b (key & Hk & ->) Hb. exact (proj1 (proj1 (aes128_inverse key b Hk Hb))).
  - intros c b (key & Hk & ->) Hb. exact (proj2 (proj1 (aes128_inverse key b Hk Hb))).
Qed.

#[export] Instance aes256_laws : BlockCipherLaws Aes256 aes256_ok.
Proof.
  split; [unfold block_size; simpl; unfold AES_BLOCK_SIZE; lia | |].
  - intros c b (key & Hk & ->) Hb. exact (proj1 (proj1 (aes256_inverse key b Hk Hb))).
  - intros c b (key & Hk & ->) Hb. exact (proj2 (proj1 (aes256_inverse key b Hk Hb))).
Qed.

(** The error strings of the module. *)
Inductive cipher_error := EcbAlignment | CbcAlignment | TdesAlignment | TdesFeature.

Inductive result (A : Type) := Ok (a : A) | Err (e : cipher_error).
Arguments Ok {A} a.
Arguments Err {A} e.

(** [len.is_multiple_of(n)] *)
Definition is_multiple_of (len n : nat) : bool := (len mod n =? 0)%nat.

(** ** ECB *)

Record Ecb (C : Type) := mk_ecb { ecb_cipher : C }.
Arguments mk_ecb {C} _.
Arguments ecb_cipher {C} _.

Definition ecb_new_aes128 (key : list Z) : Ecb Aes128 := mk_ecb (new128 key).

Definition ecb_encrypt `{BlockCipher C} (e : Ecb C) (plaintext : list Z) : result (list Z) :=
  if negb (is_multiple_of (length plaintext) block_size) then Err EcbAlignment
  else Ok (fold_left (fun output chunk => output ++ encrypt_block (ecb_cipher e) chunk)
             (chunks block_size plaintext) []).

Definition ecb_decrypt `{BlockCipher C} (e : Ecb C) (ciphertext : list Z) : result (list Z) :=
  if negb (is_multiple_of (length ciphertext) block_size) then Err EcbAlignment
  else Ok (fold_left (fun output chunk => output ++ decrypt_block (ecb_cipher e) chunk)
             (chunks block_size ciphertext) []).

(** ** CBC *)

Record Cbc (C : Type) := mk_cbc { cbc_cipher : C; cbc_iv : list Z }.
Arguments mk_cbc {C} _ _.
Arguments cbc_cipher {C} _.
Arguments cbc_iv {C} _.

Definition cbc_new_aes128 (key iv : list Z) : Cbc Aes128 := mk_cbc (new128 key) iv.
Definition cbc_new_aes256 (key iv : list Z) : Cbc Aes256 := mk_cbc (new256 key) iv.

(** One round of the loops over [output] and the previous ciphertext block. *)
Definition cbc_encrypt_chunk `{BlockCipher C} (c : C) (s : list Z * list Z) (chunk : list Z)
    : list Z * list Z :=
  let '(output, prev) := s in
  let block := encrypt_block c (xor_bytes chunk prev) in
  (output ++ block, block).

Definition cbc_decrypt_chunk `{BlockCipher C} (c : C) (s : list Z * list Z) (chunk : list Z)
    : list Z * list Z :=
  let '(output, prev) := s in
  let block := xor_bytes (decrypt_block c chunk) prev in
  (output ++ block, chunk).

Definition cbc_encrypt `{BlockCipher C} (m : Cbc C) (plaintext : list Z) : result (list Z) :=
  if negb (is_multiple_of (length plaintext) block_size) then Err CbcAlignment
  else Ok (fst (fold_left (cbc_encrypt_chunk (cbc_cipher m)) (chunks block_size plaintext)
                  ([], cbc_iv m))).

Definition cbc_decrypt `{BlockCipher C} (m : Cbc C) (ciphertext : list Z) : result (list Z) :=
  if negb (is_multiple_of (length ciphertext) block_size) then Err CbcAlignment
  else Ok (fst (fold_left (cbc_decrypt_chunk (cbc_cipher m)) (chunks block_size ciphertext)
                  ([], cbc_iv m))).

(** The methods of [Cbc<Aes256>], written out again in the source. *)
Definition cbc_encrypt_aes256 : Cbc Aes256 -> list Z -> result (list Z) := cbc_encrypt.
Definition cbc_decrypt_aes256 : Cbc Aes256 -> list Z -> result (list Z) := cbc_decrypt.

(** ** Triple DES in CBC mode *)

Section TripleDes.
  (** [des::TdesEde3], its key setup and its block operations. *)
  Context (TdesEde3 : Type) (tdes_key : list Z -> TdesEde3).
  Context (tdes_encrypt tdes_decrypt : TdesEde3 -> list Z -> list Z).

Definition tdes_cipher : BlockCipher TdesEde3 := {|
  block_size := 8;
  encrypt_block := tdes_encrypt;
  decrypt_block := tdes_decrypt |}.

(** Without the feature [crypto_libs] there is no cipher. *)
Definition tripledes_new (crypto_libs : bool) (key : list Z) : result TdesEde3 :=
  if crypto_libs then Ok (tdes_key key) else Err TdesFeature.

Definition tdes_cbc_encrypt (key iv input : list Z) : result (list Z) :=
  if negb (is_multiple_of (length input) 8) then Err TdesAlignment
  else match tripledes_new true key with
       | Err e => Err e
       | Ok cipher => Ok (fst (fold_left (@cbc_encrypt_chunk _ tdes_cipher cipher)
                                 (chunks 8 input) ([], iv)))
       end.

Definition tdes_cbc_decrypt (key iv input : list Z) : result (list Z) :=
  if negb (is_multiple_of (length input) 8) then Err TdesAlignment
  else match tripledes_new true key with
       | Err e => Err e
       | Ok cipher => Ok (fst (fold_left (@cbc_decrypt_chunk _ tdes_cipher cipher)
                                 (chunks 8 input) ([], iv)))
       end.

End TripleDes.

(** ** CTR *)

(** [for i in (0..16).rev()] from the last byte, until a byte does not wrap to zero. *)
Fixpoint increment_from_last (rest : list Z) : list Z :=
  match rest with
  | [] => []
  | b :: rest => let b := b +[8] 1 in
                 if negb (b =? 0) then b :: rest else b :: increment_from_last rest
  end.

Definition increment_counter (counter : list Z) : list Z :=
  rev (increment_from_last (rev counter)).

Record Ctr (C : Type) := mk_ctr { ctr_cipher : C; ctr_counter : list Z }.
Arguments mk_ctr {C} _ _.
Arguments ctr_cipher {C} _.
Arguments ctr_counter {C} _.

Definition ctr_new_aes128 (key nonce : list Z) : Ctr Aes128 := mk_ctr (new128 key) nonce.
Definition ctr_new_aes256 (key nonce : list Z) : Ctr Aes256 := mk_ctr (new256 key) nonce.

(** A chunk is changed in place; the chunks before it are in [done]. *)
Definition ctr_chunk `{BlockCipher C} (c : C) (s : list Z * list Z) (chunk : list Z)
    : list Z * list Z :=
  let '(done, counter) := s in
  let keystream := encrypt_block c counter in
  (done ++ xor_bytes chunk keystream, increment_counter counter).

Definition ctr_process `{BlockCipher C} (m : Ctr C) (data : list Z) : list Z * Ctr C :=
  let '(data, counter) := fold_left (ctr_chunk (ctr_cipher m)) (chunks block_size data)
                            ([], ctr_counter m) in
  (data, mk_ctr (ctr_cipher m) counter).

(** The method of [Ctr<Aes128>], written out again in the source. *)
Definition ctr_process_aes128 : Ctr Aes128 -> list Z -> list Z * Ctr Aes128 := ctr_process.

(** ** RC4 *)

Record Rc4 := mk_rc4 { rc4_s : list Z; rc4_i : Z; rc4_j : Z }.

(** [s.swap(a, b)] at indices below 256. *)
Definition swap (s : list Z) (a b : nat) : list Z := <[a := idx s b]> (<[b := idx s a]> s).

(** [key[i % key.len()]]: the remainder panics for an empty key. *)
Definition key_byte (key : list Z) (i : nat) : outcome Z :=
  if decide (length key = 0)%nat then Panic else rd key (i mod length key).

Fixpoint rc4_schedule (steps : list nat) (key s : list Z) (j : Z) : outcome (list Z) :=
  match steps with
  | [] => Ret s
  | i :: steps =>
      k ← key_byte key i;
      let j := (j +[8] idx s i) +[8] k in
      rc4_schedule steps key (swap s i (Z.to_nat j)) j
  end.

Definition rc4_new (key : list Z) : outcome Rc4 :=
  let s := (fun i => wrap 8 (Z.of_nat i)) <$> seq 0 256 in
  s ← rc4_schedule (seq 0 256) key s 0;
  Ret (mk_rc4 s 0 0).

Definition rc4_byte (r : Rc4) (byte : Z) : Z * Rc4 :=
  let i := rc4_i r +[8] 1 in
  let j := rc4_j r +[8] idx (rc4_s r) (Z.to_nat i) in
  let s := swap (rc4_s r) (Z.to_nat i) (Z.to_nat j) in
  let k := idx s (Z.to_nat (idx s (Z.to_nat i) +[8] idx s (Z.to_nat j))) in
  (Z.lxor byte k, mk_rc4 s i j).

Fixpoint rc4_process (r : Rc4) (data : list Z) : list Z * Rc4 :=
  match data with
  | [] => ([], r)
  | byte :: data =>
      let '(byte, r) := rc4_byte r byte in
      let '(data, r) := rc4_process r data in
      (byte :: data, r)
  end.

(** ** GCM *)

Definition xor_blocks (left right : list Z) : list Z := zip_with Z.lxor left right.

(** One bit of the loop of [gf128_mul] on [z_high], [z_low], [v_high] and [v_low]. *)
Definition gf128_bit (zv : Z * Z * Z * Z) (bit : bool) : Z * Z * Z * Z :=
  let '(z_high, z_low, v_high, v_low) := zv in
  let z_high' := if bit then Z.lxor z_high v_high else z_high in
  let z_low' := if bit then Z.lxor z_low v_low else z_low in
  let lsb_set := has_bits v_low 1 in
  let carry := Z.land v_high 1 in
  let v_high := Z.shiftr v_high 1 in
  let v_low := Z.lor (Z.shiftr v_low 1) (wrap 64 (Z.shiftl carry 63)) in
  let v_high := if lsb_set then Z.lxor v_high 0xe100000000000000 else v_high in
  (z_high', z_low', v_high, v_low).

Definition gf128_byte (zv : Z * Z * Z * Z) (byte : Z) : Z * Z * Z * Z :=
  fold_left (fun zv bit_index => gf128_bit zv (has_bits (Z.shiftr byte bit_index) 1))
    [7; 6; 5; 4; 3; 2; 1; 0] zv.

Definition gf128_mul (x h : list Z) : list Z :=
  let v_high := from_be (take 8 h) in
  let v_low := from_be (drop 8 h) in
  let '(z_high, z_low, _, _) := fold_left gf128_byte x (0, 0, v_high, v_low) in
  to_be 8 z_high ++ to_be 8 z_low.

Record Gcm := mk_gcm { gcm_cipher : Aes128; gcm_h : list Z; gcm_counter : list Z }.

Definition gcm_new (key iv : list Z) : Gcm :=
  let cipher := new128 key in
  let h := encrypt_block cipher (replicate 16 0) in
  let counter := <[15%nat := 1]> (iv ++ replicate 4 0) in
  mk_gcm cipher h counter.

(** A chunk in a block filled up with zeros. *)
Definition padded (chunk : list Z) : list Z := chunk ++ replicate (16 - length chunk) 0.

(** [for i in 0..len { block[i] ^= keystream[i]; }] and [&block[..len]]. *)
Definition gcm_chunk (c : Aes128) (s : list Z * list Z) (chunk : list Z) : list Z * list Z :=
  let '(output, counter) := s in
  let keystream := encrypt_block c counter in
  let len := Nat.min (length chunk) AES_BLOCK_SIZE in
  let block := padded (take len chunk) in
  let block := xor_bytes (take len block) keystream ++ drop len block in
  (output ++ take len block, increment_counter counter).

Definition absorb (h : list Z) (data ghash : list Z) : list Z :=
  fold_left (fun ghash chunk => gf128_mul (xor_blocks ghash (padded chunk)) h)
    (chunks AES_BLOCK_SIZE data) ghash.

Definition compute_ghash (g : Gcm) (aad ciphertext : list Z) : list Z :=
  let ghash := replicate 16 0 in
  let ghash := absorb (gcm_h g) aad ghash in
  let ghash := absorb (gcm_h g) ciphertext ghash in
  let lengths := to_be 8 (Z.of_nat (length aad) *[64] 8)
                 ++ to_be 8 (Z.of_nat (length ciphertext) *[64] 8) in
  gf128_mul (xor_blocks ghash lengths) (gcm_h g).

Definition tag_for (g : Gcm) (ghash : list Z) : list Z :=
  let tag_input := encrypt_block (gcm_cipher g) (gcm_counter g) in
  xor_blocks (xor_blocks (replicate 16 0) tag_input) ghash.

Definition gcm_encrypt (g : Gcm) (plaintext aad : list Z) : list Z * list Z :=
  let counter := increment_counter (gcm_counter g) in
  let ciphertext := fst (fold_left (gcm_chunk (gcm_cipher g)) (chunks AES_BLOCK_SIZE plaintext)
                           ([], counter)) in
  (ciphertext, tag_for g (compute_ghash g aad ciphertext)).

Definition gcm_decrypt (g : Gcm) (ciphertext aad auth_tag : list Z) : option (list Z) :=
  let expected := tag_for g (compute_ghash g aad ciphertext) in
  if negb (bool_decide (expected = auth_tag)) then None
  else
    let counter := increment_counter (gcm_counter g) in
    Some (fst (fold_left (gcm_chunk (gcm_cipher g)) (chunks AES_BLOCK_SIZE ciphertext)
                 ([], counter))).

(** ** Specification *)

(** The counter block [k] blocks later, as a number of sixteen bytes. *)
Definition counter_add (counter : list Z) (k : nat) : list Z :=
  to_be 16 ((from_be counter + Z.of_nat k) mod 2 ^ 128).

(** Byte [p] of the key stream from a counter block. *)
Definition keystream_byte `{BlockCipher C} (c : C) (counter : list Z) (p : nat) : Z :=
  idx (encrypt_block c (counter_add counter (p / 16))) (p mod 16).

(** Multiplication of SP 800-38D on integers of 128 bits, the most significant bit of [x]
    first. *)
Definition gf_ref_bit (zv : Z * Z) (bit : bool) : Z * Z :=
  (Z.lxor zv.1 (if bit then zv.2 else 0),
   Z.lxor (Z.shiftr zv.2 1) (if Z.testbit zv.2 0 then Z.shiftl 0xe1 120 else 0)).

Definition gf_ref (x h : Z) : Z :=
  fst (fold_left gf_ref_bit ((fun i => Z.testbit x (127 - Z.of_nat i)) <$> seq 0 128) (0, h)).

(** Zeros up to a whole number of blocks, and GHASH over a string of blocks. *)
Definition pad16 (l : list Z) : list Z := l ++ replicate ((16 - length l mod 16) mod 16) 0.

Definition ghash_ref (h : Z) (l : list Z) (y : Z) : Z :=
  fold_left (fun y block => gf_ref (Z.lxor y (from_be block)) h) (chunks 16 l) y.

(** ** Alignment *)

Lemma is_multiple_of_true len n : is_multiple_of len n = true <-> (n | len)%nat.
Proof.
  unfold is_multiple_of. rewrite Nat.eqb_eq. split.
  - intros H%Nat.Div0.mod_divides. destruct H as [k ->]. exists k. lia.
  - intros [k ->]. apply Nat.Div0.mod_mul.
Qed.

(** ** ECB and CBC over the interface *)

Section Chaining.
  Context `{BlockCipherLaws C ok} (c : C) (c_ok : ok c).

Lemma cbc_chunks p prev :
  (block_size | length p)%nat -> Forall byte_ty p -> block_ty block_size prev ->
  exists q prev', length q = length p /\ Forall byte_ty q /\
    (forall acc, fold_left (cbc_encrypt_chunk c) (chunks block_size p) (acc, prev) = (acc ++ q, prev')) /\
    (forall acc, fold_left (cbc_decrypt_chunk c) (chunks block_size q) (acc, prev) = (acc ++ p, prev')).
Proof.
  intros Hp. revert p Hp prev. refine (aligned_ind block_size _ block_size_pos _ _).
  - intros prev _ _. exists [], prev. split_and!; [done | done | |]; intros acc; by rewrite app_nil_r.
  - intros a p Ha Hp IH prev Hty Hprev. apply Forall_app in Hty as [Hta Htp].
    set (b := encrypt_block c (xor_bytes a prev)).
    assert (Hx : block_ty block_size (xor_bytes a prev)) by (by apply xor_block_ty).
    assert (Hb : block_ty block_size b) by (by apply encrypt_block_ty).
    assert (Hd : decrypt_block c b = xor_bytes a prev) by (by apply decrypt_encrypt).
    destruct (IH b Htp Hb) as (q & prev' & Hl & Hq & Henc & Hdec).
    exists (b ++ q), prev'. split_and!.
    + rewrite !length_app, Hl, Ha. f_equal. apply Hb.
    + apply Forall_app_2; [apply Hb | done].
    + intros acc. rewrite chunks_app by (done || apply block_size_pos). cbn [fold_left cbc_encrypt_chunk].
      fold b. by rewrite Henc, app_assoc.
    + intros acc. rewrite chunks_app by (apply Hb || apply block_size_pos).
      cbn [fold_left cbc_decrypt_chunk]. rewrite Hd.
      rewrite (xor_block_cancel block_size) by done. by rewrite Hdec, app_assoc.
Qed.

Lemma ecb_chunks p :
  (block_size | length p)%nat -> Forall byte_ty p ->
  exists q, length q = length p /\
    (forall acc, fold_left (fun output chunk => output ++ encrypt_block c chunk) (chunks block_size p) acc = acc ++ q) /\
    (forall acc, fold_left (fun output chunk => output ++ decrypt_block c chunk) (chunks block_size q) acc = acc ++ p).
Proof.
  revert p. refine (aligned_ind block_size _ block_size_pos _ _).
  - intros _. exists []. split_and!; [done | |]; intros acc; by rewrite app_nil_r.
  - intros a p Ha Hp IH Hty. apply Forall_app in Hty as [Hta Htp].
    assert (Hb : block_ty block_size (encrypt_block c a)) by (by apply encrypt_block_ty).
    destruct (IH Htp) as (q & Hl & Henc & Hdec).
    exists (encrypt_block c a ++ q). split_and!.
    + rewrite !length_app, Hl, Ha. f_equal. apply Hb.
    + intros acc. rewrite chunks_app by (done || apply block_size_pos). cbn [fold_left].
      by rewrite Henc, app_assoc.
    + intros acc. rewrite chunks_app by (apply Hb || apply block_size_pos). cbn [fold_left].
      by rewrite decrypt_encrypt, Hdec, app_assoc.
Qed.

End Chaining.

(** ** Counters and key streams *)

Lemma increment_from_last_spec l : Forall byte_ty l ->
  from_le (increment_from_last l) = (from_le l + 1) mod 2 ^ (8 * Z.of_nat (length l)) /\
  length (increment_from_last l) = length l /\ Forall byte_ty (increment_from_last l).
Proof.
  induction 1 as [| b l Hb Hl IH]; [done |]. cbn [increment_from_last].
  destruct IH as (IHv & IHl & IHt). pose proof (from_le_ty l Hl) as Hv.
  unfold byte_ty, u_ty in Hb, Hv. change (2 ^ 8) with 256 in *.
  set (P := 2 ^ (8 * Z.of_nat (length l))) in *.
  assert (EP : 2 ^ (8 * Z.of_nat (length (b :: l))) = 256 * P).
  { cbn [length]. replace (8 * Z.of_nat (S (length l))) with (8 + 8 * Z.of_nat (length l)) by lia.
    by rewrite Z.pow_add_r by lia. }
  rewrite EP. destruct (Z.eqb_spec (b +[8] 1) 0) as [E | E]; cbn [negb from_le length].
  - assert (b = 255) as ->.
    { unfold wrap in E. change (2 ^ 8) with 256 in E. destruct (decide (b = 255)); [done |].
      rewrite Z.mod_small in E by lia. lia. }
    rewrite E, IHv, IHl. split_and!; [| done | by constructor].
    replace (255 + 256 * from_le l + 1) with (256 * (from_le l + 1)) by lia.
    by rewrite Z.mul_mod_distr_l by lia.
  - assert (b < 255).
    { unfold wrap in E. change (2 ^ 8) with 256 in E. destruct (decide (b = 255)); [by subst | lia]. }
    unfold wrap. change (2 ^ 8) with 256. rewrite (Z.mod_small (b + 1)) by lia.
    split_and!; [| done | constructor; [unfold byte_ty, u_ty; lia | done]].
    rewrite Z.mod_small by lia. lia.
Qed.

Lemma increment_counter_spec n counter : block_ty n counter ->
  increment_counter counter = to_be n ((from_be counter + 1) mod 2 ^ (8 * Z.of_nat n)).
Proof.
  intros [Hl Ht]. unfold increment_counter.
  destruct (increment_from_last_spec (rev counter)) as (Hv & Hlen & Hty); [by apply Forall_rev |].
  rewrite length_rev, Hl in Hv, Hlen. unfold from_be. rewrite <- Hv. unfold to_be.
  by rewrite <- Hlen, to_from_le by done.
Qed.

Lemma counter_add_0 counter : block_ty 16 counter -> counter_add counter 0 = counter.
Proof.
  intros [Hl Ht]. unfold counter_add. pose proof (from_be_ty counter Ht) as Hv. rewrite Hl in Hv.
  rewrite Z.add_0_r, Z.mod_small by exact Hv. rewrite <- Hl. by apply to_from_be.
Qed.

Lemma counter_add_S counter k : block_ty 16 counter ->
  counter_add counter (S k) = counter_add (increment_counter counter) k.
Proof.
  intros Hc. rewrite (increment_counter_spec 16) by done. unfold counter_add. f_equal.
  rewrite from_to_be by (apply wrap_ty; lia). change (8 * Z.of_nat 16) with 128.
  rewrite Zplus_mod_idemp_l. f_equal. lia.
Qed.

Lemma increment_counter_block counter : block_ty 16 counter -> block_ty 16 (increment_counter counter).
Proof. intros Hc. rewrite (increment_counter_spec 16) by done. apply to_be_block. Qed.

Section KeyStream.
  Context `{BlockCipher C} (c : C).
  Context (c_len : forall b, block_ty 16 b -> length (encrypt_block c b) = 16%nat).

Definition keystream (counter : list Z) (n : nat) : list Z :=
  keystream_byte c counter <$> seq 0 n.

Lemma length_keystream counter n : length (keystream counter n) = n.
Proof. unfold keystream. by rewrite length_fmap, length_seq. Qed.

Lemma keystream_short counter a : block_ty 16 counter -> (length a <= 16)%nat ->
  xor_bytes a (encrypt_block c counter) = xor_bytes a (keystream counter (length a)).
Proof.
  intros Hc Ha. apply list_eq. intros p. unfold xor_bytes. rewrite !lookup_zip_with.
  destruct (a !! p) as [x |] eqn:Ex; [| done]. cbn. pose proof (lookup_lt_Some _ _ _ Ex) as Hp.
  unfold keystream. rewrite list_lookup_fmap, lookup_seq_lt by lia. cbn.
  unfold keystream_byte. rewrite Nat.div_small, Nat.mod_small, counter_add_0 by (done || lia).
  unfold idx. by rewrite (lookup_nth _ p 0) by (rewrite c_len by done; lia).
Qed.

Lemma keystream_next counter n : block_ty 16 counter ->
  keystream counter (16 + n) = keystream counter 16 ++ keystream (increment_counter counter) n.
Proof.
  intros Hc. unfold keystream. rewrite seq_app, fmap_app. f_equal.
  replace (0 + 16)%nat with 16%nat by lia. apply list_eq. intros p.
  rewrite !list_lookup_fmap. destruct (decide (p < n)%nat) as [Hp | Hp].
  - rewrite !lookup_seq_lt by lia. cbn [fmap option_fmap option_map]. f_equal. unfold keystream_byte.
    replace (16 + p)%nat with (p + 1 * 16)%nat by lia.
    rewrite Nat.div_add, Nat.Div0.mod_add by lia. rewrite Nat.add_1_r, counter_add_S by done. done.
  - by rewrite !lookup_seq_ge by lia.
Qed.

(** [n.div_ceil(16)] chunks. *)
Definition blocks_of (n : nat) : nat := ((n + 15) / 16)%nat.

Lemma blocks_of_short n : (0 < n <= 16)%nat -> blocks_of n = 1%nat.
Proof. intros H0. unfold blocks_of. symmetry. apply (Nat.div_unique _ _ _ (n - 1)); lia. Qed.

Lemma blocks_of_add n : blocks_of (16 + n) = S (blocks_of n).
Proof.
  unfold blocks_of. replace (16 + n + 15)%nat with (n + 15 + 1 * 16)%nat by lia.
  rewrite Nat.div_add by lia. lia.
Qed.

Lemma ctr_chunks data counter acc :
  block_ty 16 counter ->
  fold_left (ctr_chunk c) (chunks 16 data) (acc, counter) =
  (acc ++ xor_bytes data (keystream counter (length data)), counter_add counter (blocks_of (length data))).
Proof.
  revert data counter acc.
  apply (chunks_ind 16 (fun data => forall counter acc, block_ty 16 counter -> _)); [lia | | |].
  - intros counter acc Hc. rewrite chunks_nil. change (blocks_of (length [])) with 0%nat.
    rewrite counter_add_0 by done. cbn [fold_left xor_bytes zip_with]. by rewrite app_nil_r.
  - intros l Hne Hl counter acc Hc. rewrite chunks_short by (done || lia). cbn [fold_left ctr_chunk].
    assert (0 < length l)%nat by (destruct l; simpl; [done | lia]).
    rewrite keystream_short, blocks_of_short by (done || lia).
    by rewrite counter_add_S, counter_add_0 by (by try apply increment_counter_block).
  - intros a l Ha IH counter acc Hc. rewrite chunks_app by (done || lia). cbn [fold_left ctr_chunk].
    rewrite IH by (by apply increment_counter_block).
    rewrite length_app, Ha, keystream_next, blocks_of_add, counter_add_S by done.
    rewrite xor_bytes_app by (by rewrite length_keystream).
    rewrite keystream_short by (done || lia). by rewrite Ha, app_assoc.
Qed.

End KeyStream.

(** ** RC4: the table stays a permutation of the bytes *)

Definition rc4_wf (r : Rc4) : Prop :=
  rc4_s r ≡ₚ bytes /\ byte_ty (rc4_i r) /\ byte_ty (rc4_j r).

Lemma delete_insert_same (l : list Z) i x : delete i (<[i := x]> l) = delete i l.
Proof. revert i. induction l as [| y l IH]; intros [| i]; try done. cbn. f_equal. apply IH. Qed.

Lemma insert_perm (l : list Z) i x : (i < length l)%nat -> <[i := x]> l ≡ₚ x :: delete i l.
Proof.
  intros Hi. rewrite (delete_perm (<[i := x]> l) i x) by (by apply list_lookup_insert_eq).
  by rewrite delete_insert_same.
Qed.

Lemma swap_perm s a b : (a < length s)%nat -> (b < length s)%nat -> swap s a b ≡ₚ s.
Proof.
  intros Ha Hb. unfold swap. set (x := idx s a). set (y := idx s b).
  assert (Hx : s !! a = Some x) by (by apply lookup_nth).
  assert (Hy : s !! b = Some y) by (by apply lookup_nth).
  destruct (decide (a = b)) as [-> | Hab].
  - subst x y. by rewrite list_insert_insert_eq, list_insert_id.
  - assert (Ht : <[b := x]> s !! a = Some x) by (by rewrite list_lookup_insert_ne).
    assert (E : delete a (<[b := x]> s) ≡ₚ delete b s).
    { apply (Permutation_cons_inv (a := x)). rewrite <- (delete_perm _ _ _ Ht).
      by apply insert_perm. }
    rewrite insert_perm by (by rewrite length_insert). rewrite E.
    symmetry. by apply delete_perm.
Qed.

Lemma byte_index b : byte_ty b -> (Z.to_nat b < 256)%nat.
Proof. unfold byte_ty, u_ty. change (2 ^ 8) with 256. lia. Qed.

Lemma length_bytes : length bytes = 256%nat.
Proof. reflexivity. Qed.

Lemma bytes_ty : Forall byte_ty bytes.
Proof. apply (bool_decide_unpack _). reflexivity. Qed.

Lemma swap_bytes s a b : s ≡ₚ bytes -> (a < 256)%nat -> (b < 256)%nat -> swap s a b ≡ₚ bytes.
Proof.
  intros Hs Ha Hb. assert (length s = 256%nat) by (rewrite Hs; apply length_bytes).
  rewrite swap_perm by lia. done.
Qed.

Lemma rc4_schedule_total steps key s j :
  key <> [] -> Forall (fun i => (i < 256)%nat) steps -> s ≡ₚ bytes ->
  exists s', rc4_schedule steps key s j = Ret s' /\ s' ≡ₚ bytes.
Proof.
  intros Hk Hst. revert s j. induction Hst as [| i steps Hi _ IH]; intros s j Hs; [by exists s |].
  cbn [rc4_schedule]. unfold key_byte.
  assert (Hlk : (length key <> 0)%nat) by (by destruct key).
  rewrite decide_False by done.
  destruct (lookup_lt_is_Some_2 key (i mod length key)) as [k Hkb];
    [by apply Nat.mod_upper_bound |].
  rewrite (rd_lookup _ _ _ Hkb), outcome_bind_ret.
  apply IH. apply swap_bytes; [done | done |]. apply byte_index, wrap_ty. lia.
Qed.

Lemma rc4_new_total key : key <> [] -> exists r, rc4_new key = Ret r /\ rc4_wf r.
Proof.
  intros Hk. unfold rc4_new.
  destruct (rc4_schedule_total (seq 0 256) key ((fun i => wrap 8 (Z.of_nat i)) <$> seq 0 256) 0)
    as (s & E & Hs); [done | | |].
  - apply Forall_forall. intros i Hi%elem_of_seq. lia.
  - by replace ((fun i => wrap 8 (Z.of_nat i)) <$> seq 0 256) with bytes by reflexivity.
  - rewrite E, outcome_bind_ret. eexists. split; [reflexivity |]. by split_and!.
Qed.

Lemma rc4_byte_wf r b : rc4_wf r -> rc4_wf (snd (rc4_byte r b)).
Proof.
  intros (Hs & Hi & Hj). split_and!; cbn; [| apply wrap_ty; lia ..].
  apply swap_bytes; [done | apply byte_index, wrap_ty; lia ..].
Qed.

Lemma rc4_byte_ty r b : rc4_wf r -> byte_ty b -> byte_ty (fst (rc4_byte r b)).
Proof.
  intros Hr Hb. pose proof (rc4_byte_wf r b Hr) as (Hs & _ & _). cbn in *.
  apply u_ty_lxor; [lia | done |]. apply idx_ty. rewrite Hs. apply bytes_ty.
Qed.

(** The key stream does not depend on the data. *)
Lemma rc4_byte_state r b b' : snd (rc4_byte r b) = snd (rc4_byte r b').
Proof. reflexivity. Qed.

Lemma rc4_byte_twice r b : fst (rc4_byte r (fst (rc4_byte r b))) = b.
Proof. cbn. apply lxor_cancel_r. Qed.

Lemma rc4_process_cons r b data :
  rc4_process r (b :: data) =
  (fst (rc4_byte r b) :: fst (rc4_process (snd (rc4_byte r b)) data),
   snd (rc4_process (snd (rc4_byte r b)) data)).
Proof.
  cbn [rc4_process]. destruct (rc4_byte r b) as [b' r']. cbn [fst snd].
  by destruct (rc4_process r' data).
Qed.

Lemma rc4_process_app r a b :
  rc4_process r (a ++ b) =
  (fst (rc4_process r a) ++ fst (rc4_process (snd (rc4_process r a)) b),
   snd (rc4_process (snd (rc4_process r a)) b)).
Proof.
  revert r. induction a as [| x a IH]; intros r; [apply surjective_pairing |].
  cbn [app]. rewrite !rc4_process_cons, IH. done.
Qed.

Lemma rc4_process_twice r data :
  rc4_process r (fst (rc4_process r data)) = (data, snd (rc4_process r data)).
Proof.
  revert r. induction data as [| b data IH]; intros r; [done |].
  rewrite rc4_process_cons. cbn [fst snd]. rewrite rc4_process_cons, rc4_byte_twice.
  rewrite (rc4_byte_state r (fst (rc4_byte r b)) b), IH. done.
Qed.

Lemma rc4_process_wf r data : rc4_wf r -> Forall byte_ty data ->
  rc4_wf (snd (rc4_process r data)) /\ Forall byte_ty (fst (rc4_process r data)) /\
  length (fst (rc4_process r data)) = length data.
Proof.
  intros Hr Hd. revert r Hr. induction Hd as [| b data Hb _ IH]; intros r Hr; [done |].
  rewrite rc4_process_cons. cbn [fst snd length].
  destruct (IH _ (rc4_byte_wf r b Hr)) as (Hw & Ht & Hl).
  split_and!; [done | constructor; [by apply rc4_byte_ty | done] | by rewrite Hl].
Qed.

(** ** GCM *)

Lemma aes128_len (c : Aes128) : aes128_ok c ->
  forall b, block_ty 16 b -> length (encrypt_block c b) = 16%nat.
Proof. intros (key & Hk & ->) b Hb. exact (proj1 (proj1 (proj1 (aes128_inverse key b Hk Hb)))). Qed.

(** The chunk of the authenticated mode is the chunk of counter mode. *)
Lemma gcm_chunk_ctr (c : Aes128) acc counter chunk :
  block_ty 16 counter -> aes128_ok c -> (length chunk <= 16)%nat ->
  gcm_chunk c (acc, counter) chunk = ctr_chunk c (acc, counter) chunk.
Proof.
  intros Hc Hok Hl. unfold gcm_chunk, ctr_chunk, padded, AES_BLOCK_SIZE.
  rewrite Nat.min_l by lia. rewrite (take_ge chunk) by lia.
  rewrite take_app_length, drop_app_length.
  pose proof (aes128_len c Hok counter Hc) as Hk.
  rewrite take_app_length' by (rewrite length_xor_bytes; lia). done.
Qed.

Lemma chunks_short_all n data : (0 < n)%nat -> Forall (fun k => (length k <= n)%nat) (chunks n data).
Proof.
  intros Hn. revert data. apply (chunks_ind n); [done | constructor | |].
  - intros l Hne Hl. rewrite chunks_short by (done || lia). constructor; [lia | constructor].
  - intros a l Ha IH. rewrite chunks_app by done. constructor; [lia | done].
Qed.

Lemma gcm_chunks_ctr (c : Aes128) l acc counter :
  block_ty 16 counter -> aes128_ok c -> Forall (fun k => (length k <= 16)%nat) l ->
  fold_left (gcm_chunk c) l (acc, counter) = fold_left (ctr_chunk c) l (acc, counter).
Proof.
  intros Hc Hok Hl. revert acc counter Hc. induction Hl as [| k l Hk _ IH]; intros acc counter Hc; [done |].
  cbn [fold_left]. rewrite gcm_chunk_ctr by done. cbn [ctr_chunk].
  apply IH. by apply increment_counter_block.
Qed.

Definition gcm_wf (g : Gcm) : Prop := aes128_ok (gcm_cipher g) /\ block_ty 16 (gcm_counter g).

Lemma gcm_new_wf key iv : block_ty 16 key -> block_ty 12 iv -> gcm_wf (gcm_new key iv).
Proof.
  intros Hk [Hl Hi]. split; [by exists key |]. cbn [gcm_new gcm_counter]. split.
  - by rewrite length_insert, length_app, Hl.
  - apply Forall_insert; [| done]. apply Forall_app_2; [done |]. by apply Forall_replicate.
Qed.

Lemma gcm_new_h key iv : gcm_h (gcm_new key iv) = encrypt_block128 (new128 key) (replicate 16 0).
Proof. unfold gcm_new. cbn [gcm_h]. reflexivity. Qed.

Lemma gcm_new_cipher key iv : gcm_cipher (gcm_new key iv) = new128 key.
Proof. unfold gcm_new. cbn [gcm_cipher]. reflexivity. Qed.

Lemma aes128_block (c : Aes128) b : encrypt_block c b = encrypt_block128 c b.
Proof. reflexivity. Qed.

Lemma gcm_first_counter key iv : block_ty 12 iv ->
  gcm_counter (gcm_new key iv) = to_be 16 (from_be iv * 2 ^ 32 + 1).
Proof.
  intros [Hl Ht]. cbn [gcm_new gcm_counter]. rewrite insert_app_r_alt by lia. rewrite Hl.
  change (<[(15 - 12)%nat := 1]> (replicate 4 0)) with [0; 0; 0; 1].
  rewrite (to_be_app 12 4) by done. rewrite <- Hl, to_from_be by done. done.
Qed.

Lemma xor_zero_block n l : length l = n -> xor_bytes (replicate n 0) l = l.
Proof.
  intros <-. induction l as [| x l IH]; [done |]. cbn [length replicate xor_bytes zip_with]. f_equal. exact IH.
Qed.

(** Both directions exclusive-or the same key stream. *)
Lemma gcm_stream g data : gcm_wf g ->
  fst (fold_left (gcm_chunk (gcm_cipher g)) (chunks AES_BLOCK_SIZE data)
         ([], increment_counter (gcm_counter g))) =
  xor_bytes data (keystream (gcm_cipher g) (increment_counter (gcm_counter g)) (length data)).
Proof.
  intros [Hok Hc]. pose proof (increment_counter_block _ Hc) as Hi.
  rewrite gcm_chunks_ctr by (done || (apply chunks_short_all; unfold AES_BLOCK_SIZE; lia)).
  unfold AES_BLOCK_SIZE. rewrite (ctr_chunks _ (aes128_len _ Hok)) by done. done.
Qed.

(** ** Multiplication in the field of 2^128 elements *)

(** A word of 128 bits in two halves. *)
Definition join (high low : Z) : Z := Z.lor (Z.shiftl high 64) low.

Lemma join_testbit h l i : u_ty 64 l -> 0 <= i ->
  Z.testbit (join h l) i = if i <? 64 then Z.testbit l i else Z.testbit h (i - 64).
Proof.
  intros Hl Hi. unfold join. rewrite Z.lor_spec, Z.shiftl_spec by lia.
  destruct (Z.ltb_spec i 64).
  - by rewrite Z.testbit_neg_r by lia.
  - by rewrite (u_ty_testbit 64 l i) by (done || lia); rewrite orb_false_r.
Qed.

Lemma join_lxor h l h' l' : u_ty 64 l -> u_ty 64 l' ->
  join (Z.lxor h h') (Z.lxor l l') = Z.lxor (join h l) (join h' l').
Proof.
  intros Hl Hl'. apply Z.bits_inj'. intros i Hi. rewrite Z.lxor_spec.
  rewrite !join_testbit by (done || (apply u_ty_lxor; [lia | done ..])).
  destruct (Z.ltb_spec i 64); by rewrite Z.lxor_spec.
Qed.

Lemma shiftr_ty w x : 0 <= w -> u_ty w x -> u_ty w (Z.shiftr x 1).
Proof.
  intros Hw [H0 H1]. rewrite Z.shiftr_div_pow2 by lia. change (2 ^ 1) with 2. split.
  - apply Z.div_pos; lia.
  - apply Z.div_lt_upper_bound; lia.
Qed.

(** The carry from the high half into the low one. *)
Definition carry_low (h l : Z) : Z := Z.lor (Z.shiftr l 1) (wrap 64 (Z.shiftl (Z.land h 1) 63)).

Lemma carry_low_ty h l : u_ty 64 l -> u_ty 64 (carry_low h l).
Proof. intros Hl. apply u_ty_lor; [lia | by apply shiftr_ty | by apply wrap_ty]. Qed.

Lemma carry_low_testbit h l i : u_ty 64 l -> 0 <= i ->
  Z.testbit (carry_low h l) i = if i =? 63 then Z.testbit h 0 else Z.testbit l (i + 1).
Proof.
  intros Hl Hi. unfold carry_low. rewrite Z.lor_spec, Z.shiftr_spec, wrap_land by lia.
  rewrite Z.land_spec, Z.testbit_ones_nonneg, Z.shiftl_spec, Z.land_spec by lia.
  destruct (Z.eqb_spec i 63) as [-> | Hne].
  - rewrite (u_ty_testbit 64 l) by (done || lia). change (63 - 63) with 0.
    change (Z.testbit 1 0) with true. by rewrite andb_true_r, andb_true_r.
  - assert (Z.testbit 1 (i - 63) = false) as ->.
    { destruct (decide (i < 63)); [by apply Z.testbit_neg_r; lia |].
      apply (u_ty_testbit 1); [done | lia]. }
    by rewrite andb_false_r, orb_false_r.
Qed.

Lemma join_shift h l : u_ty 64 l ->
  join (Z.shiftr h 1) (carry_low h l) = Z.shiftr (join h l) 1.
Proof.
  intros Hl. apply Z.bits_inj'. intros i Hi. rewrite Z.shiftr_spec by lia.
  rewrite !join_testbit by (done || lia || by apply carry_low_ty).
  rewrite carry_low_testbit by done.
  destruct (Z.ltb_spec i 64), (Z.ltb_spec (i + 1) 64), (Z.eqb_spec i 63); try lia; try done.
  - subst. f_equal.
  - rewrite Z.shiftr_spec by lia. f_equal. lia.
Qed.

Lemma gf128_bit_ref zh zl vh vl bit :
  u_ty 64 zh -> u_ty 64 zl -> u_ty 64 vh -> u_ty 64 vl ->
  let '(zh', zl', vh', vl') := gf128_bit (zh, zl, vh, vl) bit in
  (join zh' zl', join vh' vl') = gf_ref_bit (join zh zl, join vh vl) bit /\
  u_ty 64 zh' /\ u_ty 64 zl' /\ u_ty 64 vh' /\ u_ty 64 vl'.
Proof.
  intros Hzh Hzl Hvh Hvl. unfold gf128_bit. fold (carry_low vh vl).
  rewrite (has_bits_pow2 vl 0 ltac:(lia) : has_bits vl 1 = _).
  pose proof (carry_low_ty vh vl Hvl) as Hcl. pose proof (shiftr_ty 64 vh ltac:(lia) Hvh) as Hsh.
  split; [| split; [destruct bit; [by apply u_ty_lxor | done] |
            split; [destruct bit; [by apply u_ty_lxor | done] |
            split; [destruct (Z.testbit vl 0); [by apply u_ty_lxor | done] | done]]]].
  unfold gf_ref_bit. cbn [fst snd]. rewrite join_testbit by (done || lia). cbn [Z.ltb Z.compare].
  rewrite <- join_shift by done. f_equal.
  - destruct bit; [by apply join_lxor | by rewrite Z.lxor_0_r].
  - destruct (Z.testbit vl 0); [| by rewrite Z.lxor_0_r].
    change (Z.shiftl 225 120) with (join 0xe100000000000000 0).
    rewrite <- join_lxor by done. by rewrite Z.lxor_0_r.
Qed.

(** The bits of a byte and of a block, the most significant first. *)
Definition byte_bits (b : Z) : list bool := (fun i => Z.testbit b i) <$> [7; 6; 5; 4; 3; 2; 1; 0].
Definition be_bits (x : Z) (n : nat) : list bool :=
  (fun i => Z.testbit x (Z.of_nat n - 1 - Z.of_nat i)) <$> seq 0 n.

Lemma byte_bits_eq (b : Z) :
  (fun i => has_bits (Z.shiftr b i) 1) <$> [7; 6; 5; 4; 3; 2; 1; 0] = byte_bits b.
Proof.
  apply list_fmap_ext. intros i x Hx.
  rewrite (has_bits_pow2 (Z.shiftr b x) 0 ltac:(lia) : has_bits _ 1 = _).
  rewrite Z.shiftr_spec by lia. done.
Qed.

Lemma be_bits_cons b l : byte_ty b -> Forall byte_ty l ->
  be_bits (from_be (b :: l)) (8 * S (length l)) = byte_bits b ++ be_bits (from_be l) (8 * length l).
Proof.
  intros Hb Hl. change (b :: l) with ([b] ++ l). rewrite from_be_app.
  assert (Hv := from_be_ty l Hl). cbn [from_be rev app from_le].
  replace (b + 256 * 0) with b by lia.
  set (n := length l) in *. rewrite <- lor_mul_add by (done || lia).
  rewrite <- Z.shiftl_mul_pow2 by lia.
  unfold be_bits. replace (8 * S n)%nat with (8 + 8 * n)%nat by lia.
  rewrite seq_app, fmap_app. f_equal.
  - unfold byte_bits. cbn [seq fmap list_fmap].
    rewrite !Z.lor_spec, !Z.shiftl_spec, !(u_ty_testbit _ _ _ Hv), !orb_false_r by lia.
    repeat f_equal; lia.
  - apply list_eq. intros i. rewrite !list_lookup_fmap.
    destruct (decide (i < 8 * n)%nat) as [Hi | Hi]; [| by rewrite !lookup_seq_ge by lia].
    rewrite !lookup_seq_lt by lia. cbn [fmap option_fmap option_map]. f_equal.
    rewrite Z.lor_spec, Z.shiftl_spec by lia. rewrite Z.testbit_neg_r by lia.
    cbn [orb]. f_equal. lia.
Qed.

Lemma concat_byte_bits l : Forall byte_ty l ->
  concat (byte_bits <$> l) = be_bits (from_be l) (8 * length l).
Proof.
  induction 1 as [| b l Hb Hl IH]; [done |]. cbn [fmap list_fmap concat length].
  by rewrite be_bits_cons, IH.
Qed.

Lemma gf128_bytes_bits x zv :
  fold_left gf128_byte x zv = fold_left gf128_bit (concat (byte_bits <$> x)) zv.
Proof.
  revert zv. induction x as [| b x IH]; intros zv; [done |].
  cbn [fmap list_fmap concat fold_left]. rewrite fold_left_app, IH. f_equal.
  unfold gf128_byte. by rewrite <- byte_bits_eq.
Qed.

Lemma gf128_bits_ref bits zh zl vh vl :
  u_ty 64 zh -> u_ty 64 zl -> u_ty 64 vh -> u_ty 64 vl ->
  let '(zh', zl', _, _) := fold_left gf128_bit bits (zh, zl, vh, vl) in
  join zh' zl' = fst (fold_left gf_ref_bit bits (join zh zl, join vh vl)) /\
  u_ty 64 zh' /\ u_ty 64 zl'.
Proof.
  revert zh zl vh vl. induction bits as [| bit bits IH]; intros zh zl vh vl Hzh Hzl Hvh Hvl; [done |].
  cbn [fold_left]. pose proof (gf128_bit_ref zh zl vh vl bit Hzh Hzl Hvh Hvl) as Hb.
  destruct (gf128_bit (zh, zl, vh, vl) bit) as [[[zh' zl'] vh'] vl'].
  destruct Hb as (<- & H1 & H2 & H3 & H4). by apply IH.
Qed.

Lemma join_from_be h : block_ty 16 h -> join (from_be (take 8 h)) (from_be (drop 8 h)) = from_be h.
Proof.
  intros [Hl Ht]. rewrite <- (take_drop 8 h) at 3. rewrite from_be_app, length_drop, Hl.
  unfold join. apply lor_shiftl_add; [lia |].
  pose proof (from_be_ty (drop 8 h)) as H. rewrite length_drop, Hl in H. apply H. by apply Forall_drop.
Qed.

(** The multiplication of GHASH on two words of 64 bits is the multiplication of
    SP 800-38D on one integer of 128 bits. *)
Lemma gf128_mul_ref x h :
  block_ty 16 x -> block_ty 16 h -> gf128_mul x h = to_be 16 (gf_ref (from_be x) (from_be h)).
Proof.
  intros [Hlx Hx] Hh. pose proof (join_from_be h Hh) as Hj. destruct Hh as [Hlh Hh].
  unfold gf128_mul. rewrite gf128_bytes_bits, concat_byte_bits, Hlx by done.
  assert (Hvh : u_ty 64 (from_be (take 8 h))).
  { pose proof (from_be_ty (take 8 h)) as H. rewrite length_take, Hlh in H. apply H. by apply Forall_take. }
  assert (Hvl : u_ty 64 (from_be (drop 8 h))).
  { pose proof (from_be_ty (drop 8 h)) as H. rewrite length_drop, Hlh in H. apply H. by apply Forall_drop. }
  pose proof (gf128_bits_ref (be_bits (from_be x) 128) 0 0 _ _ ltac:(done) ltac:(done) Hvh Hvl) as Href.
  change (8 * 16)%nat with 128%nat.
  destruct (fold_left gf128_bit (be_bits (from_be x) 128) _) as [[[zh zl] ?] ?].
  destruct Href as (E & Hzh & Hzl). rewrite Hj in E.
  change (gf_ref (from_be x) (from_be h)) with
    (fst (fold_left gf_ref_bit (be_bits (from_be x) 128) (join 0 0, from_be h))). rewrite <- E.
  unfold join. rewrite lor_shiftl_add by (done || lia). symmetry. by apply (to_be_app 8 8).
Qed.

(** ** GHASH *)

Lemma fold_left_fmap {A B C} (f : A -> C -> A) (g : B -> C) l a :
  fold_left f (g <$> l) a = fold_left (fun a b => f a (g b)) l a.
Proof. revert a. induction l as [| b l IH]; intros a; [done |]. apply IH. Qed.

Lemma from_be_block n l : block_ty n l -> u_ty (8 * Z.of_nat n) (from_be l).
Proof. intros [<- Hl]. by apply from_be_ty. Qed.

(** Exclusive or byte by byte is exclusive or of the numbers. *)
Lemma from_be_xor n a b : block_ty n a -> block_ty n b ->
  from_be (xor_bytes a b) = Z.lxor (from_be a) (from_be b).
Proof.
  revert a b. induction n as [| n IH]; intros a b [Hla Ha] [Hlb Hb].
  { by rewrite (nil_length_inv _ Hla), (nil_length_inv _ Hlb). }
  destruct a as [| x a]; [done |]. destruct b as [| y b]; [done |]. injection Hla as Hla. injection Hlb as Hlb.
  apply Forall_cons in Ha as [Hx Ha]. apply Forall_cons in Hb as [Hy Hb].
  assert (Hone : forall z, from_be [z] = z) by (intros z; cbn [from_be rev app from_le]; apply Z.add_0_r).
  assert (Hcons : forall z l, length l = n -> Forall byte_ty l ->
    from_be (z :: l) = Z.lor (Z.shiftl z (8 * Z.of_nat n)) (from_be l)).
  { intros z l Hl Ht. change (z :: l) with ([z] ++ l). rewrite from_be_app, Hone, Hl.
    rewrite lor_shiftl_add; [done | lia |]. rewrite <- Hl. by apply from_be_ty. }
  cbn [xor_bytes zip_with]. fold (xor_bytes a b).
  pose proof (xor_block_ty n a b (conj Hla Ha) (conj Hlb Hb)) as [Hlx Hxt].
  rewrite !Hcons, (IH a b) by done. apply Z.bits_inj'. intros i Hi.
  pose proof (from_be_block n a (conj Hla Ha)) as Hua. pose proof (from_be_block n b (conj Hlb Hb)) as Hub.
  rewrite !Z.lxor_spec, !Z.lor_spec, !Z.lxor_spec, !Z.shiftl_spec, Z.lxor_spec by lia.
  destruct (Z.lt_ge_cases i (8 * Z.of_nat n)).
  - rewrite !(Z.testbit_neg_r _ (i - _)) by lia. done.
  - rewrite (u_ty_testbit _ _ i Hua), (u_ty_testbit _ _ i Hub) by lia. by rewrite !orb_false_r.
Qed.

Lemma xor_blocks_value a b : block_ty 16 a -> block_ty 16 b ->
  from_be (xor_blocks a b) = Z.lxor (from_be a) (from_be b).
Proof. apply from_be_xor. Qed.

Lemma xor_blocks_len a b : block_ty 16 a -> block_ty 16 b -> length (xor_blocks a b) = 16%nat.
Proof. intros Ha Hb. exact (proj1 (xor_block_ty 16 a b Ha Hb)). Qed.

Lemma gf_ref_ty x h : u_ty 128 h -> u_ty 128 (gf_ref x h).
Proof.
  intros Hh. unfold gf_ref. generalize ((fun i => Z.testbit x (127 - Z.of_nat i)) <$> seq 0 128).
  assert (Hz : u_ty 128 0) by done. revert Hz. generalize 0. revert h Hh.
  intros h Hh z Hz bits. revert z h Hz Hh. induction bits as [| bit bits IH]; intros z h Hz Hh; [done |].
  cbn [fold_left]. apply IH; cbn [fst snd].
  - apply u_ty_lxor; [lia | done | by destruct bit].
  - apply u_ty_lxor; [lia | | by destruct (Z.testbit h 0)]. rewrite Z.shiftr_div_pow2 by lia.
    destruct Hh as [H0 H1]. split; [apply Z.div_pos; lia |].
    apply Z.le_lt_trans with h; [apply Z.div_le_upper_bound; lia | done].
Qed.

Lemma chunks_pad16 l : chunks 16 (pad16 l) = padded <$> chunks 16 l.
Proof.
  revert l. apply (chunks_ind 16); [lia | done | |].
  - intros l Hne Hl. assert (0 < length l)%nat by (destruct l; simpl; [done | lia]).
    rewrite (chunks_short 16 l) by (done || lia). unfold pad16. rewrite (Nat.mod_small (length l)), (Nat.mod_small (16 - length l)) by lia.
    rewrite chunks_short; [done | by destruct l | rewrite length_app, length_replicate; lia].
  - intros a l Ha IH. rewrite (chunks_app 16 a) by (done || lia). cbn [fmap list_fmap]. rewrite <- IH.
    unfold pad16. rewrite length_app, Ha, <- app_assoc.
    replace (16 + length l)%nat with (length l + 1 * 16)%nat by lia. rewrite Nat.Div0.mod_add.
    rewrite (chunks_app 16 a) by (done || lia). f_equal. unfold padded. rewrite Ha. by rewrite app_nil_r.
Qed.

Lemma pad16_aligned l : (16 | length (pad16 l))%nat.
Proof.
  unfold pad16. rewrite length_app, length_replicate. apply Nat.Lcm0.mod_divide.
  pose proof (Nat.div_mod (length l) 16 ltac:(lia)) as E. pose proof (Nat.mod_upper_bound (length l) 16 ltac:(lia)).
  destruct (Nat.eq_dec (length l mod 16)%nat 0%nat) as [E0 | E0].
  - rewrite E0. change ((16 - 0) mod 16)%nat with 0%nat. by rewrite Nat.add_0_r.
  - rewrite (Nat.mod_small (16 - length l mod 16)%nat) by lia.
    replace (length l + (16 - length l mod 16))%nat with ((length l / 16 + 1) * 16)%nat by lia.
    apply Nat.Div0.mod_mul.
Qed.

Lemma padded_blocks l : Forall byte_ty l -> Forall (block_ty 16) (padded <$> chunks 16 l).
Proof.
  revert l. apply (chunks_ind 16 (fun l => Forall byte_ty l -> _)); [lia | constructor | |].
  - intros l Hne Hl Ht. rewrite chunks_short by (done || lia). constructor; [| constructor]. unfold padded.
    split; [rewrite length_app, length_replicate; lia |]. apply Forall_app_2; [done |]. by apply Forall_replicate.
  - intros a l Ha IH Ht. apply Forall_app in Ht as [Hta Htl]. rewrite (chunks_app 16 a) by (done || lia).
    cbn [fmap list_fmap]. constructor; [| by apply IH]. unfold padded. rewrite Ha, app_nil_r. done.
Qed.

(** A run of blocks in the code and on integers, for any multiplication. *)
Lemma absorb_generic (times : list Z -> list Z) (times_ref : Z -> Z) blocks y :
  (forall x, block_ty 16 x -> block_ty 16 (times x) /\ from_be (times x) = times_ref (from_be x)) ->
  block_ty 16 y -> Forall (block_ty 16) blocks ->
  block_ty 16 (fold_left (fun y block => times (xor_blocks y block)) blocks y) /\
  from_be (fold_left (fun y block => times (xor_blocks y block)) blocks y) =
  fold_left (fun y block => times_ref (Z.lxor y (from_be block))) blocks (from_be y).
Proof.
  intros Ht Hy Hb. revert y Hy. induction Hb as [| b blocks Hb _ IH]; intros y Hy; [by split |]. cbn [fold_left].
  destruct (Ht _ (xor_block_ty 16 y b Hy Hb)) as [H1 H2].
  rewrite (from_be_xor 16 y b Hy Hb) in H2. rewrite <- H2. by apply IH.
Qed.

Lemma gf128_mul_spec h x : block_ty 16 h -> block_ty 16 x ->
  block_ty 16 (gf128_mul x h) /\ from_be (gf128_mul x h) = gf_ref (from_be x) (from_be h).
Proof.
  intros Hh Hx. rewrite gf128_mul_ref by done.
  pose proof (gf_ref_ty (from_be x) (from_be h) (from_be_block 16 h Hh)) as Hu. revert Hu.
  generalize (gf_ref (from_be x) (from_be h)). intros v Hu. split; [apply to_be_block | by apply from_to_be].
Qed.

Lemma absorb_blocks h blocks y : block_ty 16 h -> block_ty 16 y -> Forall (block_ty 16) blocks ->
  block_ty 16 (fold_left (fun y block => gf128_mul (xor_blocks y block) h) blocks y) /\
  from_be (fold_left (fun y block => gf128_mul (xor_blocks y block) h) blocks y) =
  fold_left (fun y block => gf_ref (Z.lxor y (from_be block)) (from_be h)) blocks (from_be y).
Proof.
  intros Hh. exact (absorb_generic (fun x => gf128_mul x h) (fun x => gf_ref x (from_be h)) blocks y
    (fun x => gf128_mul_spec h x Hh)).
Qed.

Lemma compute_ghash_ref g aad ct : block_ty 16 (gcm_h g) -> Forall byte_ty aad -> Forall byte_ty ct ->
  block_ty 16 (compute_ghash g aad ct) /\
  from_be (compute_ghash g aad ct) =
  ghash_ref (from_be (gcm_h g))
    (pad16 aad ++ pad16 ct ++ to_be 8 (wrap 64 (8 * Z.of_nat (length aad)))
                           ++ to_be 8 (wrap 64 (8 * Z.of_nat (length ct)))) 0.
Proof.
  intros Hh Ha Hc. set (lens := to_be 8 _ ++ to_be 8 _).
  assert (Hlens : block_ty 16 lens).
  { unfold lens. split; [by rewrite length_app, !length_to_be |]. apply Forall_app_2; apply to_be_bytes. }
  assert (Hz : block_ty 16 (replicate 16 0)) by (apply (bool_decide_unpack _); reflexivity).
  pose proof (absorb_blocks (gcm_h g) ((padded <$> chunks 16 aad) ++ (padded <$> chunks 16 ct) ++ [lens])
    (replicate 16 0) Hh Hz) as H. cbv zeta in H.
  unfold ghash_ref. rewrite !chunks_app_aligned, !chunks_pad16, (chunks_short 16 lens)
    by (lia || apply pad16_aligned || (intros E; rewrite E in Hlens; by destruct Hlens) || (destruct Hlens; lia)).
  change (from_be (replicate 16 0)) with 0 in H. rewrite <- (proj2 (H ltac:(
    apply Forall_app_2; [by apply padded_blocks |]; apply Forall_app_2;
      [by apply padded_blocks | constructor; [done | constructor]]))).
  assert (E : compute_ghash g aad ct = fold_left (fun y block => gf128_mul (xor_blocks y block) (gcm_h g))
    ((padded <$> chunks 16 aad) ++ (padded <$> chunks 16 ct) ++ [lens]) (replicate 16 0)).
  { rewrite !fold_left_app. unfold compute_ghash, absorb, AES_BLOCK_SIZE. cbn [fold_left].
    rewrite !fold_left_fmap. unfold lens. by rewrite !(Z.mul_comm 8). }
  rewrite E. split; [| done]. apply H.
  apply Forall_app_2; [by apply padded_blocks |]. apply Forall_app_2;
    [by apply padded_blocks | constructor; [done | constructor]].
Qed.

Lemma zero_block : block_ty 16 (replicate 16 0).
Proof. apply (bool_decide_unpack _). reflexivity. Qed.

(** Encryption for any state of the object. *)
Lemma gcm_encrypt_spec g plaintext aad : gcm_wf g -> block_ty 16 (gcm_h g) ->
  (forall b, block_ty 16 b -> block_ty 16 (encrypt_block128 (gcm_cipher g) b)) ->
  Forall byte_ty plaintext -> Forall byte_ty aad ->
  let '(ct, tag) := gcm_encrypt g plaintext aad in
  length ct = length plaintext /\
  (forall p b, plaintext !! p = Some b ->
     ct !! p = Some (Z.lxor b (keystream_byte (gcm_cipher g) (counter_add (gcm_counter g) 1) p))) /\
  from_be tag = Z.lxor (from_be (encrypt_block128 (gcm_cipher g) (gcm_counter g)))
    (ghash_ref (from_be (gcm_h g))
       (pad16 aad ++ pad16 ct ++ to_be 8 (wrap 64 (8 * Z.of_nat (length aad)))
                              ++ to_be 8 (wrap 64 (8 * Z.of_nat (length ct)))) 0) /\
  length tag = 16%nat.
Proof.
  intros Hg Hh Henc Hp Ha. destruct Hg as [Hok Hjb]. unfold gcm_encrypt. rewrite gcm_stream by done. cbv zeta.
  set (j := gcm_counter g) in *. set (c := gcm_cipher g) in *.
  set (ks := keystream c (increment_counter j) (length plaintext)).
  assert (Hkl : length ks = length plaintext) by apply length_keystream.
  assert (Hct : Forall byte_ty (xor_bytes plaintext ks)).
  { apply xor_bytes_ty; [done |]. apply Forall_fmap, Forall_true. intros p. unfold compose, keystream_byte.
    apply idx_ty, Henc, to_be_block. }
  split; [apply length_xor_bytes; lia |]. split.
  { intros p b Hpb. pose proof (lookup_lt_Some _ _ _ Hpb) as Hlt. unfold xor_bytes, ks, keystream.
    rewrite lookup_zip_with, Hpb, list_lookup_fmap, lookup_seq_lt by lia.
    cbn [mbind option_bind fmap option_fmap option_map Nat.add].
    rewrite counter_add_S, counter_add_0 by (exact Hjb || exact (increment_counter_block j Hjb)). reflexivity. }
  destruct (compute_ghash_ref g aad (xor_bytes plaintext ks) Hh Ha Hct) as [Hgb Hge].
  unfold tag_for. fold j. fold c. rewrite (aes128_block c j). specialize (Henc j Hjb).
  rewrite <- Hge. revert Henc Hgb. generalize (encrypt_block128 c j) (compute_ghash g aad (xor_bytes plaintext ks)).
  intros e y He Hy. unfold xor_blocks at 2 4. fold (xor_bytes (replicate 16 0) e).
  rewrite (xor_zero_block 16 e) by apply He.
  split; [by apply xor_blocks_value | by apply xor_blocks_len].
Qed.

(** ** Properties *)

(** CBC over any block cipher that keeps its laws: an aligned message of any length is
    encrypted into as many bytes, and decrypting these with the same key and vector gives the
    message back; any other length is refused by both directions. *)
Theorem cbc_roundtrip `{BlockCipherLaws C ok} (m : Cbc C) (p : list Z) :
  ok (cbc_cipher m) -> block_ty block_size (cbc_iv m) -> Forall byte_ty p ->
  if is_multiple_of (length p) block_size
  then exists q, cbc_encrypt m p = Ok q /\ length q = length p /\ cbc_decrypt m q = Ok p
  else cbc_encrypt m p = Err CbcAlignment /\ cbc_decrypt m p = Err CbcAlignment.
Proof.
  intros Hok Hiv Hp. unfold cbc_encrypt, cbc_decrypt.
  destruct (is_multiple_of (length p) block_size) eqn:E; [| done].
  destruct (cbc_chunks (cbc_cipher m) Hok p (cbc_iv m)) as (q & prev & Hl & _ & Henc & Hdec);
    [by apply is_multiple_of_true | done | done |].
  exists q. rewrite Hl, E, Henc, Hdec. done.
Qed.

Lemma cbc_roundtrip_witness :
  exists q, cbc_encrypt (cbc_new_aes256 (fips_key 32) fips_plain) (fips_key 48) = Ok q /\
    length q = 48%nat /\
    cbc_decrypt (cbc_new_aes256 (fips_key 32) fips_plain) q = Ok (fips_key 48).
Proof.
  refine (cbc_roundtrip (C := Aes256) (ok := aes256_ok)
            (cbc_new_aes256 (fips_key 32) fips_plain) (fips_key 48) _ _ _).
  - exists (fips_key 32). split; [apply (bool_decide_unpack _); reflexivity | reflexivity].
  - apply (bool_decide_unpack _). reflexivity.
  - apply (bool_decide_unpack _). reflexivity.
Defined.

(** C9: GCM accepts exactly what it produced: decryption returns a plaintext for a ciphertext,
    additional data and a tag if and only if encrypting that plaintext with that data gives
    that ciphertext and that tag. In particular what was encrypted is decrypted, and every
    other tag is refused. *)
Theorem gcm_accepts_iff key iv plaintext ciphertext aad tag :
  block_ty 16 key -> block_ty 12 iv ->
  gcm_decrypt (gcm_new key iv) ciphertext aad tag = Some plaintext <->
  gcm_encrypt (gcm_new key iv) plaintext aad = (ciphertext, tag).
Proof.
  intros Hk Hi. pose proof (gcm_new_wf key iv Hk Hi) as Hg. revert Hg. generalize (gcm_new key iv).
  intros g Hg. unfold gcm_decrypt, gcm_encrypt. rewrite !gcm_stream by done. cbn zeta.
  set (ks := keystream (gcm_cipher g) (increment_counter (gcm_counter g))).
  assert (Hks : forall n, length (ks n) = n) by (intros n; apply length_keystream).
  assert (Hx : forall d, xor_bytes (xor_bytes d (ks (length d))) (ks (length d)) = d)
    by (intros d; apply xor_bytes_cancel; by rewrite Hks).
  assert (Hl : forall d, length (xor_bytes d (ks (length d))) = length d)
    by (intros d; apply length_xor_bytes; by rewrite Hks).
  case_bool_decide as Htag; cbn [negb]; split; [| | done |].
  - intros [= <-]. rewrite Hl, Hx. by rewrite Htag.
  - intros [= <- <-]. by rewrite Hl, Hx.
  - intros [= <- <-]. by destruct Htag.
Qed.

(** Test case 2 of the GCM specification. *)
Lemma gcm_accepts_iff_witness :
  gcm_decrypt (gcm_new (replicate 16 0) (replicate 12 0))
    [0x03; 0x88; 0xda; 0xce; 0x60; 0xb6; 0xa3; 0x92; 0xf3; 0x28; 0xc2; 0xb9; 0x71; 0xb2; 0xfe; 0x78] []
    [0xab; 0x6e; 0x47; 0xd4; 0x2c; 0xec; 0x13; 0xbd; 0xf5; 0x3a; 0x67; 0xb2; 0x12; 0x57; 0xbd; 0xdf]
  = Some (replicate 16 0).
Proof.
  apply (gcm_accepts_iff (replicate 16 0) (replicate 12 0) (replicate 16 0));
    [apply (bool_decide_unpack _); reflexivity .. | vm_compute; reflexivity].
Defined.

(** C17: encryption is GCM of SP 800-38D for 96-bit nonces. With H the encryption of zero and J
    the nonce followed by the number 1 in 32 bits, byte p of the ciphertext is byte p of the
    plaintext combined with the key stream of the counter blocks from J + 1, and the tag is the
    encryption of J combined with GHASH over the additional data and the ciphertext, each
    filled up with zeros, and their lengths in bits. *)
Theorem gcm_sp800_38d key iv plaintext aad :
  block_ty 16 key -> block_ty 12 iv -> Forall byte_ty plaintext -> Forall byte_ty aad ->
  let c := new128 key in
  let h := from_be (encrypt_block128 c (replicate 16 0)) in
  let j := to_be 16 (from_be iv * 2 ^ 32 + 1) in
  let '(ct, tag) := gcm_encrypt (gcm_new key iv) plaintext aad in
  length ct = length plaintext /\
  (forall p b, plaintext !! p = Some b -> ct !! p = Some (Z.lxor b (keystream_byte c (counter_add j 1) p))) /\
  from_be tag = Z.lxor (from_be (encrypt_block128 c j))
    (ghash_ref h (pad16 aad ++ pad16 ct ++ to_be 8 (wrap 64 (8 * Z.of_nat (length aad)))
                                        ++ to_be 8 (wrap 64 (8 * Z.of_nat (length ct)))) 0) /\
  length tag = 16%nat.
Proof.
  intros Hk Hi Hp Ha. cbv zeta.
  assert (Henc : forall b, block_ty 16 b -> block_ty 16 (encrypt_block128 (new128 key) b)).
  { intros b Hb. exact (proj1 (proj1 (aes128_inverse key b Hk Hb))). }
  pose proof (gcm_encrypt_spec (gcm_new key iv) plaintext aad (gcm_new_wf key iv Hk Hi)) as H.
  rewrite gcm_new_h, gcm_new_cipher, (gcm_first_counter key iv Hi) in H.
  apply H; [apply Henc, zero_block | exact Henc | exact Hp | exact Ha].
Qed.

(** Test case 2 of the GCM specification, as an encryption. *)
Lemma gcm_sp800_38d_witness :
  length (fst (gcm_encrypt (gcm_new (replicate 16 0) (replicate 12 0)) (replicate 16 0) [])) = 16%nat.
Proof.
  pose proof (gcm_sp800_38d (replicate 16 0) (replicate 12 0) (replicate 16 0) []) as H. cbv zeta in H.
  destruct (gcm_encrypt (gcm_new (replicate 16 0) (replicate 12 0)) (replicate 16 0) []) as [ct tag].
  apply H; apply (bool_decide_unpack _); reflexivity.
Defined.

(** What [process] of counter mode does with [data] from the counter block [nonce]. *)
Definition ctr_stream `{BlockCipher C} (m : Ctr C) (data : list Z) : Prop :=
  let '(out, m') := ctr_process m data in
  length out = length data /\
  (forall p b, data !! p = Some b ->
     out !! p = Some (Z.lxor b (keystream_byte (ctr_cipher m) (ctr_counter m) p))) /\
  ctr_counter m' = counter_add (ctr_counter m) (blocks_of (length data)) /\
  ctr_process m out = (data, m').

Lemma ctr_stream_ok `{BlockCipher C} (m : Ctr C) data :
  block_size = 16%nat -> (forall b, block_ty 16 b -> length (encrypt_block (ctr_cipher m) b) = 16%nat) ->
  block_ty 16 (ctr_counter m) -> ctr_stream m data.
Proof.
  intros Hbs Hlen Hc. unfold ctr_stream, ctr_process. rewrite Hbs, ctr_chunks by done.
  cbn [app ctr_cipher ctr_counter].
  assert (Hl : length (xor_bytes data (keystream (ctr_cipher m) (ctr_counter m) (length data))) = length data)
    by (apply length_xor_bytes; by rewrite length_keystream).
  split_and!; [done | | done |].
  - intros p b Hp. pose proof (lookup_lt_Some _ _ _ Hp) as Hlt. unfold xor_bytes.
    rewrite lookup_zip_with, Hp. unfold keystream. rewrite list_lookup_fmap, lookup_seq_lt by lia. done.
  - rewrite ctr_chunks, Hl by done. cbn [app]. f_equal.
    apply xor_bytes_cancel. by rewrite length_keystream.
Qed.

Lemma aes256_len key b : block_ty 32 key -> block_ty 16 b -> length (encrypt_block (new256 key) b) = 16%nat.
Proof. intros Hk Hb. exact (proj1 (proj1 (proj1 (aes256_inverse key b Hk Hb)))). Qed.

(** Counter mode with AES-128 and AES-256: byte p of the data is combined with byte
    p mod 16 of the encryption of the 128-bit big-endian counter nonce + p / 16, modulo 2^128;
    the object is left at the counter after the last block used; processing the result from
    the same counter gives the data back. *)
Theorem ctr_keystream key128 key256 nonce data :
  block_ty 16 key128 -> block_ty 32 key256 -> block_ty 16 nonce ->
  ctr_stream (ctr_new_aes128 key128 nonce) data /\ ctr_stream (ctr_new_aes256 key256 nonce) data.
Proof.
  intros H1 H2 Hn. split.
  - apply ctr_stream_ok; [reflexivity | apply aes128_len; by exists key128 | exact Hn].
  - apply ctr_stream_ok; [reflexivity | intros b Hb; exact (aes256_len key256 b H2 Hb) | exact Hn].
Qed.

(** The counter wraps from 2^128 - 1 to 0. *)
Lemma ctr_keystream_witness :
  ctr_stream (ctr_new_aes256 (fips_key 32) (replicate 16 255)) (fips_key 20) /\
  ctr_counter (snd (ctr_process (ctr_new_aes256 (fips_key 32) (replicate 16 255)) (fips_key 20)))
    = replicate 15 0 ++ [1].
Proof.
  split; [| vm_compute; reflexivity].
  apply (ctr_keystream (fips_key 16) (fips_key 32) (replicate 16 255) (fips_key 20));
    apply (bool_decide_unpack _); reflexivity.
Defined.

(** RC4 panics exactly on the empty key; otherwise the table is a permutation of the
    bytes and stays one, processing twice from the same state gives the data back, and
    processing a message in two parts is processing it at once. *)
Theorem rc4_cipher key a b :
  Forall byte_ty a ->
  (key = [] -> rc4_new key = Panic) /\
  (key <> [] -> exists r, rc4_new key = Ret r /\ rc4_wf r /\
     let '(a', r') := rc4_process r a in
     rc4_wf r' /\ Forall byte_ty a' /\ length a' = length a /\
     rc4_process r a' = (a, r') /\
     rc4_process r (a ++ b) = (a' ++ fst (rc4_process r' b), snd (rc4_process r' b))).
Proof.
  intros Ha. split; [by intros -> |]. intros Hk. destruct (rc4_new_total key Hk) as (r & E & Hr).
  exists r. split; [done |]. split; [done |].
  destruct (rc4_process_wf r a Hr Ha) as (Hw & Ht & Hl).
  pose proof (rc4_process_twice r a) as H2. pose proof (rc4_process_app r a b) as H3.
  destruct (rc4_process r a) as [a' r']. by split_and!.
Qed.

(** The key stream of the key "Key" on "Plaintext". *)
Lemma rc4_cipher_witness :
  (exists r, rc4_new [75; 101; 121] = Ret r /\ rc4_wf r) /\
  (r ← rc4_new [75; 101; 121]; Ret (fst (rc4_process r [80; 108; 97; 105; 110; 116; 101; 120; 116]))) =
  Ret [0xbb; 0xf3; 0x16; 0xe8; 0xd9; 0x40; 0xaf; 0x0a; 0xd3].
Proof.
  split; [| vm_compute; reflexivity].
  destruct (rc4_cipher [75; 101; 121] [80; 108] []) as [_ H].
  - apply (bool_decide_unpack _). reflexivity.
  - destruct (H ltac:(discriminate)) as (r & E & Hr & _). exists r. exact (conj E Hr).
Defined.

(** ECB in both directions. *)
Theorem ecb_roundtrip `{BlockCipherLaws C ok} (e : Ecb C) (p : list Z) :
  ok (ecb_cipher e) -> Forall byte_ty p ->
  if is_multiple_of (length p) block_size
  then exists q, ecb_encrypt e p = Ok q /\ length q = length p /\ ecb_decrypt e q = Ok p
  else ecb_encrypt e p = Err EcbAlignment /\ ecb_decrypt e p = Err EcbAlignment.
Proof.
  intros Hok Hp. unfold ecb_encrypt, ecb_decrypt.
  destruct (is_multiple_of (length p) block_size) eqn:E; [| done].
  destruct (ecb_chunks (ecb_cipher e) Hok p) as (q & Hl & Henc & Hdec);
    [by apply is_multiple_of_true | done |].
  exists q. by rewrite Hl, E, Henc, Hdec.
Qed.

(** Triple DES in CBC mode, for an implementation of the block cipher whose decryption
    inverts its encryption. *)
Theorem tdes_cbc_roundtrip (T : Type) (tkey : list Z -> T) (enc dec : T -> list Z -> list Z) key iv p :
  (forall c b, block_ty 8 b -> block_ty 8 (enc c b)) ->
  (forall c b, block_ty 8 b -> dec c (enc c b) = b) ->
  block_ty 8 iv -> Forall byte_ty p -> is_multiple_of (length p) 8 = true ->
  exists q, tdes_cbc_encrypt T tkey enc dec key iv p = Ok q /\ length q = length p /\
            tdes_cbc_decrypt T tkey enc dec key iv q = Ok p.
Proof.
  intros Hty Hinv Hiv Hp E. unfold tdes_cbc_encrypt, tdes_cbc_decrypt. rewrite E. cbn [negb tripledes_new].
  destruct (@cbc_chunks T (tdes_cipher T enc dec) (fun _ => True)
    (Build_BlockCipherLaws T (tdes_cipher T enc dec) (fun _ => True) ltac:(cbn; lia)
       (fun c b _ => Hty c b) (fun c b _ => Hinv c b)) (tkey key) I p iv) as (q & prev & Hl & _ & Henc & Hdec);
    [by apply is_multiple_of_true | done | done |].
  exists q. cbn [block_size tdes_cipher] in Henc, Hdec. by rewrite Hl, E, Henc, Hdec.
Qed.

End CipherModes.
