(* ===== verification/Hash.v ===== *)
(** * Digests and HMAC ([crypto/hash.rs])

    [Md5], [Sha1], [Sha256], [Sha512] and [Sha384] have the same buffering code around a
    compression function: it is written once, over the block size, the width of the counter,
    the byte order of the length and the compression function. [Hmac] is over [Sha256].
    Buffers, states and schedules are arrays of fixed size, indexed inside it. *)

From Stdlib Require Import ZArith Lia.
From S2P Require Import Prelude Bytes.

Module Hash.

(** [rotate_left] and [rotate_right] of [w]-bit words. *)
Definition rotl (w x k : Z) : Z := Z.lor (wrap w (Z.shiftl x k)) (Z.shiftr x (w - k)).
Definition rotr (w x k : Z) : Z := Z.lor (Z.shiftr x k) (wrap w (Z.shiftl x (w - k))).

(** ** Buffering *)

(** The constants and the code in which the digests differ. *)
Record Digest := mk_digest {
  block_len : nat;                            (** bytes of the buffer *)
  count_width : Z;                            (** bits of [count] *)
  encode_length : Z -> list Z;                (** the bytes of [bit_count] *)
  initial : list Z;                           (** [state] of a new object *)
  transform : list Z -> list Z -> list Z;     (** state and block *)
  output : list Z -> list Z }.                (** the digest, from the final state *)

Record Hasher := mk_hasher { state : list Z; count : Z; buffer : list Z }.

Section Buffering.
  Context (D : Digest).
  Notation B := (block_len D).

Definition new : Hasher := mk_hasher (initial D) 0 (replicate B 0).

(** [count & 63], [count & 127] *)
Definition offset_of (h : Hasher) : nat := Z.to_nat (Z.land (count h) (Z.of_nat B - 1)).

(** [buffer[at..at + xs.len()].copy_from_slice(xs)] inside the buffer. *)
Definition copy_into (buffer : list Z) (at_ : nat) (xs : list Z) : list Z :=
  take at_ buffer ++ xs ++ drop (at_ + length xs) buffer.

(** [while idx + 64 <= data.len()], on the data from [idx]; every round takes a block. *)
Fixpoint update_blocks (fuel : nat) (st rest : list Z) : list Z * list Z :=
  match fuel with
  | O => (st, rest)
  | S fuel =>
      if (B <=? length rest)%nat
      then update_blocks fuel (transform D st (take B rest)) (drop B rest)
      else (st, rest)
  end.

Definition update (h : Hasher) (data : list Z) : Hasher :=
  let offset := offset_of h in
  let count := wrap (count_width D) (count h + Z.of_nat (length data)) in
  let '(st, buf, idx) :=
    if (0 <? offset)%nat then
      let space := (B - offset)%nat in
      let copy_len := Nat.min (length data) space in
      let buf := copy_into (buffer h) offset (take copy_len data) in
      let st := if (offset + copy_len =? B)%nat then transform D (state h) buf else state h in
      (st, buf, copy_len)
    else (state h, buffer h, 0%nat) in
  let '(st, rest) := update_blocks (length data) st (drop idx data) in
  let buf := if (0 <? length rest)%nat then copy_into buf 0 rest else buf in
  mk_hasher st count buf.

Definition finalize (h : Hasher) : list Z * Hasher :=
  let bit_count := wrap (count_width D) (count h * 8) in
  let offset := offset_of h in
  let buf := take offset (buffer h) ++ 0x80 :: replicate (B - (offset + 1)) 0 in
  let len_at := (B - length (encode_length D bit_count))%nat in
  let '(st, buf) :=
    if (len_at <=? offset)%nat then (transform D (state h) buf, replicate B 0)
    else (state h, buf) in
  let buf := copy_into buf len_at (encode_length D bit_count) in
  let st := transform D st buf in
  (output D st, mk_hasher st (count h) buf).

(** [md5], [sha1], [sha256], [sha384], [sha512] *)
Definition digest (data : list Z) : list Z := fst (finalize (update new data)).

End Buffering.

(** ** MD5 *)

(** The words of a block. *)
Definition words (from_bytes : list Z -> Z) (n : nat) (block : list Z) : list Z :=
  (fun i => from_bytes (take n (drop (i * n) block))) <$> seq 0 16.

(** [state[i].wrapping_add(..)] *)
Definition add_words (w : Z) (a b : list Z) : list Z := zip_with (fun x y => x +[w] y) a b.

Definition md5_ops1 : list (nat * Z * Z) :=
  [(0%nat, 7, 0xd76aa478); (1%nat, 12, 0xe8c7b756); (2%nat, 17, 0x242070db); (3%nat, 22, 0xc1bdceee);
   (4%nat, 7, 0xf57c0faf); (5%nat, 12, 0x4787c62a); (6%nat, 17, 0xa8304613); (7%nat, 22, 0xfd469501);
   (8%nat, 7, 0x698098d8); (9%nat, 12, 0x8b44f7af); (10%nat, 17, 0xffff5bb1); (11%nat, 22, 0x895cd7be);
   (12%nat, 7, 0x6b901122); (13%nat, 12, 0xfd987193); (14%nat, 17, 0xa679438e); (15%nat, 22, 0x49b40821)].
Definition md5_ops2 : list (nat * Z * Z) :=
  [(1%nat, 5, 0xf61e2562); (6%nat, 9, 0xc040b340); (11%nat, 14, 0x265e5a51); (0%nat, 20, 0xe9b6c7aa);
   (5%nat, 5, 0xd62f105d); (10%nat, 9, 0x02441453); (15%nat, 14, 0xd8a1e681); (4%nat, 20, 0xe7d3fbc8);
   (9%nat, 5, 0x21e1cde6); (14%nat, 9, 0xc33707d6); (3%nat, 14, 0xf4d50d87); (8%nat, 20, 0x455a14ed);
   (13%nat, 5, 0xa9e3e905); (2%nat, 9, 0xfcefa3f8); (7%nat, 14, 0x676f02d9); (12%nat, 20, 0x8d2a4c8a)].
Definition md5_ops3 : list (nat * Z * Z) :=
  [(5%nat, 4, 0xfffa3942); (8%nat, 11, 0x8771f681); (11%nat, 16, 0x6d9d6122); (14%nat, 23, 0xfde5380c);
   (1%nat, 4, 0xa4beea44); (4%nat, 11, 0x4bdecfa9); (7%nat, 16, 0xf6bb4b60); (10%nat, 23, 0xbebfbc70);
   (13%nat, 4, 0x289b7ec6); (0%nat, 11, 0xeaa127fa); (3%nat, 16, 0xd4ef3085); (6%nat, 23, 0x04881d05);
   (9%nat, 4, 0xd9d4d039); (12%nat, 11, 0xe6db99e5); (15%nat, 16, 0x1fa27cf8); (2%nat, 23, 0xc4ac5665)].
Definition md5_ops4 : list (nat * Z * Z) :=
  [(0%nat, 6, 0xf4292244); (7%nat, 10, 0x432aff97); (14%nat, 15, 0xab9423a7); (5%nat, 21, 0xfc93a039);
   (12%nat, 6, 0x655b59c3); (3%nat, 10, 0x8f0ccc92); (10%nat, 15, 0xffeff47d); (1%nat, 21, 0x85845dd1);
   (8%nat, 6, 0x6fa87e4f); (15%nat, 10, 0xfe2ce6e0); (6%nat, 15, 0xa3014314); (13%nat, 21, 0x4e0811a1);
   (4%nat, 6, 0xf7537e82); (11%nat, 10, 0xbd3af235); (2%nat, 15, 0x2ad7d2bb); (9%nat, 21, 0xeb86d391)].

Definition md5_f (x y z : Z) : Z := Z.lor (Z.land x y) (Z.land (wnot 32 x) z).
Definition md5_g (x y z : Z) : Z := Z.lor (Z.land x z) (Z.land y (wnot 32 z)).
Definition md5_h (x y z : Z) : Z := Z.lxor (Z.lxor x y) z.
Definition md5_i (x y z : Z) : Z := Z.lxor y (Z.lor x (wnot 32 z)).

(** [op!(a, b, c, d, k, s, t)], after which the next operation has the variables
    [d, a, b, c]. *)
Definition md5_op (f : Z -> Z -> Z -> Z) (x : list Z) (s : list Z) (op : nat * Z * Z) : list Z :=
  let '(k, sh, t) := op in
  match s with
  | [a; b; c; d] =>
      [d; b +[32] rotl 32 (((a +[32] f b c d) +[32] idx x k) +[32] t) sh; b; c]
  | _ => s
  end.

Definition md5_transform (st block : list Z) : list Z :=
  let x := words from_le 4 block in
  let s := fold_left (md5_op md5_f x) md5_ops1 st in
  let s := fold_left (md5_op md5_g x) md5_ops2 s in
  let s := fold_left (md5_op md5_h x) md5_ops3 s in
  let s := fold_left (md5_op md5_i x) md5_ops4 s in
  add_words 32 st s.

Definition Md5 : Digest := {|
  block_len := 64; count_width := 64; encode_length := to_le 8;
  initial := [0x67452301; 0xefcdab89; 0x98badcfe; 0x10325476];
  transform := md5_transform;
  output := fun st => concat (to_le 4 <$> st) |}.

(** ** SHA-1 *)

Definition sha1_schedule (block : list Z) : list Z :=
  fold_left (fun w i =>
    w ++ [rotl 32 (Z.lxor (Z.lxor (Z.lxor (idx w (i - 3)) (idx w (i - 8))) (idx w (i - 14)))
                          (idx w (i - 16))) 1])
    (seq 16 64) (words from_be 4 block).

Definition sha1_round (w : list Z) (s : list Z) (i : nat) : list Z :=
  match s with
  | [a; b; c; d; e] =>
      let '(f, k) :=
        if (i <=? 19)%nat then (Z.lor (Z.land b c) (Z.land (wnot 32 b) d), 0x5a827999)
        else if (i <=? 39)%nat then (Z.lxor (Z.lxor b c) d, 0x6ed9eba1)
        else if (i <=? 59)%nat
        then (Z.lor (Z.lor (Z.land b c) (Z.land b d)) (Z.land c d), 0x8f1bbcdc)
        else (Z.lxor (Z.lxor b c) d, 0xca62c1d6) in
      let temp := ((((rotl 32 a 5 +[32] f) +[32] e) +[32] k) +[32] idx w i) in
      [temp; a; rotl 32 b 30; c; d]
  | _ => s
  end.

Definition sha1_transform (st block : list Z) : list Z :=
  let w := sha1_schedule block in
  add_words 32 st (fold_left (sha1_round w) (seq 0 80) st).

Definition Sha1 : Digest := {|
  block_len := 64; count_width := 64; encode_length := to_be 8;
  initial := [0x67452301; 0xefcdab89; 0x98badcfe; 0x10325476; 0xc3d2e1f0];
  transform := sha1_transform;
  output := fun st => concat (to_be 4 <$> st) |}.

(** ** SHA-256 and SHA-512 *)

(** The table, line by line as in the source. *)
Definition K256 : list Z := concat [
  [0x428a2f98; 0x71374491; 0xb5c0fbcf; 0xe9b5dba5; 0x3956c25b; 0x59f111f1; 0x923f82a4];
  [0xab1c5ed5; 0xd807aa98; 0x12835b01; 0x243185be; 0x550c7dc3; 0x72be5d74; 0x80deb1fe];
  [0x9bdc06a7; 0xc19bf174; 0xe49b69c1; 0xefbe4786; 0x0fc19dc6; 0x240ca1cc; 0x2de92c6f];
  [0x4a7484aa; 0x5cb0a9dc; 0x76f988da; 0x983e5152; 0xa831c66d; 0xb00327c8; 0xbf597fc7];
  [0xc6e00bf3; 0xd5a79147; 0x06ca6351; 0x14292967; 0x27b70a85; 0x2e1b2138; 0x4d2c6dfc];
  [0x53380d13; 0x650a7354; 0x766a0abb; 0x81c2c92e; 0x92722c85; 0xa2bfe8a1; 0xa81a664b];
  [0xc24b8b70; 0xc76c51a3; 0xd192e819; 0xd6990624; 0xf40e3585; 0x106aa070; 0x19a4c116];
  [0x1e376c08; 0x2748774c; 0x34b0bcb5; 0x391c0cb3; 0x4ed8aa4a; 0x5b9cca4f; 0x682e6ff3];
  [0x748f82ee; 0x78a5636f; 0x84c87814; 0x8cc70208; 0x90befffa; 0xa4506ceb; 0xbef9a3f7];
  [0xc67178f2]].

Definition K512 : list Z :=
  [0x428a2f98d728ae22; 0x7137449123ef65cd; 0xb5c0fbcfec4d3b2f; 0xe9b5dba58189dbbc;
   0x3956c25bf348b538; 0x59f111f1b605d019; 0x923f82a4af194f9b; 0xab1c5ed5da6d8118;
   0xd807aa98a3030242; 0x12835b0145706fbe; 0x243185be4ee4b28c; 0x550c7dc3d5ffb4e2;
   0x72be5d74f27b896f; 0x80deb1fe3b1696b1; 0x9bdc06a725c71235; 0xc19bf174cf692694;
   0xe49b69c19ef14ad2; 0xefbe4786384f25e3; 0x0fc19dc68b8cd5b5; 0x240ca1cc77ac9c65;
   0x2de92c6f592b0275; 0x4a7484aa6ea6e483; 0x5cb0a9dcbd41fbd4; 0x76f988da831153b5;
   0x983e5152ee66dfab; 0xa831c66d2db43210; 0xb00327c898fb213f; 0xbf597fc7beef0ee4;
   0xc6e00bf33da88fc2; 0xd5a79147930aa725; 0x06ca6351e003826f; 0x142929670a0e6e70;
   0x27b70a8546d22ffc; 0x2e1b21385c26c926; 0x4d2c6dfc5ac42aed; 0x53380d139d95b3df;
   0x650a73548baf63de; 0x766a0abb3c77b2a8; 0x81c2c92e47edaee6; 0x92722c851482353b;
   0xa2bfe8a14cf10364; 0xa81a664bbc423001; 0xc24b8b70d0f89791; 0xc76c51a30654be30;
   0xd192e819d6ef5218; 0xd69906245565a910; 0xf40e35855771202a; 0x106aa07032bbd1b8;
   0x19a4c116b8d2d0c8; 0x1e376c085141ab53; 0x2748774cdf8eeb99; 0x34b0bcb5e19b48a8;
   0x391c0cb3c5c95a63; 0x4ed8aa4ae3418acb; 0x5b9cca4f7763e373; 0x682e6ff3d6b2b8a3;
   0x748f82ee5defb2fc; 0x78a5636f43172f60; 0x84c87814a1f0ab72; 0x8cc702081a6439ec;
   0x90befffa23631e28; 0xa4506cebde82bde9; 0xbef9a3f7b2c67915; 0xc67178f2e372532b;
   0xca273eceea26619c; 0xd186b8c721c0c207; 0xeada7dd6cde0eb1e; 0xf57d4f7fee6ed178;
   0x06f067aa72176fba; 0x0a637dc5a2c898a6; 0x113f9804bef90dae; 0x1b710b35131c471b;
   0x28db77f523047d84; 0x32caab7b40c72493; 0x3c9ebe0a15c9bebc; 0x431d67c49c100d4c;
   0x4cc5d4becb3e42b6; 0x597f299cfc657e2a; 0x5fcb6fab3ad6faec; 0x6c44198c4a475817].

(** The message schedule: [s0] and [s1] rotate by the first two and shift by the third. *)
Definition sha2_s (w : Z) (r : Z * Z * Z) (x : Z) : Z :=
  let '(r1, r2, r3) := r in Z.lxor (Z.lxor (rotr w x r1) (rotr w x r2)) (Z.shiftr x r3).

Definition sha2_schedule (w : Z) (n rounds : nat) (r0 r1 : Z * Z * Z) (block : list Z) : list Z :=
  fold_left (fun ws i =>
    let s0 := sha2_s w r0 (idx ws (i - 15)) in
    let s1 := sha2_s w r1 (idx ws (i - 2)) in
    ws ++ [((idx ws (i - 16) +[w] s0) +[w] idx ws (i - 7)) +[w] s1])
    (seq 16 (rounds - 16)) (words from_be n block).

Definition sha2_S (w : Z) (r : Z * Z * Z) (x : Z) : Z :=
  let '(r1, r2, r3) := r in Z.lxor (Z.lxor (rotr w x r1) (rotr w x r2)) (rotr w x r3).

Definition sha2_round (w : Z) (R0 R1 : Z * Z * Z) (K ws : list Z) (s : list Z) (i : nat) : list Z :=
  match s with
  | [a; b; c; d; e; f; g; h] =>
      let s1 := sha2_S w R1 e in
      let ch := Z.lxor (Z.land e f) (Z.land (wnot w e) g) in
      let temp1 := (((h +[w] s1) +[w] ch) +[w] idx K i) +[w] idx ws i in
      let s0 := sha2_S w R0 a in
      let maj := Z.lxor (Z.lxor (Z.land a b) (Z.land a c)) (Z.land b c) in
      let temp2 := s0 +[w] maj in
      [temp1 +[w] temp2; a; b; c; d +[w] temp1; e; f; g]
  | _ => s
  end.

Definition sha256_transform (st block : list Z) : list Z :=
  let ws := sha2_schedule 32 4 64 (7, 18, 3) (17, 19, 10) block in
  add_words 32 st (fold_left (sha2_round 32 (2, 13, 22) (6, 11, 25) K256 ws) (seq 0 64) st).

Definition sha512_transform (st block : list Z) : list Z :=
  let ws := sha2_schedule 64 8 80 (1, 8, 7) (19, 61, 6) block in
  add_words 64 st (fold_left (sha2_round 64 (28, 34, 39) (14, 18, 41) K512 ws) (seq 0 80) st).

Definition Sha256 : Digest := {|
  block_len := 64; count_width := 64; encode_length := to_be 8;
  initial := [0x6a09e667; 0xbb67ae85; 0x3c6ef372; 0xa54ff53a;
              0x510e527f; 0x9b05688c; 0x1f83d9ab; 0x5be0cd19];
  transform := sha256_transform;
  output := fun st => concat (to_be 4 <$> st) |}.

Definition Sha512 : Digest := {|
  block_len := 128; count_width := 128; encode_length := to_be 16;
  initial :=
  [0x6a09e667f3bcc908; 0xbb67ae8584caa73b; 0x3c6ef372fe94f82b; 0xa54ff53a5f1d36f1;
   0x510e527fade682d1; 0x9b05688c2b3e6c1f; 0x1f83d9abfb41bd6b; 0x5be0cd19137e2179];
  transform := sha512_transform;
  output := fun st => concat (to_be 8 <$> st) |}.

Definition Sha384 : Digest := {|
  block_len := 128; count_width := 128; encode_length := to_be 16;
  initial :=
  [0xcbbb9d5dc1059ed8; 0x629a292a367cd507; 0x9159015a3070dd17; 0x152fecd8f70e5939;
   0x67332667ffc00b31; 0x8eb44a8768581511; 0xdb0c2e0d64f98fa7; 0x47b5481dbefa4fa4];
  transform := sha512_transform;
  output := fun st => take 48 (concat (to_be 8 <$> st)) |}.

(** The methods of the five objects. *)
Definition md5_update : Hasher -> list Z -> Hasher := update Md5.
Definition md5_finalize : Hasher -> list Z * Hasher := finalize Md5.
Definition sha1_update : Hasher -> list Z -> Hasher := update Sha1.
Definition sha1_finalize : Hasher -> list Z * Hasher := finalize Sha1.
Definition sha256_update : Hasher -> list Z -> Hasher := update Sha256.
Definition sha256_finalize : Hasher -> list Z * Hasher := finalize Sha256.
Definition sha512_update : Hasher -> list Z -> Hasher := update Sha512.
Definition sha512_finalize : Hasher -> list Z * Hasher := finalize Sha512.
Definition sha384_update : Hasher -> list Z -> Hasher := update Sha384.
Definition sha384_finalize : Hasher -> list Z * Hasher := finalize Sha384.

Definition md5 : list Z -> list Z := digest Md5.
Definition sha1 : list Z -> list Z := digest Sha1.
Definition sha256 : list Z -> list Z := digest Sha256.
Definition sha384 : list Z -> list Z := digest Sha384.
Definition sha512 : list Z -> list Z := digest Sha512.

(** ** HMAC with SHA-256 *)

Record Hmac := mk_hmac { hasher : Hasher; outer_hasher : Hasher }.

(** [for i in 0..k.len() { pad[i] ^= k[i]; }] *)
Definition xor_pad (pad k : list Z) : list Z := xor_bytes (take (length k) pad) k ++ drop (length k) pad.

Definition new_sha256 (key : list Z) : Hmac :=
  let k := if (64 <? length key)%nat then sha256 key else key in
  let ipad := xor_pad (replicate 64 0x36) k in
  let opad := xor_pad (replicate 64 0x5c) k in
  mk_hmac (update Sha256 (new Sha256) ipad) (update Sha256 (new Sha256) opad).

Definition hmac_update (m : Hmac) (data : list Z) : Hmac :=
  mk_hmac (update Sha256 (hasher m) data) (outer_hasher m).

Definition hmac_finalize (m : Hmac) : list Z * Hmac :=
  let '(inner_hash, inner) := finalize Sha256 (hasher m) in
  let outer := update Sha256 (outer_hasher m) inner_hash in
  let '(tag, outer) := finalize Sha256 outer in
  (tag, mk_hmac inner outer).

(** ** Specification: padding and chaining *)

Definition absorb (D : Digest) (st m : list Z) : list Z :=
  fold_left (transform D) (chunks (block_len D) m) st.

(** The zeros between the bit 1 and a length of [l] bytes. *)
Definition pad_zeros (D : Digest) (l len : nat) : nat :=
  ((2 * block_len D - 1 - l - len mod block_len D) mod block_len D)%nat.

(** The padded message of RFC 1321 and FIPS 180-4; the length is in bits, in the width of
    the counter. *)
Definition pad (D : Digest) (m : list Z) : list Z :=
  let length_field := encode_length D (wrap (count_width D) (Z.of_nat (length m) * 8)) in
  m ++ 0x80 :: replicate (pad_zeros D (length length_field) (length m)) 0 ++ length_field.

Definition hash_spec (D : Digest) (m : list Z) : list Z := output D (absorb D (initial D) (pad D m)).

(** What the buffering code relies on: a block of a power of two bytes, no more than the
    counter can count, and a length field of constant size that fits with the bit 1. *)
Class DigestLaws (D : Digest) := {
  block_bits : nat;
  length_len : nat;
  block_len_pow : block_len D = (2 ^ block_bits)%nat;
  count_bits : Z.of_nat block_bits <= count_width D;
  encode_length_len x : length (encode_length D x) = length_len;
  length_len_fits : (length_len < block_len D)%nat }.

#[export] Instance md5_laws : DigestLaws Md5.
Proof. refine {| block_bits := 6; length_len := 8 |}; try done. simpl; lia. Defined.
#[export] Instance sha1_laws : DigestLaws Sha1.
Proof. refine {| block_bits := 6; length_len := 8 |}; try done. simpl; lia. Defined.
#[export] Instance sha256_laws : DigestLaws Sha256.
Proof. refine {| block_bits := 6; length_len := 8 |}; try done. simpl; lia. Defined.
#[export] Instance sha512_laws : DigestLaws Sha512.
Proof. refine {| block_bits := 7; length_len := 16 |}; try done. simpl; lia. Defined.
#[export] Instance sha384_laws : DigestLaws Sha384.
Proof. refine {| block_bits := 7; length_len := 16 |}; try done. simpl; lia. Defined.

(** ** The buffering code computes the specification *)

Section Streaming.
  Context (D : Digest) `{!DigestLaws D}.
  Notation B := (block_len D).

Lemma block_pos : (0 < B)%nat.
Proof. pose proof length_len_fits. lia. Qed.

Lemma absorb_app st a b : (B | length a)%nat -> absorb D st (a ++ b) = absorb D (absorb D st a) b.
Proof.
  intros Ha. unfold absorb. rewrite chunks_app_aligned by (done || apply block_pos).
  apply fold_left_app.
Qed.

Lemma absorb_block st a : length a = B -> absorb D st a = transform D st a.
Proof.
  intros Ha. pose proof block_pos. unfold absorb.
  rewrite chunks_short; [done | by destruct a; simpl in *; [lia |] | lia].
Qed.

Lemma absorb_cons st a b : length a = B -> absorb D st (a ++ b) = absorb D (transform D st a) b.
Proof.
  intros Ha. rewrite absorb_app by (rewrite Ha; reflexivity).
  by rewrite (absorb_block st a Ha).
Qed.

(** The object [h] has been given the bytes [m]: whole blocks are in the state, the rest is
    in the buffer. *)
Record holds (h : Hasher) (m full tail : list Z) : Prop := {
  holds_split : m = full ++ tail;
  holds_full : (B | length full)%nat;
  holds_tail : (length tail < B)%nat;
  holds_count : count h = wrap (count_width D) (Z.of_nat (length m));
  holds_state : state h = absorb D (initial D) full;
  holds_len : length (buffer h) = B;
  holds_buffer : take (length tail) (buffer h) = tail }.

Lemma holds_offset h m full tail : holds h m full tail -> offset_of D h = length tail.
Proof.
  intros [-> [k Hk] Ht Hc _ _ _]. unfold offset_of. rewrite Hc. pose proof count_bits as Hcb.
  rewrite length_app, Hk.
  assert (EB : Z.of_nat B = 2 ^ Z.of_nat block_bits).
  { rewrite block_len_pow, Nat2Z.inj_pow. done. }
  replace (Z.of_nat B - 1) with (Z.ones (Z.of_nat block_bits)) by (rewrite Z.ones_equiv; lia).
  rewrite Z.land_ones by lia. unfold wrap.
  rewrite <- Znumtheory.Zmod_div_mod; [| lia | lia |].
  - rewrite <- EB, Nat2Z.inj_add, Nat2Z.inj_mul, Z.add_comm, Z.mod_add by lia.
    rewrite Z.mod_small by lia. lia.
  - exists (2 ^ (count_width D - Z.of_nat block_bits)). rewrite <- Z.pow_add_r by lia. f_equal. lia.
Qed.

Lemma new_holds : holds (new D) [] [] [].
Proof.
  split; [done | by apply Nat.divide_0_r | apply block_pos | | done | | done].
  - cbn. symmetry. apply Zmod_0_l.
  - apply length_replicate.
Qed.

Lemma update_blocks_spec fuel st rest :
  (length rest <= fuel)%nat ->
  exists full tail, rest = full ++ tail /\ (B | length full)%nat /\ (length tail < B)%nat /\
    update_blocks D fuel st rest = (absorb D st full, tail).
Proof.
  pose proof block_pos as HB.
  revert st rest. induction fuel as [| fuel IH]; intros st rest Hl.
  - exists [], []. destruct rest; [| simpl in Hl; lia]. split_and!; [done | by apply Nat.divide_0_r | done | done].
  - cbn [update_blocks]. destruct (Nat.leb_spec B (length rest)).
    + destruct (IH (transform D st (take B rest)) (drop B rest)) as (full & tail & E & [k Hk] & Ht & Hu).
      { rewrite length_drop. lia. }
      exists (take B rest ++ full), tail.
      assert (HlB : length (take B rest) = B) by (rewrite length_take; lia).
      split_and!; [| | done |].
      * rewrite <- app_assoc, <- E. by rewrite take_drop.
      * exists (S k). rewrite length_app, HlB. lia.
      * by rewrite Hu, absorb_cons.
    + exists [], rest. split_and!; [done | by apply Nat.divide_0_r | done | done].
Qed.

Lemma length_copy_into buf at_ xs :
  (at_ + length xs <= length buf)%nat -> length (copy_into buf at_ xs) = length buf.
Proof. intros H. unfold copy_into. rewrite !length_app, length_take, length_drop. lia. Qed.

Lemma take_copy_into buf at_ xs :
  (at_ + length xs <= length buf)%nat ->
  take (at_ + length xs) (copy_into buf at_ xs) = take at_ buf ++ xs.
Proof.
  intros H. unfold copy_into. rewrite app_assoc, take_app_length'; [done |].
  rewrite length_app, length_take. lia.
Qed.

(** The part of [update] after the buffer has been filled up. *)
Lemma update_rest_holds m h full st buf rest fuel cnt :
  m = full ++ rest -> (B | length full)%nat -> st = absorb D (initial D) full ->
  length buf = B -> (length rest <= fuel)%nat ->
  cnt = wrap (count_width D) (Z.of_nat (length m)) ->
  h = (let '(st, rest) := update_blocks D fuel st rest in
       let buf := if (0 <? length rest)%nat then copy_into buf 0 rest else buf in
       mk_hasher st cnt buf) ->
  exists full' tail', holds h m full' tail'.
Proof.
  intros -> Hf -> Hb Hl -> ->.
  destruct (update_blocks_spec fuel (absorb D (initial D) full) rest Hl)
    as (full' & tail' & -> & Hf' & Ht' & ->).
  exists (full ++ full'), tail'. split; cbn [count state buffer].
  - by rewrite app_assoc.
  - rewrite length_app. by apply Nat.divide_add_r.
  - done.
  - done.
  - by rewrite absorb_app.
  - destruct (0 <? length tail')%nat; [| done]. rewrite length_copy_into; [done | lia].
  - destruct (Nat.ltb_spec 0 (length tail')) as [Hp | Hp].
    + apply (take_copy_into buf 0 tail'). lia.
    + by destruct tail'; [| simpl in Hp; lia].
Qed.

Lemma update_holds h m data full tail :
  holds h m full tail -> exists full' tail', holds (update D h data) (m ++ data) full' tail'.
Proof.
  intros H. pose proof (holds_offset _ _ _ _ H) as Hoff. destruct H as [-> Hf Ht Hc Hs Hlen Hbuf].
  unfold update. rewrite Hoff, Hc.
  set (cnt := wrap (count_width D) (_ + Z.of_nat (length data))).
  assert (Hcnt : cnt = wrap (count_width D) (Z.of_nat (length ((full ++ tail) ++ data)))).
  { unfold cnt. rewrite wrap_add_l, (length_app _ data). f_equal. lia. }
  destruct (Nat.ltb_spec 0 (length tail)) as [Hpos | Hz].
  - destruct (Nat.eqb_spec (length tail + Nat.min (length data) (B - length tail)) B) as [Efull | Eless].
    + assert (Em : Nat.min (length data) (B - length tail) = (B - length tail)%nat) by lia.
      rewrite Em in *. set (n := (B - length tail)%nat) in *.
      assert (Hn : length (take n data) = n) by (rewrite length_take; lia).
      assert (Ebuf : copy_into (buffer h) (length tail) (take n data) = tail ++ take n data).
      { unfold copy_into. rewrite Hbuf, Hn, drop_ge, app_nil_r by lia. done. }
      eapply (update_rest_holds _ _ ((full ++ tail) ++ take n data)); [.. | reflexivity].
      * by rewrite <- (app_assoc _ (take n data)), take_drop.
      * rewrite !length_app, Hn. destruct Hf as [k ->]. exists (S k). lia.
      * rewrite <- app_assoc, absorb_app, Hs, Ebuf by done. symmetry. apply absorb_block.
        rewrite length_app. lia.
      * rewrite Ebuf, length_app. lia.
      * rewrite length_drop. lia.
      * done.
    + assert (Em : Nat.min (length data) (B - length tail) = length data) by lia.
      rewrite Em in *. rewrite take_ge, drop_ge by lia.
      destruct (update_blocks_spec (length data) (state h) [] ltac:(simpl; lia))
        as (f0 & t0 & E0 & _ & _ & ->).
      symmetry in E0. apply app_nil in E0 as [-> ->]. cbn [length Nat.ltb Nat.leb].
      exists full, (tail ++ data). split; cbn [count state buffer].
      * by rewrite app_assoc.
      * done.
      * rewrite length_app. lia.
      * done.
      * done.
      * rewrite length_copy_into; lia.
      * rewrite length_app, take_copy_into by lia. by rewrite Hbuf.
  - destruct tail; [| simpl in Hz; lia]. rewrite app_nil_r in *.
    eapply (update_rest_holds _ _ full); [.. | reflexivity]; done.
Qed.

Lemma updates_hold h m pieces full tail :
  holds h m full tail ->
  exists full' tail', holds (fold_left (update D) pieces h) (m ++ concat pieces) full' tail'.
Proof.
  revert h m full tail. induction pieces as [| p pieces IH]; intros h m full tail H; cbn [concat fold_left].
  - rewrite app_nil_r. by exists full, tail.
  - destruct (update_holds h m p full tail H) as (f & t & H'). rewrite app_assoc. by eapply IH.
Qed.

Lemma pad_zeros_eq l len t : (l < B)%nat -> (t < B)%nat -> (len mod B = t)%nat ->
  pad_zeros D l len = if (B - l <=? t)%nat then (2 * B - 1 - l - t)%nat else (B - 1 - l - t)%nat.
Proof.
  intros Hl Ht E. unfold pad_zeros. rewrite E. destruct (Nat.leb_spec (B - l) t).
  - apply Nat.mod_small. lia.
  - replace (2 * B - 1 - l - t)%nat with (B - 1 - l - t + 1 * B)%nat by lia.
    rewrite Nat.Div0.mod_add. apply Nat.mod_small. lia.
Qed.

Lemma finalize_spec h m full tail : holds h m full tail -> fst (finalize D h) = hash_spec D m.
Proof.
  intros H. pose proof (holds_offset _ _ _ _ H) as Hoff. destruct H as [Hm Hf Ht Hc Hs Hlen Hbuf].
  pose proof length_len_fits as HL. unfold finalize, hash_spec, pad. cbn zeta.
  rewrite Hoff, Hc, Hbuf, Hs, !encode_length_len.
  assert (Ebits : wrap (count_width D) (wrap (count_width D) (Z.of_nat (length m)) * 8)
                  = wrap (count_width D) (Z.of_nat (length m) * 8)).
  { unfold wrap. by rewrite Zmult_mod_idemp_l. }
  rewrite Ebits. set (lf := encode_length D _).
  assert (Hlf : length lf = length_len) by apply encode_length_len.
  assert (Emod : (length m mod B = length tail)%nat).
  { rewrite Hm, length_app. destruct Hf as [k ->]. rewrite Nat.add_comm, Nat.Div0.mod_add.
    by apply Nat.mod_small. }
  rewrite (pad_zeros_eq _ _ _ HL Ht Emod), Hm, <- app_assoc, absorb_app by done.
  destruct (Nat.leb_spec (B - length_len) (length tail)) as [Hlong | Hshort]; cbn [fst]; f_equal.
  - replace (2 * B - 1 - length_len - length tail)%nat
      with ((B - (length tail + 1)) + (B - length_len))%nat by lia.
    rewrite replicate_add, <- app_assoc, !app_comm_cons, app_assoc, absorb_cons.
    2: { rewrite length_app. cbn [length]. rewrite length_replicate. lia. }
    rewrite (absorb_block _ (replicate _ 0 ++ lf)) by (rewrite length_app, length_replicate; lia).
    f_equal.
    unfold copy_into. rewrite take_replicate, Hlf, drop_ge, app_nil_r
      by (rewrite length_replicate; lia). by rewrite Nat.min_l by lia.
  - rewrite (absorb_block _ (tail ++ _)) by
      (rewrite !length_app; cbn [length]; rewrite length_app, length_replicate; lia). f_equal.
    unfold copy_into. rewrite Hlf.
    replace (B - (length tail + 1))%nat with ((B - 1 - length_len - length tail) + length_len)%nat by lia.
    rewrite replicate_add, app_comm_cons, (app_assoc tail), take_app_length'.
    2: { rewrite length_app. cbn [length]. rewrite length_replicate. lia. }
    rewrite drop_ge, app_nil_r.
    2: { rewrite !length_app. cbn [length]. rewrite !length_replicate. lia. }
    by rewrite <- app_assoc.
Qed.

Lemma streaming pieces :
  fst (finalize D (fold_left (update D) pieces (new D))) = hash_spec D (concat pieces).
Proof.
  destruct (updates_hold (new D) [] pieces [] [] new_holds) as (full & tail & H).
  by apply finalize_spec in H.
Qed.

End Streaming.

(** ** Where the constants come from *)

(** [k] is the first [w] bits of the fractional part of the [n]-th root of [p]. *)
Definition root_fraction (w n : Z) (p : nat) (k : Z) : Prop :=
  0 <= k < 2 ^ w /\
  exists c, 0 <= c /\ (c * 2 ^ w + k) ^ n <= Z.of_nat p * 2 ^ (n * w) < (c * 2 ^ w + k + 1) ^ n.

Definition is_prime (n : nat) : bool := forallb (fun d => negb (n mod d =? 0)%nat) (seq 2 (n - 2)).

(** The primes up to 409, the first eighty. *)
Definition primes : list nat := List.filter is_prime (seq 2 408).

Definition root_check (w n : Z) (p : nat) (k : Z) : bool :=
  (0 <=? k) && (k <? 2 ^ w) &&
  existsb (fun c => ((c * 2 ^ w + k) ^ n <=? Z.of_nat p * 2 ^ (n * w)) &&
                    (Z.of_nat p * 2 ^ (n * w) <? (c * 2 ^ w + k + 1) ^ n))
    (Z.of_nat <$> seq 0 24).

Lemma root_check_ok w n p k : root_check w n p k = true -> root_fraction w n p k.
Proof.
  unfold root_check. rewrite !andb_true_iff, Z.leb_le, Z.ltb_lt. intros [[H0 H1] H].
  split; [done |]. apply existsb_exists in H as (c & Hc & H). rewrite andb_true_iff, Z.leb_le, Z.ltb_lt in H.
  exists c. split; [| done]. apply list_elem_of_In, list_elem_of_fmap in Hc as (i & -> & _). lia.
Qed.

Fixpoint roots_check (w n : Z) (ps : list nat) (ks : list Z) : bool :=
  match ps, ks with
  | [], [] => true
  | p :: ps, k :: ks => root_check w n p k && roots_check w n ps ks
  | _, _ => false
  end.

Lemma roots_check_ok w n ps ks : roots_check w n ps ks = true -> Forall2 (root_fraction w n) ps ks.
Proof.
  revert ks. induction ps as [| p ps IH]; intros [| k ks] H; try done.
  cbn [roots_check] in H. apply andb_true_iff in H as [H1 H2]. constructor; [by apply root_check_ok | by apply IH].
Qed.

(** ** HMAC *)

Lemma length_fold_rounds (f : list Z -> nat -> list Z) n is_ st :
  (forall s i, length s = n -> length (f s i) = n) -> length st = n -> length (fold_left f is_ st) = n.
Proof. intros Hf. revert st. induction is_ as [| i l IH]; intros st H; [done |]. by apply IH, Hf. Qed.

Lemma length_sha2_round w R0 R1 K ws s i :
  length s = 8%nat -> length (sha2_round w R0 R1 K ws s i) = 8%nat.
Proof. intros H. do 9 (destruct s as [| ? s]; try done). Qed.

Lemma length_sha256_transform st block : length st = 8%nat -> length (sha256_transform st block) = 8%nat.
Proof.
  intros H. unfold sha256_transform, add_words. rewrite length_zip_with, H.
  rewrite (length_fold_rounds _ 8); [done | intros; by apply length_sha2_round | done].
Qed.

Lemma length_absorb256 st m : length st = 8%nat -> length (absorb Sha256 st m) = 8%nat.
Proof.
  unfold absorb. revert st. induction (chunks (block_len Sha256) m) as [| c l IH]; intros st H; [done |].
  cbn [fold_left]. by apply IH, length_sha256_transform.
Qed.

Lemma length_concat_to_be n l : length (concat (to_be n <$> l)) = (length l * n)%nat.
Proof.
  induction l as [| x l IH]; [done |]. rewrite fmap_cons. cbn [concat].
  rewrite length_app, length_to_be, IH. cbn [length]. lia.
Qed.

Lemma length_sha256 m : length (hash_spec Sha256 m) = 32%nat.
Proof.
  unfold hash_spec. cbn [output Sha256]. rewrite length_concat_to_be, length_absorb256; done.
Qed.

(** The key of a block's length: hashed when it is longer, then filled up with zeros. *)
Definition hmac_key (key : list Z) : list Z :=
  let k := if (64 <? length key)%nat then hash_spec Sha256 key else key in
  k ++ replicate (64 - length k) 0.

(** RFC 2104. *)
Definition hmac_spec (key m : list Z) : list Z :=
  hash_spec Sha256 (xor_bytes (hmac_key key) (replicate 64 0x5c) ++
    hash_spec Sha256 (xor_bytes (hmac_key key) (replicate 64 0x36) ++ m)).

Lemma xor_bytes_zeros n c : xor_bytes (replicate n 0) (replicate n c) = replicate n c.
Proof. induction n as [| n IH]; [done |]. cbn. f_equal. apply IH. Qed.

Lemma xor_pad_spec c k : (length k <= 64)%nat ->
  xor_pad (replicate 64 c) k = xor_bytes (k ++ replicate (64 - length k) 0) (replicate 64 c).
Proof.
  intros Hk. unfold xor_pad. rewrite take_replicate, drop_replicate, Nat.min_l by lia.
  replace (replicate 64 c) with (replicate (length k) c ++ replicate (64 - length k) c)
    by (rewrite <- replicate_add; f_equal; lia).
  rewrite xor_bytes_app by (by rewrite length_replicate).
  by rewrite xor_bytes_zeros, xor_bytes_comm.
Qed.

Lemma hash_update D `{!DigestLaws D} m : fst (finalize D (update D (new D) m)) = hash_spec D m.
Proof. rewrite <- (app_nil_r m) at 2. exact (streaming D [m]). Qed.

Lemma hmac_updates m pieces :
  fold_left hmac_update pieces m =
  mk_hmac (fold_left (update Sha256) pieces (hasher m)) (outer_hasher m).
Proof.
  revert m. induction pieces as [| p pieces IH]; intros m; [by destruct m |]. cbn [fold_left]. by rewrite IH.
Qed.

(** ** Properties *)

(** C8: for MD5, SHA-1, SHA-256, SHA-512 and SHA-384, a message given in pieces of any lengths
    has the digest of the specification: the compression function over the blocks of the
    message padded with a bit 1, the least number of zeros and the length in bits. *)
Theorem hash_streaming pieces :
  Forall (fun D => fst (finalize D (fold_left (update D) pieces (new D))) = hash_spec D (concat pieces))
    [Md5; Sha1; Sha256; Sha512; Sha384].
Proof.
  constructor; [exact (streaming Md5 pieces) |]. constructor; [exact (streaming Sha1 pieces) |].
  constructor; [exact (streaming Sha256 pieces) |]. constructor; [exact (streaming Sha512 pieces) |].
  constructor; [exact (streaming Sha384 pieces) | constructor].
Qed.

(** C18: HMAC-SHA-256 of a message given in pieces is that of RFC 2104, for keys of every
    length; keys longer than a block are hashed first. *)
Theorem hmac_rfc2104 key pieces :
  fst (hmac_finalize (fold_left hmac_update pieces (new_sha256 key))) = hmac_spec key (concat pieces).
Proof.
  rewrite hmac_updates. unfold hmac_finalize. cbn [hasher outer_hasher new_sha256].
  unfold sha256, digest. rewrite (hash_update Sha256 key).
  unfold hmac_spec, hmac_key. set (k := if (64 <? length key)%nat then _ else key).
  assert (Hk : (length k <= 64)%nat).
  { unfold k. destruct (Nat.ltb_spec 64 (length key)); [rewrite length_sha256; lia | lia]. }
  rewrite <- !xor_pad_spec by done.
  pose proof (streaming Sha256 (xor_pad (replicate 64 0x36) k :: pieces)) as Hin. cbn [fold_left concat] in Hin.
  destruct (finalize Sha256 (fold_left _ pieces _)) as [inner ih]. cbn [fst] in Hin. subst inner.
  pose proof (streaming Sha256 [xor_pad (replicate 64 0x5c) k;
    hash_spec Sha256 (xor_pad (replicate 64 0x36) k ++ concat pieces)]) as Hout.
  cbn [fold_left concat] in Hout. rewrite app_nil_r in Hout.
  by destruct (finalize Sha256 (update Sha256 _ _)).
Qed.

(** The constants of SHA-2 are the ones of FIPS 180-4: the first bits of the fractional
    parts of the cube roots of the first 64 and 80 primes for the rounds, and of the square
    roots of the first eight primes, and of the next eight for SHA-384, for the initial
    states. *)
Theorem sha2_constants :
  Forall2 (root_fraction 32 3) (take 64 primes) K256 /\
  Forall2 (root_fraction 64 3) primes K512 /\
  Forall2 (root_fraction 32 2) (take 8 primes) (initial Sha256) /\
  Forall2 (root_fraction 64 2) (take 8 primes) (initial Sha512) /\
  Forall2 (root_fraction 64 2) (take 8 (drop 8 primes)) (initial Sha384).
Proof. split_and!; apply roots_check_ok; vm_compute; reflexivity. Qed.

(** Test vectors: the digests of "abc", and case 2 of RFC 4231. *)
Example digests_of_abc :
  from_be (md5 [97; 98; 99]) = 0x900150983cd24fb0d6963f7d28e17f72 /\
  from_be (sha1 [97; 98; 99]) = 0xa9993e364706816aba3e25717850c26c9cd0d89d /\
  from_be (sha256 [97; 98; 99]) = 0xba7816bf8f01cfea414140de5dae2223b00361a396177a9cb410ff61f20015ad /\
  from_be (sha384 [97; 98; 99]) =
    0xcb00753f45a35e8bb5a03d699ac65007272c32ab0eded1631a8b605a43ff5bed8086072ba1e7cc2358baeca134c825a7 /\
  from_be (sha512 [97; 98; 99]) =
    0xddaf35a193617abacc417349ae20413112e6fa4e89a97ea20a9eeee64b55d39a2192992a274fc1a836ba3c23a3feebbd454d4423643ce80e2a9ac94fa54ca49f.
Proof. vm_compute. split_and!; reflexivity. Qed.

Example hmac_jefe :
  from_be (fst (hmac_finalize (hmac_update (new_sha256 [74; 101; 102; 101])
    [119; 104; 97; 116; 32; 100; 111; 32; 121; 97; 32; 119; 97; 110; 116; 32;
     102; 111; 114; 32; 110; 111; 116; 104; 105; 110; 103; 63]))) =
  0x5bdcc146bf60754e6a042426089575c75a003f089d2739839dec58b964ec3843.
Proof. vm_compute. reflexivity. Qed.

End Hash.
