(* ===== verification/BigNum.v ===== *)
(** * Multi-precision arithmetic of RSA ([crypto/rsa.rs], [BigUint])

    Naturals as vectors of 64-bit limbs, least significant first. Loops that write
    [result[i]] for increasing [i] are recursions that build the vector; [value] is the number
    a vector stands for. *)

From Stdlib Require Import ZArith Lia Znumtheory Zpow_facts.
From S2P Require Import Prelude Bytes.

Module BigNum.

Record BigUint := mk_big { limbs : list Z }.

(** [while v.last() == Some(&0) && v.len() > 1 { v.pop(); }] *)
Fixpoint trim_rev (l : list Z) : list Z :=
  match l with
  | x :: ((_ :: _) as rest) => if x =? 0 then trim_rev rest else l
  | _ => l
  end.

Definition trim (l : list Z) : list Z := rev (trim_rev (rev l)).

(** [BigUint::from] *)
Definition from (v : Z) : BigUint := mk_big [v].

(** [bytes.rchunks(8)]: chunks from the end. *)
Definition rchunks (n : nat) (l : list Z) : list (list Z) := (@rev Z) <$> chunks n (rev l).

(** [limb = (limb << 8) | byte] over the bytes of a chunk. *)
Definition chunk_limb (chunk : list Z) : Z :=
  fold_left (fun limb byte => Z.lor (wrap 64 (Z.shiftl limb 8)) byte) chunk 0.

Definition from_bytes (bytes : list Z) : BigUint := mk_big (trim (chunk_limb <$> rchunks 8 bytes)).

(** [while bytes.first() == Some(&0) && bytes.len() > 1 { bytes.remove(0); }] is the same
    loop from the other end. *)
Definition to_bytes (x : BigUint) : list Z := trim_rev (concat (to_be 8 <$> rev (limbs x))).

(** [64 - limb.leading_zeros()] *)
Definition limb_bits (x : Z) : Z := if x =? 0 then 0 else Z.log2 x + 1.

Definition byte_len (x : BigUint) : nat :=
  match rev (limbs x) with
  | [] => 1
  | top_limb :: lower =>
      let limb_bytes := if top_limb =? 0 then 1 else (limb_bits top_limb + 7) / 8 in
      (length lower * 8 + Z.to_nat limb_bytes)%nat
  end.

(** ** Addition and subtraction *)

(** [if i < v.len() { v[i] } else { 0 }], and the rest of the vector. *)
Definition hd0 (l : list Z) : Z := match l with [] => 0 | x :: _ => x end.
Definition tl0 (l : list Z) : list Z := match l with [] => [] | _ :: l => l end.

(** [a.overflowing_add(b)], [a.overflowing_sub(b)] *)
Definition overflowing_add (a b : Z) : Z * bool := (a +[64] b, 2 ^ 64 <=? a + b).
Definition overflowing_sub (a b : Z) : Z * bool := (a -[64] b, a <? b).

Fixpoint add_loop (n : nat) (a b : list Z) (carry : bool) : list Z * bool :=
  match n with
  | O => ([], carry)
  | S n =>
      let '(sum, c1) := overflowing_add (hd0 a) (hd0 b) in
      let '(sum, c2) := overflowing_add sum (Z.b2z carry) in
      let '(result, carry) := add_loop n (tl0 a) (tl0 b) (c1 || c2) in
      (sum :: result, carry)
  end.

Definition add (x y : BigUint) : BigUint :=
  let max_len := Nat.max (length (limbs x)) (length (limbs y)) in
  let '(result, carry) := add_loop max_len (limbs x) (limbs y) false in
  mk_big (trim (result ++ [Z.b2z carry])).

Fixpoint sub_loop (a b : list Z) (borrow : bool) : list Z :=
  match a with
  | [] => []
  | x :: a =>
      let '(d1, under1) := overflowing_sub x (hd0 b) in
      let '(diff, under2) := overflowing_sub d1 (Z.b2z borrow) in
      diff :: sub_loop a (tl0 b) (under1 || under2)
  end.

Definition sub (x y : BigUint) : BigUint := mk_big (trim (sub_loop (limbs x) (limbs y) false)).

(** ** Multiplication *)

(** The inner loop on [result[i..]]; the last carry is stored, not added. *)
Fixpoint mul_row (a : Z) (bs result : list Z) (carry : Z) : list Z :=
  match bs, result with
  | b :: bs, r :: result =>
      let product := a * b + r + carry in
      wrap 64 product :: mul_row a bs result (Z.shiftr product 64)
  | [], r :: result => if 0 <? carry then carry :: result else r :: result
  | _, [] => []
  end.

(** The outer loop: row [i] leaves [result[..i]] as it is. *)
Fixpoint mul_loop (xs ys result : list Z) : list Z :=
  match xs with
  | [] => result
  | a :: xs => let result := mul_row a ys result 0 in
               hd0 result :: mul_loop xs ys (tl0 result)
  end.

Definition mul (x y : BigUint) : BigUint :=
  mk_big (trim (mul_loop (limbs x) (limbs y)
                  (replicate (length (limbs x) + length (limbs y)) 0))).

(** ** Shifts, bits and comparison *)

(** [result[i] = (v[i] << s) | (v[i - 1] >> (64 - s))], one limb longer than [v]. *)
Fixpoint shl_loop (prev : Z) (l : list Z) (s : Z) : list Z :=
  let low := if 0 <? s then Z.shiftr prev (64 - s) else 0 in
  match l with
  | [] => [low]
  | x :: l => Z.lor low (wrap 64 (Z.shiftl x s)) :: shl_loop x l s
  end.

Definition shl (x : BigUint) (bits : Z) : BigUint :=
  if bits =? 0 then x
  else mk_big (trim (replicate (Z.to_nat (bits / 64)) 0 ++ shl_loop 0 (limbs x) (bits mod 64))).

Fixpoint shr_loop (l : list Z) (s : Z) : list Z :=
  match l with
  | [] => []
  | x :: l =>
      let r := Z.shiftr x s in
      let r := match l with
               | y :: _ => if 0 <? s then Z.lor r (wrap 64 (Z.shiftl y (64 - s))) else r
               | [] => r
               end in
      r :: shr_loop l s
  end.

Definition shr (x : BigUint) (bits : Z) : BigUint :=
  if bits =? 0 then x
  else
    let limb_shift := Z.to_nat (bits / 64) in
    if (length (limbs x) <=? limb_shift)%nat then from 0
    else mk_big (trim (shr_loop (drop limb_shift (limbs x)) (bits mod 64))).

(** The loop of [cmp] from the top limb, on vectors of one length. *)
Fixpoint cmp_loop (a b : list Z) : Z :=
  match a, b with
  | x :: a, y :: b => if y <? x then 1 else if x <? y then -1 else cmp_loop a b
  | _, _ => 0
  end.

Definition cmp (x y : BigUint) : Z :=
  if negb (length (limbs x) =? length (limbs y))%nat
  then if (length (limbs y) <? length (limbs x))%nat then 1 else -1
  else cmp_loop (rev (limbs x)) (rev (limbs y)).

Definition is_zero (x : BigUint) : bool := forallb (fun limb => limb =? 0) (limbs x).

(** From the top limb, with the limbs below it. *)
Fixpoint bit_len_loop (l : list Z) : Z :=
  match l with
  | [] => 0
  | x :: l => if negb (x =? 0) then Z.of_nat (length l) * 64 + limb_bits x else bit_len_loop l
  end.

Definition bit_len (x : BigUint) : nat := Z.to_nat (bit_len_loop (rev (limbs x))).

Definition bit (x : BigUint) (index : nat) : bool :=
  match limbs x !! (index / 64)%nat with
  | Some limb => Z.land (Z.shiftr limb (Z.of_nat (index mod 64))) 1 =? 1
  | None => false
  end.

(** ** Division *)

(** [v[0] |= b] on a vector that [shl] returned: it has a limb. *)
Definition or_first (x : BigUint) (b : Z) : BigUint :=
  match limbs x with
  | l0 :: l => mk_big (Z.lor l0 b :: l)
  | [] => x
  end.

Definition div_step (x other : BigUint) (qr : list Z * BigUint) (i : nat) : list Z * BigUint :=
  let '(q, rem) := qr in
  let rem := or_first (shl rem 1) (Z.b2z (bit x i)) in
  if 0 <=? cmp rem other
  then (alter (fun l => Z.lor l (wrap 64 (Z.shiftl 1 (Z.of_nat (i mod 64))))) (i / 64)%nat q,
        sub rem other)
  else (q, rem).

Definition div_rem (x other : BigUint) : BigUint * BigUint :=
  if is_zero other then (from 0, x)
  else
    let '(q, rem) := fold_left (div_step x other) (rev (seq 0 (bit_len x)))
                       (replicate (Nat.max (length (limbs x)) 1) 0, from 0) in
    (mk_big (trim q), rem).

Definition div (x other : BigUint) : BigUint := fst (div_rem x other).
Definition mod_op (x modulus : BigUint) : BigUint := snd (div_rem x modulus).

(** ** Powers and inverses *)

(** [while !exp.is_zero()]: every round halves the exponent. *)
Fixpoint mod_exp_loop (fuel : nat) (modulus result base exp : BigUint) : outcome BigUint :=
  if is_zero exp then Ret result
  else match fuel with
       | O => OutOfFuel
       | S fuel =>
           let result := if Z.land (hd0 (limbs exp)) 1 =? 1
                         then mod_op (mul result base) modulus else result in
           mod_exp_loop fuel modulus result (mod_op (mul base base) modulus) (shr exp 1)
       end.

Definition mod_exp (x exponent modulus : BigUint) : outcome BigUint :=
  mod_exp_loop (bit_len exponent) modulus (from 1) (mod_op x modulus) exponent.

(** [while !newr.is_zero()]: Euclid's algorithm. *)
Fixpoint mod_inverse_loop (fuel : nat) (modulus t newt r newr : BigUint) : outcome BigUint :=
  if is_zero newr then Ret (mod_op t modulus)
  else match fuel with
       | O => OutOfFuel
       | S fuel =>
           let quotient := div r newr in
           let newt' :=
             if 0 <=? cmp t (mul quotient newt) then sub t (mul quotient newt)
             else mod_op (sub modulus (mod_op (sub (mul quotient newt) t) modulus)) modulus in
           mod_inverse_loop fuel modulus newt newt' newr (sub r (mul quotient newr))
       end.

Definition mod_inverse (x modulus : BigUint) : outcome BigUint :=
  mod_inverse_loop (bit_len x + bit_len modulus + 2) modulus (from 0) (from 1) modulus x.

(** ** The number of a vector *)

Fixpoint value_of (l : list Z) : Z :=
  match l with
  | [] => 0
  | x :: l => x + 2 ^ 64 * value_of l
  end.

Definition value (x : BigUint) : Z := value_of (limbs x).

Definition limbs_ty (l : list Z) : Prop := Forall (u_ty 64) l.
Definition wf (x : BigUint) : Prop := limbs_ty (limbs x).

(** At least one limb, and no zero limb on top of others. *)
Definition normal (l : list Z) : Prop :=
  match rev l with
  | [] => False
  | [_] => True
  | x :: _ => x <> 0
  end.

Definition canonical (x : BigUint) : Prop := wf x /\ normal (limbs x).

(** [2 ^ (64 * n)] *)
Definition radix (n : nat) : Z := 2 ^ (64 * Z.of_nat n).

Lemma radix_pos n : 0 < radix n.
Proof. apply Z.pow_pos_nonneg; lia. Qed.

Lemma radix_0 : radix 0 = 1.
Proof. reflexivity. Qed.

Lemma radix_S n : radix (S n) = 2 ^ 64 * radix n.
Proof. unfold radix. rewrite <- Z.pow_add_r by lia. f_equal. lia. Qed.

Lemma radix_add m n : radix (m + n) = radix m * radix n.
Proof. unfold radix. rewrite <- Z.pow_add_r by lia. f_equal. lia. Qed.

Lemma radix_mono m n : (m <= n)%nat -> radix m <= radix n.
Proof. intros H. apply Z.pow_le_mono_r; lia. Qed.

Lemma value_app a b : value_of (a ++ b) = value_of a + radix (length a) * value_of b.
Proof.
  induction a as [| x a IH]; cbn [app value_of length]; [rewrite radix_0; lia |].
  rewrite IH, radix_S. lia.
Qed.

Lemma value_bound l : limbs_ty l -> 0 <= value_of l < radix (length l).
Proof.
  induction 1 as [| x l Hx _ IH]; [done |]. cbn [value_of length]. rewrite radix_S.
  unfold u_ty in Hx. lia.
Qed.

Lemma value_nonneg x : wf x -> 0 <= value x.
Proof. intros H. apply (value_bound _ H). Qed.

Lemma limbs_ty_app a b : limbs_ty a -> limbs_ty b -> limbs_ty (a ++ b).
Proof. apply Forall_app_2. Qed.

Lemma value_snoc l x : value_of (l ++ [x]) = value_of l + radix (length l) * x.
Proof. rewrite value_app. cbn. lia. Qed.

Lemma limbs_ty_rev l : limbs_ty l -> limbs_ty (rev l).
Proof. apply Forall_rev. Qed.

Lemma limbs_ty_1 x : u_ty 64 x -> limbs_ty [x].
Proof. intros H. by apply Forall_singleton. Qed.

Lemma value_zeros n : value_of (replicate n 0) = 0.
Proof. induction n as [| n IH]; [done |]. cbn [replicate value_of]. rewrite IH. lia. Qed.

Lemma limbs_ty_zeros n : limbs_ty (replicate n 0).
Proof. by apply Forall_replicate. Qed.

(** ** Removing zero limbs *)

Lemma trim_rev_cons x y l : trim_rev (x :: y :: l) = if x =? 0 then trim_rev (y :: l) else x :: y :: l.
Proof. reflexivity. Qed.

Lemma trim_rev_value l : value_of (rev (trim_rev l)) = value_of (rev l).
Proof.
  induction l as [| x [| y l] IH]; [done | done |]. rewrite trim_rev_cons.
  destruct (Z.eqb_spec x 0) as [-> | Hx]; [| done].
  rewrite IH. cbn [rev]. rewrite (value_snoc (rev l ++ [y])). lia.
Qed.

Lemma trim_rev_sub (P : Z -> Prop) l : Forall P l -> Forall P (trim_rev l).
Proof.
  induction l as [| x [| y l] IH]; [done | done |]. intros H. rewrite trim_rev_cons.
  destruct (x =? 0); [| done]. apply IH. by inversion H.
Qed.

Lemma trim_rev_normal l : l <> [] -> normal (rev (trim_rev l)).
Proof.
  intros Hl. unfold normal. rewrite rev_involutive. induction l as [| x [| y l] IH]; [done | done |].
  rewrite trim_rev_cons. destruct (Z.eqb_spec x 0) as [-> | Hx]; [by apply IH | done].
Qed.

Lemma trim_value l : value_of (trim l) = value_of l.
Proof. unfold trim. by rewrite trim_rev_value, rev_involutive. Qed.

Lemma trim_ty l : limbs_ty l -> limbs_ty (trim l).
Proof. intros H. apply Forall_rev, trim_rev_sub. by apply Forall_rev. Qed.

Lemma trim_normal l : l <> [] -> normal (trim l).
Proof.
  intros Hl. apply trim_rev_normal. intros E. apply Hl.
  rewrite <- (rev_involutive l), E. done.
Qed.

Lemma trim_canonical l : l <> [] -> limbs_ty l -> canonical (mk_big (trim l)).
Proof. intros Hl Ht. split; [by apply trim_ty | by apply trim_normal]. Qed.

Lemma from_spec v : u_ty 64 v -> canonical (from v) /\ value (from v) = v.
Proof. intros H. split; [split; [by constructor | done] |]. unfold value. cbn. lia. Qed.

Lemma is_zero_spec x : wf x -> is_zero x = (value x =? 0).
Proof.
  unfold wf, is_zero, value. induction 1 as [| x' l Hx Hl IH]; [done |]. cbn [forallb value_of].
  rewrite IH. pose proof (value_bound l Hl). unfold u_ty in Hx.
  destruct (Z.eqb_spec x' 0), (Z.eqb_spec (value_of l) 0); cbn; symmetry; apply Z.eqb_eq || apply Z.eqb_neq; lia.
Qed.

(** ** Bytes *)

Lemma fold_limb chunk limb :
  Forall byte_ty chunk -> 0 <= limb -> limb < 2 ^ (64 - 8 * Z.of_nat (length chunk)) -> (length chunk <= 8)%nat ->
  fold_left (fun limb byte => Z.lor (wrap 64 (Z.shiftl limb 8)) byte) chunk limb =
  limb * 2 ^ (8 * Z.of_nat (length chunk)) + from_be chunk.
Proof.
  intros H. revert limb. induction H as [| b chunk Hb _ IH]; intros limb H0 Hl Hn.
  - cbn. lia.
  - cbn [fold_left length] in *. set (n := length chunk) in *.
    change (b :: chunk) with ([b] ++ chunk). rewrite from_be_app. cbn [from_be rev app from_le].
    assert (Hb' : 0 <= b < 256) by exact Hb.
    assert (Hs : Z.shiftl limb 8 < 2 ^ (64 - 8 * Z.of_nat n)).
    { rewrite Z.shiftl_mul_pow2 by lia.
      replace (64 - 8 * Z.of_nat n) with (64 - 8 * Z.of_nat (S n) + 8) by lia.
      rewrite Z.pow_add_r by lia. apply Z.mul_lt_mono_pos_r; [done | done]. }
    assert (Hs0 : 0 <= Z.shiftl limb 8) by (by apply Z.shiftl_nonneg).
    assert (H64 : 2 ^ (64 - 8 * Z.of_nat n) <= 2 ^ 64) by (apply Z.pow_le_mono_r; lia).
    rewrite wrap_small by (unfold u_ty; lia).
    rewrite lor_shiftl_add by (done || lia). rewrite Z.shiftl_mul_pow2 in Hs by lia.
    rewrite IH; [| lia | | lia].
    + replace (8 * Z.of_nat (S n)) with (8 + 8 * Z.of_nat n) by lia. rewrite Z.pow_add_r by lia.
      replace (b + 256 * 0) with b by lia. fold n. lia.
    + fold n. assert (limb * 2 ^ 8 + 255 < 2 ^ (64 - 8 * Z.of_nat n)); [| lia].
      replace (64 - 8 * Z.of_nat n) with (64 - 8 * Z.of_nat (S n) + 8) in * by lia.
      rewrite Z.pow_add_r in * by lia. change (2 ^ 8) with 256 in *. lia.
Qed.

Lemma chunk_limb_spec chunk : Forall byte_ty chunk -> (length chunk <= 8)%nat ->
  chunk_limb chunk = from_be chunk /\ u_ty 64 (from_be chunk).
Proof.
  intros H Hl. unfold chunk_limb.
  rewrite fold_limb; [split; [lia |] | done | lia | apply Z.pow_pos_nonneg; lia | done].
  pose proof (from_be_ty chunk H) as [H0 H1]. split; [done |].
  apply Z.lt_le_trans with (1 := H1). apply Z.pow_le_mono_r; lia.
Qed.

Lemma from_bytes_limbs r : Forall byte_ty r ->
  limbs_ty (chunk_limb <$> ((@rev Z) <$> chunks 8 r)) /\
  value_of (chunk_limb <$> ((@rev Z) <$> chunks 8 r)) = from_be (rev r) /\
  (r <> [] -> chunk_limb <$> ((@rev Z) <$> chunks 8 r) <> []).
Proof.
  revert r. refine (chunks_ind 8 _ ltac:(lia) _ _ _).
  - intros _. split_and!; [constructor | done | done].
  - intros l Hne Hl H. rewrite chunks_short by (done || lia). cbn [fmap list_fmap].
    destruct (chunk_limb_spec (rev l)) as [-> Hty]; [by apply Forall_rev | rewrite length_rev; lia |].
    split_and!; [by constructor | cbn [value_of]; lia | done].
  - intros a l Ha IH H. apply Forall_app in H as [Hta Htl]. destruct (IH Htl) as (IHt & IHv & _).
    rewrite chunks_app by (done || lia). rewrite !fmap_cons.
    destruct (chunk_limb_spec (rev a)) as [-> Hty]; [by apply Forall_rev | rewrite length_rev; lia |].
    split_and!; [by constructor | | done]. cbn [value_of]. rewrite IHv.
    rewrite rev_app_distr, from_be_app, length_rev, Ha. change (2 ^ (8 * Z.of_nat 8)) with (2 ^ 64). lia.
Qed.

Lemma from_bytes_spec bytes : Forall byte_ty bytes ->
  wf (from_bytes bytes) /\ value (from_bytes bytes) = from_be bytes /\
  (bytes <> [] -> canonical (from_bytes bytes)).
Proof.
  intros H. destruct (from_bytes_limbs (rev bytes)) as (Ht & Hv & Hne); [by apply Forall_rev |].
  rewrite rev_involutive in Hv. unfold wf, value, from_bytes, rchunks.
  cbn [limbs]. split_and!; [by apply trim_ty | by rewrite trim_value | intros Hb].
  apply trim_canonical; [| done]. apply Hne. intros E. apply Hb.
  by rewrite <- (rev_involutive bytes), E.
Qed.

(** The shortest big-endian string of a number, of one byte at least. *)
Definition be_bytes (k : nat) (v : Z) : list Z := trim_rev (to_be k v).

Lemma trim_rev_zeros n l : l <> [] -> trim_rev (replicate n 0 ++ l) = trim_rev l.
Proof.
  intros Hl. induction n as [| n IH]; [done |]. cbn [replicate app].
  destruct (replicate n 0 ++ l) as [| y k] eqn:E.
  - apply app_nil in E as [_ ->]. done.
  - rewrite trim_rev_cons, <- IH. done.
Qed.

Lemma to_be_0 n : to_be n 0 = replicate n 0.
Proof.
  unfold to_be. assert (E : to_le n 0 = replicate n 0)
    by (induction n as [| n IH]; [done | cbn; f_equal; exact IH]).
  rewrite E. clear E. induction n as [| n IH]; [done |].
  cbn [replicate rev]. by rewrite IH, replicate_cons_app.
Qed.

Lemma be_bytes_len k k' v : (0 < k <= k')%nat -> u_ty (8 * Z.of_nat k) v -> be_bytes k' v = be_bytes k v.
Proof.
  intros Hk Hv. unfold be_bytes. replace k' with ((k' - k) + k)%nat by lia.
  replace v with (0 * 2 ^ (8 * Z.of_nat k) + v) at 1 by lia.
  rewrite to_be_app, to_be_0 by done. apply trim_rev_zeros.
  destruct (to_be_block k v) as [Hl _]. destruct (to_be k v); [simpl in Hl; lia | done].
Qed.

Lemma concat_limbs l : limbs_ty l -> concat (to_be 8 <$> rev l) = to_be (8 * length l) (value_of l).
Proof.
  induction 1 as [| x l Hx Hl IH]; [done |]. cbn [rev length value_of].
  rewrite fmap_app, concat_app, IH. cbn [fmap list_fmap concat]. rewrite app_nil_r.
  replace (8 * S (length l))%nat with (8 * length l + 8)%nat by lia.
  rewrite <- to_be_app by exact Hx. f_equal. change (2 ^ (8 * Z.of_nat 8)) with (2 ^ 64). lia.
Qed.

Lemma to_bytes_spec x k : canonical x -> (0 < k)%nat -> u_ty (8 * Z.of_nat k) (value x) ->
  to_bytes x = be_bytes k (value x).
Proof.
  intros [Hw Hn] Hk Hv. unfold to_bytes. rewrite concat_limbs by done. fold (value x).
  fold (be_bytes (8 * length (limbs x)) (value x)).
  assert (Hl : (0 < length (limbs x))%nat) by (destruct (limbs x); [done | simpl; lia]).
  assert (Hv' : u_ty (8 * Z.of_nat (8 * length (limbs x))) (value x)).
  { pose proof (value_bound _ Hw) as H. unfold radix in H. unfold u_ty, value.
    by replace (8 * Z.of_nat (8 * length (limbs x))) with (64 * Z.of_nat (length (limbs x))) by lia. }
  destruct (Nat.le_gt_cases k (8 * length (limbs x))).
  - by apply be_bytes_len.
  - symmetry. apply be_bytes_len; [lia | done].
Qed.

(** ** Addition and subtraction *)

Lemma value_hd_tl l : value_of l = hd0 l + 2 ^ 64 * value_of (tl0 l).
Proof. by destruct l. Qed.

Lemma hd0_ty l : limbs_ty l -> u_ty 64 (hd0 l).
Proof. by destruct 1. Qed.

Lemma tl0_ty l : limbs_ty l -> limbs_ty (tl0 l).
Proof. destruct 1; [constructor | done]. Qed.

Lemma length_tl0 l : length (tl0 l) = (length l - 1)%nat.
Proof. destruct l; simpl; lia. Qed.

Lemma overflowing_add_spec a b : u_ty 64 a -> u_ty 64 b ->
  let '(s, c) := overflowing_add a b in u_ty 64 s /\ s + 2 ^ 64 * Z.b2z c = a + b.
Proof.
  intros [Ha0 Ha] [Hb0 Hb]. unfold overflowing_add. split; [by apply wrap_ty |].
  unfold wrap. destruct (Z.leb_spec (2 ^ 64) (a + b)); cbn [Z.b2z].
  - replace (a + b) with (a + b - 2 ^ 64 + 1 * 2 ^ 64) at 1 by lia.
    rewrite Z.mod_add, Z.mod_small by lia. lia.
  - rewrite Z.mod_small by lia. lia.
Qed.

Lemma overflowing_sub_spec a b : u_ty 64 a -> u_ty 64 b ->
  let '(d, u) := overflowing_sub a b in u_ty 64 d /\ d - 2 ^ 64 * Z.b2z u = a - b.
Proof.
  intros [Ha0 Ha] [Hb0 Hb]. unfold overflowing_sub. split; [by apply wrap_ty |].
  unfold wrap. destruct (Z.ltb_spec a b); cbn [Z.b2z].
  - replace (a - b) with (a - b + 2 ^ 64 + (-1) * 2 ^ 64) at 1 by lia.
    rewrite Z.mod_add, Z.mod_small by lia. lia.
  - rewrite Z.mod_small by lia. lia.
Qed.

Lemma b2z_ty c : u_ty 64 (Z.b2z c).
Proof. by destruct c. Qed.

Lemma b2z_orb c1 c2 s : 0 <= s -> s < 2 ^ 64 -> forall t, 0 <= t <= 2 ^ 64 + (2 ^ 64 - 1) ->
  s + 2 ^ 64 * (Z.b2z c1 + Z.b2z c2) = t -> Z.b2z (c1 || c2) = Z.b2z c1 + Z.b2z c2.
Proof. intros. destruct c1, c2; cbn in *; lia. Qed.

Lemma add_loop_spec n a b carry :
  limbs_ty a -> limbs_ty b -> (length a <= n)%nat -> (length b <= n)%nat ->
  let '(r, c) := add_loop n a b carry in
  limbs_ty r /\ length r = n /\
  value_of r + radix n * Z.b2z c = value_of a + value_of b + Z.b2z carry.
Proof.
  revert a b carry. induction n as [| n IH]; intros a b carry Ha Hb La Lb.
  - destruct a, b; simpl in *; try lia. split_and!; [constructor | done | rewrite radix_0; lia].
  - cbn [add_loop].
    pose proof (overflowing_add_spec (hd0 a) (hd0 b) (hd0_ty _ Ha) (hd0_ty _ Hb)) as H1.
    destruct (overflowing_add (hd0 a) (hd0 b)) as [s1 c1]. destruct H1 as [Hs1 E1].
    pose proof (overflowing_add_spec s1 (Z.b2z carry) Hs1 (b2z_ty carry)) as H2.
    destruct (overflowing_add s1 (Z.b2z carry)) as [s2 c2]. destruct H2 as [Hs2 E2].
    specialize (IH (tl0 a) (tl0 b) (c1 || c2) (tl0_ty _ Ha) (tl0_ty _ Hb)
                  ltac:(rewrite length_tl0; lia) ltac:(rewrite length_tl0; lia)).
    destruct (add_loop n (tl0 a) (tl0 b) (c1 || c2)) as [r c]. destruct IH as (Hr & Lr & Er).
    split_and!; [by constructor | by cbn; rewrite Lr |].
    cbn [value_of]. rewrite radix_S, (value_hd_tl a), (value_hd_tl b).
    assert (Hc : Z.b2z (c1 || c2) = Z.b2z c1 + Z.b2z c2).
    { pose proof (hd0_ty _ Ha) as [? ?]. pose proof (hd0_ty _ Hb) as [? ?].
      destruct Hs2 as [? ?]. destruct c1, c2, carry; cbn [Z.b2z orb] in *; lia. }
    rewrite Hc in Er. nia.
Qed.

Lemma add_spec x y : wf x -> wf y -> canonical (add x y) /\ value (add x y) = value x + value y.
Proof.
  intros Hx Hy. unfold add.
  pose proof (add_loop_spec (Nat.max (length (limbs x)) (length (limbs y))) (limbs x) (limbs y) false
    Hx Hy ltac:(lia) ltac:(lia)) as H.
  destruct (add_loop _ _ _ _) as [r c]. destruct H as (Hr & Lr & Er). cbn [Z.b2z] in Er.
  split.
  - apply trim_canonical; [by destruct r |]. apply limbs_ty_app; [done |]. constructor; [apply b2z_ty | done].
  - unfold value. cbn [limbs]. rewrite trim_value, value_snoc, Lr. lia.
Qed.

Lemma sub_loop_spec a b borrow :
  limbs_ty a -> limbs_ty b ->
  limbs_ty (sub_loop a b borrow) /\ length (sub_loop a b borrow) = length a /\
  exists k, value_of (sub_loop a b borrow) = value_of a - value_of b - Z.b2z borrow + radix (length a) * k.
Proof.
  revert b borrow. induction a as [| x a IH]; intros b borrow Ha Hb.
  - split_and!; [constructor | done |]. exists (value_of b + Z.b2z borrow). cbn. rewrite radix_0. lia.
  - apply Forall_cons in Ha as [Hx Ha]. cbn [sub_loop].
    pose proof (overflowing_sub_spec x (hd0 b) Hx (hd0_ty _ Hb)) as H1.
    destruct (overflowing_sub x (hd0 b)) as [d1 u1]. destruct H1 as [Hd1 E1].
    pose proof (overflowing_sub_spec d1 (Z.b2z borrow) Hd1 (b2z_ty borrow)) as H2.
    destruct (overflowing_sub d1 (Z.b2z borrow)) as [d2 u2]. destruct H2 as [Hd2 E2].
    destruct (IH (tl0 b) (u1 || u2) Ha (tl0_ty _ Hb)) as (Hr & Lr & k & Er).
    split_and!; [by constructor | by cbn; rewrite Lr |]. exists k.
    cbn [value_of length]. rewrite radix_S, (value_hd_tl b), Er.
    assert (Hu : Z.b2z (u1 || u2) = Z.b2z u1 + Z.b2z u2).
    { destruct Hx as [? ?]. pose proof (hd0_ty _ Hb) as [? ?].
      destruct Hd2 as [? ?]. destruct u1, u2, borrow; cbn [Z.b2z orb] in *; lia. }
    rewrite Hu. nia.
Qed.

Lemma sub_spec x y : canonical x -> wf y -> value y <= value x ->
  canonical (sub x y) /\ value (sub x y) = value x - value y.
Proof.
  intros [Hx Hn] Hy Hle. unfold sub.
  destruct (sub_loop_spec (limbs x) (limbs y) false Hx Hy) as (Ht & Hl & k & Ek). split.
  - apply trim_canonical; [| done]. intros E. rewrite E in Hl. by destruct (limbs x).
  - unfold value in *. cbn [limbs]. rewrite trim_value, Ek. cbn [Z.b2z] in *.
    pose proof (value_bound _ Ht) as Hb. rewrite Ek, Hl in Hb. pose proof (value_bound _ Hx).
    pose proof (value_bound _ Hy).
    assert (k = 0); [| subst k; lia]. set (d := value_of (limbs x) - value_of (limbs y)) in *.
    assert (0 <= d < radix (length (limbs x))) by lia.
    assert (0 <= d + radix (length (limbs x)) * k < radix (length (limbs x))) by lia. nia.
Qed.

(** ** Multiplication *)

Lemma mul_row_spec a bs r1 r2 carry :
  u_ty 64 a -> limbs_ty bs -> limbs_ty r1 -> limbs_ty r2 -> u_ty 64 carry -> length r1 = length bs ->
  exists r1', mul_row a bs (r1 ++ 0 :: r2) carry = r1' ++ r2 /\ limbs_ty r1' /\
    length r1' = S (length bs) /\ value_of r1' = value_of r1 + a * value_of bs + carry.
Proof.
  intros Ha Hbs. revert r1 carry. induction Hbs as [| b bs Hb _ IH]; intros r1 carry H1 H2 Hc Hl.
  - destruct r1; [| done]. exists [if 0 <? carry then carry else 0]. unfold u_ty in Hc.
    cbn [app mul_row value_of length]. destruct (Z.ltb_spec 0 carry);
      (split; [done |]; split; [by apply limbs_ty_1 |]; split; [done | lia]).
  - destruct r1 as [| r r1]; [done |]. apply Forall_cons in H1 as [Hr H1]. cbn [app mul_row].
    set (p := a * b + r + carry).
    assert (Hp : 0 <= p < 2 ^ 64 * 2 ^ 64) by (unfold p, u_ty in *; nia).
    assert (Hs : u_ty 64 (Z.shiftr p 64)).
    { rewrite Z.shiftr_div_pow2 by lia. split; [apply Z.div_pos; lia | apply Z.div_lt_upper_bound; lia]. }
    destruct (IH r1 (Z.shiftr p 64) H1 H2 Hs ltac:(simpl in Hl; lia)) as (r1' & -> & Hr1' & Hl' & Hv').
    exists (wrap 64 p :: r1'). split_and!; [done | constructor; [by apply wrap_ty | done] | simpl; lia |].
    cbn [value_of]. rewrite Hv', Z.shiftr_div_pow2 by lia. unfold wrap.
    pose proof (Z.div_mod p (2 ^ 64)). unfold p in *. lia.
Qed.

Lemma mul_loop_spec xs ys r :
  limbs_ty xs -> limbs_ty ys -> limbs_ty r -> length r = length ys ->
  limbs_ty (mul_loop xs ys (r ++ replicate (length xs) 0)) /\
  value_of (mul_loop xs ys (r ++ replicate (length xs) 0)) = value_of r + value_of xs * value_of ys /\
  length (mul_loop xs ys (r ++ replicate (length xs) 0)) = (length xs + length ys)%nat.
Proof.
  intros Hxs Hys. revert r. induction Hxs as [| a xs Ha _ IH]; intros r Hr Hl.
  - cbn. rewrite app_nil_r. split_and!; [done | lia | done].
  - cbn [length replicate mul_loop].
    destruct (mul_row_spec a ys r (replicate (length xs) 0) 0 Ha Hys Hr (limbs_ty_zeros _) ltac:(done) Hl)
      as (r' & -> & Hr' & Hl' & Hv').
    destruct r' as [| x r']; [done |]. cbn [app hd0 tl0]. apply Forall_cons in Hr' as [Hx Hr'].
    destruct (IH r' Hr' ltac:(simpl in Hl'; lia)) as (It & Iv & Il).
    split_and!; [by constructor | | simpl; lia].
    cbn [value_of] in *. rewrite Iv. lia.
Qed.

Lemma mul_spec x y : wf x -> wf y -> canonical x \/ canonical y ->
  canonical (mul x y) /\ value (mul x y) = value x * value y.
Proof.
  intros Hx Hy Hc. unfold mul, value.
  destruct (mul_loop_spec (limbs x) (limbs y) (replicate (length (limbs y)) 0) Hx Hy
    (limbs_ty_zeros _) ltac:(by rewrite length_replicate)) as (Ht & Hv & Hl).
  rewrite <- replicate_add, Nat.add_comm in Ht, Hv, Hl. cbn [limbs].
  rewrite trim_value, Hv, value_zeros. split; [| lia]. apply trim_canonical; [| done].
  intros E. rewrite E in Hl. cbn in Hl. destruct Hc as [[_ Hn] | [_ Hn]];
    [destruct (limbs x); [done | simpl in Hl; lia] | destruct (limbs y); [done | simpl in Hl; lia]].
Qed.

(** ** Shifts *)

Lemma shiftl_split x s : 0 <= s <= 64 -> u_ty 64 x ->
  wrap 64 (Z.shiftl x s) = (x mod 2 ^ (64 - s)) * 2 ^ s /\
  x = x mod 2 ^ (64 - s) + 2 ^ (64 - s) * Z.shiftr x (64 - s).
Proof.
  intros Hs Hx. split.
  - unfold wrap. rewrite Z.shiftl_mul_pow2 by lia.
    replace (2 ^ 64) with (2 ^ (64 - s) * 2 ^ s) by (rewrite <- Z.pow_add_r by lia; f_equal; lia).
    by rewrite Z.mul_mod_distr_r by (apply Z.pow_nonzero; lia).
  - rewrite Z.shiftr_div_pow2 by lia. pose proof (Z.div_mod x (2 ^ (64 - s)) ltac:(apply Z.pow_nonzero; lia)). lia.
Qed.

Lemma shl_loop_spec l s prev : 0 < s < 64 -> limbs_ty l -> u_ty 64 prev ->
  limbs_ty (shl_loop prev l s) /\
  value_of (shl_loop prev l s) = value_of l * 2 ^ s + Z.shiftr prev (64 - s).
Proof.
  intros Hs Hl. revert prev. induction Hl as [| x l Hx _ IH]; intros prev Hp; cbn [shl_loop];
    rewrite (proj2 (Z.ltb_lt 0 s)) by lia.
  - assert (u_ty 64 (Z.shiftr prev (64 - s))).
    { destruct Hp. rewrite Z.shiftr_div_pow2 by lia. split; [apply Z.div_pos; lia |].
      apply Z.le_lt_trans with prev; [| done]. apply Z.div_le_upper_bound; [lia |]. nia. }
    split; [by apply limbs_ty_1 | cbn [value_of]; lia].
  - destruct (IH x Hx) as [It Iv]. destruct (shiftl_split x s ltac:(lia) Hx) as [Ew Ex].
    assert (Hlow : u_ty s (Z.shiftr prev (64 - s))).
    { destruct Hp. rewrite Z.shiftr_div_pow2 by lia. split; [apply Z.div_pos; lia |].
      apply Z.div_lt_upper_bound; [lia |]. rewrite <- Z.pow_add_r by lia.
      by replace (64 - s + s) with 64 by lia. }
    rewrite Ew, Z.lor_comm, lor_mul_add by (done || lia).
    assert (Hm := Z.mod_pos_bound x (2 ^ (64 - s)) ltac:(lia)).
    assert (E64 : 2 ^ 64 = 2 ^ (64 - s) * 2 ^ s) by (rewrite <- Z.pow_add_r by lia; f_equal; lia).
    destruct Hlow. split.
    + constructor; [| done]. split; [nia |]. rewrite E64. nia.
    + cbn [value_of]. rewrite Iv.
      assert (x * 2 ^ s = x mod 2 ^ (64 - s) * 2 ^ s + 2 ^ 64 * Z.shiftr x (64 - s)); [| lia].
      rewrite E64, Ex at 1. ring.
Qed.

Lemma shl1_spec x : wf x -> canonical (shl x 1) /\ value (shl x 1) = 2 * value x.
Proof.
  intros Hx. unfold shl, value. change (1 =? 0) with false. change (1 / 64) with 0. change (1 mod 64) with 1.
  change (Z.to_nat 0) with 0%nat. cbn [replicate app limbs].
  destruct (shl_loop_spec (limbs x) 1 0 ltac:(lia) Hx ltac:(done)) as [Ht Hv].
  split; [apply trim_canonical; [by destruct (limbs x) | done] |].
  rewrite trim_value, Hv. change (Z.shiftr 0 (64 - 1)) with 0. lia.
Qed.

Lemma shr_loop_spec l s : 0 < s < 64 -> limbs_ty l ->
  limbs_ty (shr_loop l s) /\ value_of (shr_loop l s) = value_of l / 2 ^ s.
Proof.
  intros Hs Hl. assert (E64 : 2 ^ 64 = 2 ^ (64 - s) * 2 ^ s) by (rewrite <- Z.pow_add_r by lia; f_equal; lia).
  assert (P1 : 0 < 2 ^ s) by lia. assert (P2 : 0 < 2 ^ (64 - s)) by lia.
  induction Hl as [| x l Hx Hl IH]; [split; [constructor | by rewrite Z.div_0_l by lia] |].
  cbn [shr_loop value_of]. rewrite (proj2 (Z.ltb_lt 0 s)) by lia. destruct IH as [It Iv].
  assert (Hr : u_ty (64 - s) (Z.shiftr x s)).
  { destruct Hx. rewrite Z.shiftr_div_pow2 by lia. split; [apply Z.div_pos; lia |].
    apply Z.div_lt_upper_bound; lia. }
  assert (Ediv : (x + 2 ^ 64 * value_of l) / 2 ^ s = Z.shiftr x s + 2 ^ (64 - s) * value_of l).
  { rewrite Z.shiftr_div_pow2 by lia.
    replace (x + 2 ^ 64 * value_of l) with (x + (2 ^ (64 - s) * value_of l) * 2 ^ s)
      by (rewrite E64; ring).
    apply Z.div_add. lia. }
  rewrite Ediv, Iv. destruct Hl as [| y l Hy Hl].
  - split; [constructor; [| constructor] | cbn [value_of]; rewrite Z.div_0_l; lia].
    destruct Hr. split; [done |]. pose proof (Z.pow_le_mono_r 2 (64 - s) 64). lia.
  - destruct (shiftl_split y (64 - s) ltac:(lia) Hy) as [Ew _].
    replace (64 - (64 - s)) with s in Ew by lia.
    rewrite Ew, Z.lor_comm, lor_mul_add by (done || lia).
    pose proof (Z.mod_pos_bound y (2 ^ s) P1). destruct Hr.
    split; [constructor; [| done]; split; [nia |]; rewrite E64; nia |].
    cbn [value_of].
    assert (Em : (y + 2 ^ 64 * value_of l) mod 2 ^ s = y mod 2 ^ s).
    { replace (y + 2 ^ 64 * value_of l) with (y + (2 ^ (64 - s) * value_of l) * 2 ^ s)
        by (rewrite E64; ring).
      apply Z.mod_add. lia. }
    pose proof (Z.div_mod (y + 2 ^ 64 * value_of l) (2 ^ s) ltac:(lia)) as Hd. rewrite Em in Hd.
    rewrite Hd at 2. rewrite E64 at 1. ring.
Qed.

Lemma shr1_spec x : canonical x -> canonical (shr x 1) /\ value (shr x 1) = value x / 2.
Proof.
  intros [Hx Hn]. unfold shr, value. change (1 =? 0) with false. change (1 / 64) with 0.
  change (1 mod 64) with 1. change (Z.to_nat 0) with 0%nat. rewrite drop_0.
  destruct (limbs x) as [| l0 l] eqn:E; [done |]. cbn [length Nat.leb]. rewrite <- E in *.
  destruct (shr_loop_spec (limbs x) 1 ltac:(lia) Hx) as [Ht Hv]. cbn [limbs].
  split; [apply trim_canonical; [by rewrite E | done] |]. by rewrite trim_value, Hv.
Qed.

(** ** Comparison *)

Lemma cmp_loop_spec a b : length a = length b -> limbs_ty a -> limbs_ty b ->
  cmp_loop a b = match value_of (rev a) ?= value_of (rev b) with Lt => -1 | Eq => 0 | Gt => 1 end.
Proof.
  intros Hl Ha. revert b Hl. induction Ha as [| x a Hx Ha IH]; intros [| y b] Hl Hb; try done.
  apply Forall_cons in Hb as [Hy Hb]. cbn [cmp_loop rev]. rewrite !value_snoc, !length_rev.
  injection Hl as Hl. rewrite <- Hl.
  pose proof (value_bound _ (limbs_ty_rev _ Ha)) as Ba. pose proof (value_bound _ (limbs_ty_rev _ Hb)) as Bb.
  rewrite length_rev in Ba, Bb. rewrite <- Hl in Bb. set (R := radix (length a)) in *.
  destruct (Z.ltb_spec y x) as [Hyx | Hyx].
  - rewrite (proj2 (Z.compare_gt_iff _ _)); [done |]. nia.
  - destruct (Z.ltb_spec x y) as [Hxy | Hxy].
    + rewrite (proj2 (Z.compare_lt_iff _ _)); [done |]. nia.
    + assert (x = y) as -> by lia. rewrite IH by done.
      by rewrite !(Z.add_comm _ (R * y)), Z.add_compare_mono_l.
Qed.

Lemma normal_top l : normal l -> (1 < length l)%nat -> limbs_ty l -> radix (length l - 1) <= value_of l.
Proof.
  unfold normal. intros Hn Hlen Ht. apply limbs_ty_rev in Ht.
  destruct (rev l) as [| x [| y k]] eqn:E; [done | |].
  - apply (f_equal length) in E. rewrite length_rev in E. simpl in E. lia.
  - rewrite <- (rev_involutive l), E in Hlen |- *. cbn [rev] in *. rewrite value_snoc.
    rewrite length_app in *. cbn [length] in *. rewrite Nat.add_sub.
    apply Forall_cons in Ht as [Hx Ht]. apply limbs_ty_rev in Ht. cbn [rev] in Ht.
    pose proof (value_bound _ Ht). pose proof (radix_pos (length (rev k ++ [y]))). destruct Hx. nia.
Qed.

Lemma cmp_spec x y : canonical x -> canonical y ->
  cmp x y = match value x ?= value y with Lt => -1 | Eq => 0 | Gt => 1 end.
Proof.
  intros [Hx Hnx] [Hy Hny]. unfold cmp, value.
  assert (Lx : (0 < length (limbs x))%nat) by (destruct (limbs x); [done | simpl; lia]).
  assert (Ly : (0 < length (limbs y))%nat) by (destruct (limbs y); [done | simpl; lia]).
  destruct (Nat.eqb_spec (length (limbs x)) (length (limbs y))) as [E | E]; cbn [negb].
  - rewrite cmp_loop_spec; [by rewrite !rev_involutive | by rewrite !length_rev | by apply limbs_ty_rev ..].
  - pose proof (value_bound _ Hx). pose proof (value_bound _ Hy).
    destruct (Nat.ltb_spec (length (limbs y)) (length (limbs x))).
    + pose proof (normal_top _ Hnx ltac:(lia) Hx).
      pose proof (radix_mono (length (limbs y)) (length (limbs x) - 1) ltac:(lia)).
      by rewrite (proj2 (Z.compare_gt_iff _ _)) by lia.
    + pose proof (normal_top _ Hny ltac:(lia) Hy).
      pose proof (radix_mono (length (limbs x)) (length (limbs y) - 1) ltac:(lia)).
      by rewrite (proj2 (Z.compare_lt_iff _ _)) by lia.
Qed.

Lemma cmp_ge x y : canonical x -> canonical y -> (0 <=? cmp x y) = (value y <=? value x).
Proof.
  intros Hx Hy. rewrite cmp_spec by done. unfold Z.leb at 2. rewrite (Z.compare_antisym (value x)).
  by destruct (value x ?= value y).
Qed.

(** ** Bits *)

Lemma value_cons_bits x l i : u_ty 64 x -> 0 <= i ->
  Z.testbit (x + 2 ^ 64 * value_of l) i = if i <? 64 then Z.testbit x i else Z.testbit (value_of l) (i - 64).
Proof.
  intros Hx Hi. replace (x + 2 ^ 64 * value_of l) with (value_of l * 2 ^ 64 + x) by lia.
  rewrite <- lor_shiftl_add, Z.lor_spec, Z.shiftl_spec by (done || lia).
  destruct (Z.ltb_spec i 64); [by rewrite Z.testbit_neg_r by lia |].
  by rewrite (u_ty_testbit 64 x i Hx), orb_false_r by lia.
Qed.

Lemma value_testbit l i : limbs_ty l ->
  Z.testbit (value_of l) (Z.of_nat i) = Z.testbit (nth (i / 64) l 0) (Z.of_nat (i mod 64)).
Proof.
  intros Hl. revert i. induction Hl as [| x l Hx _ IH]; intros i.
  - cbn [value_of]. by destruct (i / 64)%nat; rewrite !Z.testbit_0_l.
  - cbn [value_of]. rewrite value_cons_bits by (done || lia). destruct (Z.ltb_spec (Z.of_nat i) 64).
    + by rewrite Nat.div_small, Nat.mod_small by lia.
    + replace (Z.of_nat i - 64) with (Z.of_nat (i - 64)) by lia. rewrite IH.
      replace i with (i - 64 + 1 * 64)%nat at 3 4 by lia.
      by rewrite Nat.div_add, Nat.Div0.mod_add, Nat.add_1_r by lia.
Qed.

Lemma land_1_bit x : (Z.land x 1 =? 1) = Z.testbit x 0.
Proof.
  change 1 with (Z.ones 1) at 1. rewrite Z.land_ones by lia. change (2 ^ 1) with 2.
  rewrite <- Z.bit0_mod. by destruct (Z.testbit x 0).
Qed.

Lemma bit_spec x i : wf x -> bit x i = Z.testbit (value x) (Z.of_nat i).
Proof.
  intros Hx. unfold bit, value. rewrite value_testbit by done.
  destruct (limbs x !! (i / 64)%nat) as [l |] eqn:E.
  - rewrite (nth_lookup_Some _ _ _ _ E), land_1_bit, Z.shiftr_spec by lia. done.
  - apply lookup_ge_None in E. by rewrite nth_overflow, Z.testbit_0_l by done.
Qed.

Lemma bit_len_loop_spec k : limbs_ty k ->
  bit_len_loop k = if value_of (rev k) =? 0 then 0 else Z.log2 (value_of (rev k)) + 1.
Proof.
  induction 1 as [| x k Hx Hk IH]; [done |]. cbn [bit_len_loop rev]. rewrite value_snoc, length_rev.
  pose proof (value_bound _ (limbs_ty_rev _ Hk)) as B. rewrite length_rev in B.
  unfold u_ty in Hx. destruct (Z.eqb_spec x 0) as [-> | Hne]; cbn [negb].
  - rewrite IH. by rewrite Z.mul_0_r, Z.add_0_r.
  - destruct (Z.eqb_spec (value_of (rev k) + radix (length k) * x) 0); [nia |].
    unfold limb_bits. rewrite (proj2 (Z.eqb_neq x 0) Hne).
    enough (Z.log2 (value_of (rev k) + radix (length k) * x) = 64 * Z.of_nat (length k) + Z.log2 x) by lia.
    pose proof (Z.log2_spec x ltac:(lia)) as [L1 L2]. pose proof (Z.log2_nonneg x).
    apply Z.log2_unique; [lia |]. unfold radix in *. rewrite Z.pow_succ_r in L2 |- * by lia.
    rewrite Z.pow_add_r by lia. nia.
Qed.

Lemma bit_len_spec x : wf x ->
  Z.of_nat (bit_len x) = if value x =? 0 then 0 else Z.log2 (value x) + 1.
Proof.
  intros Hx. unfold bit_len, value. rewrite bit_len_loop_spec, rev_involutive by (by apply limbs_ty_rev).
  pose proof (value_nonneg x Hx). unfold value in *. pose proof (Z.log2_nonneg (value_of (limbs x))).
  destruct (Z.eqb_spec (value_of (limbs x)) 0); lia.
Qed.

Lemma bit_len_bound x : wf x -> value x < 2 ^ Z.of_nat (bit_len x).
Proof.
  intros Hx. rewrite bit_len_spec by done. pose proof (value_nonneg x Hx).
  destruct (Z.eqb_spec (value x) 0) as [-> | Hne]; [done |].
  apply Z.log2_spec. lia.
Qed.

Lemma bit_len_le x n : wf x -> value x < 2 ^ Z.of_nat n -> (bit_len x <= n)%nat.
Proof.
  intros Hx Hn. pose proof (bit_len_spec x Hx) as E. pose proof (value_nonneg x Hx).
  destruct (Z.eqb_spec (value x) 0); [lia |].
  apply Z.log2_lt_pow2 in Hn; lia.
Qed.

(** ** Division *)

Lemma or_first_spec x b : canonical x -> (2 | value x) ->
  canonical (or_first x (Z.b2z b)) /\ value (or_first x (Z.b2z b)) = value x + Z.b2z b.
Proof.
  intros [Hx Hn] [k Hk]. unfold or_first, value in *. destruct (limbs x) as [| l0 l] eqn:E; [done |].
  unfold wf in Hx. rewrite E in Hx. apply Forall_cons in Hx as [H0 Hl]. cbn [value_of] in Hk.
  assert (Ev : Z.lor l0 (Z.b2z b) = l0 + Z.b2z b).
  { assert (Hl0 : l0 = (k - 2 ^ 63 * value_of l) * 2 ^ 1) by lia. rewrite Hl0.
    apply lor_mul_add; [lia |]. by destruct b. }
  split.
  - split; [constructor; [apply u_ty_lor; [lia | done | apply b2z_ty] | done] |].
    cbn [limbs]. unfold normal in *. cbn [rev] in *. destruct (rev l) as [| z [| z' r]]; done.
  - cbn [limbs value_of]. rewrite Ev. lia.
Qed.

Lemma alter_value q k s : limbs_ty q -> (k < length q)%nat -> 0 <= s < 64 ->
  limbs_ty (alter (fun l => Z.lor l (2 ^ s)) k q) /\
  value_of (alter (fun l => Z.lor l (2 ^ s)) k q) = Z.lor (value_of q) (2 ^ (64 * Z.of_nat k + s)).
Proof.
  intros Hq. revert k. induction Hq as [| x q Hx Hq IH]; intros k Hk Hs; [simpl in Hk; lia |].
  assert (Hp : u_ty 64 (2 ^ s)) by (split; [lia | apply Z.pow_lt_mono_r; lia]).
  assert (Hxs : u_ty 64 (Z.lor x (2 ^ s))) by (apply u_ty_lor; [lia | done ..]).
  destruct k as [| k].
  - cbn [alter list_alter value_of]. split; [by constructor |].
    replace (64 * Z.of_nat 0 + s) with s by lia. apply Z.bits_inj'. intros i Hi.
    rewrite Z.lor_spec, !value_cons_bits by done. destruct (Z.ltb_spec i 64); [by rewrite Z.lor_spec |].
    by rewrite Z.pow2_bits_false, orb_false_r by lia.
  - destruct (IH k ltac:(simpl in Hk; lia) Hs) as [It Iv].
    change (alter (fun l => Z.lor l (2 ^ s)) (S k) (x :: q)) with (x :: alter (fun l => Z.lor l (2 ^ s)) k q).
    split; [by constructor |]. cbn [value_of]. apply Z.bits_inj'. intros i Hi.
    rewrite Z.lor_spec, !value_cons_bits by done. destruct (Z.ltb_spec i 64).
    + by rewrite Z.pow2_bits_false, orb_false_r by lia.
    + rewrite Iv, Z.lor_spec. f_equal. rewrite !Z.pow2_bits_eqb by lia.
      destruct (Z.eqb_spec (64 * Z.of_nat k + s) (i - 64)), (Z.eqb_spec (64 * Z.of_nat (S k) + s) i); done || lia.
Qed.

Lemma quotient_bit q i : limbs_ty q -> (i < 64 * length q)%nat -> (2 ^ Z.of_nat (S i) | value_of q) ->
  let q' := alter (fun l => Z.lor l (wrap 64 (Z.shiftl 1 (Z.of_nat (i mod 64))))) (i / 64)%nat q in
  limbs_ty q' /\ length q' = length q /\ value_of q' = value_of q + 2 ^ Z.of_nat i.
Proof.
  intros Hq Hi [k Hk]. cbv zeta. pose proof (Nat.mod_upper_bound i 64 ltac:(lia)) as Hm.
  assert (Ew : wrap 64 (Z.shiftl 1 (Z.of_nat (i mod 64))) = 2 ^ Z.of_nat (i mod 64)).
  { rewrite Z.shiftl_1_l. apply wrap_small. split; [lia |]. apply Z.pow_lt_mono_r; lia. }
  rewrite Ew. assert (Hd : (i / 64 < length q)%nat) by (apply Nat.Div0.div_lt_upper_bound; lia).
  destruct (alter_value q (i / 64) (Z.of_nat (i mod 64)) Hq Hd ltac:(lia)) as [Ht Hv].
  split; [done |]. split; [apply length_alter |]. rewrite Hv.
  replace (64 * Z.of_nat (i / 64) + Z.of_nat (i mod 64)) with (Z.of_nat i)
    by (pose proof (Nat.div_mod_eq i 64); lia).
  rewrite Hk, Nat2Z.inj_succ. apply lor_mul_add; [lia |].
  split; [lia |]. apply Z.pow_lt_mono_r; lia.
Qed.

(** The next bit of the dividend and of the remainder. *)
Lemma next_bit x n :
  x / 2 ^ Z.of_nat n = 2 * (x / 2 ^ Z.of_nat (S n)) + Z.b2z (Z.testbit x (Z.of_nat n)).
Proof.
  rewrite Z.testbit_spec', Nat2Z.inj_succ, Z.pow_succ_r by lia.
  rewrite (Z.mul_comm 2 (2 ^ _)), <- Z.div_div by lia.
  apply Z.div_mod. lia.
Qed.

Lemma div_loop_spec x o n q rem Q :
  wf x -> canonical o -> limbs_ty q -> (n <= 64 * length q)%nat -> canonical rem ->
  value_of q = Q * 2 ^ Z.of_nat n -> value x / 2 ^ Z.of_nat n = Q * value o + value rem ->
  value rem < value o ->
  let '(q', rem') := fold_left (div_step x o) (rev (seq 0 n)) (q, rem) in
  limbs_ty q' /\ length q' = length q /\ canonical rem' /\
  value x = value_of q' * value o + value rem' /\ value rem' < value o.
Proof.
  intros Hx Ho. revert q rem Q. induction n as [| n IH]; intros q rem Q Hq Hn Hr Hk Hinv Hlt.
  - cbn [rev seq fold_left]. change (2 ^ Z.of_nat 0) with 1 in *. rewrite Z.div_1_r in Hinv.
    split; [done |]. split; [done |]. split; [done |]. split; [| done]. rewrite Hinv, Hk. lia.
  - rewrite seq_S, Nat.add_0_l, rev_app_distr. cbn [rev app fold_left].
    unfold div_step at 2. rewrite bit_spec by done.
    destruct (shl1_spec rem (proj1 Hr)) as [Hs Vs].
    destruct (or_first_spec (shl rem 1) (Z.testbit (value x) (Z.of_nat n)) Hs
      ltac:(exists (value rem); lia)) as [Ho1 V1].
    set (r1 := or_first _ _) in *. rewrite Vs in V1. pose proof (value_nonneg rem (proj1 Hr)) as Hr0.
    assert (Hnext := next_bit (value x) n). rewrite Hinv in Hnext.
    set (b := Z.testbit (value x) (Z.of_nat n)) in *.
    assert (Hb : 0 <= Z.b2z b <= 1) by (destruct b; cbn; lia).
    assert (E2 : 2 ^ Z.of_nat (S n) = 2 * 2 ^ Z.of_nat n) by (rewrite Nat2Z.inj_succ, Z.pow_succ_r; lia).
    rewrite cmp_ge by done. destruct (Z.leb_spec (value o) (value r1)) as [Hge | Hge].
    + destruct (sub_spec r1 o Ho1 (proj1 Ho) Hge) as [Hc1 Vc1].
      destruct (quotient_bit q n Hq ltac:(lia) ltac:(by exists Q)) as (Ht & Hl & Hv).
      specialize (IH _ (sub r1 o) (2 * Q + 1) Ht ltac:(lia) Hc1
        ltac:(rewrite Hv, Hk, E2; lia) ltac:(lia) ltac:(lia)).
      destruct (fold_left _ _ _) as [q' rem']. by rewrite Hl in IH.
    + apply (IH q r1 (2 * Q)); try done; [lia | rewrite Hk, E2; lia | lia].
Qed.

Lemma div_rem_spec x o : wf x -> canonical o -> 0 < value o ->
  let '(q, r) := div_rem x o in
  canonical q /\ canonical r /\ value q = value x / value o /\ value r = value x mod value o.
Proof.
  intros Hx Ho Ho0. unfold div_rem. rewrite is_zero_spec by apply Ho.
  rewrite (proj2 (Z.eqb_neq _ 0)) by lia.
  set (n := bit_len x). set (q0 := replicate (Nat.max (length (limbs x)) 1) 0).
  assert (Hn : (n <= 64 * length q0)%nat).
  { apply bit_len_le; [done |]. unfold q0. rewrite length_replicate.
    pose proof (value_bound _ Hx) as [_ B]. apply Z.lt_le_trans with (1 := B).
    unfold radix. apply Z.pow_le_mono_r; lia. }
  destruct (from_spec 0 ltac:(done)) as [Hc0 V0].
  pose proof (bit_len_bound x Hx) as Hlt. fold n in Hlt. pose proof (value_nonneg x Hx) as Hx0.
  pose proof (div_loop_spec x o n q0 (from 0) 0 Hx Ho (limbs_ty_zeros _) Hn Hc0
    ltac:(unfold q0; rewrite value_zeros; lia) ltac:(rewrite V0, Z.div_small; lia) ltac:(lia)) as H.
  destruct (fold_left _ _ _) as [q r]. destruct H as (Hq & Hl & Hr & E & Hrlt).
  pose proof (value_nonneg r (proj1 Hr)). split.
  { apply trim_canonical; [| done]. intros ->. unfold q0 in Hl. rewrite length_replicate in Hl. simpl in Hl. lia. }
  split; [done |]. unfold value at 1. cbn [limbs]. rewrite trim_value.
  split; [apply (Z.div_unique _ _ _ (value r)) | apply (Z.mod_unique _ _ (value_of q))]; lia.
Qed.

Lemma mod_op_spec x m : wf x -> canonical m -> 0 < value m ->
  canonical (mod_op x m) /\ value (mod_op x m) = value x mod value m.
Proof.
  intros Hx Hm H0. pose proof (div_rem_spec x m Hx Hm H0) as H. unfold mod_op.
  destruct (div_rem x m). by destruct H as (_ & ? & _ & ?).
Qed.

Lemma div_spec x o : wf x -> canonical o -> 0 < value o ->
  canonical (div x o) /\ value (div x o) = value x / value o.
Proof.
  intros Hx Hm H0. pose proof (div_rem_spec x o Hx Hm H0) as H. unfold div.
  destruct (div_rem x o). by destruct H as (? & _ & ? & _).
Qed.

(** ** Powers *)

Lemma hd0_odd x : wf x -> (Z.land (hd0 (limbs x)) 1 =? 1) = Z.odd (value x).
Proof.
  intros Hx. rewrite land_1_bit, Z.bit0_odd. unfold value. destruct (limbs x) as [| l0 l]; [done |].
  cbn [hd0 value_of]. rewrite Z.odd_add. rewrite (Z.odd_mul (2 ^ 64)). change (Z.odd (2 ^ 64)) with false.
  by rewrite andb_false_l, xorb_false_r.
Qed.

Lemma mod_exp_loop_spec fuel m result base exp :
  canonical m -> 0 < value m -> canonical result -> canonical base -> canonical exp ->
  value exp < 2 ^ Z.of_nat fuel ->
  exists r, mod_exp_loop fuel m result base exp = Ret r /\ canonical r /\
    value r = if value exp =? 0 then value result
              else (value result * value base ^ value exp) mod value m.
Proof.
  intros Hm Hm0. revert result base exp. induction fuel as [| fuel IH]; intros result base exp Hr Hb He Hlt.
  - pose proof (value_nonneg exp (proj1 He)). assert (E : value exp = 0) by (change (2 ^ Z.of_nat 0) with 1 in Hlt; lia).
    cbn [mod_exp_loop]. rewrite is_zero_spec, E by apply He. by exists result.
  - cbn [mod_exp_loop]. rewrite is_zero_spec by apply He.
    destruct (Z.eqb_spec (value exp) 0) as [E | Hne]; [by exists result |].
    pose proof (value_nonneg exp (proj1 He)) as He0. rewrite hd0_odd by apply He.
    destruct (shr1_spec exp He) as [Hs Vs].
    destruct (mul_spec base base (proj1 Hb) (proj1 Hb) (or_introl Hb)) as [Hbb Vbb].
    destruct (mod_op_spec (mul base base) m (proj1 Hbb) Hm Hm0) as [Hb2 Vb2]. rewrite Vbb in Vb2.
    destruct (mul_spec result base (proj1 Hr) (proj1 Hb) (or_introl Hr)) as [Hrb Vrb].
    destruct (mod_op_spec (mul result base) m (proj1 Hrb) Hm Hm0) as [Hr2 Vr2]. rewrite Vrb in Vr2.
    set (r1 := if Z.odd (value exp) then _ else result).
    assert (Hr1 : canonical r1) by (unfold r1; by destruct (Z.odd _)).
    assert (Hlt' : value (shr exp 1) < 2 ^ Z.of_nat fuel).
    { rewrite Vs. apply Z.div_lt_upper_bound; [lia |]. rewrite Nat2Z.inj_succ, Z.pow_succ_r in Hlt; lia. }
    destruct (IH r1 (mod_op (mul base base) m) (shr exp 1) Hr1 Hb2 Hs Hlt') as (r & -> & Hc & Vr).
    exists r. split; [done |]. split; [done |]. rewrite Vr, Vs, Vb2.
    pose proof (Z.div_mod (value exp) 2 ltac:(lia)) as Hd. rewrite Zmod_odd in Hd.
    assert (Hd0 : 0 <= value exp / 2) by (apply Z.div_pos; lia).
    assert (Epow : value base ^ value exp = (value base * value base) ^ (value exp / 2)
                     * (if Z.odd (value exp) then value base else 1)).
    { rewrite Hd at 1. rewrite Z.pow_add_r, Z.pow_mul_r, Z.pow_2_r by (destruct (Z.odd _); lia).
      by destruct (Z.odd (value exp)); rewrite ?Z.pow_1_r. }
    rewrite Epow. set (h := value exp / 2) in *.
    assert (Hr1v : value r1 mod value m
                   = (value result * (if Z.odd (value exp) then value base else 1)) mod value m).
    { unfold r1. destruct (Z.odd (value exp)); [by rewrite Vr2, Z.mod_mod by lia | by rewrite Z.mul_1_r]. }
    destruct (Z.eqb_spec h 0) as [Eh | Hh].
    + rewrite Eh, Z.pow_0_r, Z.mul_1_l. unfold r1. destruct (Z.odd (value exp)); [done | lia].
    + rewrite <- Zmult_mod_idemp_l, Hr1v, Zmult_mod_idemp_l, <- Zmult_mod_idemp_r.
      rewrite <- (Zpower_mod (value base * value base)) by lia. rewrite Zmult_mod_idemp_r.
      f_equal. lia.
Qed.

Lemma mod_exp_spec x e m : wf x -> canonical e -> canonical m -> 0 < value m ->
  exists r, mod_exp x e m = Ret r /\ canonical r /\
    value r = if value e =? 0 then 1 else (value x ^ value e) mod value m.
Proof.
  intros Hx He Hm H0. unfold mod_exp. destruct (from_spec 1 ltac:(done)) as [H1 V1].
  destruct (mod_op_spec x m Hx Hm H0) as [Hb Vb].
  destruct (mod_exp_loop_spec (bit_len e) m (from 1) (mod_op x m) e Hm H0 H1 Hb He
    (bit_len_bound e (proj1 He))) as (r & -> & Hr & Vr).
  exists r. split; [done |]. split; [done |]. rewrite Vr, V1, Vb.
  destruct (Z.eqb_spec (value e) 0); [done |]. by rewrite Z.mul_1_l, <- Zpower_mod by lia.
Qed.

(** ** Inverses *)

Lemma sub_mod_neg a m : 0 < m -> 0 <= a -> (m - a mod m) mod m = (- a) mod m.
Proof.
  intros Hm Ha. rewrite <- (Zminus_mod_idemp_r 0 a). replace (0 - a mod m) with (m - a mod m + (-1) * m) by lia.
  by rewrite Z.mod_add by lia.
Qed.

(** One step on the coefficients: [temp_t - quotient * newt], taken modulo the modulus when
    it is negative. *)
Definition next_coeff (m t q newt : BigUint) : BigUint :=
  if 0 <=? cmp t (mul q newt) then sub t (mul q newt)
  else mod_op (sub m (mod_op (sub (mul q newt) t) m)) m.

Lemma next_coeff_spec m t q newt :
  canonical m -> 0 < value m -> canonical t -> canonical q -> canonical newt ->
  canonical (next_coeff m t q newt) /\
  value (next_coeff m t q newt) mod value m = (value t - value q * value newt) mod value m.
Proof.
  intros Hm Hm0 Ht Hq Hn. unfold next_coeff.
  destruct (mul_spec q newt (proj1 Hq) (proj1 Hn) (or_introl Hq)) as [Hp Vp]. rewrite cmp_ge, Vp by done.
  destruct (Z.leb_spec (value q * value newt) (value t)) as [Hle | Hlt].
  - destruct (sub_spec t (mul q newt) Ht (proj1 Hp) ltac:(lia)) as [Hs ->]. by rewrite Vp.
  - destruct (sub_spec (mul q newt) t Hp (proj1 Ht) ltac:(lia)) as [Hs Vs].
    destruct (mod_op_spec (sub (mul q newt) t) m (proj1 Hs) Hm Hm0) as [Hr Vr].
    pose proof (Z.mod_pos_bound (value (sub (mul q newt) t)) (value m) Hm0) as Hb.
    destruct (sub_spec m (mod_op (sub (mul q newt) t) m) Hm (proj1 Hr) ltac:(lia)) as [Hd Vd].
    destruct (mod_op_spec (sub m (mod_op (sub (mul q newt) t) m)) m (proj1 Hd) Hm Hm0) as [Hc ->].
    split; [done |]. rewrite Vd, Vr, Z.mod_mod by lia. rewrite sub_mod_neg by lia.
    f_equal. lia.
Qed.

(** Euclid's algorithm takes no more steps than the two numbers have bits. *)
Lemma euclid_measure r n : 0 < r -> 0 < n -> 0 < r mod n ->
  Z.log2 n + Z.log2 (r mod n) + Z.b2z (n <? r mod n) < Z.log2 r + Z.log2 n + Z.b2z (r <? n).
Proof.
  intros Hr Hn H. pose proof (Z.mod_pos_bound r n Hn) as Hb.
  destruct (Z.ltb_spec n (r mod n)); [lia |]. destruct (Z.ltb_spec r n); cbn [Z.b2z].
  - rewrite Z.mod_small by lia. lia.
  - assert (Hq : 1 <= r / n) by (apply Z.div_le_lower_bound; lia).
    pose proof (Z.div_mod r n ltac:(lia)) as Hd.
    assert (H2 : 2 * (r mod n) <= r) by nia.
    apply Z.log2_le_mono in H2. rewrite Z.log2_double in H2 by lia. lia.
Qed.

Lemma mod_inverse_loop_spec fuel m a t newt r newr :
  canonical m -> 0 < value m -> canonical t -> canonical newt -> canonical r -> canonical newr ->
  0 < value r ->
  (value t * a) mod value m = value r mod value m ->
  (value newt * a) mod value m = value newr mod value m ->
  value newr = 0 \/
  Z.log2 (value r) + Z.log2 (value newr) + Z.b2z (value r <? value newr) < Z.of_nat fuel ->
  exists i, mod_inverse_loop fuel m t newt r newr = Ret i /\ canonical i /\ 0 <= value i < value m /\
    (value i * a) mod value m = Z.gcd (value r) (value newr) mod value m.
Proof.
  intros Hm Hm0. revert t newt r newr.
  induction fuel as [| fuel IH]; intros t newt r newr Ht Hn Hr Hnr Hr0 Et En Hf.
  all: cbn [mod_inverse_loop]; rewrite is_zero_spec by apply Hnr.
  all: destruct (Z.eqb_spec (value newr) 0) as [E0 | Hne].
  1, 3: destruct (mod_op_spec t m (proj1 Ht) Hm Hm0) as [Hi Vi]; exists (mod_op t m);
    split; [done |]; split; [done |]; rewrite Vi;
    split; [by apply Z.mod_pos_bound | rewrite Zmult_mod_idemp_l, Et, E0, Z.gcd_0_r, Z.abs_eq; lia || done].
  - pose proof (Z.log2_nonneg (value r)). pose proof (Z.log2_nonneg (value newr)).
    destruct (value r <? value newr); cbn [Z.b2z] in Hf; lia.
  - pose proof (value_nonneg newr (proj1 Hnr)) as Hn0.
    destruct (div_spec r newr (proj1 Hr) Hnr ltac:(lia)) as [Hq Vq].
    destruct (next_coeff_spec m t (div r newr) newt Hm Hm0 Ht Hq Hn) as [Hc Vc].
    destruct (mul_spec (div r newr) newr (proj1 Hq) (proj1 Hnr) (or_introl Hq)) as [Hp Vp].
    pose proof (Z.div_mod (value r) (value newr) ltac:(lia)) as Hd.
    pose proof (Z.mod_pos_bound (value r) (value newr) ltac:(lia)) as Hb.
    destruct (sub_spec r (mul (div r newr) newr) Hr (proj1 Hp) ltac:(rewrite Vp, Vq; lia)) as [Hs Vs].
    assert (Vs' : value (sub r (mul (div r newr) newr)) = value r mod value newr) by (rewrite Vs, Vp, Vq; lia).
    destruct (IH newt (next_coeff m t (div r newr) newt) newr (sub r (mul (div r newr) newr)))
      as (i & Ei & Hi & Bi & Gi); try done; [lia | | |].
    + rewrite <- Zmult_mod_idemp_l, Vc, Zmult_mod_idemp_l, Vs, Vp.
      replace ((value t - value (div r newr) * value newt) * a)
        with (value t * a - value (div r newr) * (value newt * a)) by ring.
      rewrite Zminus_mod, (Zmult_mod (value (div r newr))), En, Et.
      by rewrite <- Zmult_mod, <- Zminus_mod.
    + rewrite Vs'. destruct Hf as [| Hf]; [lia |].
      destruct (Z.eq_dec (value r mod value newr) 0) as [| Hz]; [by left | right].
      pose proof (euclid_measure (value r) (value newr) Hr0 ltac:(lia) ltac:(lia)). lia.
    + exists i. split; [exact Ei |]. split; [done |]. split; [done |].
      rewrite Gi, Vs', Z.gcd_comm, Z.gcd_mod, Z.gcd_comm by lia. done.
Qed.

(** The product with the inverse is the greatest common divisor, so 1 for coprime numbers. *)
Lemma mod_inverse_spec x m : canonical x -> canonical m -> 0 < value m ->
  exists i, mod_inverse x m = Ret i /\ canonical i /\ 0 <= value i < value m /\
    (value i * value x) mod value m = Z.gcd (value x) (value m) mod value m.
Proof.
  intros Hx Hm H0. unfold mod_inverse. destruct (from_spec 0 ltac:(done)) as [C0 V0].
  destruct (from_spec 1 ltac:(done)) as [C1 V1]. pose proof (value_nonneg x (proj1 Hx)).
  rewrite Z.gcd_comm.
  apply mod_inverse_loop_spec; try done.
  - by rewrite V0, Z.mod_same by lia.
  - by rewrite V1, Z.mul_1_l.
  - destruct (Z.eq_dec (value x) 0); [by left | right].
    rewrite !Nat2Z.inj_add, !bit_len_spec by (apply Hx || apply Hm).
    rewrite !(proj2 (Z.eqb_neq _ 0)) by lia. destruct (value m <? value x); cbn [Z.b2z]; lia.
Qed.

(** ** Length in bytes *)

Lemma byte_len_spec x : canonical x ->
  (0 < byte_len x)%nat /\ value x < 2 ^ (8 * Z.of_nat (byte_len x)) /\
  (0 < value x -> 2 ^ (8 * (Z.of_nat (byte_len x) - 1)) <= value x).
Proof.
  intros [Hx Hn]. unfold byte_len, value. unfold normal in Hn. pose proof (limbs_ty_rev _ Hx) as Hr.
  remember (rev (limbs x)) as r eqn:E. assert (El : limbs x = rev r) by (by rewrite E, rev_involutive).
  rewrite El. clear E El. destruct r as [| t k]; [done |]. apply Forall_cons in Hr as [[Ht0 Ht] Hk].
  pose proof (value_bound _ (limbs_ty_rev _ Hk)) as Hv. rewrite length_rev in Hv. cbn [rev].
  rewrite value_snoc, length_rev. unfold radix in *. set (m := Z.of_nat (length k)) in *.
  destruct (Z.eqb_spec t 0) as [-> | Hne].
  - destruct k; [| by destruct Hn]. subst m. split; [simpl; lia |]. split; [done |]. by intros H%Z.lt_irrefl.
  - unfold limb_bits. rewrite (proj2 (Z.eqb_neq t 0) Hne).
    pose proof (Z.log2_nonneg t) as L0. pose proof (Z.log2_spec t ltac:(lia)) as [L1 L2].
    set (b := (Z.log2 t + 1 + 7) / 8).
    assert (Hb : 8 * (b - 1) <= Z.log2 t < 8 * b).
    { unfold b. pose proof (Z.div_mod (Z.log2 t + 1 + 7) 8 ltac:(lia)).
      pose proof (Z.mod_pos_bound (Z.log2 t + 1 + 7) 8 ltac:(lia)). lia. }
    assert (E : Z.of_nat (length k * 8 + Z.to_nat b) = m * 8 + b) by lia. rewrite E.
    split; [lia |]. split.
    + apply Z.lt_le_trans with (2 ^ (64 * m) * 2 ^ (Z.succ (Z.log2 t))); [nia |].
      rewrite <- Z.pow_add_r by lia. apply Z.pow_le_mono_r; lia.
    + intros _. apply Z.le_trans with (2 ^ (64 * m) * 2 ^ Z.log2 t); [| nia].
      rewrite <- Z.pow_add_r by lia. apply Z.pow_le_mono_r; lia.
Qed.

(** ** Properties *)

(** C27: on naturals in limbs without zero limbs on top, the operations are those of the
    integers: sum, difference, product, comparison, quotient and remainder, shifts by one,
    number of bits; results have no zero limbs on top again. *)
Theorem bignum_exact x y :
  canonical x -> canonical y ->
  (canonical (add x y) /\ value (add x y) = value x + value y) /\
  (value y <= value x -> canonical (sub x y) /\ value (sub x y) = value x - value y) /\
  (canonical (mul x y) /\ value (mul x y) = value x * value y) /\
  cmp x y = match value x ?= value y with Lt => -1 | Eq => 0 | Gt => 1 end /\
  (0 < value y ->
     value (div x y) = value x / value y /\ value (mod_op x y) = value x mod value y /\
     canonical (div x y) /\ canonical (mod_op x y)) /\
  value (shl x 1) = 2 * value x /\ value (shr x 1) = value x / 2 /\
  (0 < value x -> Z.of_nat (bit_len x) = Z.log2 (value x) + 1).
Proof.
  intros Hx Hy. pose proof (proj1 Hx) as Wx. pose proof (proj1 Hy) as Wy.
  split; [by apply add_spec |]. split; [by apply sub_spec |]. split; [by apply mul_spec; [.. | left] |].
  split; [by apply cmp_spec |]. split; [intros H0 | split; [by apply shl1_spec | split; [by apply shr1_spec |]]].
  - destruct (div_spec x y Wx Hy H0). by destruct (mod_op_spec x y Wx Hy H0).
  - intros H0. rewrite bit_len_spec by done. by rewrite (proj2 (Z.eqb_neq _ 0)) by lia.
Qed.

Lemma bignum_exact_witness :
  value (sub (from_bytes [1; 0; 0; 0; 0; 0; 0; 0; 0]) (from 1)) = 2 ^ 64 - 1 /\
  limbs (sub (from_bytes [1; 0; 0; 0; 0; 0; 0; 0; 0]) (from 1)) = [2 ^ 64 - 1].
Proof.
  split; [| reflexivity].
  destruct (bignum_exact (from_bytes [1; 0; 0; 0; 0; 0; 0; 0; 0]) (from 1)) as (_ & Hs & _).
  - split; [| done]. apply (bool_decide_unpack _). reflexivity.
  - split; [| done]. apply (bool_decide_unpack _). reflexivity.
  - destruct Hs as [_ Hs]; [done |]. exact Hs.
Defined.

(** Square-and-multiply and Euclid's algorithm return, with no more rounds than the
    numbers have bits: the power is the power modulo the modulus, except that the power 0 is
    1 whatever the modulus, and the inverse times the number is their greatest common
    divisor with the modulus. *)
Theorem power_and_inverse x e m :
  canonical x -> canonical e -> canonical m -> 0 < value m ->
  (exists r, mod_exp x e m = Ret r /\ canonical r /\
     value r = if value e =? 0 then 1 else value x ^ value e mod value m) /\
  (exists i, mod_inverse x m = Ret i /\ canonical i /\ 0 <= value i < value m /\
     (value i * value x) mod value m = Z.gcd (value x) (value m) mod value m).
Proof.
  intros Hx He Hm H0. split; [apply mod_exp_spec; [apply Hx | done ..] | by apply mod_inverse_spec].
Qed.

Lemma power_and_inverse_witness :
  (exists i, mod_inverse (from 65537) (from 3120) = Ret i /\ (value i * 65537) mod 3120 = 1) /\
  mod_exp (from 65) (from 17) (from 3233) = Ret (from 2790).
Proof.
  split; [| vm_compute; reflexivity].
  destruct (power_and_inverse (from 65537) (from 1) (from 3120)) as [_ (i & E & _ & _ & Hi)];
    [split; [apply (bool_decide_unpack _); reflexivity | done] .. | done |].
  exists i. split; [exact E | exact Hi].
Defined.

End BigNum.
