(* ===== verification/NumTheory.v ===== *)
(** * Number theory for RSA

    Fermat's little theorem by permutation of the residues, square roots of 1 modulo a prime,
    the Chinese remainder theorem for two primes, and the identity on which RSA rests. *)

From Stdlib Require Import ZArith Lia Znumtheory Zpow_facts.
From S2P Require Import Prelude.

Module NumTheory.

(** ** Residues *)

Lemma residue_coprime p a : prime p -> a mod p <> 0 -> rel_prime a p.
Proof.
  intros Hp Ha. apply rel_prime_sym, prime_rel_prime; [done |].
  intros Hd%Zdivide_mod. done.
Qed.

Lemma cancel_mod p a x y : prime p -> a mod p <> 0 -> (a * x) mod p = (a * y) mod p -> x mod p = y mod p.
Proof.
  intros Hp Ha H. pose proof (prime_ge_2 p Hp).
  assert (Hd : (p | a * (x - y))).
  { rewrite Z.mul_sub_distr_l. by apply Z.mod_divide; [lia |]; rewrite Zminus_mod, H, Z.sub_diag, Zmod_0_l. }
  apply Gauss in Hd; [| by apply rel_prime_sym, residue_coprime].
  apply Zdivide_mod in Hd. apply Z.mod_divide in Hd as [k Hk]; [| lia].
  replace x with (y + k * p) by lia. apply Z.mod_add. lia.
Qed.

Lemma product_nonzero p a b : prime p -> a mod p <> 0 -> b mod p <> 0 -> (a * b) mod p <> 0.
Proof.
  intros Hp Ha Hb H. pose proof (prime_ge_2 p Hp).
  apply Z.mod_divide in H; [| lia]. apply (prime_mult p Hp) in H as [H | H];
    apply Zdivide_mod in H; done.
Qed.

(** The only square roots of 1 modulo a prime are 1 and -1. *)
Lemma square_one p x : prime p -> 0 <= x < p -> (x * x) mod p = 1 -> x = 1 \/ x = p - 1.
Proof.
  intros Hp Hx H. pose proof (prime_ge_2 p Hp).
  assert (Hd : (p | (x - 1) * (x + 1))).
  { apply Z.mod_divide; [lia |]. replace ((x - 1) * (x + 1)) with (x * x - 1) by ring.
    rewrite Zminus_mod, H, (Z.mod_small 1) by lia. by rewrite Z.sub_diag, Zmod_0_l. }
  apply (prime_mult p Hp) in Hd as [[k Hk] | [k Hk]].
  - left. assert (k = 0) by nia. subst k. lia.
  - right. assert (k = 1) by nia. subst k. lia.
Qed.

(** ** Fermat's little theorem *)

Definition product (l : list Z) : Z := foldr Z.mul 1 l.

#[export] Instance product_perm : Proper ((≡ₚ) ==> (=)) product.
Proof.
  intros l k H. unfold product. induction H; cbn [foldr]; [done | by rewrite IHPermutation | lia | congruence].
Qed.

(** The residues 1, .., p - 1. *)
Definition residues (p : Z) : list Z := Z.of_nat <$> seq 1 (Z.to_nat p - 1).

Lemma elem_of_residues p x : 1 < p -> x ∈ residues p <-> 0 < x < p.
Proof.
  intros Hp. unfold residues. rewrite list_elem_of_fmap. split.
  - intros (i & -> & Hi%elem_of_seq). lia.
  - intros Hx. exists (Z.to_nat x). split; [lia |]. apply elem_of_seq. lia.
Qed.

Lemma residues_nodup p : NoDup (residues p).
Proof. apply NoDup_fmap_2; [intros i j H; lia | apply NoDup_seq]. Qed.

Lemma scaled_perm p a : prime p -> a mod p <> 0 ->
  (fun x => (a * x) mod p) <$> residues p ≡ₚ residues p.
Proof.
  intros Hp Ha. pose proof (prime_ge_2 p Hp).
  assert (Hn : NoDup ((fun x => (a * x) mod p) <$> residues p)).
  { apply NoDup_fmap_2_strong; [| apply residues_nodup].
    intros x y Hx%elem_of_residues Hy%elem_of_residues E; [| lia ..].
    apply (cancel_mod p a) in E; [| done ..]. by rewrite !Z.mod_small in E by lia. }
  apply NoDup_Permutation_bis; [by apply NoDup_ListNoDup | by rewrite length_fmap |].
  intros y. rewrite <- !list_elem_of_In. intros (x & -> & Hx)%list_elem_of_fmap.
  apply elem_of_residues in Hx; [| lia]. apply elem_of_residues; [lia |].
  pose proof (Z.mod_pos_bound (a * x) p ltac:(lia)).
  assert ((a * x) mod p <> 0); [| lia].
  apply product_nonzero; [done | done |]. rewrite Z.mod_small; lia.
Qed.

Lemma product_scaled p a l : 0 < p ->
  product ((fun x => (a * x) mod p) <$> l) mod p = (a ^ Z.of_nat (length l) * product l) mod p.
Proof.
  intros Hp. induction l as [| x l IH]; [done |]. rewrite fmap_cons. cbn [product foldr length].
  fold (product ((fun x => (a * x) mod p) <$> l)). fold (product l).
  rewrite Zmult_mod_idemp_l, <- Zmult_mod_idemp_r, IH, Zmult_mod_idemp_r.
  rewrite Nat2Z.inj_succ, Z.pow_succ_r by lia. f_equal. ring.
Qed.

Lemma product_residues_nonzero p l : prime p -> Forall (fun x => 0 < x < p) l -> product l mod p <> 0.
Proof.
  intros Hp. pose proof (prime_ge_2 p Hp). induction 1 as [| x l Hx _ IH]; cbn [product foldr].
  - rewrite Z.mod_small; lia.
  - apply product_nonzero; [done | rewrite Z.mod_small; lia | done].
Qed.

Lemma fermat p a : prime p -> a mod p <> 0 -> a ^ (p - 1) mod p = 1.
Proof.
  intros Hp Ha. pose proof (prime_ge_2 p Hp).
  pose proof (product_scaled p a (residues p) ltac:(lia)) as E. rewrite (scaled_perm p a Hp Ha) in E.
  assert (Hl : Z.of_nat (length (residues p)) = p - 1).
  { unfold residues. rewrite length_fmap, length_seq. lia. }
  rewrite Hl in E. rewrite <- (Z.mul_1_r (product (residues p))), Z.mul_comm in E at 1.
  rewrite (Z.mul_comm 1), (Z.mul_comm (a ^ _)) in E.
  apply (cancel_mod p) in E; [rewrite <- E; apply Z.mod_small; lia | done |].
  apply product_residues_nonzero; [done |]. apply Forall_forall. intros x Hx.
  apply elem_of_residues in Hx; lia.
Qed.

(** Exponents count modulo p - 1; a multiple of p stays one. *)
Lemma fermat_exp p x k : prime p -> 0 <= k -> x ^ (1 + k * (p - 1)) mod p = x mod p.
Proof.
  intros Hp Hk. pose proof (prime_ge_2 p Hp).
  rewrite Z.pow_add_r, Z.pow_1_r, (Z.mul_comm k), Z.pow_mul_r by nia.
  destruct (Z.eq_dec (x mod p) 0) as [E | Hne].
  - by rewrite <- Zmult_mod_idemp_l, E, Z.mul_0_l, Zmod_0_l.
  - rewrite <- Zmult_mod_idemp_r, (Zpower_mod (x ^ (p - 1)) k p), fermat by (done || lia).
    by rewrite Z.pow_1_l, (Z.mod_small 1), Z.mul_1_r by lia.
Qed.

(** ** Two primes *)

Lemma crt_unique p q x y : prime p -> prime q -> p <> q ->
  x mod p = y mod p -> x mod q = y mod q -> x mod (p * q) = y mod (p * q).
Proof.
  intros Hp Hq Hne E1 E2. pose proof (prime_ge_2 p Hp). pose proof (prime_ge_2 q Hq).
  assert (Hd1 : (p | x - y)).
  { apply Z.mod_divide; [lia |]. by rewrite Zminus_mod, E1, Z.sub_diag, Zmod_0_l. }
  assert (Hd2 : (q | x - y)).
  { apply Z.mod_divide; [lia |]. by rewrite Zminus_mod, E2, Z.sub_diag, Zmod_0_l. }
  destruct Hd1 as [k Hk]. rewrite Hk, Z.mul_comm in Hd2.
  apply Gauss in Hd2; [| apply rel_prime_sym; apply residue_coprime; [done |]].
  - destruct Hd2 as [j Hj]. replace x with (y + j * (p * q)) by (subst k; lia). apply Z.mod_add. nia.
  - intros E. apply Z.mod_divide in E; [| lia].
    apply prime_divisors in E; [| done]. lia.
Qed.

(** The identity of RSA: raising to e and then to d changes nothing modulo p q. *)
Lemma rsa_identity p q e d x : prime p -> prime q -> p <> q -> 0 < e -> 0 < d ->
  (e * d) mod ((p - 1) * (q - 1)) = 1 mod ((p - 1) * (q - 1)) ->
  (x ^ (e * d)) mod (p * q) = x mod (p * q).
Proof.
  intros Hp Hq Hne He Hd E. pose proof (prime_ge_2 p Hp). pose proof (prime_ge_2 q Hq).
  assert (Hk : exists k, 0 <= k /\ e * d = 1 + k * ((p - 1) * (q - 1))).
  { exists ((e * d - 1) / ((p - 1) * (q - 1))). split; [apply Z.div_pos; nia |].
    assert (((p - 1) * (q - 1) | e * d - 1)) as [k Hk].
    { apply Z.mod_divide; [nia |]. by rewrite Zminus_mod, E, Z.sub_diag, Zmod_0_l. }
    rewrite Hk, Z.div_mul by nia. lia. }
  destruct Hk as (k & Hk & ->). apply crt_unique; [done .. | |].
  - replace (k * ((p - 1) * (q - 1))) with (k * (q - 1) * (p - 1)) by ring. apply fermat_exp; [done | nia].
  - replace (k * ((p - 1) * (q - 1))) with (k * (p - 1) * (q - 1)) by ring. apply fermat_exp; [done | nia].
Qed.

(** An exponent may be reduced modulo p - 1, if that leaves it positive. *)
Lemma reduce_exp p x d : prime p -> 0 < d -> 0 < d mod (p - 1) -> x ^ (d mod (p - 1)) mod p = x ^ d mod p.
Proof.
  intros Hp Hd Hr. pose proof (prime_ge_2 p Hp). pose proof (Z.div_mod d (p - 1) ltac:(nia)) as E.
  assert (0 <= d / (p - 1)) by (apply Z.div_pos; lia).
  set (r := d mod (p - 1)) in *. set (k := d / (p - 1)) in *.
  replace d with ((r - 1) + (1 + k * (p - 1))) by lia.
  rewrite Z.pow_add_r, <- Zmult_mod_idemp_r, fermat_exp, Zmult_mod_idemp_r by (done || nia).
  rewrite Z.mul_comm, <- Z.pow_succ_r by lia. do 2 f_equal. lia.
Qed.

(** ** Proth's theorem, to have primes of the size of keys *)

Lemma prime_factor n : 1 < n -> exists r, prime r /\ (r | n).
Proof.
  intros Hn. assert (H0 : 0 <= n) by lia. revert Hn. pattern n.
  apply Z_lt_induction; [clear n H0 | done]. intros n IH Hn. destruct (prime_dec n) as [Hp | Hnp]; [by exists n |].
  destruct (not_prime_divide n Hn Hnp) as (d & Hd & Hdiv).
  destruct (IH d ltac:(lia) ltac:(lia)) as (r & Hr & Hrd). exists r. split; [done |].
  by apply Z.divide_trans with d.
Qed.

Lemma small_prime_factor n : 1 < n -> ~ prime n -> exists r, prime r /\ (r | n) /\ r * r <= n.
Proof.
  intros Hn Hnp. destruct (not_prime_divide n Hn Hnp) as (d & Hd & [e He]).
  assert (He1 : 1 < e) by nia.
  destruct (Z.le_gt_cases (d * d) n) as [Hs | Hs].
  - destruct (prime_factor d ltac:(lia)) as (r & Hr & [f Hf]). exists r. split; [done |].
    pose proof (prime_ge_2 r Hr). assert (0 < f) by nia.
    assert (r <= d) by nia. assert (r * r <= d * d) by nia.
    split; [exists (e * f); subst; ring | lia].
  - destruct (prime_factor e He1) as (r & Hr & [f Hf]). exists r. split; [done |].
    pose proof (prime_ge_2 r Hr). assert (0 < f) by nia. assert (e < d) by nia.
    assert (r <= e) by nia. assert (r * r <= e * d) by nia.
    split; [exists (f * d); subst; ring | lia].
Qed.

(** An odd part and a power of two. *)
Lemma odd_part n : 0 < n -> exists s t, 0 <= s /\ Z.odd t = true /\ n = 2 ^ s * t.
Proof.
  intros Hn. assert (H0 : 0 <= n) by lia. revert Hn. pattern n.
  apply Z_lt_induction; [clear n H0 | done]. intros n IH Hn. destruct (Z.odd n) eqn:E.
  - exists 0, n. split_and!; [lia | done | lia].
  - pose proof (Z.div_mod n 2 ltac:(lia)) as Hd. rewrite Zmod_odd, E in Hd.
    destruct (IH (n / 2) ltac:(lia) ltac:(lia)) as (s & t & Hs & Ht & Hst).
    exists (s + 1), t. rewrite Z.pow_add_r by lia. split_and!; [lia | done | lia].
Qed.

Lemma neg_one_odd r t : 2 < r -> 0 <= t -> Z.odd t = true -> (r - 1) ^ t mod r = r - 1.
Proof.
  intros Hr Ht Ho. pose proof (Z.div_mod t 2 ltac:(lia)) as Hd. rewrite Zmod_odd, Ho in Hd.
  assert (0 <= t / 2) by (apply Z.div_pos; lia).
  rewrite Hd, Z.pow_add_r, Z.pow_mul_r, Z.pow_1_r, Z.pow_2_r by lia.
  rewrite <- Zmult_mod_idemp_l, Zpower_mod by lia.
  replace ((r - 1) * (r - 1)) with (1 + (r - 2) * r) by ring.
  rewrite Z.mod_add, (Z.mod_small 1), Z.pow_1_l, (Z.mod_small 1), Z.mul_1_l by lia.
  apply Z.mod_small. lia.
Qed.

Lemma mod_of_divisor n r x y : 0 < r -> (r | n) -> 0 < n -> x mod n = y mod n -> x mod r = y mod r.
Proof.
  intros Hr [k ->] Hn E. rewrite (Z.div_mod x (k * r)), (Z.div_mod y (k * r)), E by lia.
  rewrite !(Z.mul_comm (k * r)), !Z.mul_assoc, !(Z.add_comm _ ((_ mod _))), !Z.mod_add by lia. done.
Qed.

Lemma proth k m a n : n = k * 2 ^ m + 1 -> 0 < m -> 0 < k < 2 ^ m -> 0 <= a ->
  a ^ (k * 2 ^ (m - 1)) mod n = n - 1 -> prime n.
Proof.
  intros En Hm Hk Ha Hpow.
  assert (E2 : 2 ^ m = 2 * 2 ^ (m - 1)) by (rewrite <- Z.pow_succ_r by lia; f_equal; lia).
  assert (Hn : 2 < n) by nia.
  destruct (prime_dec n) as [| Hnp]; [done | exfalso].
  destruct (small_prime_factor n ltac:(lia) Hnp) as (r & Hr & Hd & Hsq).
  pose proof (prime_ge_2 r Hr) as Hr2.
  assert (Hodd : r <> 2).
  { intros ->. destruct Hd as [f Hf]. lia. }
  assert (Hb : a ^ (k * 2 ^ (m - 1)) mod r = r - 1).
  { rewrite (mod_of_divisor n r _ (n - 1)); [| lia | done | lia | by rewrite Hpow, Z.mod_small by lia].
    destruct Hd as [f ->]. replace (f * r - 1) with (r - 1 + (f - 1) * r) by ring.
    rewrite Z.mod_add by lia. apply Z.mod_small. lia. }
  assert (Ha0 : a mod r <> 0).
  { intros E. rewrite Zpower_mod, E, Z.pow_0_l, Zmod_0_l in Hb by nia. lia. }
  destruct (odd_part (r - 1) ltac:(lia)) as (s & t & Hs & Ht & Hst).
  assert (Ht0 : 0 < t) by nia.
  destruct (Z.le_gt_cases m s) as [Hms | Hsm].
  - pose proof (Z.pow_le_mono_r 2 m s ltac:(lia) Hms) as Hle. set (T := 2 ^ m) in *.
    assert (T < r) by nia. assert ((T + 1) * (T + 1) <= r * r) by nia. nia.
  - assert (E1 : a ^ (k * 2 ^ (m - 1) * t) mod r = r - 1).
    { rewrite Z.pow_mul_r, Zpower_mod, Hb by nia. apply neg_one_odd; [lia | lia | done]. }
    assert (E3 : k * 2 ^ (m - 1) * t = (r - 1) * (k * 2 ^ (m - 1 - s))).
    { rewrite Hst. replace (m - 1) with (s + (m - 1 - s)) at 1 by lia. rewrite Z.pow_add_r by lia. ring. }
    rewrite E3, Z.pow_mul_r, Zpower_mod, fermat, Z.pow_1_l, Z.mod_small in E1 by (done || nia). lia.
Qed.

(** The power of [proth] by repeated squaring. *)
Definition squares (n : nat) (m x : Z) : Z := Nat.iter n (fun y => (y * y) mod m) x.

Lemma squares_pow n m x : 0 < m -> squares n m (x mod m) = x ^ (2 ^ Z.of_nat n) mod m.
Proof.
  intros Hm. unfold squares. induction n as [| n IH].
  - cbn. by rewrite Z.pow_1_r.
  - rewrite Nat.iter_succ, IH, <- Zmult_mod. f_equal.
    rewrite Nat2Z.inj_succ, Z.pow_succ_r by lia.
    by rewrite (Z.mul_comm 2), Z.pow_mul_r, Z.pow_2_r by lia.
Qed.

Lemma proth_check k m a : 0 < k < 2 ^ Z.of_nat (S m) -> 0 <= a ->
  squares m (k * 2 ^ Z.of_nat (S m) + 1) (a ^ k mod (k * 2 ^ Z.of_nat (S m) + 1)) = k * 2 ^ Z.of_nat (S m) ->
  prime (k * 2 ^ Z.of_nat (S m) + 1).
Proof.
  intros Hk Ha H. apply (proth k (Z.of_nat (S m)) a); [done | lia | done | done |].
  rewrite squares_pow, <- Z.pow_mul_r in H by lia.
  replace (Z.of_nat (S m) - 1) with (Z.of_nat m) by lia. lia.
Qed.

(** Two primes of 256 bits, for examples. *)
Lemma prime_248 : prime (207 * 2 ^ 248 + 1).
Proof. apply (proth_check 207 247 5); [done | done | vm_compute; reflexivity]. Qed.

Lemma prime_247 : prime (467 * 2 ^ 247 + 1).
Proof. apply (proth_check 467 246 3); [done | done | vm_compute; reflexivity]. Qed.

End NumTheory.
