(* ===== verification/Rsa.v ===== *)
(** * RSA ([crypto/rsa.rs])

    Keys, encryption with PKCS#1 v1.5 padding, signatures with PKCS#1 v1.5 and PSS encodings,
    key generation with its primality test. The arithmetic is [BigNum], the digest [Hash].
    The bytes that [csprng::fill] delivers are an argument: [rng i] is byte number [i], and
    code that draws bytes passes the number of the next one along. Loops that draw until a
    test succeeds have fuel. *)

From Stdlib Require Import ZArith Lia Znumtheory Zpow_facts.
From S2P Require Import Prelude Bytes Hash BigNum NumTheory.

Module Rsa.
Import BigNum NumTheory.

(** ** Randomness *)

(** Code that draws bytes: from the number of the next byte to a result and the number after
    the last byte drawn. *)
Definition draw (A : Type) : Type := nat -> outcome (A * nat).

#[export] Instance draw_ret : MRet draw := fun A a pos => Ret (a, pos).
#[export] Instance draw_bind : MBind draw := fun A B f m pos =>
  match m pos with
  | Ret (a, pos) => f a pos
  | Panic => Panic
  | OutOfFuel => OutOfFuel
  end.

Definition lift {A} (m : outcome A) : draw A := fun pos =>
  match m with Ret a => Ret (a, pos) | Panic => Panic | OutOfFuel => OutOfFuel end.

(** The error strings of the module. *)
Inductive rsa_error :=
| UnsupportedDigest | ModulusTooSmallForDigest | PssRequiresSha256
| ModulusTooSmallForPss | ModulusTooSmallForSalt | ModulusTooSmall.

Inductive result (A : Type) := Ok (a : A) | Err (e : rsa_error).
Arguments Ok {A} a.
Arguments Err {A} e.

Definition checked_sub (a b : nat) : option nat := if (b <=? a)%nat then Some (a - b)%nat else None.

Section Rng.
  Context (rng : nat -> Z).

(** [csprng::fill] of [n] bytes. *)
Definition fill (n : nat) : draw (list Z) := fun pos => Ret (rng <$> seq pos n, (pos + n)%nat).

(** ** Primes *)

Definition generate_random_odd (bits : nat) : draw BigUint :=
  if (bits =? 0)%nat then mret (from 0)
  else
    let bytes := ((bits + 7) / 8)%nat in
    data ← fill bytes;
    let data := alter (fun b => Z.lor b 0xC0) 0%nat data in
    let data := alter (fun b => Z.lor b 0x01) (bytes - 1)%nat data in
    mret (from_bytes data).

Definition generate_witness (n : BigUint) : draw BigUint :=
  data ← fill (byte_len n);
  mret (mod_op (from_bytes data) n).

(** [while d.limbs[0] & 1 == 0 { d = d.shr(1); r += 1; }] *)
Fixpoint strip_twos (fuel : nat) (d : BigUint) (r : Z) : outcome (BigUint * Z) :=
  if Z.land (hd0 (limbs d)) 1 =? 0
  then match fuel with
       | O => OutOfFuel
       | S fuel => strip_twos fuel (shr d 1) (r +[32] 1)
       end
  else Ret (d, r).

(** [for _ in 0..r - 1]: whether some square is [n - 1]. *)
Fixpoint square_loop (k : nat) (n n_minus_1 x : BigUint) : bool :=
  match k with
  | O => false
  | S k =>
      let x := mod_op (mul x x) n in
      if cmp x n_minus_1 =? 0 then true else square_loop k n n_minus_1 x
  end.

Fixpoint witness_rounds (rounds : nat) (n n_minus_1 d : BigUint) (r : Z) : draw bool :=
  match rounds with
  | O => mret true
  | S rounds =>
      a ← generate_witness n;
      x ← lift (mod_exp a d n);
      if (cmp x (from 1) =? 0) || (cmp x n_minus_1 =? 0)
      then witness_rounds rounds n n_minus_1 d r
      else if square_loop (Z.to_nat (r -[32] 1)) n n_minus_1 x
      then witness_rounds rounds n n_minus_1 d r
      else mret false
  end.

Definition is_probably_prime (n : BigUint) (rounds : nat) : draw bool :=
  if cmp n (from 2) <? 0 then mret false
  else if (cmp n (from 2) =? 0) || (cmp n (from 3) =? 0) then mret true
  else if Z.land (hd0 (limbs n)) 1 =? 0 then mret false
  else
    let n_minus_1 := sub n (from 1) in
    dr ← lift (strip_twos (bit_len n_minus_1) n_minus_1 0);
    witness_rounds rounds n n_minus_1 dr.1 dr.2.

(** [loop]: candidates until one passes the test. *)
Fixpoint prime_loop (fuel bits : nat) : draw BigUint :=
  match fuel with
  | O => fun _ => OutOfFuel
  | S fuel =>
      candidate ← generate_random_odd bits;
      prime ← is_probably_prime candidate 20;
      if (prime : bool) then mret candidate else prime_loop fuel bits
  end.

Definition generate_prime (fuel bits : nat) : draw (option BigUint) :=
  if ((bits =? 0) || (2048 <? bits))%nat then mret None
  else candidate ← prime_loop fuel bits; mret (Some candidate).

(** ** Keys *)

Record RsaPublicKey := mk_public { pub_n : BigUint; pub_e : BigUint }.

Record RsaPrivateKey := mk_private {
  key_n : BigUint; key_e : BigUint; key_d : BigUint;
  key_p : BigUint; key_q : BigUint;
  key_dp : BigUint; key_dq : BigUint; key_qi : BigUint }.

(** The key made of two primes. *)
Definition key_of (p q : BigUint) : outcome RsaPrivateKey :=
  let e := from 65537 in
  let n := mul p q in
  let p_minus_1 := sub p (from 1) in
  let q_minus_1 := sub q (from 1) in
  let phi := mul p_minus_1 q_minus_1 in
  d ← mod_inverse e phi;
  let dp := mod_op d p_minus_1 in
  let dq := mod_op d q_minus_1 in
  qi ← mod_inverse q p;
  Ret (mk_private n e d p q dp dq qi).

Definition generate (fuel bits : nat) : draw (option RsaPrivateKey) :=
  if negb ((512 <=? bits) && (bits <=? 4096))%nat || negb (bits mod 2 =? 0)%nat then mret None
  else
    let prime_bits := (bits / 2)%nat in
    p ← generate_prime fuel prime_bits;
    match p with
    | None => mret None
    | Some p =>
        q ← generate_prime fuel prime_bits;
        match q with
        | None => mret None
        | Some q => k ← lift (key_of p q); mret (Some k)
        end
    end.

Definition public_key (k : RsaPrivateKey) : RsaPublicKey := mk_public (key_n k) (key_e k).

(** ** Encodings *)

Fixpoint nonzero_byte (fuel : nat) : draw Z :=
  match fuel with
  | O => fun _ => OutOfFuel
  | S fuel => data ← fill 1; let byte := hd0 data in
              if byte =? 0 then nonzero_byte fuel else mret byte
  end.

Fixpoint padding_bytes (fuel n : nat) : draw (list Z) :=
  match n with
  | O => mret []
  | S n => byte ← nonzero_byte fuel; rest ← padding_bytes fuel n; mret (byte :: rest)
  end.

Definition pkcs1v15_encrypt_pad (fuel : nat) (data : list Z) (key_len : nat) : draw (list Z) :=
  match checked_sub key_len (length data) with
  | None => mret []
  | Some remain =>
      match checked_sub remain 3 with
      | None => mret []
      | Some padding_len =>
          padding ← padding_bytes fuel padding_len;
          mret (0x00 :: 0x02 :: padding ++ 0x00 :: data)
      end
  end.

Definition digest_info_prefix (digest : list Z) : list Z :=
  match length digest with
  | 20%nat => [0x30; 0x21; 0x30; 0x09; 0x06; 0x05; 0x2b; 0x0e; 0x03; 0x02; 0x1a; 0x05; 0x00; 0x04;
               0x14]
  | 32%nat => [0x30; 0x31; 0x30; 0x0d; 0x06; 0x09; 0x60; 0x86; 0x48; 0x01; 0x65; 0x03; 0x04; 0x02;
               0x01; 0x05; 0x00; 0x04; 0x20]
  | 48%nat => [0x30; 0x41; 0x30; 0x0d; 0x06; 0x09; 0x60; 0x86; 0x48; 0x01; 0x65; 0x03; 0x04; 0x02;
               0x02; 0x05; 0x00; 0x04; 0x30]
  | 64%nat => [0x30; 0x51; 0x30; 0x0d; 0x06; 0x09; 0x60; 0x86; 0x48; 0x01; 0x65; 0x03; 0x04; 0x02;
               0x03; 0x05; 0x00; 0x04; 0x40]
  | _ => []
  end.

Definition pkcs1v15_sign_pad (digest : list Z) (key_len : nat) : result (list Z) :=
  let digest_info := digest_info_prefix digest in
  match digest_info with
  | [] => Err UnsupportedDigest
  | _ =>
      match (remain ← checked_sub key_len (length digest_info);
             remain ← checked_sub remain (length digest); checked_sub remain 3) with
      | None => Err ModulusTooSmallForDigest
      | Some padding_len =>
          Ok (0x00 :: 0x01 :: replicate padding_len 0xff ++ 0x00 :: digest_info ++ digest)
      end
  end.

Definition to_bytes_padded (value : BigUint) (len : nat) : list Z :=
  let raw := to_bytes value in
  replicate (len - length raw) 0 ++ raw.

(** [while i < recovered.len() && recovered[i] == 0xff { i += 1; }], on the bytes from [i]. *)
Fixpoint skip_ff (l : list Z) : list Z :=
  match l with
  | b :: l' => if b =? 0xff then skip_ff l' else l
  | [] => []
  end.

(** [l.starts_with(p)] *)
Definition starts_with (l p : list Z) : bool := bool_decide (take (length p) l = p).

Definition pkcs1v15_verify_pad (recovered digest : list Z) (_key_len : nat) : bool :=
  if (length recovered <? length digest + 10)%nat then false
  else match recovered with
       | b0 :: rest =>
           if negb (b0 =? 0x01) then false
           else match skip_ff rest with
                | [] => false
                | b :: rest =>
                    if negb (b =? 0x00) then false
                    else
                      let digest_info := digest_info_prefix digest in
                      starts_with rest digest_info &&
                      bool_decide (drop (length digest_info) rest = digest)
                end
       | [] => false
       end.

Definition pkcs1v15_unpad (recovered : list Z) : list Z :=
  match recovered with
  | b0 :: ((_ :: _) as rest) =>
      if negb (b0 =? 0x02) then []
      else match position (fun byte => byte =? 0x00) rest with
           | Some index => drop (2 + index) recovered
           | None => []
           end
  | _ => []
  end.

Definition mgf1_chunk (seed : list Z) (s : list Z * Z) (chunk : list Z) : list Z * Z :=
  let '(done, counter) := s in
  let hash := Hash.sha256 (seed ++ to_be 4 counter) in
  (done ++ xor_bytes chunk hash, counter +[32] 1).

Definition mgf1_sha256 (seed mask : list Z) : list Z :=
  fst (fold_left (mgf1_chunk seed) (chunks 32 mask) ([], 0)).

(** [0xffu8.checked_shr(bits).unwrap_or(0)] *)
Definition padding_mask (padding_bits : nat) : Z :=
  if (padding_bits <? 8)%nat then Z.shiftr 0xff (Z.of_nat padding_bits) else 0.

(** [first_mut()] masked. *)
Definition mask_first (l : list Z) (m : Z) : list Z := alter (fun b => Z.land b m) 0%nat l.

(** The salt is shorter than [2^64 - 34], so that the sum of the lengths does not wrap. *)
Definition pss_encode (digest : list Z) (key_len modulus_bits salt_len : nat)
    : draw (result (list Z)) :=
  if negb (length digest =? 32)%nat then mret (Err PssRequiresSha256)
  else match (remain ← checked_sub key_len 32; checked_sub remain 1) with
  | None => mret (Err ModulusTooSmallForPss)
  | Some db_len =>
      if (key_len <? salt_len + length digest + 2)%nat then mret (Err ModulusTooSmallForSalt)
      else
        salt ← fill salt_len;
        let m_prime := replicate 8 0 ++ digest ++ salt in
        let h := Hash.sha256 m_prime in
        let db := replicate (db_len - salt_len - 1) 0 ++ 0x01 :: salt in
        let db := mgf1_sha256 h db in
        let em := db ++ h ++ [0xbc] in
        match checked_sub modulus_bits 1 with
        | None => mret (Err ModulusTooSmall)
        | Some em_bits =>
            let padding_bits := (key_len * 8 - em_bits)%nat in
            if (8 <=? padding_bits)%nat then mret (Err ModulusTooSmallForPss)
            else mret (Ok (mask_first em (padding_mask padding_bits)))
        end
  end.

Definition pss_verify (recovered digest : list Z) (key_len modulus_bits salt_len : nat) : bool :=
  if (negb (length digest =? 32) || (key_len <? salt_len + length digest + 2))%nat then false
  else if (key_len <? length recovered)%nat then false
  else
    let em := replicate (key_len - length recovered) 0 ++ recovered in
    let em_bits := (modulus_bits - 1)%nat in
    let padding_bits := (key_len * 8 - em_bits)%nat in
    let mask := padding_mask padding_bits in
    if negb (Z.land (idx em 0) (wnot 8 mask) =? 0) || negb (idx em (key_len - 1) =? 0xbc)
    then false
    else
      let db_len := (key_len - 32 - 1)%nat in
      let db := take db_len em in
      let h := take (key_len - 1 - db_len) (drop db_len em) in
      let db := mgf1_sha256 h db in
      let db := mask_first db mask in
      if (length db <? salt_len + 1)%nat then false
      else if negb (idx db (db_len - salt_len - 1) =? 0x01) then false
      else if existsb (fun byte => negb (byte =? 0)) (take (db_len - salt_len - 1) db) then false
      else
        let salt := drop (db_len - salt_len) db in
        let m_prime := replicate 8 0 ++ digest ++ salt in
        bool_decide (h = Hash.sha256 m_prime).

(** ** Operations *)

Definition encrypt (fuel : nat) (k : RsaPublicKey) (plaintext : list Z) : draw (list Z) :=
  padded ← pkcs1v15_encrypt_pad fuel plaintext (byte_len (pub_n k));
  let m := from_bytes padded in
  c ← lift (mod_exp m (pub_e k) (pub_n k));
  mret (to_bytes c).

Definition decrypt (k : RsaPrivateKey) (ciphertext : list Z) : outcome (list Z) :=
  let c := from_bytes ciphertext in
  m1 ← mod_exp c (key_dp k) (key_p k);
  m2 ← mod_exp c (key_dq k) (key_q k);
  let h :=
    if 0 <=? cmp m1 m2 then mod_op (mul (key_qi k) (sub m1 m2)) (key_p k)
    else
      let diff := sub (key_p k) (mod_op (sub m2 m1) (key_p k)) in
      mod_op (mul (key_qi k) diff) (key_p k) in
  let m := add m2 (mul h (key_q k)) in
  Ret (pkcs1v15_unpad (to_bytes m)).

Definition sign_pkcs1v15 (k : RsaPrivateKey) (digest : list Z) : outcome (result (list Z)) :=
  match pkcs1v15_sign_pad digest (byte_len (key_n k)) with
  | Err e => Ret (Err e)
  | Ok padded =>
      let m := from_bytes padded in
      s ← mod_exp m (key_d k) (key_n k);
      Ret (Ok (to_bytes_padded s (byte_len (key_n k))))
  end.

Definition verify_pkcs1v15 (k : RsaPublicKey) (digest signature : list Z) : outcome bool :=
  let s := from_bytes signature in
  m ← mod_exp s (pub_e k) (pub_n k);
  Ret (pkcs1v15_verify_pad (to_bytes m) digest (byte_len (pub_n k))).

Definition sign_pss (k : RsaPrivateKey) (digest : list Z) (salt_len : nat) : draw (result (list Z)) :=
  padded ← pss_encode digest (byte_len (key_n k)) (bit_len (key_n k)) salt_len;
  match padded with
  | Err e => mret (Err e)
  | Ok padded =>
      let m := from_bytes padded in
      s ← lift (mod_exp m (key_d k) (key_n k));
      mret (Ok (to_bytes_padded s (byte_len (key_n k))))
  end.

Definition verify_pss (k : RsaPublicKey) (digest signature : list Z) (salt_len : nat) : outcome bool :=
  if negb (length signature =? byte_len (pub_n k))%nat then Ret false
  else
    let s := from_bytes signature in
    m ← mod_exp s (pub_e k) (pub_n k);
    Ret (pss_verify (to_bytes m) digest (byte_len (pub_n k)) (bit_len (pub_n k)) salt_len).

End Rng.

(** ** Strings of a given length *)

Lemma trim_rev_pad l : exists j, l = replicate j 0 ++ trim_rev l.
Proof.
  induction l as [| x [| y l] IH]; [by exists 0%nat | by exists 0%nat |]. rewrite trim_rev_cons.
  destruct (Z.eqb_spec x 0) as [-> | _]; [| by exists 0%nat].
  destruct IH as [j IH]. exists (S j). cbn [replicate app]. by rewrite <- IH.
Qed.

Lemma trim_rev_zero x l : x <> 0 -> trim_rev (0 :: x :: l) = x :: l.
Proof.
  intros Hx. rewrite trim_rev_cons. cbn [Z.eqb]. destruct l as [| y l]; [done |].
  by rewrite trim_rev_cons, (proj2 (Z.eqb_neq x 0) Hx).
Qed.

Lemma pad_trim l : replicate (length l - length (trim_rev l)) 0 ++ trim_rev l = l.
Proof.
  destruct (trim_rev_pad l) as [j E]. transitivity (replicate j 0 ++ trim_rev l); [| done].
  do 2 f_equal. apply (f_equal length) in E. rewrite length_app, length_replicate in E. lia.
Qed.

Lemma length_trim_rev l : (length (trim_rev l) <= length l)%nat.
Proof.
  destruct (trim_rev_pad l) as [j E]. apply (f_equal length) in E. rewrite length_app in E. lia.
Qed.

Lemma be_bytes_value k v : u_ty (8 * Z.of_nat k) v ->
  from_be (be_bytes k v) = v /\ Forall byte_ty (be_bytes k v).
Proof.
  intros Hv. pose proof (from_to_be k v Hv) as E. unfold be_bytes.
  destruct (trim_rev_pad (to_be k v)) as [j Ej]. split.
  - rewrite Ej in E. rewrite from_be_app in E. rewrite <- E at 2.
    assert (Ez : from_be (replicate j 0) = 0).
    { rewrite <- to_be_0. apply from_to_be. split; [lia | apply Z.pow_pos_nonneg; lia]. }
    rewrite Ez. lia.
  - apply trim_rev_sub, to_be_bytes.
Qed.

Lemma to_bytes_padded_spec x k : canonical x -> (0 < k)%nat -> u_ty (8 * Z.of_nat k) (value x) ->
  to_bytes_padded x k = to_be k (value x).
Proof.
  intros Hx Hk Hv. unfold to_bytes_padded. rewrite (to_bytes_spec x k) by done. unfold be_bytes.
  rewrite <- (length_to_be k (value x)) at 1. apply pad_trim.
Qed.

Lemma be_bytes_of k l : block_ty k l -> be_bytes k (from_be l) = trim_rev l.
Proof. intros [Hl Ht]. unfold be_bytes. by rewrite <- Hl, to_from_be. Qed.

(** A string with a zero in front stands for a number with a byte less. *)
Lemma from_be_zero l : Forall byte_ty l -> from_be (0 :: l) = from_be l /\ 0 <= from_be l < 2 ^ (8 * Z.of_nat (length l)).
Proof.
  intros Hl. split; [| by apply from_be_ty]. change (0 :: l) with ([0] ++ l). rewrite from_be_app. cbn. lia.
Qed.

(** ** Keys for which RSA works *)

Record valid_key (k : RsaPrivateKey) : Prop := {
  valid_n : canonical (key_n k); valid_e : canonical (key_e k); valid_d : canonical (key_d k);
  valid_p : canonical (key_p k); valid_q : canonical (key_q k);
  valid_dp : canonical (key_dp k); valid_dq : canonical (key_dq k); valid_qi : canonical (key_qi k);
  p_prime : prime (value (key_p k)); q_prime : prime (value (key_q k));
  p_not_q : value (key_p k) <> value (key_q k);
  p_odd : 2 < value (key_p k); q_odd : 2 < value (key_q k);
  n_product : value (key_n k) = value (key_p k) * value (key_q k);
  e_pos : 0 < value (key_e k); d_pos : 0 < value (key_d k);
  ed_inverse : (value (key_e k) * value (key_d k)) mod ((value (key_p k) - 1) * (value (key_q k) - 1))
               = 1 mod ((value (key_p k) - 1) * (value (key_q k) - 1));
  dp_value : value (key_dp k) = value (key_d k) mod (value (key_p k) - 1);
  dq_value : value (key_dq k) = value (key_d k) mod (value (key_q k) - 1);
  qi_inverse : (value (key_qi k) * value (key_q k)) mod value (key_p k) = 1 }.

Section Valid.
  Context (k : RsaPrivateKey) (Hk : valid_key k).
  Notation N := (value (key_n k)).
  Notation P := (value (key_p k)).
  Notation Q := (value (key_q k)).
  Notation E := (value (key_e k)).
  Notation D := (value (key_d k)).

Lemma n_pos : 0 < N.
Proof. destruct Hk. nia. Qed.

(** Raising to one exponent and to the other, in either order. *)
Lemma there_and_back x a b : 0 <= x < N -> (a = E /\ b = D \/ a = D /\ b = E) ->
  ((x ^ a mod N) ^ b) mod N = x.
Proof.
  intros Hx Hab. pose proof n_pos as HN. destruct Hk.
  rewrite <- Zpower_mod, <- Z.pow_mul_r by (destruct Hab as [[-> ->] | [-> ->]]; lia).
  replace (a * b) with (E * D) by (destruct Hab as [[-> ->] | [-> ->]]; ring).
  rewrite n_product0 in *. rewrite rsa_identity by done. by apply Z.mod_small.
Qed.

Lemma power_n x e : wf x -> canonical e -> 0 < value e ->
  exists r, mod_exp x e (key_n k) = Ret r /\ canonical r /\ value r = value x ^ value e mod N.
Proof.
  intros Hx He H0. pose proof n_pos as HN. destruct Hk.
  destruct (mod_exp_spec x e (key_n k) Hx He valid_n0 HN) as (r & Er & Hr & Vr).
  exists r. split; [done |]. split; [done |]. rewrite Vr. by rewrite (proj2 (Z.eqb_neq _ 0)) by lia.
Qed.

(** Encoded messages: as long as the modulus, with a zero in front. *)
Lemma encoded_bound l : Forall byte_ty l -> S (length l) = byte_len (key_n k) -> 0 <= from_be (0 :: l) < N.
Proof.
  intros Hl Hlen. destruct (from_be_zero l Hl) as [-> [H0 H1]]. split; [done |].
  destruct (byte_len_spec (key_n k) (valid_n k Hk)) as (_ & _ & Hb). specialize (Hb n_pos).
  apply Z.lt_le_trans with (1 := H1). apply Z.le_trans with (2 := Hb).
  apply Z.pow_le_mono_r; lia.
Qed.

Lemma below_n x : 0 <= x < N -> u_ty (8 * Z.of_nat (byte_len (key_n k))) x.
Proof.
  intros Hx. destruct (byte_len_spec (key_n k) (valid_n k Hk)) as (_ & Hb & _). split; lia.
Qed.

Lemma byte_len_pos : (0 < byte_len (key_n k))%nat.
Proof. apply (byte_len_spec (key_n k) (valid_n k Hk)). Qed.

(** Signing an encoded message and recovering it with the public key. *)
Lemma sign_recover em : block_ty (byte_len (key_n k)) em -> 0 <= from_be em < N ->
  exists s, mod_exp (from_bytes em) (key_d k) (key_n k) = Ret s /\ canonical s /\ 0 <= value s < N /\
    exists m, mod_exp (from_bytes (to_bytes_padded s (byte_len (key_n k)))) (key_e k) (key_n k) = Ret m /\
      to_bytes m = trim_rev em.
Proof.
  intros Hem Hlt. pose proof n_pos as HN. pose proof byte_len_pos as Hbl.
  destruct (from_bytes_spec em (proj2 Hem)) as (Hw & Hv & _).
  destruct (power_n (from_bytes em) (key_d k) Hw (valid_d k Hk) (d_pos k Hk)) as (s & Es & Hs & Vs).
  assert (Hsb : 0 <= value s < N) by (rewrite Vs; by apply Z.mod_pos_bound).
  exists s. split; [done |]. split; [done |]. split; [done |].
  rewrite to_bytes_padded_spec by (done || by apply below_n).
  destruct (from_bytes_spec (to_be (byte_len (key_n k)) (value s)) (to_be_bytes _ _)) as (Hw' & Hv' & _).
  rewrite from_to_be in Hv' by (by apply below_n).
  destruct (power_n _ (key_e k) Hw' (valid_e k Hk) (e_pos k Hk)) as (m & Em & Hm & Vm).
  exists m. split; [done |].
  assert (Vm' : value m = from_be em).
  { rewrite Vm, Hv', Vs, Hv. apply there_and_back; [done | by right]. }
  rewrite (to_bytes_spec m (byte_len (key_n k))), Vm' by (done || rewrite Vm'; by apply below_n).
  by apply be_bytes_of.
Qed.

End Valid.

(** ** Signature padding *)

Lemma skip_ff_spec l : exists j, l = replicate j 0xff ++ skip_ff l /\
  match skip_ff l with b :: _ => b <> 0xff | [] => True end.
Proof.
  induction l as [| b l IH]; [by exists 0%nat |]. cbn [skip_ff].
  destruct (Z.eqb_spec b 0xff) as [-> | Hne]; [| by exists 0%nat].
  destruct IH as (j & E & Hn). exists (S j). cbn [replicate app]. by rewrite <- E.
Qed.

Lemma skip_ff_replicate j b l : b <> 0xff -> skip_ff (replicate j 0xff ++ b :: l) = b :: l.
Proof.
  intros Hb. induction j as [| j IH]; [| done]. cbn [replicate app skip_ff].
  by rewrite (proj2 (Z.eqb_neq b 0xff) Hb).
Qed.

Lemma verify_pad_iff recovered digest n :
  pkcs1v15_verify_pad recovered digest n = true <->
  (length digest + 10 <= length recovered)%nat /\
  exists j, recovered = 0x01 :: replicate j 0xff ++ 0x00 :: digest_info_prefix digest ++ digest.
Proof.
  unfold pkcs1v15_verify_pad. destruct (Nat.ltb_spec (length recovered) (length digest + 10)) as [Hl | Hl].
  { split; [done |]. lia. }
  destruct recovered as [| b0 rest].
  { split; [done |]. intros [_ [j Hj]]. done. }
  destruct (Z.eqb_spec b0 1) as [-> | Hb0]; cbn [negb].
  2: { split; [done |]. intros [_ [j Hj]]. by injection Hj. }
  split.
  - destruct (skip_ff_spec rest) as (j & E & Hne). destruct (skip_ff rest) as [| b tail]; [done |].
    destruct (Z.eqb_spec b 0) as [-> | Hb]; cbn [negb]; [| done].
    rewrite andb_true_iff. unfold starts_with. rewrite !bool_decide_eq_true. intros [H1 H2].
    split; [done |]. exists j. rewrite E. do 3 f_equal.
    by rewrite <- H2 at 2; rewrite <- H1 at 1; rewrite take_drop.
  - intros [_ [j Hj]]. injection Hj as ->. rewrite skip_ff_replicate by done. cbn [Z.eqb negb].
    rewrite andb_true_iff. unfold starts_with. rewrite !bool_decide_eq_true.
    by rewrite take_app_length, drop_app_length.
Qed.

Lemma sign_pad_ok digest n padded : pkcs1v15_sign_pad digest n = Ok padded ->
  exists j, padded = 0x00 :: 0x01 :: replicate j 0xff ++ 0x00 :: digest_info_prefix digest ++ digest /\
    length padded = n /\ digest_info_prefix digest <> [].
Proof.
  unfold pkcs1v15_sign_pad. destruct (digest_info_prefix digest) as [| b l] eqn:E; [done |].
  rewrite <- E. unfold checked_sub.
  destruct (Nat.leb_spec (length (digest_info_prefix digest)) n); [| done]. cbn [mbind option_bind].
  destruct (Nat.leb_spec (length digest) (n - length (digest_info_prefix digest))); [| done].
  cbn [mbind option_bind]. destruct (Nat.leb_spec 3 (n - length (digest_info_prefix digest) - length digest)); [| done].
  intros [= <-]. eexists. split; [reflexivity |]. split; [| by rewrite E].
  cbn [length]. rewrite length_app, length_replicate. cbn [length]. rewrite length_app. lia.
Qed.

Lemma digest_info_bytes digest : Forall byte_ty (digest_info_prefix digest).
Proof.
  unfold digest_info_prefix.
  repeat match goal with |- context [match ?n with O => _ | S _ => _ end] => destruct n end;
    apply (bool_decide_unpack _); reflexivity.
Qed.

Lemma digest_info_len digest : digest_info_prefix digest <> [] -> (15 <= length (digest_info_prefix digest))%nat.
Proof.
  unfold digest_info_prefix.
  repeat match goal with |- context [match ?n with O => _ | S _ => _ end] => destruct n end;
    (done || (intros _; cbn [length]; lia)).
Qed.

Lemma replicate_bytes n b : byte_ty b -> Forall byte_ty (replicate n b).
Proof. intros H. by apply Forall_replicate. Qed.

Lemma sign_verify k digest padded :
  valid_key k -> Forall byte_ty digest -> pkcs1v15_sign_pad digest (byte_len (key_n k)) = Ok padded ->
  exists sig, sign_pkcs1v15 k digest = Ret (Ok sig) /\ length sig = byte_len (key_n k) /\
    verify_pkcs1v15 (public_key k) digest sig = Ret true.
Proof.
  intros Hk Hd Hpad. destruct (sign_pad_ok _ _ _ Hpad) as (j & E & Hlen & Hne).
  set (tail := 0x01 :: replicate j 0xff ++ 0x00 :: digest_info_prefix digest ++ digest) in *.
  assert (Htail : Forall byte_ty tail).
  { constructor; [done |]. apply Forall_app_2; [by apply replicate_bytes |].
    constructor; [done |]. apply Forall_app_2; [apply digest_info_bytes | done]. }
  assert (Hem : block_ty (byte_len (key_n k)) padded) by (split; [done |]; rewrite E; by constructor).
  assert (Hlt : 0 <= from_be padded < value (key_n k)).
  { rewrite E. apply encoded_bound; [done | done |]. rewrite <- Hlen, E. done. }
  destruct (sign_recover k Hk padded Hem Hlt) as (s & Es & Hs & Hsb & m & Em & Hm).
  unfold sign_pkcs1v15, verify_pkcs1v15, public_key. rewrite Hpad, Es. cbn [outcome_bind mbind pub_n pub_e].
  eexists. split; [reflexivity |]. split.
  - rewrite to_bytes_padded_spec; [apply length_to_be | done | by apply byte_len_pos | by apply below_n].
  - rewrite Em. cbn [outcome_bind mbind]. f_equal. apply verify_pad_iff. rewrite Hm, E.
    assert (Et : trim_rev (0 :: tail) = tail) by (by apply trim_rev_zero). rewrite Et.
    split; [| by exists j]. pose proof (digest_info_len digest Hne). unfold tail. cbn [length].
    rewrite length_app. cbn [length]. rewrite length_app. lia.
Qed.

(** ** Decryption by the Chinese remainder theorem *)

Lemma reduced_exp_pos a b e d : 2 < a -> 2 < b -> 0 < d ->
  (e * d) mod ((a - 1) * (b - 1)) = 1 mod ((a - 1) * (b - 1)) -> 0 < d mod (a - 1).
Proof.
  intros Ha Hb Hd H. pose proof (Z.mod_pos_bound d (a - 1) ltac:(lia)).
  destruct (Z.eq_dec (d mod (a - 1)) 0) as [E | ]; [| lia].
  apply (mod_of_divisor _ (a - 1)) in H; [| lia | by exists (b - 1); ring | nia].
  rewrite <- Zmult_mod_idemp_r, E, Z.mul_0_r, Zmod_0_l, Z.mod_small in H by lia. lia.
Qed.

Section Decrypt.
  Context (k : RsaPrivateKey) (Hk : valid_key k).
  Notation N := (value (key_n k)).
  Notation P := (value (key_p k)).
  Notation Q := (value (key_q k)).
  Notation D := (value (key_d k)).

(** The coefficient of q: [qi * (m1 - m2) mod p]. *)
Lemma crt_coefficient m1 m2 : canonical m1 -> canonical m2 ->
  let h := if 0 <=? cmp m1 m2 then mod_op (mul (key_qi k) (sub m1 m2)) (key_p k)
           else mod_op (mul (key_qi k) (sub (key_p k) (mod_op (sub m2 m1) (key_p k)))) (key_p k) in
  canonical h /\ value h = (value (key_qi k) * (value m1 - value m2)) mod P.
Proof.
  intros H1 H2. cbv zeta. rewrite cmp_ge by done. destruct Hk.
  assert (HP : 0 < P) by lia. destruct (Z.leb_spec (value m2) (value m1)) as [Hle | Hlt].
  - destruct (sub_spec m1 m2 H1 (proj1 H2) Hle) as [Hs Vs].
    destruct (mul_spec (key_qi k) (sub m1 m2) (proj1 valid_qi0) (proj1 Hs) (or_introl valid_qi0)) as [Hm Vm].
    destruct (mod_op_spec _ (key_p k) (proj1 Hm) valid_p0 HP) as [Hh ->]. by rewrite Vm, Vs.
  - destruct (sub_spec m2 m1 H2 (proj1 H1) ltac:(lia)) as [Hs Vs].
    destruct (mod_op_spec _ (key_p k) (proj1 Hs) valid_p0 HP) as [Hr Vr]. rewrite Vs in Vr.
    pose proof (Z.mod_pos_bound (value m2 - value m1) P HP) as Hb.
    destruct (sub_spec (key_p k) (mod_op (sub m2 m1) (key_p k)) valid_p0 (proj1 Hr) ltac:(lia)) as [Hd Vd].
    destruct (mul_spec (key_qi k) _ (proj1 valid_qi0) (proj1 Hd) (or_introl valid_qi0)) as [Hm Vm].
    destruct (mod_op_spec _ (key_p k) (proj1 Hm) valid_p0 HP) as [Hh ->]. split; [done |].
    rewrite Vm, Vd, Vr, <- Zmult_mod_idemp_r, sub_mod_neg, Zmult_mod_idemp_r by lia. f_equal. ring.
Qed.

Lemma crt_recombine x h m1 m2 : m1 = x mod P -> m2 = x mod Q ->
  h = (value (key_qi k) * (m1 - m2)) mod P -> m2 + h * Q = x mod N.
Proof.
  intros E1 E2 Eh. destruct Hk. pose proof (Z.mod_pos_bound x Q ltac:(lia)) as Hb2.
  pose proof (Z.mod_pos_bound (value (key_qi k) * (m1 - m2)) P ltac:(lia)) as Hbh. rewrite <- Eh in Hbh.
  rewrite n_product0, <- (Z.mod_small (m2 + h * Q) (P * Q)) by nia.
  apply crt_unique; [done .. | |].
  - rewrite Eh, <- Zplus_mod_idemp_r, Zmult_mod_idemp_l.
    replace (value (key_qi k) * (m1 - m2) * Q) with (value (key_qi k) * Q * (m1 - m2)) by ring.
    rewrite <- Zmult_mod_idemp_l, qi_inverse0, Z.mul_1_l, Zplus_mod_idemp_r.
    replace (m2 + (m1 - m2)) with m1 by ring. by rewrite E1, Z.mod_mod by lia.
  - rewrite Z.mod_add by lia. by rewrite E2, Z.mod_mod by lia.
Qed.

Lemma decrypt_spec ciphertext : Forall byte_ty ciphertext ->
  decrypt k ciphertext =
  Ret (pkcs1v15_unpad (be_bytes (byte_len (key_n k)) (from_be ciphertext ^ D mod N))).
Proof.
  intros Hc. destruct (from_bytes_spec ciphertext Hc) as (Hw & Hv & _). pose proof (n_pos k Hk) as HN.
  pose proof (reduced_exp_pos P Q (value (key_e k)) D) as Hdp.
  pose proof (reduced_exp_pos Q P (value (key_e k)) D) as Hdq. rewrite (Z.mul_comm (Q - 1)) in Hdq.
  unfold decrypt. destruct Hk.
  destruct (mod_exp_spec (from_bytes ciphertext) (key_dp k) (key_p k) Hw valid_dp0 valid_p0 ltac:(lia))
    as (m1 & -> & Hm1 & Vm1).
  destruct (mod_exp_spec (from_bytes ciphertext) (key_dq k) (key_q k) Hw valid_dq0 valid_q0 ltac:(lia))
    as (m2 & -> & Hm2 & Vm2).
  cbn [mbind outcome_bind]. specialize (Hdp p_odd0 q_odd0 d_pos0 ed_inverse0).
  specialize (Hdq q_odd0 p_odd0 d_pos0 ed_inverse0).
  rewrite dp_value0, (proj2 (Z.eqb_neq _ 0)), Hv, reduce_exp in Vm1 by (done || lia).
  rewrite dq_value0, (proj2 (Z.eqb_neq _ 0)), Hv, reduce_exp in Vm2 by (done || lia).
  destruct (crt_coefficient m1 m2 Hm1 Hm2) as [Hh Vh]. cbv zeta in Hh, Vh.
  set (h := if 0 <=? cmp m1 m2 then _ else _) in *.
  destruct (mul_spec h (key_q k) (proj1 Hh) (proj1 valid_q0) (or_introl Hh)) as [Hhq Vhq].
  destruct (add_spec m2 (mul h (key_q k)) (proj1 Hm2) (proj1 Hhq)) as [Hm Vm].
  assert (Em : value (add m2 (mul h (key_q k))) = from_be ciphertext ^ D mod N).
  { rewrite Vm, Vhq. by apply (crt_recombine _ _ (value m1)). }
  pose proof (Z.mod_pos_bound (from_be ciphertext ^ D) N HN) as Hb.
  rewrite (to_bytes_spec _ (byte_len (key_n k))), Em; [done | done | |].
  - apply (byte_len_spec _ valid_n0).
  - rewrite Em. destruct (byte_len_spec _ valid_n0) as (_ & Hn & _). split; lia.
Qed.

End Decrypt.

(** ** Encryption padding *)

Section Padding.
  Context (rng : nat -> Z) (fuel : nat).
  Context (rng_ty : forall i, byte_ty (rng i)).
  Context (rng_live : forall i, exists j, (j < fuel)%nat /\ rng (i + j)%nat <> 0).

Lemma nonzero_byte_spec f pos : (exists j, (j < f)%nat /\ rng (pos + j)%nat <> 0) ->
  exists b pos', nonzero_byte rng f pos = Ret (b, pos') /\ b <> 0 /\ byte_ty b.
Proof.
  revert pos. induction f as [| f IH]; intros pos (j & Hj & Hr); [lia |].
  cbn [nonzero_byte]. unfold mbind, draw_bind, fill. cbn [seq fmap list_fmap hd0].
  destruct (Z.eqb_spec (rng pos) 0) as [E | Hne]; [| by exists (rng pos), (pos + 1)%nat].
  destruct j as [| j]; [by rewrite Nat.add_0_r, E in Hr |].
  apply IH. exists j. split; [lia |]. by replace (pos + 1 + j)%nat with (pos + S j)%nat by lia.
Qed.

Lemma padding_bytes_spec n pos :
  exists l pos', padding_bytes rng fuel n pos = Ret (l, pos') /\ length l = n /\
    Forall byte_ty l /\ Forall (fun b => b <> 0) l.
Proof.
  revert pos. induction n as [| n IH]; intros pos; [by exists [], pos |].
  cbn [padding_bytes]. unfold mbind, draw_bind.
  destruct (nonzero_byte_spec fuel pos (rng_live pos)) as (b & pos1 & -> & Hb & Hbt).
  destruct (IH pos1) as (l & pos2 & -> & Hl & Hlt & Hln).
  exists (b :: l), pos2. split; [done |]. split; [by cbn; rewrite Hl |]. by split; constructor.
Qed.

Lemma unpad_padded padding data : Forall (fun b => b <> 0) padding ->
  pkcs1v15_unpad (0x02 :: padding ++ 0x00 :: data) = data.
Proof.
  intros Hp. assert (Epos : position (fun byte => byte =? 0) (padding ++ 0 :: data) = Some (length padding)).
  { induction Hp as [| b padding Hb _ IH]; [done |]. cbn [app position].
    by rewrite (proj2 (Z.eqb_neq b 0) Hb), IH. }
  unfold pkcs1v15_unpad. destruct (padding ++ 0 :: data) as [| b l] eqn:E; [by destruct padding |].
  cbn [Z.eqb negb Pos.eqb]. rewrite Epos. cbn [Nat.add drop]. 
  assert (El : l = drop 1 (padding ++ 0 :: data)) by (by rewrite E). rewrite El, drop_drop.
  replace (1 + length padding)%nat with (length padding + 1)%nat by lia.
  rewrite <- drop_drop, drop_app_length. done.
Qed.

Lemma decrypt_encrypt k data pos : valid_key k -> Forall byte_ty data ->
  (length data + 3 <= byte_len (key_n k))%nat ->
  exists ct pos', encrypt rng fuel (public_key k) data pos = Ret (ct, pos') /\ decrypt k ct = Ret data.
Proof.
  intros Hk Hd Hlen. unfold encrypt, pkcs1v15_encrypt_pad, checked_sub, public_key. cbn [pub_n pub_e].
  rewrite !(proj2 (Nat.leb_le _ _)) by lia. unfold mbind, draw_bind, mret, draw_ret.
  set (n := (byte_len (key_n k) - length data - 3)%nat).
  destruct (padding_bytes_spec n pos) as (padding & pos1 & -> & Hl & Ht & Hnz).
  set (tail := 0x02 :: padding ++ 0x00 :: data).
  assert (Htail : Forall byte_ty tail).
  { constructor; [done |]. apply Forall_app_2; [done |]. by constructor. }
  assert (Hlen' : S (length tail) = byte_len (key_n k)).
  { unfold tail. cbn [length]. rewrite length_app, Hl. cbn [length]. unfold n. lia. }
  pose proof (encoded_bound k Hk tail Htail Hlen') as Hlt.
  assert (Hem : Forall byte_ty (0 :: tail)) by (by constructor).
  destruct (from_bytes_spec (0 :: tail) Hem) as (Hw & Hv & _).
  destruct (power_n k Hk _ (key_e k) Hw (valid_e k Hk) (e_pos k Hk)) as (c & Ec & Hc & Vc).
  unfold lift. rewrite Ec. eexists _, pos1. split; [reflexivity |].
  assert (Hcb : 0 <= value c < value (key_n k)) by (rewrite Vc; apply Z.mod_pos_bound; by apply n_pos).
  pose proof (below_n k Hk _ Hcb) as Hcu. pose proof (byte_len_pos k Hk) as Hbl.
  rewrite (to_bytes_spec c (byte_len (key_n k))) by done.
  destruct (be_bytes_value _ _ Hcu) as [Ev Hbt]. rewrite (decrypt_spec k Hk) by done.
  rewrite Ev, Vc, Hv, (there_and_back k Hk) by (done || by left).
  rewrite be_bytes_of by (split; [done | done]). unfold tail. rewrite trim_rev_zero by done.
  by rewrite unpad_padded.
Qed.

End Padding.

(** ** The mask of PSS *)

Lemma sha256_len m : length (Hash.sha256 m) = 32%nat.
Proof.
  unfold Hash.sha256, Hash.digest. rewrite (@Hash.hash_update Hash.Sha256 Hash.sha256_laws m).
  apply Hash.length_sha256.
Qed.

Lemma concat_to_be_bytes n l : Forall byte_ty (concat (to_be n <$> l)).
Proof.
  induction l as [| x l IH]; [constructor |]. rewrite fmap_cons. cbn [concat].
  apply Forall_app_2; [apply to_be_bytes | done].
Qed.

Lemma sha256_bytes m : Forall byte_ty (Hash.sha256 m).
Proof.
  unfold Hash.sha256, Hash.digest. rewrite (@Hash.hash_update Hash.Sha256 Hash.sha256_laws m).
  unfold Hash.hash_spec. cbn [Hash.output Hash.Sha256]. apply concat_to_be_bytes.
Qed.

Lemma xor_bytes_zero_l n b : (n <= length b)%nat -> xor_bytes (replicate n 0) b = take n b.
Proof.
  revert b. induction n as [| n IH]; intros b Hb; [done |]. destruct b as [| x b]; [simpl in Hb; lia |].
  cbn [replicate xor_bytes zip_with take]. f_equal. apply IH. simpl in Hb. lia.
Qed.

Lemma xor_bytes_take a b n : (length a <= n)%nat -> xor_bytes a (take n b) = xor_bytes a b.
Proof.
  revert b n. induction a as [| x a IH]; intros b n Hn; [done |].
  destruct n as [| n]; [simpl in Hn; lia |]. destruct b as [| y b]; [done |].
  cbn [take xor_bytes zip_with]. f_equal. apply IH. simpl in Hn. lia.
Qed.

(** The mask that [mgf1_sha256] combines with [n] bytes: what it makes of zeros. *)
Definition mgf_fold (seed mask : list Z) (counter : Z) : list Z :=
  fst (fold_left (mgf1_chunk seed) (chunks 32 mask) ([], counter)).

Lemma mgf_acc seed l acc counter :
  fst (fold_left (mgf1_chunk seed) l (acc, counter)) = acc ++ fst (fold_left (mgf1_chunk seed) l ([], counter)).
Proof.
  revert acc counter. induction l as [| c l IH]; intros acc counter; [by rewrite app_nil_r |].
  cbn [fold_left mgf1_chunk app]. rewrite IH, (IH (xor_bytes _ _)). by rewrite app_assoc.
Qed.

Lemma mgf_fold_short seed l counter : l <> [] -> (length l <= 32)%nat ->
  mgf_fold seed l counter = xor_bytes l (Hash.sha256 (seed ++ to_be 4 counter)).
Proof. intros Hl Hn. unfold mgf_fold. by rewrite chunks_short. Qed.

Lemma mgf_fold_app seed a l counter : length a = 32%nat ->
  mgf_fold seed (a ++ l) counter =
  xor_bytes a (Hash.sha256 (seed ++ to_be 4 counter)) ++ mgf_fold seed l (counter +[32] 1).
Proof.
  intros Ha. unfold mgf_fold. rewrite chunks_app by (done || lia). cbn [fold_left mgf1_chunk app].
  by rewrite mgf_acc.
Qed.

Lemma mgf_mask seed mask counter :
  mgf_fold seed mask counter = xor_bytes mask (mgf_fold seed (replicate (length mask) 0) counter) /\
  length (mgf_fold seed mask counter) = length mask.
Proof.
  revert mask counter. refine (chunks_ind 32 _ ltac:(lia) _ _ _).
  - done.
  - intros l Hne Hl counter.
    assert (Hr : replicate (length l) 0 <> []) by (by destruct l).
    rewrite !mgf_fold_short by (rewrite ?length_replicate; done || lia).
    rewrite xor_bytes_zero_l, xor_bytes_take by (rewrite ?sha256_len; lia).
    split; [done |]. apply length_xor_bytes. rewrite sha256_len. lia.
  - intros a l Ha IH counter. rewrite length_app, Ha, replicate_add, !mgf_fold_app
      by (done || apply length_replicate).
    destruct (IH (counter +[32] 1)) as [E El].
    rewrite xor_bytes_zero_l by (by rewrite sha256_len).
    rewrite xor_bytes_app by (rewrite length_take, sha256_len; lia).
    rewrite xor_bytes_take, <- E by lia. split; [done |].
    rewrite length_app, El, length_xor_bytes by (rewrite sha256_len; lia). lia.
Qed.

Lemma mgf1_spec seed mask :
  length (mgf1_sha256 seed mask) = length mask /\
  exists g, length g = length mask /\ forall m, length m = length mask -> mgf1_sha256 seed m = xor_bytes m g.
Proof.
  split; [exact (proj2 (mgf_mask seed mask 0)) |]. exists (mgf_fold seed (replicate (length mask) 0) 0). split.
  - rewrite (proj2 (mgf_mask seed _ 0)). apply length_replicate.
  - intros m Hm. rewrite <- Hm. exact (proj1 (mgf_mask seed m 0)).
Qed.

Lemma mgf1_bytes seed mask : Forall byte_ty mask -> Forall byte_ty (mgf1_sha256 seed mask).
Proof.
  change (mgf1_sha256 seed mask) with (mgf_fold seed mask 0). generalize 0. revert mask.
  refine (chunks_ind 32 _ ltac:(lia) _ _ _).
  - intros c _. constructor.
  - intros l Hne Hl c Ht. rewrite mgf_fold_short by (done || lia). apply xor_bytes_ty; [done | apply sha256_bytes].
  - intros a l Ha IH c Ht. apply Forall_app in Ht as [Hta Htl]. rewrite mgf_fold_app by done.
    apply Forall_app_2; [apply xor_bytes_ty; [done | apply sha256_bytes] | by apply IH].
Qed.

(** Masking twice around the same bits: the first byte of the data block comes back. *)
Lemma mask_cancel d g m : Z.land (Z.lxor (Z.land (Z.lxor d g) m) g) m = Z.land d m.
Proof.
  apply Z.bits_inj'. intros i _. rewrite !Z.land_spec, !Z.lxor_spec, !Z.land_spec, !Z.lxor_spec.
  by destruct (Z.testbit d i), (Z.testbit g i), (Z.testbit m i).
Qed.

Lemma mask_first_cancel db g m : length g = length db -> Z.land (hd0 db) m = hd0 db ->
  mask_first (xor_bytes (mask_first (xor_bytes db g) m) g) m = db.
Proof.
  destruct db as [| d db], g as [| x g]; intros Hl Hm; try done.
  unfold mask_first. cbn [xor_bytes zip_with alter list_alter hd0] in *.
  rewrite mask_cancel, Hm. f_equal. apply xor_bytes_cancel. simpl in Hl. lia.
Qed.

Lemma mask_first_app a b m : a <> [] -> mask_first (a ++ b) m = mask_first a m ++ b.
Proof. by destruct a. Qed.

Lemma length_mask_first l m : length (mask_first l m) = length l.
Proof. apply length_alter. Qed.

Lemma padding_mask_ty n : byte_ty (padding_mask n).
Proof.
  unfold padding_mask. destruct (Nat.ltb_spec n 8); [| done].
  do 8 (destruct n as [| n]; [done |]). lia.
Qed.

Lemma mask_first_bytes l n : Forall byte_ty l -> Forall byte_ty (mask_first l (padding_mask n)).
Proof.
  intros Hl. destruct Hl as [| b l Hb Hl]; [constructor |]. constructor; [| done].
  apply u_ty_land; [lia | done | apply padding_mask_ty].
Qed.

(** The masked first byte keeps the number below the modulus. *)
Lemma mask_first_value b l n : (1 <= n <= 7)%nat -> byte_ty b -> Forall byte_ty l ->
  0 <= from_be (mask_first (b :: l) (padding_mask n)) < 2 ^ (8 * Z.of_nat (S (length l)) - Z.of_nat n).
Proof.
  intros Hn Hb Hl. pose proof (from_be_ty l Hl) as [H0 H1].
  unfold mask_first. cbn [alter list_alter].
  change (Z.land b (padding_mask n) :: l) with ([Z.land b (padding_mask n)] ++ l).
  rewrite from_be_app. cbn [from_be rev app from_le].
  assert (Hm : 0 <= Z.land b (padding_mask n) < 2 ^ (8 - Z.of_nat n)).
  { unfold padding_mask. rewrite (proj2 (Nat.ltb_lt n 8)) by lia.
    assert (Eo : Z.shiftr 255 (Z.of_nat n) = Z.ones (8 - Z.of_nat n)).
    { do 8 (destruct n as [| n]; [reflexivity |]). lia. }
    rewrite Eo, Z.land_ones by lia. apply Z.mod_pos_bound. lia. }
  replace (8 * Z.of_nat (S (length l)) - Z.of_nat n) with (8 - Z.of_nat n + 8 * Z.of_nat (length l)) by lia.
  rewrite Z.pow_add_r by lia. nia.
Qed.

Section Pss.
  Context (rng : nat -> Z) (rng_ty : forall i, byte_ty (rng i)).

(** What the encoder produces. *)
Lemma pss_encode_ok digest n bits salt_len pos em pos' :
  pss_encode rng digest n bits salt_len pos = Ret (Ok em, pos') ->
  exists salt, salt = rng <$> seq pos salt_len /\ length digest = 32%nat /\ (salt_len + 34 <= n)%nat /\
    (n * 8 - (bits - 1) < 8)%nat /\
    let h := Hash.sha256 (replicate 8 0 ++ digest ++ salt) in
    let db := replicate (n - 33 - salt_len - 1) 0 ++ 0x01 :: salt in
    em = mask_first (mgf1_sha256 h db) (padding_mask (n * 8 - (bits - 1))) ++ h ++ [0xbc].
Proof.
  unfold pss_encode, checked_sub, mbind, draw_bind, option_bind, mret, draw_ret, fill.
  destruct (Nat.eqb_spec (length digest) 32) as [Hd | _]; cbn [negb]; [| done]. rewrite Hd.
  destruct (Nat.leb_spec 32 n) as [H32 | _]; [| done].
  destruct (Nat.leb_spec 1 (n - 32)) as [H1 | _]; [| done].
  destruct (Nat.ltb_spec n (salt_len + 32 + 2)) as [_ | Hs]; [done |].
  destruct (Nat.leb_spec 1 bits) as [Hb | _]; [| done].
  destruct (Nat.leb_spec 8 (n * 8 - (bits - 1))) as [_ | Hp]; [done |]. intros [= <- _].
  eexists. split; [reflexivity |]. split; [done |]. split; [lia |]. split; [done |]. cbv zeta.
  replace (n - 33 - salt_len - 1)%nat with (n - 32 - 1 - salt_len - 1)%nat by lia.
  apply mask_first_app. intros E. apply (f_equal length) in E.
  rewrite (proj1 (mgf1_spec _ _)), length_app in E. cbn [length] in E. lia.
Qed.

Lemma idx_app_r a b i : (length a <= i)%nat -> idx (a ++ b) i = idx b (i - length a).
Proof. intros H. unfold idx. by rewrite app_nth2. Qed.

Lemma existsb_zeros n : existsb (fun byte => negb (byte =? 0)) (replicate n 0) = false.
Proof. by induction n. Qed.

Lemma pss_verify_encoded digest n bits salt_len pos em pos' :
  pss_encode rng digest n bits salt_len pos = Ret (Ok em, pos') -> Forall byte_ty digest ->
  (bits <= n * 8)%nat -> (0 < bits)%nat ->
  block_ty n em /\ 0 <= from_be em < 2 ^ (Z.of_nat bits - 1) /\
  pss_verify (trim_rev em) digest n bits salt_len = true.
Proof.
  intros Henc Hdt Hbits Hbpos.
  destruct (pss_encode_ok _ _ _ _ _ _ _ Henc) as (salt & Esalt & Hd & Hn & Hpb & Eem). cbv zeta in Eem.
  set (h := Hash.sha256 (replicate 8 0 ++ digest ++ salt)) in *.
  set (db := replicate (n - 33 - salt_len - 1) 0 ++ 0x01 :: salt) in *.
  set (pb := (n * 8 - (bits - 1))%nat) in *. set (m := padding_mask pb) in *.
  assert (Hls : length salt = salt_len) by (rewrite Esalt, length_fmap; apply length_seq).
  assert (Hst : Forall byte_ty salt) by (rewrite Esalt; apply Forall_fmap, Forall_true; intros; apply rng_ty).
  assert (Hldb : length db = (n - 33)%nat).
  { unfold db. rewrite length_app, length_replicate. cbn [length]. lia. }
  assert (Hdbt : Forall byte_ty db).
  { apply Forall_app_2; [by apply replicate_bytes | by constructor]. }
  assert (Hh : length h = 32%nat) by apply sha256_len.
  destruct (mgf1_spec h db) as [Hlm (g & Hlg & Hg)].
  set (A := mask_first (mgf1_sha256 h db) m) in *.
  assert (HlA : length A = (n - 33)%nat) by (unfold A; rewrite length_mask_first, Hlm; done).
  assert (Hlem : length em = n) by (rewrite Eem, !length_app, HlA, Hh; cbn [length]; lia).
  assert (HmA : mgf1_sha256 h db <> []) by (intros E; rewrite E in Hlm; simpl in Hlm; lia).
  assert (Hemt : Forall byte_ty em).
  { rewrite Eem. apply Forall_app_2; [by apply mask_first_bytes, mgf1_bytes |].
    apply Forall_app_2; [apply sha256_bytes | by apply Forall_singleton]. }
  split; [done |]. split.
  { rewrite Eem. unfold A. rewrite <- mask_first_app by done.
    pose proof (mgf1_bytes h db Hdbt) as Hmb. destruct (mgf1_sha256 h db) as [| b l] eqn:El; [done |].
    apply Forall_cons in Hmb as [Hb Hl]. cbn [app].
    pose proof (mask_first_value b (l ++ h ++ [188]) pb ltac:(lia) Hb) as Hv.
    rewrite !length_app, Hh in Hv. cbn [length] in Hv, Hlm.
    replace (Z.of_nat bits - 1) with (8 * Z.of_nat (S (length l + (32 + 1))) - Z.of_nat pb) by lia.
    apply Hv. apply Forall_app_2; [done |]. apply Forall_app_2; [apply sha256_bytes | by apply Forall_singleton]. }
  unfold pss_verify. rewrite Hd. cbn [Nat.eqb negb orb].
  rewrite (proj2 (Nat.ltb_ge n (salt_len + 32 + 2))) by lia.
  pose proof (length_trim_rev em) as Hlt. rewrite (proj2 (Nat.ltb_ge n (length (trim_rev em)))) by lia.
  pose proof (pad_trim em) as Hpad. rewrite Hlem in Hpad. rewrite Hpad. fold pb. fold m.
  assert (E0 : Z.land (idx em 0) (wnot 8 m) = 0).
  { rewrite Eem. unfold A. destruct (mgf1_sha256 h db) as [| b l]; [done |].
    cbn [mask_first alter list_alter app idx nth]. apply land_0_bits. intros i Hi.
    rewrite wnot_testbit, Z.land_spec by lia. by destruct (Z.testbit m i), (Z.testbit b i), (i <? 8). }
  assert (Elast : idx em (n - 1) = 0xbc).
  { rewrite Eem, app_assoc, idx_app_r by (rewrite length_app; lia).
    rewrite length_app, HlA, Hh. by replace (n - 1 - (n - 33 + 32))%nat with 0%nat by lia. }
  rewrite E0, Elast. cbn [Z.eqb negb orb Pos.eqb].
  replace (n - 32 - 1)%nat with (n - 33)%nat by lia.
  assert (EA : take (n - 33) em = A) by (rewrite Eem; by apply take_app_length').
  assert (Eh : take (n - 1 - (n - 33)) (drop (n - 33) em) = h).
  { rewrite Eem, drop_app_length' by done. replace (n - 1 - (n - 33))%nat with 32%nat by lia.
    by apply take_app_length'. }
  rewrite EA, Eh, (Hg A) by lia.
  assert (Edb : mask_first (xor_bytes A g) m = db).
  { unfold A. rewrite (Hg db) by done. apply mask_first_cancel; [done |].
    assert (Hodd : Z.land 1 m = 1).
    { assert (Hpr : (1 <= pb <= 7)%nat) by lia. unfold m. clear -Hpr. revert Hpr. generalize pb. intros c Hc.
      do 8 (destruct c as [| c]; [lia || reflexivity |]). lia. }
    unfold db. destruct (n - 33 - salt_len - 1)%nat; [exact Hodd | done]. }
  rewrite Edb, Hldb, (proj2 (Nat.ltb_ge (n - 33) (salt_len + 1))) by lia.
  assert (E1 : idx db (n - 33 - salt_len - 1) = 1).
  { unfold db. rewrite idx_app_r by (rewrite length_replicate; lia). by rewrite length_replicate, Nat.sub_diag. }
  rewrite E1. cbn [Z.eqb negb Pos.eqb].
  assert (Ez : take (n - 33 - salt_len - 1) db = replicate (n - 33 - salt_len - 1) 0)
    by (unfold db; apply take_app_length'; by rewrite length_replicate).
  rewrite Ez, existsb_zeros.
  assert (Es : drop (n - 33 - salt_len) db = salt).
  { unfold db. change (1 :: salt) with ([1] ++ salt). rewrite app_assoc. apply drop_app_length'.
    rewrite length_app, length_replicate. cbn [length]. lia. }
  rewrite Es. fold h. by apply bool_decide_eq_true.
Qed.

Lemma sign_verify_pss k digest salt_len pos em pos' :
  valid_key k -> Forall byte_ty digest ->
  pss_encode rng digest (byte_len (key_n k)) (bit_len (key_n k)) salt_len pos = Ret (Ok em, pos') ->
  exists sig, sign_pss rng k digest salt_len pos = Ret (Ok sig, pos') /\ length sig = byte_len (key_n k) /\
    verify_pss (public_key k) digest sig salt_len = Ret true.
Proof.
  intros Hk Hd Henc. pose proof (n_pos k Hk) as HN. pose proof (valid_n k Hk) as Hn.
  pose proof (bit_len_spec (key_n k) (proj1 Hn)) as Hbits. rewrite (proj2 (Z.eqb_neq _ 0)) in Hbits by lia.
  pose proof (Z.log2_spec _ HN) as [Hlow _]. pose proof (Z.log2_nonneg (value (key_n k))).
  assert (Hle : (bit_len (key_n k) <= byte_len (key_n k) * 8)%nat).
  { apply bit_len_le; [apply Hn |]. destruct (byte_len_spec _ Hn) as (_ & Hb & _).
    rewrite Nat2Z.inj_mul, Z.mul_comm. exact Hb. }
  destruct (pss_verify_encoded _ _ _ _ _ _ _ Henc Hd Hle ltac:(lia)) as (Hem & Hlt & Hver).
  assert (HltN : 0 <= from_be em < value (key_n k)).
  { rewrite Hbits in Hlt. replace (Z.log2 (value (key_n k)) + 1 - 1) with (Z.log2 (value (key_n k))) in Hlt by lia.
    lia. }
  destruct (sign_recover k Hk em Hem HltN) as (s & Es & Hs & Hsb & m & Em & Hm).
  unfold sign_pss, mbind, draw_bind, lift, mret, draw_ret. rewrite Henc, Es.
  eexists. split; [reflexivity |].
  assert (Hlen : length (to_bytes_padded s (byte_len (key_n k))) = byte_len (key_n k)).
  { rewrite to_bytes_padded_spec; [apply length_to_be | done | by apply byte_len_pos | by apply below_n]. }
  split; [done |]. unfold verify_pss, public_key. cbn [pub_n pub_e]. rewrite Hlen, Nat.eqb_refl. cbn [negb].
  rewrite Em. cbn [outcome_bind mbind]. by rewrite Hm, Hver.
Qed.

End Pss.

(** ** Generated keys *)

Lemma key_of_valid p q : canonical p -> canonical q -> prime (value p) -> prime (value q) ->
  value p <> value q -> 2 < value p -> 2 < value q ->
  Z.gcd 65537 ((value p - 1) * (value q - 1)) = 1 ->
  exists k, key_of p q = Ret k /\ valid_key k /\ key_n k = mul p q.
Proof.
  intros Hp Hq Pp Pq Hne Hp2 Hq2 Hg. destruct (from_spec 1 ltac:(done)) as [C1 V1].
  destruct (from_spec 65537 ltac:(done)) as [Ce Ve].
  destruct (sub_spec p (from 1) Hp (proj1 C1) ltac:(lia)) as [Cp1 Vp1]. rewrite V1 in Vp1.
  destruct (sub_spec q (from 1) Hq (proj1 C1) ltac:(lia)) as [Cq1 Vq1]. rewrite V1 in Vq1.
  destruct (mul_spec _ _ (proj1 Cp1) (proj1 Cq1) (or_introl Cp1)) as [Cphi Vphi]. rewrite Vp1, Vq1 in Vphi.
  destruct (mul_spec _ _ (proj1 Hp) (proj1 Hq) (or_introl Hp)) as [Cn Vn].
  destruct (mod_inverse_spec (from 65537) _ Ce Cphi ltac:(nia)) as (d & Ed & Cd & Bd & Vd).
  rewrite Ve, Vphi, Hg in Vd.
  destruct (mod_inverse_spec q p Hq Hp ltac:(lia)) as (qi & Eqi & Cqi & Bqi & Vqi).
  destruct (mod_op_spec d _ (proj1 Cd) Cp1 ltac:(lia)) as [Cdp Vdp]. rewrite Vp1 in Vdp.
  destruct (mod_op_spec d _ (proj1 Cd) Cq1 ltac:(lia)) as [Cdq Vdq]. rewrite Vq1 in Vdq.
  unfold key_of. cbv zeta. rewrite Ed, Eqi. cbn [mbind outcome_bind]. eexists. split; [reflexivity |].
  split; [| done].
  assert (Hcop : Z.gcd (value q) (value p) = 1).
  { apply Zgcd_1_rel_prime, rel_prime_sym. apply prime_rel_prime; [done |]. intros Hdiv.
    apply Hne. by apply prime_div_prime. }
  rewrite Hcop, Z.mod_1_l in Vqi by lia.
  assert (Hmod : 1 < (value p - 1) * (value q - 1)) by nia.
  split; cbn [key_n key_e key_d key_p key_q key_dp key_dq key_qi]; rewrite ?Ve; try done; try lia.
  - assert (value d <> 0); [| lia]. intros E0. rewrite E0, Z.mul_0_l, Zmod_0_l, Z.mod_1_l in Vd by lia. lia.
  - by rewrite Z.mul_comm.
Qed.

(** ** The primality test *)

(** [a] is no witness against [n]: with [n - 1 = 2^r d], [d] odd, the sequence
    [a^d, a^(2d), .., a^(2^(r-1) d)] starts with 1 or meets [n - 1]. *)
Definition passes (n a : Z) : Prop := exists r d, 0 <= r /\ Z.odd d = true /\ n - 1 = 2 ^ r * d /\ 0 < d /\
  (a ^ d mod n = 1 \/ exists j, 0 <= j < r /\ a ^ (2 ^ j * d) mod n = n - 1).

(** A decomposition into a power of two and an odd number is unique. *)
Lemma odd_part_unique r d r' d' : 0 <= r -> 0 <= r' -> Z.odd d = true -> Z.odd d' = true ->
  2 ^ r * d = 2 ^ r' * d' -> r = r' /\ d = d'.
Proof.
  assert (Hlt : forall r d r' d', 0 <= r -> Z.odd d = true -> r < r' -> 2 ^ r * d = 2 ^ r' * d' -> False).
  { clear. intros r d r' d' Hr Hd Hlt E. replace r' with (r + (1 + (r' - r - 1))) in E by lia.
    rewrite !Z.pow_add_r, Z.pow_1_r, <- Z.mul_assoc in E by lia.
    apply Z.mul_cancel_l in E; [| apply Z.pow_nonzero; lia]. rewrite E, <- Z.mul_assoc, Z.odd_mul in Hd. done. }
  intros Hr Hr' Hd Hd' E. destruct (Z.lt_trichotomy r r') as [H | [-> | H]].
  - by destruct (Hlt r d r' d').
  - split; [done |]. apply Z.mul_cancel_l in E; [done | apply Z.pow_nonzero; lia].
  - by destruct (Hlt r' d' r d).
Qed.

Lemma prime_passes_at p a d r : prime p -> a mod p <> 0 -> 0 < d ->
  (a ^ (2 ^ Z.of_nat r * d) mod p = 1) ->
  a ^ d mod p = 1 \/ exists j, 0 <= j < Z.of_nat r /\ a ^ (2 ^ j * d) mod p = p - 1.
Proof.
  intros Hp Ha Hd. pose proof (prime_ge_2 p Hp). induction r as [| r IH]; intros H1.
  { left. by rewrite Z.mul_1_l in H1. }
  assert (Hsq : (a ^ (2 ^ Z.of_nat r * d) mod p * (a ^ (2 ^ Z.of_nat r * d) mod p)) mod p = 1).
  { rewrite <- Z.mul_mod, <- Z.pow_add_r by lia. rewrite <- H1. do 2 f_equal.
    rewrite Nat2Z.inj_succ, Z.pow_succ_r by lia. ring. }
  apply square_one in Hsq as [E | E]; [.. | done | by apply Z.mod_pos_bound; lia].
  - destruct (IH E) as [Hl | (j & Hj & Ej)]; [by left | right]. exists j. split; [lia | done].
  - right. exists (Z.of_nat r). split; [lia | done].
Qed.

Lemma prime_passes p a : prime p -> 2 < p -> a mod p <> 0 -> passes p a.
Proof.
  intros Hp H2 Ha.
  assert (Hdec : forall m, 0 < m -> exists r d, Z.odd d = true /\ m = 2 ^ Z.of_nat r * d /\ 0 < d).
  { clear. intros m Hm. assert (H0 : 0 <= m) by lia. revert Hm. pattern m. apply Z_lt_induction; [| done].
    clear m H0. intros m IH Hm. destruct (Z.odd m) eqn:E; [by exists 0%nat, m; rewrite Z.mul_1_l |].
    rewrite Zodd_even_bool in E. apply negb_false_iff, Z.even_spec in E as [h ->].
    destruct (IH h ltac:(lia) ltac:(lia)) as (r & d & Hd & E' & Hd0). exists (S r), d. split; [done |].
    split; [| done]. rewrite Nat2Z.inj_succ, Z.pow_succ_r, E' by lia. ring. }
  destruct (Hdec (p - 1) ltac:(lia)) as (r & d & Hd & E & Hd0).
  exists (Z.of_nat r), d. split; [lia |]. split; [done |]. split; [done |]. split; [done |].
  apply prime_passes_at; [done .. |]. rewrite <- E. by apply fermat.
Qed.

Lemma strip_twos_spec fuel d r : canonical d -> 0 < value d < 2 ^ Z.of_nat fuel -> 0 <= r ->
  r + Z.of_nat fuel < 2 ^ 32 ->
  exists d' j, strip_twos fuel d r = Ret (d', r + Z.of_nat j) /\ canonical d' /\
    Z.odd (value d') = true /\ value d = 2 ^ Z.of_nat j * value d' /\ (j <= fuel)%nat.
Proof.
  revert d r. induction fuel as [| fuel IH]; intros d r Hd Hv Hr Hw; [change (2 ^ Z.of_nat 0) with 1 in Hv; lia |].
  cbn [strip_twos]. pose proof (hd0_odd d (proj1 Hd)) as Ho.
  assert (El : (Z.land (hd0 (limbs d)) 1 =? 0) = negb (Z.odd (value d))).
  { rewrite <- Ho. change 1 with (Z.ones 1). rewrite Z.land_ones by lia.
    pose proof (Z.mod_pos_bound (hd0 (limbs d)) (2 ^ 1) ltac:(lia)).
    destruct (Z.eqb_spec (hd0 (limbs d) mod 2 ^ 1) 0), (Z.eqb_spec (hd0 (limbs d) mod 2 ^ 1) (Z.ones 1));
      try done; change (Z.ones 1) with 1 in *; lia. }
  rewrite El. destruct (Z.odd (value d)) eqn:E; cbn [negb].
  { exists d, 0%nat. rewrite Z.add_0_r, Z.mul_1_l. split; [done |]. split; [done |]. split; [done |]. split; [done | lia]. }
  destruct (shr1_spec d Hd) as [Hs Vs]. rewrite Zodd_even_bool in E.
  apply negb_false_iff, Z.even_spec in E as [h Eh].
  assert (Vs' : value (shr d 1) = h) by (rewrite Vs, Eh, Z.mul_comm; by apply Z.div_mul).
  rewrite Nat2Z.inj_succ, Z.pow_succ_r in Hv by lia.
  assert (Er : r +[32] 1 = r + 1) by (apply wrap_small; split; lia). rewrite Er.
  destruct (IH (shr d 1) (r + 1) Hs ltac:(lia) ltac:(lia) ltac:(lia)) as (d' & j & -> & Hd' & Ho' & Ev & Hj).
  exists d', (S j). split; [do 2 f_equal; lia |]. split; [done |]. split; [done |]. split; [| lia].
  rewrite Eh, <- Vs', Ev, Nat2Z.inj_succ, Z.pow_succ_r by lia. ring.
Qed.

Lemma square_loop_spec j n m x : canonical n -> 2 < value n -> canonical m -> value m = value n - 1 ->
  canonical x ->
  square_loop j n m x = true <-> exists i, 1 <= i <= Z.of_nat j /\ value x ^ (2 ^ i) mod value n = value n - 1.
Proof.
  intros Hn H2 Hm Vm. revert x. induction j as [| j IH]; intros x Hx; cbn [square_loop].
  { split; [done |]. intros (i & Hi & _). lia. }
  destruct (mul_spec x x (proj1 Hx) (proj1 Hx) (or_introl Hx)) as [Hxx Vxx].
  destruct (mod_op_spec (mul x x) n (proj1 Hxx) Hn ltac:(lia)) as [Hy Vy]. rewrite Vxx in Vy.
  rewrite cmp_spec, Vm by done. set (y := mod_op (mul x x) n) in *.
  assert (Hpow : forall i, 0 <= i -> value y ^ (2 ^ i) mod value n = value x ^ (2 ^ (i + 1)) mod value n).
  { intros i Hi. rewrite Vy, <- Zpower_mod by lia. f_equal.
    rewrite <- Z.pow_2_r, <- Z.pow_mul_r, Z.pow_add_r by lia. f_equal. ring. }
  destruct (Z.compare_spec (value y) (value n - 1)) as [E | Hlt | Hlt]; cbn [Z.eqb].
  - split; [intros _ | done]. exists 1. split; [lia |]. by rewrite Z.pow_1_r, Z.pow_2_r, <- Vy.
  - rewrite (IH y Hy). split; intros (i & Hi & Ei).
    + exists (i + 1). split; [lia |]. by rewrite <- Hpow by lia.
    + destruct (Z.eq_dec i 1) as [-> | Hi1].
      { rewrite Z.pow_1_r, Z.pow_2_r, <- Vy in Ei. lia. }
      exists (i - 1). split; [lia |]. rewrite Hpow by lia. by replace (i - 1 + 1) with i by lia.
  - pose proof (Z.mod_pos_bound (value x * value x) (value n) ltac:(lia)). lia.
Qed.

Lemma passes_at n a r d : 0 <= r -> Z.odd d = true -> n - 1 = 2 ^ r * d -> 0 < d ->
  passes n a <-> a ^ d mod n = 1 \/ exists j, 0 <= j < r /\ a ^ (2 ^ j * d) mod n = n - 1.
Proof.
  intros Hr Hd E Hd0. split; [| by intros H; exists r, d].
  intros (r' & d' & Hr' & Hd' & E' & _ & H).
  destruct (odd_part_unique r d r' d') as [-> ->]; [done .. | by rewrite <- E, <- E' | done].
Qed.

Section Primality.
  Context (rng : nat -> Z) (rng_ty : forall i, byte_ty (rng i)).

(** The number drawn for round [i]. *)
Definition witness (n : BigUint) (pos i : nat) : Z :=
  from_be (rng <$> seq (pos + i * byte_len n) (byte_len n)) mod value n.

Lemma generate_witness_spec n pos : canonical n -> 0 < value n ->
  exists a, generate_witness rng n pos = Ret (a, (pos + byte_len n)%nat) /\ canonical a /\
    value a = witness n pos 0.
Proof.
  intros Hn H0. unfold generate_witness, mbind, draw_bind, fill, mret, draw_ret.
  assert (Hb : Forall byte_ty (rng <$> seq pos (byte_len n))) by (apply Forall_fmap, Forall_true; intros; apply rng_ty).
  destruct (from_bytes_spec _ Hb) as (Hw & Hv & _).
  destruct (mod_op_spec _ n Hw Hn H0) as [Ha Va]. eexists. split; [reflexivity |]. split; [done |].
  unfold witness. by rewrite Va, Hv, Nat.mul_0_l, Nat.add_0_r.
Qed.

Lemma witness_shift n pos i : witness n (pos + byte_len n) i = witness n pos (S i).
Proof. unfold witness. do 4 f_equal. lia. Qed.

(** One round: the sequence of squares against its specification. *)
Lemma round_passes n m d r x a : canonical n -> 2 < value n -> canonical m -> value m = value n - 1 ->
  Z.odd d = true -> 0 < d -> 1 <= r < 2 ^ 32 -> value n - 1 = 2 ^ r * d ->
  canonical x -> value x = a ^ d mod value n ->
  (cmp x (from 1) =? 0) || (cmp x m =? 0) || square_loop (Z.to_nat (r -[32] 1)) n m x = true <->
  passes (value n) a.
Proof.
  intros Hn H2 Hm Vm Hd Hd0 Hr E Hx Vx. destruct (from_spec 1 ltac:(done)) as [C1 V1].
  assert (Er : r -[32] 1 = r - 1) by (apply wrap_small; split; lia).
  assert (Heq : forall y, canonical y -> (cmp x y =? 0) = true <-> value x = value y).
  { intros y Hy. rewrite cmp_spec by done. destruct (Z.compare_spec (value x) (value y)); cbn [Z.eqb]; split; (done || lia). }
  rewrite !orb_true_iff, !Heq, square_loop_spec, Er, Z2Nat.id, V1, Vm, (passes_at _ _ r d) by (done || lia).
  assert (Hpow : forall i, 0 <= i -> value x ^ (2 ^ i) mod value n = a ^ (2 ^ i * d) mod value n).
  { intros i Hi. rewrite Vx, <- Zpower_mod, <- Z.pow_mul_r by lia. f_equal. f_equal. ring. }
  rewrite <- Vx. split.
  - intros [[H1 | H1] | (i & Hi & Ei)]; [by left | right ..].
    + exists 0. split; [lia |]. rewrite <- Hpow, Z.pow_0_r, Z.pow_1_r by lia. rewrite H1. apply Z.mod_small. lia.
    + exists i. split; [lia |]. by rewrite <- Hpow by lia.
  - intros [H1 | (j & Hj & Ej)]; [by left; left |]. rewrite <- Hpow in Ej by lia.
    destruct (Z.eq_dec j 0) as [-> | Hj0]; [left; right | right; exists j; split; [lia | done]].
    rewrite Z.pow_0_r, Z.pow_1_r, Z.mod_small in Ej; [done |]. rewrite Vx. apply Z.mod_pos_bound. lia.
Qed.

Lemma witness_rounds_spec rounds n m d r pos : canonical n -> 2 < value n -> canonical m ->
  value m = value n - 1 -> canonical d -> Z.odd (value d) = true -> 0 < value d -> 1 <= r < 2 ^ 32 ->
  value n - 1 = 2 ^ r * value d ->
  exists v pos', witness_rounds rng rounds n m d r pos = Ret (v, pos') /\
    (v = true <-> forall i, (i < rounds)%nat -> passes (value n) (witness n pos i)) /\
    (v = true -> pos' = (pos + rounds * byte_len n)%nat).
Proof.
  intros Hn H2 Hm Vm Hd Hodd Hd0 Hr E. revert pos. induction rounds as [| rounds IH]; intros pos.
  { exists true, pos. split; [done |]. split; [split; [intros _ i Hi; lia | done] | intros _; lia]. }
  cbn [witness_rounds]. unfold mbind, draw_bind, lift.
  destruct (generate_witness_spec n pos Hn ltac:(lia)) as (a & -> & Ha & Va).
  destruct (mod_exp_spec a d n (proj1 Ha) Hd Hn ltac:(lia)) as (x & -> & Hx & Vx).
  rewrite (proj2 (Z.eqb_neq _ 0)), Va in Vx by lia.
  pose proof (round_passes n m (value d) r x _ Hn H2 Hm Vm Hodd Hd0 Hr E Hx Vx) as Hround.
  destruct (IH (pos + byte_len n)%nat) as (v & pos' & Ev & Hv & Hpos).
  assert (Hgo : (exists v pos', witness_rounds rng rounds n m d r (pos + byte_len n)%nat = Ret (v, pos') /\
     (passes (value n) (witness n pos 0) ->
      (v = true <-> forall i, (i < S rounds)%nat -> passes (value n) (witness n pos i)) /\
      (v = true -> pos' = (pos + S rounds * byte_len n)%nat)))).
  { exists v, pos'. split; [done |]. intros H0. split; [| intros Ht; rewrite (Hpos Ht); lia]. rewrite Hv. split; intros H i Hi.
    - destruct i as [| i]; [done |]. rewrite <- witness_shift. apply H. lia.
    - rewrite witness_shift. apply H. lia. }
  destruct Hgo as (v' & pos'' & Ego & Hgo).
  destruct ((cmp x (from 1) =? 0) || (cmp x m =? 0)); cbn [orb] in Hround.
  { exists v', pos''. split; [exact Ego |]. apply Hgo, Hround. done. }
  destruct (square_loop (Z.to_nat (r -[32] 1)) n m x).
  { exists v', pos''. split; [exact Ego |]. apply Hgo, Hround. done. }
  eexists false, _. split; [reflexivity |]. split; [| done]. split; [done |]. intros H. apply Hround, H. lia.
Qed.

Lemma is_probably_prime_spec n rounds pos : canonical n -> 3 < value n -> Z.odd (value n) = true ->
  Z.of_nat (bit_len n) < 2 ^ 32 ->
  exists v pos', is_probably_prime rng n rounds pos = Ret (v, pos') /\
    (v = true <-> forall i, (i < rounds)%nat -> passes (value n) (witness n pos i)) /\
    (v = true -> pos' = (pos + rounds * byte_len n)%nat).
Proof.
  intros Hn H3 Hodd Hbits. unfold is_probably_prime.
  destruct (from_spec 1 ltac:(done)) as [C1 V1]. destruct (from_spec 2 ltac:(done)) as [C2 V2].
  destruct (from_spec 3 ltac:(done)) as [C3 V3].
  rewrite !cmp_spec, V2, V3 by done. rewrite !(proj2 (Z.compare_gt_iff _ _)) by lia. cbn [Z.ltb Z.compare Z.eqb orb].
  assert (El : (Z.land (hd0 (limbs n)) 1 =? 0) = false).
  { pose proof (hd0_odd n (proj1 Hn)) as Ho. rewrite Hodd in Ho. apply Z.eqb_eq in Ho. by rewrite Ho. }
  rewrite El. destruct (sub_spec n (from 1) Hn (proj1 C1) ltac:(lia)) as [Cm Vm]. rewrite V1 in Vm.
  pose proof (bit_len_bound n (proj1 Hn)) as Hb.
  assert (Hle : (bit_len (sub n (from 1)) <= bit_len n)%nat) by (apply bit_len_le; [apply Cm | lia]).
  unfold mbind, draw_bind, lift.
  destruct (strip_twos_spec (bit_len (sub n (from 1))) (sub n (from 1)) 0 Cm) as (d & j & -> & Hd & Ho & Ev & Hj);
    [split; [lia | apply bit_len_bound, Cm] | lia | lia |].
  cbn [fst snd]. rewrite Vm in Ev.
  assert (Hd0 : 0 < value d) by (assert (0 < 2 ^ Z.of_nat j) by lia; nia).
  apply witness_rounds_spec; try done; try lia.
  split; [| lia]. destruct j as [| j]; [| lia]. rewrite Z.mul_1_l in Ev.
  rewrite <- Ev, Z.odd_sub, Hodd in Ho. done.
Qed.

(** What key generation draws: whole bytes, the top two bits and the last one set. *)
Lemma top_bits b : byte_ty b -> 192 <= Z.lor b 192.
Proof.
  intros Hb. apply Z.leb_le. revert b Hb.
  apply (byte_forall (fun b => 192 <=? Z.lor b 192)). vm_compute. reflexivity.
Qed.

Lemma low_bit b : byte_ty b -> b <= Z.lor b 1 /\ Z.odd (Z.lor b 1) = true.
Proof.
  intros Hb. assert (H : ((b <=? Z.lor b 1) && Z.odd (Z.lor b 1)) = true).
  { revert b Hb. apply (byte_forall (fun b => (b <=? Z.lor b 1) && Z.odd (Z.lor b 1))). vm_compute. reflexivity. }
  apply andb_true_iff in H as [H1 H2]. apply Z.leb_le in H1. done.
Qed.

(** The candidate's bytes. *)
Lemma odd_bytes b data : byte_ty b -> Forall byte_ty data ->
  exists h t, alter (fun b => Z.lor b 1) (length data) (Z.lor b 192 :: data) = h :: t /\
    byte_ty h /\ 192 <= h /\ Forall byte_ty t /\ length t = length data /\ Z.odd (from_be (h :: t)) = true.
Proof.
  intros Hb Hd. assert (Hb' : byte_ty (Z.lor b 192)) by (by apply u_ty_lor). pose proof (top_bits b Hb).
  destruct data as [| z u] using rev_ind.
  { exists (Z.lor (Z.lor b 192) 1), []. destruct (low_bit _ Hb') as [H1 H2].
    split; [done |]. split; [by apply u_ty_lor |]. split; [lia |]. split; [constructor |]. split; [done |].
    cbn [from_be rev app from_le]. by rewrite Z.add_0_r. }
  clear IHu. apply Forall_app in Hd as [Hu Hz]. apply Forall_cons in Hz as [Hz _].
  exists (Z.lor b 192), (u ++ [Z.lor z 1]).
  assert (Ht : Forall byte_ty (u ++ [Z.lor z 1])).
  { apply Forall_app_2; [done |]. constructor; [by apply u_ty_lor | constructor]. }
  rewrite length_app, Nat.add_comm. cbn [length Nat.add].
  split; [| split; [done |]; split; [done |]; split; [done |]; split; [rewrite length_app; simpl; lia |]].
  - change (alter (fun b => Z.lor b 1) (S (length u)) (Z.lor b 192 :: u ++ [z]))
      with (Z.lor b 192 :: alter (fun b => Z.lor b 1) (length u) (u ++ [z])).
    f_equal. clear. induction u as [| x u IH]; [done |]. cbn. f_equal. exact IH.
  - change (Z.lor b 192 :: u ++ [Z.lor z 1]) with ((Z.lor b 192 :: u) ++ [Z.lor z 1]). rewrite from_be_app.
    cbn [length]. change (8 * Z.of_nat 1) with 8. 
    assert (E1 : from_be [Z.lor z 1] = Z.lor z 1) by (cbn [from_be rev app from_le]; apply Z.add_0_r).
    rewrite E1, Z.odd_add, Z.odd_mul, (proj2 (low_bit z Hz)). change (Z.odd (2 ^ 8)) with false. by rewrite andb_false_r.
Qed.

Lemma generate_random_odd_spec bits pos : (0 < bits)%nat ->
  let bytes := ((bits + 7) / 8)%nat in
  exists c, generate_random_odd rng bits pos = Ret (c, (pos + bytes)%nat) /\ canonical c /\
    3 * 2 ^ (8 * Z.of_nat bytes - 2) <= value c < 2 ^ (8 * Z.of_nat bytes) /\ Z.odd (value c) = true.
Proof.
  intros Hbits bytes. unfold generate_random_odd. rewrite (proj2 (Nat.eqb_neq bits 0)) by lia.
  unfold mbind, draw_bind, fill, mret, draw_ret. fold bytes. cbv zeta.
  assert (Hpos : (0 < bytes)%nat) by (apply Nat.div_str_pos; lia).
  eexists. split; [reflexivity |]. destruct bytes as [| k]; [lia |]. cbn [seq]. rewrite fmap_cons.
  set (data := rng <$> seq (S pos) k).
  assert (Hd : Forall byte_ty data) by (apply Forall_fmap, Forall_true; intros; apply rng_ty).
  assert (Hl : length data = k) by (unfold data; rewrite length_fmap; apply length_seq).
  change (alter (fun b => Z.lor b 192) 0%nat (rng pos :: data)) with (Z.lor (rng pos) 192 :: data).
  replace (S k - 1)%nat with (length data) by lia.
  destruct (odd_bytes (rng pos) data (rng_ty pos) Hd) as (h & t & -> & Hh & Hge & Ht & Hlt & Hodd).
  destruct (from_bytes_spec (h :: t) ltac:(by constructor)) as (Hw & Hv & Hc). rewrite Hv.
  split; [by apply Hc |]. split; [| done].
  pose proof (from_be_ty t Ht) as [Ht0 Ht1]. change (h :: t) with ([h] ++ t). rewrite from_be_app.
  assert (E1 : from_be [h] = h) by (cbn [from_be rev app from_le]; apply Z.add_0_r).
  rewrite E1, Hlt, Hl in *. destruct Hh as [_ Hh].
  replace (8 * Z.of_nat (S k) - 2) with (6 + 8 * Z.of_nat k) by lia.
  replace (8 * Z.of_nat (S k)) with (8 + 8 * Z.of_nat k) by lia. rewrite !Z.pow_add_r by lia. nia.
Qed.

(** Such a candidate is fit for the test. *)
Lemma candidate_size bits c : (0 < bits <= 2048)%nat -> canonical c ->
  let bytes := ((bits + 7) / 8)%nat in
  3 * 2 ^ (8 * Z.of_nat bytes - 2) <= value c < 2 ^ (8 * Z.of_nat bytes) ->
  3 < value c /\ bit_len c = (8 * bytes)%nat /\ Z.of_nat (bit_len c) < 2 ^ 32.
Proof.
  intros Hbits Hc bytes Hb.
  assert (Hbytes : (0 < bytes <= 256)%nat).
  { unfold bytes. split; [apply Nat.div_str_pos; lia |].
    transitivity ((2048 + 7) / 8)%nat; [apply Nat.div_le_mono; lia | by vm_compute]. }
  assert (H6 : 2 ^ 6 <= 2 ^ (8 * Z.of_nat bytes - 2)) by (apply Z.pow_le_mono_r; lia).
  assert (Hlen : bit_len c = (8 * bytes)%nat); [| lia].
  pose proof (bit_len_spec c (proj1 Hc)) as E. rewrite (proj2 (Z.eqb_neq _ 0)) in E by lia.
  assert (Z.log2 (value c) = 8 * Z.of_nat bytes - 1); [| lia]. apply Z.log2_unique; [lia |].
  replace (Z.succ (8 * Z.of_nat bytes - 1)) with (8 * Z.of_nat bytes) by lia. split; [| lia].
  replace (8 * Z.of_nat bytes - 1) with (1 + (8 * Z.of_nat bytes - 2)) by lia.
  rewrite Z.pow_add_r by lia. lia.
Qed.

(** The candidate a search accepts has the size asked for, in whole bytes, and has passed the
    rounds of the test. *)
Lemma prime_loop_spec fuel bits pos c pos' : (0 < bits <= 2048)%nat ->
  prime_loop rng fuel bits pos = Ret (c, pos') ->
  let bytes := ((bits + 7) / 8)%nat in
  canonical c /\ 3 * 2 ^ (8 * Z.of_nat bytes - 2) <= value c < 2 ^ (8 * Z.of_nat bytes) /\
  Z.odd (value c) = true /\
  exists pos0, forall i, (i < 20)%nat -> passes (value c) (witness c pos0 i).
Proof.
  intros Hbits. cbv zeta. revert pos. induction fuel as [| fuel IH]; intros pos; [done |].
  cbn [prime_loop]. unfold mbind, draw_bind.
  destruct (generate_random_odd_spec bits pos ltac:(lia)) as (x & -> & Hx & Hb & Ho). cbv zeta in *.
  destruct (candidate_size bits x Hbits Hx Hb) as (H3 & _ & H32).
  destruct (is_probably_prime_spec x 20 (pos + (bits + 7) / 8) Hx H3 Ho H32) as (v & pos1 & -> & Hv & _).
  destruct v; [| apply IH]. intros [= -> <-]. split; [done |]. split; [done |]. split; [done |].
  exists (pos + (bits + 7) / 8)%nat. by apply Hv.
Qed.

(** A search that draws a prime, and no multiple of it as a witness, ends with it. *)
Lemma prime_loop_ends fuel bits pos p : (0 < bits <= 2048)%nat ->
  generate_random_odd rng bits pos = Ret (p, (pos + (bits + 7) / 8)%nat) -> prime (value p) ->
  (forall i, (i < 20)%nat -> witness p (pos + (bits + 7) / 8) i <> 0) ->
  generate_prime rng (S fuel) bits pos =
  Ret (Some p, (pos + (bits + 7) / 8 + 20 * byte_len p)%nat).
Proof.
  intros Hbits Ep Hp Hw. unfold generate_prime.
  rewrite (proj2 (Nat.eqb_neq bits 0)), (proj2 (Nat.ltb_ge 2048 bits)) by lia. cbn [orb].
  cbn [prime_loop]. unfold mbind, draw_bind, mret, draw_ret. rewrite Ep.
  destruct (generate_random_odd_spec bits pos ltac:(lia)) as (x & Ex & Hx & Hb & Ho). cbv zeta in *.
  rewrite Ep in Ex. injection Ex as <-. destruct (candidate_size bits p Hbits Hx Hb) as (H3 & _ & H32).
  destruct (is_probably_prime_spec p 20 (pos + (bits + 7) / 8) Hx H3 Ho H32) as (v & pos1 & -> & Hv & Hpos).
  assert (v = true) as ->.
  { apply Hv. intros i Hi. apply prime_passes; [done | lia |]. unfold witness. rewrite Z.mod_mod by lia.
    by apply Hw. }
  by rewrite (Hpos eq_refl).
Qed.

(** ** Generation *)

(** The sizes and the evidence of a generated key, and when it is valid. *)
Lemma generate_sound fuel bits pos k pos' : generate rng fuel bits pos = Ret (Some k, pos') ->
  let bytes := ((bits / 2 + 7) / 8)%nat in
  (512 <= bits <= 4096)%nat /\ bit_len (key_n k) = (16 * bytes)%nat /\ value (key_e k) = 65537 /\
  (forall x, x = key_p k \/ x = key_q k -> bit_len x = (8 * bytes)%nat /\ Z.odd (value x) = true /\
     exists pos0, forall i, (i < 20)%nat -> passes (value x) (witness x pos0 i)) /\
  (prime (value (key_p k)) -> prime (value (key_q k)) -> value (key_p k) <> value (key_q k) ->
   Z.gcd 65537 ((value (key_p k) - 1) * (value (key_q k) - 1)) = 1 -> valid_key k).
Proof.
  unfold generate. destruct ((512 <=? bits) && (bits <=? 4096))%nat eqn:Hr; [| done].
  apply andb_true_iff in Hr as [H1%Nat.leb_le H2%Nat.leb_le]. cbn [negb orb].
  destruct (bits mod 2 =? 0)%nat; [| done]. cbn [negb].
  assert (Hh : (0 < bits / 2 <= 2048)%nat).
  { split; [apply Nat.div_str_pos; lia |]. change 2048%nat with (4096 / 2)%nat. apply Nat.div_le_mono; lia. }
  unfold generate_prime. rewrite (proj2 (Nat.eqb_neq (bits / 2) 0)), (proj2 (Nat.ltb_ge 2048 (bits / 2))) by lia.
  cbn [orb]. unfold mbind, draw_bind, mret, draw_ret, lift.
  destruct (prime_loop rng fuel (bits / 2) pos) as [[p pos1] | |] eqn:Ep; [| done ..].
  destruct (prime_loop rng fuel (bits / 2) pos1) as [[q pos2] | |] eqn:Eq; [| done ..].
  destruct (prime_loop_spec _ _ _ _ _ Hh Ep) as (Hp & Bp & Op & Wp).
  destruct (prime_loop_spec _ _ _ _ _ Hh Eq) as (Hq & Bq & Oq & Wq).
  destruct (candidate_size _ p Hh Hp Bp) as (Gp & Lp & _).
  destruct (candidate_size _ q Hh Hq Bq) as (Gq & Lq & _).
  destruct (key_of p q) as [k' | |] eqn:Ek; [| done ..]. intros [= <- <-].
  assert (Hf : key_p k' = p /\ key_q k' = q /\ key_n k' = mul p q /\ key_e k' = from 65537).
  { revert Ek. unfold key_of. cbv zeta.
    destruct (mod_inverse (from 65537) _) as [d | |]; cbn [mbind outcome_bind]; [| done ..].
    destruct (mod_inverse q p) as [qi | |]; cbn [mbind outcome_bind]; [| done ..]. by intros [= <-]. }
  destruct Hf as (Fp & Fq & Fn & Fe). rewrite Fp, Fq, Fn, Fe. cbv zeta.
  assert (Hby : (0 < (bits / 2 + 7) / 8)%nat) by (apply Nat.div_str_pos; lia).
  set (bytes := ((bits / 2 + 7) / 8)%nat) in *.
  split; [done |]. split; [| split; [done | split]].
  - destruct (mul_spec p q (proj1 Hp) (proj1 Hq) (or_introl Hp)) as [Cn Vn].
    pose proof (bit_len_spec _ (proj1 Cn)) as E.
    rewrite (proj2 (Z.eqb_neq _ 0)), Vn in E by nia.
    assert (Z.log2 (value p * value q) = 16 * Z.of_nat bytes - 1); [| lia].
    apply Z.log2_unique; [lia |]. set (B := 2 ^ (8 * Z.of_nat bytes - 2)) in *.
    assert (EB : 2 ^ (8 * Z.of_nat bytes) = 4 * B).
    { unfold B. change 4 with (2 ^ 2). rewrite <- Z.pow_add_r by lia. f_equal. lia. }
    replace (Z.succ (16 * Z.of_nat bytes - 1)) with (8 * Z.of_nat bytes + 8 * Z.of_nat bytes) by lia.
    replace (16 * Z.of_nat bytes - 1) with (3 + ((8 * Z.of_nat bytes - 2) + (8 * Z.of_nat bytes - 2))) by lia.
    rewrite !Z.pow_add_r by lia. fold B. rewrite EB in *. nia.
  - by intros x [-> | ->].
  - intros Pp Pq Hne Hg. destruct (key_of_valid p q) as (k'' & Ek' & Hv & _); [done .. | lia | lia | done |].
    rewrite Ek in Ek'. by injection Ek' as ->.
Qed.

(** Draws that suffice for a key. *)
Lemma generate_ends fuel bits pos p q : (512 <= bits <= 4096)%nat -> (bits mod 2 = 0)%nat ->
  let bytes := ((bits / 2 + 7) / 8)%nat in
  let pos1 := (pos + bytes + 20 * byte_len p)%nat in
  generate_random_odd rng (bits / 2) pos = Ret (p, (pos + bytes)%nat) -> prime (value p) ->
  (forall i, (i < 20)%nat -> witness p (pos + bytes) i <> 0) ->
  generate_random_odd rng (bits / 2) pos1 = Ret (q, (pos1 + bytes)%nat) -> prime (value q) ->
  (forall i, (i < 20)%nat -> witness q (pos1 + bytes) i <> 0) ->
  value p <> value q -> Z.gcd 65537 ((value p - 1) * (value q - 1)) = 1 ->
  exists k pos', generate rng (S fuel) bits pos = Ret (Some k, pos') /\ valid_key k.
Proof.
  intros Hbits Heven bytes pos1 Ep Pp Wp Eq Pq Wq Hne Hg.
  assert (Hh : (0 < bits / 2 <= 2048)%nat).
  { split; [apply Nat.div_str_pos; lia |]. change 2048%nat with (4096 / 2)%nat. apply Nat.div_le_mono; lia. }
  destruct (generate_random_odd_spec (bits / 2) pos ltac:(lia)) as (x & Ex & Hp & Bp & _).
  fold bytes in Ex, Bp. rewrite Ep in Ex. injection Ex as <-.
  destruct (generate_random_odd_spec (bits / 2) pos1 ltac:(lia)) as (x & Ex & Hq & Bq & _).
  fold bytes in Ex, Bq. rewrite Eq in Ex. injection Ex as <-.
  destruct (candidate_size _ p Hh Hp Bp) as (Gp & _). destruct (candidate_size _ q Hh Hq Bq) as (Gq & _).
  destruct (key_of_valid p q) as (k & Ek & Hv & _); [done .. | lia | lia | done |].
  exists k. eexists. split; [| done]. unfold generate. rewrite Heven, Nat.eqb_refl.
  rewrite (proj2 (Nat.leb_le _ _)), (proj2 (Nat.leb_le bits 4096)) by lia. cbn [andb negb orb].
  unfold mbind, draw_bind. rewrite (prime_loop_ends _ _ _ p Hh Ep Pp Wp). fold bytes. fold pos1.
  rewrite (prime_loop_ends _ _ _ q Hh Eq Pq Wq). unfold lift. rewrite Ek. reflexivity.
Qed.

End Primality.

(** ** When signing succeeds *)

(** The bits of a modulus fill its bytes. *)
Lemma modulus_bits k : valid_key k -> (bit_len (key_n k) mod 8 <> 1)%nat ->
  (byte_len (key_n k) * 8 - 7 < bit_len (key_n k) <= byte_len (key_n k) * 8)%nat.
Proof.
  intros Hk Hm. pose proof (valid_n k Hk) as Hn. pose proof (n_pos k Hk) as HN.
  destruct (byte_len_spec _ Hn) as (Hpos & Hup & Hlow). specialize (Hlow HN).
  assert (H1 : (bit_len (key_n k) <= byte_len (key_n k) * 8)%nat).
  { apply bit_len_le; [apply Hn |]. by rewrite Nat2Z.inj_mul, Z.mul_comm. }
  split; [| done].
  assert (H2 : (byte_len (key_n k) * 8 - 7 <= bit_len (key_n k))%nat).
  { pose proof (bit_len_spec _ (proj1 Hn)) as E. rewrite (proj2 (Z.eqb_neq _ 0)) in E by lia.
    apply Z.log2_le_pow2 in Hlow; lia. }
  destruct (Nat.eq_dec (bit_len (key_n k)) (byte_len (key_n k) * 8 - 7)%nat) as [E |]; [| lia].
  exfalso. apply Hm. rewrite E. replace (byte_len (key_n k) * 8 - 7)%nat with (1 + (byte_len (key_n k) - 1) * 8)%nat by lia.
  by rewrite Nat.Div0.mod_add.
Qed.

Lemma sign_pad_succeeds digest n : digest_info_prefix digest <> [] ->
  (length (digest_info_prefix digest) + length digest + 3 <= n)%nat ->
  exists padded, pkcs1v15_sign_pad digest n = Ok padded.
Proof.
  intros Hne Hn. unfold pkcs1v15_sign_pad. destruct (digest_info_prefix digest) as [| b l] eqn:E; [done |].
  rewrite <- E in *. unfold checked_sub. rewrite (proj2 (Nat.leb_le _ _)) by lia. cbn [mbind option_bind].
  rewrite (proj2 (Nat.leb_le _ _)) by lia. cbn [mbind option_bind]. rewrite (proj2 (Nat.leb_le _ _)) by lia.
  by eexists.
Qed.

Lemma digest_info_known digest :
  digest_info_prefix digest <> [] <-> In (length digest) [20; 32; 48; 64]%nat.
Proof.
  unfold digest_info_prefix. cbn [In].
  repeat match goal with |- context [match ?n with O => _ | S _ => _ end] => destruct n end;
    split; (done || lia || (intros _; tauto)).
Qed.

Lemma pss_encode_succeeds rng digest n bits salt_len pos : length digest = 32%nat ->
  (salt_len + 34 <= n)%nat -> (n * 8 - 7 < bits <= n * 8)%nat ->
  exists em, pss_encode rng digest n bits salt_len pos = Ret (Ok em, (pos + salt_len)%nat).
Proof.
  intros Hd Hn Hb. unfold pss_encode, checked_sub, mbind, draw_bind, option_bind, mret, draw_ret, fill.
  rewrite Hd. cbn [Nat.eqb negb]. rewrite (proj2 (Nat.leb_le 32 n)), (proj2 (Nat.leb_le 1 (n - 32))) by lia.
  rewrite (proj2 (Nat.ltb_ge n (salt_len + 32 + 2))), (proj2 (Nat.leb_le 1 bits)) by lia.
  rewrite (proj2 (Nat.leb_gt 8 (n * 8 - (bits - 1)))) by lia. by eexists.
Qed.

(** The bytes of a number: nothing in front. *)
Lemma be_bytes_eq k v b l : u_ty (8 * Z.of_nat k) v -> b <> 0 -> Forall byte_ty (b :: l) ->
  be_bytes k v = b :: l <-> v = from_be (b :: l).
Proof.
  intros Hv Hb Hl. split.
  - intros E. by rewrite <- E, (proj1 (be_bytes_value k v Hv)).
  - intros ->. pose proof (from_be_ty _ Hl) as Hu.
    assert (Hlen : (length l < k)%nat).
    { destruct (Nat.lt_ge_cases (length l) k) as [H | H]; [done | exfalso].
      apply Forall_cons in Hl as [[Hb0 _] Hl]. pose proof (from_be_ty l Hl) as [Hf _]. destruct Hv as [_ Hv].
      change (b :: l) with ([b] ++ l) in Hv. rewrite from_be_app in Hv.
      assert (E1 : from_be [b] = b) by (cbn [from_be rev app from_le]; apply Z.add_0_r). rewrite E1 in Hv.
      assert (2 ^ (8 * Z.of_nat k) <= 2 ^ (8 * Z.of_nat (length l))) by (apply Z.pow_le_mono_r; lia). nia. }
    rewrite (be_bytes_len (length (b :: l)) k), be_bytes_of by (done || (cbn [length] in *; lia)).
    destruct l as [| c l]; [done |]. by rewrite trim_rev_cons, (proj2 (Z.eqb_neq b 0) Hb).
Qed.

(** ** Properties *)

(** The key of the examples: two primes of 256 bits. *)
Definition sample_p : BigUint := mk_big [1; 0; 0; 207 * 2 ^ 56].
Definition sample_q : BigUint := mk_big [1; 0; 0; 467 * 2 ^ 55].

Lemma sample_primes : canonical sample_p /\ canonical sample_q /\
  prime (value sample_p) /\ prime (value sample_q).
Proof.
  assert (Hw : forall t, u_ty 64 t -> t <> 0 -> canonical (mk_big [1; 0; 0; t])).
  { intros t Ht Hne. split; [| done].
    apply Forall_cons; split; [done |]. apply Forall_cons; split; [done |].
    apply Forall_cons; split; [done |]. by apply limbs_ty_1. }
  split; [by apply Hw |]. split; [by apply Hw |]. split.
  - replace (value sample_p) with (207 * 2 ^ 248 + 1) by (vm_compute; reflexivity). apply prime_248.
  - replace (value sample_q) with (467 * 2 ^ 247 + 1) by (vm_compute; reflexivity). apply prime_247.
Qed.

Lemma sample_key : exists k, key_of sample_p sample_q = Ret k /\ valid_key k /\
  byte_len (key_n k) = 64%nat /\ bit_len (key_n k) = 512%nat.
Proof.
  destruct sample_primes as (Cp & Cq & Pp & Pq).
  destruct (key_of_valid sample_p sample_q Cp Cq Pp Pq) as (k & Ek & Hk & En);
    [by vm_compute | by vm_compute | by vm_compute | by vm_compute |].
  exists k. rewrite En. split; [done |]. split; [done |]. split; vm_compute; reflexivity.
Qed.

(** C4: with a valid key every signature verifies. Signing by PKCS#1 v1.5 succeeds for each of
    the four digest lengths that fit the modulus, and signing by PSS for a SHA-256 digest and a
    salt that fit a modulus whose bit length is not one more than a multiple of eight. Each
    signature is as long as the modulus, and the public key accepts it. *)
Theorem rsa_signatures_verify rng k digest salt_len pos :
  valid_key k -> Forall byte_ty digest -> (forall i, byte_ty (rng i)) ->
  (In (length digest) [20; 32; 48; 64]%nat ->
   (length (digest_info_prefix digest) + length digest + 3 <= byte_len (key_n k))%nat ->
   exists sig, sign_pkcs1v15 k digest = Ret (Ok sig) /\ length sig = byte_len (key_n k) /\
     verify_pkcs1v15 (public_key k) digest sig = Ret true) /\
  (length digest = 32%nat -> (salt_len + 34 <= byte_len (key_n k))%nat -> (bit_len (key_n k) mod 8 <> 1)%nat ->
   exists sig, sign_pss rng k digest salt_len pos = Ret (Ok sig, (pos + salt_len)%nat) /\
     length sig = byte_len (key_n k) /\ verify_pss (public_key k) digest sig salt_len = Ret true).
Proof.
  intros Hk Hd Hrng. split.
  - intros Hl Hfit. apply digest_info_known in Hl.
    destruct (sign_pad_succeeds digest _ Hl Hfit) as [padded Hpad]. by apply (sign_verify k digest padded).
  - intros Hl Hfit Hbits.
    destruct (pss_encode_succeeds rng digest (byte_len (key_n k)) (bit_len (key_n k)) salt_len pos) as [em Hem];
      [done .. | by apply modulus_bits | by apply (sign_verify_pss rng Hrng k digest salt_len pos em)].
Qed.

Lemma rsa_signatures_verify_witness :
  exists k sig1 sig2, key_of sample_p sample_q = Ret k /\
    sign_pkcs1v15 k (replicate 32 0xA5) = Ret (Ok sig1) /\
    verify_pkcs1v15 (public_key k) (replicate 32 0xA5) sig1 = Ret true /\
    sign_pss (fun _ => 7) k (replicate 32 0xA5) 16 0%nat = Ret (Ok sig2, 16%nat) /\
    verify_pss (public_key k) (replicate 32 0xA5) sig2 16 = Ret true.
Proof.
  assert (Hd : Forall byte_ty (replicate 32 0xA5)) by (by apply replicate_bytes).
  destruct sample_key as (k & Ek & Hk & Hbyte & Hbit).
  destruct (rsa_signatures_verify (fun _ => 7) k (replicate 32 0xA5) 16 0 Hk Hd) as [H1 H2];
    [split; lia |].
  rewrite Hbyte in H1, H2. rewrite Hbit in H2.
  destruct H1 as (sig1 & E1 & _ & V1); [cbn; tauto | cbn; lia |].
  destruct H2 as (sig2 & E2 & _ & V2); [reflexivity | lia | discriminate |].
  exists k, sig1, sig2. exact (conj Ek (conj E1 (conj V1 (conj E2 V2)))).
Defined.

(** What PKCS#1 v1.5 verification accepts. It never fails to answer, and it accepts exactly
    the signatures whose power is the number 01 FF..FF 00 DigestInfo digest: any number of FF
    bytes, if there are eight together with the bytes of DigestInfo. Neither the length of the
    signature nor that of the encoded message is compared with the key's. *)
Theorem verify_pkcs1v15_iff k digest sig :
  canonical (pub_n k) -> 0 < value (pub_n k) -> canonical (pub_e k) -> 0 < value (pub_e k) ->
  Forall byte_ty digest -> Forall byte_ty sig ->
  exists b, verify_pkcs1v15 k digest sig = Ret b /\
    (b = true <-> exists j, (8 <= j + length (digest_info_prefix digest))%nat /\
       from_be sig ^ value (pub_e k) mod value (pub_n k) =
       from_be (0x01 :: replicate j 0xff ++ 0x00 :: digest_info_prefix digest ++ digest)).
Proof.
  intros Hn HN He HE Hd Hs. unfold verify_pkcs1v15. destruct (from_bytes_spec sig Hs) as (Hw & Hv & _).
  destruct (mod_exp_spec (from_bytes sig) (pub_e k) (pub_n k) Hw He Hn HN) as (m & -> & Hm & Vm).
  rewrite (proj2 (Z.eqb_neq _ 0)), Hv in Vm by lia. cbn [mbind outcome_bind]. eexists. split; [reflexivity |].
  pose proof (Z.mod_pos_bound (from_be sig ^ value (pub_e k)) (value (pub_n k)) HN) as Hb. rewrite <- Vm in Hb |- *.
  destruct (byte_len_spec _ Hn) as (Hpos & Hup & _).
  assert (Hu : u_ty (8 * Z.of_nat (byte_len (pub_n k))) (value m)) by (split; lia).
  rewrite verify_pad_iff, (to_bytes_spec m (byte_len (pub_n k))) by done.
  set (enc := fun j => 0x01 :: replicate j 0xff ++ 0x00 :: digest_info_prefix digest ++ digest).
  assert (Henc : forall j, length (enc j) = (2 + j + length (digest_info_prefix digest) + length digest)%nat).
  { intros j. unfold enc. cbn [length]. rewrite length_app, length_replicate. cbn [length]. rewrite length_app. lia. }
  assert (Heq : forall j, be_bytes (byte_len (pub_n k)) (value m) = enc j <-> value m = from_be (enc j)).
  { intros j. apply be_bytes_eq; [done | done |]. constructor; [done |].
    apply Forall_app_2; [by apply replicate_bytes |]. constructor; [done |].
    apply Forall_app_2; [apply digest_info_bytes | done]. }
  split.
  - intros [Hl [j Ej]]. exists j. fold (enc j) in Ej |- *. rewrite Ej, Henc in Hl. split; [lia | by apply Heq].
  - intros (j & Hj & Ej). fold (enc j) in Ej. apply Heq in Ej. rewrite Ej, Henc. split; [lia | by exists j].
Qed.

(** The number 01 00 DigestInfo digest is its own signature under the exponent 1. *)
Lemma verify_pkcs1v15_iff_witness :
  verify_pkcs1v15 (mk_public (mk_big [0; 0; 0; 0; 0; 0; 0; 1]) (from 1)) (replicate 20 9)
    (0x01 :: 0x00 :: digest_info_prefix (replicate 20 9) ++ replicate 20 9) = Ret true.
Proof.
  assert (Hn : canonical (mk_big [0; 0; 0; 0; 0; 0; 0; 1])).
  { split; [| done]. apply (bool_decide_unpack _). vm_compute. reflexivity. }
  destruct (verify_pkcs1v15_iff (mk_public (mk_big [0; 0; 0; 0; 0; 0; 0; 1]) (from 1)) (replicate 20 9)
    (0x01 :: 0x00 :: digest_info_prefix (replicate 20 9) ++ replicate 20 9)) as (b & -> & Hb);
    [done | by vm_compute | by apply from_spec | done | by apply replicate_bytes
    | constructor; [done |]; constructor; [done |]; apply Forall_app_2;
      [apply digest_info_bytes | by apply replicate_bytes] |].
  f_equal. apply Hb. exists 0%nat. split; [cbn; lia | vm_compute; reflexivity].
Defined.

(** C13: decryption undoes encryption. With a valid key and a source of random bytes that
    delivers a byte other than zero in every run of [fuel], each message at least three bytes
    shorter than the modulus is encrypted, and the private key's Chinese-remainder decryption
    returns it. *)
Theorem rsa_decrypt_encrypt rng fuel k data pos :
  valid_key k -> Forall byte_ty data -> (length data + 3 <= byte_len (key_n k))%nat ->
  (forall i, byte_ty (rng i)) -> (forall i, exists j, (j < fuel)%nat /\ rng (i + j)%nat <> 0) ->
  exists ct pos', encrypt rng fuel (public_key k) data pos = Ret (ct, pos') /\ decrypt k ct = Ret data.
Proof. intros Hk Hd Hl Ht Hlive. by apply decrypt_encrypt. Qed.

Lemma rsa_decrypt_encrypt_witness :
  exists k ct pos', key_of sample_p sample_q = Ret k /\
    encrypt (fun i => Z.of_nat (i mod 2)) 2 (public_key k) [1; 2; 3; 0; 0] 0%nat = Ret (ct, pos') /\
    decrypt k ct = Ret [1; 2; 3; 0; 0].
Proof.
  assert (Hm : forall i, (i mod 2 = 0 \/ i mod 2 = 1)%nat).
  { intros i. pose proof (Nat.mod_upper_bound i 2). lia. }
  assert (Ht : forall i, byte_ty (Z.of_nat (i mod 2))) by (intros i; by destruct (Hm i) as [-> | ->]).
  assert (Hl : forall i, exists j, (j < 2)%nat /\ Z.of_nat ((i + j) mod 2) <> 0).
  { intros i. destruct (Hm i) as [E | E].
    - exists 1%nat. split; [lia |]. by rewrite <- Nat.Div0.add_mod_idemp_l, E.
    - exists 0%nat. split; [lia |]. by rewrite Nat.add_0_r, E. }
  destruct sample_key as (k & Ek & Hk & Hbyte & _).
  destruct (rsa_decrypt_encrypt (fun i => Z.of_nat (i mod 2)) 2 k [1; 2; 3; 0; 0] 0 Hk) as (ct & pos' & Ec & Ed).
  - apply (bool_decide_unpack _). vm_compute. reflexivity.
  - rewrite Hbyte. cbn. lia.
  - exact Ht.
  - exact Hl.
  - exists k, ct, pos'. exact (conj Ek (conj Ec Ed)).
Defined.

(** C28: the primality test is Miller and Rabin's. For an odd number above three it answers
    whether every number drawn, one for each round, passes: with [n - 1 = 2^r d], the power
    [a^d] is 1 or one of [a^d, a^(2d), .., a^(2^(r-1) d)] is [n - 1]. So a prime is accepted
    whenever no multiple of it is drawn. *)
Theorem miller_rabin rng n rounds pos :
  canonical n -> 3 < value n -> Z.odd (value n) = true -> Z.of_nat (bit_len n) < 2 ^ 32 ->
  (forall i, byte_ty (rng i)) ->
  exists v pos', is_probably_prime rng n rounds pos = Ret (v, pos') /\
    (v = true <-> forall i, (i < rounds)%nat -> passes (value n) (witness rng n pos i)) /\
    (prime (value n) -> (forall i, (i < rounds)%nat -> witness rng n pos i <> 0) -> v = true).
Proof.
  intros Hn H3 Hodd Hbits Ht.
  destruct (is_probably_prime_spec rng Ht n rounds pos Hn H3 Hodd Hbits) as (v & pos' & E & Hv & _).
  exists v, pos'. split; [done |]. split; [done |]. intros Hp Hw. apply Hv. intros i Hi.
  apply prime_passes; [done | lia |]. unfold witness in *. rewrite Z.mod_mod by lia. by apply Hw.
Qed.

Lemma miller_rabin_witness :
  (exists pos', is_probably_prime (fun _ => 2) sample_p 20 0%nat = Ret (true, pos')) /\
  is_probably_prime (fun _ => 2) (from 561) 20 0%nat = Ret (false, 2%nat).
Proof.
  destruct sample_primes as (Cp & _ & Pp & _). split; [| vm_compute; reflexivity].
  destruct (miller_rabin (fun _ => 2) sample_p 20 0 Cp) as (v & pos' & E & _ & Hv);
    [by vm_compute | by vm_compute | by vm_compute | done |].
  exists pos'. rewrite E, Hv; [done | done |]. intros i Hi. clear -Hi.
  do 20 (destruct i as [| i]; [by vm_compute |]). lia.
Defined.

(** Key generation. A key that [generate] returns has a modulus of sixteen bits for each
    byte begun of half the bits asked for, the exponent 65537 and two odd factors of half the
    size that have passed twenty rounds of the test; it is valid if these are distinct primes
    and 65537 is prime to [(p - 1)(q - 1)]. [generate] returns such a key when the candidates
    it draws first are so and none of the draws of the test is a multiple of them. *)
Theorem rsa_generate rng fuel bits pos : (forall i, byte_ty (rng i)) ->
  let bytes := ((bits / 2 + 7) / 8)%nat in
  (forall k pos', generate rng fuel bits pos = Ret (Some k, pos') ->
   (512 <= bits <= 4096)%nat /\ bit_len (key_n k) = (16 * bytes)%nat /\ value (key_e k) = 65537 /\
   (forall x, x = key_p k \/ x = key_q k -> bit_len x = (8 * bytes)%nat /\ Z.odd (value x) = true /\
      exists pos0, forall i, (i < 20)%nat -> passes (value x) (witness rng x pos0 i)) /\
   (prime (value (key_p k)) -> prime (value (key_q k)) -> value (key_p k) <> value (key_q k) ->
    Z.gcd 65537 ((value (key_p k) - 1) * (value (key_q k) - 1)) = 1 -> valid_key k)) /\
  (forall p q, (512 <= bits <= 4096)%nat -> (bits mod 2 = 0)%nat ->
   let pos1 := (pos + bytes + 20 * byte_len p)%nat in
   generate_random_odd rng (bits / 2) pos = Ret (p, (pos + bytes)%nat) -> prime (value p) ->
   (forall i, (i < 20)%nat -> witness rng p (pos + bytes) i <> 0) ->
   generate_random_odd rng (bits / 2) pos1 = Ret (q, (pos1 + bytes)%nat) -> prime (value q) ->
   (forall i, (i < 20)%nat -> witness rng q (pos1 + bytes) i <> 0) ->
   value p <> value q -> Z.gcd 65537 ((value p - 1) * (value q - 1)) = 1 ->
   exists k pos', generate rng (S fuel) bits pos = Ret (Some k, pos') /\ valid_key k).
Proof.
  intros Ht bytes. split.
  - intros k pos' E. by apply (generate_sound rng Ht fuel bits pos k pos').
  - intros p q. by apply (generate_ends rng Ht fuel bits pos p q).
Qed.

(** Draws that give the two primes of the examples. *)
Definition sample_rng (i : nat) : Z :=
  if (i =? 0)%nat then 207 else if (i =? 672)%nat then 233 else if (i =? 673)%nat then 128
  else if ((i <? 32) || (672 <=? i) && (i <? 704))%nat then 0 else 2.

Lemma rsa_generate_witness :
  exists k pos', generate sample_rng 1 512 0%nat = Ret (Some k, pos') /\ valid_key k.
Proof.
  destruct sample_primes as (Cp & Cq & Pp & Pq).
  apply (rsa_generate sample_rng 0 512 0) with (p := sample_p) (q := sample_q).
  - intros i. unfold sample_rng. repeat case_match; done.
  - lia.
  - reflexivity.
  - vm_compute. reflexivity.
  - exact Pp.
  - intros i Hi. do 20 (destruct i as [| i]; [by vm_compute |]). lia.
  - vm_compute. reflexivity.
  - exact Pq.
  - intros i Hi. do 20 (destruct i as [| i]; [by vm_compute |]). lia.
  - by vm_compute.
  - by vm_compute.
Defined.

(** A key of primes with 65537 dividing [p - 1] does not decrypt what it encrypts. *)
Example key_not_coprime :
  match key_of (from 2061615759361) (from 786433) with
  | Ret k => match encrypt (fun _ => 1) 1 (public_key k) [1; 2; 3] 0%nat with
             | Ret (ct, _) => decrypt k ct
             | _ => Panic
             end
  | _ => Panic
  end = Ret [].
Proof. vm_compute. reflexivity. Qed.

End Rsa.
