(* ===== verification/Udp.v ===== *)
(** * UDP sockets

    Models [netstack/udp.rs]: the header codec, the checksum, the socket table with its
    bounded receive queues, and sending and receiving. A datagram handed to [send_ipv4] is an
    argument and a result of [send]: [sent] is the answer of [send_ipv4]. The first of our
    own addresses, which [send] asks [ipif] for, is an argument. *)

From S2P Require Import Prelude Fragmentation Ipv4.

Module Udp.

Definition UDP_HDR_SIZE : Z := 8.
Definition UDP_RX_QUEUE_MAX : Z := 64.

(** ** Headers *)

Record UdpHeader : Type := mk_header { src_port : Z; dst_port : Z; length_field : Z; checksum : Z }.

Definition from_bytes (data : list Z) : option UdpHeader :=
  match data with
  | d0 :: d1 :: d2 :: d3 :: d4 :: d5 :: d6 :: d7 :: _ =>
      Some (mk_header (from_be [d0; d1]) (from_be [d2; d3]) (from_be [d4; d5]) (from_be [d6; d7]))
  | _ => None
  end.

Definition to_bytes (h : UdpHeader) (data : list Z) : list Z :=
  if Z.of_nat (length data) <? UDP_HDR_SIZE then data
  else to_be 2 (src_port h) ++ to_be 2 (dst_port h) ++ to_be 2 (length_field h) ++ to_be 2 (checksum h)
    ++ drop 8 data.

(** ** Sockets *)

Record UdpPacket : Type := mk_packet { pk_src_ip : Z; pk_src_port : Z; pk_data : list Z }.

Record UdpSocket : Type := mk_socket {
  local_port : Z; local_ip : Z; remote_port : Z; remote_ip : Z; rx_buf : list UdpPacket }.

Record UdpStats : Type := mk_stats {
  datagrams_sent : Z; datagrams_received : Z; datagrams_dropped : Z; checksum_errors : Z }.

Record World : Type := mk_world { sockets : list UdpSocket; stats : UdpStats }.

Definition zero : UdpStats := mk_stats 0 0 0 0.
Definition init (w : World) : World := mk_world [] zero.

Definition count_sent (s : UdpStats) : UdpStats :=
  mk_stats (datagrams_sent s +[64] 1) (datagrams_received s) (datagrams_dropped s) (checksum_errors s).
Definition count_received (s : UdpStats) : UdpStats :=
  mk_stats (datagrams_sent s) (datagrams_received s +[64] 1) (datagrams_dropped s) (checksum_errors s).
Definition count_dropped (s : UdpStats) : UdpStats :=
  mk_stats (datagrams_sent s) (datagrams_received s) (datagrams_dropped s +[64] 1) (checksum_errors s).
Definition count_error (s : UdpStats) : UdpStats :=
  mk_stats (datagrams_sent s) (datagrams_received s) (datagrams_dropped s) (checksum_errors s +[64] 1).

(** ** The checksum *)

(** [chunks_exact(2)], then the remainder as a high byte. *)
Fixpoint sum_words (d : list Z) (sum : Z) : Z :=
  match d with
  | a :: b :: d => sum_words d (sum +[32] from_be [a; b])
  | [a] => sum +[32] wrap 32 (Z.shiftl a 8)
  | [] => sum
  end.

Definition pseudo_header (src_ip dst_ip n : Z) : list Z :=
  [wrap 8 (Z.shiftr src_ip 24); wrap 8 (Z.shiftr src_ip 16); wrap 8 (Z.shiftr src_ip 8); wrap 8 src_ip;
   wrap 8 (Z.shiftr dst_ip 24); wrap 8 (Z.shiftr dst_ip 16); wrap 8 (Z.shiftr dst_ip 8); wrap 8 dst_ip;
   0; 17; wrap 8 (Z.land (Z.shiftr n 8) 0xFF); wrap 8 (Z.land n 0xFF)].

Definition calculate_checksum (src_ip dst_ip : Z) (udp_data : list Z) : outcome Z :=
  let pseudo := pseudo_header src_ip dst_ip (Z.of_nat (length udp_data)) in
  sum ← Ipv4.carry_loop 4 (sum_words udp_data (sum_words pseudo 0));
  Ret (if sum =? 0 then 0xFFFF else wrap 16 (wnot 32 sum)).

(** ** The socket table *)

(** [(49152..=u16::MAX).find(..)]: [n] candidates from [c] on. *)
Fixpoint port_loop (n : nat) (l : list UdpSocket) (c : Z) : option Z :=
  match n with
  | O => None
  | S n => if negb (existsb (fun s => local_port s =? c) l) then Some c else port_loop n l (c + 1)
  end.

Definition create_socket (w : World) (port ip : Z) : option nat * World :=
  match (if port =? 0 then port_loop (Z.to_nat 16384) (sockets w) 49152 else Some port) with
  | None => (None, w)
  | Some port =>
      if existsb (fun s => (local_port s =? port) && (local_ip s =? ip)) (sockets w) then (None, w)
      else (Some (length (sockets w)), mk_world (sockets w ++ [mk_socket port ip 0 0 []]) (stats w))
  end.

Definition connect (w : World) (idx : nat) (ip port : Z) : outcome (bool * World) :=
  if (length (sockets w) <=? idx)%nat then Ret (false, w)
  else
    s ← rd (sockets w) idx;
    l ← wr (sockets w) idx (mk_socket (local_port s) (local_ip s) port ip (rx_buf s));
    Ret (true, mk_world l (stats w)).

Definition close_socket (w : World) (idx : nat) : World :=
  if (idx <? length (sockets w))%nat then mk_world (delete idx (sockets w)) (stats w) else w.

Definition socket_count (w : World) : nat := length (sockets w).
Definition get_stats (w : World) : UdpStats := stats w.

(** ** Sending *)

(** A datagram for [send_ipv4]: source, destination, bytes. *)
Definition Datagram : Type := Z * Z * list Z.

(** The address a socket sends from; [None] leaves [send] early. *)
Definition source_ip (our_ip : option Z) (dst_ip : Z) (s : UdpSocket) : option Z :=
  if (dst_ip =? 0xFFFFFFFF) && (local_ip s =? 0) then Some 0
  else if negb (local_ip s =? 0) then Some (local_ip s)
  else our_ip.

Definition build (src_ip dst_ip sport dport : Z) (data : list Z) : outcome Datagram :=
  let length := wrap 16 (UDP_HDR_SIZE + Z.of_nat (length data)) in
  let packet := to_bytes (mk_header sport dport length 0) (replicate 8 0) ++ data in
  checksum ← calculate_checksum src_ip dst_ip packet;
  packet ← wr packet 6 (wrap 8 (Z.shiftr checksum 8));
  packet ← wr packet 7 (wrap 8 checksum);
  Ret (src_ip, dst_ip, packet).

Definition send (w : World) (sent : Datagram -> bool) (our_ip : option Z) (idx : nat) (dst_ip dst_port : Z)
    (data : list Z) : outcome (option Z * World * list Datagram) :=
  if (length (sockets w) <=? idx)%nat then Ret (None, w, [])
  else
    s ← rd (sockets w) idx;
    match source_ip our_ip dst_ip s with
    | None => Ret (None, w, [])
    | Some src_ip =>
        d ← build src_ip dst_ip (local_port s) dst_port data;
        if sent d then Ret (Some (Z.of_nat (length data)), mk_world (sockets w) (count_sent (stats w)), [d])
        else Ret (None, w, [])
    end.

Definition send_connected (w : World) (sent : Datagram -> bool) (our_ip : option Z) (idx : nat)
    (data : list Z) : outcome (option Z * World * list Datagram) :=
  if (length (sockets w) <=? idx)%nat then Ret (None, w, [])
  else
    s ← rd (sockets w) idx;
    if (remote_port s =? 0) || (remote_ip s =? 0) then Ret (None, w, [])
    else send w sent our_ip idx (remote_ip s) (remote_port s) data.

(** ** Receiving *)

Definition matches (port ip : Z) (s : UdpSocket) : bool :=
  (local_port s =? port) && ((local_ip s =? 0) || (local_ip s =? ip)).

(** Queue and number of drops after a push. *)
Definition push_bounded (q : list UdpPacket) (p : UdpPacket) : list UdpPacket :=
  (if UDP_RX_QUEUE_MAX <=? Z.of_nat (length q) then drop 1 q else q) ++ [p].

Definition deliver (w : World) (src_ip dst_ip : Z) (h : UdpHeader) (payload : list Z) : outcome (bool * World) :=
  match position (matches (dst_port h) dst_ip) (sockets w) with
  | Some idx =>
      s ← rd (sockets w) idx;
      let st := if UDP_RX_QUEUE_MAX <=? Z.of_nat (length (rx_buf s)) then count_dropped (stats w) else stats w in
      l ← wr (sockets w) idx (mk_socket (local_port s) (local_ip s) (remote_port s) (remote_ip s)
            (push_bounded (rx_buf s) (mk_packet src_ip (src_port h) payload)));
      Ret (true, mk_world l st)
  | None => Ret (false, mk_world (sockets w) (count_dropped (stats w)))
  end.

Definition udp_input (w : World) (src_ip dst_ip : Z) (data : list Z) : outcome (bool * World) :=
  match from_bytes data with
  | None => Ret (false, w)
  | Some h =>
      payload ← (if UDP_HDR_SIZE <? Z.of_nat (length data) then slice data 8 (length data) else Ret []);
      expected ← (if negb (checksum h =? 0) then calculate_checksum src_ip dst_ip data else Ret 0);
      if negb (checksum h =? 0) && negb (expected =? 0)
      then Ret (false, mk_world (sockets w) (count_dropped (count_error (stats w))))
      else deliver (mk_world (sockets w) (count_received (stats w))) src_ip dst_ip h payload
  end.

(** [buflen] is the room of the caller's buffer; the bytes copied to it are returned. *)
Definition receive (w : World) (idx : nat) (buflen : nat) : outcome (option (Z * Z * list Z) * World) :=
  if (length (sockets w) <=? idx)%nat then Ret (None, w)
  else
    s ← rd (sockets w) idx;
    match rx_buf s with
    | [] => Ret (None, w)
    | p :: q =>
        l ← wr (sockets w) idx (mk_socket (local_port s) (local_ip s) (remote_port s) (remote_ip s) q);
        Ret (Some (pk_src_ip p, pk_src_port p, take (buflen `min` length (pk_data p)) (pk_data p)),
             mk_world l (stats w))
    end.

Definition peek (w : World) (idx : nat) : outcome (option UdpPacket) :=
  if (length (sockets w) <=? idx)%nat then Ret None
  else s ← rd (sockets w) idx; Ret (head (rx_buf s)).

(** ** The checksum of RFC 768 *)

(** Addition of 16-bit words with the carry added at once. *)
Definition oc_add (a b : Z) : Z := if 65536 <=? a + b then a + b - 65535 else a + b.

(** The 16-bit words of a string, padded with a zero byte. *)
Fixpoint words (d : list Z) : list Z :=
  match d with
  | a :: b :: d => from_be [a; b] :: words d
  | [a] => [from_be [a; 0]]
  | [] => []
  end.

(** The complement of the one's-complement sum of the pseudo header and the datagram. *)
Definition rfc_checksum (src_ip dst_ip : Z) (d : list Z) : Z :=
  let pseudo := to_be 4 src_ip ++ to_be 4 dst_ip ++ [0; 17] ++ to_be 2 (Z.of_nat (length d)) in
  65535 - fold_left oc_add (words (pseudo ++ d)) 0.

Definition pad (d : list Z) : list Z := if Nat.even (length d) then d else d ++ [0].

Lemma pad_cons a b d : pad (a :: b :: d) = a :: b :: pad d.
Proof. unfold pad. cbn [length Nat.even]. by destruct (Nat.even (length d)). Qed.

Lemma pad_bytes d : Forall byte_ty d -> Forall byte_ty (pad d).
Proof. intros H. unfold pad. case_match; [done |]. apply Forall_app. by split; [| repeat constructor]. Qed.

Lemma pad_length d : (length (pad d) <= length d + 1)%nat.
Proof. unfold pad. case_match; rewrite ?length_app; cbn; lia. Qed.

Lemma sum_words_pad d acc : Forall byte_ty d -> sum_words d acc = Ipv4.sum_chunks (pad d) acc.
Proof.
  revert acc. induction d as [| a | a b d IH] using Ipv4.pair_ind; intros acc H; [done | |].
  - inversion H as [| ? ? Ha _]; subst. unfold pad. cbn. f_equal. f_equal. unfold byte_ty, u_ty in Ha.
    rewrite Z.shiftl_mul_pow2 by lia. rewrite wrap_small by (unfold u_ty; lia). lia.
  - rewrite pad_cons. cbn [sum_words Ipv4.sum_chunks]. inversion H as [| ? ? ? H']; inversion H'; subst. by apply IH.
Qed.

Lemma byte_shift x k : 0 <= k -> wrap 8 (Z.shiftr x k) = x / 2 ^ k mod 256.
Proof. intros Hk. unfold wrap. by rewrite Z.shiftr_div_pow2. Qed.

Lemma land_byte x : Z.land x 255 = x mod 256.
Proof. change 255 with (Z.ones 8). by rewrite Z.land_ones. Qed.

Lemma pseudo_be src dst n :
  pseudo_header src dst n = to_be 4 src ++ to_be 4 dst ++ [0; 17] ++ to_be 2 n.
Proof.
  change (to_be 4 ?x) with [x / 256 / 256 / 256 mod 256; x / 256 / 256 mod 256; x / 256 mod 256; x mod 256].
  change (to_be 2 ?x) with [x / 256 mod 256; x mod 256]. cbn [app]. unfold pseudo_header.
  rewrite !land_byte, !byte_shift, Z.shiftr_div_pow2 by lia.
  change (2 ^ 24) with (256 * 256 * 256). change (2 ^ 16) with (256 * 256). change (2 ^ 8) with 256.
  rewrite !Z.div_div by lia. unfold wrap. change (2 ^ 8) with 256. by rewrite !Z.mod_mod by lia.
Qed.

Lemma pseudo_bytes src dst n : Forall byte_ty (pseudo_header src dst n).
Proof.
  rewrite pseudo_be, !Forall_app. split_and!; try apply to_be_bytes. by repeat constructor.
Qed.

Lemma sum_chunks_app d e acc :
  Nat.even (length d) = true -> Ipv4.sum_chunks (d ++ e) acc = Ipv4.sum_chunks e (Ipv4.sum_chunks d acc).
Proof.
  revert acc. induction d as [| a | a b d IH] using Ipv4.pair_ind; intros acc H; [done | done |].
  cbn [app Ipv4.sum_chunks]. by apply IH.
Qed.

Lemma wnot_0 : wrap 16 (wnot 32 0) = 65535.
Proof. reflexivity. Qed.

(** The checksum is the IPv4 checksum of the pseudo header and the padded datagram. *)
Lemma checksum_as_ipv4 src dst d : Forall byte_ty d ->
  calculate_checksum src dst d = Ipv4.calculate_checksum (pseudo_header src dst (Z.of_nat (length d)) ++ pad d).
Proof.
  intros Hd. unfold calculate_checksum, Ipv4.calculate_checksum.
  rewrite !sum_words_pad, sum_chunks_app by (done || apply pseudo_bytes).
  change (pad (pseudo_header _ _ _)) with (pseudo_header src dst (Z.of_nat (length d))).
  destruct (Ipv4.carry_loop 4 _) as [x | |]; cbn [mbind outcome_bind]; [| done ..].
  destruct (Z.eqb_spec x 0) as [-> | _]; [by rewrite wnot_0 | done].
Qed.

(** Every datagram's sum is positive: the pseudo header has the protocol number. *)
Lemma pseudo_positive src dst n d : Forall byte_ty d -> 0 < Ipv4.word_sum (pseudo_header src dst n ++ d).
Proof.
  intros Hd. rewrite Ipv4.word_sum_app by done. pose proof (Ipv4.word_sum_bounds d Hd).
  pose proof (pseudo_bytes src dst n) as H'. unfold pseudo_header in *. rewrite !Forall_cons in H'.
  cbn [Ipv4.word_sum]. change (from_be [0; 17]) with 17.
  repeat match goal with |- context [from_be [?a; ?b]] =>
    assert (0 <= from_be [a; b]) by (apply Ipv4.word_bounds; tauto); generalize dependent (from_be [a; b]); intros end.
  lia.
Qed.

Lemma checksum_value src dst d :
  Forall byte_ty d -> Z.of_nat (length d) <= 65520 ->
  calculate_checksum src dst d
  = Ret (65535 - Ipv4.ones (Ipv4.word_sum (pseudo_header src dst (Z.of_nat (length d)) ++ pad d))).
Proof.
  intros Hd Hl. rewrite checksum_as_ipv4 by done. apply Ipv4.checksum_spec.
  - apply Forall_app. split; [apply pseudo_bytes | by apply pad_bytes].
  - unfold Fragmentation.len. rewrite length_app. pose proof (pad_length d). change (length (pseudo_header _ _ _)) with 12%nat. lia.
Qed.

Lemma ones_oc_add s x : 0 <= s -> 0 <= x < 65536 -> oc_add (Ipv4.ones s) x = Ipv4.ones (s + x).
Proof.
  intros Hs Hx. unfold oc_add, Ipv4.ones. destruct (Z.eqb_spec s 0) as [-> | Hn].
  - destruct (Z.leb_spec 65536 (0 + x)); [lia |]. destruct (Z.eqb_spec (0 + x) 0); [lia |].
    rewrite Z.mod_small; lia.
  - destruct (Z.eqb_spec (s + x) 0); [lia |]. pose proof (Z.mod_pos_bound (s - 1) 65535).
    replace (s + x - 1) with (s - 1 + x) by lia. rewrite <- (Zplus_mod_idemp_l (s - 1)).
    set (r := (s - 1) mod 65535) in *. destruct (Z.leb_spec 65536 (r + 1 + x)).
    + rewrite <- (Z.mod_unique (r + x) 65535 1 (r + x - 65535)); lia.
    + rewrite Z.mod_small; lia.
Qed.

Lemma fold_oc_add ws s :
  0 <= s -> Forall (fun x => 0 <= x < 65536) ws -> fold_left oc_add ws (Ipv4.ones s) = Ipv4.ones (s + foldr Z.add 0 ws).
Proof.
  intros Hs Hws. revert s Hs. induction Hws as [| x ws Hx Hws IH]; intros s Hs; cbn [fold_left foldr].
  - by rewrite Z.add_0_r.
  - rewrite ones_oc_add, IH by lia. f_equal. lia.
Qed.

Lemma words_pad d : Forall byte_ty d ->
  Forall (fun x => 0 <= x < 65536) (words d) /\ foldr Z.add 0 (words d) = Ipv4.word_sum (pad d).
Proof.
  induction d as [| a | a b d IH] using Ipv4.pair_ind; intros H; [done | |].
  - inversion H as [| ? ? Ha _]; subst. split; [| done]. constructor; [| constructor].
    by apply Ipv4.word_bounds.
  - inversion H as [| ? ? Ha H']; inversion H' as [| ? ? Hb Hd]; subst. destruct (IH Hd) as [H1 H2].
    rewrite pad_cons. cbn [words foldr Ipv4.word_sum]. rewrite H2. split; [| done]. constructor; [| done].
    by apply Ipv4.word_bounds.
Qed.

Lemma pad_app d e : Nat.even (length d) = true -> pad (d ++ e) = d ++ pad e.
Proof.
  induction d as [| a | a b d IH] using Ipv4.pair_ind; intros H; [done | done |].
  cbn [app]. rewrite pad_cons, IH by done. done.
Qed.

(** The checksum is the one of RFC 768. For every datagram that fits an IPv4 packet, the
    routine, which adds in 32 bits and folds the carries at the end, returns the complement
    of the one's-complement sum of the pseudo header and the padded datagram, in which every
    carry is added at once. *)
Theorem udp_checksum_rfc src dst d :
  Forall byte_ty d -> Z.of_nat (length d) <= 65515 ->
  calculate_checksum src dst d = Ret (rfc_checksum src dst d).
Proof.
  intros Hd Hl. rewrite checksum_value by (done || lia). unfold rfc_checksum. rewrite <- pseudo_be. f_equal. f_equal.
  destruct (words_pad (pseudo_header src dst (Z.of_nat (length d)) ++ d)) as [Hw Hs].
  { apply Forall_app. split; [apply pseudo_bytes | done]. }
  pose proof (fold_oc_add _ 0 (Z.le_refl 0) Hw) as Hf. rewrite Hs, pad_app in Hf by done. symmetry. exact Hf.
Qed.

Lemma udp_checksum_rfc_witness : calculate_checksum 0x0A000002 0x0A000001 [4; 210; 91; 1; 0; 9; 0; 0; 65]
  = Ret (rfc_checksum 0x0A000002 0x0A000001 [4; 210; 91; 1; 0; 9; 0; 0; 65]).
Proof. apply udp_checksum_rfc; [by repeat constructor | by cbn]. Defined.

(** ** Building and accepting *)

(** The bytes of a datagram with checksum [c]. *)
Definition datagram (sport dport : Z) (data : list Z) (c : Z) : list Z :=
  (to_be 2 sport ++ to_be 2 dport ++ to_be 2 (wrap 16 (8 + Z.of_nat (length data)))) ++ to_be 2 c ++ data.

Lemma datagram_bytes sport dport data c : Forall byte_ty data -> Forall byte_ty (datagram sport dport data c).
Proof. intros H. unfold datagram. rewrite !Forall_app. split_and!; try apply to_be_bytes. done. Qed.

Lemma datagram_length sport dport data c : length (datagram sport dport data c) = (8 + length data)%nat.
Proof. reflexivity. Qed.

Lemma datagram_sum src dst n sport dport data c : u_ty 16 c ->
  Ipv4.word_sum (pseudo_header src dst n ++ pad (datagram sport dport data c))
  = Ipv4.word_sum (pseudo_header src dst n ++ pad (datagram sport dport data 0)) + c.
Proof.
  intros Hc. unfold datagram. rewrite !pad_app by done. rewrite !(Ipv4.word_sum_app _ (_ ++ _ ++ pad data)) by done.
  rewrite !(Ipv4.word_sum_app (to_be 2 sport ++ _)) by done. rewrite !(Ipv4.word_sum_app (to_be 2 _)) by done.
  change (Ipv4.word_sum (to_be 2 0)) with 0. change (Ipv4.word_sum (to_be 2 c)) with (from_be (to_be 2 c) + 0).
  rewrite (from_to_be 2 c Hc). lia.
Qed.

Lemma build_ok src dst sport dport data :
  Forall byte_ty data -> Z.of_nat (length data) <= 65507 ->
  exists c, u_ty 16 c /\ build src dst sport dport data = Ret (src, dst, datagram sport dport data c) /\
    calculate_checksum src dst (datagram sport dport data c) = Ret 0.
Proof.
  intros Hd Hl. unfold build. set (p0 := to_bytes _ _ ++ data).
  assert (p0 = datagram sport dport data 0) as -> by reflexivity.
  pose proof (datagram_bytes sport dport data 0 Hd) as Hb. pose proof (datagram_length sport dport data 0) as Hlen.
  rewrite checksum_value by (done || lia). rewrite Hlen.
  set (s := Ipv4.word_sum _). assert (0 < s) as Hs by (apply pseudo_positive; by apply pad_bytes).
  pose proof (Ipv4.ones_bounds s ltac:(lia)). set (c := 65535 - Ipv4.ones s).
  assert (u_ty 16 c) as Hc by (unfold u_ty, c; lia). exists c. split; [done |]. split.
  - cbn [mbind outcome_bind]. unfold datagram at 1. rewrite wr_cursor by (done || rewrite length_app; cbn; lia).
    cbn [mbind outcome_bind]. rewrite wr_cursor; [| done | rewrite length_drop, length_app; cbn; lia].
    cbn [mbind outcome_bind]. do 2 f_equal. unfold datagram. rewrite byte_shift by lia.
    change (to_be 2 c) with [c / 256 mod 256; c mod 256]. by rewrite <- !app_assoc.
  - rewrite checksum_value; [| by apply datagram_bytes | rewrite datagram_length; lia].
    rewrite datagram_length, datagram_sum by done. fold s. unfold c. by rewrite Ipv4.ones_complement.
Qed.

Lemma from_bytes_datagram sport dport data c :
  u_ty 16 sport -> u_ty 16 dport -> u_ty 16 c ->
  from_bytes (datagram sport dport data c)
  = Some (mk_header sport dport (wrap 16 (8 + Z.of_nat (length data))) c).
Proof.
  intros Hs Hd Hc. unfold from_bytes, datagram. set (n := wrap 16 _). assert (u_ty 16 n) as Hn by (by apply wrap_ty).
  change (to_be 2 ?x) with [x / 256 mod 256; x mod 256] in *. cbn [app].
  do 2 f_equal; apply (from_to_be 2); done.
Qed.

Lemma payload_datagram sport dport data c :
  (if UDP_HDR_SIZE <? Z.of_nat (length (datagram sport dport data c))
   then slice (datagram sport dport data c) 8 (length (datagram sport dport data c)) else Ret []) = Ret data.
Proof.
  rewrite datagram_length. destruct (Z.ltb_spec UDP_HDR_SIZE (Z.of_nat (8 + length data))) as [H | H].
  - rewrite slice_in by (rewrite ?datagram_length; lia). f_equal. unfold datagram. cbn [app to_be rev to_le drop].
    replace (8 + length data - 8)%nat with (length data) by lia. by rewrite take_ge.
  - unfold UDP_HDR_SIZE in H. by destruct data; [| cbn in H; lia].
Qed.

(** Acceptance: the checksum field is zero, or the datagram verifies. *)
Lemma input_datagram w src dst sport dport data c :
  u_ty 16 sport -> u_ty 16 dport -> u_ty 16 c ->
  c = 0 \/ calculate_checksum src dst (datagram sport dport data c) = Ret 0 ->
  udp_input w src dst (datagram sport dport data c)
  = deliver (mk_world (sockets w) (count_received (stats w))) src dst
      (mk_header sport dport (wrap 16 (8 + Z.of_nat (length data))) c) data.
Proof.
  intros Hs Hd Hc Hok. unfold udp_input. rewrite from_bytes_datagram, payload_datagram by done.
  cbn [mbind outcome_bind checksum]. destruct (Z.eqb_spec c 0) as [-> | Hn]; cbn [negb]; [done |].
  destruct Hok as [-> | ->]; done.
Qed.

(** The receiving socket gets the packet. *)
Definition enqueue (p : UdpPacket) (r : UdpSocket) : UdpSocket :=
  mk_socket (local_port r) (local_ip r) (remote_port r) (remote_ip r) (push_bounded (rx_buf r) p).

Lemma deliver_ok w src dst h data j r :
  position (matches (dst_port h) dst) (sockets w) = Some j -> sockets w !! j = Some r ->
  exists st, deliver w src dst h data
    = Ret (true, mk_world (<[j := enqueue (mk_packet src (src_port h) data) r]> (sockets w)) st).
Proof.
  intros Hp Hj. unfold deliver. rewrite Hp, (rd_lookup _ _ _ Hj). cbn [mbind outcome_bind].
  rewrite wr_in by (by eapply lookup_lt_Some). by eexists.
Qed.

(** A datagram in one IPv4 packet, built as [send_ipv4] and taken apart as [ipv4_input] do. *)
Definition carry (w : World) (d : Datagram) : outcome (bool * World) :=
  packet ← Ipv4.build_ipv4_packet d.1.1 d.1.2 17 64 d.2;
  parsed ← Ipv4.parse_ipv4_header packet;
  match parsed with
  | None => Ret (false, w)
  | Some (h, payload) => udp_input w (Ipv4.h_src_ip h) (Ipv4.h_dst_ip h) payload
  end.

(** Built, carried and queued. *)
Lemma carry_ok w src dst sport dport data j r :
  u_ty 32 src -> u_ty 32 dst -> u_ty 16 sport -> u_ty 16 dport -> Forall byte_ty data ->
  Z.of_nat (length data) <= 65507 ->
  position (matches dport dst) (sockets w) = Some j -> sockets w !! j = Some r ->
  exists d st, build src dst sport dport data = Ret d /\
    carry w d = Ret (true, mk_world (<[j := enqueue (mk_packet src sport data) r]> (sockets w)) st).
Proof.
  intros Hsrc Hdst Hsp Hdp Hd Hl Hp Hj.
  destruct (build_ok src dst sport dport data Hd Hl) as (c & Hc & Hb & Hsum).
  exists (src, dst, datagram sport dport data c).
  destruct (Ipv4.packet_parses src dst 17 64 (datagram sport dport data c))
    as (packet & h & Hbuild & Hparse & Hs & Ht & _); [done | done | by unfold byte_ty, u_ty .. | |].
  { unfold Fragmentation.len. rewrite datagram_length. lia. }
  destruct (deliver_ok (mk_world (sockets w) (count_received (stats w))) src dst
    (mk_header sport dport (wrap 16 (8 + Z.of_nat (length data))) c) data j r Hp Hj) as (st & Hdel).
  exists st. split; [exact Hb |]. unfold carry. cbn [fst snd]. rewrite Hbuild. cbn [mbind outcome_bind].
  rewrite Hparse. cbn [mbind outcome_bind]. rewrite Hs, Ht, input_datagram by (auto; done). exact Hdel.
Qed.

Lemma take_min_length {A} n (l : list A) : take (n `min` length l) l = take n l.
Proof. by rewrite <- take_take, (take_ge l). Qed.


Definition sample_world (l : list UdpSocket) : World := mk_world l zero.


(** ** The receive queue *)

(** Datagrams for one endpoint, given as sender's address and port and the data. *)
Fixpoint offer (w : World) (dst dport : Z) (ds : list UdpPacket) : outcome World :=
  match ds with
  | [] => Ret w
  | p :: ds =>
      d ← build (pk_src_ip p) dst (pk_src_port p) dport (pk_data p);
      '(_, w) ← carry w d;
      offer w dst dport ds
  end.

Definition packet_ty (p : UdpPacket) : Prop :=
  u_ty 32 (pk_src_ip p) /\ u_ty 16 (pk_src_port p) /\ Forall byte_ty (pk_data p) /\
  Z.of_nat (length (pk_data p)) <= 65507.

(** The newest 64 of a sequence. *)
Definition newest (l : list UdpPacket) : list UdpPacket := drop (length l - 64) l.

Lemma push_newest l p : push_bounded (newest l) p = newest (l ++ [p]).
Proof.
  unfold push_bounded, newest, UDP_RX_QUEUE_MAX. rewrite length_drop, length_app. cbn [length].
  destruct (Z.leb_spec 64 (Z.of_nat (length l - (length l - 64)))) as [H | H].
  - rewrite drop_drop. rewrite drop_app_le by lia. do 2 f_equal. lia.
  - rewrite !drop_app_le by lia. do 2 f_equal. lia.
Qed.

Lemma offer_cons w dst dport p ds d b w' :
  build (pk_src_ip p) dst (pk_src_port p) dport (pk_data p) = Ret d -> carry w d = Ret (b, w') ->
  offer w dst dport (p :: ds) = offer w' dst dport ds.
Proof.
  intros Hb Hc. change (offer w dst dport (p :: ds)) with
    (d ← build (pk_src_ip p) dst (pk_src_port p) dport (pk_data p); '(_, w) ← carry w d; offer w dst dport ds).
  rewrite Hb, outcome_bind_ret, Hc. exact (outcome_bind_ret (b, w') _).
Qed.

(** The receive queue is first-in first-out and keeps the newest 64 datagrams. Whatever
    sequence of datagrams is built for an endpoint and carried to it, every one is accepted,
    and the queue of the receiving socket is the last 64 of what it held and what came, in
    the order of arrival. *)
Theorem udp_queue_newest w dst dport ds j r past :
  u_ty 32 dst -> u_ty 16 dport -> Forall packet_ty ds ->
  position (matches dport dst) (sockets w) = Some j -> sockets w !! j = Some r -> rx_buf r = newest past ->
  exists w' r', offer w dst dport ds = Ret w' /\ sockets w' !! j = Some r' /\ rx_buf r' = newest (past ++ ds).
Proof.
  intros Hdst Hdp Hds. revert w r past. induction Hds as [| p ds (H1 & H2 & H3 & H4) Hds IH]; intros w r past Hp Hj Hq.
  { exists w, r. by rewrite app_nil_r. }
  destruct (carry_ok w (pk_src_ip p) dst (pk_src_port p) dport (pk_data p) j r) as (d & st & Hb & Hc); try done.
  rewrite (offer_cons w dst dport p ds d true _ Hb Hc).
  assert (mk_packet (pk_src_ip p) (pk_src_port p) (pk_data p) = p) as Ep by (by destruct p). rewrite Ep.
  destruct (IH (mk_world (<[j := enqueue p r]> (sockets w)) st) (enqueue p r) (past ++ [p])) as (w' & r' & Ho & Hr & Hn).
  - cbn [sockets]. by rewrite (position_insert _ _ _ r).
  - apply list_lookup_insert_eq. by eapply lookup_lt_Some.
  - cbn [enqueue rx_buf]. by rewrite Hq, push_newest.
  - exists w', r'. rewrite <- app_assoc in Hn. split; [exact Ho |]. split; [exact Hr | exact Hn].
Qed.

Lemma udp_queue_newest_witness : exists w' r',
  offer (sample_world [mk_socket 53 0 0 0 []]) 9 53 (replicate 70 (mk_packet 7 5000 [1])) = Ret w' /\
  sockets w' !! 0%nat = Some r' /\ length (rx_buf r') = 64%nat.
Proof.
  destruct (udp_queue_newest (sample_world [mk_socket 53 0 0 0 []]) 9 53 (replicate 70 (mk_packet 7 5000 [1])) 0
    (mk_socket 53 0 0 0 []) []) as (w' & r' & H1 & H2 & H3).
  - by unfold u_ty.
  - by unfold u_ty.
  - apply Forall_replicate. split; [by unfold u_ty |]. split; [by unfold u_ty |]. split; [by repeat constructor | by cbn].
  - reflexivity.
  - reflexivity.
  - reflexivity.
  - exists w', r'. split; [exact H1 |]. split; [exact H2 |]. by rewrite H3.
Defined.

(** ** The table under every call *)

Definition endpoint (s : UdpSocket) : Z * Z := (local_port s, local_ip s).

(** No queue exceeds its bound and no endpoint has two sockets. *)
Definition table_ok (w : World) : Prop :=
  Forall (fun s => Z.of_nat (length (rx_buf s)) <= UDP_RX_QUEUE_MAX) (sockets w) /\ NoDup (endpoint <$> sockets w).

Lemma sum_words_range d acc : 0 <= acc < 2 ^ 32 -> 0 <= sum_words d acc < 2 ^ 32.
Proof.
  revert acc. induction d as [| a | a b d IH] using Ipv4.pair_ind; intros acc H; cbn [sum_words]; [done | |].
  - by apply (wrap_ty 32).
  - apply IH. by apply (wrap_ty 32).
Qed.

Lemma udp_checksum_total src dst d : exists c, calculate_checksum src dst d = Ret c.
Proof.
  unfold calculate_checksum. rewrite Ipv4.carry_loop_spec by (apply sum_words_range, sum_words_range; lia).
  by eexists.
Qed.

Lemma udp_build_total src dst sport dport data : exists d, build src dst sport dport data = Ret d.
Proof.
  unfold build. set (p := to_bytes _ _ ++ data). destruct (udp_checksum_total src dst p) as [c ->].
  assert (8 <= length p)%nat as Hl by (unfold p; rewrite length_app; change (length (to_bytes _ _)) with 8%nat; lia).
  cbn [mbind outcome_bind]. rewrite wr_in by lia. cbn [mbind outcome_bind].
  rewrite wr_in by (rewrite length_insert; lia). by eexists.
Qed.

Lemma udp_table_ok_insert w i s s' st :
  table_ok w -> sockets w !! i = Some s -> endpoint s' = endpoint s ->
  Z.of_nat (length (rx_buf s')) <= UDP_RX_QUEUE_MAX -> table_ok (mk_world (<[i := s']> (sockets w)) st).
Proof.
  intros [Hq Hn] Hi He Hl. split; cbn [sockets].
  - by apply Forall_insert.
  - rewrite list_fmap_insert, list_insert_id; [done |]. by rewrite list_lookup_fmap, Hi, He.
Qed.

Lemma rd_below {A} (l : list A) i : (length l <=? i)%nat = false -> exists x, rd l i = Ret x /\ l !! i = Some x.
Proof.
  intros H%Nat.leb_gt. destruct (lookup_lt_is_Some_2 l i H) as [x Hx]. exists x. split; [by apply rd_lookup | done].
Qed.

Lemma udp_create_keeps w port ip : table_ok w -> table_ok (create_socket w port ip).2.
Proof.
  intros [Hq Hn]. unfold create_socket. destruct (if port =? 0 then _ else _) as [p |]; [| done].
  destruct (existsb _ _) eqn:E; [done |]. split; cbn [snd sockets].
  - apply Forall_app. split; [done |]. constructor; [by unfold UDP_RX_QUEUE_MAX | constructor].
  - rewrite fmap_app. apply NoDup_app. split_and!; [done | | apply NoDup_singleton].
    intros x Hx Hy. apply list_elem_of_singleton in Hy as ->.
    apply list_elem_of_fmap in Hx as (s & Hs & Hin). injection Hs as H1 H2.
    apply Bool.not_true_iff_false in E. apply E, existsb_exists. exists s.
    split; [by apply list_elem_of_In |]. by rewrite <- H1, <- H2, !Z.eqb_refl.
Qed.

Lemma udp_connect_keeps w i ip port : table_ok w -> exists b w', connect w i ip port = Ret (b, w') /\ table_ok w'.
Proof.
  intros Hw. unfold connect. destruct (_ <=? i)%nat eqn:E; [by eexists _, _ |].
  destruct (rd_below _ _ E) as (s & -> & Hi). apply Nat.leb_gt in E. cbn [mbind outcome_bind]. rewrite wr_in by done.
  eexists _, _. split; [reflexivity |]. apply (udp_table_ok_insert w i s); try done. destruct Hw as [Hq _].
  by apply (Forall_lookup_1 _ _ i s Hq).
Qed.

Lemma udp_close_keeps w i : table_ok w -> table_ok (close_socket w i).
Proof.
  intros [Hq Hn]. unfold close_socket. destruct (_ <? _)%nat; [| done]. split; cbn [sockets].
  - by apply Forall_delete.
  - eapply sublist_NoDup; [exact Hn |]. apply fmap_sublist, sublist_delete.
Qed.

Lemma udp_send_keeps w sent our i ip port data : table_ok w ->
  exists r w' ds, send w sent our i ip port data = Ret (r, w', ds) /\ table_ok w'.
Proof.
  intros Hw. unfold send. destruct (_ <=? i)%nat eqn:E; [by eexists _, _, _ |].
  destruct (rd_below _ _ E) as (s & -> & Hi). cbn [mbind outcome_bind].
  destruct (source_ip our ip s) as [src |]; [| by eexists _, _, _].
  destruct (udp_build_total src ip (local_port s) port data) as [d ->]. cbn [mbind outcome_bind].
  destruct (sent d); by eexists _, _, _.
Qed.

Lemma udp_receive_keeps w i n : table_ok w -> exists r w', receive w i n = Ret (r, w') /\ table_ok w'.
Proof.
  intros Hw. unfold receive. destruct (_ <=? i)%nat eqn:E; [by eexists _, _ |].
  destruct (rd_below _ _ E) as (s & -> & Hi). apply Nat.leb_gt in E. cbn [mbind outcome_bind].
  destruct (rx_buf s) as [| p q] eqn:Hs; [by eexists _, _ |]. rewrite wr_in by done.
  eexists _, _. split; [reflexivity |]. apply (udp_table_ok_insert w i s); try done. destruct Hw as [Hq _].
  pose proof (Forall_lookup_1 _ _ i s Hq Hi) as Hl. cbn in Hl. rewrite Hs in Hl. cbn [length rx_buf] in *. lia.
Qed.

Lemma push_bounded_length q p :
  Z.of_nat (length q) <= UDP_RX_QUEUE_MAX -> Z.of_nat (length (push_bounded q p)) <= UDP_RX_QUEUE_MAX.
Proof.
  unfold push_bounded, UDP_RX_QUEUE_MAX. intros H. rewrite length_app. cbn [length].
  destruct (Z.leb_spec 64 (Z.of_nat (length q))); rewrite ?length_drop; lia.
Qed.

Lemma udp_input_keeps w src dst data : table_ok w -> exists b w', udp_input w src dst data = Ret (b, w') /\ table_ok w'.
Proof.
  intros Hw. unfold udp_input. destruct (from_bytes data) as [h |]; [| by eexists _, _].
  assert (exists payload, (if UDP_HDR_SIZE <? Z.of_nat (length data) then slice data 8 (length data) else Ret [])
    = Ret payload) as [payload ->].
  { destruct (Z.ltb_spec UDP_HDR_SIZE (Z.of_nat (length data))) as [H | H]; [| by eexists].
    unfold UDP_HDR_SIZE in H. rewrite slice_in by lia. by eexists. }
  cbn [mbind outcome_bind].
  assert (exists x, (if negb (checksum h =? 0) then calculate_checksum src dst data else Ret 0) = Ret x) as [x ->].
  { destruct (negb _); [apply udp_checksum_total | by eexists]. }
  cbn [mbind outcome_bind]. destruct (_ && _); [by eexists _, _ |].
  unfold deliver. cbn [sockets stats]. destruct (position _ _) as [i |] eqn:Hp; [| by eexists _, _].
  destruct (position_Some _ _ _ Hp) as (s & Hi & _). rewrite (rd_lookup _ _ _ Hi). cbn [mbind outcome_bind].
  rewrite wr_in by (by eapply lookup_lt_Some). eexists _, _. split; [reflexivity |].
  apply (udp_table_ok_insert w i s); try done. apply push_bounded_length. destruct Hw as [Hq _].
  by apply (Forall_lookup_1 _ _ i s Hq).
Qed.

(** ** Findings *)

(** A datagram whose checksum comes out as zero travels unprotected. RFC 768 sends the
    complement instead, because a zero field means that there is no checksum; [build] leaves
    the zero. The datagram below is then accepted with any other payload of the same length. *)
Theorem zero_checksum_unprotected :
  build 1 2 1000 53 [251; 186] = Ret (1, 2, datagram 1000 53 [251; 186] 0) /\
  forall w j r a b, position (matches 53 2) (sockets w) = Some j -> sockets w !! j = Some r ->
    exists st, udp_input w 1 2 (datagram 1000 53 [a; b] 0)
      = Ret (true, mk_world (<[j := enqueue (mk_packet 1 1000 [a; b]) r]> (sockets w)) st).
Proof.
  split; [vm_compute; reflexivity |]. intros w j r a b Hp Hj.
  rewrite input_datagram by (auto; by unfold u_ty).
  exact (deliver_ok (mk_world (sockets w) (count_received (stats w))) 1 2
    (mk_header 1000 53 (wrap 16 (8 + Z.of_nat (length [a; b]))) 0) [a; b] j r Hp Hj).
Qed.

End Udp.
