(* ===== verification/Sockets.v ===== *)
(** * Sockets

    Models the socket table of [netstack/socket.rs]: creation, binding, the accept queue and
    shutdown. The readiness event is a wake-up of the scheduler and is not part of the state.
    Operations that also act on the TCP table are in [SocketApi]. *)

From S2P Require Import Prelude.

Module Sockets.

Inductive SocketType : Type := Stream | Dgram | Raw.
Inductive Protocol : Type := PTcp | PUdp | PIcmp | PRaw.
Inductive SocketState : Type := Closed | Bound | Listening | Connecting | Connected | Closing.

#[export] Instance SocketType_eq_dec : EqDecision SocketType.
Proof. solve_decision. Defined.
#[export] Instance Protocol_eq_dec : EqDecision Protocol.
Proof. solve_decision. Defined.
#[export] Instance SocketState_eq_dec : EqDecision SocketState.
Proof. solve_decision. Defined.

Definition from_socket_type (t : SocketType) : Protocol :=
  match t with Stream => PTcp | Dgram => PUdp | Raw => PRaw end.

Record SockAddr : Type := mk_addr { family : Z; port : Z; addr : list Z }.

Definition new_addr (family port ip : Z) : SockAddr :=
  mk_addr family port
    [wrap 8 (Z.shiftr ip 24); wrap 8 (Z.shiftr ip 16); wrap 8 (Z.shiftr ip 8); wrap 8 ip].

Definition ip (a : SockAddr) : Z := from_be (addr a).

Record Socket : Type := mk_socket {
  socket_type : SocketType; protocol : Protocol; state : SocketState;
  local_addr : option SockAddr; remote_addr : option SockAddr;
  tcp_socket_id : option Z; udp_socket_idx : option nat;
  sock_rx : list Z; sock_tx : list Z; sock_id : Z; bind_port : Z;
  accept_queue : list Z; listen_backlog : Z; shutdown_receive : bool; shutdown_send : bool }.

Definition new (t : SocketType) : Socket :=
  mk_socket t (from_socket_type t) Closed None None None None [] [] 0 0 [] 0 false false.

Inductive SocketError : Type :=
| WouldBlock | ConnectionRefused | ConnectionReset | NotConnected | InvalidSocket
| AddressInUse | AddressNotAvailable | InvalidArgument | OutOfMemory.

Definition as_i32 (e : SocketError) : Z :=
  match e with
  | WouldBlock => -1 | ConnectionRefused => -2 | ConnectionReset => -3 | NotConnected => -4
  | InvalidSocket => -5 | AddressInUse => -6 | AddressNotAvailable => -7 | InvalidArgument => -8
  | OutOfMemory => -9
  end.

(** [SOCKETS] and [NEXT_SOCKET_ID]. *)
Record World : Type := mk_world { sockets : list Socket; next_id : Z }.

Definition init (w : World) : World := mk_world [] (next_id w).

Definition find (w : World) (id : Z) : option Socket :=
  List.find (fun s => sock_id s =? id) (sockets w).

(** [sockets.iter_mut().find(|s| s.id == id)], then the changes of [f]. *)
Definition update (w : World) (id : Z) (f : Socket -> Socket) : World :=
  match position (fun s => sock_id s =? id) (sockets w) with
  | Some i => mk_world (alter f i (sockets w)) (next_id w)
  | None => w
  end.

Definition socket (w : World) (t : SocketType) (p : Protocol) : option Z * World :=
  let id := next_id w in
  let s := new t in
  let s := mk_socket t p (state s) None None None None [] [] id 0 [] 0 false false in
  (Some id, mk_world (sockets w ++ [s]) (id +[32] 1)).

Definition socket_auto (w : World) (t : SocketType) : option Z * World :=
  socket w t (from_socket_type t).

Definition remove (w : World) (id : Z) : bool * World :=
  let l := List.filter (fun s => negb (sock_id s =? id)) (sockets w) in
  (negb (length l =? length (sockets w))%nat, mk_world l (next_id w)).

Definition set_bound (a : SockAddr) (s : Socket) : Socket :=
  mk_socket (socket_type s) (protocol s) Bound (Some a) (remote_addr s) (tcp_socket_id s)
    (udp_socket_idx s) (sock_rx s) (sock_tx s) (sock_id s) (port a) (accept_queue s)
    (listen_backlog s) (shutdown_receive s) (shutdown_send s).

Definition bind (w : World) (id : Z) (a : SockAddr) : (unit + SocketError) * World :=
  let port_conflict :=
    existsb (fun s => negb (sock_id s =? id) && (bind_port s =? port a)
                      && negb (bool_decide (state s = Closed))) (sockets w) in
  if port_conflict then (inr AddressInUse, w)
  else
    match find w id with
    | None => (inr InvalidSocket, w)
    | Some _ => (inl tt, update w id (set_bound a))
    end.

(** The state change of [listen], after [tcp::listen] succeeded. *)
Definition set_listening (backlog : Z) (s : Socket) : Socket :=
  mk_socket (socket_type s) (protocol s) Listening (local_addr s) (remote_addr s) (tcp_socket_id s)
    (udp_socket_idx s) (sock_rx s) (sock_tx s) (sock_id s) (bind_port s) [] backlog
    (shutdown_receive s) (shutdown_send s).

Definition set_queue (q : list Z) (s : Socket) : Socket :=
  mk_socket (socket_type s) (protocol s) (state s) (local_addr s) (remote_addr s) (tcp_socket_id s)
    (udp_socket_idx s) (sock_rx s) (sock_tx s) (sock_id s) (bind_port s) q (listen_backlog s)
    (shutdown_receive s) (shutdown_send s).

Definition accept (w : World) (id : Z) : (Z + SocketError) * World :=
  match find w id with
  | None => (inr InvalidSocket, w)
  | Some s =>
      if negb (bool_decide (socket_type s = Stream)) then (inr InvalidArgument, w)
      else if negb (bool_decide (state s = Listening)) then (inr InvalidSocket, w)
      else
        match accept_queue s with
        | peer_id :: q => (inl peer_id, update w id (set_queue q))
        | [] => (inr WouldBlock, w)
        end
  end.

Definition mark_connected (w : World) (id tcp_id : Z) : World :=
  update w id (fun s =>
    mk_socket (socket_type s) (protocol s) Connected (local_addr s) (remote_addr s) (Some tcp_id)
      (udp_socket_idx s) (sock_rx s) (sock_tx s) (sock_id s) (bind_port s) (accept_queue s)
      (listen_backlog s) (shutdown_receive s) (shutdown_send s)).

Definition backlog_cap (s : Socket) : Z := if listen_backlog s =? 0 then 8 else listen_backlog s.

Definition enqueue_accept (w : World) (listen_id peer : Z) : bool * World :=
  match find w listen_id with
  | None => (false, w)
  | Some s =>
      if negb (bool_decide (state s = Listening)) then (false, w)
      else if backlog_cap s <=? Z.of_nat (length (accept_queue s)) then (false, w)
      else (true, update w listen_id (set_queue (accept_queue s ++ [peer])))
  end.

Definition shutdown (w : World) (id how : Z) : (unit + SocketError) * World :=
  match find w id with
  | None => (inr InvalidSocket, w)
  | Some s =>
      if negb ((0 <=? how) && (how <=? 2)) then (inr InvalidArgument, w)
      else
        let r := shutdown_receive s || (how =? 0) || (how =? 2) in
        let t := shutdown_send s || (how =? 1) || (how =? 2) in
        (inl tt, update w id (fun s =>
          mk_socket (socket_type s) (protocol s) (if r && t then Closing else state s) (local_addr s)
            (remote_addr s) (tcp_socket_id s) (udp_socket_idx s) (sock_rx s) (sock_tx s) (sock_id s)
            (bind_port s) (accept_queue s) (listen_backlog s) r t))
  end.

Definition get_state (w : World) (id : Z) : option SocketState := state <$> find w id.
Definition get_local_addr (w : World) (id : Z) : option SockAddr := find w id ≫= local_addr.
Definition get_remote_addr (w : World) (id : Z) : option SockAddr := find w id ≫= remote_addr.
Definition socket_count (w : World) : nat := length (sockets w).

End Sockets.
