(* ===== verification/Tcp.v ===== *)
(** * TCP connections

    Models [netstack/tcp.rs]: the header codec, the control block with its congestion
    control, the connection table and the state machine. The fields of [TcpControlBlock] are
    in three groups: [Ident] is fixed when the block is made, [Congestion] is the state of
    congestion control and retransmission, and the rest changes with segments. Packets
    handed to [send_ipv4], whose result the code ignores, are returned. The clock and the
    random source are arguments. *)

From S2P Require Import Prelude TcpCongestion Ipv4 Sockets.

Module Tcp.

Import TcpCongestion(CongestionState, SlowStart, CongestionAvoidance, FastRecovery, INITIAL_CWND).
#[local] Existing Instance TcpCongestion.CongestionState_eq_dec.

Definition TCP_HDR_SIZE : Z := 20.
Definition MAX_HDR_SIZE : Z := 60.
Definition MAX_TCP_CONNECTIONS : Z := 256.

Definition FIN : Z := 0x01.
Definition SYN : Z := 0x02.
Definition RST : Z := 0x04.
Definition PSH : Z := 0x08.
Definition ACK : Z := 0x10.

Inductive TcpState : Type :=
| Closed | Listen | SynSent | SynReceived | Established | FinWait1 | FinWait2 | CloseWait
| Closing | LastAck | TimeWait.

#[export] Instance TcpState_eq_dec : EqDecision TcpState.
Proof. solve_decision. Defined.

(** ** Headers *)

Record TcpHeader : Type := mk_header {
  src_port : Z; dst_port : Z; seq : Z; ack : Z; data_offset_flags : Z; window : Z;
  checksum : Z; urgent : Z }.

Definition header_length (h : TcpHeader) : Z := Z.shiftr (data_offset_flags h) 12 * 4.

Definition validate (h : TcpHeader) (data : list Z) : bool :=
  let hdr := header_length h in
  if negb ((TCP_HDR_SIZE <=? hdr) && (hdr <=? MAX_HDR_SIZE)) then false
  else hdr <=? Z.of_nat (length data).

Definition flags (h : TcpHeader) : Z := Z.land (data_offset_flags h) 0xFF.

Definition from_bytes (data : list Z) : option TcpHeader :=
  match data with
  | d0 :: d1 :: d2 :: d3 :: d4 :: d5 :: d6 :: d7 :: d8 :: d9 :: d10 :: d11 :: d12 :: d13 :: d14
    :: d15 :: d16 :: d17 :: d18 :: d19 :: _ =>
      Some (mk_header (from_be [d0; d1]) (from_be [d2; d3]) (from_be [d4; d5; d6; d7])
        (from_be [d8; d9; d10; d11]) (from_be [d12; d13]) (from_be [d14; d15])
        (from_be [d16; d17]) (from_be [d18; d19]))
  | _ => None
  end.

Definition to_bytes (h : TcpHeader) (data : list Z) : list Z :=
  if Z.of_nat (length data) <? TCP_HDR_SIZE then data
  else to_be 2 (src_port h) ++ to_be 2 (dst_port h) ++ to_be 4 (seq h) ++ to_be 4 (ack h)
    ++ to_be 2 (data_offset_flags h) ++ to_be 2 (window h) ++ to_be 2 (checksum h)
    ++ to_be 2 (urgent h) ++ drop 20 data.

(** ** Control blocks *)

Record Ident : Type := mk_ident {
  local_ip : Z; local_port : Z; remote_ip : Z; remote_port : Z; snd_iss : Z; rcv_irs : Z;
  snd_wnd : Z; rcv_wnd : Z; mss : Z; socket_id : Z; listen_socket_id : Z }.

Record Congestion : Type := mk_cc {
  rto : Z; srtt : Z; rttvar : Z; cwnd : Z; ssthresh : Z; dup_acks : Z;
  congestion_state : CongestionState; recover : Z; retransmit_count : Z; last_send_time : Z;
  in_retransmit : bool }.

Record Tcb : Type := mk_tcb {
  ident : Ident; state : TcpState; snd_una : Z; snd_nxt : Z; rcv_nxt : Z; rx_buf : list Z;
  tx_buf : list Z; cc : Congestion }.

(** [TcpControlBlock::new] with the fields its callers fill in. *)
Definition new_tcb (now : Z) (i : Ident) (s : TcpState) (una nxt rcv : Z) : Tcb :=
  mk_tcb i s una nxt rcv [] []
    (mk_cc 1000 0 0 INITIAL_CWND 65535 0 SlowStart 0 0 now false).

Definition new_ident (l_ip l_port r_ip r_port iss irs id listen_id : Z) : Ident :=
  mk_ident l_ip l_port r_ip r_port iss irs 8192 65535 1460 id listen_id.

Definition set_state (s : TcpState) (t : Tcb) : Tcb :=
  mk_tcb (ident t) s (snd_una t) (snd_nxt t) (rcv_nxt t) (rx_buf t) (tx_buf t) (cc t).
Definition set_una (u : Z) (t : Tcb) : Tcb :=
  mk_tcb (ident t) (state t) u (snd_nxt t) (rcv_nxt t) (rx_buf t) (tx_buf t) (cc t).
Definition set_nxt (n : Z) (t : Tcb) : Tcb :=
  mk_tcb (ident t) (state t) (snd_una t) n (rcv_nxt t) (rx_buf t) (tx_buf t) (cc t).
Definition set_rcv (n : Z) (t : Tcb) : Tcb :=
  mk_tcb (ident t) (state t) (snd_una t) (snd_nxt t) n (rx_buf t) (tx_buf t) (cc t).
Definition set_rx (b : list Z) (t : Tcb) : Tcb :=
  mk_tcb (ident t) (state t) (snd_una t) (snd_nxt t) (rcv_nxt t) b (tx_buf t) (cc t).
Definition set_tx (b : list Z) (t : Tcb) : Tcb :=
  mk_tcb (ident t) (state t) (snd_una t) (snd_nxt t) (rcv_nxt t) (rx_buf t) b (cc t).
Definition set_cc (c : Congestion) (t : Tcb) : Tcb :=
  mk_tcb (ident t) (state t) (snd_una t) (snd_nxt t) (rcv_nxt t) (rx_buf t) (tx_buf t) c.

Definition seq_after (a b : Z) : bool := (a -[32] b <? 0x80000000) && negb (a =? b).
Definition seq_after_or_equal (a b : Z) : bool := (a =? b) || (a -[32] b <? 0x80000000).

(** ** Congestion control *)

Definition update_rtt (t : Tcb) (measured_rtt : Z) : Tcb :=
  let c := cc t in
  let '(srtt', rttvar') :=
    if srtt c =? 0 then (measured_rtt, measured_rtt / 2)
    else
      let delta := Z.abs (measured_rtt - srtt c) in
      ((7 *[32] srtt c +[32] measured_rtt) / 8, (3 *[32] rttvar c +[32] delta) / 4) in
  let rto_calc := srtt' +[32] 4 *[32] rttvar' in
  set_cc (mk_cc (Z.max 1000 (Z.min rto_calc 60000)) srtt' rttvar' (cwnd c) (ssthresh c) (dup_acks c)
    (congestion_state c) (recover c) (retransmit_count c) (last_send_time c) (in_retransmit c)) t.

Definition flight_size (t : Tcb) : Z := snd_nxt t -[32] snd_una t.

(** [cc] with another window. *)
Definition set_window (c : Congestion) (cwnd ssthresh dups : Z) (s : CongestionState) (recover : Z)
    : Congestion :=
  mk_cc (rto c) (srtt c) (rttvar c) cwnd ssthresh dups s recover (retransmit_count c)
    (last_send_time c) (in_retransmit c).

Definition on_duplicate_ack (t : Tcb) : Tcb :=
  let c := cc t in
  let m := mss (ident t) in
  let dups := dup_acks c +[8] 1 in
  if dups =? 3 then
    let ss := Z.max (flight_size t / 2) (2 *[32] m) in
    set_cc (set_window c (sat_add 32 ss (3 *[32] m)) ss dups FastRecovery (snd_una t +[32] ss)) t
  else if (3 <? dups) && bool_decide (congestion_state c = FastRecovery) then
    set_cc (set_window c (sat_add 32 (cwnd c) m) (ssthresh c) dups (congestion_state c) (recover c)) t
  else set_cc (set_window c (cwnd c) (ssthresh c) dups (congestion_state c) (recover c)) t.

Definition on_ack_slow_start (t : Tcb) (acked_bytes : Z) : Tcb :=
  let c := cc t in
  let w := sat_add 32 (cwnd c) (Z.min acked_bytes (mss (ident t))) in
  let s := if ssthresh c <=? w then CongestionAvoidance else congestion_state c in
  set_cc (set_window c w (ssthresh c) (dup_acks c) s (recover c)) t.

Definition on_ack_congestion_avoidance (t : Tcb) (acked_bytes : Z) : Tcb :=
  let c := cc t in
  let m := mss (ident t) in
  if cwnd c =? 0 then t
  else
    let increment := (m *[32] Z.min acked_bytes m) / cwnd c in
    set_cc (set_window c (sat_add 32 (cwnd c) increment) (ssthresh c) (dup_acks c)
      (congestion_state c) (recover c)) t.

Definition on_ack (t : Tcb) (ack_num : Z) : Tcb :=
  if seq_after ack_num (snd_una t) then
    let c := cc t in
    let t := set_cc (set_window c (cwnd c) (ssthresh c) 0 (congestion_state c) (recover c)) t in
    let acked_bytes := ack_num -[32] snd_una t in
    let c := cc t in
    if bool_decide (congestion_state c = FastRecovery) && seq_after_or_equal ack_num (recover c) then
      set_una ack_num
        (set_cc (set_window c (ssthresh c) (ssthresh c) (dup_acks c) CongestionAvoidance (recover c)) t)
    else
      set_una ack_num
        (match congestion_state c with
         | SlowStart => on_ack_slow_start t acked_bytes
         | _ => on_ack_congestion_avoidance t acked_bytes
         end)
  else if ack_num =? snd_una t then set_una ack_num (on_duplicate_ack t)
  else set_una ack_num t.

Definition on_timeout (t : Tcb) : Tcb :=
  let c := cc t in
  let m := mss (ident t) in
  set_cc (mk_cc (Z.min (rto c *[32] 2) 60000) (srtt c) (rttvar c) m
    (Z.max (flight_size t / 2) (2 *[32] m)) 0 SlowStart (snd_una t +[32] m)
    (retransmit_count c +[8] 1) (last_send_time c) true) t.

Definition can_send (t : Tcb) : bool := flight_size t <? Z.min (cwnd (cc t)) (snd_wnd (ident t)).
Definition send_window (t : Tcb) : Z :=
  sat_sub (Z.min (cwnd (cc t)) (snd_wnd (ident t))) (flight_size t).

(** ** Segments *)

(** A packet for [send_ipv4]: source, destination, bytes. *)
Record Packet : Type := mk_packet { p_src : Z; p_dst : Z; p_data : list Z }.

Definition calculate_tcp_checksum (src_ip dst_ip : Z) (tcp_data : list Z) : outcome Z :=
  let n := Z.of_nat (length tcp_data) in
  let pseudo :=
    [wrap 8 (Z.shiftr src_ip 24); wrap 8 (Z.shiftr src_ip 16); wrap 8 (Z.shiftr src_ip 8); wrap 8 src_ip;
     wrap 8 (Z.shiftr dst_ip 24); wrap 8 (Z.shiftr dst_ip 16); wrap 8 (Z.shiftr dst_ip 8); wrap 8 dst_ip;
     0; 6; Z.land (Z.shiftr n 8) 0xFF; Z.land n 0xFF] in
  sum ← Ipv4.carry_loop 4 (Ipv4.sum_chunks tcp_data (Ipv4.sum_chunks pseudo 0));
  Ret (wrap 16 (wnot 32 sum)).

(** Header and data with a zero checksum, then the checksum in place. *)
Definition build_segment (src_ip dst_ip sport dport seq ack offset_flags wnd : Z) (data : list Z)
    : outcome Packet :=
  let packet := to_be 2 sport ++ to_be 2 dport ++ to_be 4 seq ++ to_be 4 ack ++ to_be 2 offset_flags
    ++ to_be 2 wnd ++ [0; 0] ++ to_be 2 0 ++ data in
  sum ← calculate_tcp_checksum src_ip dst_ip packet;
  packet ← copy_at packet 16 (to_be 2 sum);
  Ret (mk_packet src_ip dst_ip packet).

Definition offset_flags (flags : Z) : Z := Z.lor (wrap 16 (Z.shiftl (TCP_HDR_SIZE / 4) 12)) flags.

Definition send_segment (t : Tcb) (flags seq ack : Z) (data : list Z) : outcome Packet :=
  let i := ident t in
  build_segment (local_ip i) (remote_ip i) (local_port i) (remote_port i) seq ack (offset_flags flags)
    (rcv_wnd i) data.

(** [None] for a segment that is a reset itself. *)
Definition send_reset (h : TcpHeader) (src_ip dst_ip payload_len : Z) : outcome (option Packet) :=
  if has_bits (flags h) RST then Ret None
  else
    let '(s, a) :=
      if has_bits (flags h) ACK then (ack h, 0) else (0, sat_add 32 (seq h) (wrap 32 payload_len)) in
    p ← build_segment dst_ip src_ip (dst_port h) (src_port h) s a (offset_flags RST) 0 [];
    Ret (Some p).

(** One segment on one block: the block, the packets, and whether it is established now. *)
Definition handle_tcp_segment (t : Tcb) (h : TcpHeader) (fl : Z) (payload : list Z)
    : outcome (Tcb * list Packet * bool) :=
  let payload_len := Z.of_nat (length payload) in
  let has m := has_bits fl m in
  let reply t := p ← send_segment t ACK (snd_nxt t) (rcv_nxt t) []; Ret (t, [p], false) in
  match state t with
  | Closed | Listen | CloseWait | TimeWait => Ret (t, [], false)
  | SynSent =>
      if has RST then Ret (set_state Closed t, [], false)
      else if has ACK then
        if has SYN then
          reply (set_state Established (set_una (ack h) (set_rcv (seq h +[32] 1) t)))
        else if ack h =? snd_nxt t then Ret (set_state Established (set_una (ack h) t), [], false)
        else Ret (t, [], false)
      else Ret (t, [], false)
  | SynReceived =>
      if has ACK && (ack h =? snd_nxt t)
      then Ret (set_state Established (set_una (ack h) t), [], true)
      else Ret (t, [], false)
  | Established =>
      let t := if 0 <? payload_len
               then set_rcv (rcv_nxt t +[32] wrap 32 payload_len) (set_rx (rx_buf t ++ payload) t) else t in
      let t := if has ACK then
                 let acked := ack h -[32] snd_una t in
                 let t := on_ack t (ack h) in
                 set_tx (drop (Z.to_nat (Z.min acked (Z.of_nat (length (tx_buf t))))) (tx_buf t)) t
               else t in
      if has FIN then reply (set_state CloseWait (set_rcv (rcv_nxt t +[32] 1) t))
      else Ret (t, [], false)
  | FinWait1 =>
      if has FIN then
        let t := set_rcv (rcv_nxt t +[32] 1) t in
        reply (if has ACK then set_state TimeWait (set_una (ack h) t) else set_state Closing t)
      else if has ACK then Ret (set_state FinWait2 (set_una (ack h) t), [], false)
      else Ret (t, [], false)
  | FinWait2 =>
      if has FIN then reply (set_state TimeWait (set_rcv (rcv_nxt t +[32] 1) t))
      else Ret (t, [], false)
  | Closing =>
      if has ACK && (ack h =? snd_nxt t)
      then Ret (set_state TimeWait (set_una (ack h) t), [], false)
      else Ret (t, [], false)
  | LastAck =>
      if has ACK && (ack h =? snd_nxt t) then Ret (set_state Closed t, [], false)
      else Ret (t, [], false)
  end.

(** ** The table *)

(** The statics of the module; [failed_connects] is never written. *)
Record World : Type := mk_world {
  connections : list Tcb; next_socket_id : Z; segments_sent : Z; segments_retransmitted : Z;
  active_opens : Z; passive_opens : Z; resets : Z; segs_received : Z }.

Definition set_conns (w : World) (l : list Tcb) : World :=
  mk_world l (next_socket_id w) (segments_sent w) (segments_retransmitted w) (active_opens w)
    (passive_opens w) (resets w) (segs_received w).

(** The increment at the end of [send_segment], [n] times. *)
Definition count_sent (w : World) (n : nat) : World :=
  mk_world (connections w) (next_socket_id w) (segments_sent w +[64] Z.of_nat n)
    (segments_retransmitted w) (active_opens w) (passive_opens w) (resets w) (segs_received w).

Definition init (w : World) : World := mk_world [] (next_socket_id w) 0 0 0 0 0 0.

Definition find_tcb (w : World) (l_ip l_port r_ip r_port : Z) : option nat :=
  position (fun t => (local_ip (ident t) =? l_ip) && (local_port (ident t) =? l_port)
                     && (remote_ip (ident t) =? r_ip) && (remote_port (ident t) =? r_port)) (connections w).

Definition find_listener (w : World) (l_ip l_port : Z) : option nat :=
  position (fun t => bool_decide (state t = Listen)
                     && ((local_ip (ident t) =? l_ip) || (local_ip (ident t) =? 0))
                     && (local_port (ident t) =? l_port)) (connections w).

(** Clock and random source at the time of a call. *)
Record Env : Type := mk_env { now : Z; csprng : option (list Z) }.

Definition generate_isn (e : Env) : Z :=
  match csprng e with
  | Some out => from_le out
  | None =>
      let z := Z.lxor (now e) 0x9E3779B97F4A7C15 in
      let z := Z.lxor z (Z.shiftr z 30) *[64] 0xBF58476D1CE4E5B9 in
      let z := Z.lxor z (Z.shiftr z 27) *[64] 0x94D049BB133111EB in
      wrap 32 (Z.lxor z (Z.shiftr z 31))
  end.

(** The block of a child of [listener]; [child] is the id of its new socket. *)
Definition child_tcb (e : Env) (h : TcpHeader) (src_ip dst_ip : Z) (listener : Tcb) (child : Z) : Tcb :=
  let isn := generate_isn e in
  new_tcb (now e)
    (new_ident dst_ip (dst_port h) src_ip (src_port h) isn (seq h) child (socket_id (ident listener)))
    SynReceived isn (isn +[32] 1) (seq h +[32] 1).

Definition count_passive (w : World) : World :=
  mk_world (connections w) (next_socket_id w) (segments_sent w) (segments_retransmitted w)
    (active_opens w) (passive_opens w +[64] 1) (resets w) (segs_received w).

Definition passive_open (w : World) (e : Env) (h : TcpHeader) (src_ip dst_ip : Z) (idx : nat) (child : Z)
    : outcome (World * list Packet) :=
  listener ← rd (connections w) idx;
  let t := child_tcb e h src_ip dst_ip listener child in
  p ← send_segment t (Z.lor SYN ACK) (snd_iss (ident t)) (rcv_nxt t) [];
  Ret (count_passive (count_sent (set_conns w (connections w ++ [t])) 1), [p]).

(** The part of [tcp_input] after the header was accepted. *)
Definition dispatch (w : World) (s : Sockets.World) (e : Env) (src_ip dst_ip : Z) (h : TcpHeader)
    (payload : list Z) : outcome (World * Sockets.World * list Packet) :=
  let fl := flags h in
  match find_tcb w dst_ip (dst_port h) src_ip (src_port h) with
  | Some idx =>
      t ← rd (connections w) idx;
      '(t', ps, established_now) ← handle_tcp_segment t h fl payload;
      let w := count_sent (set_conns w (<[idx := t']> (connections w))) (length ps) in
      if established_now && negb (listen_socket_id (ident t) =? 0) then
        let s := Sockets.mark_connected s (socket_id (ident t)) (socket_id (ident t)) in
        let '(_, s) := Sockets.enqueue_accept s (listen_socket_id (ident t)) (socket_id (ident t)) in
        Ret (w, s, ps)
      else Ret (w, s, ps)
  | None =>
      if has_bits fl SYN then
        if MAX_TCP_CONNECTIONS <=? Z.of_nat (length (connections w)) then Ret (w, s, [])
        else
          match find_listener w dst_ip (dst_port h) with
          | None => Ret (w, s, [])
          | Some idx =>
              match Sockets.socket s Sockets.Stream Sockets.PTcp with
              | (None, s) => Ret (w, s, [])
              | (Some child, s) =>
                  if MAX_TCP_CONNECTIONS <=? Z.of_nat (length (connections w))
                  then Ret (w, (Sockets.remove s child).2, [])
                  else '(w, ps) ← passive_open w e h src_ip dst_ip idx child; Ret (w, s, ps)
              end
          end
      else
        p ← send_reset h src_ip dst_ip (Z.of_nat (length payload));
        match p with
        | None => Ret (w, s, [])
        | Some p =>
            Ret (mk_world (connections w) (next_socket_id w) (segments_sent w)
                   (segments_retransmitted w) (active_opens w) (passive_opens w)
                   (resets w +[64] 1) (segs_received w), s, [p])
        end
  end.

Definition count_received (w : World) : World :=
  mk_world (connections w) (next_socket_id w) (segments_sent w) (segments_retransmitted w)
    (active_opens w) (passive_opens w) (resets w) (segs_received w +[64] 1).

Definition tcp_input (w : World) (s : Sockets.World) (e : Env) (src_ip dst_ip : Z) (data : list Z)
    : outcome (World * Sockets.World * list Packet) :=
  match from_bytes data with
  | None => Ret (w, s, [])
  | Some h =>
      if negb (validate h data) then Ret (w, s, [])
      else
        payload ← slice data (Z.to_nat (header_length h)) (length data);
        dispatch (count_received w) s e src_ip dst_ip h payload
  end.

(** ** The interface of the sockets *)

Definition with_next_id (w : World) (l : list Tcb) : World :=
  mk_world l (next_socket_id w +[32] 1) (segments_sent w) (segments_retransmitted w) (active_opens w)
    (passive_opens w) (resets w) (segs_received w).

Definition listens_on (l_ip l_port : Z) (t : Tcb) : bool :=
  (local_ip (ident t) =? l_ip) && (local_port (ident t) =? l_port) && bool_decide (state t = Listen).

Definition listen (w : World) (e : Env) (l_ip l_port : Z) : option Z * World :=
  if MAX_TCP_CONNECTIONS <=? Z.of_nat (length (connections w)) then (None, w)
  else if existsb (listens_on l_ip l_port) (connections w) then (None, w)
  else
    let id := next_socket_id w in
    let t := new_tcb (now e) (new_ident l_ip l_port 0 0 0 0 id 0) Listen 0 0 0 in
    (Some id, with_next_id w (connections w ++ [t])).

Definition close_listen (w : World) (l_ip l_port : Z) : bool * World :=
  let l := List.filter (fun t => negb (listens_on l_ip l_port t)) (connections w) in
  (negb (length l =? length (connections w))%nat, set_conns w l).

(** [(49152..=u16::MAX).find(..)]: [n] candidates from [c] on. *)
Fixpoint port_loop (n : nat) (conns : list Tcb) (c : Z) : option Z :=
  match n with
  | O => None
  | S n =>
      if negb (existsb (fun t => local_port (ident t) =? c) conns) then Some c
      else port_loop n conns (c + 1)
  end.

Definition connect (w : World) (e : Env) (l_ip l_port r_ip r_port : Z)
    : outcome (option Z * World * list Packet) :=
  if MAX_TCP_CONNECTIONS <=? Z.of_nat (length (connections w)) then Ret (None, w, [])
  else
    match (if l_port =? 0 then port_loop (Z.to_nat 16384) (connections w) 49152 else Some l_port) with
    | None => Ret (None, w, [])
    | Some l_port =>
        let isn := generate_isn e in
        let id := next_socket_id w in
        let t := new_tcb (now e) (new_ident l_ip l_port r_ip r_port isn 0 id 0) SynSent isn (isn +[32] 1) 0 in
        p ← send_segment t SYN isn 0 [];
        let w := count_sent (with_next_id w (connections w ++ [t])) 1 in
        Ret (Some id, mk_world (connections w) (next_socket_id w) (segments_sent w)
               (segments_retransmitted w) (active_opens w +[64] 1) (passive_opens w) (resets w)
               (segs_received w), [p])
    end.

Definition by_id (id : Z) (t : Tcb) : bool := socket_id (ident t) =? id.

Definition socket_state (w : World) (id : Z) : TcpState :=
  match List.find (by_id id) (connections w) with Some t => state t | None => Closed end.

Definition has_buffered_data (w : World) (id : Z) : bool :=
  existsb (fun t => by_id id t && negb (bool_decide (rx_buf t = []))) (connections w).

(** The [match] of [close] on one block. *)
Definition close_tcb (t : Tcb) : outcome (Tcb * list Packet) :=
  let fin t := p ← send_segment t (Z.lor FIN ACK) (snd_nxt t) (rcv_nxt t) []; Ret (t, [p]) in
  match state t with
  | Established => fin (set_state FinWait1 t)
  | CloseWait => fin (set_state LastAck t)
  | _ => Ret (set_state Closed t, [])
  end.

Definition close (w : World) (id : Z) : outcome (bool * World * list Packet) :=
  match position (by_id id) (connections w) with
  | None => Ret (false, w, [])
  | Some idx =>
      t ← rd (connections w) idx;
      '(t, ps) ← close_tcb t;
      let l := List.filter (fun t => negb (by_id id t && bool_decide (state t = Closed)))
                 (<[idx := t]> (connections w)) in
      Ret (true, count_sent (set_conns w l) (length ps), ps)
  end.

Definition send (w : World) (id : Z) (data : list Z) : outcome (option Z * World * list Packet) :=
  match position (by_id id) (connections w) with
  | None => Ret (None, w, [])
  | Some idx =>
      t ← rd (connections w) idx;
      if negb (bool_decide (state t = Established)) then Ret (None, w, [])
      else
        let t := set_tx (tx_buf t ++ data) t in
        p ← send_segment t (Z.lor PSH ACK) (snd_nxt t) (rcv_nxt t) (tx_buf t);
        let t := set_nxt (snd_nxt t +[32] wrap 32 (Z.of_nat (length data))) t in
        Ret (Some (Z.of_nat (length data)),
             count_sent (set_conns w (<[idx := t]> (connections w))) 1, [p])
  end.

(** [buflen] is the room of the caller's buffer; the bytes copied to it are returned. *)
Definition receive (w : World) (id : Z) (buflen : nat) : outcome (option (list Z) * World) :=
  match position (by_id id) (connections w) with
  | None => Ret (None, w)
  | Some idx =>
      t ← rd (connections w) idx;
      if negb (bool_decide (state t = Established)) && negb (bool_decide (state t = CloseWait))
      then Ret (None, w)
      else if bool_decide (rx_buf t = []) then Ret (Some [], w)
      else
        let copy_len := (buflen `min` length (rx_buf t))%nat in
        Ret (Some (take copy_len (rx_buf t)),
             set_conns w (<[idx := set_rx (drop copy_len (rx_buf t)) t]> (connections w)))
  end.

(** ** Retransmission *)

Definition needs_retransmit (now : Z) (t : Tcb) : bool :=
  match state t with
  | Established | SynSent | SynReceived =>
      if snd_una t <? snd_nxt t then rto (cc t) <? sat_sub now (last_send_time (cc t)) else false
  | _ => false
  end.

(** The retransmission of one block; [later] is the clock read after the send. *)
Definition retransmit (later : Z) (t : Tcb) : outcome (Tcb * Packet) :=
  let payload := take (Z.to_nat (mss (ident t))) (tx_buf t) in
  let fl := if bool_decide (state t = SynSent) then SYN else ACK in
  p ← send_segment t fl (snd_una t) (rcv_nxt t) payload;
  let c := cc t in
  let t := set_cc (mk_cc (rto c) (srtt c) (rttvar c) (cwnd c) (ssthresh c) (dup_acks c)
                     (congestion_state c) (recover c) (retransmit_count c) later true) t in
  Ret (on_timeout t, p).

(** [for i in 0..connections.len()]; [later i] is the clock at the end of round [i]. *)
Fixpoint timer_loop (now : Z) (later : nat -> Z) (i : nat) (l : list Tcb)
    : outcome (list Tcb * list Packet) :=
  match l with
  | [] => Ret ([], [])
  | t :: l =>
      '(t, ps) ← (if needs_retransmit now t
                  then '(t, p) ← retransmit (later i) t; Ret (t, [p]) else Ret (t, []));
      '(l, qs) ← timer_loop now later (S i) l;
      Ret (t :: l, ps ++ qs)
  end.

Definition check_retransmit_timers (w : World) (now : Z) (later : nat -> Z) : outcome (World * list Packet) :=
  '(l, ps) ← timer_loop now later 0 (connections w);
  let n := length ps in
  Ret (mk_world l (next_socket_id w) (segments_sent w +[64] Z.of_nat n)
         (segments_retransmitted w +[64] Z.of_nat n) (active_opens w) (passive_opens w) (resets w)
         (segs_received w), ps).

Definition get_cwnd (w : World) (id : Z) : option Z := (cwnd ∘ cc) <$> List.find (by_id id) (connections w).
Definition get_ssthresh (w : World) (id : Z) : option Z :=
  (ssthresh ∘ cc) <$> List.find (by_id id) (connections w).

Record TcpStats : Type := mk_stats {
  st_active_opens : Z; st_passive_opens : Z; st_failed_connects : Z; st_resets : Z; st_segs_sent : Z;
  st_segs_received : Z; st_segs_retrans : Z }.

Definition get_stats (w : World) : TcpStats :=
  mk_stats (active_opens w) (passive_opens w) 0 (resets w) (segments_sent w) (segs_received w)
    (segments_retransmitted w).

(** ** Types *)

Definition header_ty (h : TcpHeader) : Prop :=
  u_ty 16 (src_port h) /\ u_ty 16 (dst_port h) /\ u_ty 32 (seq h) /\ u_ty 32 (ack h) /\
  u_ty 16 (data_offset_flags h) /\ u_ty 16 (window h) /\ u_ty 16 (checksum h) /\ u_ty 16 (urgent h).

Definition ident_ty (i : Ident) : Prop :=
  u_ty 32 (local_ip i) /\ u_ty 16 (local_port i) /\ u_ty 32 (remote_ip i) /\ u_ty 16 (remote_port i) /\
  u_ty 32 (snd_iss i) /\ u_ty 32 (rcv_irs i) /\ u_ty 16 (snd_wnd i) /\ u_ty 16 (rcv_wnd i) /\
  u_ty 16 (mss i) /\ u_ty 32 (socket_id i) /\ u_ty 32 (listen_socket_id i).

Definition cc_ty (c : Congestion) : Prop :=
  u_ty 32 (rto c) /\ u_ty 32 (srtt c) /\ u_ty 32 (rttvar c) /\ u_ty 32 (cwnd c) /\
  u_ty 32 (ssthresh c) /\ u_ty 8 (dup_acks c) /\ u_ty 32 (recover c) /\ u_ty 8 (retransmit_count c) /\
  u_ty 64 (last_send_time c).

Definition tcb_ty (t : Tcb) : Prop :=
  ident_ty (ident t) /\ u_ty 32 (snd_una t) /\ u_ty 32 (snd_nxt t) /\ u_ty 32 (rcv_nxt t) /\
  Forall byte_ty (rx_buf t) /\ Forall byte_ty (tx_buf t) /\ cc_ty (cc t).

Definition packet_ty (p : Packet) : Prop :=
  u_ty 32 (p_src p) /\ u_ty 32 (p_dst p) /\ Forall byte_ty (p_data p).

Lemma sum_chunks_range d acc : 0 <= acc < 2 ^ 32 -> 0 <= Ipv4.sum_chunks d acc < 2 ^ 32.
Proof.
  revert acc. induction d as [| a | a b d IH] using Ipv4.pair_ind; intros acc H; cbn [Ipv4.sum_chunks].
  - done.
  - by apply (wrap_ty 32).
  - apply IH. by apply (wrap_ty 32).
Qed.

Lemma tcp_checksum_total src dst data :
  exists sum, calculate_tcp_checksum src dst data = Ret sum /\ u_ty 16 sum.
Proof.
  unfold calculate_tcp_checksum. rewrite Ipv4.carry_loop_spec by (apply sum_chunks_range, sum_chunks_range; lia).
  eexists. split; [done |]. auto with nt.
Qed.

(** The bytes of a segment. *)
Definition segment_bytes (sport dport seq ack offset_flags wnd sum : Z) (data : list Z) : list Z :=
  to_be 2 sport ++ to_be 2 dport ++ to_be 4 seq ++ to_be 4 ack ++ to_be 2 offset_flags
    ++ to_be 2 wnd ++ to_be 2 sum ++ to_be 2 0 ++ data.

Lemma segment_bytes_ty sport dport seq ack ofl wnd sum data :
  Forall byte_ty data -> Forall byte_ty (segment_bytes sport dport seq ack ofl wnd sum data).
Proof. intros. unfold segment_bytes. rewrite !Forall_app. split_and!; (apply to_be_bytes || done). Qed.

Lemma build_segment_ok src dst sport dport seq ack ofl wnd data :
  exists sum, u_ty 16 sum /\
    build_segment src dst sport dport seq ack ofl wnd data
    = Ret (mk_packet src dst (segment_bytes sport dport seq ack ofl wnd sum data)).
Proof.
  unfold build_segment.
  match goal with |- context [calculate_tcp_checksum src dst ?p] => set (packet := p) end.
  destruct (tcp_checksum_total src dst packet) as (sum & -> & Hs). exists sum. split; [done |].
  cbn [mbind outcome_bind].
  set (pre := to_be 2 sport ++ to_be 2 dport ++ to_be 4 seq ++ to_be 4 ack ++ to_be 2 ofl ++ to_be 2 wnd).
  replace packet with (pre ++ ([0; 0] ++ to_be 2 0 ++ data)) by (unfold pre, packet; by rewrite <- !app_assoc).
  rewrite copy_cursor.
  - cbn [mbind outcome_bind]. rewrite length_to_be. do 2 f_equal.
  - unfold pre. by rewrite !length_app, !length_to_be.
  - rewrite !length_app, !length_to_be. cbn. lia.
Qed.

Lemma from_bytes_segment sport dport seq ack ofl wnd sum data :
  u_ty 16 sport -> u_ty 16 dport -> u_ty 32 seq -> u_ty 32 ack -> u_ty 16 ofl -> u_ty 16 wnd -> u_ty 16 sum ->
  from_bytes (segment_bytes sport dport seq ack ofl wnd sum data)
  = Some (mk_header sport dport seq ack ofl wnd sum 0).
Proof.
  intros. unfold from_bytes, segment_bytes.
  change (to_be 2 ?x) with [x / 256 mod 256; x mod 256] in *.
  change (to_be 4 ?x) with [x / 256 / 256 / 256 mod 256; x / 256 / 256 mod 256; x / 256 mod 256; x mod 256].
  cbn [app]. do 2 f_equal; apply (from_to_be 2) || apply (from_to_be 4); done.
Qed.

Lemma offset_flags_eq fl : u_ty 8 fl -> offset_flags fl = 0x5000 + fl.
Proof.
  intros H. unfold offset_flags. change (wrap 16 (Z.shiftl (TCP_HDR_SIZE / 4) 12)) with (5 * 2 ^ 12).
  apply lor_mul_add; [lia |]. unfold u_ty in *. lia.
Qed.

(** A segment that was built is taken apart again. *)
Lemma tcp_input_segment w s e src dst sport dport sq ak fl wnd sum data :
  u_ty 16 sport -> u_ty 16 dport -> u_ty 32 sq -> u_ty 32 ak -> u_ty 8 fl -> u_ty 16 wnd -> u_ty 16 sum ->
  let h := mk_header sport dport sq ak (offset_flags fl) wnd sum 0 in
  tcp_input w s e src dst (segment_bytes sport dport sq ak (offset_flags fl) wnd sum data)
  = dispatch (count_received w) s e src dst h data /\ flags h = fl.
Proof.
  intros Hsp Hdp Hsq Hak Hfl Hwnd Hsum h.
  assert (offset_flags fl = 0x5000 + fl) as E by (by apply offset_flags_eq).
  assert (u_ty 16 (offset_flags fl)) as Hof by (rewrite E; unfold u_ty in *; lia).
  assert (header_length h = 20) as Hl.
  { unfold header_length, h. cbn [data_offset_flags]. rewrite E, Z.shiftr_div_pow2 by lia.
    rewrite <- (Z.div_unique_pos (0x5000 + fl) (2 ^ 12) 5 fl); unfold u_ty in *; lia. }
  split.
  - unfold tcp_input. rewrite from_bytes_segment by done. fold h.
    set (d := segment_bytes _ _ _ _ _ _ _ _).
    assert (exists pre, d = pre ++ data /\ length pre = 20%nat) as (pre & Hd & Hp).
    { exists (segment_bytes sport dport sq ak (offset_flags fl) wnd sum []). split.
      - unfold d, segment_bytes. rewrite <- !app_assoc. done.
      - unfold segment_bytes. rewrite !length_app, !length_to_be. done. }
    assert (validate h d = true) as ->.
    { unfold validate. rewrite Hl, Hd, length_app, Hp. cbn. apply Z.leb_le. lia. }
    cbn [negb]. rewrite Hl, Hd, slice_in by (rewrite length_app; lia).
    cbn [mbind outcome_bind]. f_equal.
    replace (Z.to_nat 20) with (length pre) by lia. rewrite drop_app_length, take_ge; [done |].
    rewrite length_app. lia.
  - unfold flags, h. cbn [data_offset_flags]. rewrite E. change 0xFF with (Z.ones 8).
    rewrite Z.land_ones by lia. change 0x5000 with (80 * 2 ^ 8).
    rewrite Z.add_comm, Z.mod_add by lia. by apply Z.mod_small.
Qed.

(** ** Preservation of types *)

Lemma u_ty_min w x y : u_ty w x -> u_ty w y -> u_ty w (Z.min x y).
Proof. unfold u_ty. lia. Qed.
Lemma u_ty_max w x y : u_ty w x -> u_ty w y -> u_ty w (Z.max x y).
Proof. unfold u_ty. lia. Qed.
Lemma u_ty_sat_add w x y : 0 <= w -> 0 <= x -> 0 <= y -> u_ty w (sat_add w x y).
Proof. intros. unfold u_ty, sat_add. pose proof (Z.pow_pos_nonneg 2 w). lia. Qed.
Lemma u_ty_div w x k : 0 < k -> u_ty w x -> u_ty w (x / k).
Proof.
  intros Hk Hx. unfold u_ty in *. split; [apply Z.div_pos; lia |].
  apply Z.le_lt_trans with x; [| lia]. apply Z.div_le_upper_bound; nia.
Qed.
Lemma u_ty_mono w v x : u_ty w x -> 0 <= w <= v -> u_ty v x.
Proof.
  unfold u_ty. intros H Hv. pose proof (Z.pow_le_mono_r 2 w v). lia.
Qed.

Lemma mss_32 t : tcb_ty t -> u_ty 32 (mss (ident t)).
Proof. intros ((_ & _ & _ & _ & _ & _ & _ & _ & H & _) & _). by apply (u_ty_mono 16). Qed.

Lemma u_ty_nonneg w x : u_ty w x -> 0 <= x.
Proof. unfold u_ty. lia. Qed.

#[local] Hint Resolve u_ty_min u_ty_max u_ty_sat_add u_ty_div mss_32 : nt.
#[local] Hint Extern 2 (0 <= ?x) => (eapply (u_ty_nonneg 32); eassumption) : nt.
#[local] Hint Extern 1 (0 <= _) => lia : nt.
#[local] Hint Extern 1 (0 < _) => lia : nt.

Lemma set_cc_ty c t : tcb_ty t -> cc_ty c -> tcb_ty (set_cc c t).
Proof. unfold tcb_ty, set_cc. cbn. tauto. Qed.
Lemma set_una_ty u t : tcb_ty t -> u_ty 32 u -> tcb_ty (set_una u t).
Proof. unfold tcb_ty, set_una. cbn. tauto. Qed.
Lemma set_nxt_ty u t : tcb_ty t -> u_ty 32 u -> tcb_ty (set_nxt u t).
Proof. unfold tcb_ty, set_nxt. cbn. tauto. Qed.
Lemma set_rcv_ty u t : tcb_ty t -> u_ty 32 u -> tcb_ty (set_rcv u t).
Proof. unfold tcb_ty, set_rcv. cbn. tauto. Qed.
Lemma set_state_ty s t : tcb_ty t -> tcb_ty (set_state s t).
Proof. unfold tcb_ty, set_state. cbn. tauto. Qed.
Lemma set_rx_ty b t : tcb_ty t -> Forall byte_ty b -> tcb_ty (set_rx b t).
Proof. unfold tcb_ty, set_rx. cbn. tauto. Qed.
Lemma set_tx_ty b t : tcb_ty t -> Forall byte_ty b -> tcb_ty (set_tx b t).
Proof. unfold tcb_ty, set_tx. cbn. tauto. Qed.

Lemma on_duplicate_ack_ty t : tcb_ty t -> tcb_ty (on_duplicate_ack t).
Proof.
  intros Ht. pose proof (mss_32 t Ht) as Hm. pose proof Ht as (_ & _ & _ & _ & _ & _ & Hc).
  unfold cc_ty in Hc. destruct Hc as (H1 & H2 & H3 & H4 & H5 & H6 & H7 & H8 & H9).
  assert (u_ty 32 (flight_size t)) by (apply wrap_ty; lia).
  assert (u_ty 32 (Z.max (flight_size t / 2) (2 *[32] mss (ident t)))) by auto with nt.
  unfold on_duplicate_ack. repeat case_match; apply set_cc_ty; try done; unfold cc_ty, set_window; cbn;
    split_and!; auto with nt; apply u_ty_sat_add; (lia || (eapply u_ty_nonneg; eauto with nt)).
Qed.

(** Operations of congestion control keep everything but the window state. *)
Definition same_flow (t t' : Tcb) : Prop :=
  ident t' = ident t /\ state t' = state t /\ snd_nxt t' = snd_nxt t /\ rcv_nxt t' = rcv_nxt t /\
  rx_buf t' = rx_buf t /\ tx_buf t' = tx_buf t.

Lemma on_ack_ok t a : tcb_ty t -> u_ty 32 a ->
  tcb_ty (on_ack t a) /\ same_flow t (on_ack t a) /\ snd_una (on_ack t a) = a.
Proof.
  intros Ht Ha. pose proof (mss_32 t Ht) as Hm. pose proof Ht as (_ & _ & _ & _ & _ & _ & Hc).
  unfold cc_ty in Hc. destruct Hc as (H1 & H2 & H3 & H4 & H5 & H6 & H7 & H8 & H9).
  assert (u_ty 32 (a -[32] snd_una t)) as Hd by (apply wrap_ty; lia).
  assert (forall x, u_ty 32 (sat_add 32 (cwnd (cc t)) (Z.min (a -[32] snd_una t) x)) \/ x < 0) as Hs.
  { intros x. destruct (Z.lt_ge_cases x 0); [by right | left]. apply u_ty_sat_add; unfold u_ty in *; lia. }
  split; [| by unfold on_ack, on_duplicate_ack, on_ack_slow_start, on_ack_congestion_avoidance, same_flow;
            repeat case_match].
  unfold on_ack. destruct (seq_after a (snd_una t)) eqn:E.
  - destruct (bool_decide _ && _); apply set_una_ty; try done.
    + apply set_cc_ty; [apply set_cc_ty; [done |] |]; unfold cc_ty, set_window; cbn; split_and!; auto with nt.
    + set (t0 := set_cc _ t).
      assert (tcb_ty t0) as Ht0
        by (apply set_cc_ty; [done | unfold cc_ty, set_window; cbn; split_and!; auto with nt]).
      case_match; unfold on_ack_slow_start, on_ack_congestion_avoidance; [| case_match; [done |] ..];
        apply set_cc_ty; try done; unfold cc_ty, set_window; cbn; split_and!; auto with nt;
        apply u_ty_sat_add; try (unfold u_ty in *; lia); apply Z.div_pos; try (unfold u_ty in *; lia);
        match goal with |- 0 <= wrap 32 ?x => pose proof (wrap_ty 32 x); unfold u_ty in *; lia | _ => idtac end;
        unfold u_ty in *; cbn in *; rewrite ?Z.eqb_neq in *; lia.
  - case_match; apply set_una_ty; try done. by apply on_duplicate_ack_ty.
Qed.

Lemma on_timeout_ty t : tcb_ty t -> tcb_ty (on_timeout t).
Proof.
  intros Ht. pose proof (mss_32 t Ht) as Hm. pose proof Ht as (_ & _ & _ & _ & _ & _ & Hc).
  unfold cc_ty in Hc. destruct Hc as (H1 & H2 & H3 & H4 & H5 & H6 & H7 & H8 & H9).
  assert (u_ty 32 (flight_size t)) by (apply wrap_ty; lia).
  unfold on_timeout. apply set_cc_ty; [done |]. unfold cc_ty. cbn. split_and!; auto with nt.
Qed.

(** A reply or other segment of a typed block. *)
Lemma send_segment_ok t fl sq ak data :
  tcb_ty t -> u_ty 8 fl -> Forall byte_ty data ->
  exists sum, u_ty 16 sum /\
    send_segment t fl sq ak data
    = Ret (mk_packet (local_ip (ident t)) (remote_ip (ident t))
             (segment_bytes (local_port (ident t)) (remote_port (ident t)) sq ak (offset_flags fl)
                (rcv_wnd (ident t)) sum data)) /\
    Forall byte_ty (segment_bytes (local_port (ident t)) (remote_port (ident t)) sq ak (offset_flags fl)
                (rcv_wnd (ident t)) sum data).
Proof.
  intros Ht Hf Hd. unfold send_segment.
  edestruct build_segment_ok as (sum & Hs & Hb). exists sum. split; [exact Hs |]. split; [exact Hb |].
  by apply segment_bytes_ty.
Qed.

(** The data and acknowledgement steps of an established connection. *)
Definition take_data (t : Tcb) (payload : list Z) : Tcb :=
  let n := Z.of_nat (length payload) in
  if 0 <? n then set_rcv (rcv_nxt t +[32] wrap 32 n) (set_rx (rx_buf t ++ payload) t) else t.

Definition take_ack (t : Tcb) (a : Z) : Tcb :=
  let acked := a -[32] snd_una t in
  let t := on_ack t a in
  set_tx (drop (Z.to_nat (Z.min acked (Z.of_nat (length (tx_buf t))))) (tx_buf t)) t.

Lemma take_data_ok t payload : tcb_ty t -> Forall byte_ty payload ->
  tcb_ty (take_data t payload) /\ ident (take_data t payload) = ident t /\
  state (take_data t payload) = state t.
Proof.
  intros Ht Hp. unfold take_data. case_match; [| done]. split; [| done].
  apply set_rcv_ty; [| auto with nt]. apply set_rx_ty; [done |]. apply Forall_app. split; [apply Ht | done].
Qed.

Lemma take_ack_ok t a : tcb_ty t -> u_ty 32 a ->
  tcb_ty (take_ack t a) /\ ident (take_ack t a) = ident t /\ state (take_ack t a) = state t.
Proof.
  intros Ht Ha. destruct (on_ack_ok t a Ht Ha) as (Ht' & (Hi & Hs & _) & _). unfold take_ack.
  split; [| done]. apply set_tx_ty; [done |]. apply Forall_drop, Ht'.
Qed.

(** What every result of [handle_tcp_segment] has. *)
Definition segment_result (t : Tcb) (r : outcome (Tcb * list Packet * bool)) : Prop :=
  exists t' ps b, r = Ret (t', ps, b) /\ tcb_ty t' /\ ident t' = ident t /\ Forall packet_ty ps /\
    (state t <> Listen -> state t' <> Listen).

Lemma silent_result t t' b :
  tcb_ty t' -> ident t' = ident t -> (state t <> Listen -> state t' <> Listen) ->
  segment_result t (Ret (t', [], b)).
Proof. intros. exists t', [], b. split_and!; done. Qed.

Lemma reply_result t t' :
  tcb_ty t' -> ident t' = ident t -> state t' <> Listen ->
  segment_result t (p ← send_segment t' ACK (snd_nxt t') (rcv_nxt t') []; Ret (t', [p], false)).
Proof.
  intros Ht' Hi Hs. destruct (send_segment_ok t' ACK (snd_nxt t') (rcv_nxt t') []) as (sum & _ & -> & Hb);
    [done | by unfold u_ty | constructor |].
  eexists _, _, _. split; [reflexivity |]. split_and!; try done. constructor; [| constructor].
  destruct Ht' as ((? & ? & ? & _) & _). by unfold packet_ty.
Qed.

#[local] Hint Resolve silent_result reply_result set_state_ty set_una_ty set_rcv_ty : tcp.
#[local] Hint Extern 1 (u_ty 32 (wrap 32 _)) => (apply wrap_ty; lia) : tcp.

Lemma handle_tcp_segment_ok t h fl payload :
  tcb_ty t -> header_ty h -> Forall byte_ty payload ->
  segment_result t (handle_tcp_segment t h fl payload).
Proof.
  intros Ht (_ & _ & Hsq & Hak & _) Hp. unfold handle_tcp_segment.
  destruct (state t) eqn:Est; cbn zeta.
  5: { fold (take_data t payload).
    destruct (take_data_ok t payload Ht Hp) as (H1 & H2 & H3). set (t1 := take_data t payload) in *.
    fold (take_ack t1 (ack h)). destruct (take_ack_ok t1 (ack h) H1 Hak) as (G1 & G2 & G3).
    assert (exists t2, (if has_bits fl ACK then take_ack t1 (ack h) else t1) = t2 /\ tcb_ty t2 /\
      ident t2 = ident t /\ state t2 = Established) as (t2 & -> & F1 & F2 & F3).
    { eexists. split; [done |]. case_match; split_and!; congruence || done. }
    case_match; [apply reply_result; eauto with tcp | apply silent_result; [done | done | congruence]]. }
  all: repeat match goal with |- segment_result _ (if ?c then _ else _) => destruct c end.
  all: first [ apply reply_result | apply silent_result ]; try done; try case_match;
    eauto 8 with tcp; congruence.
Qed.

(** ** Invariant of the table *)

Definition is_listener (t : Tcb) : bool := bool_decide (state t = Listen).
Definition endpoint (t : Tcb) : Z * Z := (local_ip (ident t), local_port (ident t)).
Definition listeners (l : list Tcb) : list (Z * Z) := endpoint <$> List.filter is_listener l.

(** The table is bounded, its blocks are typed and no endpoint has two listeners. *)
Definition table_ok (l : list Tcb) : Prop :=
  Z.of_nat (length l) <= MAX_TCP_CONNECTIONS /\ Forall tcb_ty l /\ NoDup (listeners l).

Definition world_ok (w : World) (s : Sockets.World) : Prop :=
  table_ok (connections w) /\ u_ty 32 (next_socket_id w) /\ u_ty 32 (Sockets.next_id s).

Definition env_ty (e : Env) : Prop :=
  u_ty 64 (now e) /\ match csprng e with Some out => length out = 4%nat /\ Forall byte_ty out | None => True end.

Lemma generate_isn_ty e : env_ty e -> u_ty 32 (generate_isn e).
Proof.
  intros [_ H]. unfold generate_isn. destruct (csprng e) as [out |]; [| auto with nt].
  destruct H as [Hl Hb]. pose proof (from_le_ty out Hb) as Ht. by rewrite Hl in Ht.
Qed.

Lemma listeners_app l k : listeners (l ++ k) = listeners l ++ listeners k.
Proof. unfold listeners. by rewrite List.filter_app, fmap_app. Qed.

Lemma listeners_one t : listeners [t] = if bool_decide (state t = Listen) then [endpoint t] else [].
Proof. unfold listeners. cbn. unfold is_listener. by case_bool_decide. Qed.

Lemma listeners_cons t l : listeners (t :: l) = listeners [t] ++ listeners l.
Proof. apply (listeners_app [t]). Qed.

(** Appending a block that is no listener, or a listener of a new endpoint. *)
Lemma table_ok_push l t :
  table_ok l -> Z.of_nat (length l) < MAX_TCP_CONNECTIONS -> tcb_ty t ->
  (state t = Listen -> existsb (listens_on (local_ip (ident t)) (local_port (ident t))) l = false) ->
  table_ok (l ++ [t]).
Proof.
  intros (Hl & Ht & Hu) Hlt Htt Hnew. split_and!.
  - rewrite length_app. cbn. lia.
  - apply Forall_app. by split; [| constructor].
  - rewrite listeners_app, listeners_one. apply NoDup_app. split; [done |].
    case_bool_decide as Hs; [| split; [intros ? _; apply not_elem_of_nil | constructor]]. split; [| apply NoDup_singleton]. intros p Hp ->%list_elem_of_singleton.
    specialize (Hnew Hs). unfold listeners in Hp. apply list_elem_of_fmap in Hp as (u & E & Hin).
    apply filter_elem in Hin as [Hin Hul]. rewrite <- not_true_iff_false in Hnew. apply Hnew.
    apply existsb_exists. exists u. split; [by apply list_elem_of_In |].
    unfold listens_on, endpoint, is_listener in *. injection E as E1 E2.
    rewrite E1, E2, !Z.eqb_refl. by rewrite Hul.
Qed.

Lemma listeners_sublist l k : k `sublist_of` l -> listeners k `sublist_of` listeners l.
Proof.
  intros H. unfold listeners. induction H as [| t l k H IH | t l k H IH]; cbn; [done | |].
  - destruct (is_listener t); cbn; [by constructor | done].
  - destruct (is_listener t); cbn; [by constructor | done].
Qed.

Lemma table_ok_sublist l k : table_ok l -> k `sublist_of` l -> table_ok k.
Proof.
  intros (Hl & Ht & Hu) Hs. split_and!.
  - pose proof (sublist_length _ _ Hs). lia.
  - rewrite Forall_forall in *. intros t Hin. apply Ht. by eapply elem_of_sublist.
  - eapply sublist_NoDup; [exact Hu | by apply listeners_sublist].
Qed.

Lemma listeners_insert l i t t' :
  l !! i = Some t -> ident t' = ident t -> (state t' = Listen -> state t = Listen) ->
  listeners (<[i := t']> l) `sublist_of` listeners l.
Proof.
  intros Hi Hid Hs. rewrite <- (take_drop_middle l i t Hi) at 2.
  rewrite insert_take_drop by (by eapply lookup_lt_Some).
  rewrite !listeners_app, (listeners_cons t'), (listeners_cons t), !listeners_one.
  apply sublist_app; [done |]. apply sublist_app; [| done]. unfold endpoint. rewrite Hid.
  do 2 case_bool_decide; [done | tauto | apply sublist_nil_l | done].
Qed.

(** Replacing a block by a later state of it. *)
Lemma table_ok_insert l i t t' :
  table_ok l -> l !! i = Some t -> tcb_ty t' -> ident t' = ident t -> (state t' = Listen -> state t = Listen) ->
  table_ok (<[i := t']> l).
Proof.
  intros (Hl & Ht & Hu) Hi Ht' Hid Hs. split_and!.
  - by rewrite length_insert.
  - by apply Forall_insert.
  - eapply sublist_NoDup; [exact Hu | by eapply listeners_insert].
Qed.

Lemma new_tcb_ty nw i s una nxt rcv :
  ident_ty i -> u_ty 64 nw -> u_ty 32 una -> u_ty 32 nxt -> u_ty 32 rcv -> tcb_ty (new_tcb nw i s una nxt rcv).
Proof.
  intros. unfold tcb_ty, new_tcb. cbn. split_and!; done.
Qed.

Lemma new_ident_ty l_ip l_port r_ip r_port iss irs id lid :
  u_ty 32 l_ip -> u_ty 16 l_port -> u_ty 32 r_ip -> u_ty 16 r_port -> u_ty 32 iss -> u_ty 32 irs ->
  u_ty 32 id -> u_ty 32 lid -> ident_ty (new_ident l_ip l_port r_ip r_port iss irs id lid).
Proof. intros. unfold ident_ty, new_ident. cbn. split_and!; try done; by unfold u_ty. Qed.

Lemma ty_0 w : 0 <= w -> u_ty w 0.
Proof. intros. unfold u_ty. pose proof (Z.pow_pos_nonneg 2 w). lia. Qed.

#[local] Hint Resolve ty_0 new_ident_ty generate_isn_ty : tcp.
#[local] Hint Extern 1 (0 <= _) => lia : tcp.

(** *** Calls *)

Inductive Call : Type :=
| CListen (e : Env) (l_ip l_port : Z)
| CCloseListen (l_ip l_port : Z)
| CConnect (e : Env) (l_ip l_port r_ip r_port : Z)
| CInput (e : Env) (src_ip dst_ip : Z) (data : list Z)
| CClose (id : Z)
| CSend (id : Z) (data : list Z)
| CReceive (id : Z) (buflen : nat)
| CTimers (now : Z) (later : nat -> Z).

Definition call_ty (c : Call) : Prop :=
  match c with
  | CListen e i p => env_ty e /\ u_ty 32 i /\ u_ty 16 p
  | CCloseListen i p => u_ty 32 i /\ u_ty 16 p
  | CConnect e i p j q => env_ty e /\ u_ty 32 i /\ u_ty 16 p /\ u_ty 32 j /\ u_ty 16 q
  | CInput e i j d => env_ty e /\ u_ty 32 i /\ u_ty 32 j /\ Forall byte_ty d
  | CClose id => u_ty 32 id
  | CSend id d => u_ty 32 id /\ Forall byte_ty d
  | CReceive id _ => u_ty 32 id
  | CTimers n later => u_ty 64 n /\ forall i, u_ty 64 (later i)
  end.

Definition run (w : World) (s : Sockets.World) (c : Call) : outcome (World * Sockets.World * list Packet) :=
  match c with
  | CListen e i p => Ret ((listen w e i p).2, s, [])
  | CCloseListen i p => Ret ((close_listen w i p).2, s, [])
  | CConnect e i p j q => '(_, w, ps) ← connect w e i p j q; Ret (w, s, ps)
  | CInput e i j d => tcp_input w s e i j d
  | CClose id => '(_, w, ps) ← close w id; Ret (w, s, ps)
  | CSend id d => '(_, w, ps) ← send w id d; Ret (w, s, ps)
  | CReceive id n => '(_, w) ← receive w id n; Ret (w, s, [])
  | CTimers n later => '(w, ps) ← check_retransmit_timers w n later; Ret (w, s, ps)
  end.

Fixpoint run_all (w : World) (s : Sockets.World) (cs : list Call)
    : outcome (World * Sockets.World * list Packet) :=
  match cs with
  | [] => Ret (w, s, [])
  | c :: cs =>
      '(w, s, ps) ← run w s c;
      '(w, s, qs) ← run_all w s cs;
      Ret (w, s, ps ++ qs)
  end.

(** A call returns, keeps the invariant and only sends typed packets. *)
Definition keeps (r : outcome (World * Sockets.World * list Packet)) : Prop :=
  exists w s ps, r = Ret (w, s, ps) /\ world_ok w s /\ Forall packet_ty ps.

Lemma listen_keeps w s e i p :
  world_ok w s -> env_ty e -> u_ty 32 i -> u_ty 16 p -> keeps (run w s (CListen e i p)).
Proof.
  intros (Ht & Hn & Hs) He Hi Hp. cbn [run]. eexists _, _, _. split; [done |]. split; [| constructor].
  unfold listen. destruct (Z.leb_spec MAX_TCP_CONNECTIONS (Z.of_nat (length (connections w)))); [done |].
  destruct (existsb _ _) eqn:E; [done |]. cbn. split_and!; cbn; auto with nt.
  apply table_ok_push; cbn; [done | done | | done].
  apply new_tcb_ty; [| apply He | by unfold u_ty ..]. auto with tcp.
Qed.

Lemma port_loop_ty n l c :
  0 <= c -> c + Z.of_nat n <= 65536 -> match port_loop n l c with Some x => u_ty 16 x | None => True end.
Proof.
  revert c. induction n as [| n IH]; intros c H0 Hc; cbn [port_loop]; [done |].
  destruct (negb _); [unfold u_ty; lia | apply IH; lia].
Qed.

Lemma connect_keeps w s e i p j q :
  world_ok w s -> env_ty e -> u_ty 32 i -> u_ty 16 p -> u_ty 32 j -> u_ty 16 q ->
  keeps (run w s (CConnect e i p j q)).
Proof.
  intros (Ht & Hn & Hs) He Hi Hp Hj Hq. cbn [run]. unfold connect.
  destruct (Z.leb_spec MAX_TCP_CONNECTIONS (Z.of_nat (length (connections w)))).
  { eexists _, _, _. split; [done |]. by split. }
  pose proof (port_loop_ty (Z.to_nat 16384) (connections w) 49152 ltac:(lia) ltac:(lia)) as Hport.
  assert (match (if p =? 0 then port_loop (Z.to_nat 16384) (connections w) 49152 else Some p) with
          | Some x => u_ty 16 x | None => True end) as Hport' by (by destruct (p =? 0)).
  clear Hport. destruct (if p =? 0 then _ else _) as [x |]; [| eexists _, _, _; split; [done |]; by split].
  pose proof (generate_isn_ty e He) as Hisn.
  set (t := new_tcb _ _ _ _ _ _). assert (tcb_ty t) as Htt.
  { apply new_tcb_ty; [auto with tcp | apply He | done | auto with nt | by apply ty_0]. }
  destruct (send_segment_ok t SYN (generate_isn e) 0 []) as (sum & _ & -> & Hb); [done | by unfold u_ty | done |].
  cbn. eexists _, _, _. split; [reflexivity |]. split.
  - split_and!; cbn; [| auto with nt | done]. apply table_ok_push; try done.
  - constructor; [| constructor]. by unfold packet_ty.
Qed.

Lemma rd_position {l : list Tcb} {f i} : position f l = Some i -> exists t, rd l i = Ret t /\ l !! i = Some t.
Proof. intros (t & Ht & _)%position_Some. exists t. split; [by apply rd_lookup | done]. Qed.

Lemma close_tcb_ok t : tcb_ty t ->
  exists t' ps, close_tcb t = Ret (t', ps) /\ tcb_ty t' /\ ident t' = ident t /\ state t' <> Listen /\
    Forall packet_ty ps.
Proof.
  intros Htt. unfold close_tcb.
  assert (forall st, st <> Listen -> exists t' ps,
    (p ← send_segment (set_state st t) (Z.lor FIN ACK) (snd_nxt t) (rcv_nxt t) []; Ret (set_state st t, [p]))
    = Ret (t', ps) /\ tcb_ty t' /\ ident t' = ident t /\ state t' <> Listen /\ Forall packet_ty ps) as Hfin.
  { intros st Hne. edestruct (send_segment_ok (set_state st t) (Z.lor FIN ACK)) as (sum & _ & -> & Hb);
      [by apply set_state_ty | by unfold u_ty | constructor |].
    cbn. eexists _, _. split; [reflexivity |]. split; [by apply set_state_ty |]. split_and!; [done | done |].
    constructor; [| constructor]. destruct Htt as ((? & ? & ? & _) & _). by unfold packet_ty. }
  destruct (state t); first [ by apply Hfin
    | eexists _, _; split; [reflexivity |]; split_and!; [by apply set_state_ty | done ..] ].
Qed.

Lemma close_keeps w s id : world_ok w s -> keeps (run w s (CClose id)).
Proof.
  intros (Ht & Hn & Hs). cbn [run]. unfold close.
  destruct (position (by_id id) (connections w)) as [i |] eqn:Hp;
    [| eexists _, _, _; split; [reflexivity |]; by split].
  destruct (rd_position Hp) as (t & -> & Hi). cbn [mbind outcome_bind].
  assert (tcb_ty t) as Htt by (destruct Ht as (_ & Ht & _); by eapply Forall_lookup_1).
  destruct (close_tcb_ok t Htt) as (t' & ps & -> & Ht' & Hid & Hst & Hps).
  cbn. eexists _, _, _. split; [reflexivity |]. split; [| done]. split_and!; [| done | done]. cbn.
  eapply table_ok_sublist; [| apply filter_sublist]. eapply table_ok_insert; try done.
Qed.

Lemma send_keeps w s id data :
  world_ok w s -> Forall byte_ty data -> keeps (run w s (CSend id data)).
Proof.
  intros (Ht & Hn & Hs) Hd. cbn [run]. unfold send.
  destruct (position (by_id id) (connections w)) as [i |] eqn:Hp;
    [| eexists _, _, _; split; [reflexivity |]; by split].
  destruct (rd_position Hp) as (t & -> & Hi). cbn [mbind outcome_bind].
  assert (tcb_ty t) as Htt by (destruct Ht as (_ & Ht & _); by eapply Forall_lookup_1).
  destruct (negb _); [eexists _, _, _; split; [reflexivity |]; by split |].
  assert (Forall byte_ty (tx_buf t ++ data)) as Htx by (apply Forall_app; split; [apply Htt | done]).
  assert (tcb_ty (set_tx (tx_buf t ++ data) t)) as Ht1 by (by apply set_tx_ty).
  edestruct (send_segment_ok (set_tx (tx_buf t ++ data) t) (Z.lor PSH ACK)) as (sum & _ & -> & Hb);
    [done | by unfold u_ty | exact Htx |].
  cbn. eexists _, _, _. split; [reflexivity |]. split.
  - split_and!; cbn; [| done | done]. eapply table_ok_insert; [done | done | | done | done].
    apply set_nxt_ty; [done | auto with nt].
  - constructor; [| constructor]. destruct Htt as ((? & ? & ? & _) & _). by unfold packet_ty.
Qed.

Lemma receive_keeps w s id n : world_ok w s -> keeps (run w s (CReceive id n)).
Proof.
  intros (Ht & Hn & Hs). cbn [run]. unfold receive.
  destruct (position (by_id id) (connections w)) as [i |] eqn:Hp;
    [| eexists _, _, _; split; [reflexivity |]; by split].
  destruct (rd_position Hp) as (t & -> & Hi). cbn [mbind outcome_bind].
  assert (tcb_ty t) as Htt by (destruct Ht as (_ & Ht & _); by eapply Forall_lookup_1).
  destruct (_ && _); [eexists _, _, _; split; [reflexivity |]; by split |].
  destruct (bool_decide _); [eexists _, _, _; split; [reflexivity |]; by split |].
  cbn. eexists _, _, _. split; [reflexivity |]. split; [| constructor]. split_and!; cbn; [| done | done].
  eapply table_ok_insert; [done | done | | done | done]. apply set_rx_ty; [done |]. apply Forall_drop, Htt.
Qed.

Lemma timer_loop_ok nw later i l :
  (forall j, u_ty 64 (later j)) -> Forall tcb_ty l ->
  exists l' ps, timer_loop nw later i l = Ret (l', ps) /\ Forall tcb_ty l' /\ Forall packet_ty ps /\
    length l' = length l /\ listeners l' = listeners l.
Proof.
  intros Hlater. revert i. induction l as [| t l IH]; intros i Hl; cbn [timer_loop].
  { eexists _, _. split; [reflexivity |]. split_and!; done. }
  inversion Hl as [| ? ? Ht Hl']; subst.
  destruct (IH (S i) Hl') as (l' & qs & Hrec & Hty & Hps & Hlen & Hlis).
  assert (exists t' ps,
    (if needs_retransmit nw t then '(t, p) ← retransmit (later i) t; Ret (t, [p]) else Ret (t, []))
    = Ret (t', ps) /\ tcb_ty t' /\ Forall packet_ty ps /\ listeners [t'] = listeners [t])
    as (t' & ps & -> & Ht' & Hp & Hli).
  { destruct (needs_retransmit nw t) eqn:En; [| eexists _, _; split; [reflexivity |]; split_and!; done].
    unfold retransmit.
    edestruct (send_segment_ok t (if bool_decide (state t = SynSent) then SYN else ACK)) as (sum & _ & -> & Hb);
      [done | case_bool_decide; by unfold u_ty | apply Forall_take, Ht |].
    cbn [mbind outcome_bind]. eexists _, _. split; [reflexivity |]. split_and!.
    - apply on_timeout_ty, set_cc_ty; [done |]. destruct Ht as (_ & _ & _ & _ & _ & _ & Hc).
      unfold cc_ty in *. cbn. specialize (Hlater i). tauto.
    - constructor; [| constructor]. destruct Ht as ((? & ? & ? & _) & _). by unfold packet_ty.
    - rewrite !listeners_one. reflexivity. }
  cbn [mbind outcome_bind]. rewrite Hrec. cbn [mbind outcome_bind]. eexists _, _. split; [reflexivity |]. split_and!.
  - by constructor.
  - by apply Forall_app.
  - cbn. by rewrite Hlen.
  - rewrite (listeners_cons t'), (listeners_cons t). by rewrite Hli, Hlis.
Qed.

Lemma timers_keep w s nw later :
  world_ok w s -> (forall j, u_ty 64 (later j)) -> keeps (run w s (CTimers nw later)).
Proof.
  intros ((Hl & Ht & Hu) & Hn & Hs) Hlater. cbn [run]. unfold check_retransmit_timers.
  destruct (timer_loop_ok nw later 0 (connections w) Hlater Ht) as (l' & ps & -> & Ht' & Hp & Hlen & Hlis).
  cbn. eexists _, _, _. split; [reflexivity |]. split; [| done]. split_and!; cbn; [| done | done].
  split_and!; [lia | done | by rewrite Hlis].
Qed.

Lemma from_bytes_ty data h : Forall byte_ty data -> from_bytes data = Some h -> header_ty h.
Proof.
  intros Hd. unfold from_bytes. repeat (case_match; [done |]). intros [= <-]. subst.
  rewrite !Forall_cons in Hd. unfold header_ty. cbn - [from_be].
  destruct Hd as (? & ? & ? & ? & ? & ? & ? & ? & ? & ? & ? & ? & ? & ? & ? & ? & ? & ? & ? & ? & _).
  split_and!; match goal with |- u_ty _ (from_be ?l) => apply (from_be_ty l) end;
    repeat (apply List.Forall_cons; [done |]); apply List.Forall_nil.
Qed.

Lemma update_next s id f : Sockets.next_id (Sockets.update s id f) = Sockets.next_id s.
Proof. unfold Sockets.update. by case_match. Qed.

Lemma enqueue_next s a b : Sockets.next_id (Sockets.enqueue_accept s a b).2 = Sockets.next_id s.
Proof. unfold Sockets.enqueue_accept. repeat case_match; cbn; by rewrite ?update_next. Qed.

Lemma keeps_skip w s : world_ok w s -> keeps (Ret (w, s, [])).
Proof. intros. eexists _, _, _. split; [reflexivity |]. by split. Qed.

Lemma child_tcb_ty e h src dst l child :
  env_ty e -> u_ty 32 src -> u_ty 32 dst -> header_ty h -> u_ty 32 child -> tcb_ty l ->
  tcb_ty (child_tcb e h src dst l child).
Proof.
  intros He Hsrc Hdst (Hsp & Hdp & Hsq & Hak & _) Hc Hl. pose proof (generate_isn_ty e He) as Hisn.
  apply new_tcb_ty; [| apply He | done | auto with nt | auto with nt].
  apply new_ident_ty; try done. apply Hl.
Qed.

Lemma passive_open_eq w e h src dst i l child :
  connections w !! i = Some l ->
  passive_open w e h src dst i child =
  (let t := child_tcb e h src dst l child in
   p ← send_segment t (Z.lor SYN ACK) (snd_iss (ident t)) (rcv_nxt t) [];
   Ret (count_passive (count_sent (set_conns w (connections w ++ [t])) 1), [p])).
Proof. intros Hi. unfold passive_open. rewrite (rd_lookup _ _ _ Hi). exact (outcome_bind_ret l _). Qed.

Lemma passive_open_keeps w s e src dst h i t child :
  world_ok w s -> env_ty e -> u_ty 32 src -> u_ty 32 dst -> header_ty h -> u_ty 32 child ->
  connections w !! i = Some t -> Z.of_nat (length (connections w)) < MAX_TCP_CONNECTIONS ->
  keeps ('(w, ps) ← passive_open w e h src dst i child; Ret (w, s, ps)).
Proof.
  intros (Ht & Hn & Hs) He Hsrc Hdst Hh Hc Hi Hlt. rewrite (passive_open_eq _ _ _ _ _ _ _ _ Hi). cbv zeta.
  assert (tcb_ty t) as Htt by (destruct Ht as (_ & Ht & _); by eapply Forall_lookup_1).
  pose proof (child_tcb_ty e h src dst t child He Hsrc Hdst Hh Hc Htt) as Htt'.
  assert (state (child_tcb e h src dst t child) <> Listen) as Hst by done.
  assert (local_ip (ident (child_tcb e h src dst t child)) = dst) as Hl by done.
  assert (remote_ip (ident (child_tcb e h src dst t child)) = src) as Hr by done.
  revert Htt' Hst Hl Hr. generalize (child_tcb e h src dst t child) as t'. intros t' Htt' Hst Hl Hr.
  edestruct (send_segment_ok t' (Z.lor SYN ACK)) as (sum & _ & -> & Hb); [done | by unfold u_ty | constructor |].
  cbn [mbind outcome_bind]. eexists _, _, _. split; [reflexivity |]. split.
  - split; [by apply table_ok_push |]. by split.
  - constructor; [| constructor]. split; [by rewrite Hl |]. split; [by rewrite Hr | exact Hb].
Qed.

Lemma send_reset_keeps w s src dst h n (k : Packet -> World) :
  world_ok w s -> u_ty 32 src -> u_ty 32 dst -> (forall p, world_ok (k p) s) ->
  keeps (p ← send_reset h src dst n; match p with None => Ret (w, s, []) | Some p => Ret (k p, s, [p]) end).
Proof.
  intros Hw Hsrc Hdst Hk. unfold send_reset. destruct (has_bits (flags h) RST); [by apply keeps_skip |].
  destruct (if has_bits (flags h) ACK then _ else _) as [sq ak].
  edestruct build_segment_ok as (sum & _ & ->). cbn [mbind outcome_bind]. eexists _, _, _.
  split; [reflexivity |]. split; [apply Hk |]. constructor; [| constructor].
  split; [exact Hdst |]. split; [exact Hsrc |]. by apply segment_bytes_ty.
Qed.

Lemma dispatch_keeps w s e src dst h payload :
  world_ok w s -> env_ty e -> u_ty 32 src -> u_ty 32 dst -> header_ty h -> Forall byte_ty payload ->
  keeps (dispatch w s e src dst h payload).
Proof.
  intros Hw He Hsrc Hdst Hh Hp. pose proof Hw as (Ht & Hn & Hs). unfold dispatch, find_tcb, find_listener.
  pose proof (keeps_skip w s Hw) as Hskip.
  destruct (position _ (connections w)) as [i |] eqn:Hpos.
  { destruct (rd_position Hpos) as (t & -> & Hi). cbn [mbind outcome_bind].
    assert (tcb_ty t) as Htt by (destruct Ht as (_ & Ht & _); by eapply Forall_lookup_1).
    destruct (handle_tcp_segment_ok t h (flags h) payload Htt Hh Hp) as (t' & ps & b & -> & Ht' & Hid & Hps & Hst).
    cbn [mbind outcome_bind].
    assert (table_ok (<[i := t']> (connections w))) as Htab.
    { eapply table_ok_insert; try done. intros E. by destruct (decide (state t = Listen)); [| destruct Hst]. }
    destruct (b && _).
    - destruct (Sockets.enqueue_accept _ _ _) as [r s'] eqn:Eq. eexists _, _, _. split; [reflexivity |].
      split; [| done]. split; [done |]. split; [done |].
      apply (f_equal snd) in Eq. cbn in Eq. rewrite <- Eq, enqueue_next. unfold Sockets.mark_connected.
      by rewrite update_next.
    - eexists _, _, _. split; [reflexivity |]. split; [| done]. by split. }
  clear Hpos. destruct (has_bits (flags h) SYN); [| by apply send_reset_keeps].
  destruct (Z.leb_spec MAX_TCP_CONNECTIONS (Z.of_nat (length (connections w)))); [done |].
  destruct (position _ (connections w)) as [i |] eqn:Hpos; [| done].
  destruct (rd_position Hpos) as (t & _ & Hi).
  unfold Sockets.socket. eapply passive_open_keeps; try done.
  split; [done |]. split; [done |]. by apply (wrap_ty 32).
Qed.

Lemma input_keeps w s e src dst data :
  world_ok w s -> env_ty e -> u_ty 32 src -> u_ty 32 dst -> Forall byte_ty data ->
  keeps (tcp_input w s e src dst data).
Proof.
  intros Hw He Hsrc Hdst Hd. unfold tcp_input.
  assert (keeps (Ret (w, s, []))) as Hskip by (eexists _, _, _; split; [reflexivity |]; by split).
  destruct (from_bytes data) as [h |] eqn:Hh; [| done]. destruct (validate h data) eqn:Hv; cbn [negb]; [| done].
  unfold validate in Hv. destruct (negb _) eqn:Hr; [done |].
  rewrite negb_false_iff, andb_true_iff, !Z.leb_le in Hr. apply Z.leb_le in Hv.
  unfold TCP_HDR_SIZE in *. rewrite slice_in by lia. cbn [mbind outcome_bind].
  apply dispatch_keeps; try done; [by eapply from_bytes_ty |]. by apply Forall_take, Forall_drop.
Qed.

Lemma run_keeps w s c : world_ok w s -> call_ty c -> keeps (run w s c).
Proof.
  intros Hw Hc. destruct c; cbn [call_ty] in Hc.
  - apply listen_keeps; tauto.
  - cbn [run]. eexists _, _, _. split; [reflexivity |]. split; [| constructor]. destruct Hw as (Ht & Hn & Hs).
    split_and!; cbn; [| done | done]. eapply table_ok_sublist; [done | apply filter_sublist].
  - apply connect_keeps; tauto.
  - apply input_keeps; tauto.
  - by apply close_keeps.
  - apply send_keeps; tauto.
  - by apply receive_keeps.
  - apply timers_keep; tauto.
Qed.

Lemma run_all_keeps w s cs : world_ok w s -> Forall call_ty cs -> keeps (run_all w s cs).
Proof.
  intros Hw Hcs. revert w s Hw. induction Hcs as [| c cs Hc Hcs IH]; intros w s Hw; cbn [run_all].
  { by apply keeps_skip. }
  destruct (run_keeps w s c Hw Hc) as (w1 & s1 & ps & -> & Hw1 & Hps).
  cbn [mbind outcome_bind]. destruct (IH w1 s1 Hw1) as (w2 & s2 & qs & -> & Hw2 & Hqs).
  cbn. eexists _, _, _. split; [reflexivity |]. split; [done | by apply Forall_app].
Qed.

Definition boot (id : Z) : World := mk_world [] id 0 0 0 0 0 0.

(** TCP is safe under every sequence of calls and on every received byte string. From
    the empty table, any sequence of listens, connects, sends, receives, closes, timer
    sweeps and incoming datagrams returns; no index is out of range and no loop runs on.
    The connection table never exceeds its 256 entries, no local endpoint has two listeners,
    every field of every control block keeps its width, and every packet sent is a string of
    bytes. *)
Theorem tcp_table_invariant id s cs :
  u_ty 32 id -> u_ty 32 (Sockets.next_id s) -> Forall call_ty cs ->
  exists w s' ps, run_all (boot id) s cs = Ret (w, s', ps) /\
    Z.of_nat (length (connections w)) <= MAX_TCP_CONNECTIONS /\ Forall tcb_ty (connections w) /\
    NoDup (listeners (connections w)) /\ Forall packet_ty ps.
Proof.
  intros Hid Hs Hcs.
  destruct (run_all_keeps (boot id) s cs) as (w & s' & ps & Hr & ((Hl & Ht & Hu) & _) & Hp); [| done |].
  { split_and!; cbn; try done. split_and!; [by unfold MAX_TCP_CONNECTIONS | constructor | constructor]. }
  exists w, s', ps. done.
Qed.

Definition sample_env : Env := mk_env 5 (Some [1; 2; 3; 4]).

Lemma tcp_table_invariant_witness : exists w s' ps,
  run_all (boot 1) (Sockets.mk_world [] 1)
    [CListen sample_env 0 80; CConnect sample_env 9 0 7 80; CTimers 9000 (fun _ => 9001); CInput sample_env 3 4 [255]]
  = Ret (w, s', ps) /\ Z.of_nat (length (connections w)) <= MAX_TCP_CONNECTIONS.
Proof.
  destruct (tcp_table_invariant 1 (Sockets.mk_world [] 1)
    [CListen sample_env 0 80; CConnect sample_env 9 0 7 80; CTimers 9000 (fun _ => 9001);
     CInput sample_env 3 4 [255]]) as (w & s' & ps & Hr & Hl & _).
  - by unfold u_ty.
  - by unfold u_ty.
  - assert (env_ty sample_env) as He by (split; [by unfold u_ty | split; [done | by repeat constructor]]).
    assert (u_ty 64 9000 /\ forall i : nat, u_ty 64 ((fun _ => 9001) i)) as Ht by (split; [| intros _]; by unfold u_ty).
    assert (Forall byte_ty [255]) as Hb by (by repeat constructor).
    repeat (apply List.Forall_cons); try apply List.Forall_nil; cbn [call_ty];
      first [exact Ht | split_and!; (exact He || exact Hb || by unfold u_ty)].
  - exists w, s', ps. split; [exact Hr | exact Hl].
Defined.

End Tcp.
