(* ===== verification/TcpSession.v ===== *)
(** * TCP sessions

    Composes two TCP endpoints of [Tcp] over the packets of [Ipv4]: a segment is put into an
    IPv4 packet, parsed by the other side and given to [tcp_input] with the addresses of the
    packet. Shows that the handshake establishes a session in step, what a session does with
    data and how it ends. *)

From S2P Require Import Prelude Ipv4 Sockets Tcp.

Module TcpSession.
Import Tcp.

(** ** Delivery *)

(** A segment in one IPv4 packet, built as [send_ipv4] and taken apart as [ipv4_input] do. *)
Definition deliver (w : World) (s : Sockets.World) (e : Env) (p : Packet)
    : outcome (World * Sockets.World * list Packet) :=
  packet ← Ipv4.build_ipv4_packet (p_src p) (p_dst p) 6 64 (p_data p);
  parsed ← Ipv4.parse_ipv4_header packet;
  match parsed with
  | None => Ret (w, s, [])
  | Some (header, payload) => tcp_input w s e (Ipv4.h_src_ip header) (Ipv4.h_dst_ip header) payload
  end.

Lemma deliver_input w s e p :
  packet_ty p -> Z.of_nat (length (p_data p)) <= 65515 ->
  deliver w s e p = tcp_input w s e (p_src p) (p_dst p) (p_data p).
Proof.
  intros (Hs & Hd & Hb) Hl. unfold deliver.
  destruct (Ipv4.packet_parses (p_src p) (p_dst p) 6 64 (p_data p))
    as (packet & h & -> & Hp & Hsrc & Hdst & _); [done | done | by unfold byte_ty, u_ty | by unfold byte_ty, u_ty | done |].
  cbn [mbind outcome_bind]. rewrite Hp. cbn [mbind outcome_bind]. by rewrite Hsrc, Hdst.
Qed.

(** ** Blocks in the table *)

(** The two ends of one connection. *)
Definition peers (a b : Tcb) : Prop :=
  local_ip (ident a) = remote_ip (ident b) /\ local_port (ident a) = remote_port (ident b) /\
  remote_ip (ident a) = local_ip (ident b) /\ remote_port (ident a) = local_port (ident b).

(** The block [t] is the one that segments for it reach. *)
Definition known (w : World) (i : nat) (t : Tcb) : Prop :=
  connections w !! i = Some t /\
  find_tcb w (local_ip (ident t)) (local_port (ident t)) (remote_ip (ident t)) (remote_port (ident t)) = Some i.

(** Calls for it reach it, too. *)
Definition at_conn (w : World) (i : nat) (t : Tcb) : Prop :=
  known w i t /\ position (by_id (socket_id (ident t))) (connections w) = Some i.

Lemma peers_sym a b : peers a b -> peers b a.
Proof. unfold peers. intuition congruence. Qed.

Lemma peers_ident a b a' b' : peers a b -> ident a' = ident a -> ident b' = ident b -> peers a' b'.
Proof. unfold peers. by intros H -> ->. Qed.

(** A world with the block replaced. *)
Lemma known_update w i t t' w' :
  known w i t -> ident t' = ident t -> connections w' = <[i := t']> (connections w) -> known w' i t'.
Proof.
  intros (Hi & Hf) Hid Hw. unfold known, find_tcb in *. rewrite Hw, Hid. split.
  - apply list_lookup_insert_eq. by eapply lookup_lt_Some.
  - erewrite position_insert; [exact Hf | exact Hi | by rewrite Hid].
Qed.

Lemma at_conn_update w i t t' w' :
  at_conn w i t -> ident t' = ident t -> connections w' = <[i := t']> (connections w) -> at_conn w' i t'.
Proof.
  intros (Hk & Hp) Hid Hw. split; [by eapply (known_update w i t) |]. rewrite Hw, Hid.
  erewrite position_insert; [exact Hp | apply Hk | unfold by_id; by rewrite Hid].
Qed.

(** A block that was appended, when no other has its addresses. *)
Lemma known_push w t w' :
  find_tcb w (local_ip (ident t)) (local_port (ident t)) (remote_ip (ident t)) (remote_port (ident t)) = None ->
  connections w' = connections w ++ [t] -> known w' (length (connections w)) t.
Proof.
  intros Hf Hw. unfold known, find_tcb in *. rewrite Hw. split.
  - by rewrite lookup_app_r, Nat.sub_diag by lia.
  - apply position_snoc; [by apply position_None |]. by rewrite !Z.eqb_refl.
Qed.

(** The header of a segment that was sent with these numbers. *)
Definition header_of (b : Tcb) (fl sq ak sum : Z) : TcpHeader :=
  mk_header (local_port (ident b)) (remote_port (ident b)) sq ak (offset_flags fl) (rcv_wnd (ident b)) sum 0.

Lemma sent_packet b fl sq ak data p :
  tcb_ty b -> u_ty 8 fl -> Forall byte_ty data -> send_segment b fl sq ak data = Ret p ->
  packet_ty p /\ length (p_data p) = (20 + length data)%nat /\ p_src p = local_ip (ident b) /\
  p_dst p = remote_ip (ident b) /\
  exists sum, u_ty 16 sum /\ p_data p = segment_bytes (local_port (ident b)) (remote_port (ident b)) sq ak
    (offset_flags fl) (rcv_wnd (ident b)) sum data.
Proof.
  intros Hb Hf Hd Hs. destruct (send_segment_ok b fl sq ak data Hb Hf Hd) as (sum & Hsum & E & Hty).
  rewrite E in Hs. injection Hs as <-. cbn [p_data p_src p_dst].
  pose proof Hb as ((H1 & _ & H2 & _) & _). split; [by split |].
  split; [unfold segment_bytes; rewrite !length_app, !length_to_be; cbn; lia |].
  split; [done |]. split; [done |]. by exists sum.
Qed.

(** The sockets after a segment: a child that is established now is queued. *)
Definition after_segment (est : bool) (t : Tcb) (s : Sockets.World) : Sockets.World :=
  if est && negb (listen_socket_id (ident t) =? 0) then
    (Sockets.enqueue_accept (Sockets.mark_connected s (socket_id (ident t)) (socket_id (ident t)))
       (listen_socket_id (ident t)) (socket_id (ident t))).2
  else s.

(** A segment of the peer reaches the block. *)
Lemma deliver_known w s e i t b fl sq ak data p t' ps est :
  known w i t -> peers b t -> tcb_ty b -> u_ty 8 fl -> u_ty 32 sq -> u_ty 32 ak -> Forall byte_ty data ->
  Z.of_nat (length data) <= 65495 -> send_segment b fl sq ak data = Ret p ->
  (forall sum, handle_tcp_segment t (header_of b fl sq ak sum) fl data = Ret (t', ps, est)) ->
  deliver w s e p
  = Ret (count_sent (set_conns (count_received w) (<[i := t']> (connections w))) (length ps),
         after_segment est t s, ps).
Proof.
  intros (Hi & Hf) (P1 & P2 & P3 & P4) Hb Hfl Hsq Hak Hd Hlen Hs Hh.
  destruct (sent_packet b fl sq ak data p Hb Hfl Hd Hs) as (Hty & Hl & Hsrc & Hdst & sum & Hsum & Hdata).
  rewrite deliver_input by (try done; lia). rewrite Hdata, Hsrc, Hdst.
  pose proof Hb as ((_ & Q1 & _ & Q2 & _ & _ & _ & Q3 & _) & _).
  destruct (tcp_input_segment w s e (local_ip (ident b)) (remote_ip (ident b)) (local_port (ident b))
    (remote_port (ident b)) sq ak fl (rcv_wnd (ident b)) sum data) as [-> Hflags]; [done .. |].
  fold (header_of b fl sq ak sum) in Hflags |- *. unfold dispatch. rewrite Hflags.
  cbn [header_of dst_port src_port].
  replace (find_tcb (count_received w) (remote_ip (ident b)) (remote_port (ident b)) (local_ip (ident b))
    (local_port (ident b))) with (Some i) by (rewrite P1, P2, P3, P4; symmetry; exact Hf).
  rewrite (rd_lookup (connections (count_received w)) i t) by exact Hi. cbn [mbind outcome_bind].
  rewrite Hh. cbn [mbind outcome_bind]. unfold after_segment. destruct (est && _); [| done].
  by destruct (Sockets.enqueue_accept _ _ _).
Qed.

(** ** Steps of a session *)

(** Two established ends that agree on the sequence numbers of both directions. *)
Definition in_sync (a b : Tcb) : Prop :=
  tcb_ty a /\ tcb_ty b /\ peers a b /\ state a = Established /\ state b = Established /\
  snd_nxt a = rcv_nxt b /\ snd_nxt b = rcv_nxt a.

(** *** A session for the examples *)

Definition sample_a : Tcb := new_tcb 0 (new_ident 1 5000 2 80 10 20 1 0) Established 11 11 21.
Definition sample_b : Tcb := new_tcb 0 (new_ident 2 80 1 5000 20 10 1 0) Established 21 21 11.
Definition sample_world (t : Tcb) : World := mk_world [t] 2 0 0 0 0 0 0.

Lemma sample_at t : at_conn (sample_world t) 0 t.
Proof. unfold at_conn, known, find_tcb, by_id. cbn. by rewrite !Z.eqb_refl. Qed.

Lemma sample_tcb_ty l_ip l_port r_ip r_port iss irs id st una nxt rcv :
  forallb (fun x => (0 <=? x) && (x <? 65536)) [l_ip; l_port; r_ip; r_port; iss; irs; id; una; nxt; rcv] = true ->
  tcb_ty (new_tcb 0 (new_ident l_ip l_port r_ip r_port iss irs id 0) st una nxt rcv).
Proof.
  cbn [forallb]. rewrite !andb_true_iff, !Z.leb_le, !Z.ltb_lt. intros H.
  apply new_tcb_ty; [apply new_ident_ty | ..]; unfold u_ty; lia.
Qed.

Lemma sample_in_sync : in_sync sample_a sample_b.
Proof. split; [by apply sample_tcb_ty |]. split; [by apply sample_tcb_ty |]. done. Qed.

(** *** The handshake *)

(** The block that [connect] makes. *)
Definition client_tcb (e : Env) (l_ip l_port r_ip r_port id : Z) : Tcb :=
  new_tcb (now e) (new_ident l_ip l_port r_ip r_port (generate_isn e) 0 id 0) SynSent (generate_isn e)
    (generate_isn e +[32] 1) 0.

Lemma client_tcb_ty e l_ip l_port r_ip r_port id :
  env_ty e -> u_ty 32 l_ip -> u_ty 16 l_port -> u_ty 32 r_ip -> u_ty 16 r_port -> u_ty 32 id ->
  tcb_ty (client_tcb e l_ip l_port r_ip r_port id).
Proof.
  intros He **. pose proof (generate_isn_ty e He) as Hisn.
  apply new_tcb_ty; [| apply He | done | auto with nt | by apply ty_0].
  apply new_ident_ty; done || by apply ty_0.
Qed.

Lemma connect_step w e l_ip l_port r_ip r_port :
  let t := client_tcb e l_ip l_port r_ip r_port (next_socket_id w) in
  tcb_ty t -> Z.of_nat (length (connections w)) < MAX_TCP_CONNECTIONS -> l_port <> 0 ->
  exists p w', connect w e l_ip l_port r_ip r_port = Ret (Some (next_socket_id w), w', [p]) /\
    send_segment t SYN (generate_isn e) 0 [] = Ret p /\ connections w' = connections w ++ [t].
Proof.
  intros t Ht Hl Hp. unfold connect.
  rewrite (proj2 (Z.leb_gt _ _)), (proj2 (Z.eqb_neq _ _)) by done.
  destruct (send_segment_ok t SYN (generate_isn e) 0 []) as (sum & _ & E & _); [done | by unfold u_ty | constructor |].
  unfold t, client_tcb in *.
  eexists _, _. split; [rewrite E; reflexivity |]. split; [exact E | reflexivity].
Qed.

(** A connection request reaches a listener. *)
Lemma deliver_new w s e b sq p k l :
  let c := child_tcb e (header_of b SYN sq 0 0) (local_ip (ident b)) (remote_ip (ident b)) l (Sockets.next_id s) in
  find_tcb w (remote_ip (ident b)) (remote_port (ident b)) (local_ip (ident b)) (local_port (ident b)) = None ->
  find_listener w (remote_ip (ident b)) (remote_port (ident b)) = Some k -> connections w !! k = Some l ->
  Z.of_nat (length (connections w)) < MAX_TCP_CONNECTIONS ->
  tcb_ty b -> tcb_ty c -> u_ty 32 sq -> send_segment b SYN sq 0 [] = Ret p ->
  exists q w', deliver w s e p = Ret (w', (Sockets.socket s Sockets.Stream Sockets.PTcp).2, [q]) /\
    send_segment c (Z.lor SYN ACK) (snd_iss (ident c)) (rcv_nxt c) [] = Ret q /\
    connections w' = connections w ++ [c].
Proof.
  intros c Hf Hlis Hk Hlen Hb Hc Hsq Hp.
  destruct (sent_packet b SYN sq 0 [] p) as (Hty & Hl & Hsrc & Hdst & sum & Hsum & Hdata);
    [done | by unfold u_ty | constructor | done |].
  rewrite deliver_input by (try done; rewrite Hl; cbn; lia). rewrite Hdata, Hsrc, Hdst.
  pose proof Hb as ((_ & Q1 & _ & Q2 & _ & _ & _ & Q3 & _) & _).
  destruct (tcp_input_segment w s e (local_ip (ident b)) (remote_ip (ident b)) (local_port (ident b))
    (remote_port (ident b)) sq 0 SYN (rcv_wnd (ident b)) sum []) as [-> Hflags]; [done | done | done | by unfold u_ty .. | done | done |].
  fold (header_of b SYN sq 0 sum) in Hflags |- *. unfold dispatch. rewrite Hflags.
  change (find_tcb (count_received w)) with (find_tcb w). change (find_listener (count_received w)) with (find_listener w).
  cbn [header_of dst_port src_port connections count_received]. rewrite Hf, Hlis.
  rewrite !(proj2 (Z.leb_gt _ _)) by done. change (has_bits SYN SYN) with true. cbv iota.
  destruct (send_segment_ok c (Z.lor SYN ACK) (snd_iss (ident c)) (rcv_nxt c) []) as (sum' & _ & E & _);
    [done | by unfold u_ty | constructor |].
  unfold Sockets.socket. rewrite (passive_open_eq _ _ _ _ _ _ l) by exact Hk.
  change (child_tcb e (header_of b SYN sq 0 sum) (local_ip (ident b)) (remote_ip (ident b)) l (Sockets.next_id s))
    with c.
  cbv zeta. rewrite E. cbn [mbind outcome_bind].
  eexists _, _. split; [reflexivity |]. by split.
Qed.

(** The client gets the answer. *)
Lemma answer_step w s e i t b sq ak p :
  let t' := set_state Established (set_una ak (set_rcv (sq +[32] 1) t)) in
  known w i t -> peers b t -> tcb_ty t -> tcb_ty b -> state t = SynSent -> u_ty 32 sq -> u_ty 32 ak ->
  send_segment b (Z.lor SYN ACK) sq ak [] = Ret p ->
  exists q w', deliver w s e p = Ret (w', s, [q]) /\
    send_segment t' ACK (snd_nxt t) (sq +[32] 1) [] = Ret q /\ known w' i t' /\ tcb_ty t'.
Proof.
  intros t' Hk Hpe Ht Hb Hs Hsq Hak Hp.
  assert (tcb_ty t') as Ht' by (apply set_state_ty, set_una_ty; [apply set_rcv_ty; [done | by apply wrap_ty] | done]).
  destruct (send_segment_ok t' ACK (snd_nxt t) (sq +[32] 1) []) as (sum & _ & E & _); [done | by unfold u_ty | constructor |].
  eexists _, _. split; [| split; [exact E |]].
  - eapply (deliver_known w s e i t b (Z.lor SYN ACK) sq ak [] p t' _ false); try done.
    intros sum'. unfold handle_tcp_segment. rewrite Hs.
    change (has_bits (Z.lor SYN ACK) RST) with false. change (has_bits (Z.lor SYN ACK) ACK) with true.
    change (has_bits (Z.lor SYN ACK) SYN) with true. cbv iota. cbn [header_of seq ack]. fold t'.
    change (snd_nxt t') with (snd_nxt t). change (rcv_nxt t') with (sq +[32] 1). rewrite E. reflexivity.
  - split; [by eapply (known_update w i t) | done].
Qed.

(** The server gets the last acknowledgement. *)
Lemma final_step w s e i t b sq p :
  let t' := set_state Established (set_una (snd_nxt t) t) in
  known w i t -> peers b t -> tcb_ty t -> tcb_ty b -> state t = SynReceived -> u_ty 32 sq ->
  send_segment b ACK sq (snd_nxt t) [] = Ret p ->
  exists w', deliver w s e p = Ret (w', after_segment true t s, []) /\ known w' i t' /\ tcb_ty t'.
Proof.
  intros t' Hk Hpe Ht Hb Hs Hsq Hp. pose proof Ht as (_ & _ & Hn & _).
  eexists. split.
  - apply (deliver_known w s e i t b ACK sq (snd_nxt t) [] p t' [] true); try done.
    intros sum. unfold handle_tcp_segment. rewrite Hs. cbn [header_of ack]. rewrite Z.eqb_refl. reflexivity.
  - split; [by eapply (known_update w i t) | by apply set_state_ty, set_una_ty].
Qed.

(** The handshake completes: the listener answers the request of [connect] with a new block,
    the client acknowledges the answer, and that establishes the server's block. Both ends
    agree on the sequence numbers of both directions, and nothing is in flight or buffered. *)
Lemma handshake_steps cw cs sw ss ec e1 e2 e3 cip cport sip sport k l :
  world_ok cw cs -> world_ok sw ss -> env_ty ec -> env_ty e1 ->
  u_ty 32 cip -> u_ty 16 cport -> cport <> 0 -> u_ty 32 sip -> u_ty 16 sport ->
  Z.of_nat (length (connections cw)) < MAX_TCP_CONNECTIONS ->
  Z.of_nat (length (connections sw)) < MAX_TCP_CONNECTIONS ->
  find_tcb cw cip cport sip sport = None -> find_tcb sw sip sport cip cport = None ->
  find_listener sw sip sport = Some k -> connections sw !! k = Some l ->
  let ss1 := (Sockets.socket ss Sockets.Stream Sockets.PTcp).2 in
  exists cw1 syn sw1 synack cw2 final sw2 a b,
    connect cw ec cip cport sip sport = Ret (Some (next_socket_id cw), cw1, [syn]) /\
    deliver sw ss e1 syn = Ret (sw1, ss1, [synack]) /\
    deliver cw1 cs e2 synack = Ret (cw2, cs, [final]) /\
    deliver sw1 ss1 e3 final = Ret (sw2, after_segment true b ss1, []) /\
    known cw2 (length (connections cw)) a /\ known sw2 (length (connections sw)) b /\
    in_sync a b /\ flight_size a = 0 /\ flight_size b = 0 /\
    tx_buf a = [] /\ rx_buf a = [] /\ tx_buf b = [] /\ rx_buf b = [] /\
    socket_id (ident b) = Sockets.next_id ss /\ listen_socket_id (ident b) = socket_id (ident l).
Proof.
  intros (_ & Hcid & _) ((_ & Hall & _) & _ & Hsid) Hec He1 Hcip Hcp Hcp0 Hsip Hsp Hcl Hsl Hcf Hsf Hlis Hk.
  assert (tcb_ty l) as Hl by (by eapply Forall_lookup_1).
  pose proof (generate_isn_ty ec Hec) as Hci. pose proof (generate_isn_ty e1 He1) as Hsi.
  set (c0 := client_tcb ec cip cport sip sport (next_socket_id cw)).
  assert (tcb_ty c0) as Hc0 by (by apply client_tcb_ty).
  destruct (connect_step cw ec cip cport sip sport Hc0 Hcl Hcp0) as (syn & cw1 & Hcon & Hsyn & Hcw1). fold c0 in Hsyn, Hcw1.
  set (b0 := child_tcb e1 (header_of c0 SYN (generate_isn ec) 0 0) cip sip l (Sockets.next_id ss)).
  assert (tcb_ty b0) as Hb0.
  { by apply child_tcb_ty. }
  destruct (deliver_new sw ss e1 c0 (generate_isn ec) syn k l) as (synack & sw1 & Hd1 & Hsa & Hsw1); try done.
  change (child_tcb e1 _ _ _ l _) with b0 in Hsa, Hsw1.
  assert (known cw1 (length (connections cw)) c0) as Hk1 by (by apply known_push).
  assert (known sw1 (length (connections sw)) b0) as Hk2 by (by apply known_push).
  assert (peers b0 c0) as Hpe by done.
  destruct (answer_step cw1 cs e2 (length (connections cw)) c0 b0 (generate_isn e1) (rcv_nxt b0) synack)
    as (final & cw2 & Hd2 & Hfi & Hka & Ha); try done; [apply Hb0 |].
  set (a := set_state Established _) in Hfi, Hka, Ha.
  destruct (final_step sw1 (Sockets.socket ss Sockets.Stream Sockets.PTcp).2 e3 (length (connections sw)) b0 a
    (snd_nxt c0) final Hk2 (peers_sym b0 a Hpe) Hb0 Ha) as (sw2 & Hd3 & Hkb & Hb); [done | apply Hc0 | exact Hfi |].
  set (b := set_state Established _) in Hkb, Hb.
  exists cw1, syn, sw1, synack, cw2, final, sw2, a, b.
  split; [exact Hcon |]. split; [exact Hd1 |]. split; [exact Hd2 |]. split; [exact Hd3 |].
  split; [exact Hka |]. split; [exact Hkb |]. split; [by split_and! |].
  unfold flight_size. cbn [snd_nxt snd_una set_state set_una set_rcv a b]. by rewrite !Z.sub_diag.
Qed.

(** *** Data *)

Lemma on_ack_flow t a : same_flow t (on_ack t a) /\ snd_una (on_ack t a) = a.
Proof.
  unfold on_ack, on_duplicate_ack, on_ack_slow_start, on_ack_congestion_avoidance, same_flow.
  by repeat case_match.
Qed.

(** What an established end does with a data segment. *)
Definition with_data (t : Tcb) (data : list Z) (a : Z) : Tcb := take_ack (take_data t data) a.

Lemma with_data_fields t data a :
  let t' := with_data t data a in
  ident t' = ident t /\ state t' = state t /\ snd_nxt t' = snd_nxt t /\ rx_buf t' = rx_buf t ++ data /\
  (u_ty 32 (rcv_nxt t) -> rcv_nxt t' = rcv_nxt t +[32] wrap 32 (Z.of_nat (length data))).
Proof.
  cbv zeta. unfold with_data, take_ack.
  destruct (on_ack_flow (take_data t data) a) as [(H1 & H2 & H3 & H4 & H5 & _) _].
  cbn [set_tx ident state snd_nxt rx_buf rcv_nxt]. rewrite H1, H2, H3, H4, H5. unfold take_data.
  destruct (Z.ltb_spec 0 (Z.of_nat (length data))) as [Hd | Hd]; [done |].
  assert (data = []) as -> by (destruct data; [done | cbn in Hd; lia]).
  split_and!; [done .. | by rewrite app_nil_r |]. intros Hr. change (wrap 32 (Z.of_nat (length []))) with 0.
  by rewrite Z.add_0_r, wrap_small.
Qed.

Lemma with_data_ty t data a : tcb_ty t -> Forall byte_ty data -> u_ty 32 a -> tcb_ty (with_data t data a).
Proof. intros Ht Hd Ha. destruct (take_data_ok t data Ht Hd) as (H & _). by apply take_ack_ok. Qed.

Lemma handle_data t h data :
  state t = Established ->
  handle_tcp_segment t h (Z.lor PSH ACK) data = Ret (with_data t data (ack h), [], false).
Proof. intros Hs. unfold handle_tcp_segment. by rewrite Hs. Qed.

Lemma send_step w i t data :
  at_conn w i t -> tcb_ty t -> Forall byte_ty data -> state t = Established ->
  let t1 := set_tx (tx_buf t ++ data) t in
  let t2 := set_nxt (snd_nxt t +[32] wrap 32 (Z.of_nat (length data))) t1 in
  exists p w', send w (socket_id (ident t)) data = Ret (Some (Z.of_nat (length data)), w', [p]) /\
    send_segment t1 (Z.lor PSH ACK) (snd_nxt t) (rcv_nxt t) (tx_buf t ++ data) = Ret p /\
    at_conn w' i t2 /\ tcb_ty t2.
Proof.
  intros Hat Ht Hd Hs t1 t2. pose proof Hat as ((Hi & _) & Hp). unfold send. rewrite Hp.
  rewrite (rd_lookup _ _ _ Hi). cbn [mbind outcome_bind]. rewrite Hs. cbn [negb bool_decide].
  rewrite bool_decide_true by done. cbn [negb]. fold t1.
  assert (Forall byte_ty (tx_buf t ++ data)) as Htx by (apply Forall_app; split; [apply Ht | done]).
  assert (tcb_ty t1) as Ht1 by (by apply set_tx_ty).
  destruct (send_segment_ok t1 (Z.lor PSH ACK) (snd_nxt t) (rcv_nxt t) (tx_buf t ++ data))
    as (sum & _ & E & _); [done | by unfold u_ty | done |].
  eexists _, _. cbn [tx_buf set_tx snd_nxt rcv_nxt t1] in *.
  split; [| split; [exact E |]].
  - change (tx_buf t1) with (tx_buf t ++ data). change (snd_nxt t1) with (snd_nxt t).
    change (rcv_nxt t1) with (rcv_nxt t). rewrite E. reflexivity.
  - split; [by eapply (at_conn_update w i t t2) |]. apply set_nxt_ty; [done | by apply wrap_ty].
Qed.

(** One data segment across: the receiver appends it and says nothing. *)
Lemma data_step w s e i t b sq ak data p :
  at_conn w i t -> peers b t -> tcb_ty t -> tcb_ty b -> state t = Established -> u_ty 32 sq -> u_ty 32 ak ->
  Forall byte_ty data -> Z.of_nat (length data) <= 65495 ->
  send_segment b (Z.lor PSH ACK) sq ak data = Ret p ->
  exists w', deliver w s e p = Ret (w', s, []) /\ at_conn w' i (with_data t data ak).
Proof.
  intros Hat Hpe Ht Hb Hs Hsq Hak Hd Hl Hp. destruct (with_data_fields t data ak) as (Hid & _).
  eexists. split.
  - apply (deliver_known w s e i t b (Z.lor PSH ACK) sq ak data p (with_data t data ak) [] false); try done; [apply Hat |].
    intros sum. by rewrite handle_data.
  - by eapply (at_conn_update w i t).
Qed.

(** Data that is sent once arrives once and in order, but nothing acknowledges it, and
    the next send repeats it. On an established session with an empty send buffer, the
    segment of the first [send] appends exactly its data to the receiver's buffer, and the
    receiver answers nothing. The second [send] transmits the whole send buffer again, so
    the receiver's buffer gets the first data twice. *)
Theorem second_send_repeats_first wa wb i j a b s e1 e2 d1 d2 :
  at_conn wa i a -> at_conn wb j b -> in_sync a b -> tx_buf a = [] ->
  Forall byte_ty d1 -> Forall byte_ty d2 -> Z.of_nat (length d1) + Z.of_nat (length d2) <= 65495 ->
  exists wa1 p1 wb1 b1 wa2 p2 wb2 b2,
    send wa (socket_id (ident a)) d1 = Ret (Some (Z.of_nat (length d1)), wa1, [p1]) /\
    deliver wb s e1 p1 = Ret (wb1, s, []) /\
    at_conn wb1 j b1 /\ rx_buf b1 = rx_buf b ++ d1 /\
    send wa1 (socket_id (ident a)) d2 = Ret (Some (Z.of_nat (length d2)), wa2, [p2]) /\
    deliver wb1 s e2 p2 = Ret (wb2, s, []) /\
    at_conn wb2 j b2 /\ rx_buf b2 = rx_buf b ++ d1 ++ d1 ++ d2.
Proof.
  intros Ha Hb (Hta & Htb & Hpe & Hsa & Hsb & Hseq & Hseq') Htx Hd1 Hd2 Hlen.
  pose proof Hta as (_ & _ & Hna & Hra & _).
  destruct (send_step wa i a d1 Ha Hta Hd1 Hsa) as (p1 & wa1 & Hs1 & Hp1 & Ha1 & Hta1).
  rewrite Htx in *. cbn [app] in Hp1, Ha1, Hta1.
  set (a1 := set_nxt _ _) in *.
  destruct (data_step wb s e1 j b (set_tx d1 a) (snd_nxt a) (rcv_nxt a) d1 p1)
    as (wb1 & Hdel1 & Hb1); try done; [by apply set_tx_ty | lia |].
  destruct (with_data_fields b d1 (rcv_nxt a)) as (Hid1 & Hst1 & _ & Hrx1 & _).
  pose proof (with_data_ty b d1 (rcv_nxt a) Htb Hd1 Hra) as Htb1. set (b1 := with_data b d1 (rcv_nxt a)) in *.
  destruct (send_step wa1 i a1 d2 Ha1 Hta1 Hd2 Hsa) as (p2 & wa2 & Hs2 & Hp2 & _ & _).
  change (tx_buf a1) with d1 in *. change (socket_id (ident a1)) with (socket_id (ident a)) in Hs2.
  assert (Forall byte_ty (d1 ++ d2)) as Hd12 by (by apply Forall_app).
  destruct (data_step wb1 s e2 j b1 (set_tx (d1 ++ d2) a1) (snd_nxt a1) (rcv_nxt a1) (d1 ++ d2) p2)
    as (wb2 & Hdel2 & Hb2); try done.
  { by eapply peers_ident. }
  { by apply set_tx_ty. }
  { by rewrite Hst1. }
  { apply Hta1. }
  { rewrite length_app. lia. }
  destruct (with_data_fields b1 (d1 ++ d2) (rcv_nxt a1)) as (_ & _ & _ & Hrx2 & _).
  exists wa1, p1, wb1, b1, wa2, p2, wb2, (with_data b1 (d1 ++ d2) (rcv_nxt a1)).
  split_and!; try done. by rewrite Hrx2, Hrx1, <- !app_assoc.
Qed.

Lemma second_send_repeats_first_witness : exists wa1 p1 wb1 wa2 p2 wb2 b2,
  send (sample_world sample_a) 1 [1; 2] = Ret (Some 2, wa1, [p1]) /\
  deliver (sample_world sample_b) (Sockets.mk_world [] 1) sample_env p1 = Ret (wb1, Sockets.mk_world [] 1, []) /\
  send wa1 1 [3] = Ret (Some 1, wa2, [p2]) /\
  deliver wb1 (Sockets.mk_world [] 1) sample_env p2 = Ret (wb2, Sockets.mk_world [] 1, []) /\
  at_conn wb2 0 b2 /\ rx_buf b2 = [1; 2; 1; 2; 3].
Proof.
  destruct (second_send_repeats_first (sample_world sample_a) (sample_world sample_b) 0 0 sample_a sample_b
    (Sockets.mk_world [] 1) sample_env sample_env [1; 2] [3])
    as (wa1 & p1 & wb1 & b1 & wa2 & p2 & wb2 & b2 & H1 & H2 & _ & _ & H3 & H4 & H5 & H6).
  - apply sample_at.
  - apply sample_at.
  - apply sample_in_sync.
  - reflexivity.
  - by repeat constructor.
  - by repeat constructor.
  - by cbn.
  - exists wa1, p1, wb1, wa2, p2, wb2, b2. repeat (split; [assumption |]). assumption.
Defined.

(** *** The end of a session *)

(** [close] keeps the blocks up to the one it closes. *)
Lemma position_filter {A} (f g : A -> bool) l i :
  position f l = Some i -> Forall (fun x => g x = true) (take (S i) l) ->
  position f (List.filter g l) = Some i /\ List.filter g l !! i = l !! i.
Proof.
  revert i. induction l as [| x l IH]; intros i Hp Hg; [done |]. cbn in Hp, Hg. inversion Hg as [| ? ? Hx Hg']; subst.
  cbn [List.filter]. rewrite Hx. destruct (f x) eqn:Hf.
  - injection Hp as <-. cbn. by rewrite Hf.
  - destruct (position f l) as [j |] eqn:Hj; [| done]. injection Hp as <-.
    destruct (IH j eq_refl Hg') as [H1 H2]. cbn. by rewrite Hf, H1.
Qed.

Lemma at_conn_filter w i t w' :
  at_conn w i t -> state t <> Closed ->
  connections w' = List.filter (fun x => negb (by_id (socket_id (ident t)) x && bool_decide (state x = Closed)))
    (connections w) -> at_conn w' i t.
Proof.
  intros ((Hi & Hf) & Hp) Hs Hw. destruct (position_Some _ _ _ Hp) as (t' & Ht' & _ & Hbefore).
  rewrite Hi in Ht'. injection Ht' as <-.
  assert (Forall (fun x => negb (by_id (socket_id (ident t)) x && bool_decide (state x = Closed)) = true)
    (take (S i) (connections w))) as Hg.
  { rewrite (take_S_r _ _ t) by done. apply Forall_app. split.
    - eapply Forall_impl; [exact Hbefore |]. cbn. by intros x ->.
    - constructor; [| constructor]. rewrite bool_decide_false by done. by rewrite andb_false_r. }
  unfold at_conn, known, find_tcb in *. rewrite Hw.
  destruct (position_filter _ _ _ _ Hf Hg) as [H1 H2]. destruct (position_filter _ _ _ _ Hp Hg) as [H3 _].
  by rewrite H1, H2, H3.
Qed.

Lemma close_step w i t st :
  at_conn w i t -> tcb_ty t ->
  (state t = Established /\ st = FinWait1) \/ (state t = CloseWait /\ st = LastAck) ->
  exists p w', close w (socket_id (ident t)) = Ret (true, w', [p]) /\
    send_segment (set_state st t) (Z.lor FIN ACK) (snd_nxt t) (rcv_nxt t) [] = Ret p /\
    at_conn w' i (set_state st t).
Proof.
  intros Hat Ht Hst. pose proof Hat as ((Hi & _) & Hp). unfold close. rewrite Hp, (rd_lookup _ _ _ Hi).
  destruct (send_segment_ok (set_state st t) (Z.lor FIN ACK) (snd_nxt t) (rcv_nxt t) []) as (sum & _ & E & _);
    [by apply set_state_ty | by unfold u_ty | constructor |].
  assert (close_tcb t = (p ← send_segment (set_state st t) (Z.lor FIN ACK) (snd_nxt t) (rcv_nxt t) [];
    Ret (set_state st t, [p]))) as Hc.
  { unfold close_tcb. by destruct Hst as [[-> ->] | [-> ->]]. }
  eexists _, _. split; [| split; [exact E |]].
  - cbn [mbind outcome_bind]. rewrite Hc, E. reflexivity.
  - eapply (at_conn_filter (set_conns w (<[i := set_state st t]> (connections w)))); [| | reflexivity].
    + by eapply (at_conn_update w i t).
    + by destruct Hst as [[_ ->] | [_ ->]].
Qed.

(** A segment without data on a block, whatever the block does with it. *)
Lemma control_step w s e i t b fl sq ak p t' ps :
  at_conn w i t -> peers b t -> tcb_ty b -> u_ty 8 fl -> u_ty 32 sq -> u_ty 32 ak -> ident t' = ident t ->
  send_segment b fl sq ak [] = Ret p ->
  (forall sum, handle_tcp_segment t (header_of b fl sq ak sum) fl [] = Ret (t', ps, false)) ->
  exists w', deliver w s e p = Ret (w', s, ps) /\ at_conn w' i t'.
Proof.
  intros Hat Hpe Hb Hfl Hsq Hak Hid Hp Hh. eexists. split.
  - apply (deliver_known w s e i t b fl sq ak [] p t' ps false); try done; apply Hat.
  - by eapply (at_conn_update w i t).
Qed.

Lemma wrap_succ_ne x : u_ty 32 x -> x +[32] 1 <> x.
Proof. unfold u_ty, wrap. intros Hx E. pose proof (Z.div_mod (x + 1) (2 ^ 32)). lia. Qed.

Lemma fin_at_established w s e i t b sq ak p :
  let t1 := take_ack t ak in
  let t' := set_state CloseWait (set_rcv (rcv_nxt t +[32] 1) t1) in
  at_conn w i t -> peers b t -> tcb_ty t -> tcb_ty b -> state t = Established -> u_ty 32 sq -> u_ty 32 ak ->
  send_segment b (Z.lor FIN ACK) sq ak [] = Ret p ->
  exists q w', deliver w s e p = Ret (w', s, [q]) /\ at_conn w' i t' /\ tcb_ty t' /\
    send_segment t' ACK (snd_nxt t) (rcv_nxt t +[32] 1) [] = Ret q.
Proof.
  intros t1 t' Hat Hpe Ht Hb Hs Hsq Hak Hp. destruct (take_ack_ok t ak Ht Hak) as (Ht1 & Hid & _).
  destruct (on_ack_flow t ak) as ((_ & _ & Hn & Hr & _) & _).
  assert (tcb_ty t') as Ht' by (apply set_state_ty, set_rcv_ty; [done | by apply wrap_ty]).
  destruct (send_segment_ok t' ACK (snd_nxt t) (rcv_nxt t +[32] 1) []) as (sum & _ & E & _); [done | by unfold u_ty | constructor |].
  edestruct (control_step w s e i t b (Z.lor FIN ACK) sq ak p t') as (w' & Hd & Hw'); try done.
  { intros sum'. unfold handle_tcp_segment. rewrite Hs. change (0 <? Z.of_nat (length [])) with false.
    change (has_bits (Z.lor FIN ACK) FIN) with true. change (has_bits (Z.lor FIN ACK) ACK) with true. cbv iota zeta.
    cbn [header_of ack]. change (set_tx _ (on_ack t ak)) with t1.
    replace (rcv_nxt t1) with (rcv_nxt t) by (symmetry; exact Hr). fold t'.
    replace (snd_nxt t') with (snd_nxt t) by (symmetry; exact Hn). change (rcv_nxt t') with (rcv_nxt t +[32] 1).
    rewrite E. reflexivity. }
  by eexists _, w'.
Qed.

Lemma fin_at_wait2 w s e i t b sq ak p :
  let t' := set_state TimeWait (set_rcv (rcv_nxt t +[32] 1) t) in
  at_conn w i t -> peers b t -> tcb_ty t -> tcb_ty b -> state t = FinWait2 -> u_ty 32 sq -> u_ty 32 ak ->
  send_segment b (Z.lor FIN ACK) sq ak [] = Ret p ->
  exists q w', deliver w s e p = Ret (w', s, [q]) /\ at_conn w' i t' /\ tcb_ty t' /\
    send_segment t' ACK (snd_nxt t) (rcv_nxt t +[32] 1) [] = Ret q.
Proof.
  intros t' Hat Hpe Ht Hb Hs Hsq Hak Hp.
  assert (tcb_ty t') as Ht' by (apply set_state_ty, set_rcv_ty; [done | by apply wrap_ty]).
  destruct (send_segment_ok t' ACK (snd_nxt t) (rcv_nxt t +[32] 1) []) as (sum & _ & E & _); [done | by unfold u_ty | constructor |].
  edestruct (control_step w s e i t b (Z.lor FIN ACK) sq ak p t') as (w' & Hd & Hw'); try done.
  { intros sum'. unfold handle_tcp_segment. rewrite Hs. change (has_bits (Z.lor FIN ACK) FIN) with true. cbv iota zeta.
    fold t'. change (snd_nxt t') with (snd_nxt t). change (rcv_nxt t') with (rcv_nxt t +[32] 1). rewrite E. reflexivity. }
  by eexists _, w'.
Qed.

(** An orderly close ends half way. One end of an established session closes, the other
    acknowledges and closes as well, and every segment is delivered. The first end is then
    in [TimeWait]. The second stays in [LastAck] although its [FIN] was acknowledged: [close]
    does not count the [FIN] as a sequence number, so the acknowledgement is one more than
    the number the block waits for. *)
Theorem orderly_close_leaves_last_ack wa wb i j a b sa sb e1 e2 e3 e4 :
  at_conn wa i a -> at_conn wb j b -> in_sync a b ->
  exists wa1 f1 wb1 k1 wa2 wb2 f2 wa3 k2 wb3 a' b',
    close wa (socket_id (ident a)) = Ret (true, wa1, [f1]) /\
    deliver wb sb e1 f1 = Ret (wb1, sb, [k1]) /\
    deliver wa1 sa e2 k1 = Ret (wa2, sa, []) /\
    close wb1 (socket_id (ident b)) = Ret (true, wb2, [f2]) /\
    deliver wa2 sa e3 f2 = Ret (wa3, sa, [k2]) /\
    deliver wb2 sb e4 k2 = Ret (wb3, sb, []) /\
    send_segment a' ACK (snd_nxt a) (snd_nxt b +[32] 1) [] = Ret k2 /\
    at_conn wa3 i a' /\ state a' = TimeWait /\ at_conn wb3 j b' /\ state b' = LastAck.
Proof.
  intros Ha Hb (Hta & Htb & Hpe & Hsa & Hsb & Hseq & Hseq').
  pose proof Hta as (_ & _ & Hna & Hra & _). pose proof Htb as (_ & _ & Hnb & Hrb & _).
  destruct (close_step wa i a FinWait1 Ha Hta) as (f1 & wa1 & Hc1 & Hf1 & Ha1); [by left |].
  destruct (fin_at_established wb sb e1 j b (set_state FinWait1 a) (snd_nxt a) (rcv_nxt a) f1)
    as (k1 & wb1 & Hd1 & Hb1 & Htb1 & Hk1); try done.
  destruct (take_ack_ok b (rcv_nxt a) Htb Hra) as (_ & Hidb & _).
  destruct (on_ack_flow b (rcv_nxt a)) as ((_ & _ & Hnb1 & _) & _).
  set (b1 := set_state CloseWait _) in *.
  set (a2 := set_state FinWait2 (set_una (rcv_nxt b +[32] 1) (set_state FinWait1 a))).
  assert (peers b1 a) as Hpe1 by (by eapply (peers_ident b a); [apply peers_sym | |]).
  destruct (control_step wa1 sa e2 i (set_state FinWait1 a) b1 ACK (snd_nxt b) (rcv_nxt b +[32] 1) k1 a2 [])
    as (wa2 & Hd2 & Ha2); try done; [by apply wrap_ty |].
  destruct (close_step wb1 j b1 LastAck Hb1 Htb1) as (f2 & wb2 & Hc2 & Hf2 & Hb2); [by right |].
  change (socket_id (ident b1)) with (socket_id (ident (take_ack b (rcv_nxt a)))) in Hc2. rewrite Hidb in Hc2.
  change (snd_nxt b1) with (snd_nxt (on_ack b (rcv_nxt a))) in Hf2. rewrite Hnb1 in Hf2.
  assert (tcb_ty a2) as Hta2 by (apply set_state_ty, set_una_ty; [by apply set_state_ty | by apply wrap_ty]).
  destruct (fin_at_wait2 wa2 sa e3 i a2 (set_state LastAck b1) (snd_nxt b) (rcv_nxt b1) f2)
    as (k2 & wa3 & Hd3 & Ha3 & Hta3 & Hk2); try done; [apply Htb1 |].
  set (a3 := set_state TimeWait _) in *. change (rcv_nxt a2) with (rcv_nxt a) in Hk2.
  change (snd_nxt a2) with (snd_nxt a) in Hk2. rewrite <- Hseq' in Hk2.
  destruct (control_step wb2 sb e4 j (set_state LastAck b1) a3 ACK (snd_nxt a) (snd_nxt b +[32] 1) k2 (set_state LastAck b1) [])
    as (wb3 & Hd4 & Hb3); try done.
  { apply (peers_sym b1 a3), Hpe1. }
  { by apply wrap_ty. }
  { intros sum. unfold handle_tcp_segment. cbn [state set_state header_of ack].
    change (snd_nxt (set_state LastAck b1)) with (snd_nxt (on_ack b (rcv_nxt a))). rewrite Hnb1.
    rewrite (proj2 (Z.eqb_neq _ _)), andb_false_r by (by apply wrap_succ_ne). reflexivity. }
  exists wa1, f1, wb1, k1, wa2, wb2, f2, wa3, k2, wb3, a3, (set_state LastAck b1). by split_and!.
Qed.

Lemma orderly_close_leaves_last_ack_witness : exists wa1 f1 wb1 k1 wa2 wb2 f2 wa3 k2 wb3 b',
  let s := Sockets.mk_world [] 1 in
  close (sample_world sample_a) 1 = Ret (true, wa1, [f1]) /\
  deliver (sample_world sample_b) s sample_env f1 = Ret (wb1, s, [k1]) /\
  deliver wa1 s sample_env k1 = Ret (wa2, s, []) /\ close wb1 1 = Ret (true, wb2, [f2]) /\
  deliver wa2 s sample_env f2 = Ret (wa3, s, [k2]) /\ deliver wb2 s sample_env k2 = Ret (wb3, s, []) /\
  at_conn wb3 0 b' /\ state b' = LastAck.
Proof.
  destruct (orderly_close_leaves_last_ack (sample_world sample_a) (sample_world sample_b) 0 0 sample_a sample_b
    (Sockets.mk_world [] 1) (Sockets.mk_world [] 1) sample_env sample_env sample_env sample_env)
    as (wa1 & f1 & wb1 & k1 & wa2 & wb2 & f2 & wa3 & k2 & wb3 & a' & b' & H1 & H2 & H3 & H4 & H5 & H6 & _ & _ & _ & H7 & H8).
  - apply sample_at.
  - apply sample_at.
  - apply sample_in_sync.
  - exists wa1, f1, wb1, k1, wa2, wb2, f2, wa3, k2, wb3, b'. repeat (split; [assumption |]). assumption.
Defined.

Section Stays.
Variable t : Tcb.
Hypothesis Htw : state t = TimeWait.

Lemma stays_insert (l : list Tcb) (i : nat) x x' : t ∈ l -> l !! i = Some x -> (x = t -> x' = t) -> t ∈ <[i := x']> l.
Proof.
  intros [j Hj]%list_elem_of_lookup Hi Hx. destruct (decide (i = j)) as [-> | Hne].
  - rewrite Hi in Hj. injection Hj as Hj. apply (list_elem_of_lookup_2 _ j).
    rewrite list_lookup_insert_eq by (by eapply lookup_lt_Some). by rewrite Hx.
  - apply (list_elem_of_lookup_2 _ j). by rewrite list_lookup_insert_ne.
Qed.

Lemma stays_filter (f : Tcb -> bool) (l : list Tcb) : t ∈ l -> f t = true -> t ∈ List.filter f l.
Proof. rewrite !list_elem_of_In. intros. by apply filter_In. Qed.

Lemma stays_timers nw later i (l l' : list Tcb) ps : t ∈ l -> timer_loop nw later i l = Ret (l', ps) -> t ∈ l'.
Proof.
  revert i l' ps. induction l as [| x l IH]; intros i l' ps Hin; [by apply not_elem_of_nil in Hin |].
  cbn [timer_loop]. intros ([x' qs] & Hx & ([l1 rs] & Hl & [= <- <-])%outcome_bind_Ret)%outcome_bind_Ret.
  apply elem_of_cons in Hin as [<- | Hin]; [| apply elem_of_cons; right; by eapply IH].
  unfold needs_retransmit in Hx. rewrite Htw in Hx. injection Hx as <- <-. apply elem_of_cons. by left.
Qed.

Lemma stays_input w s e src dst data w' s' ps :
  t ∈ connections w -> tcp_input w s e src dst data = Ret (w', s', ps) -> t ∈ connections w'.
Proof.
  intros Hin. unfold tcp_input. destruct (from_bytes data) as [h |]; [| by intros [= <- _ _]].
  destruct (negb _); [by intros [= <- _ _] |]. intros (payload & _ & H)%outcome_bind_Ret. revert H.
  unfold dispatch, find_tcb. destruct (position _ _) as [i |] eqn:Hp.
  { destruct (rd_position Hp) as (x & -> & Hi). cbn [mbind outcome_bind].
    intros ([[x' qs] est] & Hh & H)%outcome_bind_Ret.
    assert (t ∈ <[i := x']> (connections w)) as Hin'.
    { apply (stays_insert _ i x); [done | done |]. intros ->. unfold handle_tcp_segment in Hh.
      rewrite Htw in Hh. by injection Hh. }
    destruct (_ && _); [destruct (Sockets.enqueue_accept _ _ _) |]; by injection H as <- _ _. }
  destruct (has_bits _ SYN).
  - destruct (_ <=? _); [by intros [= <- _ _] |].
    destruct (find_listener _ _ _) as [i |]; [| by intros [= <- _ _]].
    unfold Sockets.socket. intros ([w1 qs] & Ho & [= <- _ _])%outcome_bind_Ret.
    apply outcome_bind_Ret in Ho as (l & _ & Ho). apply outcome_bind_Ret in Ho as (q & _ & [= <- _]).
    apply elem_of_app. by left.
  - intros ([q |] & _ & [= <- _ _])%outcome_bind_Ret; done.
Qed.

Lemma stays_close w id r w' ps :
  t ∈ connections w -> socket_id (ident t) <> id -> close w id = Ret (r, w', ps) -> t ∈ connections w'.
Proof.
  intros Hin Hid. unfold close. destruct (position _ _) as [i |] eqn:Hp; [| by intros [= _ <- _]].
  destruct (position_Some _ _ _ Hp) as (x & Hx & Hb & _). rewrite (rd_lookup _ _ _ Hx).
  cbn [mbind outcome_bind]. intros ([x' qs] & _ & [= _ <- _])%outcome_bind_Ret. cbn [count_sent set_conns connections].
  apply Z.eqb_eq in Hb. apply stays_filter.
  - apply (stays_insert _ i x); [done | done |]. congruence.
  - unfold by_id. by rewrite (proj2 (Z.eqb_neq _ _)).
Qed.

Lemma stays_run w s c w' s' ps :
  t ∈ connections w -> c <> CClose (socket_id (ident t)) -> run w s c = Ret (w', s', ps) -> t ∈ connections w'.
Proof.
  intros Hin Hc. destruct c; cbn [run].
  - intros [= <- _ _]. unfold listen. destruct (_ <=? _); [done |]. destruct (existsb _ _); [done |].
    apply elem_of_app. by left.
  - intros [= <- _ _]. apply stays_filter; [done |]. unfold listens_on. rewrite Htw. by rewrite andb_false_r.
  - unfold connect. destruct (_ <=? _); [by intros [= <- _ _] |].
    destruct (if _ =? 0 then _ else _); [| by intros [= <- _ _]].
    intros ([[r w1] qs] & (q & _ & [= _ <- _])%outcome_bind_Ret & [= <- _ _])%outcome_bind_Ret.
    apply elem_of_app. by left.
  - by apply stays_input.
  - intros ([[r w1] qs] & H & [= <- _ _])%outcome_bind_Ret. apply (stays_close w id r _ qs); [done | congruence | done].
  - intros ([[r w1] qs] & H & [= <- _ _])%outcome_bind_Ret. revert H. unfold send.
    destruct (position _ _) as [i |] eqn:Hp; [| by intros [= _ <- _]].
    destruct (rd_position Hp) as (x & -> & Hi). cbn [mbind outcome_bind].
    case_bool_decide; [| by intros [= _ <- _]]. intros (q & _ & [= _ <- _])%outcome_bind_Ret.
    apply (stays_insert _ i x); [done | done | congruence].
  - intros ([r w1] & H & [= <- _ _])%outcome_bind_Ret. revert H. unfold receive.
    destruct (position _ _) as [i |] eqn:Hp; [| by intros [= _ <-]].
    destruct (rd_position Hp) as (x & -> & Hi). cbn [mbind outcome_bind].
    destruct (_ && _) eqn:Est; [by intros [= _ <-] |]. destruct (bool_decide (rx_buf x = [])); [by intros [= _ <-] |].
    intros [= _ <-]. apply (stays_insert _ i x); [done | done |]. intros ->. by rewrite Htw in Est.
  - intros ([w1 qs] & ([l rs] & H & [= <- _])%outcome_bind_Ret & [= <- _ _])%outcome_bind_Ret.
    by apply stays_timers in H.
Qed.

End Stays.

(** A finished connection keeps its place in the table for ever. A block in [TimeWait]
    stays as it is under every sequence of calls, received datagrams and timer sweeps in
    which its own id is not closed again: no time-out removes it, and no segment changes it. *)
Theorem time_wait_never_expires w s cs t :
  world_ok w s -> Forall call_ty cs -> t ∈ connections w -> state t = TimeWait ->
  CClose (socket_id (ident t)) ∉ cs ->
  exists w' s' ps, run_all w s cs = Ret (w', s', ps) /\ t ∈ connections w'.
Proof.
  intros Hw Hcs Hin Htw Hno. revert w s Hw Hin.
  induction Hcs as [| c cs Hc Hcs IH]; intros w s Hw Hin; [by eexists _, _, _ |].
  rewrite not_elem_of_cons in Hno. destruct Hno as [Hne Hno].
  destruct (run_keeps w s c Hw Hc) as (w1 & s1 & ps & Hr & Hw1 & _).
  destruct (IH Hno w1 s1 Hw1) as (w2 & s2 & qs & Hrs & Hin2); [by eapply stays_run |].
  exists w2, s2, (ps ++ qs). split; [| done]. cbn [run_all]. rewrite Hr. cbn [mbind outcome_bind]. by rewrite Hrs.
Qed.

Lemma time_wait_never_expires_witness : exists w' s' ps,
  run_all (sample_world (set_state TimeWait sample_a)) (Sockets.mk_world [] 1)
    [CTimers 9000000 (fun _ => 9000001); CInput sample_env 2 1 [255]; CSend 1 [7]] = Ret (w', s', ps) /\
  set_state TimeWait sample_a ∈ connections w'.
Proof.
  apply (time_wait_never_expires (sample_world (set_state TimeWait sample_a)) (Sockets.mk_world [] 1)
    [CTimers 9000000 (fun _ => 9000001); CInput sample_env 2 1 [255]; CSend 1 [7]] (set_state TimeWait sample_a)).
  - split; [| by unfold u_ty]. split; [by unfold MAX_TCP_CONNECTIONS |].
    split; [constructor; [by apply set_state_ty, sample_tcb_ty | constructor] |]. apply NoDup_nil_2.
  - assert (env_ty sample_env) as He by (split; [by unfold u_ty | split; [done | by repeat constructor]]).
    repeat (apply List.Forall_cons); try apply List.Forall_nil; cbn [call_ty].
    + split; [by unfold u_ty | by intros _; unfold u_ty].
    + split; [exact He |]. split; [by unfold u_ty |]. split; [by unfold u_ty | by repeat constructor].
    + split; [by unfold u_ty | by repeat constructor].
  - apply elem_of_cons. by left.
  - reflexivity.
  - rewrite !not_elem_of_cons. split_and!; [done .. | apply not_elem_of_nil].
Defined.

End TcpSession.
