(* ===== verification/SocketApi.v ===== *)
(** * The socket interface

    Models the operations of [netstack/socket.rs] that act on more than the socket table:
    they compose [Sockets] with [Tcp] and [Udp]. The answers of [ipif], the clock, the random
    source and the result of [send_ipv4] are arguments. A blocking [connect] polls the
    network until it is established or its time is up; the datagrams that each poll delivers
    are an argument. *)

From S2P Require Import Prelude Ipv4 Udp Sockets Tcp TcpSession.

Module SocketApi.
Import Sockets.

(** The three tables. *)
Record Net : Type := mk_net { socks : Sockets.World; tcp : Tcp.World; udp : Udp.World }.

Definition set_socks (w : Net) (s : Sockets.World) : Net := mk_net s (tcp w) (udp w).

(** What the interface asks of [ipif] and of [send_ipv4]. *)
Record Host : Type := mk_host {
  outbound_ip : option Z; our_ip : option Z; ip_sent : Udp.Datagram -> bool }.

(** A result and the packets that were sent. *)
Notation answer A := (outcome ((A + SocketError) * Net * list Tcp.Packet)) (only parsing).

(** ** Servers *)

Definition listen (w : Net) (h : Host) (e : Tcp.Env) (id backlog : Z) : (unit + SocketError) * Net :=
  match find (socks w) id with
  | None => (inr InvalidSocket, w)
  | Some s =>
      if negb (bool_decide (socket_type s = Stream)) then (inr InvalidArgument, w)
      else if negb (bool_decide (state s = Bound)) then (inr NotConnected, w)
      else
        let local_ip := match local_addr s with Some a => ip a | None => default 0 (our_ip h) end in
        match Tcp.listen (tcp w) e local_ip (bind_port s) with
        | (None, t) => (inr AddressInUse, mk_net (socks w) t (udp w))
        | (Some _, t) => (inl tt, mk_net (update (socks w) id (set_listening backlog)) t (udp w))
        end
  end.

(** ** Connecting *)

(** A datagram for [tcp_input], with the clock and random source of its time. *)
Record Input : Type := mk_input { i_env : Tcp.Env; i_src : Z; i_dst : Z; i_data : list Z }.

(** What one [poll_all] delivers. *)
Fixpoint poll (t : Tcp.World) (s : Sockets.World) (ins : list Input)
    : outcome (Tcp.World * Sockets.World * list Tcp.Packet) :=
  match ins with
  | [] => Ret (t, s, [])
  | i :: ins =>
      '(t, s, ps) ← Tcp.tcp_input t s (i_env i) (i_src i) (i_dst i) (i_data i);
      '(t, s, qs) ← poll t s ins;
      Ret (t, s, ps ++ qs)
  end.

(** The loop of [connect]; one element of [rounds] for each turn before the deadline. *)
Fixpoint wait_loop (t : Tcp.World) (s : Sockets.World) (tcp_id : Z) (rounds : list (list Input))
    : outcome (bool * Tcp.World * Sockets.World * list Tcp.Packet) :=
  match rounds with
  | [] => Ret (false, t, s, [])
  | ins :: rounds =>
      '(t, s, ps) ← poll t s ins;
      match Tcp.socket_state t tcp_id with
      | Tcp.Established => Ret (true, t, s, ps)
      | Tcp.Closed => Ret (false, t, s, ps)
      | _ => '(b, t, s, qs) ← wait_loop t s tcp_id rounds; Ret (b, t, s, ps ++ qs)
      end
  end.

Definition set_remote (st : SocketState) (tcp_id : option Z) (udp_idx : option nat) (a : SockAddr) (s : Socket)
    : Socket :=
  mk_socket (socket_type s) (protocol s) st (local_addr s) (Some a) tcp_id udp_idx (sock_rx s) (sock_tx s)
    (sock_id s) (bind_port s) (accept_queue s) (listen_backlog s) (shutdown_receive s) (shutdown_send s).

Definition set_state (st : SocketState) (s : Socket) : Socket :=
  mk_socket (socket_type s) (protocol s) st (local_addr s) (remote_addr s) (tcp_socket_id s)
    (udp_socket_idx s) (sock_rx s) (sock_tx s) (sock_id s) (bind_port s) (accept_queue s)
    (listen_backlog s) (shutdown_receive s) (shutdown_send s).

(** [tcp::close], its answer dropped. *)
Definition close_tcp (t : Tcp.World) (tcp_id : Z) : outcome (Tcp.World * list Tcp.Packet) :=
  '(_, t, ps) ← Tcp.close t tcp_id; Ret (t, ps).

Definition connect_stream (w : Net) (h : Host) (e : Tcp.Env) (rounds : list (list Input)) (id : Z)
    (s : Socket) (a : SockAddr) : answer unit :=
  '(r, t, ps) ← Tcp.connect (tcp w) e (default 0 (outbound_ip h)) 0 (ip a) (port a);
  match r with
  | None => Ret (inr ConnectionRefused, mk_net (socks w) t (udp w), ps)
  | Some tcp_id =>
      let ss := update (socks w) id (fun s => set_remote Connecting (Some tcp_id) (udp_socket_idx s) a s) in
      '(established, t, ss, qs) ← wait_loop t ss tcp_id rounds;
      '(t, rs) ← (if (established : bool) then Ret (t, []) else close_tcp t tcp_id);
      let ss := update ss id (set_state (if (established : bool) then Connected else Closed)) in
      Ret (if established then inl tt else inr ConnectionRefused, mk_net ss t (udp w), ps ++ qs ++ rs)
  end.

Definition connect_dgram (w : Net) (h : Host) (id : Z) (a : SockAddr) : answer unit :=
  match Udp.create_socket (udp w) 0 (default 0 (outbound_ip h)) with
  | (None, u) => Ret (inr ConnectionRefused, mk_net (socks w) (tcp w) u, [])
  | (Some idx, u) =>
      '(ok, u) ← Udp.connect u idx (ip a) (port a);
      if negb ok then Ret (inr ConnectionRefused, mk_net (socks w) (tcp w) (Udp.close_socket u idx), [])
      else
        Ret (inl tt,
          mk_net (update (socks w) id (fun s => set_remote Connected (tcp_socket_id s) (Some idx) a s)) (tcp w) u, [])
  end.

Definition connect (w : Net) (h : Host) (e : Tcp.Env) (rounds : list (list Input)) (id : Z) (a : SockAddr)
    : answer unit :=
  match find (socks w) id with
  | None => Ret (inr InvalidSocket, w, [])
  | Some s =>
      match socket_type s with
      | Stream => connect_stream w h e rounds id s a
      | Dgram => connect_dgram w h id a
      | Raw => Ret (inr InvalidArgument, w, [])
      end
  end.

(** ** Data *)

Definition packet_of (d : Udp.Datagram) : Tcp.Packet := Tcp.mk_packet d.1.1 d.1.2 d.2.

Definition tcp_send (w : Net) (tcp_id : Z) (data : list Z) : answer Z :=
  '(r, t, ps) ← Tcp.send (tcp w) tcp_id data;
  Ret (match r with Some n => inl n | None => inr ConnectionReset end, mk_net (socks w) t (udp w), ps).

Definition udp_send (w : Net) (h : Host) (idx : nat) (ip port : Z) (data : list Z) : answer Z :=
  '(r, u, ds) ← Udp.send (udp w) (ip_sent h) (our_ip h) idx ip port data;
  Ret (match r with Some n => inl n | None => inr WouldBlock end, mk_net (socks w) (tcp w) u, map packet_of ds).

(** [sockets.iter().find(|s| s.id == socket_id && s.state == Connected)] *)
Definition find_connected (w : Net) (id : Z) : option Socket :=
  List.find (fun s => (sock_id s =? id) && bool_decide (state s = Connected)) (sockets (socks w)).

Definition send (w : Net) (h : Host) (id : Z) (data : list Z) : answer Z :=
  match find_connected w id with
  | None => Ret (inr InvalidSocket, w, [])
  | Some s =>
      match socket_type s with
      | Stream =>
          match tcp_socket_id s with
          | Some tcp_id => tcp_send w tcp_id data
          | None => Ret (inr NotConnected, w, [])
          end
      | Dgram =>
          match udp_socket_idx s, remote_addr s with
          | Some idx, Some a => udp_send w h idx (ip a) (port a) data
          | _, _ => Ret (inr NotConnected, w, [])
          end
      | Raw => Ret (inr InvalidArgument, w, [])
      end
  end.

(** The bytes copied to the caller's buffer are returned. *)
Definition tcp_recv (w : Net) (tcp_id : Z) (buflen : nat) : answer (list Z) :=
  '(r, t) ← Tcp.receive (tcp w) tcp_id buflen;
  Ret (match r with Some d => inl d | None => inr WouldBlock end, mk_net (socks w) t (udp w), []).

Definition udp_recv (w : Net) (idx : nat) (buflen : nat) : answer (Z * Z * list Z) :=
  '(r, u) ← Udp.receive (udp w) idx buflen;
  Ret (match r with Some d => inl d | None => inr WouldBlock end, mk_net (socks w) (tcp w) u, []).

Definition map_answer {A B} (f : A -> B) (r : answer A) : answer B :=
  '(x, w, ps) ← r; Ret (match x with inl a => inl (f a) | inr e => inr e end, w, ps).

Definition recv (w : Net) (id : Z) (buflen : nat) : answer (list Z) :=
  match find_connected w id with
  | None => Ret (inr InvalidSocket, w, [])
  | Some s =>
      match socket_type s with
      | Stream =>
          match tcp_socket_id s with
          | Some tcp_id => tcp_recv w tcp_id buflen
          | None => Ret (inr NotConnected, w, [])
          end
      | Dgram =>
          match udp_socket_idx s with
          | Some idx => map_answer snd (udp_recv w idx buflen)
          | None => Ret (inr NotConnected, w, [])
          end
      | Raw => Ret (inr InvalidArgument, w, [])
      end
  end.

Definition sendto (w : Net) (h : Host) (id : Z) (data : list Z) (a : SockAddr) : answer Z :=
  match find (socks w) id with
  | None => Ret (inr InvalidSocket, w, [])
  | Some s =>
      match socket_type s with
      | Stream =>
          match tcp_socket_id s with
          | Some tcp_id => tcp_send w tcp_id data
          | None => Ret (inr NotConnected, w, [])
          end
      | Dgram =>
          match udp_socket_idx s with
          | Some idx => udp_send w h idx (ip a) (Ipv4.u16_from_be (port a)) data
          | None => Ret (inr NotConnected, w, [])
          end
      | Raw => Ret (inr InvalidArgument, w, [])
      end
  end.

Definition recvfrom (w : Net) (id : Z) (buflen : nat) : answer (list Z * SockAddr) :=
  match find (socks w) id with
  | None => Ret (inr InvalidSocket, w, [])
  | Some s =>
      match socket_type s with
      | Dgram =>
          match udp_socket_idx s with
          | Some idx =>
              map_answer (fun '(src, sport, d) => (d, new_addr 2 (Ipv4.u16_from_be sport) src)) (udp_recv w idx buflen)
          | None => Ret (inr NotConnected, w, [])
          end
      | Stream =>
          match tcp_socket_id s, remote_addr s with
          | Some tcp_id, Some peer => map_answer (fun d => (d, peer)) (tcp_recv w tcp_id buflen)
          | _, _ => Ret (inr NotConnected, w, [])
          end
      | Raw => Ret (inr InvalidArgument, w, [])
      end
  end.

(** ** The end *)

Definition clear (s : Socket) : Socket :=
  mk_socket (socket_type s) (protocol s) Closed (local_addr s) (remote_addr s) None None [] [] (sock_id s) 0 []
    (listen_backlog s) (shutdown_receive s) (shutdown_send s).

Definition close (w : Net) (id : Z) : answer unit :=
  match find (socks w) id with
  | None => Ret (inr InvalidSocket, w, [])
  | Some s =>
      let was_listening := bool_decide (state s = Listening) in
      let local_ip := match local_addr s with Some a => ip a | None => 0 end in
      '(t, ps) ← match tcp_socket_id s with
                 | Some tcp_id => close_tcp (tcp w) tcp_id
                 | None => Ret (tcp w, [])
                 end;
      let u := match udp_socket_idx s with Some idx => Udp.close_socket (udp w) idx | None => udp w end in
      let t := if was_listening && negb (bind_port s =? 0) then (Tcp.close_listen t local_ip (bind_port s)).2 else t in
      Ret (inl tt, mk_net (update (socks w) id clear) t u, ps)
  end.

Definition is_read_ready (w : Net) (id : Z) : bool :=
  match find (socks w) id with
  | None => false
  | Some s =>
      let accept_ready := existsb (fun s => (sock_id s =? id) && bool_decide (state s = Listening)
                                            && negb (bool_decide (accept_queue s = []))) (sockets (socks w)) in
      let dgram_ready := existsb (fun s => (sock_id s =? id) && bool_decide (socket_type s = Dgram)
                                           && negb (bool_decide (sock_rx s = []))) (sockets (socks w)) in
      let stream_ready := bool_decide (socket_type s = Stream)
                          && (bool_decide (state s = Connected) || bool_decide (state s = Closing))
                          && match tcp_socket_id s with
                             | Some tcp_id => Tcp.has_buffered_data (tcp w) tcp_id
                             | None => false
                             end in
      negb (shutdown_receive s) && (accept_ready || dgram_ready || stream_ready)
  end.

(** ** The socket table *)

Lemma find_app (l k : list Socket) id :
  List.find (fun s => sock_id s =? id) (l ++ k)
  = match List.find (fun s => sock_id s =? id) l with Some s => Some s | None => List.find (fun s => sock_id s =? id) k end.
Proof. induction l as [| x l IH]; cbn; [done |]. by destruct (sock_id x =? id). Qed.

(** [update] acts on the socket that [find] finds. *)
Lemma find_update w id f id' :
  (forall s, sock_id (f s) = sock_id s) ->
  find (update w id f) id' = if id' =? id then f <$> find w id else find w id'.
Proof.
  intros Hf. unfold update, find. destruct w as [l n]. cbn [sockets]. destruct (position _ l) as [i |] eqn:Hp.
  - cbn [sockets]. revert i Hp. induction l as [| x l IH]; intros i Hp; [done |]. cbn in Hp.
    destruct (Z.eqb_spec (sock_id x) id) as [E | Hn].
    + injection Hp as <-. cbn. rewrite Hf, E, Z.eqb_refl. rewrite (Z.eqb_sym id' id). by destruct (id =? id').
    + destruct (position _ l) as [j |]; [| done]. injection Hp as <-. cbn. specialize (IH j eq_refl).
      rewrite (proj2 (Z.eqb_neq (sock_id x) id) Hn). destruct (Z.eqb_spec (sock_id x) id') as [<- | Hn']; [| exact IH].
      by rewrite (proj2 (Z.eqb_neq (sock_id x) id) Hn).
  - destruct (Z.eqb_spec id' id) as [-> | _]; [| done]. cbn [sockets].
    induction l as [| x l IH]; [done |]. cbn in Hp |- *. destruct (sock_id x =? id); [done |].
    apply IH. by destruct (position _ l).
Qed.

(** A new socket is found by its id and hides no other. *)
Lemma find_socket w t p id :
  id <> next_id w -> find (socket w t p).2 id = find w id.
Proof.
  intros Hn. unfold find, socket. cbn [snd sockets]. rewrite find_app. destruct (List.find _ _); [done |].
  cbn. by rewrite (proj2 (Z.eqb_neq _ _)) by done.
Qed.

(** What [enqueue_accept] does to the socket [x]. *)
Lemma find_enqueue w lid c x s :
  find w x = Some s -> state s = Listening -> Z.of_nat (length (accept_queue s)) < backlog_cap s ->
  find (enqueue_accept w lid c).2 x
  = Some (if x =? lid then set_queue (accept_queue s ++ [c]) s else s).
Proof.
  intros Hx Hs Hq. unfold enqueue_accept. destruct (Z.eqb_spec x lid) as [<- | Hn].
  - rewrite Hx, Hs. cbn [negb bool_decide]. rewrite bool_decide_true by done. cbn [negb].
    rewrite (proj2 (Z.leb_gt _ _)) by done. cbn [snd]. by rewrite find_update, Z.eqb_refl, Hx.
  - destruct (find w lid) as [s' |]; [| done]. destruct (negb _); [done |]. destruct (_ <=? _); [done |].
    cbn [snd]. by rewrite find_update, (proj2 (Z.eqb_neq _ _)).
Qed.

(** [accept] on a socket that listens. *)
Lemma accept_listening w x s :
  find w x = Some s -> socket_type s = Stream -> state s = Listening ->
  (accept w x).1 = match accept_queue s with c :: _ => inl c | [] => inr WouldBlock end.
Proof.
  intros Hx Ht Hs. unfold accept. rewrite Hx, Ht, Hs. rewrite !bool_decide_true by done. cbn [negb].
  by destruct (accept_queue s).
Qed.

(** ** A connection reaches its server *)

(** [tcp::listen] on an endpoint that nothing listens on. *)
Lemma tcp_listen_ok t e l_ip l_port :
  Tcp.find_listener t l_ip l_port = None -> Z.of_nat (length (Tcp.connections t)) < Tcp.MAX_TCP_CONNECTIONS ->
  let b := Tcp.new_tcb (Tcp.now e) (Tcp.new_ident l_ip l_port 0 0 0 0 (Tcp.next_socket_id t) 0) Tcp.Listen 0 0 0 in
  let t' := Tcp.with_next_id t (Tcp.connections t ++ [b]) in
  Tcp.listen t e l_ip l_port = (Some (Tcp.next_socket_id t), t') /\
  Tcp.find_listener t' l_ip l_port = Some (length (Tcp.connections t)).
Proof.
  intros Hn Hl b t'. apply position_None in Hn. split.
  - unfold Tcp.listen. rewrite (proj2 (Z.leb_gt _ _)) by done.
    assert (existsb (Tcp.listens_on l_ip l_port) (Tcp.connections t) = false) as ->; [| done].
    induction Hn as [| x l Hx Hl' IH]; [done |]. cbn. rewrite IH, orb_false_r by (cbn in Hl; lia). unfold Tcp.listens_on.
    destruct (bool_decide _), (_ =? l_ip), (_ =? l_port); done.
  - apply position_snoc; [done |]. cbn. by rewrite !Z.eqb_refl.
Qed.

(** What [accept] answers after the child [tb] was established. *)
Lemma accept_after_handshake ss x s tb :
  find ss x = Some s -> socket_type s = Stream -> state s = Listening -> accept_queue s = [] -> 0 < backlog_cap s ->
  x <> 0 -> x <> next_id ss -> Tcp.socket_id (Tcp.ident tb) = next_id ss ->
  (accept (TcpSession.after_segment true tb (socket ss Stream PTcp).2) x).1
  = if x =? Tcp.listen_socket_id (Tcp.ident tb) then inl (Tcp.socket_id (Tcp.ident tb)) else inr WouldBlock.
Proof.
  intros Hx Hty Hst Hq Hcap Hx0 Hxn Hid. set (ss1 := (socket ss Stream PTcp).2).
  assert (find ss1 x = Some s) as Hx1 by (by unfold ss1; rewrite find_socket).
  unfold TcpSession.after_segment. rewrite Hid. set (lid := Tcp.listen_socket_id _).
  destruct (Z.eqb_spec lid 0) as [-> | Hl0]; cbn [negb andb].
  - rewrite (accept_listening _ _ s), Hq by done. by rewrite (proj2 (Z.eqb_neq _ _)).
  - assert (find (mark_connected ss1 (next_id ss) (next_id ss)) x = Some s) as Hx2.
    { unfold mark_connected. rewrite find_update by done. by rewrite (proj2 (Z.eqb_neq _ _)). }
    rewrite (accept_listening _ _ (if x =? lid then set_queue (accept_queue s ++ [next_id ss]) s else s)).
    + rewrite Hq. destruct (x =? lid); [done |]. by rewrite Hq.
    + apply find_enqueue; [done | done |]. by rewrite Hq.
    + by destruct (x =? lid).
    + by destruct (x =? lid).
Qed.

(** C11: A completed connection reaches [accept] exactly when two counters agree. A bound
    stream socket listens; a client connects; the handshake runs through IPv4 and ends with
    both ends established and in step. The block of the listener carries the next id of the
    TCP module, but the finished connection is queued at the {e socket} with that number. So
    [accept] on the listening socket returns the new child when the ids are equal, and
    reports that there is nothing to accept when they differ. *)
Theorem connection_reaches_accept w h e0 x backlog s a cw cs ec e1 e2 e3 cip cport :
  find (socks w) x = Some s -> socket_type s = Stream -> state s = Bound -> local_addr s = Some a ->
  x <> 0 -> x <> next_id (socks w) ->
  Tcp.world_ok (tcp w) (socks w) -> Tcp.world_ok cw cs -> Tcp.env_ty e0 -> Tcp.env_ty ec -> Tcp.env_ty e1 ->
  u_ty 32 backlog -> u_ty 32 (ip a) -> u_ty 16 (bind_port s) -> u_ty 32 cip -> u_ty 16 cport -> cport <> 0 ->
  Z.of_nat (length (Tcp.connections (tcp w))) + 1 < Tcp.MAX_TCP_CONNECTIONS ->
  Z.of_nat (length (Tcp.connections cw)) < Tcp.MAX_TCP_CONNECTIONS ->
  Tcp.find_listener (tcp w) (ip a) (bind_port s) = None ->
  Tcp.find_tcb (tcp w) (ip a) (bind_port s) cip cport = None ->
  Tcp.find_tcb cw cip cport (ip a) (bind_port s) = None ->
  exists w1 cw1 syn t1 s1 synack cw2 final t2 s2 ta tb,
    listen w h e0 x backlog = (inl tt, w1) /\
    Tcp.connect cw ec cip cport (ip a) (bind_port s) = Ret (Some (Tcp.next_socket_id cw), cw1, [syn]) /\
    TcpSession.deliver (tcp w1) (socks w1) e1 syn = Ret (t1, s1, [synack]) /\
    TcpSession.deliver cw1 cs e2 synack = Ret (cw2, cs, [final]) /\
    TcpSession.deliver t1 s1 e3 final = Ret (t2, s2, []) /\
    ta ∈ Tcp.connections cw2 /\ tb ∈ Tcp.connections t2 /\ TcpSession.in_sync ta tb /\
    (accept s2 x).1 = if x =? Tcp.next_socket_id (tcp w) then inl (next_id (socks w)) else inr WouldBlock.
Proof.
  intros Hx Hty Hst Ha Hx0 Hxn Hw Hcw He0 Hec He1 Hback Hip Hbp Hcip Hcp Hcp0 Hl Hcl Hnl Hnt Hct.
  destruct (tcp_listen_ok (tcp w) e0 (ip a) (bind_port s) Hnl) as [Hlis Hfl]; [lia |].
  set (b := Tcp.new_tcb _ _ _ _ _ _) in *. set (t := Tcp.with_next_id _ _) in *.
  set (ss := update (socks w) x (set_listening backlog)).
  assert (listen w h e0 x backlog = (inl tt, mk_net ss t (udp w))) as Hapi.
  { unfold listen. rewrite Hx, Hty, Hst, Ha. rewrite !bool_decide_true by done. cbn [negb]. by rewrite Hlis. }
  assert (Tcp.world_ok t ss) as Hwt.
  { destruct (Tcp.listen_keeps (tcp w) (socks w) e0 (ip a) (bind_port s) Hw He0 Hip Hbp) as (w' & s' & ps & E & Hok & _).
    cbn [Tcp.run] in E. rewrite Hlis in E. injection E as <- <- <-. destruct Hok as (H1 & H2 & H3).
    split; [exact H1 |]. split; [exact H2 |]. unfold ss. by rewrite Tcp.update_next. }
  assert (Tcp.find_tcb t (ip a) (bind_port s) cip cport = None) as Hnt'.
  { apply position_None. apply Forall_app. split; [by apply position_None |]. constructor; [| constructor].
    cbn [b Tcp.new_tcb Tcp.ident Tcp.new_ident Tcp.remote_port]. by rewrite (proj2 (Z.eqb_neq 0 cport)), andb_false_r by done. }
  assert (Tcp.connections t !! length (Tcp.connections (tcp w)) = Some b) as Hkb
    by (cbn [t Tcp.with_next_id Tcp.connections]; by rewrite lookup_app_r, Nat.sub_diag by lia).
  destruct (TcpSession.handshake_steps cw cs t ss ec e1 e2 e3 cip cport (ip a) (bind_port s) (length (Tcp.connections (tcp w))) b)
    as (cw1 & syn & t1 & synack & cw2 & final & t2 & ta & tb & H1 & H2 & H3 & H4 & [Hka _] & [Hkb' _] & Hsync & _ & _ & _ & _ & _ & _ & Hid & Hlid);
    try done.
  { cbn [t Tcp.with_next_id Tcp.connections]. rewrite length_app. cbn. lia. }
  eexists (mk_net ss t (udp w)), cw1, syn, t1, _, synack, cw2, final, t2, _, ta, tb.
  split; [exact Hapi |]. split; [exact H1 |]. split; [exact H2 |]. split; [exact H3 |]. split; [exact H4 |].
  split; [by eapply list_elem_of_lookup_2 |]. split; [by eapply list_elem_of_lookup_2 |]. split; [exact Hsync |].
  assert (next_id ss = next_id (socks w)) as Hnext by apply Tcp.update_next.
  rewrite <- Hnext in Hxn |- *. rewrite <- Hid. change (Tcp.next_socket_id (tcp w)) with (Tcp.socket_id (Tcp.ident b)).
  rewrite <- Hlid. apply (accept_after_handshake ss x (set_listening backlog s) tb); try done.
  - unfold ss. by rewrite find_update, Z.eqb_refl, Hx.
  - unfold backlog_cap. cbn [listen_backlog set_listening]. destruct (Z.eqb_spec backlog 0); [done |].
    unfold u_ty in Hback. lia.
Qed.

(** A server with one bound socket, whose id is 1; the TCP module's next id is [n]. *)
Definition sample_server (n : Z) : Net :=
  mk_net (Sockets.mk_world [set_bound (new_addr 2 80 9) (mk_socket Stream PTcp Closed None None None None [] [] 1 0 [] 0 false false)] 2)
    (Tcp.boot n) (Udp.mk_world [] Udp.zero).

Definition sample_host : Host := mk_host (Some 9) (Some 9) (fun _ => true).

(** With equal ids the child is accepted, with different ids it is not. *)
Lemma connection_reaches_accept_witness : Forall (fun n => exists w1 cw1 syn t1 s1 synack cw2 final t2 s2,
  listen (sample_server n) sample_host Tcp.sample_env 1 5 = (inl tt, w1) /\
  Tcp.connect (Tcp.boot 1) Tcp.sample_env 7 5000 9 80 = Ret (Some 1, cw1, [syn]) /\
  TcpSession.deliver (tcp w1) (socks w1) Tcp.sample_env syn = Ret (t1, s1, [synack]) /\
  TcpSession.deliver cw1 (Sockets.mk_world [] 1) Tcp.sample_env synack = Ret (cw2, Sockets.mk_world [] 1, [final]) /\
  TcpSession.deliver t1 s1 Tcp.sample_env final = Ret (t2, s2, []) /\
  (accept s2 1).1 = if 1 =? n then inl 2 else inr WouldBlock) [1; 2].
Proof.
  assert (Tcp.env_ty Tcp.sample_env) as He by (split; [by unfold u_ty | split; [done | by repeat constructor]]).
  assert (forall n s, u_ty 32 n -> u_ty 32 (next_id s) -> Tcp.world_ok (Tcp.boot n) s) as Hw.
  { intros n s Hn Hs. split; [| by split]. split; [by unfold Tcp.MAX_TCP_CONNECTIONS |]. split; [constructor | apply NoDup_nil_2]. }
  apply Forall_forall. intros n Hn. 
  assert (u_ty 32 n) as Hn32 by (rewrite !elem_of_cons, elem_of_nil in Hn; unfold u_ty; destruct Hn as [-> | [-> | []]]; lia).
  destruct (connection_reaches_accept (sample_server n) sample_host Tcp.sample_env 1 5
    (set_bound (new_addr 2 80 9) (mk_socket Stream PTcp Closed None None None None [] [] 1 0 [] 0 false false))
    (new_addr 2 80 9) (Tcp.boot 1) (Sockets.mk_world [] 1) Tcp.sample_env Tcp.sample_env Tcp.sample_env Tcp.sample_env 7 5000)
    as (w1 & cw1 & syn & t1 & s1 & synack & cw2 & final & t2 & s2 & ta & tb & H1 & H2 & H3 & H4 & H5 & _ & _ & _ & H6).
  1-4: reflexivity.
  1-2: cbn; lia.
  1-2: apply Hw; by unfold u_ty.
  1-3: exact He.
  1-5: by unfold u_ty.
  1: lia.
  1-5: reflexivity.
  exists w1, cw1, syn, t1, s1, synack, cw2, final, t2, s2.
  split; [exact H1 |]. split; [exact H2 |]. split; [exact H3 |]. split; [exact H4 |]. split; [exact H5 | exact H6].
Defined.

(** ** Datagram sockets and the UDP table *)

Lemma find_connected_found w id s :
  find (socks w) id = Some s -> state s = Connected -> find_connected w id = Some s.
Proof.
  unfold find, find_connected. induction (sockets (socks w)) as [| x l IH]; cbn; [done |].
  destruct (sock_id x =? id); cbn [andb]; [| exact IH]. intros [= ->] ->. by rewrite bool_decide_true.
Qed.

(** Closing a datagram socket redirects others. A socket keeps its UDP socket as an index
    into the UDP table, and closing removes the entry, so the entries behind it move down.
    A connected datagram socket whose index is behind the closed one then receives the
    datagrams that were queued for the next UDP socket. *)
Theorem close_redirects_datagrams w ida sa i idb sb j r p q n :
  find (socks w) ida = Some sa -> tcp_socket_id sa = None -> udp_socket_idx sa = Some i ->
  find (socks w) idb = Some sb -> socket_type sb = Dgram -> state sb = Connected -> udp_socket_idx sb = Some j ->
  idb <> ida -> (i < j)%nat -> Udp.sockets (udp w) !! S j = Some r -> Udp.rx_buf r = p :: q ->
  exists w1 w2, close w ida = Ret (inl tt, w1, []) /\ recv w1 idb n = Ret (inl (take n (Udp.pk_data p)), w2, []).
Proof.
  intros Ha Hta Hua Hb Htb Hsb Hub Hne Hij Hr Hq. unfold close. rewrite Ha, Hta, Hua. cbn [mbind outcome_bind].
  pose proof (lookup_lt_Some _ _ _ Hr) as Hlt.
  eexists _, _. split; [reflexivity |]. unfold recv.
  set (w1 := mk_net _ _ _). assert (find_connected w1 idb = Some sb) as ->.
  { apply find_connected_found; [| done]. cbn [w1 socks]. rewrite find_update by done.
    by rewrite (proj2 (Z.eqb_neq _ _)). }
  rewrite Htb, Hub. unfold map_answer, udp_recv. cbn [w1 udp]. unfold Udp.close_socket.
  rewrite (proj2 (Nat.ltb_lt _ _)) by lia. unfold Udp.receive. cbn [Udp.sockets].
  assert (length (delete i (Udp.sockets (udp w))) = (length (Udp.sockets (udp w)) - 1)%nat) as Hlen
    by (rewrite length_delete; [done | apply lookup_lt_is_Some_2; lia]).
  rewrite (proj2 (Nat.leb_gt _ _)) by lia.
  rewrite (rd_lookup _ _ r) by (by rewrite list_lookup_delete_ge by lia). cbn [mbind outcome_bind].
  rewrite Hq, wr_in by lia. cbn [mbind outcome_bind]. rewrite Udp.take_min_length. reflexivity.
Qed.

Definition sample_dgram (id : Z) (idx : nat) : Socket :=
  mk_socket Dgram PUdp Connected None (Some (new_addr 2 53 9)) None (Some idx) [] [] id 0 [] 0 false false.

Lemma close_redirects_datagrams_witness :
  let queued d := Udp.mk_socket 1 0 53 9 [Udp.mk_packet 9 53 d] in
  let w := mk_net (Sockets.mk_world [sample_dgram 1 0; sample_dgram 2 1; sample_dgram 3 2] 4) (Tcp.boot 1)
             (Udp.mk_world [queued [1]; queued [2]; queued [3]] Udp.zero) in
  exists w1 w2, close w 1 = Ret (inl tt, w1, []) /\ recv w1 2 100 = Ret (inl [3], w2, []).
Proof.
  apply (close_redirects_datagrams _ 1 (sample_dgram 1 0) 0 2 (sample_dgram 2 1) 1
    (Udp.mk_socket 1 0 53 9 [Udp.mk_packet 9 53 [3]]) (Udp.mk_packet 9 53 [3]) [] 100); done || lia.
Defined.

(** ** Every sequence of calls *)

Inductive Op : Type :=
| OSocket (t : SocketType) (p : Protocol)
| OBind (id : Z) (a : SockAddr)
| OListen (e : Tcp.Env) (id backlog : Z)
| OAccept (id : Z)
| OConnect (e : Tcp.Env) (rounds : list (list Input)) (id : Z) (a : SockAddr)
| OSend (id : Z) (data : list Z)
| ORecv (id : Z) (buflen : nat)
| OSendto (id : Z) (data : list Z) (a : SockAddr)
| ORecvfrom (id : Z) (buflen : nat)
| OClose (id : Z)
| OShutdown (id how : Z)
| OTcp (i : Input)
| OUdp (src dst : Z) (data : list Z)
| OTimers (now : Z) (later : nat -> Z).

(** The state after an answer. *)
Definition state_of {A} (r : answer A) : outcome Net := '(_, w, _) ← r; Ret w.

Definition step (h : Host) (w : Net) (o : Op) : outcome Net :=
  match o with
  | OSocket t p => Ret (set_socks w (socket (socks w) t p).2)
  | OBind id a => Ret (set_socks w (bind (socks w) id a).2)
  | OListen e id backlog => Ret (listen w h e id backlog).2
  | OAccept id => Ret (set_socks w (accept (socks w) id).2)
  | OConnect e rounds id a => state_of (connect w h e rounds id a)
  | OSend id data => state_of (send w h id data)
  | ORecv id n => state_of (recv w id n)
  | OSendto id data a => state_of (sendto w h id data a)
  | ORecvfrom id n => state_of (recvfrom w id n)
  | OClose id => state_of (close w id)
  | OShutdown id how => Ret (set_socks w (shutdown (socks w) id how).2)
  | OTcp i =>
      '(t, s, _) ← Tcp.tcp_input (tcp w) (socks w) (i_env i) (i_src i) (i_dst i) (i_data i);
      Ret (mk_net s t (udp w))
  | OUdp src dst data => '(_, u) ← Udp.udp_input (udp w) src dst data; Ret (mk_net (socks w) (tcp w) u)
  | OTimers now later =>
      '(t, _) ← Tcp.check_retransmit_timers (tcp w) now later; Ret (mk_net (socks w) t (udp w))
  end.

Fixpoint steps (h : Host) (w : Net) (os : list Op) : outcome Net :=
  match os with
  | [] => Ret w
  | o :: os => w ← step h w o; steps h w os
  end.

(** *** Types and invariant *)

Definition addr_ty (a : SockAddr) : Prop :=
  u_ty 16 (port a) /\ length (addr a) = 4%nat /\ Forall byte_ty (addr a).

Definition input_ty (i : Input) : Prop :=
  Tcp.env_ty (i_env i) /\ u_ty 32 (i_src i) /\ u_ty 32 (i_dst i) /\ Forall byte_ty (i_data i).

Definition host_ty (h : Host) : Prop := u_ty 32 (default 0 (outbound_ip h)) /\ u_ty 32 (default 0 (our_ip h)).

Definition op_ty (o : Op) : Prop :=
  match o with
  | OBind _ a => addr_ty a
  | OListen e _ backlog => Tcp.env_ty e /\ u_ty 32 backlog
  | OConnect e rounds _ a => Tcp.env_ty e /\ Forall (Forall input_ty) rounds /\ addr_ty a
  | OSend _ data => Forall byte_ty data
  | OSendto _ data a => Forall byte_ty data /\ addr_ty a
  | OTcp i => input_ty i
  | OTimers now later => u_ty 64 now /\ forall j, u_ty 64 (later j)
  | _ => True
  end.

(** The receive buffer of a socket is never used, only streams listen, and the bound
    address is typed. *)
Definition sock_ok (s : Socket) : Prop :=
  sock_rx s = [] /\ (state s = Listening -> socket_type s = Stream) /\ u_ty 16 (bind_port s) /\
  match local_addr s with Some a => addr_ty a | None => True end.

Definition net_ok (w : Net) : Prop :=
  Tcp.world_ok (tcp w) (socks w) /\ Forall sock_ok (sockets (socks w)) /\ Udp.table_ok (udp w).

Lemma ip_ty a : addr_ty a -> u_ty 32 (ip a).
Proof. intros (_ & Hl & Hb). pose proof (from_be_ty (addr a) Hb) as H. by rewrite Hl in H. Qed.

Lemma position_find {A} (f : A -> bool) l i : position f l = Some i -> l !! i = List.find f l.
Proof.
  revert i. induction l as [| x l IH]; intros i; cbn; [done |]. destruct (f x); [by intros [= <-] |].
  destruct (position f l) as [j |]; [| done]. intros [= <-]. by apply IH.
Qed.

Lemma forall_update (P : Socket -> Prop) w id f :
  Forall P (sockets w) -> (forall s, find w id = Some s -> P s -> P (f s)) -> Forall P (sockets (update w id f)).
Proof.
  intros Hw Hf. unfold update. destruct (position _ _) as [i |] eqn:Hp; [| done]. cbn [sockets].
  apply Forall_alter; [done |]. intros s Hs. apply Hf. unfold find. by rewrite <- (position_find _ _ _ Hp).
Qed.

Lemma found_ok w id s : Forall sock_ok (sockets w) -> find w id = Some s -> sock_ok s.
Proof.
  unfold find. intros H Hs. rewrite Forall_forall in H. apply H. apply list_elem_of_In. by eapply find_some.
Qed.

(** *** The parts of [tcp_input] that act on sockets *)

Lemma mark_connected_ok w id t : Forall sock_ok (sockets w) -> Forall sock_ok (sockets (mark_connected w id t)).
Proof. intros H. apply forall_update; [done |]. intros s _ (H1 & _ & H3). by split. Qed.

Lemma enqueue_accept_ok w lid c : Forall sock_ok (sockets w) -> Forall sock_ok (sockets (enqueue_accept w lid c).2).
Proof.
  intros H. unfold enqueue_accept. destruct (find w lid); [| done]. destruct (negb _); [done |].
  destruct (_ <=? _); [done |]. apply forall_update; [done |]. by intros s' _ Hs.
Qed.

Lemma socket_ok w t p : Forall sock_ok (sockets w) -> Forall sock_ok (sockets (socket w t p).2).
Proof. intros H. apply Forall_app. split; [done |]. constructor; [| constructor]. by split_and!. Qed.

Lemma input_socks t s e src dst data t' s' ps :
  Tcp.tcp_input t s e src dst data = Ret (t', s', ps) -> Forall sock_ok (sockets s) -> Forall sock_ok (sockets s').
Proof.
  intros H Hs. revert H. unfold Tcp.tcp_input. destruct (Tcp.from_bytes data) as [h |]; [| by intros [= _ <- _]].
  destruct (negb _); [by intros [= _ <- _] |]. intros (payload & _ & H)%outcome_bind_Ret. revert H.
  unfold Tcp.dispatch. destruct (Tcp.find_tcb _ _ _ _ _) as [i |].
  { intros (x & _ & H)%outcome_bind_Ret. apply outcome_bind_Ret in H as ([[x' qs] est] & _ & H). revert H.
    destruct (est && _); [| by intros [= _ <- _]].
    destruct (enqueue_accept _ _ _) as [r s1] eqn:E. intros [= _ <- _].
    apply (f_equal snd) in E. cbn [snd] in E. rewrite <- E. by apply enqueue_accept_ok, mark_connected_ok. }
  destruct (has_bits _ Tcp.SYN).
  - destruct (_ <=? _); [by intros [= _ <- _] |]. destruct (Tcp.find_listener _ _ _) as [i |]; [| by intros [= _ <- _]].
    unfold socket. intros ([t1 qs] & _ & [= _ <- _])%outcome_bind_Ret. by apply (socket_ok s Stream PTcp).
  - intros ([q |] & _ & [= _ <- _])%outcome_bind_Ret; done.
Qed.

(** *** Every call returns and keeps the invariant *)

(** The state a call leaves. *)
Definition ends (r : outcome Net) : Prop := exists w, r = Ret w /\ net_ok w.

Lemma socks_keep w s :
  net_ok w -> next_id s = next_id (socks w) -> Forall sock_ok (sockets s) -> net_ok (set_socks w s).
Proof. intros ((H1 & H2 & H3) & H4 & H5) Hn Hs. split; [| by split]. split; [done |]. split; [done |]. cbn [socks set_socks]. by rewrite Hn. Qed.

Lemma poll_keeps t s ins :
  Tcp.world_ok t s -> Forall sock_ok (sockets s) -> Forall input_ty ins ->
  exists t' s' ps, poll t s ins = Ret (t', s', ps) /\ Tcp.world_ok t' s' /\ Forall sock_ok (sockets s').
Proof.
  intros Hw Hs Hi. revert t s Hw Hs. induction Hi as [| i ins (H1 & H2 & H3 & H4) Hi IH]; intros t s Hw Hs.
  { by eexists _, _, _. }
  destruct (Tcp.input_keeps t s (i_env i) (i_src i) (i_dst i) (i_data i)) as (t1 & s1 & ps & E & Hw1 & _); try done.
  destruct (IH t1 s1 Hw1) as (t2 & s2 & qs & E2 & Hw2 & Hs2); [by eapply input_socks |].
  cbn [poll]. rewrite E. cbn [mbind outcome_bind]. rewrite E2. by eexists _, _, _.
Qed.

Lemma wait_loop_keeps t s id rounds :
  Tcp.world_ok t s -> Forall sock_ok (sockets s) -> Forall (Forall input_ty) rounds ->
  exists b t' s' ps, wait_loop t s id rounds = Ret (b, t', s', ps) /\ Tcp.world_ok t' s' /\ Forall sock_ok (sockets s').
Proof.
  intros Hw Hs Hr. revert t s Hw Hs. induction Hr as [| ins rounds Hi Hr IH]; intros t s Hw Hs.
  { by eexists _, _, _, _. }
  destruct (poll_keeps t s ins Hw Hs Hi) as (t1 & s1 & ps & E & Hw1 & Hs1).
  destruct (IH t1 s1 Hw1 Hs1) as (b & t2 & s2 & qs & E2 & Hw2 & Hs2).
  cbn [wait_loop]. rewrite E. cbn [mbind outcome_bind]. rewrite E2.
  destruct (Tcp.socket_state t1 id); by eexists _, _, _, _.
Qed.

Lemma connect_keeps_net w h e rounds id a :
  net_ok w -> host_ty h -> Tcp.env_ty e -> Forall (Forall input_ty) rounds -> addr_ty a ->
  ends (state_of (connect w h e rounds id a)).
Proof.
  intros Hw [Ho _] He Hr Ha. pose proof Hw as (Ht & Hs & Hu). unfold connect.
  destruct (find (socks w) id) as [s |] eqn:Hf; [| by eexists]. destruct (socket_type s); [| | by eexists].
  - unfold connect_stream, state_of.
    destruct (Tcp.connect_keeps (tcp w) (socks w) e (default 0 (outbound_ip h)) 0 (ip a) (port a))
      as (t1 & s1 & ps & E & Hok & _); [done | done | done | by apply Tcp.ty_0 | by apply ip_ty | apply Ha |].
    apply outcome_bind_Ret in E as ([[r t1'] ps'] & -> & [= <- <- <-]). cbn [mbind outcome_bind].
    destruct r as [tcp_id |]; [| eexists; split; [reflexivity | by split]].
    set (ss := update _ _ _). destruct (wait_loop_keeps t1' ss tcp_id rounds) as (b & t2 & s2 & qs & -> & Hw2 & Hs2).
    { destruct Hok as (H1 & H2 & H3). split; [done |]. split; [done |]. unfold ss. by rewrite Tcp.update_next. }
    { apply forall_update; [done |]. intros s' _ (G1 & _ & G3). by split. }
    { done. }
    cbn [mbind outcome_bind].
    assert (exists t3 rs, (if b then Ret (t2, []) else close_tcp t2 tcp_id) = Ret (t3, rs) /\ Tcp.world_ok t3 s2)
      as (t3 & rs & -> & Hw3).
    { destruct b; [by eexists _, _ |]. destruct (Tcp.close_keeps t2 s2 tcp_id Hw2) as (t3 & s3 & rs & E & Hw3 & _).
      apply outcome_bind_Ret in E as ([[x t4] rs'] & E & [= <- <- <-]). unfold close_tcp. rewrite E. by eexists _, _. }
    cbn [mbind outcome_bind]. eexists. split; [reflexivity |]. split; [| split; [| done]]; cbn [socks tcp].
    + destruct Hw3 as (H1 & H2 & H3). split; [done |]. split; [done |]. by rewrite Tcp.update_next.
    + apply forall_update; [done |]. intros s' _ (G1 & G2 & G3). split; [done |]. split; [| done]. by destruct b.
  - unfold connect_dgram, state_of. destruct (Udp.create_socket _ _ _) as [r u] eqn:Ec.
    pose proof (Udp.udp_create_keeps (udp w) 0 (default 0 (outbound_ip h)) Hu) as Hu1. rewrite Ec in Hu1. cbn [snd] in Hu1.
    destruct r as [idx |]; [| eexists; split; [reflexivity | by split]].
    destruct (Udp.udp_connect_keeps u idx (ip a) (port a) Hu1) as (b & u2 & -> & Hu2). cbn [mbind outcome_bind].
    destruct b; cbn [negb].
    + eexists. split; [reflexivity |]. destruct Ht as (H1 & H2 & H3). split; [| split; [| done]]; cbn [socks tcp].
      * split; [done |]. split; [done |]. by rewrite Tcp.update_next.
      * apply forall_update; [done |]. intros s' _ (G1 & _ & G3). by split.
    + eexists. split; [reflexivity |]. split; [done |]. split; [done |]. by apply Udp.udp_close_keeps.
Qed.

Lemma tcp_send_keeps w id data : net_ok w -> Forall byte_ty data -> ends (state_of (tcp_send w id data)).
Proof.
  intros (Ht & Hs & Hu) Hd. destruct (Tcp.send_keeps (tcp w) (socks w) id data Ht Hd) as (t & s & ps & E & Hok & _).
  apply outcome_bind_Ret in E as ([[r t'] ps'] & E & [= <- <- <-]). unfold state_of, tcp_send. rewrite E.
  eexists. split; [reflexivity |]. by split.
Qed.

Lemma udp_send_keeps_net w h idx ip port data : net_ok w -> ends (state_of (udp_send w h idx ip port data)).
Proof.
  intros (Ht & Hs & Hu). destruct (Udp.udp_send_keeps (udp w) (ip_sent h) (our_ip h) idx ip port data Hu) as (r & u & ds & E & Hu').
  unfold state_of, udp_send. rewrite E. eexists. split; [reflexivity |]. by split.
Qed.

(** What a mapped answer leaves. *)
Lemma ends_map {A B} (f : A -> B) (r : answer A) : ends (state_of r) -> ends (state_of (map_answer f r)).
Proof.
  intros (w & E & Hw). apply outcome_bind_Ret in E as ([[x w'] ps] & -> & [= ->]). by exists w.
Qed.

Lemma tcp_recv_keeps w id n : net_ok w -> ends (state_of (tcp_recv w id n)).
Proof.
  intros (Ht & Hs & Hu). destruct (Tcp.receive_keeps (tcp w) (socks w) id n Ht) as (t & s & ps & E & Hok & _).
  apply outcome_bind_Ret in E as ([r t'] & E & [= <- <- <-]). unfold state_of, tcp_recv. rewrite E.
  eexists. split; [reflexivity |]. by split.
Qed.

Lemma udp_recv_keeps w idx n : net_ok w -> ends (state_of (udp_recv w idx n)).
Proof.
  intros (Ht & Hs & Hu). destruct (Udp.udp_receive_keeps (udp w) idx n Hu) as (r & u & E & Hu').
  unfold state_of, udp_recv. rewrite E. eexists. split; [reflexivity |]. by split.
Qed.

Lemma stay_keeps {A} (x : A + SocketError) w : net_ok w -> ends (state_of (Ret (x, w, []))).
Proof. intros Hw. by exists w. Qed.

Create HintDb net discriminated.
#[local] Hint Resolve stay_keeps tcp_send_keeps udp_send_keeps_net tcp_recv_keeps udp_recv_keeps ends_map : net.

Lemma send_keeps_net w h id data : net_ok w -> Forall byte_ty data -> ends (state_of (send w h id data)).
Proof. intros. unfold send. repeat case_match; auto with net. Qed.

Lemma sendto_keeps w h id data a : net_ok w -> Forall byte_ty data -> ends (state_of (sendto w h id data a)).
Proof. intros. unfold sendto. repeat case_match; auto with net. Qed.

Lemma recv_keeps w id n : net_ok w -> ends (state_of (recv w id n)).
Proof. intros. unfold recv. repeat case_match; auto with net. Qed.

Lemma recvfrom_keeps w id n : net_ok w -> ends (state_of (recvfrom w id n)).
Proof. intros. unfold recvfrom. repeat case_match; auto with net. Qed.

Lemma close_keeps_net w id : net_ok w -> ends (state_of (close w id)).
Proof.
  intros (Ht & Hs & Hu). unfold close. destruct (find (socks w) id) as [s |] eqn:Hf; [| by eexists].
  assert (exists t ps, match tcp_socket_id s with Some tcp_id => close_tcp (tcp w) tcp_id | None => Ret (tcp w, []) end
    = Ret (t, ps) /\ Tcp.world_ok t (socks w)) as (t & ps & -> & Hw).
  { destruct (tcp_socket_id s) as [i |]; [| by eexists _, _].
    destruct (Tcp.close_keeps (tcp w) (socks w) i Ht) as (t & s' & ps & E & Hw & _).
    apply outcome_bind_Ret in E as ([[x t'] ps'] & E & [= <- <- <-]). unfold close_tcp. rewrite E. by eexists _, _. }
  unfold state_of. cbn [mbind outcome_bind]. eexists. split; [reflexivity |]. split; [| split]; cbn [socks tcp udp].
  - destruct Hw as (H1 & H2 & H3). split.
    + destruct (_ && _); [| done]. eapply Tcp.table_ok_sublist; [exact H1 | apply filter_sublist].
    + split; [by destruct (_ && _) | by rewrite Tcp.update_next].
  - apply forall_update; [done |]. intros s' _ (G1 & G2 & G3 & G4). split; [done |]. split; [done |].
    split; [by apply Tcp.ty_0 | done].
  - destruct (udp_socket_idx s); [by apply Udp.udp_close_keeps | done].
Qed.

Lemma listen_keeps_net w h e id backlog :
  net_ok w -> host_ty h -> Tcp.env_ty e -> net_ok (listen w h e id backlog).2.
Proof.
  intros Hw [_ Ho] He. pose proof Hw as (Ht & Hs & Hu). unfold listen.
  destruct (find (socks w) id) as [s |] eqn:Hf; [| done]. pose proof (found_ok _ _ _ Hs Hf) as (_ & _ & Hb & Ha).
  destruct (negb _) eqn:Hty; [done |]. destruct (negb (bool_decide (state s = Bound))); [done |].
  set (l_ip := match local_addr s with Some _ => _ | None => _ end).
  assert (u_ty 32 l_ip) as Hip by (unfold l_ip; destruct (local_addr s); [by apply ip_ty | done]).
  destruct (Tcp.listen_keeps (tcp w) (socks w) e l_ip (bind_port s) Ht He Hip Hb) as (t & s' & ps & E & Hok & _).
  injection E as <- <- <-. destruct (Tcp.listen _ _ _ _) as [[r |] t]; cbn [snd] in Hok |- *; [| by split].
  destruct Hok as (H1 & H2 & H3). split; [| split; [| done]]; cbn [socks tcp].
  - split; [done |]. split; [done |]. by rewrite Tcp.update_next.
  - apply forall_update; [done |]. intros s1 Hf1 (G1 & _ & G3). split; [done |]. split; [| done].
    intros _. rewrite Hf in Hf1. injection Hf1 as <-. cbn. apply negb_false_iff, bool_decide_eq_true in Hty. exact Hty.
Qed.

Lemma step_keeps h w o : net_ok w -> host_ty h -> op_ty o -> ends (step h w o).
Proof.
  intros Hw Hh Ho. pose proof Hw as (Ht & Hs & Hu). destruct o; cbn [step op_ty] in *.
  - eexists. split; [reflexivity |]. destruct Ht as (H1 & H2 & H3). split; [| split; [by apply socket_ok | done]].
    split; [done |]. split; [done |]. by apply (wrap_ty 32).
  - eexists. split; [reflexivity |]. unfold bind. destruct (existsb _ _); [by destruct w |].
    destruct (find (socks w) id); [| by destruct w]. apply socks_keep; [done | apply Tcp.update_next |].
    apply forall_update; [done |]. intros s' _ (G1 & _ & _ & _). split; [done |]. split; [done |]. split; [apply Ho | done].
  - eexists. split; [reflexivity |]. apply listen_keeps_net; [done | done | apply Ho].
  - eexists. split; [reflexivity |]. unfold accept. destruct (find (socks w) id) as [s |]; [| by destruct w].
    destruct (negb _); [by destruct w |]. destruct (negb _); [by destruct w |].
    destruct (accept_queue s); [by destruct w |]. apply socks_keep; [done | apply Tcp.update_next |].
    apply forall_update; [done |]. by intros s' _ G.
  - apply connect_keeps_net; tauto.
  - by apply send_keeps_net.
  - by apply recv_keeps.
  - apply sendto_keeps; tauto.
  - by apply recvfrom_keeps.
  - by apply close_keeps_net.
  - eexists. split; [reflexivity |]. unfold shutdown. destruct (find (socks w) id) as [s |]; [| by destruct w].
    destruct (negb _); [by destruct w |]. apply socks_keep; [done | apply Tcp.update_next |].
    apply forall_update; [done |]. intros s' _ (G1 & G2 & G3). split; [done |]. split; [| done]. cbn. by destruct (_ && _).
  - destruct Ho as (O1 & O2 & O3 & O4).
    destruct (Tcp.input_keeps (tcp w) (socks w) (i_env i) (i_src i) (i_dst i) (i_data i)) as (t & s & ps & E & Hok & _);
      try done. rewrite E. eexists. split; [reflexivity |]. split; [done |]. split; [by eapply input_socks | done].
  - destruct (Udp.udp_input_keeps (udp w) src dst data Hu) as (b & u & -> & Hu'). eexists. split; [reflexivity |]. by split.
  - destruct Ho as [O1 O2]. destruct (Tcp.timers_keep (tcp w) (socks w) now later Ht O2) as (t & s & ps & E & Hok & _).
    apply outcome_bind_Ret in E as ([t' ps'] & -> & [= <- <- <-]). eexists. split; [reflexivity |]. by split.
Qed.

Lemma steps_keep h w os : net_ok w -> host_ty h -> Forall op_ty os -> ends (steps h w os).
Proof.
  intros Hw Hh Hos. revert w Hw. induction Hos as [| o os Ho Hos IH]; intros w Hw; [by exists w |].
  destruct (step_keeps h w o Hw Hh Ho) as (w1 & E & Hw1). cbn [steps]. rewrite E. by apply IH.
Qed.

(** The statics before the first call. *)
Definition start : Net := mk_net (Sockets.mk_world [] 1) (Tcp.boot 1) (Udp.mk_world [] Udp.zero).

Lemma start_ok : net_ok start.
Proof.
  split; [| split; [constructor | split; [constructor | apply NoDup_nil_2]]].
  split; [| split; by unfold u_ty]. split; [by unfold Tcp.MAX_TCP_CONNECTIONS |]. split; [constructor | apply NoDup_nil_2].
Qed.


(** A client's socket, a datagram for it, and a server's socket. *)
Definition sample_ops : list Op :=
  [OSocket Dgram PUdp; OConnect Tcp.sample_env [] 1 (new_addr 2 53 7); OUdp 7 9 (Udp.datagram 53 49152 [65; 66] 0);
   OSocket Stream PTcp; OBind 2 (new_addr 2 80 9); OListen Tcp.sample_env 2 0].

Lemma sample_ops_ty : Forall op_ty sample_ops.
Proof.
  assert (Tcp.env_ty Tcp.sample_env) as He by (split; [by unfold u_ty | split; [done | by repeat constructor]]).
  assert (addr_ty (new_addr 2 53 7) /\ addr_ty (new_addr 2 80 9)) as [Ha Hb]
    by (split; (split; [by unfold u_ty | split; [done | by repeat constructor]])).
  repeat (apply List.Forall_cons); try apply List.Forall_nil; cbn [op_ty]; try exact I; try exact Hb.
  - split; [exact He |]. split; [constructor | exact Ha].
  - split; [exact He | by unfold u_ty].
Qed.


(** A datagram socket is never reported readable. [is_read_ready] looks at a receive
    buffer in the socket that nothing fills, because datagrams are queued in the UDP table.
    After every sequence of calls and received datagrams, a socket id that only datagram
    sockets have is not ready, whatever is queued for it. *)
Theorem datagram_never_ready h os id :
  host_ty h -> Forall op_ty os ->
  exists w, steps h start os = Ret w /\
    ((forall s, s ∈ sockets (socks w) -> sock_id s = id -> socket_type s = Dgram) -> is_read_ready w id = false).
Proof.
  intros Hh Hos. destruct (steps_keep h start os start_ok Hh Hos) as (w & E & _ & Hs & _).
  exists w. split; [done |]. intros Hd. unfold is_read_ready.
  destruct (find (socks w) id) as [s |] eqn:Hf; [| done].
  assert (forall g k, (forall x, x ∈ sockets (socks w) -> sock_id x = id -> g x && k x = false) ->
    existsb (fun x => (sock_id x =? id) && g x && k x) (sockets (socks w)) = false) as Hall.
  { intros g k Hg. apply Bool.not_true_iff_false. intros (x & Hin & Hx)%existsb_exists.
    rewrite <- andb_assoc in Hx. apply andb_true_iff in Hx as [Hid Hx]. apply list_elem_of_In in Hin.
    rewrite Hg in Hx; [done | done | by apply Z.eqb_eq]. }
  rewrite Forall_forall in Hs.
  rewrite (Hall (fun x => bool_decide (state x = Listening)) (fun x => negb (bool_decide (accept_queue x = [])))).
  2: { intros x Hin Hid. destruct (Hs x Hin) as (_ & Hl & _). rewrite bool_decide_false; [done |].
    intros H. specialize (Hl H). by rewrite (Hd x Hin Hid) in Hl. }
  rewrite (Hall (fun x => bool_decide (socket_type x = Dgram)) (fun x => negb (bool_decide (sock_rx x = [])))).
  2: { intros x Hin _. destruct (Hs x Hin) as (-> & _). by rewrite andb_false_r. }
  apply find_some in Hf as [Hin%list_elem_of_In Hid%Z.eqb_eq]. rewrite (Hd s Hin Hid). by rewrite andb_false_r.
Qed.

(** A datagram waits, [recv] returns it, and the socket is not ready. *)
Lemma datagram_never_ready_witness : exists w w', steps sample_host start sample_ops = Ret w /\
  is_read_ready w 1 = false /\ recv w 1 10 = Ret (inl [65; 66], w', []).
Proof.
  destruct (datagram_never_ready sample_host sample_ops 1) as (w & E & Hr).
  - split; by unfold u_ty.
  - apply sample_ops_ty.
  - exists w. vm_compute in E. injection E as <-. eexists. split; [vm_compute; reflexivity |].
    split; [| vm_compute; reflexivity]. apply Hr. intros s Hin Hid. cbn [socks sockets] in Hin.
    rewrite !elem_of_cons, elem_of_nil in Hin. destruct Hin as [-> | [-> | []]]; [reflexivity | discriminate Hid].
Defined.

End SocketApi.
